(* ===== verification/_CoqProject ===== *)
-Q . S2P
Prelude.v
JsString.v
Digits.v
Effects.v
AclPaths.v
AclCatalog.v
AclResolve.v
Acl.v
AclTheory.v
AclEdit.v
AclEditTheory.v
AclEditTargets.v
Quota.v
Jobs.v
JobsTheory.v
Leases.v
Owners.v
Balancing.v
BalancingMoves.v
BalancingTheory.v
Fleet.v
BalancingModel.v
Grants.v
GrantsTheory.v
OpenFga.v
Projects.v
Reconcile.v
ReconcileTheory.v
Worker.v
JsNumber.v
MetalLB.v
Throttle.v
SignIn.v
SignInTheory.v
Uri.v
Rewrite.v
Merge.v
Preflight.v
Program.v
Secrets.v
Sessions.v
SessionsTheory.v
Front.v
FrontTheory.v
Gateway.v
GatewayTheory.v
Facade.v
FacadeTheory.v
K8sModel.v
Services.v
Transfer.v
Mobility.v
MobilityTheory.v
Replication.v
Backups.v
Restore.v
BackupsTheory.v
Rebalance.v
RebalanceTheory.v
Create.v
Endpoint.v
K8sJobs.v
K8sJobsTheory.v
TenantCloud.v
K8sRoutes.v
TenantCloudTheory.v
Members.v
Inventory.v
FleetRoutes.v
Requests.v
Suggest.v
Upgrade.v
CapiStatus.v
AgentProjects.v
EndpointPin.v
Agent.v
AgentTheory.v
Watchdog.v
Activity.v
