(* ===== verification/Prelude.v ===== *)
(** * A verification development for Incus Cloud

    Incus Cloud (the repository's [src/incuscloud]) is a control plane over
    several Incus clusters: tenants, quotas, an access control list, jobs that
    move, restore and balance instances, leases on instances, and a gateway
    that federates the clusters behind one API. [src/packages/k8s] is an agent
    that runs Kubernetes clusters on Incus. This library translates the logic
    of both into executable definitions and proves what makes it correct. Paths
    below are relative to [src/incuscloud/server/src], or to
    [src/packages/k8s/src] where they begin with [k8s:] and
    [src/packages/ui/src] where with [ui:].

    ** Files

    Shared:
    - [Prelude] (this file): automation, the array methods of JavaScript
      ([some], [every], [filter], [find], stable [sort]), comparators,
      locales.
    - [JsString], [Digits], [JsNumber], [Uri]: strings and their methods,
      insertion-ordered maps and sets, numbers and their text, [Number(s)] on
      integers, [encodeURIComponent] and its inverse.
    - [Effects]: [ApiError] ([lib/errors.ts]), results of code that may throw,
      JSON values.

    Access:
    - [AclPaths], [AclCatalog], [AclResolve], [Acl] ([acl/paths.ts],
      [acl/catalog.ts], [acl/resolve.ts], [acl/acl.ts]): paths, roles, the
      inheritance of entries along a path, and the snapshot of rows that every
      decision is made on. [AclTheory]: what decisions and list filters give.
    - [Grants] ([reconcile/grants.ts]), [GrantsTheory]: the OpenFGA tuples a
      cluster's store should hold, so that Incus itself decides as the ACL
      does.
    - [OpenFga] ([ui:util/openfga.ts]): the authorization model of Incus and
      how the UI reads a store; the tuples of [Grants] are well typed for it.
    - [AclEdit] ([acl/admins.ts], [acl/outrank.ts], [authz/guards.ts],
      [api/acl.ts], [api/users.ts]), [AclEditTheory], [AclEditTargets]: who
      may change entries and users, and which clusters a change concerns.
    - [Owners] ([acl/owners.ts], [acl/entries.ts], [acl/lifecycle.ts]): who
      owns an instance, and what follows it when it is renamed or deleted.
    - [Throttle] ([identity/throttle.ts]): the login throttle. [SignIn]
      ([identity/federation.ts], [identity/passwords.ts],
      [identity/routes.ts]), [SignInTheory]: signing in with a password or
      through an identity provider, and the memberships its claims give.
    - [Secrets] ([lib/secrets.ts]): secrets sealed at rest. [Sessions] (the
      rows of sessions and [freshSession] of [auth/principal.ts]),
      [SessionsTheory]: the refresh of a session's tokens, as steps of
      requests in flight. [Front] ([auth/principal.ts], [auth/session.ts],
      [authz/acl-authz.ts], [auth/oidc-proxy.ts]), [FrontTheory]: who a
      request comes from, how a session is opened and ended, what is passed to
      Hydra.

    Work on instances:
    - [Jobs] ([jobs/queue.ts], [jobs/runner.ts], [reconcile/lease.ts],
      [api/jobs.ts]): the queue and the workers as a step relation over any
      number of replicas and callers. [JobsTheory]: its invariants.
    - [Leases] ([leases/leases.ts]): leases on instances and their scheduler,
      which queues jobs ([Jobs.enqueueJob]).
    - [Balancing] ([balancing/engine.ts]), [BalancingMoves],
      [BalancingTheory]: the planner. [Fleet] ([fleet/collect.ts]) builds the
      inventory, [Inventory] ([fleet/store.ts], [fleet/worker.ts]) stores it,
      [BalancingModel] ([balancing/model.ts]) the planner's input from it,
      [Suggest] ([balancing/suggest.ts]) moves between clusters.
    - [Program]: programs that call services, run by an oracle that answers
      every call; [wp], [emits] and [guarded], the logic their theorems are
      proved in. [Services] ([mobility/facts.ts], [incus/admin-client.ts],
      helpers of [mobility/migrate-job.ts]): the calls jobs make on clusters,
      stores and the database, and what they read of a cluster.
    - [Preflight] ([mobility/preflight.ts]): whether an instance can go to
      another cluster, and the request that creates it there. [Transfer]
      ([mobility/transfer.ts]): the data, direct or relayed; the class
      [Transfers] is what the jobs rely on of it. [Mobility]
      ([mobility/migrate-job.ts]), [MobilityTheory]: copying and moving.
      [Replication] ([mobility/replication.ts]): replicas, failover and their
      scheduler.
    - [Backups] ([backups/backup-job.ts], [backups/store.ts]), [Restore]
      ([backups/restore-job.ts]), [BackupsTheory]: backups, retention and
      restores.
    - [Requests] ([api/mobility.ts], [api/replication.ts], [api/backups.ts]):
      the requests that queue these jobs, policies and targets. [FleetRoutes]
      ([api/fleet.ts]): searching the inventory, the requests on leases,
      metrics.
    - [Rebalance] ([balancing/jobs.ts], the calls of [fleet/collect.ts]),
      [RebalanceTheory]: the job that carries a plan of [Balancing] out, the
      jobs that evacuate and restore a member, their scheduler. [Create]
      ([tenants/create-job.ts]): the job that creates an instance.

    Kubernetes clusters of the cloud:
    - [K8sModel] ([k8s/model.ts]): sizes, specifications, what they count
      against a quota, versions. [Endpoint] ([k8s/endpoint.ts]): the member
      and port of a cluster's API, the forward that clusters of one address
      share, the instances a cluster left.
    - [K8sJobs] ([k8s/manifests.ts], [k8s/credentials.ts], [k8s/jobs.ts],
      [k8s/worker.ts], [k8s/metallb.ts]), [K8sJobsTheory]: the jobs that
      create and delete a cluster, a tenant's certificates, the
      synchronisation.

    Tenants:
    - [Members] ([api/tenants.ts]): tenants, who their members and owners are,
      the quotas of users.
    - [TenantCloud] ([api/tenant-cloud.ts], the reads of [tenants/limits.ts]):
      what a tenant uses and has asked for, the request that creates an
      instance. [K8sRoutes] ([api/kubernetes.ts]): the requests that create,
      scale, upgrade and delete a Kubernetes cluster. Both are transactions
      over the tables of [TenantCloud.Cloud]; [TenantCloudTheory] has them
      follow each other in any order.

    Reconciliation:
    - [Quota] ([tenants/quota.ts], [tenants/limits.ts],
      [tenants/placement.ts]): caps, the split of a quota, the choice of a
      cluster.
    - [Projects] ([reconcile/projects.ts], [reconcile/incus-config.ts]):
      projects, profiles and server configuration.
    - [Reconcile] ([reconcile/cluster.ts]), [ReconcileTheory]: one pass over a
      cluster, composed of [Projects], [Quota] and [Grants]. [Worker]
      ([reconcile/worker.ts], [reconcile/requests.ts]): the replicas that make
      passes, as a step relation over [Jobs.acquireLease].

    Federation:
    - [Rewrite] ([federation/rewrite.ts]): names qualified with their cluster
      in responses, targets and names of requests. [Merge]
      ([federation/merge.ts]): answers of several clusters as one.
    - [Gateway] ([gateway/route.ts], [gateway/handler.ts], the headers of
      [gateway/relay.ts], [gateway/clusters-cache.ts],
      [gateway/request-log.ts], [front.ts]), [GatewayTheory]: which part of
      the server answers a request, whom the gateway lets through to a
      cluster, and with what. [Facade] ([federation/handler.ts]),
      [FacadeTheory]: the federated API as a program over [Front], [Rewrite],
      [Merge] and [Quota.choose].

    Kubernetes agent:
    - [MetalLB] ([k8s:lib/metallb.ts], [k8s:lib/network-hint.ts]): addresses,
      ranges, pools and the block proposed on a network.
    - [Upgrade] ([k8s:lib/upgrade.ts], [k8s:lib/scale.ts],
      [k8s:lib/cluster-patch.ts]): version steps and the patch an edit
      becomes.
    - [CapiStatus] ([k8s:lib/capi-status.ts], [k8s:lib/lifecycle.ts]): live
      status from Cluster API objects, and the cached status over time.
    - [Watchdog] ([k8s:lib/controller-health.ts], [k8s:lib/self-heal.ts]):
      machines out of sight and the restarts of the controllers, as steps of
      looks in flight. [Activity] ([k8s:lib/activity.ts]): logs, events and
      the timeline.
    - [Agent] ([k8s:routes/clusters.ts], [k8s:db/repo.ts],
      [k8s:lib/metallb-ops.ts]), [AgentTheory]: the records of clusters and the
      requests on them, as steps of requests in flight. [EndpointPin]
      ([k8s:lib/endpoint-pin.ts]): the address of a cluster's API.
      [AgentProjects] ([k8s:lib/projects.ts] and the provisioning in
      [k8s:routes/clusters.ts]): the Incus project a cluster is made in.

    ** How the code is translated

    A pure function is a Rocq function of the same name. Code that threads a
    database table is a function on the table (a list of rows, or a finite
    map), an [UPDATE ... WHERE] is one map over the rows that match. Code that
    may throw returns [result], a sum, or an option. What runs concurrently
    ([Jobs], [Worker], [Watchdog], [Sessions], [Agent]) is a step relation whose steps are the awaited
    database statements, so that replicas interleave between any two of them.
    Fuel: the planner's loop runs with [plan_fuel], one more than the moves it
    may make, and [BalancingTheory.plan_outcome] shows how it stops; the
    address search of [MetalLB] has the size of the subnet, and
    [MetalLB.suggestRange_highest] shows that the search ends before. Every
    other recursion is structural.

    Numbers that are integers in the code are [Z]; the planner's ratios, doubles
    in the code, are exact rationals, so rounding is not modelled; integers
    above 2^53 are taken exactly. Strings are byte strings and the patterns the
    code matches are ASCII. Objects used as maps keep insertion order
    ([js_map]) where the order shows and are finite maps where it does not;
    names that clash with [Object.prototype] are not modelled. Types of a
    field that the schema validates are assumed. Ids are accepted in either
    case; the database matches and stores them in lower case
    ([AclEdit.uuid_of]), and JavaScript compares them as they were sent, which
    the definitions keep apart.

    Parameters stand for code outside the repository: the collation order
    ([Locale]), SHA-256 as [digest12], [JSON.parse] in [Preflight], the path of
    a [URL] in [Rewrite], Incus and OpenFGA as records of functions on a world
    ([Reconcile.Incus]), which chunks of a write OpenFGA takes
    ([Grants.Taken]: a write is not a transaction, and what is refused is not
    looked at), or, in [AgentProjects], as a function from the trace of
    requests to the next answer, the API server's side of a JSON patch
    ([Upgrade.JsonPatch], a class with the laws of RFC 6902 and an instance),
    AES-GCM ([Secrets.Cipher], a class with an instance), the parts of a [URL]
    and [JSON.parse] in [Facade], Hydra's answers in [Sessions] and [Front].

    ** What is shown

    Decisions: resolution gives what its declarative specification
    ([AclResolve.decider], [AclResolve.granted]) says, the scope of a list is
    the decisions on its members while entries on their projects propagate, the
    disabled hold nothing, and the relations written to a cluster never give
    more than the decisions, and as much for uniform roles, in tuples that are
    well typed; nobody changes what someone above them decided and an
    administrator stays, as long as ids are written as the database does, and
    the clusters a change concerns are all asked to reconcile; the login
    throttle is never stricter than the failures there were, and as strict
    until it evicts; an account of a provider signs in as nobody but its own user, and
    its memberships follow its claims; a caller is who its token or session
    says, a session is opened only by the sign-in of its own browser, and no
    refresh token is spent twice. Work: no
    job runs twice, one job per instance, leases exclude; a lease job acts only
    on a lease that has ended; a plan is legal, within capacity, keeps guests
    apart, reports its own effect and stops for a reason. Reconciliation: a
    pass that ends ready has converged if OpenFGA took what it wrote, and a scan
    repairs whatever earlier passes left, every request is served by a pass that began after it. Federation: names split
    exactly where they were qualified, stripping undoes qualifying on what is
    not a URL, merged
    answers lose nothing; neither the gateway nor the federated API reaches a
    cluster its caller may not access, as anyone but the caller, and a change
    reaches one cluster at most. Addresses: the proposal is the highest free block.
    Upgrades: a patch that is accepted upgrades from the version checked, by
    one step. Moves: whatever clusters and the database answer, a source is
    deleted only once its copy was verified, a rollback touches only what the
    job made, a transfer leaves no operation behind, replication and restores
    overwrite nothing that is not theirs, retention keeps the newest backups; a
    rebalance keeps to its policy and starts again what it stopped; a creation
    keeps to the tenant's project. Tenants: requests that follow each other never
    promise more than the pool while what was made is in the recorded usage, nor
    give two clusters one endpoint; requests about members keep an owner, and who
    makes them may; an instance is sent only where its
    sender may create one, and every backup keeps its target; a list shows
    exactly what is decided to be seen while entries on projects propagate; after a pass the inventory of a cluster
    is what was read of it.
    Kubernetes clusters: a specification that is accepted is counted in full, the
    forward of one cluster leaves the ports of the others, only instances of a
    deleted cluster are removed, a deletion goes in order, a creation announces
    what was seen, a trusted certificate is in the secret with its key or was
    asked to be untrusted; as long as requests that reserve
    addresses do not overlap, no address is given twice; as long as looks of the
    watchdog do not overlap, its restarts are bounded; the timeline counts every
    occurrence once and finds the year of a line. Where the code does not do what it means to, a theorem says what
    it does instead (the lost relations of mixed roles, the orphaned job, the
    unread project, configuration values that end in a cluster's name,
    addresses with an empty prefix, the cached status that forgets, the way back
    from a sign-in to another host, the connection that skips the check of its
    origin, memory without a unit, growth of a cluster that is counted once or
    not at all, owners who remove each other, the cluster an instance is on
    written in upper case, ids in upper case that pass the checks on
    administrators, members and locks, grants that were refused and recorded,
    bodies that change nothing,
    administrators who remove each other at once, instances that inherit the
    owner of one that went unseen, addresses given twice or lost by requests in
    flight, a failed creation that takes an existing project with it).

    ** Not modelled

    The routes of the API that only read and write rows, moving the bytes of
    relayed requests and websockets, Hydra's side of the OAuth flows, the
    database schema and its migrations, process start-up, logging and audit
    records: I/O and wiring without logic of their own. The stores of backups
    and the bytes of transfers are single calls of [Services]. The web
    applications ([src/incuscloud/web], [src/packages/ui]) are React views.
    [src/firecloud] is written in Go. What would
    come next: the routes of
    the API that list and show ([api/]), and the pure helpers of the web UI. *)

From Stdlib Require QArith.Qcanon.
From Stdlib Require Export Ascii.
From stdpp Require Export base gmap strings list numbers option sorting pretty.

(** * Shared notation, automation and lemmas *)

Declare Scope js_scope.
Delimit Scope js_scope with js.

(** ** Automation *)

Create HintDb incus.

(** Case analysis on every [match] scrutinee of the goal or of a hypothesis,
    with the equations simplified on the way. *)
Ltac split_matches :=
  repeat (case_match; simplify_eq/=).

(** Turns boolean hypotheses into propositions. *)
Ltac bool_prop :=
  repeat match goal with
  | H : _ && _ = true |- _ => apply andb_prop in H as [??]
  | H : _ && _ = false |- _ => apply andb_false_iff in H
  | H : _ || _ = true |- _ => apply orb_prop in H
  | H : _ || _ = false |- _ => apply orb_false_elim in H as [??]
  | H : negb _ = true |- _ => apply negb_true_iff in H
  | H : negb _ = false |- _ => apply negb_false_iff in H
  | H : bool_decide _ = true |- _ => apply bool_decide_eq_true in H
  | H : bool_decide _ = false |- _ => apply bool_decide_eq_false in H
  end.

(** ** JavaScript values *)

(** [x ?? d] on a value that may be absent is stdpp's [default d x]. *)

(** Truthiness of strings, numbers and of optional values. *)
Definition truthy_str (s : string) : bool := negb (bool_decide (s = EmptyString)).
Definition truthy_opt_str (o : option string) : bool :=
  match o with Some s => truthy_str s | None => false end.
Definition truthy_Z (z : Z) : bool := negb (z =? 0)%Z.

(** [xs.includes(x)] *)
Definition includes `{EqDecision A} (l : list A) (x : A) : bool := bool_decide (x ∈ l).

(** [xs.some(p)], [xs.every(p)], [xs.find(p)] *)
Definition some {A} (p : A → bool) (l : list A) : bool := existsb p l.
Definition every {A} (p : A → bool) (l : list A) : bool := forallb p l.
Definition js_find {A} (p : A → bool) (l : list A) : option A := List.find p l.

(** [xs.filter(p)] with a boolean predicate. *)
Definition js_filter {A} (p : A → bool) (l : list A) : list A := List.filter p l.

Lemma includes_spec `{EqDecision A} (l : list A) x : includes l x = true ↔ x ∈ l.
Proof. unfold includes. apply bool_decide_eq_true. Qed.

Lemma includes_false `{EqDecision A} (l : list A) x : includes l x = false ↔ x ∉ l.
Proof. unfold includes. apply bool_decide_eq_false. Qed.

Lemma some_spec {A} (p : A → bool) l : some p l = true ↔ ∃ x, x ∈ l ∧ p x = true.
Proof.
  unfold some. rewrite existsb_exists.
  split; intros (x & ? & ?); exists x; by rewrite ?list_elem_of_In in *.
Qed.

Lemma some_false {A} (p : A → bool) l : some p l = false ↔ ∀ x, x ∈ l → p x = false.
Proof.
  split.
  - intros H x Hx. destruct (p x) eqn:E; [|done].
    assert (some p l = true) as Ht by (apply some_spec; eauto). congruence.
  - intros H. destruct (some p l) eqn:E; [|done].
    apply some_spec in E as (x & Hx & Hp). rewrite H in Hp; done.
Qed.

Lemma some_ext {A} (p q : A → bool) l : (∀ x, x ∈ l → p x = q x) → some p l = some q l.
Proof.
  unfold some. induction l as [|x l IH]; simpl; intros Hp; [done|].
  rewrite (Hp x) by (by left). rewrite IH; [done|]. intros y ?. apply Hp. by right.
Qed.

Lemma every_spec {A} (p : A → bool) l : every p l = true ↔ ∀ x, x ∈ l → p x = true.
Proof.
  unfold every. rewrite forallb_forall.
  split; intros H x ?; apply H; by rewrite ?list_elem_of_In in *.
Qed.

Lemma elem_of_js_filter {A} (p : A → bool) l x :
  x ∈ js_filter p l ↔ x ∈ l ∧ p x = true.
Proof. unfold js_filter. rewrite !list_elem_of_In. apply filter_In. Qed.

Lemma js_find_some {A} (p : A → bool) l x :
  js_find p l = Some x → x ∈ l ∧ p x = true.
Proof. unfold js_find. rewrite list_elem_of_In. apply find_some. Qed.

Lemma js_find_none {A} (p : A → bool) l :
  js_find p l = None → ∀ x, x ∈ l → p x = false.
Proof. unfold js_find. intros H x. rewrite list_elem_of_In. by apply find_none. Qed.

Lemma js_find_absent {A} (p : A → bool) l : (∀ x, x ∈ l → p x = false) → js_find p l = None.
Proof.
  unfold js_find. induction l as [|y l IH]; intros Hl; [done|]. simpl. rewrite (Hl y) by by left.
  apply IH. intros x Hx. apply Hl. by right.
Qed.
Lemma js_find_snoc {A} (p : A → bool) l x : js_find p l = None → js_find p (l ++ [x]) = if p x then Some x else None.
Proof. unfold js_find. induction l as [|y l IH]; simpl; [by destruct (p x)|]. by destruct (p y). Qed.
Lemma js_filter_snoc {A} (p : A → bool) l x : js_filter p (l ++ [x]) = js_filter p l ++ (if p x then [x] else []).
Proof. unfold js_filter. rewrite List.filter_app. simpl. by destruct (p x). Qed.
Lemma js_filter_length {A} (p : A → bool) l : length (js_filter p l) = length l → js_filter p l = l.
Proof.
  unfold js_filter. induction l as [|x l IH]; [done|]. simpl. destruct (p x); simpl; intros Hl; [f_equal; apply IH; lia|].
  pose proof (List.filter_length_le p l). lia.
Qed.

Lemma js_filter_nil {A} (p : A → bool) l :
  js_filter p l = [] ↔ ∀ x, x ∈ l → p x = false.
Proof.
  split.
  - intros H x Hx. destruct (p x) eqn:E; [|done].
    assert (x ∈ js_filter p l) as Hin by (by apply elem_of_js_filter).
    rewrite H in Hin. by apply not_elem_of_nil in Hin.
  - intros H. destruct (js_filter p l) as [|x r] eqn:E; [done|].
    assert (x ∈ js_filter p l) as Hin by (rewrite E; by left).
    apply elem_of_js_filter in Hin as [Hin Hp]. rewrite H in Hp; done.
Qed.

Lemma js_filter_app {A} (p : A → bool) l l' : js_filter p (l ++ l') = js_filter p l ++ js_filter p l'.
Proof. apply List.filter_app. Qed.

Lemma js_filter_ext {A} (p q : A → bool) l :
  (∀ x, x ∈ l → p x = q x) → js_filter p l = js_filter q l.
Proof.
  intros H. apply filter_ext_in. intros x ?. apply H. by apply list_elem_of_In.
Qed.

Lemma js_filter_filter {A} (p q : A → bool) l :
  js_filter p (js_filter q l) = js_filter (λ x, q x && p x) l.
Proof.
  unfold js_filter. induction l as [|x l IH]; simpl; [done|].
  destruct (q x); simpl; [|done]. by rewrite IH.
Qed.

Lemma js_filter_fmap {A B} (p : B → bool) (q : A → bool) (f : A → B) l :
  (∀ x, p (f x) = q x) → js_filter p (f <$> l) = f <$> js_filter q l.
Proof.
  intros H. unfold js_filter. induction l as [|x l IH]; csimpl; [done|].
  rewrite H. destruct (q x); csimpl; by rewrite IH.
Qed.

Lemma js_filter_all {A} (p : A → bool) l : (∀ x, x ∈ l → p x = true) → js_filter p l = l.
Proof.
  unfold js_filter. induction l as [|x l IH]; simpl; intros H; [done|].
  rewrite (H x) by (by left). rewrite IH; [done|]. intros y ?. apply H. by right.
Qed.

Lemma js_filter_sublist {A} (p : A → bool) l : js_filter p l `sublist_of` l.
Proof.
  unfold js_filter. induction l as [|x l IH]; simpl; [done|].
  destruct (p x); by constructor.
Qed.

Lemma sublist_of_fmap {A B} (f : A → B) l l' : l `sublist_of` l' → (f <$> l) `sublist_of` (f <$> l').
Proof. induction 1; cbn; by constructor. Qed.

(** An invariant of a loop over a list. *)
Lemma foldl_inv {A B} (P : B → Prop) (f : B → A → B) l b :
  P b → (∀ b x, x ∈ l → P b → P (f b x)) → P (foldl f b l).
Proof.
  revert b. induction l as [|x l IH]; intros b Hb Hstep; simpl; [done|].
  apply IH; [apply Hstep; [by left|done]|]. intros b' y Hy. apply Hstep. by right.
Qed.

(** ** Comparators and [Array.prototype.sort]

    A comparator is a function to [comparison] (the sign of the number the
    source's comparator returns); [cmp_then] is the source's [c1 || c2]. *)
Definition cmp_then (a b : comparison) : comparison :=
  match a with Eq => b | _ => a end.

Class Comparator {A} (cmp : A → A → comparison) : Prop := {
  cmp_opp x y : cmp y x = CompOpp (cmp x y);
  cmp_trans x y z : cmp x y ≠ Gt → cmp y z ≠ Gt → cmp x z ≠ Gt;
}.

Arguments cmp_opp {A} cmp {_} x y.
Arguments cmp_trans {A} cmp {_} x y z.

Section comparators.
Context {A : Type} (cmp : A → A → comparison) `{!Comparator cmp}.

Lemma cmp_refl x : cmp x x = Eq.
Proof. pose proof (cmp_opp cmp x x). by destruct (cmp x x). Qed.

Lemma cmp_total x y : cmp x y ≠ Gt ∨ cmp y x ≠ Gt.
Proof. rewrite (cmp_opp cmp x y). destruct (cmp x y); simpl; auto. Qed.

Lemma cmp_eq_trans x y z : cmp x y = Eq → cmp y z = Eq → cmp x z = Eq.
Proof.
  intros Hxy Hyz.
  assert (cmp x z ≠ Gt) by (apply (cmp_trans cmp _ y); congruence).
  assert (cmp z x ≠ Gt) as Hzx.
  { apply (cmp_trans cmp _ y).
    - rewrite (cmp_opp cmp y z), Hyz; done.
    - rewrite (cmp_opp cmp x y), Hxy; done. }
  rewrite (cmp_opp cmp x z) in Hzx. by destruct (cmp x z).
Qed.

Lemma cmp_lt_le_trans x y z : cmp x y = Lt → cmp y z ≠ Gt → cmp x z = Lt.
Proof.
  intros Hxy Hyz. destruct (cmp x z) eqn:E; [|done|].
  - assert (cmp y x ≠ Gt) as Hyx.
    { apply (cmp_trans cmp _ z); [done|]. rewrite (cmp_opp cmp x z), E. done. }
    rewrite (cmp_opp cmp x y), Hxy in Hyx. done.
  - exfalso. revert E. apply (cmp_trans cmp _ y); congruence.
Qed.

Lemma cmp_le_lt_trans x y z : cmp x y ≠ Gt → cmp y z = Lt → cmp x z = Lt.
Proof.
  intros Hxy Hyz. destruct (cmp x z) eqn:E; [|done|].
  - assert (cmp z y ≠ Gt) as Hzy.
    { apply (cmp_trans cmp _ x); [|done]. rewrite (cmp_opp cmp x z), E. done. }
    rewrite (cmp_opp cmp y z), Hyz in Hzy. done.
  - exfalso. revert E. apply (cmp_trans cmp _ y); congruence.
Qed.
End comparators.

Lemma comparator_then {A} (c1 c2 : A → A → comparison) :
  Comparator c1 → Comparator c2 → Comparator (λ x y, cmp_then (c1 x y) (c2 x y)).
Proof.
  intros H1 H2. split.
  - intros x y. rewrite (cmp_opp c1 x y), (cmp_opp c2 x y).
    by destruct (c1 x y).
  - intros x y z Hxy Hyz.
    destruct (c1 x y) eqn:E1; simpl in *; [| |done].
    + destruct (c1 y z) eqn:E2; simpl in *; [| |done].
      * rewrite (cmp_eq_trans c1 x y z); [|done..]. simpl.
        by apply (cmp_trans c2 _ y).
      * rewrite (cmp_le_lt_trans c1 x y z); [done|congruence|done].
    + rewrite (cmp_lt_le_trans c1 x y z); [done|done|].
      destruct (c1 y z); done.
Qed.

Lemma comparator_on {A B} (f : A → B) (c : B → B → comparison) :
  Comparator c → Comparator (λ x y, c (f x) (f y)).
Proof. intros H. split; [intros; apply (cmp_opp c)|intros x y z; apply (cmp_trans c)]. Qed.

Lemma comparator_flip {A} (c : A → A → comparison) :
  Comparator c → Comparator (λ x y, c y x).
Proof.
  intros H. split; [intros; apply (cmp_opp c)|].
  intros x y z Hxy Hyz. by apply (cmp_trans c _ y).
Qed.

Global Instance comparator_Z : Comparator Z.compare.
Proof.
  split; [intros; apply Z.compare_antisym|].
  intros x y z Hxy Hyz. change (x ≤ z)%Z. by trans y.
Qed.

Global Instance comparator_Qc : Comparator Qcanon.Qccompare.
Proof.
  split.
  - intros x y. unfold Qcanon.Qccompare. symmetry. apply QArith_base.Qcompare_antisym.
  - intros x y z Hxy Hyz. apply Qcanon.Qcle_alt.
    apply Qcanon.Qcle_alt in Hxy. apply Qcanon.Qcle_alt in Hyz.
    by apply (Qcanon.Qcle_trans _ y).
Qed.

Section sort.
Context {A : Type} (cmp : A → A → comparison).

(** Stable insertion: [x] stood before the whole of [l]. *)
Fixpoint insert_sorted (x : A) (l : list A) : list A :=
  match l with
  | [] => [x]
  | y :: l' => match cmp x y with
               | Gt => y :: insert_sorted x l'
               | _ => x :: y :: l'
               end
  end.

(** [xs.sort(cmp)]: stable, as ECMAScript requires since 2019. *)
Fixpoint js_sort (l : list A) : list A :=
  match l with
  | [] => []
  | x :: l' => insert_sorted x (js_sort l')
  end.

Lemma insert_sorted_perm x l : insert_sorted x l ≡ₚ x :: l.
Proof.
  induction l as [|y l IH]; simpl; [done|].
  destruct (cmp x y); [done..|]. rewrite IH. constructor.
Qed.

Lemma js_sort_perm l : js_sort l ≡ₚ l.
Proof. induction l as [|x l IH]; simpl; [done|]. by rewrite insert_sorted_perm, IH. Qed.

Lemma elem_of_js_sort x l : x ∈ js_sort l ↔ x ∈ l.
Proof. by rewrite js_sort_perm. Qed.

Lemma length_js_sort l : length (js_sort l) = length l.
Proof. by rewrite js_sort_perm. Qed.

Context `{!Comparator cmp}.

Definition cmp_le (x y : A) : Prop := cmp x y ≠ Gt.

Lemma insert_sorted_sorted x l :
  StronglySorted cmp_le l → StronglySorted cmp_le (insert_sorted x l).
Proof.
  induction 1 as [|y l Hs IH Hy]; simpl; [repeat constructor|].
  destruct (cmp x y) eqn:E.
  1,2: constructor; [by constructor|]; constructor;
    [unfold cmp_le; congruence|];
    eapply Forall_impl; [exact Hy|]; intros z Hz;
    unfold cmp_le in *; eapply (cmp_trans cmp); [|exact Hz]; congruence.
  constructor; [done|].
  rewrite insert_sorted_perm. constructor; [|done].
  unfold cmp_le. rewrite (cmp_opp cmp x y), E. done.
Qed.

Lemma js_sort_sorted l : StronglySorted cmp_le (js_sort l).
Proof. induction l; simpl; [constructor|]. by apply insert_sorted_sorted. Qed.

(** The first element of a sorted list is below every element. *)
Lemma js_sort_head_min l x r :
  js_sort l = x :: r → x ∈ l ∧ ∀ y, y ∈ l → cmp_le x y.
Proof.
  intros E. pose proof (js_sort_sorted l) as Hs. rewrite E in Hs.
  apply StronglySorted_inv in Hs as [_ Hf]. split.
  - apply elem_of_js_sort. rewrite E. by left.
  - intros y Hy. apply elem_of_js_sort in Hy. rewrite E in Hy.
    apply elem_of_cons in Hy as [->|Hy].
    + unfold cmp_le. by rewrite cmp_refl.
    + rewrite Forall_forall in Hf. by apply Hf.
Qed.
End sort.

Lemma js_sort_nil {A} (cmp : A → A → comparison) l : js_sort cmp l = [] ↔ l = [].
Proof.
  split; [|by intros ->]. intros E.
  pose proof (js_sort_perm cmp l) as P. rewrite E in P. by apply Permutation_nil in P.
Qed.

#[export] Hint Resolve js_sort_perm js_sort_sorted : incus.

(** ** [localeCompare]

    The collation order depends on the host's locale, so it is a parameter;
    what the source relies on is that it compares consistently and tells
    different strings apart. *)
Class Locale := {
  locale_compare : string → string → comparison;
  locale_comparator :: Comparator locale_compare;
  locale_compare_eq s t : locale_compare s t = Eq → s = t;
}.

Lemma string_compare_trans s1 s2 s3 :
  String.compare s1 s2 ≠ Gt → String.compare s2 s3 ≠ Gt → String.compare s1 s3 ≠ Gt.
Proof.
  revert s2 s3. induction s1 as [|a1 s1 IH]; intros [|a2 s2] [|a3 s3] H1 H2; simpl in *; try done.
  unfold Ascii.compare in *.
  destruct (N.compare_spec (Ascii.N_of_ascii a1) (Ascii.N_of_ascii a2)) as [E1|E1|E1]; [| |done];
  destruct (N.compare_spec (Ascii.N_of_ascii a2) (Ascii.N_of_ascii a3)) as [E2|E2|E2]; try done.
  - rewrite E1, E2, N.compare_refl. by eapply IH.
  - rewrite E1. assert ((Ascii.N_of_ascii a2 ?= Ascii.N_of_ascii a3)%N = Lt) as -> by (by apply N.compare_lt_iff). done.
  - rewrite <-E2. assert ((Ascii.N_of_ascii a1 ?= Ascii.N_of_ascii a2)%N = Lt) as -> by (by apply N.compare_lt_iff). done.
  - assert ((Ascii.N_of_ascii a1 ?= Ascii.N_of_ascii a3)%N = Lt) as -> by (apply N.compare_lt_iff; lia). done.
Qed.

Global Instance comparator_string : Comparator String.compare.
Proof.
  split; [intros; apply String.compare_antisym|apply string_compare_trans].
Qed.

(** The locale that orders strings by their code units, for concrete runs. *)
Definition code_unit_locale : Locale.
Proof.
  refine {| locale_compare := String.compare |}.
  intros s t. apply String.compare_eq_iff.
Defined.
