(* ===== verification/JsString.v ===== *)
(** * JsString: strings and insertion-ordered maps and sets

    The operations of [String.prototype] the program uses, over ASCII strings,
    and [Map] and [Set] as lists in insertion order, for the places where the
    program iterates over them. *)

From S2P Require Import Prelude.

(** ** Strings *)

Notation "a '+++' b" := (String.append a b) (at level 60, right associativity) : js_scope.
Open Scope js_scope.
Global Arguments String.append : simpl nomatch.

Definition starts_with (p s : string) : bool := String.prefix p s.

(** [s.slice(n)] for [0 <= n]. *)
Fixpoint str_drop (n : nat) (s : string) : string :=
  match n, s with
  | 0, _ => s
  | S n, String _ s => str_drop n s
  | S _, EmptyString => EmptyString
  end.

(** [s.slice(0, n)] for [0 <= n]. *)
Fixpoint str_take (n : nat) (s : string) : string :=
  match n, s with
  | 0, _ => EmptyString
  | S n, String c s => String c (str_take n s)
  | S _, EmptyString => EmptyString
  end.

Definition ends_with (p s : string) : bool :=
  let n := String.length s - String.length p in
  (String.length p <=? String.length s) && bool_decide (str_drop n s = p).

Fixpoint str_forall (p : Ascii.ascii → bool) (s : string) : bool :=
  match s with
  | EmptyString => true
  | String c s => p c && str_forall p s
  end.

Definition char_is (c d : Ascii.ascii) : bool := bool_decide (c = d).

(** [s.split(c)] for a one-character separator. *)
Fixpoint split_on (c : Ascii.ascii) (s : string) : list string :=
  match s with
  | EmptyString => [EmptyString]
  | String a s =>
      if char_is a c then EmptyString :: split_on c s
      else match split_on c s with
           | [] => [String a EmptyString]
           | h :: t => String a h :: t
           end
  end.

(** [l.join(sep)] *)
Fixpoint join (sep : string) (l : list string) : string :=
  match l with
  | [] => EmptyString
  | [x] => x
  | x :: l => x +++ sep +++ join sep l
  end.

(** [s.includes(c)] for a one-character needle. *)
Fixpoint has_char (c : Ascii.ascii) (s : string) : bool :=
  match s with
  | EmptyString => false
  | String a s => char_is a c || has_char c s
  end.

(** [s.includes(pat)] *)
Fixpoint str_contains (pat s : string) : bool :=
  starts_with pat s || match s with EmptyString => false | String _ s => str_contains pat s end.

(** [s.indexOf(c)], [None] for -1. *)
Fixpoint index_of (c : Ascii.ascii) (s : string) : option nat :=
  match s with
  | EmptyString => None
  | String a s => if char_is a c then Some 0 else S <$> index_of c s
  end.

(** [s.lastIndexOf(c)], [None] for -1. *)
Fixpoint last_index_of (c : Ascii.ascii) (s : string) : option nat :=
  match s with
  | EmptyString => None
  | String a s =>
      match last_index_of c s with
      | Some n => Some (S n)
      | None => if char_is a c then Some 0 else None
      end
  end.

Definition in_range (lo hi : Ascii.ascii) (c : Ascii.ascii) : bool :=
  (Ascii.N_of_ascii lo <=? Ascii.N_of_ascii c)%N && (Ascii.N_of_ascii c <=? Ascii.N_of_ascii hi)%N.
Definition is_digit : Ascii.ascii → bool := in_range "0"%char "9"%char.
Definition is_lower : Ascii.ascii → bool := in_range "a"%char "z"%char.
Definition is_upper : Ascii.ascii → bool := in_range "A"%char "Z"%char.
Definition is_alnum (c : Ascii.ascii) : bool := is_upper c || is_lower c || is_digit c.

(** [toLowerCase], on ASCII. *)
Definition lower_char (c : Ascii.ascii) : Ascii.ascii :=
  if is_upper c then Ascii.ascii_of_N (Ascii.N_of_ascii c + 32) else c.
Fixpoint toLowerCase (s : string) : string :=
  match s with EmptyString => EmptyString | String c s => String (lower_char c) (toLowerCase s) end.

(** White space as [trim] and [\s] see it, within ASCII. *)
Definition is_js_space (c : Ascii.ascii) : bool :=
  (in_range "009" "013" c || char_is c " ")%char.

Fixpoint trim_start (s : string) : string :=
  match s with
  | EmptyString => EmptyString
  | String c s' => if is_js_space c then trim_start s' else s
  end.
Fixpoint trim_end (s : string) : string :=
  match s with
  | EmptyString => EmptyString
  | String c s' =>
      match trim_end s' with
      | EmptyString => if is_js_space c then EmptyString else String c EmptyString
      | r => String c r
      end
  end.
Definition trim (s : string) : string := trim_end (trim_start s).

(** Decimal digits as a number, and back ([Number(s)], [String(n)]). *)
Definition digit_val (c : Ascii.ascii) : Z := (Z.of_N (Ascii.N_of_ascii c) - 48)%Z.
Fixpoint digits_acc (acc : Z) (s : string) : Z :=
  match s with
  | EmptyString => acc
  | String c s => digits_acc (acc * 10 + digit_val c)%Z s
  end.
Definition digits_val (s : string) : Z := digits_acc 0 s.
Definition all_digits (s : string) : bool := truthy_str s && str_forall is_digit s.

Definition show_Z (z : Z) : string := pretty.pretty z.

(** ** Lemmas on strings *)

Lemma append_nil_r s : s +++ EmptyString = s.
Proof. induction s; simpl; by f_equal. Qed.

Lemma append_assoc a b c : (a +++ b) +++ c = a +++ (b +++ c).
Proof. induction a; simpl; by f_equal. Qed.

Lemma append_inj_l a b c : a +++ b = a +++ c → b = c.
Proof. induction a; simpl; intros; simplify_eq; auto. Qed.

Lemma length_append a b : String.length (a +++ b) = String.length a + String.length b.
Proof. induction a; simpl; congruence. Qed.

Lemma append_inj_r a b c : a +++ c = b +++ c → a = b.
Proof.
  revert b. induction a as [|x a IH]; intros [|y b] H; simpl in *; simplify_eq; try done.
  - apply (f_equal String.length) in H. simpl in H. rewrite length_append in H. lia.
  - apply (f_equal String.length) in H. simpl in H. rewrite length_append in H. lia.
  - f_equal. by apply IH.
Qed.

Lemma starts_with_append p s : starts_with p (p +++ s) = true.
Proof.
  unfold starts_with. induction p as [|a p IH]; simpl; [by destruct s|].
  by destruct (Ascii.ascii_dec a a).
Qed.

Lemma starts_with_inv p s : starts_with p s = true → ∃ r, s = p +++ r.
Proof.
  unfold starts_with. revert s. induction p as [|a p IH]; intros s H; [by exists s|].
  destruct s as [|b s]; [done|]. simpl in H.
  destruct (Ascii.ascii_dec a b) as [->|]; [|done].
  destruct (IH _ H) as [r ->]. by exists r.
Qed.

Lemma starts_with_spec p s : starts_with p s = true ↔ ∃ r, s = p +++ r.
Proof. split; [apply starts_with_inv|]. intros [r ->]. apply starts_with_append. Qed.

Lemma str_drop_append p s : str_drop (String.length p) (p +++ s) = s.
Proof. by induction p. Qed.

Lemma str_take_append p s : str_take (String.length p) (p +++ s) = p.
Proof. induction p; simpl; [by destruct s|by f_equal]. Qed.

Lemma ends_with_append p s : ends_with p (s +++ p) = true.
Proof.
  unfold ends_with. rewrite length_append.
  replace (String.length s + String.length p - String.length p) with (String.length s) by lia.
  rewrite str_drop_append, bool_decide_true by done. rewrite andb_true_r. apply Nat.leb_le. lia.
Qed.

Lemma str_take_drop n s : str_take n s +++ str_drop n s = s.
Proof. revert s. induction n; intros [|c s]; simpl; try done. by rewrite IHn. Qed.

Lemma ends_with_inv p s : ends_with p s = true → ∃ r, s = r +++ p.
Proof.
  unfold ends_with. intros H. bool_prop.
  exists (str_take (String.length s - String.length p) s).
  rewrite <-(str_take_drop (String.length s - String.length p) s) at 1. congruence.
Qed.

Lemma str_forall_append p a b : str_forall p (a +++ b) = str_forall p a && str_forall p b.
Proof. induction a; simpl; [done|]. by rewrite IHa, andb_assoc. Qed.

Lemma has_char_append c a b : has_char c (a +++ b) = has_char c a || has_char c b.
Proof. induction a; simpl; [done|]. by rewrite IHa, orb_assoc. Qed.

Lemma str_forall_no_char p c s :
  str_forall p s = true → p c = false → has_char c s = false.
Proof.
  intros H Hc. induction s as [|a s IH]; simpl in *; [done|].
  apply andb_prop in H as [Ha Hs]. rewrite (IH Hs), orb_false_r.
  unfold char_is. apply bool_decide_eq_false. intros ->. congruence.
Qed.

Lemma split_on_nonempty c s : split_on c s ≠ [].
Proof. destruct s; simpl; [done|]. destruct (char_is _ _); [done|]. by destruct (split_on c s). Qed.

Lemma split_on_no_char c s : has_char c s = false → split_on c s = [s].
Proof.
  induction s as [|a s IH]; simpl; [done|].
  intros H. apply orb_false_elim in H as [Ha Hs]. by rewrite Ha, (IH Hs).
Qed.

Lemma split_on_cons c a s :
  has_char c a = false → split_on c (a +++ String c s) = a :: split_on c s.
Proof.
  induction a as [|x a IH]; simpl; intros H.
  - unfold char_is. by rewrite bool_decide_true.
  - apply orb_false_elim in H as [Hx Ha]. by rewrite Hx, (IH Ha).
Qed.

Lemma join_split c s : join (String c EmptyString) (split_on c s) = s.
Proof.
  induction s as [|a s IH]; simpl; [done|].
  unfold char_is. case_bool_decide as E; subst.
  - destruct (split_on c s) as [|h t] eqn:Es; [by destruct (split_on_nonempty c s)|].
    simpl in IH |- *. by rewrite IH.
  - destruct (split_on c s) as [|h t] eqn:Es; [by destruct (split_on_nonempty c s)|].
    destruct t; simpl in IH |- *; by rewrite IH.
Qed.

Lemma split_on_parts c s : Forall (λ p, has_char c p = false) (split_on c s).
Proof.
  induction s as [|a s IH]; simpl; [by repeat constructor|].
  destruct (char_is a c) eqn:E; [by constructor|].
  destruct (split_on c s) as [|h t]; [constructor; simpl; by rewrite ?E|].
  inversion IH; subst. constructor; [|done]. simpl. by rewrite E.
Qed.

Lemma split_join c l :
  l ≠ [] → Forall (λ p, has_char c p = false) l →
  split_on c (join (String c EmptyString) l) = l.
Proof.
  intros Hl H. induction H as [|x l Hx Hl' IH]; [done|].
  destruct l as [|y l]; simpl; [by apply split_on_no_char|].
  simpl in IH. rewrite split_on_cons by done. f_equal. by apply IH.
Qed.

Lemma last_index_of_none c s : has_char c s = false → last_index_of c s = None.
Proof.
  induction s as [|x s IH]; simpl; [done|].
  intros H. apply orb_false_elim in H as [Hx Hs]. by rewrite (IH Hs), Hx.
Qed.

Lemma last_index_of_append c a b :
  has_char c b = false → last_index_of c (a +++ String c b) = Some (String.length a).
Proof.
  intros H. induction a as [|x a IH]; simpl.
  - rewrite last_index_of_none by done. unfold char_is. by rewrite bool_decide_true.
  - by rewrite IH.
Qed.

Lemma last_index_of_inv c s n : last_index_of c s = Some n →
  s = str_take n s +++ String c (str_drop (S n) s) ∧ has_char c (str_drop (S n) s) = false.
Proof.
  revert n. induction s as [|a s IH]; intros n; simpl; [done|].
  destruct (last_index_of c s) as [m|] eqn:E.
  - intros [= <-]. destruct (IH m eq_refl) as [Hs Hc]. simpl. split; [|done]. by f_equal.
  - destruct (char_is a c) eqn:Ea; [|done]. intros [= <-]. unfold char_is in Ea. apply bool_decide_eq_true in Ea as ->.
    simpl. split; [by destruct s|]. clear IH. induction s as [|x s IH]; [done|]. simpl in *.
    destruct (last_index_of c s) eqn:Es; [done|]. destruct (char_is x c); [done|]. simpl in *. by apply IH.
Qed.

Create Rewrite HintDb js.
#[export] Hint Rewrite append_nil_r append_assoc length_append str_drop_append
  str_take_append has_char_append str_forall_append : js.

(** ** [Map] with insertion order *)

Section js_map.
Context {K V : Type} `{EqDecision K}.

(** A [Map]: its entries in the order of their keys' first insertion. *)
Definition js_map := list (K * V).

Fixpoint map_get (m : js_map) (k : K) : option V :=
  match m with
  | [] => None
  | (k', v) :: m => if bool_decide (k = k') then Some v else map_get m k
  end.

Fixpoint map_set (m : js_map) (k : K) (v : V) : js_map :=
  match m with
  | [] => [(k, v)]
  | (k', v') :: m => if bool_decide (k = k') then (k', v) :: m else (k', v') :: map_set m k v
  end.

Fixpoint map_delete (m : js_map) (k : K) : js_map :=
  match m with
  | [] => []
  | (k', v') :: m => if bool_decide (k = k') then m else (k', v') :: map_delete m k
  end.

Definition map_has (m : js_map) (k : K) : bool :=
  match map_get m k with Some _ => true | None => false end.

(** The keys of a [Map] are distinct. *)
Definition map_wf (m : js_map) : Prop := NoDup m.*1.

Lemma map_get_set m k v k' :
  map_get (map_set m k v) k' = if bool_decide (k' = k) then Some v else map_get m k'.
Proof.
  induction m as [|[x y] m IH]; simpl; [done|].
  repeat (case_bool_decide; subst; simpl); naive_solver.
Qed.

Lemma elem_of_map_set m k v kv : kv ∈ map_set m k v → kv ∈ m ∨ kv = (k, v).
Proof.
  induction m as [|[x y] m IH]; simpl; [rewrite list_elem_of_singleton; auto|].
  case_bool_decide; subst; rewrite !elem_of_cons; naive_solver.
Qed.

Lemma map_get_Some_elem m k v : map_get m k = Some v → (k, v) ∈ m.
Proof.
  induction m as [|[x y] m IH]; simpl; [done|].
  case_bool_decide; intros; simplify_eq; [by left|right; auto].
Qed.

Lemma map_get_None m k : map_get m k = None ↔ k ∉ m.*1.
Proof.
  induction m as [|[x y] m IH]; simpl; [split; [intros _; apply not_elem_of_nil|done]|].
  rewrite not_elem_of_cons. case_bool_decide; [|rewrite IH; tauto].
  split; [done|]. intros [? _]; congruence.
Qed.

Lemma map_get_elem m k v : map_wf m → (k, v) ∈ m → map_get m k = Some v.
Proof.
  unfold map_wf. induction m as [|[x y] m IH]; simpl; [by intros _ ?%not_elem_of_nil|].
  intros [Hx Hm]%NoDup_cons [?|Hin]%elem_of_cons; simplify_eq.
  - by rewrite bool_decide_true.
  - rewrite bool_decide_false; [auto|]. intros ->. apply Hx.
    apply list_elem_of_fmap. by exists (x, v).
Qed.

Lemma map_set_keys m k v :
  (map_set m k v).*1 = if bool_decide (k ∈ m.*1) then m.*1 else m.*1 ++ [k].
Proof.
  induction m as [|[x y] m IH]; simpl; [done|].
  destruct (decide (k = x)) as [->|Hne].
  - rewrite !bool_decide_true; [done|by left|done].
  - rewrite (bool_decide_false (k = x)) by done. csimpl. rewrite IH.
    rewrite (bool_decide_ext (k ∈ x :: m.*1) (k ∈ m.*1)) by set_solver.
    by case_bool_decide.
Qed.

Lemma map_wf_set m k v : map_wf m → map_wf (map_set m k v).
Proof.
  unfold map_wf. intros H. rewrite map_set_keys. case_bool_decide as E; [done|].
  apply NoDup_app. repeat split; [done| |apply NoDup_singleton].
  set_solver.
Qed.

Lemma elem_of_map_delete m k kv : map_wf m → kv ∈ map_delete m k ↔ kv ∈ m ∧ kv.1 ≠ k.
Proof.
  unfold map_wf. induction m as [|[x y] m IH]; simpl; [set_solver|].
  intros [Hx Hm]%NoDup_cons. case_bool_decide; subst.
  - rewrite elem_of_cons. split; [|naive_solver].
    intros Hin. split; [by right|]. intros E. apply Hx, list_elem_of_fmap. by exists kv.
  - rewrite !elem_of_cons, IH by done. naive_solver.
Qed.

Lemma map_get_delete m k k' :
  map_wf m →
  map_get (map_delete m k) k' = if bool_decide (k' = k) then None else map_get m k'.
Proof.
  unfold map_wf. induction m as [|[x y] m IH]; simpl; [intros; by case_bool_decide|].
  intros [Hx Hm]%NoDup_cons. destruct (decide (k = x)) as [->|Hne].
  - rewrite bool_decide_true by done. case_bool_decide; subst; [by apply map_get_None|done].
  - rewrite bool_decide_false by done. simpl. rewrite (IH Hm).
    repeat case_bool_decide; congruence.
Qed.

Lemma map_delete_keys m k : (map_delete m k).*1 `sublist_of` m.*1.
Proof.
  induction m as [|[x y] m IH]; simpl; [done|].
  case_bool_decide; simpl; by constructor.
Qed.

Lemma map_wf_delete m k : map_wf m → map_wf (map_delete m k).
Proof. unfold map_wf. intros H. eapply sublist_NoDup; [exact H|apply map_delete_keys]. Qed.

Lemma map_wf_nil : map_wf [].
Proof. constructor. Qed.
End js_map.
Arguments js_map : clear implicits.

#[export] Hint Resolve map_wf_set map_wf_delete map_wf_nil : incus.

(** ** [Set] with insertion order *)

Section js_set.
Context {A : Type} `{EqDecision A}.

Definition set_add (s : list A) (x : A) : list A := if includes s x then s else s ++ [x].
(** [new Set(l)] *)
Definition set_of (l : list A) : list A := foldl set_add [] l.

Lemma elem_of_set_add s x y : y ∈ set_add s x ↔ y ∈ s ∨ y = x.
Proof.
  unfold set_add, includes. case_bool_decide; [|set_solver].
  split; [auto|]. intros [?| ->]; done.
Qed.

Lemma NoDup_set_add s x : NoDup s → NoDup (set_add s x).
Proof.
  unfold set_add, includes. intros H. case_bool_decide; [done|].
  apply NoDup_app. repeat split; [done|set_solver|apply NoDup_singleton].
Qed.

Lemma elem_of_foldl_set_add l s y : y ∈ foldl set_add s l ↔ y ∈ s ∨ y ∈ l.
Proof.
  revert s. induction l as [|x l IH]; intros s; simpl; [set_solver|].
  rewrite IH, elem_of_set_add, elem_of_cons. tauto.
Qed.

Lemma elem_of_set_of l y : y ∈ set_of l ↔ y ∈ l.
Proof. unfold set_of. rewrite elem_of_foldl_set_add. set_solver. Qed.

Lemma NoDup_set_of l : NoDup (set_of l).
Proof.
  unfold set_of. assert (∀ s, NoDup s → NoDup (foldl set_add s l)) as H.
  { induction l; simpl; [done|]. intros. apply IHl. by apply NoDup_set_add. }
  apply H. constructor.
Qed.
End js_set.

#[export] Hint Resolve NoDup_set_add NoDup_set_of : incus.
