(* ===== verification/Digits.v ===== *)
(** * Digits: decimal text

    [Number] of a run of digits, [String] of a number, and how they undo each
    other; cutting a run of characters off the front of a string, as the
    source's regular expressions do. *)

From S2P Require Import Prelude JsString.

(** The longest prefix whose characters satisfy [p], and the rest. *)
Fixpoint span (p : Ascii.ascii → bool) (s : string) : string * string :=
  match s with
  | EmptyString => (EmptyString, EmptyString)
  | String c s' => if p c then let '(a, b) := span p s' in (String c a, b) else (EmptyString, s)
  end.

Definition starts_not (p : Ascii.ascii → bool) (s : string) : bool :=
  match s with EmptyString => true | String c _ => negb (p c) end.

Lemma span_append p a b :
  str_forall p a = true → starts_not p b = true → span p (a +++ b) = (a, b).
Proof.
  intros Ha Hb. induction a as [|c a IH]; simpl in *.
  - destruct b as [|d b]; [done|]. simpl in *. by destruct (p d).
  - apply andb_prop in Ha as [-> Ha]. by rewrite (IH Ha).
Qed.

Lemma span_spec p s : let '(a, b) := span p s in
  s = a +++ b ∧ str_forall p a = true ∧ starts_not p b = true.
Proof.
  induction s as [|c s IH]; simpl; [done|].
  destruct (p c) eqn:E; [|split; [done|]; simpl; by rewrite E].
  destruct (span p s) as [a b]. destruct IH as (-> & Ha & Hb). simpl. rewrite E, Ha. done.
Qed.

Lemma digits_acc_app acc a b : digits_acc acc (a +++ b) = digits_acc (digits_acc acc a) b.
Proof. revert acc. induction a as [|c a IH]; intros acc; simpl; [done|]. apply IH. Qed.

Lemma pretty_N_char_digit x : (x < 10)%N → is_digit (pretty.pretty_N_char x) = true ∧ digit_val (pretty.pretty_N_char x) = Z.of_N x.
Proof.
  intros Hx.
  assert (x = 0 ∨ x = 1 ∨ x = 2 ∨ x = 3 ∨ x = 4 ∨ x = 5 ∨ x = 6 ∨ x = 7 ∨ x = 8 ∨ x = 9)%N as Hc by lia.
  repeat (destruct Hc as [->|Hc]; [done|]). by subst.
Qed.

Lemma pretty_N_go_app x s : pretty.pretty_N_go x s = pretty.pretty_N_go x EmptyString +++ s.
Proof.
  revert s. induction (N.lt_wf_0 x) as [x _ IH]; intros s.
  destruct (decide (x = 0)%N) as [->|Hx]; [done|].
  rewrite (pretty.pretty_N_go_step x s), (pretty.pretty_N_go_step x EmptyString) by lia.
  rewrite IH by (apply N.div_lt; lia).
  rewrite (IH (x `div` 10)%N ltac:(apply N.div_lt; lia) (String _ EmptyString)).
  by rewrite append_assoc.
Qed.

Lemma digits_pretty_N_go x :
  str_forall is_digit (pretty.pretty_N_go x EmptyString) = true
  ∧ digits_val (pretty.pretty_N_go x EmptyString) = Z.of_N x.
Proof.
  induction (N.lt_wf_0 x) as [x _ IH].
  destruct (decide (x = 0)%N) as [->|Hx]; [done|].
  rewrite pretty.pretty_N_go_step by lia. rewrite pretty_N_go_app.
  destruct (IH (x `div` 10)%N) as [Hd Hv]; [apply N.div_lt; lia|].
  destruct (pretty_N_char_digit (x `mod` 10)) as [Hc Hcv]; [apply N.mod_lt; lia|].
  rewrite str_forall_append, Hd. simpl. rewrite Hc. split; [done|].
  unfold digits_val in *. rewrite digits_acc_app, Hv. simpl. rewrite Hcv.
  rewrite N2Z.inj_div, N2Z.inj_mod. pose proof (Z.div_mod (Z.of_N x) 10). lia.
Qed.

Lemma pretty_N_go_nonempty x : (0 < x)%N → pretty.pretty_N_go x EmptyString ≠ EmptyString.
Proof.
  intros Hx. rewrite pretty.pretty_N_go_step, pretty_N_go_app by done.
  by destruct (pretty.pretty_N_go (x `div` 10) EmptyString).
Qed.

Lemma show_Z_spec z :
  (0 ≤ z)%Z → str_forall is_digit (show_Z z) = true ∧ show_Z z ≠ EmptyString ∧ digits_val (show_Z z) = z.
Proof.
  intros Hz. unfold show_Z, pretty.pretty, pretty.pretty_Z. destruct z as [|p|p]; [done| |lia].
  unfold pretty.pretty, pretty.pretty_N. destruct (decide (N.pos p = 0%N)) as [He|Hn]; [done|].
  destruct (digits_pretty_N_go (N.pos p)) as [H1 H2]. split; [exact H1|]. split; [|exact H2].
  apply pretty_N_go_nonempty. lia.
Qed.

Lemma digits_show z : (0 ≤ z)%Z → digits_val (show_Z z) = z.
Proof. intros Hz. by apply show_Z_spec. Qed.
Lemma all_digits_show z : (0 ≤ z)%Z → all_digits (show_Z z) = true.
Proof.
  intros Hz. destruct (show_Z_spec z Hz) as (Hd & Hn & _). unfold all_digits, truthy_str.
  by rewrite bool_decide_eq_false_2, Hd.
Qed.

Lemma is_digit_bounds c : is_digit c = true → (0 ≤ digit_val c ≤ 9)%Z.
Proof.
  unfold is_digit, in_range, digit_val. intros [H1 H2]%andb_prop.
  apply N.leb_le in H1, H2. change (Ascii.N_of_ascii "0") with 48%N in H1.
  change (Ascii.N_of_ascii "9") with 57%N in H2. lia.
Qed.

Lemma digits_acc_nonneg acc s : (0 ≤ acc)%Z → str_forall is_digit s = true → (0 ≤ digits_acc acc s)%Z.
Proof.
  revert acc. induction s as [|c s IH]; intros acc Ha; simpl; [done|].
  intros [Hc%is_digit_bounds Hs]%andb_prop. apply IH; [lia|done].
Qed.

Lemma is_digit_not_space c : is_digit c = true → is_js_space c = false.
Proof. destruct c as [[] [] [] [] [] [] [] []]; by vm_compute. Qed.

#[export] Hint Resolve digits_show all_digits_show digits_acc_nonneg : incus.
