(* ===== verification/Effects.v ===== *)
(** * Effects: errors, results and numbers as text

    [ApiError] of [lib/errors.ts], the result of code that may throw it, and
    the text of numbers in messages. *)

From S2P Require Import Prelude JsString.

(** An error with an HTTP status and a stable machine-readable code. *)
Record ApiError := { status : Z; code : string; message : string }.

(** A computation that returns or throws. *)
Inductive result (A : Type) :=
  | Ok (x : A)
  | Throw (e : ApiError).
Arguments Ok {A} x.
Arguments Throw {A} e.

Global Instance result_ret : MRet result := λ A x, Ok x.
Global Instance result_bind : MBind result := λ A B f m,
  match m with Ok x => f x | Throw e => Throw e end.

Definition throw {A} (st : Z) (c m : string) : result A :=
  Throw {| status := st; code := c; message := m |}.
Definition is_ok {A} (r : result A) : bool := match r with Ok _ => true | Throw _ => false end.

Lemma result_bind_Ok {A B} (m : result A) (f : A → result B) y :
  m ≫= f = Ok y ↔ ∃ x, m = Ok x ∧ f x = Ok y.
Proof. destruct m; simpl; split; [eauto|by intros (? & [= ->] & ?)|done|by intros (? & ? & ?)]. Qed.

(** Text in double quotes. *)
Definition dquote : string := String (Ascii.ascii_of_nat 34) EmptyString.
Definition quoted (s : string) : string := dquote +++ s +++ dquote.

(** [(n / d).toFixed(1)] for [0 <= n] and [0 < d]: the nearest tenth, the
    larger of two. *)
Definition to_fixed1 (n d : Z) : string :=
  let t := ((20 * n + d) / (2 * d))%Z in
  show_Z (t / 10) +++ "." +++ show_Z (t `mod` 10).

Definition GiB : Z := (1024 ^ 3)%Z.
(** [(n / GiB).toFixed(1)] *)
Definition show_GiB (n : Z) : string := to_fixed1 n GiB.

Lemma GiB_pos : (0 < GiB)%Z.
Proof. reflexivity. Qed.

Example to_fixed1_half : to_fixed1 (5 * GiB + GiB / 4) GiB = "5.3".
Proof. vm_compute. reflexivity. Qed.

(** ** Reachability under a step relation *)
Section rtc_invariant.
Context {S : Type} (step : S → S → Prop).

Lemma rtc_preserves (P : S → Prop) s s' :
  (∀ x y, P x → step x y → P y) → P s → rtc step s s' → P s'.
Proof. intros Hstep HP Hr. induction Hr; eauto. Qed.
End rtc_invariant.

#[export] Hint Resolve GiB_pos : incus.

(** ** JSON values *)
Local Set Warnings "-register-all".

Inductive Json :=
  | JNull
  | JBool (b : bool)
  | JNum (n : Z)
  | JStr (s : string)
  | JArr (l : list Json)
  | JObj (l : list (string * Json)).

(** Induction on a value: every element and every entry is smaller. *)
Section json_induction.
Context (P : Json → Prop).
Context (Hnull : P JNull) (Hbool : ∀ b, P (JBool b)) (Hnum : ∀ n, P (JNum n)) (Hstr : ∀ s, P (JStr s)).
Context (Harr : ∀ l, Forall P l → P (JArr l)) (Hobj : ∀ l, Forall (λ kx, P kx.2) l → P (JObj l)).

Fixpoint json_induction (v : Json) : P v :=
  match v with
  | JNull => Hnull
  | JBool b => Hbool b
  | JNum n => Hnum n
  | JStr s => Hstr s
  | JArr l => Harr l ((fix go l : Forall P l :=
                         match l with
                         | [] => Forall_nil_2 _
                         | x :: l => Forall_cons_2 _ _ _ (json_induction x) (go l)
                         end) l)
  | JObj l => Hobj l ((fix go l : Forall (λ kx, P kx.2) l :=
                         match l with
                         | [] => Forall_nil_2 _
                         | kx :: l => Forall_cons_2 _ _ _ (json_induction kx.2) (go l)
                         end) l)
  end.
End json_induction.
