(* ===== verification/AclPaths.v ===== *)
(** * AclPaths: permission paths

    Models [acl/paths.ts]: the paths permission entries are set on, their
    syntax, and the chain of paths whose entries can decide for one. *)

From S2P Require Import Prelude JsString.

Inductive AclPath :=
  | PRoot
  | PPlatform
  | PCluster (cluster : string)
  | PGroup (cluster group : string)
  | PProject (cluster project : string)
  | PInstance (cluster project instance : string)
  | PTenant (tenant : string)
  | PKubernetes (tenant name : string).

Global Instance AclPath_eq_dec : EqDecision AclPath.
Proof. solve_decision. Defined.

(** [NAME]: an alphanumeric, then at most 62 of [A-Za-z0-9._-]. *)
Definition name_char (c : ascii) : bool :=
  is_alnum c || char_is c "." || char_is c "_" || char_is c "-".
Definition NAME (s : string) : bool :=
  match s with
  | EmptyString => false
  | String c r => is_alnum c && str_forall name_char r && (String.length r <=? 62)
  end.

(** [parts.some((x, i) => i % 2 === 1 && !NAME.test(x))] *)
Fixpoint bad_names (parts : list string) (i : nat) : bool :=
  match parts with
  | [] => false
  | x :: parts => (Nat.odd i && negb (NAME x)) || bad_names parts (S i)
  end.

Definition str_is (a b : string) : bool := bool_decide (a = b).

(** The segments after the leading slash. *)
Definition parse_parts (parts : list string) : option AclPath :=
  if bad_names parts 0 then None
  else match parts with
  | [a; b] =>
      if str_is a "clusters" then Some (PCluster b)
      else if str_is a "tenants" then Some (PTenant b)
      else None
  | [a; b; c; d] =>
      if str_is a "clusters" && str_is c "groups" then Some (PGroup b d)
      else if str_is a "clusters" && str_is c "projects" then Some (PProject b d)
      else if str_is a "tenants" && str_is c "kubernetes" then Some (PKubernetes b d)
      else None
  | [a; b; c; d; e; f] =>
      if str_is a "clusters" && str_is c "projects" && str_is e "instances"
      then Some (PInstance b d f)
      else None
  | _ => None
  end.

Definition parsePath (s : string) : option AclPath :=
  if str_is s "/" then Some PRoot
  else if str_is s "/platform" then Some PPlatform
  else if negb (starts_with "/" s) then None
  else parse_parts (split_on "/" (str_drop 1 s)).

Definition formatPath (p : AclPath) : string :=
  match p with
  | PRoot => "/"
  | PPlatform => "/platform"
  | PCluster c => "/clusters/" +++ c
  | PGroup c g => "/clusters/" +++ c +++ "/groups/" +++ g
  | PProject c p => "/clusters/" +++ c +++ "/projects/" +++ p
  | PInstance c p i => "/clusters/" +++ c +++ "/projects/" +++ p +++ "/instances/" +++ i
  | PTenant t => "/tenants/" +++ t
  | PKubernetes t n => "/tenants/" +++ t +++ "/kubernetes/" +++ n
  end.

(** The paths whose entries can decide for [p], most specific first. *)
Section chain.
Context (tenantOf : string → string → option string).

Definition chain_root : list string := ["/"].
Definition chain_cluster (c : string) : list string :=
  formatPath (PCluster c) :: chain_root.
Definition chain_tenant (t : string) : list string :=
  formatPath (PTenant t) :: chain_root.
Definition chain_project (c p : string) : list string :=
  formatPath (PProject c p)
    :: match tenantOf c p with
       | Some t => if truthy_str t then ["/tenants/" +++ t] else []
       | None => []
       end
    ++ chain_cluster c.

Definition chain (p : AclPath) : list string :=
  match p with
  | PRoot => chain_root
  | PPlatform => formatPath p :: chain_root
  | PTenant t => chain_tenant t
  | PCluster c => chain_cluster c
  | PGroup c _ => formatPath p :: chain_cluster c
  | PKubernetes t _ => formatPath p :: chain_tenant t
  | PProject c pr => chain_project c pr
  | PInstance c pr _ => formatPath p :: chain_project c pr
  end.
End chain.

(** ** Well-formed paths *)

Definition path_names (p : AclPath) : list string :=
  match p with
  | PRoot | PPlatform => []
  | PCluster c => [c]
  | PGroup c g => [c; g]
  | PProject c p => [c; p]
  | PInstance c p i => [c; p; i]
  | PTenant t => [t]
  | PKubernetes t n => [t; n]
  end.
Definition path_wf (p : AclPath) : Prop := Forall (λ n, NAME n = true) (path_names p).

Lemma NAME_no_slash s : NAME s = true → has_char "/" s = false.
Proof.
  destruct s as [|c r]; simpl; [done|]. intros H. bool_prop.
  destruct (char_is c "/") eqn:E.
  - unfold char_is in E. bool_prop. subst. done.
  - simpl. by apply (str_forall_no_char name_char).
Qed.

#[export] Hint Resolve NAME_no_slash : incus.

Lemma NAME_nonempty s : NAME s = true → s ≠ EmptyString.
Proof. by destruct s. Qed.

Lemma str_is_true a b : str_is a b = true ↔ a = b.
Proof. apply bool_decide_eq_true. Qed.
Lemma str_is_refl a : str_is a a = true.
Proof. by apply str_is_true. Qed.
Lemma str_is_false a b : str_is a b = false ↔ a ≠ b.
Proof. apply bool_decide_eq_false. Qed.

(** The segments of a formatted path. *)
Definition path_parts (p : AclPath) : list string :=
  match p with
  | PRoot => [EmptyString]
  | PPlatform => ["platform"]
  | PCluster c => ["clusters"; c]
  | PGroup c g => ["clusters"; c; "groups"; g]
  | PProject c p => ["clusters"; c; "projects"; p]
  | PInstance c p i => ["clusters"; c; "projects"; p; "instances"; i]
  | PTenant t => ["tenants"; t]
  | PKubernetes t n => ["tenants"; t; "kubernetes"; n]
  end.

Lemma formatPath_parts p : formatPath p = String "/" (join "/" (path_parts p)).
Proof. by destruct p; simpl; rewrite ?append_assoc. Qed.

Lemma path_parts_no_slash p :
  path_wf p → Forall (λ s, has_char "/" s = false) (path_parts p).
Proof.
  unfold path_wf. intros H.
  destruct p; simpl in *; repeat (apply Forall_cons in H as [? H]);
    repeat (constructor; [by auto with incus|]); constructor.
Qed.

Lemma split_path_parts p :
  path_wf p → split_on "/" (join "/" (path_parts p)) = path_parts p.
Proof. intros. apply split_join; [by destruct p|by apply path_parts_no_slash]. Qed.

Lemma parse_path_parts p :
  path_wf p → p ≠ PRoot → p ≠ PPlatform → parse_parts (path_parts p) = Some p.
Proof.
  unfold path_wf, parse_parts. intros H ??.
  destruct p; try done; simpl in *; repeat (apply Forall_cons in H as [-> H]); done.
Qed.

Lemma parse_parts_Some parts p :
  parse_parts parts = Some p → parts = path_parts p ∧ path_wf p ∧ p ≠ PRoot ∧ p ≠ PPlatform.
Proof.
  unfold parse_parts, path_wf. intros H.
  destruct (bad_names parts 0) eqn:Hbad; [done|].
  destruct parts as [|a [|b [|c [|d [|e [|f [|]]]]]]]; try done; simpl in *;
    rewrite ?orb_false_r in Hbad; bool_prop; split_matches;
    bool_prop; repeat match goal with H : str_is _ _ = true |- _ => apply str_is_true in H; subst end;
    (split; [done|]); (split; [|done]); repeat constructor; done.
Qed.

Lemma parsePath_slash r :
  r ≠ EmptyString → r ≠ "platform" →
  parsePath (String "/" r) = parse_parts (split_on "/" r).
Proof.
  intros H1 H2. unfold parsePath.
  assert (str_is (String "/" r) "/" = false) as -> by (apply str_is_false; congruence).
  assert (str_is (String "/" r) "/platform" = false) as -> by (apply str_is_false; congruence).
  unfold starts_with. simpl. by destruct r.
Qed.

(** The parser accepts exactly the formatted well-formed paths. *)
Lemma parse_format p : path_wf p → parsePath (formatPath p) = Some p.
Proof.
  intros H. destruct (decide (p = PRoot)) as [->|]; [done|].
  destruct (decide (p = PPlatform)) as [->|]; [done|].
  rewrite formatPath_parts, parsePath_slash, split_path_parts, parse_path_parts; try done.
  - by destruct p.
  - by destruct p.
Qed.

Lemma format_parse s p : parsePath s = Some p → formatPath p = s ∧ path_wf p.
Proof.
  unfold parsePath. intros H.
  destruct (str_is s "/") eqn:E1; [apply str_is_true in E1; simplify_eq; repeat constructor|].
  destruct (str_is s "/platform") eqn:E2; [apply str_is_true in E2; simplify_eq; repeat constructor|].
  destruct (starts_with "/" s) eqn:E3; [|done].
  apply starts_with_inv in E3 as [r ->]. simpl in H.
  apply parse_parts_Some in H as (Hp & Hwf & _). split; [|done].
  rewrite formatPath_parts, <-Hp. f_equal. apply (join_split "/").
Qed.

Lemma formatPath_inj p q : path_wf p → path_wf q → formatPath p = formatPath q → p = q.
Proof.
  intros Hp Hq E. apply parse_format in Hp. apply parse_format in Hq. congruence.
Qed.


(** Paths and their text are in bijection: the text of a well-formed path (its names pass [NAME])
    parses back to that path, and whatever text parses is the text of the path it parses to, so two
    different texts never name one object. *)
Theorem path_roundtrip :
  (∀ p, path_wf p → parsePath (formatPath p) = Some p)
  ∧ (∀ s p, parsePath s = Some p → formatPath p = s ∧ path_wf p)
  ∧ (∀ s t p, parsePath s = Some p → parsePath t = Some p → s = t).
Proof.
  split; [apply parse_format|]. split; [apply format_parse|].
  intros s t p [<- _]%format_parse [<- _]%format_parse. done.
Qed.
