(* ===== verification/AclCatalog.v ===== *)
(** * AclCatalog: privileges and built-in roles

    Models [acl/catalog.ts]. A privilege is the string [<object>.<action>];
    roles are the fixed sets of privileges computed from the list. *)

From S2P Require Import Prelude JsString.

Definition PRIVILEGES : list string := [
  "instance.view"; "instance.console"; "instance.exec"; "instance.files"; "instance.power"; "instance.configure";
  "instance.snapshot"; "instance.create"; "instance.delete"; "instance.migrate"; "instance.relocate";
  "placement.choose";
  "storage.view"; "storage.allocate"; "storage.pools";
  "network.view"; "network.use"; "network.manage";
  "image.view"; "image.manage";
  "project.view"; "project.configure";
  "backup.view"; "backup.create"; "backup.restore"; "backup.delete"; "backup.schedule";
  "replication.view"; "replication.manage";
  "k8s.view"; "k8s.kubeconfig"; "k8s.provision"; "k8s.delete";
  "node.view"; "node.maintain"; "node.provision";
  "cluster.view"; "cluster.configure";
  "tenant.view"; "tenant.manage"; "tenant.members"; "tenant.quota";
  "acl.view"; "acl.manage";
  "platform.view"; "platform.users"; "platform.settings"; "platform.audit"
].

Inductive RoleId :=
  | RAdministrator | ROperator | RClusterOwner | RGroupOwner
  | RUnrestrictedUser | RUser | RTenantAdmin | RAuditor | RNoAccess.

Global Instance RoleId_eq_dec : EqDecision RoleId.
Proof. solve_decision. Defined.

Definition ROLE_IDS : list (string * RoleId) := [
  ("administrator", RAdministrator); ("operator", ROperator);
  ("cluster-owner", RClusterOwner); ("group-owner", RGroupOwner);
  ("unrestricted-user", RUnrestrictedUser); ("user", RUser);
  ("tenant-admin", RTenantAdmin); ("auditor", RAuditor); ("no-access", RNoAccess)
].

(** [isRoleId]: the role a string names, if any. *)
Definition isRoleId (s : string) : option RoleId := map_get ROLE_IDS s.

Record Role := {
  role_name : string;
  privileges : gset string;
  (** Held only on what the subject owns. *)
  ownedOnly : option (gset string);
}.

(** [of(prefix)] *)
Definition of_ (prefix : string) : list string :=
  js_filter (starts_with (prefix +++ ".")) PRIVILEGES.

(** [all(...groups)] *)
Definition all_ (groups : list (list string)) : gset string := list_to_set (mjoin groups).

Definition VIEWS : list string := js_filter (ends_with ".view") PRIVILEGES.

Definition WORKLOAD : list string :=
  of_ "instance" ++ ["placement.choose"; "storage.view"; "storage.allocate"]
  ++ of_ "network" ++ of_ "image" ++ of_ "project" ++ of_ "backup" ++ of_ "replication" ++ of_ "k8s".

Definition ROLES (r : RoleId) : Role :=
  match r with
  | RAdministrator => {| role_name := "Administrator"; privileges := all_ [PRIVILEGES]; ownedOnly := None |}
  | ROperator =>
      {| role_name := "Operator";
         privileges := all_ [js_filter (λ p, negb (includes ["acl.manage"; "platform.users"; "platform.settings"] p)) PRIVILEGES];
         ownedOnly := None |}
  | RClusterOwner =>
      {| role_name := "Cluster owner";
         privileges := all_ [WORKLOAD; ["storage.pools"]; of_ "node"; of_ "cluster"; of_ "acl"];
         ownedOnly := None |}
  | RGroupOwner =>
      {| role_name := "Group owner";
         privileges := all_ [WORKLOAD; ["node.view"]; ["node.maintain"]; ["cluster.view"]; of_ "acl"];
         ownedOnly := None |}
  | RUnrestrictedUser =>
      {| role_name := "Unrestricted user";
         privileges := all_ [WORKLOAD; ["cluster.view"]; ["tenant.view"]];
         ownedOnly := None |}
  | RUser =>
      {| role_name := "User";
         privileges := all_ [["instance.create"; "storage.view"; "storage.allocate"; "network.view"; "network.use";
                              "image.view"; "project.view"; "k8s.provision"; "cluster.view"; "tenant.view"]];
         ownedOnly := Some (all_ [of_ "instance"; of_ "backup"; of_ "k8s"]) |}
  | RTenantAdmin =>
      {| role_name := "Tenant admin";
         privileges := all_ [WORKLOAD; of_ "tenant"; of_ "acl"; ["cluster.view"]];
         ownedOnly := None |}
  | RAuditor =>
      {| role_name := "Auditor"; privileges := all_ [VIEWS; ["platform.audit"]]; ownedOnly := None |}
  | RNoAccess => {| role_name := "No access"; privileges := all_ []; ownedOnly := None |}
  end.

(** What a role gives on an object: with [owned], its owner-only privileges too. *)
Definition role_gives (r : RoleId) (owned : bool) : gset string :=
  privileges (ROLES r) ∪ (if owned then default ∅ (ownedOnly (ROLES r)) else ∅).

(** ** Lemmas *)

Definition catalog : gset string := list_to_set PRIVILEGES.

Lemma roles_in_catalog r owned : role_gives r owned ⊆ catalog.
Proof.
  assert (bool_decide (role_gives r owned ⊆ catalog) = true) as H.
  { destruct r, owned; vm_compute; reflexivity. }
  by apply bool_decide_eq_true in H.
Qed.

Lemma role_gives_owned r owned : role_gives r owned ⊆ role_gives r true.
Proof. unfold role_gives. destruct owned; set_solver. Qed.

Lemma role_gives_no_access owned : role_gives RNoAccess owned = ∅.
Proof. destruct owned; vm_compute; reflexivity. Qed.

#[export] Hint Resolve roles_in_catalog : incus.
