(* ===== verification/AclResolve.v ===== *)
(** * AclResolve: resolution over entries

    Models [acl/resolve.ts]: walking a chain of paths from the most specific,
    the first level with entries for one of the subject's keys decides. The
    specification says so by positions in the chain and by which entries count,
    without the search. *)

From S2P Require Import Prelude JsString AclCatalog.

Inductive EntrySource := FromAcl | FromPlatformRole | FromTenantMembership | FromServiceAccount.
Global Instance EntrySource_eq_dec : EqDecision EntrySource.
Proof. solve_decision. Defined.

Record Entry := {
  e_id : string;
  e_path : string;
  e_subject : string;
  e_role : RoleId;
  e_propagate : bool;
  e_source : EntrySource;
}.
Global Instance Entry_eq_dec : EqDecision Entry.
Proof. solve_decision. Defined.

(** [{ privileges, decidedBy }] *)
Definition Resolution : Type := gset string * list Entry.

Section resolve.
Context (subjects : list string) (entriesByPath : gmap string (list Entry)) (owned : bool).

(** The entries at level [i] that count for one of the keys. *)
Definition here_at (i : nat) (path : string) : list Entry :=
  js_filter (λ e, includes subjects (e_subject e) && ((i =? 0) || e_propagate e))
    (default [] (entriesByPath !! path)).

(** The subject's own entries (its first key) beat its groups'. *)
Definition own_first (here : list Entry) : list Entry :=
  let own := js_filter (λ e, bool_decide (Some (e_subject e) = head subjects)) here in
  match own with [] => here | _ => own end.

(** The privileges of the deciding entries; No access among them means nothing. *)
Definition combine (here : list Entry) : gset string :=
  if some (λ e, bool_decide (e_role e = RNoAccess)) here then ∅
  else ⋃ ((λ e, role_gives (e_role e) owned) <$> here).

Fixpoint resolve_from (i : nat) (chain : list string) : Resolution :=
  match chain with
  | [] => (∅, [])
  | path :: rest =>
      match here_at i path with
      | [] => resolve_from (S i) rest
      | here => let here := own_first here in (combine here, here)
      end
  end.

Definition resolve (chain : list string) : Resolution := resolve_from 0 chain.
End resolve.

(** ** Specification

    Read off the documentation of roles and entries, without the search and the
    lists of the code: which entries count at a level of the chain, which level
    is the nearest that has one, which of its entries decide there, and what
    they give. *)
Section specification.
Context (keys : list string) (by_path : gmap string (list Entry)) (owned : bool) (chain : list string).

(** An entry for one of the keys, set on the path of level [i]; away from the first level only if it propagates. *)
Definition counts (i : nat) (e : Entry) : Prop :=
  (∃ path es, chain !! i = Some path ∧ by_path !! path = Some es ∧ e ∈ es)
  ∧ e_subject e ∈ keys ∧ (i = 0 ∨ e_propagate e = true).
Definition nearest (i : nat) : Prop := (∃ e, counts i e) ∧ ∀ j e, j < i → ¬ counts j e.
(** An entry of the subject itself, not of one of its groups. *)
Definition is_own (e : Entry) : Prop := keys !! 0 = Some (e_subject e).
Definition decider (e : Entry) : Prop :=
  ∃ i, nearest i ∧ counts i e ∧ (is_own e ∨ ∀ e', counts i e' → ¬ is_own e').
Definition role_has (r : RoleId) (privilege : string) : Prop :=
  privilege ∈ privileges (ROLES r)
  ∨ owned = true ∧ ∃ only, ownedOnly (ROLES r) = Some only ∧ privilege ∈ only.
Definition granted (privilege : string) : Prop :=
  (∃ e, decider e ∧ role_has (e_role e) privilege) ∧ ∀ e, decider e → e_role e ≠ RNoAccess.
End specification.

Section lemmas.
Context (keys : list string) (by_path : gmap string (list Entry)).

Lemma elem_of_here_at i path e :
  e ∈ here_at keys by_path i path ↔
  (∃ es, by_path !! path = Some es ∧ e ∈ es) ∧ e_subject e ∈ keys ∧ (i = 0 ∨ e_propagate e = true).
Proof.
  unfold here_at. rewrite elem_of_js_filter, andb_true_iff, includes_spec, orb_true_iff, Nat.eqb_eq.
  destruct (by_path !! path) as [es|]; simpl.
  - split; [intros (? & ? & ?); split; [eauto|done]|].
    intros [(es' & ? & ?) ?]. simplify_eq. done.
  - split; [intros [?%not_elem_of_nil ?]; done|]. by intros [(? & ? & ?) ?].
Qed.

Lemma here_at_S i path : here_at keys by_path (S i) path = here_at keys by_path 1 path.
Proof. reflexivity. Qed.

Lemma resolve_from_cons owned i path rest :
  here_at keys by_path i path = [] →
  resolve_from keys by_path owned i (path :: rest) = resolve_from keys by_path owned (S i) rest.
Proof. intros H. simpl. by rewrite H. Qed.

Lemma resolve_from_here owned i path rest es :
  here_at keys by_path i path = es → es ≠ [] →
  resolve_from keys by_path owned i (path :: rest) =
    (combine owned (own_first keys es), own_first keys es).
Proof. intros H ?. simpl. rewrite H. by destruct es. Qed.

(** Past the first level only the number of levels is forgotten. *)
Lemma resolve_from_S owned i chain :
  resolve_from keys by_path owned (S i) chain = resolve_from keys by_path owned 1 chain.
Proof.
  revert i. induction chain as [|p l IH]; intros i; [done|].
  cbn [resolve_from]. by rewrite (IH (S i)), (IH 1), !here_at_S.
Qed.

Lemma own_first_nonempty es : es ≠ [] → own_first keys es ≠ [].
Proof. unfold own_first. by destruct (js_filter _ es). Qed.

Lemma own_first_subset es e : e ∈ own_first keys es → e ∈ es.
Proof.
  unfold own_first. destruct (js_filter _ es) as [|x l] eqn:E; [done|].
  rewrite <-E. intros H. apply elem_of_js_filter in H. tauto.
Qed.

Lemma elem_of_own_first es e :
  e ∈ own_first keys es ↔ e ∈ es ∧ (is_own keys e ∨ ∀ e', e' ∈ es → ¬ is_own keys e').
Proof.
  unfold own_first.
  assert (∀ x, x ∈ js_filter (λ e, bool_decide (Some (e_subject e) = head keys)) es ↔ x ∈ es ∧ is_own keys x) as Hmine.
  { intros x. unfold is_own. rewrite elem_of_js_filter, bool_decide_eq_true.
    destruct keys; simpl; naive_solver. }
  destruct (js_filter _ es) as [|x mine].
  - split; [|by intros [? _]]. intros He. split; [done|]. right. intros e' He' Ho.
    assert (e' ∈ []) as []%not_elem_of_nil by (apply Hmine; done).
  - rewrite Hmine. split; [intros [? ?]; auto|]. intros [He [Ho|Hno]]; [done|]. exfalso.
    destruct (proj1 (Hmine x) ltac:(by left)) as [Hx Hox]. by apply (Hno x).
Qed.

Lemma elem_of_role_gives r owned privilege : privilege ∈ role_gives r owned ↔ role_has owned r privilege.
Proof. unfold role_gives, role_has. destruct owned, (ownedOnly (ROLES r)); simpl; set_solver. Qed.

Lemma elem_of_combine owned es privilege :
  privilege ∈ combine owned es ↔
  (∃ e, e ∈ es ∧ role_has owned (e_role e) privilege) ∧ ∀ e, e ∈ es → e_role e ≠ RNoAccess.
Proof.
  unfold combine. destruct (some _ es) eqn:E.
  - apply some_spec in E as (e & He & Hr%bool_decide_eq_true).
    split; [by intros ?%not_elem_of_empty|]. intros [_ Hno]. by destruct (Hno e).
  - assert (∀ e, e ∈ es → e_role e ≠ RNoAccess) as Hno.
    { intros e He Hr. pose proof (proj1 (some_false _ _) E e He) as Hf. by apply bool_decide_eq_false in Hf. }
    rewrite elem_of_union_list. split.
    + intros (X & (e & -> & He)%list_elem_of_fmap & Hp). split; [|done]. exists e. by rewrite <-elem_of_role_gives.
    + intros [(e & He & Hp) _]. exists (role_gives (e_role e) owned).
      rewrite elem_of_role_gives. split; [apply list_elem_of_fmap; eauto|done].
Qed.

(** The search stops at the first level of the rest of the chain that has an entry. *)
Lemma resolve_from_cases owned k chain :
  (∃ i path, chain !! i = Some path ∧ here_at keys by_path (k + i) path ≠ []
     ∧ (∀ j p, j < i → chain !! j = Some p → here_at keys by_path (k + j) p = [])
     ∧ resolve_from keys by_path owned k chain =
         let es := own_first keys (here_at keys by_path (k + i) path) in (combine owned es, es))
  ∨ (∀ j p, chain !! j = Some p → here_at keys by_path (k + j) p = [])
    ∧ resolve_from keys by_path owned k chain = (∅, []).
Proof.
  revert k. induction chain as [|path rest IH]; intros k; [right; by split|].
  destruct (here_at keys by_path k path) as [|e es] eqn:E.
  - rewrite resolve_from_cons by done.
    assert (∀ n, S k + n = k + S n) as HS by (intros; lia).
    destruct (IH (S k)) as [(i & p & Hi & Hne & Hj & ->)|[Hj ->]].
    + left. exists (S i), p. rewrite <-HS. split_and!; [done|done| |done].
      intros [|j] p' Hlt Hp'; [simplify_eq/=; by rewrite Nat.add_0_r|].
      rewrite <-HS. apply (Hj j); [lia|done].
    + right. split; [|done]. intros [|j] p' Hp'; [simplify_eq/=; by rewrite Nat.add_0_r|].
      rewrite <-HS. by apply Hj.
  - left. exists 0, path. rewrite Nat.add_0_r, E. split_and!; [done|done|lia|].
    by apply resolve_from_here.
Qed.

Lemma counts_here chain i e :
  counts keys by_path chain i e ↔ ∃ path, chain !! i = Some path ∧ e ∈ here_at keys by_path i path.
Proof. unfold counts. setoid_rewrite elem_of_here_at. naive_solver. Qed.

Lemma decider_level chain i path :
  chain !! i = Some path → here_at keys by_path i path ≠ [] →
  (∀ j p, j < i → chain !! j = Some p → here_at keys by_path j p = []) →
  ∀ e, decider keys by_path chain e ↔ e ∈ own_first keys (here_at keys by_path i path).
Proof.
  intros Hi Hne Hj.
  assert (∀ e, counts keys by_path chain i e ↔ e ∈ here_at keys by_path i path) as Hc.
  { intros e. rewrite counts_here. naive_solver. }
  assert (∀ j e, j < i → ¬ counts keys by_path chain j e) as Hbefore.
  { intros j e Hlt (p & Hp & He)%counts_here. rewrite (Hj j p Hlt Hp) in He. by apply not_elem_of_nil in He. }
  assert (∃ e, counts keys by_path chain i e) as [e0 He0].
  { destruct (here_at keys by_path i path) as [|e0 l] eqn:E; [done|]. exists e0. apply Hc. by left. }
  intros e. rewrite elem_of_own_first. setoid_rewrite <-Hc. split.
  - intros (i' & [(e1 & He1) Hmin] & Hce & Hown).
    assert (i' = i) as ->; [|done]. destruct (Nat.lt_total i i') as [Hlt|[->|Hlt]]; [|done|].
    + by destruct (Hmin i e0 Hlt).
    + by destruct (Hbefore i' e1 Hlt).
  - intros [Hce Hown]. exists i. split_and!; [|done|done]. split; [by exists e0|done].
Qed.

Lemma combine_catalog owned es : combine owned es ⊆ catalog.
Proof.
  unfold combine. destruct (some _ es); [set_solver|].
  intros p. rewrite elem_of_union_list. intros (X & HX & Hp).
  apply list_elem_of_fmap in HX as (e & -> & _). by apply (roles_in_catalog (e_role e) owned).
Qed.

Lemma resolve_from_catalog owned i chain : (resolve_from keys by_path owned i chain).1 ⊆ catalog.
Proof.
  revert i. induction chain as [|path rest IH]; intros i; simpl; [set_solver|].
  destruct (here_at keys by_path i path); [apply IH|apply combine_catalog].
Qed.

(** Without an entry on the way, nothing is granted. *)
Lemma resolve_no_privileges owned i chain :
  (resolve_from keys by_path owned i chain).2 = [] →
  (resolve_from keys by_path owned i chain).1 = ∅.
Proof.
  revert i. induction chain as [|path rest IH]; intros i; simpl; [done|].
  destruct (here_at keys by_path i path) eqn:E; [apply IH|].
  intros H. exfalso. by eapply (own_first_nonempty (_ :: _)).
Qed.

Lemma combine_no_access owned es e :
  e ∈ es → e_role e = RNoAccess → combine owned es = ∅.
Proof.
  intros He Hr. unfold combine.
  assert (some (λ e, bool_decide (e_role e = RNoAccess)) es = true) as ->; [|done].
  apply some_spec. exists e. by rewrite bool_decide_true.
Qed.

Lemma combine_owned_mono es : combine false es ⊆ combine true es.
Proof.
  unfold combine. destruct (some _ es); [done|].
  intros p. rewrite !elem_of_union_list. intros (X & HX & Hp).
  apply list_elem_of_fmap in HX as (e & -> & He).
  exists (role_gives (e_role e) true). split; [apply list_elem_of_fmap; eauto|].
  by apply (role_gives_owned _ false).
Qed.

Lemma resolve_owned_mono i chain :
  (resolve_from keys by_path false i chain).1 ⊆ (resolve_from keys by_path true i chain).1.
Proof.
  revert i. induction chain as [|path rest IH]; intros i; simpl; [done|].
  destruct (here_at keys by_path i path); [apply IH|apply combine_owned_mono].
Qed.
End lemmas.

#[export] Hint Resolve resolve_from_catalog combine_catalog resolve_owned_mono : incus.
#[export] Hint Rewrite resolve_from_S : js.

(** ** Properties *)

(** C1: resolution is what the documentation of permissions says, read without
    the search: the entries that decide are those of the nearest level of the
    chain that has an entry for the subject or one of its groups (away from the
    object itself only one that propagates), the subject's own before its
    groups'; a privilege is granted exactly when one of them has a role with it
    (one for owners only if the object is the subject's) and none is No access. *)
Theorem resolve_refines keys by_path owned chain :
  (∀ e, e ∈ (resolve keys by_path owned chain).2 ↔ decider keys by_path chain e)
  ∧ (∀ privilege, privilege ∈ (resolve keys by_path owned chain).1 ↔ granted keys by_path owned chain privilege).
Proof.
  unfold resolve, granted. destruct (resolve_from_cases keys by_path owned 0 chain) as [(i & path & Hi & Hne & Hj & ->)|[Hno ->]]; simpl.
  - pose proof (decider_level keys by_path chain i path Hi Hne Hj) as Hd. split; [intros e; by rewrite Hd|].
    intros privilege. rewrite elem_of_combine. by setoid_rewrite Hd.
  - assert (∀ e, ¬ decider keys by_path chain e) as Hd.
    { intros e (i & _ & (p & Hp & He)%counts_here & _). rewrite (Hno i p Hp : here_at keys by_path i p = []) in He. by apply not_elem_of_nil in He. }
    split; [intros e; split; [by intros ?%not_elem_of_nil|by intros ?%Hd]|].
    intros privilege. split; [by intros ?%not_elem_of_empty|]. by intros [(e & ?%Hd & _) _].
Qed.

(** No access is absolute at the level that decides: if one of the
    deciding entries is No access, no privilege is granted, whatever the other
    entries and ownership give; and ownership only ever adds privileges. *)
Theorem resolve_no_access keys by_path owned chain :
  (∀ e, e ∈ (resolve keys by_path owned chain).2 → e_role e = RNoAccess →
     (resolve keys by_path owned chain).1 = ∅)
  ∧ (resolve keys by_path false chain).1 ⊆ (resolve keys by_path true chain).1
  ∧ (resolve keys by_path owned chain).1 ⊆ catalog.
Proof.
  split; [|split; [apply resolve_owned_mono|apply resolve_from_catalog]].
  unfold resolve. generalize 0. induction chain as [|p l IH]; intros i e; simpl.
  - by intros ?%not_elem_of_nil.
  - destruct (here_at keys by_path i p); [apply IH|]. simpl. apply combine_no_access.
Qed.

(** *** An instance below a project, with a group *)

Definition demo_entry (path subject : string) (role : RoleId) (propagate : bool) : Entry :=
  {| e_id := "e"; e_path := path; e_subject := subject; e_role := role; e_propagate := propagate; e_source := FromAcl |}.
Definition demo_by_path : gmap string (list Entry) :=
  {["/i" := [demo_entry "/i" "user:b" RAuditor true];
    "/p" := [demo_entry "/p" "group:g" RNoAccess true; demo_entry "/p" "user:a" RAuditor true; demo_entry "/p" "user:a" RAdministrator false];
    "/" := [demo_entry "/" "user:a" RAdministrator true]]}.

(** The project decides, by what propagates of the subject's own: its group's No access does not count, nor what
    is set on the project alone. *)
Lemma resolve_refines_witness :
  decider ["user:a"; "group:g"] demo_by_path ["/i"; "/p"; "/"] (demo_entry "/p" "user:a" RAuditor true)
  ∧ granted ["user:a"; "group:g"] demo_by_path false ["/i"; "/p"; "/"] "instance.view"
  ∧ ¬ granted ["user:a"; "group:g"] demo_by_path false ["/i"; "/p"; "/"] "instance.delete".
Proof.
  destruct (resolve_refines ["user:a"; "group:g"] demo_by_path false ["/i"; "/p"; "/"]) as [He Hp]. split_and!.
  - apply He. apply (bool_decide_eq_true (_ ∈ _)). vm_compute. reflexivity.
  - apply Hp. apply (bool_decide_eq_true (_ ∈ _)). vm_compute. reflexivity.
  - intros H%Hp. apply (bool_decide_eq_true (_ ∈ _)) in H. vm_compute in H. discriminate.
Defined.
