(* ===== verification/Acl.v ===== *)
(** * Acl: who may do what where

    Models [acl/acl.ts] (the class [Acl]: loading a snapshot of the role
    tables and entries, deciding on a path, scopes for filtering lists) and
    [visibility] of [api/fleet.ts], which turns a scope into a condition on
    instances. The rows the database returns for the queries of [load] are the
    record [Rows]; their joins are the database's. *)

From S2P Require Import Prelude JsString AclPaths AclCatalog AclResolve.

(** ** Rows: the results of [load]'s queries *)

Record AclEntryRow := {
  ae_id : string; ae_path : string; ae_role : string; ae_propagate : bool;
  ae_userId : option string; ae_serviceAccountId : option string;
  ae_groupId : option string; ae_tenantGroupId : option string;
  ae_createdBy : option string;
}.
Record PlatformRoleRow := { pr_userId : string; pr_role : string }.
Record TenantMemberRow := { tm_tenantId : string; tm_userId : string; tm_role : string; tm_slug : string }.
Record AccountRow := {
  sa_id : string; sa_tenantId : option string; sa_platformRole : option string;
  sa_disabled : bool; sa_slug : option string;
}.
Record UserRow := { u_id : string; u_disabled : bool }.
Record PlaceRow := { pl_cluster : string; pl_project : string; pl_slug : string }.
Record OwnedRow := {
  ow_cluster : string; ow_project : string; ow_name : string;
  ow_userId : option string; ow_serviceAccountId : option string;
}.
Record K8sRow := { k8_slug : string; k8_name : string; k8_createdBy : string }.
Record GroupMemberRow := { gm_groupId : string; gm_userId : option string; gm_serviceAccountId : option string }.
Record MemberGroupsRow := { mg_cluster : string; mg_name : string; mg_groups : option (list string) }.
Record LocatedRow := { lo_cluster : string; lo_project : string; lo_name : string; lo_location : string }.

Record Rows := {
  r_explicit : list AclEntryRow;
  r_roles : list PlatformRoleRow;
  r_members : list TenantMemberRow;
  r_accounts : list AccountRow;
  r_people : list UserRow;
  r_places : list PlaceRow;
  r_tenants : list (string * string);
  r_clusters : list (string * string);
  r_owned : list OwnedRow;
  r_k8s : list K8sRow;
  r_inventoried : list (string * string);
  r_grouped : list GroupMemberRow;
  r_memberGroups : list MemberGroupsRow;
  r_located : list LocatedRow;
}.

(** ** The snapshot *)

Record Lookup := {
  tenantSlugs : js_map string string;
  clusterNames : js_map string string;
  lk_serviceAccounts : gset string;
  lk_owners : gset string;
}.

Record Snapshot := {
  s_at : Z;
  entries : list Entry;
  byPath : gmap string (list Entry);
  bySubject : gmap string (list Entry);
  disabled : gset string;
  tenantOf : gmap string string;
  projectsOf : gmap string (list string);
  ids : Lookup;
  owners : js_map string string;
  projects : list string;
  groupsOf : gmap string (list string);
  locatedIn : gmap string (list string);
  onGroup : gmap string (list string);
}.

Definition PLATFORM_ROLE (r : string) : option RoleId :=
  map_get [("admin", RAdministrator); ("operator", ROperator); ("viewer", RAuditor)] r.
Definition TENANT_ROLE (r : string) : option RoleId :=
  map_get [("owner", RTenantAdmin); ("admin", RTenantAdmin); ("member", RUnrestrictedUser); ("viewer", RAuditor)] r.

(** A [Principal]'s kind and id. *)
Record PrincipalId := { p_service : bool; p_id : string }.
Definition subjectOf (p : PrincipalId) : string :=
  (if p_service p then "service" else "user") +++ ":" +++ p_id p.

(** [push(m, k, v)] *)
Definition push {V} (m : gmap string (list V)) (k : string) (v : V) : gmap string (list V) :=
  <[k := default [] (m !! k) ++ [v]]> m.
Definition push_all {A V} (f : A → string * V) (l : list A) (m : gmap string (list V)) :=
  foldl (λ m a, push m (f a).1 (f a).2) m l.

Definition id_or_null (o : option string) : string := default "null" o.

Definition entrySubject (userId serviceAccountId groupId tenantGroupId : option string) : string :=
  if truthy_opt_str userId then "user:" +++ id_or_null userId
  else if truthy_opt_str serviceAccountId then "service:" +++ id_or_null serviceAccountId
  else if truthy_opt_str groupId then "group:" +++ id_or_null groupId
  else "tenant:" +++ id_or_null tenantGroupId.

Definition project_path (c p : string) : string := formatPath (PProject c p).
Definition instance_path (c p i : string) : string := formatPath (PInstance c p i).
Definition group_path (c g : string) : string := formatPath (PGroup c g).

Section load.
Context (at_ : Z) (r : Rows).

Definition explicit_entry (e : AclEntryRow) : list Entry :=
  match isRoleId (ae_role e) with
  | Some role =>
      [{| e_id := ae_id e; e_path := ae_path e;
          e_subject := entrySubject (ae_userId e) (ae_serviceAccountId e) (ae_groupId e) (ae_tenantGroupId e);
          e_role := role; e_propagate := ae_propagate e; e_source := FromAcl |}]
  | None => []
  end.
Definition platform_entry (x : PlatformRoleRow) : list Entry :=
  match PLATFORM_ROLE (pr_role x) with
  | Some role =>
      [{| e_id := "platform-role:" +++ pr_userId x; e_path := "/";
          e_subject := "user:" +++ pr_userId x; e_role := role;
          e_propagate := true; e_source := FromPlatformRole |}]
  | None => []
  end.
Definition member_entry (m : TenantMemberRow) : list Entry :=
  match TENANT_ROLE (tm_role m) with
  | Some role =>
      [{| e_id := "tenant-membership:" +++ tm_tenantId m +++ ":" +++ tm_userId m;
          e_path := "/tenants/" +++ tm_slug m; e_subject := "user:" +++ tm_userId m;
          e_role := role; e_propagate := true; e_source := FromTenantMembership |}]
  | None => []
  end.
Definition account_entry (a : AccountRow) : list Entry :=
  let entry path role :=
    [{| e_id := "service-account:" +++ sa_id a; e_path := path;
        e_subject := "service:" +++ sa_id a; e_role := role;
        e_propagate := true; e_source := FromServiceAccount |}] in
  if truthy_opt_str (sa_slug a) then entry ("/tenants/" +++ id_or_null (sa_slug a)) RUnrestrictedUser
  else if negb (truthy_opt_str (sa_tenantId a)) && truthy_opt_str (sa_platformRole a) then
    match PLATFORM_ROLE (id_or_null (sa_platformRole a)) with
    | Some role => entry "/" role
    | None => []
    end
  else [].

Definition load_entries : list Entry :=
  (r_explicit r ≫= explicit_entry) ++ (r_roles r ≫= platform_entry)
  ++ (r_members r ≫= member_entry) ++ (r_accounts r ≫= account_entry).

Definition load_disabled : gset string :=
  list_to_set ((λ u, "user:" +++ u_id u) <$> js_filter u_disabled (r_people r))
  ∪ list_to_set ((λ a, "service:" +++ sa_id a) <$> js_filter sa_disabled (r_accounts r)).

Definition owner_subject (o : OwnedRow) : option string :=
  if truthy_opt_str (ow_userId o) then Some ("user:" +++ id_or_null (ow_userId o))
  else if truthy_opt_str (ow_serviceAccountId o) then Some ("service:" +++ id_or_null (ow_serviceAccountId o))
  else None.
Definition load_owners : js_map string string :=
  let m := foldl (λ m o,
    match owner_subject o with
    | Some s => map_set m (instance_path (ow_cluster o) (ow_project o) (ow_name o)) s
    | None => m
    end) [] (r_owned r) in
  foldl (λ m k, map_set m ("/tenants/" +++ k8_slug k +++ "/kubernetes/" +++ k8_name k) (k8_createdBy k)) m (r_k8s r).

Definition load_groupsOf : gmap string (list string) :=
  let m := push_all (λ g, (if truthy_opt_str (gm_userId g) then "user:" +++ id_or_null (gm_userId g)
                           else "service:" +++ id_or_null (gm_serviceAccountId g),
                           "group:" +++ gm_groupId g)) (r_grouped r) ∅ in
  let m := push_all (λ x, ("user:" +++ tm_userId x, "tenant:" +++ tm_tenantId x)) (r_members r) m in
  foldl (λ m a, if truthy_opt_str (sa_tenantId a)
                then push m ("service:" +++ sa_id a) ("tenant:" +++ id_or_null (sa_tenantId a)) else m)
    m (r_accounts r).

(** The cluster groups of the member an instance runs on; a member in none is in [default]. *)
Definition groupsAt : gmap string (list string) :=
  foldl (λ m x, <[mg_cluster x +++ "/" +++ mg_name x :=
                   match mg_groups x with Some (g :: gs) => g :: gs | _ => ["default"] end]> m)
    ∅ (r_memberGroups r).
Definition sides_of (i : LocatedRow) : list string :=
  (λ g, group_path (lo_cluster i) g) <$> default [] (groupsAt !! (lo_cluster i +++ "/" +++ lo_location i)).

Definition load_located : gmap string (list string) * gmap string (list string) :=
  foldl (λ acc i,
    let '(li, og) := acc in
    let path := instance_path (lo_cluster i) (lo_project i) (lo_name i) in
    match sides_of i with
    | [] => (li, og)
    | gs => (<[path := gs]> li, foldl (λ og g, push og g path) og gs)
    end) (∅, ∅) (r_located r).

Definition load : Snapshot :=
  {| s_at := at_;
     entries := load_entries;
     byPath := push_all (λ e, (e_path e, e)) load_entries ∅;
     bySubject := push_all (λ e, (e_subject e, e)) load_entries ∅;
     disabled := load_disabled;
     tenantOf := foldl (λ m p, <[pl_cluster p +++ "/" +++ pl_project p := pl_slug p]> m) ∅ (r_places r);
     projectsOf := push_all (λ p, (pl_slug p, project_path (pl_cluster p) (pl_project p))) (r_places r) ∅;
     ids := {|
       tenantSlugs := foldl (λ m t, map_set m t.1 t.2) [] (r_tenants r);
       clusterNames := foldl (λ m c, map_set m c.1 c.2) [] (r_clusters r);
       lk_serviceAccounts := list_to_set (sa_id <$> r_accounts r);
       lk_owners := list_to_set ((λ m, tm_tenantId m +++ ":" +++ tm_userId m)
                      <$> js_filter (λ m, str_is (tm_role m) "owner") (r_members r)) |};
     owners := load_owners;
     projects := set_of (((λ p, project_path (pl_cluster p) (pl_project p)) <$> r_places r)
                         ++ ((λ x, project_path x.1 x.2) <$> r_inventoried r));
     groupsOf := load_groupsOf;
     locatedIn := load_located.1;
     onGroup := load_located.2 |}.
End load.

(** ** The snapshot's lifetime

    The kept snapshot answers until it is [ttlMs] old; then it is loaded
    again, and a failed load is not kept. *)
Definition acl_snapshot (ttlMs now : Z) (kept : option Snapshot) (loaded : option Snapshot) :
  option Snapshot * option Snapshot :=
  match kept with
  | Some cur => if (now - s_at cur <? ttlMs)%Z then (Some cur, Some cur) else (loaded, loaded)
  | None => (loaded, loaded)
  end.

(** ** Deciding *)

Section decide.
Context (s : Snapshot).

Definition tenant_of (c p : string) : option string := tenantOf s !! (c +++ "/" +++ p).

(** The subject and its groups: whose entries count for it. *)
Definition keysOf (subject : string) : list string :=
  subject :: default [] (groupsOf s !! subject).

(** The union of several resolutions, each deciding entry once. *)
Definition merge_results (results : list Resolution) : Resolution :=
  (⋃ results.*1, set_of (mjoin results.*2)).

Definition decide_on (subject path : string) (owner : option string) : Resolution :=
  match parsePath path with
  | None => (∅, [])
  | Some parsed =>
      if bool_decide (subject ∈ disabled s) then (∅, [])
      else
        let owned := bool_decide
          (match owner with Some o => Some o | None => map_get (owners s) path end = Some subject) in
        let keys := keysOf subject in
        let full := chain tenant_of parsed in
        let sides := match parsed with
                     | PInstance _ _ _ => default [] (locatedIn s !! path)
                     | _ => []
                     end in
        match sides with
        | [] => resolve keys (byPath s) owned full
        | _ =>
            let own := resolve keys (byPath s) owned [path] in
            match own.2 with
            | _ :: _ => own
            | [] => merge_results
                      (resolve keys (byPath s) owned full
                         :: ((λ g, resolve keys (byPath s) owned [path; g]) <$> sides))
            end
        end
  end.

Definition privileges_on (p : PrincipalId) (path : string) (owner : option string) : gset string :=
  (decide_on (subjectOf p) path owner).1.
Definition can (p : PrincipalId) (privilege path : string) (owner : option string) : bool :=
  bool_decide (privilege ∈ privileges_on p path owner).

(** [instancePath]: null for a cluster IncusCloud does not know. *)
Definition instancePath (clusterId project name : string) : option string :=
  match map_get (clusterNames (ids s)) clusterId with
  | Some c => if truthy_str c then Some (instance_path c project name) else None
  | None => None
  end.

Record OnInstance := {
  oi_clusterId : option string; oi_project : string; oi_name : string;
  oi_tenantId : option string; oi_createdBy : option string;
}.
Definition on_instance_path (row : OnInstance) : string :=
  let slug := if truthy_opt_str (oi_tenantId row)
              then map_get (tenantSlugs (ids s)) (id_or_null (oi_tenantId row)) else None in
  let path := if truthy_opt_str (oi_clusterId row)
              then instancePath (id_or_null (oi_clusterId row)) (oi_project row) (oi_name row) else None in
  match path with
  | Some p => p
  | None => if truthy_opt_str slug then "/tenants/" +++ id_or_null slug else "/"
  end.
Definition canOnInstance (p : PrincipalId) (privilege : string) (row : OnInstance) : bool :=
  let path := on_instance_path row in
  let mine := bool_decide (oi_createdBy row = Some (subjectOf p)) in
  can p privilege path None || (mine && can p privilege path (Some (subjectOf p))).

(** What a subject holds at [path] or on any path above it. *)
Definition reach (subject path : string) : gset string :=
  match parsePath path with
  | None => ∅
  | Some parsed => ⋃ ((λ x, (decide_on subject x None).1) <$> chain tenant_of parsed)
  end.
End decide.

(** ** Scopes *)

(** [s.replace(pat, rep)]: the first occurrence. *)
Fixpoint replace_first (pat rep s : string) : string :=
  if starts_with pat s then rep +++ str_drop (String.length pat) s
  else match s with
       | EmptyString => EmptyString
       | String c s => String c (replace_first pat rep s)
       end.

Record InstanceScope := { sc_projects : list string; sc_exclude : list string; sc_include : list string }.

Section scope.
Context (s : Snapshot) (p : PrincipalId) (privilege : string).
Let subject : string := subjectOf p.

(** [<cluster>/<project>[/<name>]] *)
Definition scope_key (path : string) : string :=
  replace_first "/instances/" "/"
    (replace_first "/projects/" "/" (str_drop (String.length "/clusters/") path)).

Definition holds (path : string) : bool :=
  bool_decide (privilege ∈ (decide_on s subject path None).1).

(** Single instances: with entries of the subject or its groups, on its
    groups' cluster groups, and those it owns. *)
Definition entry_singles (e : Entry) : list string :=
  match parsePath (e_path e) with
  | Some (PInstance _ _ _) => [e_path e]
  | Some (PGroup _ _) => default [] (onGroup s !! e_path e)
  | _ => []
  end.
Definition singles : list string :=
  set_of ((keysOf s subject ≫= (λ k, default [] (bySubject s !! k) ≫= entry_singles))
    ++ (js_filter (λ o, bool_decide (o.2 = subject) && starts_with "/clusters/" o.1) (owners s)).*1).

Definition parent_key (k : string) : string :=
  str_take (default 0 (last_index_of "/" k)) k.

Definition instanceScope : InstanceScope :=
  let whole := scope_key <$> js_filter holds (projects s) in
  let covered path := includes whole (parent_key (scope_key path)) in
  {| sc_projects := whole;
     sc_include := scope_key <$> js_filter (λ x, holds x && negb (covered x)) singles;
     sc_exclude := scope_key <$> js_filter (λ x, negb (holds x) && covered x) singles |}.
End scope.

(** [visibility] of [api/fleet.ts], as the condition it puts on a row. *)
Definition visibility (sc : InstanceScope) (cluster project name : string) : bool :=
  let pr := cluster +++ "/" +++ project in
  let one := cluster +++ "/" +++ project +++ "/" +++ name in
  (includes (sc_projects sc) pr && negb (includes (sc_exclude sc) one))
  || includes (sc_include sc) one.

(** [sees]: some privilege at [path], or below it where one of the subject's entries applies. *)
Section sees.
Context (s : Snapshot) (p : PrincipalId) (path : string).
Let subject : string := subjectOf p.

Definition holds_any (x : string) : bool := negb (bool_decide ((decide_on s subject x None).1 = ∅)).
Definition below (x : string) : bool := str_is path "/" || starts_with (path +++ "/") x.

(** The slug of [/tenants/<slug>]. *)
Definition tenant_slug_of (x : string) : option string :=
  if starts_with "/tenants/" x then
    let t := str_drop (String.length "/tenants/") x in
    if has_char "/" t then None else if truthy_str t then Some t else None
  else None.
Definition entry_reaches (e : Entry) : list string :=
  e_path e
    :: match tenant_slug_of (e_path e) with Some t => default [] (projectsOf s !! t) | None => [] end
    ++ default [] (onGroup s !! e_path e).
Definition candidates : list string :=
  set_of (js_filter below
    ((keysOf s subject ≫= (λ k, default [] (bySubject s !! k))) ≫= entry_reaches)).
Definition sees : bool := holds_any path || some holds_any candidates.
End sees.
