(* ===== verification/AclTheory.v ===== *)
(** * AclTheory: correctness of decisions and scopes

    The snapshot a load builds is consistent; the scope used to filter lists
    agrees with the decision on each instance, except below an entry on a
    project that does not propagate; disabled subjects hold nothing. *)

From S2P Require Import Prelude JsString AclPaths AclCatalog AclResolve Acl.

(** ** Keys of scopes *)

Lemma replace_first_cons pat rep x s :
  replace_first pat rep (String x s) =
    if starts_with pat (String x s) then rep +++ str_drop (String.length pat) (String x s)
    else String x (replace_first pat rep s).
Proof. reflexivity. Qed.

Lemma starts_with_first_ne c d p s : c ≠ d → starts_with (String c p) (String d s) = false.
Proof. unfold starts_with. simpl. by destruct (Ascii.ascii_dec c d). Qed.

(** Replacing a slash-led pattern skips a slash-free prefix. *)
Lemma replace_first_skip pat rep a s :
  has_char "/" a = false →
  replace_first (String "/" pat) rep (a +++ String "/" s) = a +++ replace_first (String "/" pat) rep (String "/" s).
Proof.
  intros H. induction a as [|x a IH]; [done|].
  simpl in H. apply orb_false_elim in H as [Hx Ha].
  change (String x a +++ String "/" s) with (String x (a +++ String "/" s)).
  assert (starts_with (String "/" pat) (String x (a +++ String "/" s)) = false) as E.
  { apply starts_with_first_ne. unfold char_is in Hx. bool_prop. congruence. }
  by rewrite replace_first_cons, E, IH.
Qed.

Lemma replace_first_here pat rep s :
  replace_first pat rep (pat +++ s) = rep +++ s.
Proof.
  destruct (pat +++ s) eqn:E; rewrite <-E.
  - destruct pat; [|done]. simpl in *. subst. done.
  - unfold replace_first. destruct (pat +++ s) eqn:E'; [congruence|].
    rewrite <-E'. fold replace_first. by rewrite starts_with_append, str_drop_append.
Qed.

Lemma replace_first_none pat rep s :
  has_char "/" s = false → replace_first (String "/" pat) rep s = s.
Proof.
  induction s as [|x s IH]; [done|].
  intros H. simpl in H. apply orb_false_elim in H as [Hx Hs].
  assert (starts_with (String "/" pat) (String x s) = false) as E.
  { apply starts_with_first_ne. unfold char_is in Hx. bool_prop. congruence. }
  change (replace_first (String "/" pat) rep (String x s))
    with (if starts_with (String "/" pat) (String x s)
          then rep +++ str_drop (String.length (String "/" pat)) (String x s)
          else String x (replace_first (String "/" pat) rep s)).
  by rewrite E, IH.
Qed.

(** A slash-led pattern found before a segment's end is that segment. *)
Lemma starts_with_segment a b s :
  has_char "/" a = false → has_char "/" b = false →
  starts_with (a +++ "/") (b +++ String "/" s) = true → a = b.
Proof.
  intros Ha Hb [r E]%starts_with_inv. rewrite append_assoc in E.
  apply (f_equal (split_on "/")) in E. simpl in E.
  rewrite !split_on_cons in E by done. congruence.
Qed.

Lemma scope_key_project c p :
  NAME c = true → NAME p = true → scope_key (project_path c p) = c +++ "/" +++ p.
Proof.
  intros Hc%NAME_no_slash Hp%NAME_no_slash. unfold scope_key, project_path, formatPath.
  rewrite str_drop_append.
  change ("/projects/" +++ p) with (String "/" ("projects/" +++ p)).
  rewrite (replace_first_skip "projects/") by done.
  change (String "/" ("projects/" +++ p)) with ("/projects/" +++ p).
  rewrite replace_first_here. change ("/" +++ p) with (String "/" p).
  rewrite (replace_first_skip "instances/") by done. f_equal.
  assert (starts_with "/instances/" (String "/" p) = false) as E.
  { destruct (starts_with "/instances/" (String "/" p)) eqn:E; [|done].
    apply starts_with_inv in E as [r E]. by simplify_eq/=. }
  by rewrite replace_first_cons, E, (replace_first_none "instances/").
Qed.

Lemma scope_key_instance c p i :
  NAME c = true → NAME p = true → NAME i = true →
  scope_key (instance_path c p i) = c +++ "/" +++ p +++ "/" +++ i.
Proof.
  intros Hc%NAME_no_slash Hp%NAME_no_slash Hi%NAME_no_slash.
  unfold scope_key, instance_path, formatPath. rewrite str_drop_append.
  change ("/projects/" +++ p +++ "/instances/" +++ i)
    with (String "/" ("projects/" +++ (p +++ "/instances/" +++ i))).
  rewrite (replace_first_skip "projects/") by done.
  change (String "/" ("projects/" +++ (p +++ "/instances/" +++ i)))
    with ("/projects/" +++ (p +++ "/instances/" +++ i)).
  rewrite replace_first_here.
  change ("/" +++ p +++ "/instances/" +++ i) with (String "/" (p +++ "/instances/" +++ i)).
  rewrite (replace_first_skip "instances/") by done. f_equal.
  destruct (starts_with "/instances/" (String "/" (p +++ "/instances/" +++ i))) eqn:E.
  - assert (p = "instances") as ->; [|done].
    change ("/instances/" +++ i) with (String "/" ("instances/" +++ i)) in E.
    symmetry. eapply (starts_with_segment "instances" p); [done..|exact E].
  - rewrite replace_first_cons, E. change ("/instances/" +++ i) with (String "/" ("instances/" +++ i)).
    rewrite (replace_first_skip "instances/") by done.
    change (String "/" ("instances/" +++ i)) with ("/instances/" +++ i).
    by rewrite replace_first_here.
Qed.

Lemma split_key2 c p :
  NAME c = true → NAME p = true → split_on "/" (c +++ "/" +++ p) = [c; p].
Proof.
  intros Hc%NAME_no_slash Hp%NAME_no_slash. change ("/" +++ p) with (String "/" p).
  by rewrite split_on_cons, split_on_no_char.
Qed.

Lemma split_key3 c p i :
  NAME c = true → NAME p = true → NAME i = true →
  split_on "/" (c +++ "/" +++ p +++ "/" +++ i) = [c; p; i].
Proof.
  intros Hc%NAME_no_slash Hp Hi. change ("/" +++ p +++ "/" +++ i) with (String "/" (p +++ "/" +++ i)).
  by rewrite split_on_cons, split_key2.
Qed.

Lemma parent_key_instance c p i :
  NAME i = true → parent_key (c +++ "/" +++ p +++ "/" +++ i) = c +++ "/" +++ p.
Proof.
  intros Hi%NAME_no_slash. unfold parent_key.
  replace (c +++ "/" +++ p +++ "/" +++ i) with ((c +++ "/" +++ p) +++ String "/" i)
    by (by rewrite !append_assoc).
  rewrite last_index_of_append by done. simpl. apply str_take_append.
Qed.

(** ** Consistent snapshots *)

Definition wf_project_path (x : string) : Prop :=
  ∃ c p, NAME c = true ∧ NAME p = true ∧ x = project_path c p.
Definition wf_instance_path (x : string) : Prop :=
  ∃ c p i, NAME c = true ∧ NAME p = true ∧ NAME i = true ∧ x = instance_path c p i.

Record snapshot_wf (s : Snapshot) : Prop := {
  wf_bySubject k e : e ∈ default [] (bySubject s !! k) ↔ e ∈ entries s ∧ e_subject e = k;
  wf_byPath x e : e ∈ default [] (byPath s !! x) ↔ e ∈ entries s ∧ e_path e = x;
  wf_onGroup x g : g ∈ default [] (locatedIn s !! x) → x ∈ default [] (onGroup s !! g);
  wf_locatedIn x g : g ∈ default [] (locatedIn s !! x) →
    ∃ c gr, NAME c = true ∧ NAME gr = true ∧ g = group_path c gr;
  wf_group_instances g x : x ∈ default [] (onGroup s !! g) → wf_instance_path x;
  wf_owners x o : (x, o) ∈ owners s → starts_with "/clusters/" x = true → wf_instance_path x;
  wf_projects x : x ∈ projects s → wf_project_path x;
}.

Lemma parse_instance c p i :
  NAME c = true → NAME p = true → NAME i = true →
  parsePath (instance_path c p i) = Some (PInstance c p i).
Proof. intros. apply parse_format. by repeat constructor. Qed.

Lemma parse_project c p :
  NAME c = true → NAME p = true → parsePath (project_path c p) = Some (PProject c p).
Proof. intros. apply parse_format. by repeat constructor. Qed.

Lemma parse_group c g :
  NAME c = true → NAME g = true → parsePath (group_path c g) = Some (PGroup c g).
Proof. intros. apply parse_format. by repeat constructor. Qed.

#[export] Hint Rewrite parse_instance parse_project parse_group using done : js.
#[export] Hint Resolve parse_instance parse_project parse_group : incus.

Section scope_theory.
Context (s : Snapshot) (Hwf : snapshot_wf s) (p : PrincipalId) (privilege : string).
Let subject : string := subjectOf p.

Lemma elem_of_entry_singles e x :
  x ∈ entry_singles s e →
  x = e_path e ∧ (∃ c q i, parsePath x = Some (PInstance c q i)) ∨ x ∈ default [] (onGroup s !! e_path e).
Proof.
  unfold entry_singles. destruct (parsePath (e_path e)) as [[]|] eqn:E;
    rewrite ?elem_of_nil; try done; [by right|].
  rewrite list_elem_of_singleton. intros ->. left. eauto.
Qed.

Lemma elem_of_singles x :
  x ∈ singles s p ↔
    (∃ e, e ∈ entries s ∧ e_subject e ∈ keysOf s subject ∧ x ∈ entry_singles s e)
    ∨ ((x, subject) ∈ owners s ∧ starts_with "/clusters/" x = true).
Proof.
  unfold singles. rewrite elem_of_set_of, elem_of_app, list_elem_of_bind, list_elem_of_fmap.
  split; intros [H|H].
  - left. destruct H as (k & Hx & Hk). apply list_elem_of_bind in Hx as (e & Hx & He).
    apply (wf_bySubject _ Hwf) in He as [He <-]. eauto.
  - right. destruct H as ([x' o] & -> & H). apply elem_of_js_filter in H as [H Hc].
    simpl in *. bool_prop. by subst.
  - left. destruct H as (e & He & Hk & Hx). exists (e_subject e). split; [|done].
    apply list_elem_of_bind. exists e. split; [done|]. by apply (wf_bySubject _ Hwf).
  - right. destruct H as [H Hc]. exists (x, subject). split; [done|].
    apply elem_of_js_filter. split; [done|]. simpl. by rewrite bool_decide_true.
Qed.

(** Every single is an instance path. *)
Lemma singles_instances x : x ∈ singles s p → wf_instance_path x.
Proof.
  rewrite elem_of_singles. intros [(e & _ & _ & Hx)|[Hx Hc]].
  - apply elem_of_entry_singles in Hx as [[_ (c & q & i & Hp)]|Hx].
    + apply format_parse in Hp as [<- Hwfp]. unfold path_wf in Hwfp. simpl in Hwfp.
      repeat (apply Forall_cons in Hwfp as [? Hwfp]). by exists c, q, i.
    + by eapply wf_group_instances.
  - by eapply wf_owners.
Qed.

Section instance.
Context (c pr i : string)
  (Hc : NAME c = true) (Hpr : NAME pr = true) (Hi : NAME i = true).

Lemma key_eq_instance x :
  wf_instance_path x → scope_key x = c +++ "/" +++ pr +++ "/" +++ i → x = instance_path c pr i.
Proof.
  intros (c' & p' & i' & ? & ? & ? & ->). rewrite scope_key_instance by done.
  intros E. apply (f_equal (split_on "/")) in E. rewrite !split_key3 in E by done. congruence.
Qed.

Lemma key_eq_project x :
  wf_project_path x → scope_key x = c +++ "/" +++ pr → x = project_path c pr.
Proof.
  intros (c' & p' & ? & ? & ->). rewrite scope_key_project by done.
  intros E. apply (f_equal (split_on "/")) in E. rewrite !split_key2 in E by done. congruence.
Qed.

Lemma scope_projects_instance :
  project_path c pr ∈ projects s →
  includes (sc_projects (instanceScope s p privilege)) (c +++ "/" +++ pr)
    = holds s p privilege (project_path c pr).
Proof.
  intros Hin. apply eq_true_iff_eq. rewrite includes_spec. simpl.
  rewrite list_elem_of_fmap. split.
  - intros (x & E & [Hx Hh]%elem_of_js_filter).
    by rewrite <-(key_eq_project x) by (done || by eapply wf_projects).
  - intros Hh. exists (project_path c pr). rewrite scope_key_project by done.
    split; [done|]. by apply elem_of_js_filter.
Qed.

(** The listed single instances with [test] are found under their keys. *)
Lemma scope_single_key (test : string → bool) :
  includes (scope_key <$> js_filter test (singles s p)) (c +++ "/" +++ pr +++ "/" +++ i)
    = includes (singles s p) (instance_path c pr i) && test (instance_path c pr i).
Proof.
  apply eq_true_iff_eq. rewrite andb_true_iff, !includes_spec, list_elem_of_fmap. split.
  - intros (x & E & [Hx Ht]%elem_of_js_filter).
    rewrite <-(key_eq_instance x) by (done || by apply singles_instances). done.
  - intros [Hx Ht]. exists (instance_path c pr i). rewrite scope_key_instance by done.
    split; [done|]. by apply elem_of_js_filter.
Qed.

Lemma visibility_eq :
  project_path c pr ∈ projects s →
  visibility (instanceScope s p privilege) c pr i =
    let hp := holds s p privilege (project_path c pr) in
    let hi := holds s p privilege (instance_path c pr i) in
    let single := includes (singles s p) (instance_path c pr i) in
    (hp && negb (single && (negb hi && hp))) || (single && (hi && negb hp)).
Proof.
  intros Hin. pose proof (scope_projects_instance Hin) as Hpr'.
  unfold visibility. rewrite Hpr'.
  unfold instanceScope in Hpr' |- *. cbn [sc_projects sc_exclude sc_include] in Hpr' |- *.
  rewrite !scope_single_key.
  by rewrite scope_key_instance, parent_key_instance, Hpr' by done.
Qed.

(** The scope holds an instance exactly when it holds its decision, once
    instances that are not listed singly follow their project. *)
Lemma visibility_holds :
  project_path c pr ∈ projects s →
  (instance_path c pr i ∉ singles s p →
     holds s p privilege (instance_path c pr i) = holds s p privilege (project_path c pr)) →
  visibility (instanceScope s p privilege) c pr i = holds s p privilege (instance_path c pr i).
Proof.
  intros Hin Hfollow. rewrite visibility_eq by done. cbv zeta.
  rewrite <-includes_false in Hfollow. revert Hfollow.
  generalize (holds s p privilege (project_path c pr)), (holds s p privilege (instance_path c pr i)),
    (includes (singles s p) (instance_path c pr i)).
  intros [] [] [] H; simpl; try done; by specialize (H eq_refl).
Qed.

(** No entry of the subject's keys below the project and no ownership:
    the instance is decided as its project is. *)
Lemma not_single_no_entries lvl :
  instance_path c pr i ∉ singles s p →
  here_at (keysOf s subject) (byPath s) lvl (instance_path c pr i) = [].
Proof.
  intros Hn. apply js_filter_nil. intros e He.
  destruct (includes (keysOf s subject) (e_subject e)) eqn:Ek; [|done].
  exfalso. apply Hn, elem_of_singles. left. exists e.
  apply (wf_byPath _ Hwf) in He as [He Hp]. apply includes_spec in Ek.
  split; [done|]. split; [done|]. unfold entry_singles. rewrite Hp, parse_instance by done.
  by apply list_elem_of_singleton.
Qed.

Lemma not_single_no_group_entries lvl g :
  instance_path c pr i ∉ singles s p →
  g ∈ default [] (locatedIn s !! instance_path c pr i) →
  here_at (keysOf s subject) (byPath s) lvl g = [].
Proof.
  intros Hn Hg. apply js_filter_nil. intros e He.
  destruct (includes (keysOf s subject) (e_subject e)) eqn:Ek; [|done].
  exfalso. apply Hn, elem_of_singles. left. exists e.
  apply (wf_byPath _ Hwf) in He as [He Hp]. apply includes_spec in Ek.
  split; [done|]. split; [done|]. unfold entry_singles.
  destruct (wf_locatedIn _ Hwf _ _ Hg) as (c' & gr & ? & ? & ->).
  rewrite Hp, parse_group by done. by apply (wf_onGroup _ Hwf).
Qed.

Lemma not_single_not_owned :
  instance_path c pr i ∉ singles s p →
  map_get (owners s) (instance_path c pr i) ≠ Some subject.
Proof.
  intros Hn E%map_get_Some_elem. apply Hn, elem_of_singles. right. split; [done|].
  apply (starts_with_append "/clusters/").
Qed.

Lemma project_not_owned : map_get (owners s) (project_path c pr) = None.
Proof.
  apply map_get_None. intros H. apply list_elem_of_fmap in H as ([x o] & E & Hin). simpl in E. subst x.
  destruct (wf_owners _ Hwf _ _ Hin) as (c' & p' & i' & ? & ? & ? & E).
  { apply (starts_with_append "/clusters/"). }
  assert (parsePath (project_path c pr) = Some (PInstance c' p' i')) as E' by (rewrite E; by apply parse_instance).
  by rewrite parse_project in E'.
Qed.

(** Entries set on the project itself. *)
Definition project_entries_propagate : Prop :=
  ∀ e, e ∈ entries s → e_path e = project_path c pr → e_subject e ∈ keysOf s subject →
    e_propagate e = true.

Lemma here_at_project_propagates :
  project_entries_propagate →
  here_at (keysOf s subject) (byPath s) 1 (project_path c pr)
    = here_at (keysOf s subject) (byPath s) 0 (project_path c pr).
Proof.
  intros H. apply js_filter_ext. intros e He.
  destruct (includes (keysOf s subject) (e_subject e)) eqn:Ek; [|done]. simpl.
  apply (wf_byPath _ Hwf) in He as [He Hp]. apply includes_spec in Ek.
  by apply H.
Qed.

Lemma not_single_follows :
  project_entries_propagate →
  instance_path c pr i ∉ singles s p →
  (decide_on s subject (instance_path c pr i) None).1
    = (decide_on s subject (project_path c pr) None).1.
Proof.
  intros Hprop Hn. unfold decide_on.
  rewrite parse_instance, parse_project by done.
  destruct (bool_decide (subject ∈ disabled s)); [done|].
  rewrite project_not_owned.
  rewrite (bool_decide_false (map_get (owners s) _ = _)) by (by apply not_single_not_owned).
  rewrite (bool_decide_false (None = _)) by done.
  assert (resolve (keysOf s subject) (byPath s) false (chain (tenant_of s) (PInstance c pr i))
          = resolve (keysOf s subject) (byPath s) false (chain (tenant_of s) (PProject c pr))) as Efull.
  { unfold resolve, chain, chain_project. cbn [resolve_from].
    change (formatPath (PInstance c pr i)) with (instance_path c pr i).
    rewrite not_single_no_entries by done.
    change (formatPath (PProject c pr)) with (project_path c pr).
    by rewrite here_at_project_propagates, (resolve_from_S _ _ _ 1). }
  destruct (default [] (locatedIn s !! instance_path c pr i)) as [|g gs] eqn:Eg; [by rewrite Efull|].
  assert (resolve (keysOf s subject) (byPath s) false [instance_path c pr i] = (∅, [])) as ->.
  { unfold resolve. cbn [resolve_from]. by rewrite not_single_no_entries. }
  cbn [snd].
  rewrite Efull.
  set (rs := (λ g0, resolve (keysOf s subject) (byPath s) false [instance_path c pr i; g0]) <$> g :: gs).
  assert (⋃ rs.*1 = ∅) as E0.
  { apply set_eq. intros x. split; [|set_solver]. rewrite elem_of_union_list.
    intros (X & HX & Hx). apply list_elem_of_fmap in HX as (r & -> & Hr).
    apply list_elem_of_fmap in Hr as (g' & -> & Hg'). unfold resolve in Hx. cbn [resolve_from] in Hx.
    rewrite not_single_no_entries, not_single_no_group_entries in Hx by (done || by rewrite Eg). done. }
  change ((merge_results (resolve (keysOf s subject) (byPath s) false
    (chain (tenant_of s) (PProject c pr)) :: rs)).1)
    with ((resolve (keysOf s subject) (byPath s) false (chain (tenant_of s) (PProject c pr))).1 ∪ ⋃ rs.*1).
  rewrite E0. set_solver.
Qed.
End instance.
End scope_theory.

(** ** What a load builds is consistent *)

Lemma elem_of_push {V} (m : gmap string (list V)) k v k' v' :
  v' ∈ default [] (push m k v !! k') ↔ v' ∈ default [] (m !! k') ∨ k' = k ∧ v' = v.
Proof.
  unfold push. destruct (decide (k' = k)) as [->|Hne].
  - rewrite lookup_insert_eq. simpl. rewrite elem_of_app, list_elem_of_singleton. naive_solver.
  - rewrite lookup_insert_ne by done. naive_solver.
Qed.

Lemma elem_of_push_all {A V} (f : A → string * V) l (m : gmap string (list V)) k v :
  v ∈ default [] (push_all f l m !! k) ↔ v ∈ default [] (m !! k) ∨ ∃ a, a ∈ l ∧ f a = (k, v).
Proof.
  unfold push_all. revert m. induction l as [|a l IH]; intros m; simpl.
  - split; [auto|]. intros [?|(? & ?%not_elem_of_nil & _)]; done.
  - rewrite IH, elem_of_push. split.
    + intros [[?|[-> ->]]|(b & ? & ?)]; [auto| |].
      * right. exists a. split; [by left|]. by destruct (f a).
      * right. exists b. split; [by right|done].
    + intros [?|(b & [->|?]%elem_of_cons & E)]; [auto| |].
      * rewrite E. auto.
      * right. eauto.
Qed.

Definition rows_wf (r : Rows) : Prop :=
  Forall (λ i, NAME (lo_cluster i) = true ∧ NAME (lo_project i) = true ∧ NAME (lo_name i) = true) (r_located r)
  ∧ Forall (λ m, Forall (λ g, NAME g = true) (default [] (mg_groups m))) (r_memberGroups r)
  ∧ Forall (λ o, NAME (ow_cluster o) = true ∧ NAME (ow_project o) = true ∧ NAME (ow_name o) = true) (r_owned r)
  ∧ Forall (λ p, NAME (pl_cluster p) = true ∧ NAME (pl_project p) = true) (r_places r)
  ∧ Forall (λ x, NAME x.1 = true ∧ NAME x.2 = true) (r_inventoried r).

Section load_theory.
Context (t : Z) (r : Rows) (Hr : rows_wf r).

Lemma groupsAt_names k g : g ∈ default [] (groupsAt r !! k) → NAME g = true.
Proof using Hr.
  destruct Hr as (_ & H & _). unfold groupsAt.
  assert (∀ m : gmap string (list string), (∀ k g, g ∈ default [] (m !! k) → NAME g = true) →
    ∀ k g, g ∈ default [] (foldl (λ m x, <[mg_cluster x +++ "/" +++ mg_name x :=
      match mg_groups x with Some (g :: gs) => g :: gs | _ => ["default"] end]> m) m (r_memberGroups r) !! k)
      → NAME g = true) as Hgen; [|apply Hgen; by intros ?? ?%not_elem_of_nil].
  induction H as [|x l Hx _ IH]; intros m Hm; [done|]. simpl. apply IH.
  intros k' g'. destruct (decide (k' = mg_cluster x +++ "/" +++ mg_name x)) as [->|Hne].
  - rewrite lookup_insert_eq. simpl. rewrite Forall_forall in Hx.
    destruct (mg_groups x) as [[|y ys]|]; simpl in Hx |- *.
    1,3: by intros ->%list_elem_of_singleton.
    apply Hx.
  - rewrite lookup_insert_ne by done. apply Hm.
Qed.

Record located_inv (acc : gmap string (list string) * gmap string (list string)) : Prop := {
  li_onGroup x g : g ∈ default [] (acc.1 !! x) → x ∈ default [] (acc.2 !! g);
  li_groups x g : g ∈ default [] (acc.1 !! x) →
    ∃ c gr, NAME c = true ∧ NAME gr = true ∧ g = group_path c gr;
  li_instances x g : x ∈ default [] (acc.2 !! g) → wf_instance_path x;
}.

Lemma elem_of_push_group (og : gmap string (list string)) (gs : list string) (path x g : string) :
  x ∈ default [] (foldl (λ og g, push og g path) og gs !! g) ↔
  x ∈ default [] (og !! g) ∨ (x = path ∧ g ∈ gs).
Proof.
  change (foldl (λ og g, push og g path) og gs) with (push_all (λ g, (g, path)) gs og).
  rewrite elem_of_push_all. naive_solver.
Qed.

Lemma load_located_inv : located_inv (load_located r).
Proof using Hr.
  pose proof groupsAt_names as Hg. destruct Hr as (H & _). unfold load_located.
  assert (∀ acc, located_inv acc → located_inv (foldl (λ acc i,
    let '(li, og) := acc in
    let path := instance_path (lo_cluster i) (lo_project i) (lo_name i) in
    match sides_of r i with
    | [] => (li, og)
    | gs => (<[path := gs]> li, foldl (λ og g, push og g path) og gs)
    end) acc (r_located r))) as Hgen;
    [|apply Hgen; split; simpl; by intros ?? ?%not_elem_of_nil].
  induction H as [|i l (Hc & Hp & Hn) _ IH]; intros [li og] Hacc; [done|]. simpl. apply IH.
  destruct (sides_of r i) as [|g0 gs] eqn:Es; [done|].
  assert (∀ g, g ∈ g0 :: gs → ∃ c gr, NAME c = true ∧ NAME gr = true ∧ g = group_path c gr) as Hsides.
  { rewrite <-Es. unfold sides_of. intros g (gr & -> & Hgr)%list_elem_of_fmap.
    exists (lo_cluster i), gr. split; [done|]. split; [by eapply Hg|done]. }
  set (path := instance_path (lo_cluster i) (lo_project i) (lo_name i)).
  change (push og g0 path) with (foldl (λ og g, push og g path) og [g0]).
  rewrite <-foldl_app. change ([g0] ++ gs) with (g0 :: gs).
  split; cbn [fst snd].
  - intros x g Hx. apply elem_of_push_group. destruct (decide (x = path)) as [->|Hne].
    + rewrite lookup_insert_eq in Hx. by right.
    + rewrite lookup_insert_ne in Hx by done. left. by apply (li_onGroup _ Hacc).
  - intros x g Hx. destruct (decide (x = path)) as [->|Hne].
    + rewrite lookup_insert_eq in Hx. by apply Hsides.
    + rewrite lookup_insert_ne in Hx by done. by apply (li_groups _ Hacc x).
  - intros x g [Hx|[-> _]]%elem_of_push_group; [by eapply (li_instances _ Hacc)|].
    by exists (lo_cluster i), (lo_project i), (lo_name i).
Qed.

Lemma load_owners_wf x o :
  (x, o) ∈ load_owners r → starts_with "/clusters/" x = true → wf_instance_path x.
Proof using Hr.
  destruct Hr as (_ & _ & H & _). unfold load_owners. revert x o.
  set (P := λ m : js_map string string,
    ∀ x o, (x, o) ∈ m → starts_with "/clusters/" x = true → wf_instance_path x).
  assert (∀ m, P m → P (foldl (λ m o, match owner_subject o with
    | Some s => map_set m (instance_path (ow_cluster o) (ow_project o) (ow_name o)) s
    | None => m end) m (r_owned r))) as H1.
  { induction H as [|o l (Hc & Hp & Hn) _ IH]; intros m Hm; [done|]. simpl. apply IH.
    destruct (owner_subject o); [|done]. intros x o' [Hx|Hx]%elem_of_map_set; [by eapply Hm|].
    injection Hx as -> ->. by exists (ow_cluster o), (ow_project o), (ow_name o). }
  assert (∀ l m, P m → P (foldl (λ m k,
    map_set m ("/tenants/" +++ k8_slug k +++ "/kubernetes/" +++ k8_name k) (k8_createdBy k)) m l)) as H2.
  { intros l. induction l as [|k l IH]; intros m Hm; [done|]. simpl. apply IH.
    intros x o' [Hx|Hx]%elem_of_map_set; [by eapply Hm|]. by simplify_eq/=. }
  apply H2, H1. by intros ?? ?%not_elem_of_nil.
Qed.

Lemma load_projects_wf x : x ∈ projects (load t r) → wf_project_path x.
Proof using Hr.
  destruct Hr as (_ & _ & _ & Hp & Hi). simpl. rewrite elem_of_set_of, elem_of_app.
  rewrite !list_elem_of_fmap. rewrite Forall_forall in Hp. rewrite Forall_forall in Hi.
  intros [(y & -> & Hy)|(y & -> & Hy)]; [apply Hp in Hy|apply Hi in Hy]; unfold wf_project_path; naive_solver.
Qed.

Lemma load_wf : snapshot_wf (load t r).
Proof using Hr.
  pose proof load_located_inv as [H1 H2 H3].
  split; [| |exact H1|exact H2|exact (λ g x, H3 x g)|exact load_owners_wf|exact load_projects_wf].
  all: intros k e; simpl; rewrite elem_of_push_all, lookup_empty; simpl.
  all: split; [intros [?%not_elem_of_nil|(a & ? & ?)]; [done|by simplify_eq]|].
  all: intros [? <-]; right; by exists e.
Qed.
End load_theory.

(** ** Properties *)

(** A subject the database marks disabled (a user or a service account)
    holds nothing: every decision on it is empty, with no deciding entry, it
    reaches nothing and it sees no path. *)
Theorem disabled_holds_nothing t r (p : PrincipalId) :
  (if p_service p then ∃ a, a ∈ r_accounts r ∧ sa_id a = p_id p ∧ sa_disabled a = true
   else ∃ u, u ∈ r_people r ∧ u_id u = p_id p ∧ u_disabled u = true) →
  (∀ path owner, decide_on (load t r) (subjectOf p) path owner = (∅, []))
  ∧ (∀ path, reach (load t r) (subjectOf p) path = ∅)
  ∧ (∀ path, sees (load t r) p path = false).
Proof.
  intros H.
  assert (subjectOf p ∈ disabled (load t r)) as Hd.
  { simpl. unfold load_disabled, subjectOf. rewrite elem_of_union, !elem_of_list_to_set, !list_elem_of_fmap.
    destruct (p_service p); destruct H as (x & Hx & <- & Hdis); [right|left]; exists x;
      (split; [done|by apply elem_of_js_filter]). }
  assert (∀ path owner, decide_on (load t r) (subjectOf p) path owner = (∅, [])) as Hn.
  { intros path owner. unfold decide_on. destruct (parsePath path); [|done].
    by rewrite bool_decide_true. }
  split; [done|]. split.
  - intros path. unfold reach. destruct (parsePath path); [|done]. apply set_eq. intros x.
    split; [|set_solver]. rewrite elem_of_union_list. intros (X & HX & Hx).
    apply list_elem_of_fmap in HX as (y & -> & _). by rewrite Hn in Hx.
  - intros path. unfold sees. apply orb_false_intro; [|apply some_false; intros x _];
      unfold holds_any; rewrite Hn; done.
Qed.

(** C11: the scope that filters instance lists is exact: for an instance of a
    known project, the row condition built from [instanceScope] holds exactly
    when the subject is decided to hold the privilege on the instance, as long
    as the entries set on that instance's project for the subject or its groups
    propagate. *)
Theorem instanceScope_exact t r (p : PrincipalId) privilege c pr i :
  rows_wf r → NAME c = true → NAME pr = true → NAME i = true →
  project_path c pr ∈ projects (load t r) →
  project_entries_propagate (load t r) p c pr →
  visibility (instanceScope (load t r) p privilege) c pr i
    = can (load t r) p privilege (instance_path c pr i) None.
Proof.
  intros Hr Hc Hpr Hi Hin Hprop. pose proof (load_wf t r Hr) as Hwf.
  rewrite visibility_holds; [done..|].
  intros Hn. unfold holds. by rewrite (not_single_follows _ Hwf p c pr i Hc Hpr Hi Hprop Hn).
Qed.

(** *** A concrete database: one tenant project with two instances *)

Definition demo_rows (role : string) (path : string) (propagate : bool) : Rows := {|
  r_explicit := [{| ae_id := "e1"; ae_path := path; ae_role := role; ae_propagate := propagate;
                    ae_userId := Some "u1"; ae_serviceAccountId := None; ae_groupId := None; ae_tenantGroupId := None;
                    ae_createdBy := None |}];
  r_roles := []; r_members := []; r_accounts := [];
  r_people := [{| u_id := "u1"; u_disabled := false |}; {| u_id := "u2"; u_disabled := true |}];
  r_places := [{| pl_cluster := "c1"; pl_project := "p1"; pl_slug := "t1" |}];
  r_tenants := [("t", "t1")]; r_clusters := [("c", "c1")];
  r_owned := [{| ow_cluster := "c1"; ow_project := "p1"; ow_name := "mine"; ow_userId := Some "u1"; ow_serviceAccountId := None |}];
  r_k8s := []; r_inventoried := [("c1", "p1")]; r_grouped := [];
  r_memberGroups := [{| mg_cluster := "c1"; mg_name := "m1"; mg_groups := None |}];
  r_located := [{| lo_cluster := "c1"; lo_project := "p1"; lo_name := "mine"; lo_location := "m1" |};
                {| lo_cluster := "c1"; lo_project := "p1"; lo_name := "other"; lo_location := "m1" |}];
|}.

Definition demo_user : PrincipalId := {| p_service := false; p_id := "u1" |}.

Lemma demo_rows_wf role path propagate : rows_wf (demo_rows role path propagate).
Proof. repeat constructor. Qed.

(** A User sees and acts on its own instance and not on its neighbour. *)
Example demo_user_role :
  let s := load 0 (demo_rows "user" "/tenants/t1" true) in
  instanceScope s demo_user "instance.exec"
    = {| sc_projects := []; sc_exclude := []; sc_include := ["c1/p1/mine"] |}
  ∧ can s demo_user "instance.exec" "/clusters/c1/projects/p1/instances/mine" None = true
  ∧ can s demo_user "instance.exec" "/clusters/c1/projects/p1/instances/other" None = false.
Proof. vm_compute. auto. Qed.

Lemma disabled_holds_nothing_witness :
  decide_on (load 0 (demo_rows "auditor" "/" true)) "user:u2" "/clusters/c1" None = (∅, []).
Proof.
  apply (disabled_holds_nothing 0 (demo_rows "auditor" "/" true) {| p_service := false; p_id := "u2" |}).
  exists {| u_id := "u2"; u_disabled := true |}. split; [by right; left|done].
Defined.

Lemma instanceScope_exact_witness :
  visibility (instanceScope (load 0 (demo_rows "auditor" "/clusters/c1/projects/p1" true)) demo_user "instance.view") "c1" "p1" "other"
    = can (load 0 (demo_rows "auditor" "/clusters/c1/projects/p1" true)) demo_user "instance.view"
        (instance_path "c1" "p1" "other") None.
Proof.
  apply (instanceScope_exact 0 (demo_rows "auditor" "/clusters/c1/projects/p1" true) demo_user "instance.view" "c1" "p1" "other");
    [apply demo_rows_wf|reflexivity|reflexivity|reflexivity|vm_compute; left|].
  intros e He _ _. vm_compute in He. by apply list_elem_of_singleton in He as ->.
Defined.

(** Without that condition the scope is wider than the decisions: an
    Auditor entry on a project that does not propagate puts the whole project
    in the scope, so its instances are listed although the subject holds
    nothing on them. *)
Theorem instanceScope_wider_than_can :
  ∃ r c pr i, rows_wf r ∧ project_path c pr ∈ projects (load 0 r)
    ∧ visibility (instanceScope (load 0 r) demo_user "instance.view") c pr i = true
    ∧ can (load 0 r) demo_user "instance.view" (instance_path c pr i) None = false.
Proof.
  exists (demo_rows "auditor" "/clusters/c1/projects/p1" false), "c1", "p1", "other".
  split; [apply demo_rows_wf|]. split; [vm_compute; left|]. by vm_compute.
Qed.
