(* ===== verification/AclEdit.v ===== *)
(** * AclEdit: who may change permissions and people

    Models the changes to what [Acl] reads: [acl/admins.ts] (who is a platform
    administrator, and that one stays), [acl/outrank.ts], the guards of
    [authz/guards.ts], creating and deleting an entry ([api/acl.ts]) and
    changing or deleting a user ([api/users.ts]). The database is the record
    [Rows] that [Acl.load] reads, with the tables only these handlers read
    beside it. A handler decides on a snapshot [s] (which may be older than the
    database) and is split where it first writes. Ids come as text in either case
    of letters; the database compares and stores them as it writes them, in lower
    case ([uuid_of]), and JavaScript compares them as they were sent. *)

From S2P Require Import Prelude JsString AclPaths AclCatalog AclResolve Acl Effects.

Record Db := {
  rows : Rows;
  groupIds : list string;                       (** [groups] *)
  k8sAt : list (string * string * string);      (** Kubernetes clusters: tenant slug, name, cluster id *)
}.

(** *** [UPDATE]s of one table *)

Definition with_explicit (r : Rows) (l : list AclEntryRow) : Rows := {|
  r_explicit := l; r_roles := r_roles r; r_members := r_members r; r_accounts := r_accounts r;
  r_people := r_people r; r_places := r_places r; r_tenants := r_tenants r; r_clusters := r_clusters r;
  r_owned := r_owned r; r_k8s := r_k8s r; r_inventoried := r_inventoried r; r_grouped := r_grouped r;
  r_memberGroups := r_memberGroups r; r_located := r_located r |}.

Definition with_people (r : Rows) (people : list UserRow) (roles : list PlatformRoleRow) : Rows := {|
  r_explicit := r_explicit r; r_roles := roles; r_members := r_members r; r_accounts := r_accounts r;
  r_people := people; r_places := r_places r; r_tenants := r_tenants r; r_clusters := r_clusters r;
  r_owned := r_owned r; r_k8s := r_k8s r; r_inventoried := r_inventoried r; r_grouped := r_grouped r;
  r_memberGroups := r_memberGroups r; r_located := r_located r |}.

(** Equality of a nullable column with an id: never true of NULL. *)
Definition col_is (o : option string) (id : string) : bool := bool_decide (o = Some id).

(** [ON DELETE SET NULL] and [ON DELETE CASCADE] of [users.id]. *)
Definition unset (o : option string) (id : string) : option string := if col_is o id then None else o.
Definition drop_user (r : Rows) (id : string) : Rows := {|
  r_explicit := (λ e, {| ae_id := ae_id e; ae_path := ae_path e; ae_role := ae_role e;
                         ae_propagate := ae_propagate e; ae_userId := ae_userId e;
                         ae_serviceAccountId := ae_serviceAccountId e; ae_groupId := ae_groupId e;
                         ae_tenantGroupId := ae_tenantGroupId e;
                         ae_createdBy := unset (ae_createdBy e) id |})
                <$> js_filter (λ e, negb (col_is (ae_userId e) id)) (r_explicit r);
  r_roles := js_filter (λ x, negb (str_is (pr_userId x) id)) (r_roles r);
  r_members := js_filter (λ m, negb (str_is (tm_userId m) id)) (r_members r);
  r_accounts := r_accounts r;
  r_people := js_filter (λ u, negb (str_is (u_id u) id)) (r_people r);
  r_places := r_places r; r_tenants := r_tenants r; r_clusters := r_clusters r;
  r_owned := (λ o, {| ow_cluster := ow_cluster o; ow_project := ow_project o; ow_name := ow_name o;
                      ow_userId := unset (ow_userId o) id; ow_serviceAccountId := ow_serviceAccountId o |})
             <$> r_owned r;
  r_k8s := r_k8s r; r_inventoried := r_inventoried r;
  r_grouped := js_filter (λ g, negb (col_is (gm_userId g) id)) (r_grouped r);
  r_memberGroups := r_memberGroups r; r_located := r_located r |}.

Definition put_rows (db : Db) (r : Rows) : Db :=
  {| rows := r; groupIds := groupIds db; k8sAt := k8sAt db |}.

(** ** Administrators ([acl/admins.ts]) *)

Inductive AdminHold :=
  | ViaRole (userId : string)
  | ViaEntry (userId entryId : string).
Definition holder (h : AdminHold) : string := match h with ViaRole u => u | ViaEntry u _ => u end.

(** The inner join with [users] that are not disabled. *)
Definition enabled (r : Rows) (id : string) : bool :=
  some (λ u, str_is (u_id u) id && negb (u_disabled u)) (r_people r).

Definition administrators (r : Rows) : list AdminHold :=
  let roles := ViaRole ∘ pr_userId <$>
    js_filter (λ x, str_is (pr_role x) "admin" && enabled r (pr_userId x)) (r_roles r) in
  let entries := r_explicit r ≫= (λ e,
    match ae_userId e with
    | Some u => if str_is (ae_path e) "/" && str_is (ae_role e) "administrator" && enabled r u
                then [ViaEntry u (ae_id e)] else []
    | None => []
    end) in
  let out := ae_userId <$> js_filter (λ e, str_is (ae_path e) "/" && str_is (ae_role e) "no-access") (r_explicit r) in
  js_filter (λ h, negb (includes out (Some (holder h)))) (roles ++ entries).

Definition keepAnAdministrator (r : Rows) (lost : AdminHold → bool) : result () :=
  let all := administrators r in
  match js_filter (negb ∘ lost) all with
  | [] => if some lost all then throw 409 "last_admin" "This is the last platform administrator" else Ok tt
  | _ => Ok tt
  end.

(** ** Guards ([authz/guards.ts], [acl/outrank.ts]) *)

Definition forbidden : ApiError :=
  {| status := 403; code := "forbidden"; message := "You do not have permission to do this" |}.
Definition notFound (what : string) : ApiError := {| status := 404; code := "not_found"; message := what |}.
Definition bad (c m : string) : ApiError := {| status := 400; code := c; message := m |}.
Definition orThrow (ok : bool) (e : ApiError) : result () := if ok then Ok tt else Throw e.

Definition is_hex (c : ascii) : bool :=
  is_digit c || in_range "a"%char "f"%char c || in_range "A"%char "F"%char c.
(** [isUuid] *)
Definition isUuid (s : string) : bool :=
  match split_on "-" s with
  | [a; b; c; d; e] =>
      bool_decide (String.length <$> [a; b; c; d; e] = [8; 4; 4; 4; 12]%nat)
      && every (str_forall is_hex) [a; b; c; d; e]
  | _ => false
  end.

(** What the database makes of an id sent as text: a uuid is written in lower case. *)
Definition uuid_of (s : string) : string := toLowerCase s.

Section guards.
Context (s : Snapshot).

Definition needPriv (p : PrincipalId) (privilege path : string) : result () :=
  orThrow (sees s p path) (notFound "Not found");;
  orThrow (can s p privilege path None) forbidden.

Definition needTenant (r : Rows) (p : PrincipalId) (tenantId privilege : string) : result string :=
  match (if isUuid tenantId then map_get (r_tenants r) (uuid_of tenantId) else None) with
  | Some slug =>
      let path := "/tenants/" +++ slug in
      orThrow (can s p "tenant.view" path None) (notFound "Not found");;
      orThrow (can s p privilege path None) forbidden;;
      mret path
  | None => Throw (notFound "Not found")
  end.

(** [/^<prefix>([^/]+)/.exec(path)?.[1]] *)
Definition first_segment (prefix path : string) : option string :=
  if starts_with prefix path then
    let x := default EmptyString (head (split_on "/" (str_drop (String.length prefix) path))) in
    if truthy_str x then Some x else None
  else None.

Definition owner_of_tenant (tenantId : option string) (x : string) : bool :=
  match tenantId with
  | Some t => truthy_str t && starts_with "user:" x
              && bool_decide (t +++ ":" +++ str_drop 5 x ∈ lk_owners (ids s))
  | None => false
  end.

Definition needOutrank (caller : PrincipalId) (path : string) (subjects : list string) : result () :=
  let me := subjectOf caller in
  let mine := privileges_on s caller path None in
  orThrow (every (λ x, str_is x me || bool_decide (reach s x path ⊆ mine)) subjects)
    {| status := 403; code := "outranked";
       message := "They hold rights here that you do not; ask a platform administrator" |};;
  match first_segment "/tenants/" path with
  | None => Ok tt
  | Some slug =>
      let owner := owner_of_tenant (fst <$> js_find (λ x, str_is x.2 slug) (tenantSlugs (ids s))) in
      if some (λ x, negb (str_is x me) && owner x) subjects
         && negb (owner me) && negb (can s caller "platform.users" "/" None)
      then throw 403 "outranked" "Only the tenant's owners and platform administrators change what its owners get"
      else Ok tt
  end.
End guards.

(** ** Entries ([api/acl.ts]) *)

Inductive SubjectType := SUser | SService | SGroup | STenant.
Global Instance SubjectType_eq_dec : EqDecision SubjectType.
Proof. solve_decision. Defined.
Definition show_type (t : SubjectType) : string :=
  match t with SUser => "user" | SService => "service" | SGroup => "group" | STenant => "tenant" end.

(** [GIVABLE]: every role. *)
Definition GIVABLE : list RoleId :=
  [RAdministrator; ROperator; RClusterOwner; RGroupOwner; RUnrestrictedUser; RUser; RTenantAdmin; RAuditor; RNoAccess].
Definition PATH_KINDS (p : AclPath) : bool := match p with PPlatform => false | _ => true end.
Definition ONLY_ADMINS : list RoleId := [RAdministrator; RClusterOwner].

Section tables.
Context (db : Db).
Let r := rows db.

(** Who an entry for the subject reaches. *)
Definition reachOf (subject : string) : list string :=
  let parts := split_on ":" subject in
  let type := default EmptyString (parts !! 0%nat) in
  let id := default EmptyString (parts !! 1%nat) in
  if negb (isUuid id) then []
  else if str_is type "group" then
    (λ g, if truthy_opt_str (gm_userId g) then "user:" +++ id_or_null (gm_userId g)
          else "service:" +++ id_or_null (gm_serviceAccountId g))
      <$> js_filter (λ g, str_is (gm_groupId g) (uuid_of id)) (r_grouped r)
  else if str_is type "tenant" then
    ((λ m, "user:" +++ tm_userId m) <$> js_filter (λ m, str_is (tm_tenantId m) (uuid_of id)) (r_members r))
    ++ ((λ a, "service:" +++ sa_id a) <$> js_filter (λ a, col_is (sa_tenantId a) (uuid_of id)) (r_accounts r))
  else [subject].

Definition subjectExists (type : SubjectType) (id : string) : bool :=
  isUuid id
  && match type with
     | SUser => some (λ u, str_is (u_id u) (uuid_of id)) (r_people r)
     | SService => some (λ a, str_is (sa_id a) (uuid_of id)) (r_accounts r)
     | SGroup => includes (groupIds db) (uuid_of id)
     | STenant => some (λ t, str_is t.1 (uuid_of id)) (r_tenants r)
     end.

(** The clusters whose grants an entry on [path] can change. *)
Inductive Targets := AllClusters | Clusters (ids : list string).
Definition ids_named (name : string) : list string :=
  (js_filter (λ c, str_is c.2 name) (r_clusters r)).*1.
(** [/^\/tenants\/([^/]+)\/kubernetes\/([^/]+)$/] *)
Definition k8s_path (path : string) : option (string * string) :=
  match split_on "/" path with
  | [e; a; t; k; n] =>
      if str_is e EmptyString && str_is a "tenants" && truthy_str t && str_is k "kubernetes" && truthy_str n
      then Some (t, n) else None
  | _ => None
  end.
Definition affected (path : string) : Targets :=
  match k8s_path path with
  | Some (t, n) => Clusters (js_filter (λ x, str_is x.1.1 t && str_is x.1.2 n) (k8sAt db)).*2
  | None =>
      if str_is path "/" || starts_with "/tenants/" path then AllClusters
      else match first_segment "/clusters/" path with
           | Some name => Clusters (ids_named name)
           | None => Clusters []
           end
  end.

(** Cluster names are unique, so the rows joined by id are those of the name. *)
Definition objectExists (path : AclPath) : bool :=
  let clusterId name := truthy_opt_str (head (ids_named name)) in
  match path with
  | PRoot => true
  | PCluster c => clusterId c
  | PGroup c g =>
      clusterId c
      && (str_is g "default"
          || some (λ m, str_is (mg_cluster m) c && includes (default [] (mg_groups m)) g) (r_memberGroups r))
  | PTenant t => some (λ x, str_is x.2 t) (r_tenants r)
  | PProject c p =>
      clusterId c
      && (some (λ x, str_is (pl_cluster x) c && str_is (pl_project x) p) (r_places r)
          || some (λ i, str_is (lo_cluster i) c && str_is (lo_project i) p) (r_located r))
  | PInstance c p n =>
      clusterId c
      && some (λ i, str_is (lo_cluster i) c && str_is (lo_project i) p && str_is (lo_name i) n) (r_located r)
  | PKubernetes t n => some (λ x, str_is x.1.1 t && str_is x.1.2 n) (k8sAt db)
  | PPlatform => false
  end.
End tables.

Definition isAdministrator (s : Snapshot) (p : PrincipalId) : bool :=
  some (λ e, bool_decide (e_role e = RAdministrator)) (decide_on s (subjectOf p) "/" None).2.

Definition needManage (s : Snapshot) (p : PrincipalId) (path : string) (role : RoleId) : result () :=
  needPriv s p "acl.manage" path;;
  orThrow (negb (includes ONLY_ADMINS role) || isAdministrator s p) forbidden.

Record EntryBody := {
  eb_path : string; eb_type : SubjectType; eb_id : string; eb_role : string; eb_propagate : bool;
}.

Definition new_entry (id : string) (p : PrincipalId) (b : EntryBody) : AclEntryRow :=
  let col t := if decide (eb_type b = t) then Some (uuid_of (eb_id b)) else None in
  {| ae_id := id; ae_path := eb_path b; ae_role := eb_role b; ae_propagate := eb_propagate b;
     ae_userId := col SUser; ae_serviceAccountId := col SService; ae_groupId := col SGroup;
     ae_tenantGroupId := col STenant;
     ae_createdBy := if p_service p then None else Some (p_id p) |}.

(** [acl_entry_unique]: path, subject and role. *)
Definition same_entry (a b : AclEntryRow) : bool :=
  bool_decide ((ae_path a, ae_userId a, ae_serviceAccountId a, ae_groupId a, ae_tenantGroupId a, ae_role a)
             = (ae_path b, ae_userId b, ae_serviceAccountId b, ae_groupId b, ae_tenantGroupId b, ae_role b)).

Definition createEntry_check (s : Snapshot) (db : Db) (p : PrincipalId) (b : EntryBody) : result () :=
  match parsePath (eb_path b) with
  | None => Throw (bad "invalid_path" "Entries go on /, a cluster, a project, an instance, a tenant or a Kubernetes cluster for now")
  | Some path =>
      orThrow (PATH_KINDS path)
        (bad "invalid_path" "Entries go on /, a cluster, a project, an instance, a tenant or a Kubernetes cluster for now");;
      match isRoleId (eb_role b) with
      | None => Throw (bad "invalid_role" "Not a role that can be given yet")
      | Some role =>
          orThrow (includes GIVABLE role) (bad "invalid_role" "Not a role that can be given yet");;
          orThrow (negb (bool_decide (role = RUnrestrictedUser)
                         && match path with PRoot | PCluster _ => true | _ => false end))
            (bad "invalid_role" "Unrestricted user goes on a cluster group, a tenant or a project: on a cluster or / it would reach every tenant's projects");;
          orThrow (negb (bool_decide (role = RGroupOwner)
                         && match path with PGroup _ _ => false | _ => true end))
            (bad "invalid_role" "Group owner goes on a cluster group");;
          orThrow (subjectExists db (eb_type b) (eb_id b))
            (bad "invalid_subject" "No such user, service account, group or tenant");;
          needManage s p (eb_path b) role;;
          needOutrank s p (eb_path b) (reachOf db (show_type (eb_type b) +++ ":" +++ eb_id b));;
          orThrow (objectExists db path)
            (bad "invalid_path" "Nothing there: no such cluster, cluster group, project, instance, tenant or Kubernetes cluster");;
          if bool_decide (eb_type b = SUser) && str_is (eb_path b) "/" && bool_decide (role = RNoAccess)
          then keepAnAdministrator (rows db) (λ h, str_is (holder h) (eb_id b))
          else Ok tt
      end
  end.

(** The insert, then the clusters asked to reconcile. *)
Definition createEntry_write (db : Db) (id : string) (p : PrincipalId) (b : EntryBody) : result (Db * Targets) :=
  let row := new_entry id p b in
  if some (same_entry row) (r_explicit (rows db))
  then throw 409 "entry_exists" "This entry exists"
  else let db' := put_rows db (with_explicit (rows db) (r_explicit (rows db) ++ [row])) in
       Ok (db', affected db' (eb_path b)).

Definition createEntry (s : Snapshot) (db : Db) (id : string) (p : PrincipalId) (b : EntryBody) : result (Db * Targets) :=
  createEntry_check s db p b;; createEntry_write db id p b.

Definition row_subject (e : AclEntryRow) : string :=
  entrySubject (ae_userId e) (ae_serviceAccountId e) (ae_groupId e) (ae_tenantGroupId e).

Definition deleteEntry_check (s : Snapshot) (db : Db) (p : PrincipalId) (id : string) : result AclEntryRow :=
  match (if isUuid id then js_find (λ e, str_is (ae_id e) (uuid_of id)) (r_explicit (rows db)) else None) with
  | None => Throw (notFound "No such entry")
  | Some row =>
      match isRoleId (ae_role row) with
      | None => Throw (notFound "No such entry")
      | Some role =>
          needManage s p (ae_path row) role;;
          needOutrank s p (ae_path row)
            (reachOf db (row_subject row)
             ++ (if truthy_opt_str (ae_createdBy row) then ["user:" +++ id_or_null (ae_createdBy row)] else []));;
          keepAnAdministrator (rows db)
            (λ h, match h with ViaEntry _ e => str_is e (ae_id row) | ViaRole _ => false end);;
          mret row
      end
  end.

Definition deleteEntry_write (db : Db) (row : AclEntryRow) : Db * Targets :=
  let db' := put_rows db (with_explicit (rows db)
               (js_filter (λ e, negb (str_is (ae_id e) (ae_id row))) (r_explicit (rows db)))) in
  (db', affected db' (ae_path row)).

Definition deleteEntry (s : Snapshot) (db : Db) (p : PrincipalId) (id : string) : result (Db * Targets) :=
  row ← deleteEntry_check s db p id; mret (deleteEntry_write db row).

(** ** Users ([api/users.ts])

    What Hydra and the store of platform tuples answer inside the transaction
    is [outside]: when they fail, nothing is written. *)

Record UserPatch := { up_disabled : option bool; up_platformRole : option (option string) }.

Definition needPlatformAdmin (s : Snapshot) (p : PrincipalId) : result () :=
  orThrow (can s p "platform.users" "/" None) forbidden.

(** The user with its platform role. *)
Definition loadUser (r : Rows) (id : string) : result (UserRow * option string) :=
  orThrow (isUuid id) (notFound "Not found");;
  match js_find (λ u, str_is (u_id u) (uuid_of id)) (r_people r) with
  | None => Throw (notFound "No such user")
  | Some u => mret (u, pr_role <$> js_find (λ x, str_is (pr_userId x) (u_id u)) (r_roles r))
  end.

Definition drops_role (b : UserPatch) : bool :=
  match up_platformRole b with Some x => negb (bool_decide (x = Some "admin")) | None => false end.
Definition patch_loses (b : UserPatch) (id : string) (h : AdminHold) : bool :=
  str_is (holder h) id
  && (bool_decide (up_disabled b = Some true)
      || match h with ViaRole _ => drops_role b | ViaEntry _ _ => false end).

Definition patchUser_check (s : Snapshot) (r : Rows) (p : PrincipalId) (id : string) (b : UserPatch)
  : result (UserRow * option string) :=
  needPlatformAdmin s p;;
  u ← loadUser r id;
  keepAnAdministrator r (patch_loses b (u_id u.1));;
  mret u.

Definition patchUser_write (r : Rows) (u : UserRow * option string) (b : UserPatch) : Rows :=
  let id := u_id u.1 in
  let people := match up_disabled b with
    | Some d => (λ x, if str_is (u_id x) id then {| u_id := u_id x; u_disabled := d |} else x) <$> r_people r
    | None => r_people r
    end in
  let roles := match up_platformRole b with
    | Some new =>
        if bool_decide (new = u.2) then r_roles r
        else js_filter (λ x, negb (str_is (pr_userId x) id)) (r_roles r)
             ++ (if truthy_opt_str new then [{| pr_userId := id; pr_role := id_or_null new |}] else [])
    | None => r_roles r
    end in
  with_people r people roles.

(** [true] when the clusters are asked to reconcile, all of them. *)
Definition patchUser (s : Snapshot) (db : Db) (p : PrincipalId) (id : string) (b : UserPatch)
    (outside : result ()) : result (Db * bool) :=
  u ← patchUser_check s (rows db) p id b;
  outside;;
  mret (put_rows db (patchUser_write (rows db) u b),
        match up_disabled b, up_platformRole b with None, None => false | _, _ => true end).

Definition deleteUser_check (s : Snapshot) (r : Rows) (p : PrincipalId) (id : string) : result string :=
  needPlatformAdmin s p;;
  u ← loadUser r id;
  keepAnAdministrator r (λ h, str_is (holder h) (u_id u.1));;
  mret (u_id u.1).

Definition deleteUser (s : Snapshot) (db : Db) (p : PrincipalId) (id : string) (outside : result ()) : result Db :=
  u ← deleteUser_check s (rows db) p id;
  outside;;
  mret (put_rows db (drop_user (rows db) u)).

(** ** A replica's requests, one after the other: any snapshot may decide *)

(** The subject of a new entry is named as the database writes its id. *)
Definition as_written (b : EntryBody) : Prop := uuid_of (eb_id b) = eb_id b.

Inductive edit : Db → Db → Prop :=
  | edit_create s db id p b db' t : as_written b → createEntry s db id p b = Ok (db', t) → edit db db'
  | edit_delete s db p id db' t : deleteEntry s db p id = Ok (db', t) → edit db db'
  | edit_user s db p id b o db' t : patchUser s db p id b o = Ok (db', t) → edit db db'
  | edit_drop_user s db p id o db' : deleteUser s db p id o = Ok db' → edit db db'.
