(* ===== verification/AclEditTheory.v ===== *)
(** * AclEditTheory: what guarding permissions gives

    The administrators counted do hold everything; requests handled one after
    the other never drop the last of them, two at a time can; only an
    administrator gives the highest roles and nobody reaches someone above
    them. An id in upper case passes the checks, and both can then fail. *)

From S2P Require Import Prelude JsString AclPaths AclCatalog AclResolve Acl AclTheory Effects AclEdit.

(** ** Results *)

Lemma orThrow_Ok b e x : orThrow b e = Ok x ↔ b = true.
Proof. destruct b, x; by split. Qed.
Lemma orThrow_bind {A} b e (m : result A) y : orThrow b e ≫= (λ _, m) = Ok y ↔ b = true ∧ m = Ok y.
Proof. destruct b; simpl; split; try done; naive_solver. Qed.
Lemma unit_bind {A} (m : result ()) (n : result A) y : m ≫= (λ _, n) = Ok y ↔ m = Ok tt ∧ n = Ok y.
Proof. destruct m as [[]|]; simpl; split; try done; naive_solver. Qed.

(** ** Administrators *)

Lemma enabled_spec r id : enabled r id = true ↔ ∃ u, u ∈ r_people r ∧ u_id u = id ∧ u_disabled u = false.
Proof.
  unfold enabled. rewrite some_spec. split; intros (u & ? & H); exists u.
  - bool_prop. apply str_is_true in H. auto.
  - destruct H as [? ->]. split; [done|]. by rewrite (proj2 (str_is_true _ _)).
Qed.

(** What makes a hold, without the fence of No access. *)
Definition raw_hold (r : Rows) (h : AdminHold) : Prop :=
  match h with
  | ViaRole u => ∃ x, x ∈ r_roles r ∧ pr_userId x = u ∧ pr_role x = "admin"
  | ViaEntry u i => ∃ e, e ∈ r_explicit r ∧ ae_userId e = Some u ∧ ae_id e = i
                         ∧ ae_path e = "/" ∧ ae_role e = "administrator"
  end.
Definition fenced (r : Rows) (u : string) : Prop :=
  ∃ e, e ∈ r_explicit r ∧ ae_userId e = Some u ∧ ae_path e = "/" ∧ ae_role e = "no-access".

Lemma elem_of_administrators r h :
  h ∈ administrators r ↔ raw_hold r h ∧ enabled r (holder h) = true ∧ ¬ fenced r (holder h).
Proof.
  unfold administrators. rewrite elem_of_js_filter, elem_of_app, negb_true_iff, includes_false.
  assert (Some (holder h) ∉ ae_userId <$> js_filter (λ e, str_is (ae_path e) "/" && str_is (ae_role e) "no-access") (r_explicit r)
    ↔ ¬ fenced r (holder h)) as ->.
  { f_equiv. rewrite list_elem_of_fmap. unfold fenced.
    setoid_rewrite elem_of_js_filter. setoid_rewrite andb_true_iff. setoid_rewrite str_is_true. naive_solver. }
  assert ((h ∈ ViaRole ∘ pr_userId <$> js_filter (λ x, str_is (pr_role x) "admin" && enabled r (pr_userId x)) (r_roles r)
     ∨ h ∈ r_explicit r ≫= (λ e, match ae_userId e with
         | Some u => if str_is (ae_path e) "/" && str_is (ae_role e) "administrator" && enabled r u
                     then [ViaEntry u (ae_id e)] else []
         | None => [] end)) ↔ raw_hold r h ∧ enabled r (holder h) = true) as ->; [|tauto].
  rewrite list_elem_of_fmap, list_elem_of_bind. split.
  - intros [(x & -> & [? H]%elem_of_js_filter)|(e & H & ?)].
    + bool_prop. apply str_is_true in H. simpl. eauto.
    + destruct (ae_userId e) as [u|] eqn:Eu; [|by apply not_elem_of_nil in H].
      destruct (_ && enabled r u) eqn:Ec; [|by apply not_elem_of_nil in H].
      apply list_elem_of_singleton in H as ->. bool_prop. simpl.
      split; [|done]. exists e. by repeat split; try apply str_is_true.
  - destruct h as [u|u i]; simpl.
    + intros [(x & ? & <- & Hx) ?]. left. exists x. split; [done|].
      apply elem_of_js_filter. by rewrite Hx, str_is_refl.
    + intros [(e & ? & Hu & <- & Hp & Hr) Hen]. right. exists e. split; [|done].
      rewrite Hu, Hp, Hr, !str_is_refl, Hen. simpl. by left.
Qed.

(** A change that [keepAnAdministrator] let pass: if the holds it does not name
    stay, someone does. *)
Lemma keeps_one r r' lost :
  keepAnAdministrator r lost = Ok tt → administrators r ≠ [] →
  (∀ h, h ∈ administrators r → lost h = false → h ∈ administrators r') →
  administrators r' ≠ [].
Proof.
  unfold keepAnAdministrator. intros H Hne Hkeep E. rewrite E in Hkeep.
  assert (∀ h, h ∈ administrators r → lost h = true) as Hall.
  { intros h Hh. destruct (lost h) eqn:El; [done|]. by apply (Hkeep h Hh), elem_of_nil in El. }
  assert (js_filter (negb ∘ lost) (administrators r) = []) as Hf.
  { apply js_filter_nil. intros h Hh. simpl. by rewrite Hall. }
  rewrite Hf in H. destruct (administrators r) as [|h l]; [done|].
  assert (some lost (h :: l) = true) as Hs; [|by rewrite Hs in H].
  apply some_spec. exists h. split; [by left|]. apply Hall. by left.
Qed.

Lemma create_keeps r id p b role :
  as_written b →
  isRoleId (eb_role b) = Some role →
  (if bool_decide (eb_type b = SUser) && str_is (eb_path b) "/" && bool_decide (role = RNoAccess)
   then keepAnAdministrator r (λ h, str_is (holder h) (eb_id b)) else Ok tt) = Ok tt →
  administrators r ≠ [] →
  administrators (with_explicit r (r_explicit r ++ [new_entry id p b])) ≠ [].
Proof.
  set (r' := with_explicit r (r_explicit r ++ [new_entry id p b])). intros Hw Hrole Hk Hne.
  assert (∀ h, h ∈ administrators r →
    (ae_userId (new_entry id p b) = Some (holder h) → eb_path b = "/" → eb_role b = "no-access" → False) →
    h ∈ administrators r') as Hstay.
  { intros h (Hraw & Hen & Hnf)%elem_of_administrators Hx. apply elem_of_administrators.
    split; [|split; [done|]].
    - destruct h as [u|u i]; simpl in *; [done|]. destruct Hraw as (e & ? & ?). exists e.
      by rewrite elem_of_app; auto.
    - intros (e & He & Hu & Hp & Hr). simpl in He. apply elem_of_app in He as [He|He].
      + apply Hnf. by exists e.
      + apply list_elem_of_singleton in He as ->. by apply Hx. }
  destruct (decide (eb_type b = SUser ∧ eb_path b = "/" ∧ eb_role b = "no-access")) as [(Ht & Hp & Hr)|Hno].
  - assert (role = RNoAccess) as -> by (rewrite Hr in Hrole; by injection Hrole).
    rewrite Ht, Hp, !bool_decide_true in Hk by done.
    apply (keeps_one r r' _ Hk Hne). intros h Hh Hl. apply Hstay; [done|].
    simpl. rewrite Ht. destruct (decide (SUser = SUser)); [|done].
    rewrite Hw. intros [= E]. rewrite E in Hl. by rewrite str_is_refl in Hl.
  - destruct (administrators r) as [|h l] eqn:E; [done|]. intros E'.
    assert (h ∈ administrators r') as Hin; [|rewrite E' in Hin; by apply elem_of_nil in Hin].
    apply Hstay; [by left|]. simpl. destruct (decide (eb_type b = SUser)); [|done]. intros _ ??. naive_solver.
Qed.

Lemma delete_keeps r id :
  keepAnAdministrator r (λ h, match h with ViaEntry _ e => str_is e id | ViaRole _ => false end) = Ok tt →
  administrators r ≠ [] →
  administrators (with_explicit r (js_filter (λ e, negb (str_is (ae_id e) id)) (r_explicit r))) ≠ [].
Proof.
  intros Hk Hne. apply (keeps_one r _ _ Hk Hne).
  intros h (Hraw & Hen & Hnf)%elem_of_administrators Hl. apply elem_of_administrators.
  split; [|split; [done|]].
  - destruct h as [u|u i]; simpl in *; [done|]. destruct Hraw as (e & ? & ? & <- & ?). exists e.
    rewrite elem_of_js_filter, Hl. auto.
  - intros (e & [He _]%elem_of_js_filter & ?). apply Hnf. by exists e.
Qed.

(** What the writes leave of another user, and of this one. *)
Lemma enabled_patch r id d u :
  enabled r u = true → (u = id → d = false) →
  some (λ x, str_is (u_id x) u && negb (u_disabled x))
    ((λ x, if str_is (u_id x) id then {| u_id := u_id x; u_disabled := d |} else x) <$> r_people r) = true.
Proof.
  rewrite enabled_spec. intros (x & Hx & <- & Hd) Hid. apply some_spec.
  exists (if str_is (u_id x) id then {| u_id := u_id x; u_disabled := d |} else x). split.
  - apply list_elem_of_fmap. by exists x.
  - destruct (str_is (u_id x) id) eqn:E; simpl; rewrite str_is_refl; [|by rewrite Hd].
    apply str_is_true in E. by rewrite Hid.
Qed.

Lemma loadUser_Ok r id u : loadUser r id = Ok u → u_id u.1 = uuid_of id.
Proof.
  unfold loadUser. intros [_ H]%orThrow_bind. destruct (js_find _ (r_people r)) as [x|] eqn:E; [|done].
  apply js_find_some in E as [_ E]. apply str_is_true in E. injection H as <-. done.
Qed.

Lemma patch_keeps r u b :
  keepAnAdministrator r (patch_loses b (u_id u.1)) = Ok tt →
  administrators r ≠ [] → administrators (patchUser_write r u b) ≠ [].
Proof.
  intros Hk Hne. apply (keeps_one r _ _ Hk Hne).
  intros h (Hraw & Hen & Hnf)%elem_of_administrators Hl. apply elem_of_administrators.
  unfold patch_loses in Hl. split; [|split; [|done]].
  - destruct h as [x|x i]; simpl in *; [|done]. unfold patchUser_write, drops_role in *. simpl.
    destruct (up_platformRole b) as [new|]; [|done].
    destruct (bool_decide (new = u.2)); [done|]. destruct Hraw as (row & Hin & <- & Hr).
    destruct (str_is (pr_userId row) (u_id u.1)) eqn:E.
    + simpl in Hl. bool_prop. subst new. exists {| pr_userId := u_id u.1; pr_role := "admin" |}.
      apply str_is_true in E. rewrite elem_of_app. split; [|done]. right. simpl. by left.
    + exists row. rewrite elem_of_app, elem_of_js_filter, E. auto.
  - unfold patchUser_write, enabled. simpl. destruct (up_disabled b) as [d|]; [|done].
    apply enabled_patch; [done|]. intros E. rewrite E, str_is_refl in Hl. simpl in Hl.
    bool_prop. destruct d; naive_solver.
Qed.

Lemma drop_keeps r id :
  keepAnAdministrator r (λ h, str_is (holder h) id) = Ok tt →
  administrators r ≠ [] → administrators (drop_user r id) ≠ [].
Proof.
  intros Hk Hne. apply (keeps_one r _ _ Hk Hne).
  intros h (Hraw & Hen & Hnf)%elem_of_administrators Hl. apply elem_of_administrators.
  assert (∀ e u, ae_userId e = Some u → u ≠ id → col_is (ae_userId e) id = false) as Hcol.
  { intros e u -> Hu. unfold col_is. apply bool_decide_eq_false. naive_solver. }
  apply str_is_false in Hl. split; [|split].
  - destruct h as [u|u i]; simpl in *.
    + destruct Hraw as (x & ? & <- & ?). exists x. apply str_is_false in Hl.
      by rewrite elem_of_js_filter, Hl.
    + destruct Hraw as (e & ? & Hu & ? & ? & ?). eexists. split.
      * apply list_elem_of_fmap. exists e. split; [done|].
        rewrite elem_of_js_filter. split; [done|]. by rewrite (Hcol e u).
      * done.
  - apply enabled_spec in Hen as (u & ? & Hu & ?). apply enabled_spec. exists u.
    simpl. rewrite elem_of_js_filter, Hu. apply str_is_false in Hl. by rewrite Hl.
  - intros (e & (e0 & -> & [He0 _]%elem_of_js_filter)%list_elem_of_fmap & ?). apply Hnf. by exists e0.
Qed.

(** *** What a request that succeeded has passed *)

Lemma createEntry_Ok s db id p b db' t :
  createEntry s db id p b = Ok (db', t) →
  ∃ path role, parsePath (eb_path b) = Some path ∧ isRoleId (eb_role b) = Some role
    ∧ subjectExists db (eb_type b) (eb_id b) = true ∧ objectExists db path = true
    ∧ needManage s p (eb_path b) role = Ok tt
    ∧ needOutrank s p (eb_path b) (reachOf db (show_type (eb_type b) +++ ":" +++ eb_id b)) = Ok tt
    ∧ (if bool_decide (eb_type b = SUser) && str_is (eb_path b) "/" && bool_decide (role = RNoAccess)
       then keepAnAdministrator (rows db) (λ h, str_is (holder h) (eb_id b)) else Ok tt) = Ok tt
    ∧ some (same_entry (new_entry id p b)) (r_explicit (rows db)) = false
    ∧ db' = put_rows db (with_explicit (rows db) (r_explicit (rows db) ++ [new_entry id p b]))
    ∧ t = affected db' (eb_path b).
Proof.
  unfold createEntry, createEntry_check, createEntry_write.
  destruct (parsePath (eb_path b)) as [path|]; [|done]. rewrite unit_bind. intros [Hc Hw].
  apply orThrow_bind in Hc as [_ Hc]. destruct (isRoleId (eb_role b)) as [role|]; [|done].
  exists path, role. apply orThrow_bind in Hc as [_ Hc]. apply orThrow_bind in Hc as [_ Hc].
  apply orThrow_bind in Hc as [_ Hc]. apply orThrow_bind in Hc as [? Hc].
  apply unit_bind in Hc as [? Hc]. apply unit_bind in Hc as [? Hc]. apply orThrow_bind in Hc as [? Hc].
  destruct (some _ _) eqn:E in Hw; [done|]. injection Hw as <- <-. done.
Qed.

Lemma deleteEntry_Ok s db p id db' t :
  deleteEntry s db p id = Ok (db', t) →
  ∃ row role, row ∈ r_explicit (rows db) ∧ ae_id row = uuid_of id ∧ isRoleId (ae_role row) = Some role
    ∧ needManage s p (ae_path row) role = Ok tt
    ∧ needOutrank s p (ae_path row)
        (reachOf db (row_subject row)
         ++ (if truthy_opt_str (ae_createdBy row) then ["user:" +++ id_or_null (ae_createdBy row)] else [])) = Ok tt
    ∧ keepAnAdministrator (rows db)
        (λ h, match h with ViaEntry _ e => str_is e (ae_id row) | ViaRole _ => false end) = Ok tt
    ∧ (db', t) = deleteEntry_write db row.
Proof.
  unfold deleteEntry, deleteEntry_check. rewrite result_bind_Ok. intros (row & Hc & Hw).
  destruct (if isUuid id then _ else _) as [row'|] eqn:Ef; [|done].
  destruct (isUuid id); [|done]. apply js_find_some in Ef as [Hin Hid]. apply str_is_true in Hid.
  destruct (isRoleId (ae_role row')) as [role|] eqn:Er; [|done].
  apply unit_bind in Hc as [? Hc]. apply unit_bind in Hc as [? Hc]. apply unit_bind in Hc as [Hk Hc].
  injection Hc as <-. exists row', role.
  split_and!; try done. unfold mret, result_ret in Hw. congruence.
Qed.

Lemma edit_keeps db db' : administrators (rows db) ≠ [] → edit db db' → administrators (rows db') ≠ [].
Proof.
  intros Hne Hed. revert Hne.
  destruct Hed as [s0 db0 id p b db1 t Hw H|s0 db0 p id db1 t H|s0 db0 p id b o db1 t H|s0 db0 p id o db1 H];
    intros Hne.
  - apply createEntry_Ok in H as (path & role & _ & Hr & _ & _ & _ & _ & Hk & _ & -> & _).
    exact (create_keeps _ _ _ _ _ Hw Hr Hk Hne).
  - apply deleteEntry_Ok in H as (row & role & _ & _ & _ & _ & _ & Hk & [= -> _]).
    by apply delete_keeps.
  - unfold patchUser, patchUser_check in H. apply result_bind_Ok in H as (u & Hc & H).
    apply unit_bind in Hc as [_ Hc]. apply result_bind_Ok in Hc as (u' & _ & Hc).
    apply unit_bind in Hc as [Hk [= ->]]. apply unit_bind in H as [_ [= <- _]]. by apply patch_keeps.
  - unfold deleteUser, deleteUser_check in H. apply result_bind_Ok in H as (u & Hc & H).
    apply unit_bind in Hc as [_ Hc]. apply result_bind_Ok in Hc as (u' & _ & Hc).
    apply unit_bind in Hc as [Hk [= <-]]. apply unit_bind in H as [_ [= <-]]. by apply drop_keeps.
Qed.

(** ** What a hold gives *)

Lemma load_byPath t r x e : e ∈ default [] (byPath (load t r) !! x) ↔ e ∈ load_entries r ∧ e_path e = x.
Proof.
  simpl. rewrite elem_of_push_all, lookup_empty. simpl. split.
  - intros [?%not_elem_of_nil|(a & ? & [= <- <-])]; done.
  - intros [? <-]. right. by exists e.
Qed.

(** Ids are what the database makes them: unique, and never empty. *)
Definition people_wf (r : Rows) : Prop :=
  NoDup (u_id <$> r_people r) ∧ Forall (λ u, truthy_str (u_id u) = true) (r_people r).

Lemma enabled_not_disabled t r u : people_wf r → enabled r u = true →
  truthy_str u = true ∧ "user:" +++ u ∉ disabled (load t r).
Proof.
  intros [Hnd Hne] (x & Hx & <- & Hd)%enabled_spec. rewrite Forall_forall in Hne. split; [by apply Hne|].
  change (disabled (load t r)) with (load_disabled r). unfold load_disabled.
  rewrite elem_of_union, !elem_of_list_to_set, !list_elem_of_fmap.
  intros [(y & E & [Hy Hy']%elem_of_js_filter)|(y & E & _)]; [|by simplify_eq/=].
  apply append_inj_l in E. apply list_elem_of_lookup in Hx as [i Hi], Hy as [j Hj].
  assert (i = j) as <-; [|congruence].
  apply (NoDup_lookup _ _ _ (u_id x) Hnd); rewrite list_lookup_fmap; [by rewrite Hi|rewrite Hj; simpl; congruence].
Qed.

(** The entry a hold stands for. *)
Lemma hold_entry r h : people_wf r → h ∈ administrators r →
  ∃ e, e ∈ load_entries r ∧ e_path e = "/" ∧ e_subject e = "user:" +++ holder h ∧ e_role e = RAdministrator.
Proof.
  intros Hwf (Hraw & Hen & _)%elem_of_administrators.
  apply (enabled_not_disabled 0 _ _ Hwf) in Hen as [Ht _].
  unfold load_entries. destruct h as [u|u i]; simpl in *.
  - destruct Hraw as (x & Hx & <- & Hr). eexists. rewrite !elem_of_app. split; [right; left|].
    { apply list_elem_of_bind. exists x. split; [|done]. unfold platform_entry. rewrite Hr. by left. }
    done.
  - destruct Hraw as (x & Hx & Hu & <- & Hp & Hr). eexists. rewrite !elem_of_app. split; [left|].
    { apply list_elem_of_bind. exists x. split; [|done]. unfold explicit_entry. rewrite Hr. by left. }
    simpl. unfold entrySubject, truthy_opt_str. by rewrite Hu, Ht.
Qed.

Lemma isRoleId_no_access s : isRoleId s = Some RNoAccess → s = "no-access".
Proof. unfold isRoleId. simpl. repeat (case_bool_decide; [by intros|]). done. Qed.

Lemma entrySubject_user a b c d u : entrySubject a b c d = "user:" +++ u → a = Some u.
Proof.
  unfold entrySubject. destruct (truthy_opt_str a) eqn:E.
  - destruct a as [x|]; [|done]. change (id_or_null (Some x)) with x. by intros ->%append_inj_l.
  - destruct (truthy_opt_str b); [done|]. by destruct (truthy_opt_str c).
Qed.

(** No access on [/] for a user is an explicit entry of its own. *)
Lemma no_access_fenced r e u :
  e ∈ load_entries r → e_path e = "/" → e_subject e = "user:" +++ u → e_role e = RNoAccess → fenced r u.
Proof.
  unfold load_entries. rewrite !elem_of_app. intros [H|[H|[H|H]]] Hp Hs Hr;
    apply list_elem_of_bind in H as (x & H & Hx).
  - unfold explicit_entry in H. destruct (isRoleId (ae_role x)) as [role|] eqn:Er; [|by apply not_elem_of_nil in H].
    apply list_elem_of_singleton in H as ->. simpl in *. subst role.
    exists x. apply entrySubject_user in Hs. apply isRoleId_no_access in Er. done.
  - unfold platform_entry, PLATFORM_ROLE in H. simpl in H.
    repeat case_bool_decide; try (apply list_elem_of_singleton in H as ->; done); by apply not_elem_of_nil in H.
  - unfold member_entry in H. destruct (TENANT_ROLE (tm_role x)); [|by apply not_elem_of_nil in H].
    apply list_elem_of_singleton in H as ->. done.
  - unfold account_entry in H. destruct (truthy_opt_str (sa_slug x)).
    { apply list_elem_of_singleton in H as ->. done. }
    destruct (_ && _); [|by apply not_elem_of_nil in H].
    destruct (PLATFORM_ROLE _); [|by apply not_elem_of_nil in H].
    apply list_elem_of_singleton in H as ->. done.
Qed.

Lemma administrator_catalog : privileges (ROLES RAdministrator) = catalog.
Proof.
  change (privileges (ROLES RAdministrator)) with (list_to_set (mjoin [PRIVILEGES]) : gset string).
  assert (mjoin [PRIVILEGES] = PRIVILEGES) as -> by reflexivity. done.
Qed.

(** The decision on [/]: the subject's own entries there, when it has any. *)
Lemma decide_root t r subject e :
  subject ∉ disabled (load t r) →
  e ∈ load_entries r → e_path e = "/" → e_subject e = subject →
  ∃ es, e ∈ es ∧ Forall (λ x, x ∈ load_entries r ∧ e_path x = "/" ∧ e_subject x = subject) es
    ∧ decide_on (load t r) subject "/" None
      = (combine (bool_decide (map_get (owners (load t r)) "/" = Some subject)) es, es).
Proof.
  intros Hd He Hp Hs. unfold decide_on. change (parsePath "/") with (Some PRoot).
  rewrite bool_decide_false by done. cbv match beta zeta.
  set (owned := bool_decide (map_get (owners (load t r)) "/" = Some subject)).
  unfold resolve. change (chain (tenant_of (load t r)) PRoot) with ["/"].
  set (keys := keysOf (load t r) subject). set (here := here_at keys (byPath (load t r)) 0 "/").
  assert (∀ x, x ∈ here ↔ x ∈ load_entries r ∧ e_path x = "/" ∧ e_subject x ∈ keys) as Hhere.
  { intros x. unfold here, here_at. rewrite elem_of_js_filter, load_byPath, andb_true_iff, includes_spec. tauto. }
  assert (e ∈ here) as Heh by (apply Hhere; rewrite Hs; split_and!; [done..|by left]).
  set (own := js_filter (λ x, bool_decide (Some (e_subject x) = head keys)) here).
  assert (e ∈ own) as Heo.
  { apply elem_of_js_filter. split; [done|]. apply bool_decide_eq_true. by rewrite Hs. }
  assert (own_first keys here = own) as Hof.
  { unfold own_first. fold own. destruct own; [by apply not_elem_of_nil in Heo|done]. }
  exists own. split; [done|]. split.
  - apply Forall_forall. intros x [Hx Ho]%elem_of_js_filter. apply Hhere in Hx as (? & ? & _).
    apply bool_decide_eq_true in Ho. by injection Ho.
  - rewrite (resolve_from_here _ _ _ _ _ _ here eq_refl); [by rewrite Hof|].
    intros E. rewrite E in Heh. by apply not_elem_of_nil in Heh.
Qed.

(** *** Ids and how they are written *)

Lemma every_cons {A} (f : A → bool) x l : every f (x :: l) = f x && every f l.
Proof. reflexivity. Qed.

Lemma uuid_of_idem s : uuid_of (uuid_of s) = uuid_of s.
Proof.
  unfold uuid_of. induction s as [|c s IH]; [done|]. cbn [toLowerCase]. rewrite IH. f_equal.
  destruct c as [[] [] [] [] [] [] [] []]; reflexivity.
Qed.

Lemma split_on_lower c s : (∀ x, char_is (lower_char x) c = char_is x c) →
  split_on c (toLowerCase s) = toLowerCase <$> split_on c s.
Proof.
  intros Hc. induction s as [|x s IH]; [done|]. cbn [toLowerCase split_on]. rewrite Hc, IH.
  destruct (char_is x c); [done|]. by destruct (split_on c s).
Qed.
Lemma length_lower s : String.length (toLowerCase s) = String.length s.
Proof. induction s; simpl; congruence. Qed.
Lemma hex_lower s : str_forall is_hex (toLowerCase s) = str_forall is_hex s.
Proof.
  induction s as [|c s IH]; [done|]. simpl. rewrite IH. f_equal.
  destruct c as [[] [] [] [] [] [] [] []]; reflexivity.
Qed.

Lemma isUuid_uuid_of s : isUuid (uuid_of s) = isUuid s.
Proof.
  unfold isUuid, uuid_of. rewrite split_on_lower.
  2: { intros [[] [] [] [] [] [] [] []]; reflexivity. }
  destruct (split_on "-" s) as [|a [|b [|c [|d [|e [|]]]]]]; try done.
  cbn [fmap list_fmap]. by rewrite !length_lower, !every_cons, !hex_lower.
Qed.

Lemma isUuid_chars s : isUuid s = true → has_char ":" s = false ∧ truthy_str s = true.
Proof.
  intros H. assert (s ≠ EmptyString) as Hne by (by intros ->).
  split; [|unfold truthy_str; by rewrite bool_decide_eq_false_2].
  apply (str_forall_no_char (λ c, is_hex c || char_is c "-")); [|done].
  unfold isUuid in H.
  assert (every (str_forall is_hex) (split_on "-" s) = true) as Hall.
  { destruct (split_on "-" s) as [|a [|b [|c [|d [|e [|]]]]]]; try done. by apply andb_prop in H as [_ H]. }
  clear H Hne. induction s as [|c s IH]; [done|]. cbn [split_on] in Hall. cbn [str_forall].
  destruct (char_is c "-") eqn:E; [rewrite orb_true_r|].
  - rewrite every_cons in Hall. apply andb_prop in Hall as [_ Hall]. by rewrite IH.
  - pose proof (split_on_nonempty "-" s) as Hs. destruct (split_on "-" s) as [|h l]; [done|].
    rewrite every_cons in Hall. cbn [str_forall] in Hall. rewrite !andb_true_iff in Hall. destruct Hall as [[Hc Hh] Hl].
    rewrite Hc. apply IH. rewrite every_cons. by rewrite Hh, Hl.
Qed.

(** What an entry for one subject reaches, by the kind of the subject. *)
Lemma reachOf_typed db t id : isUuid id = true →
  reachOf db (show_type t +++ ":" +++ id) =
    match t with
    | SGroup => (λ g, if truthy_opt_str (gm_userId g) then "user:" +++ id_or_null (gm_userId g)
                      else "service:" +++ id_or_null (gm_serviceAccountId g))
                  <$> js_filter (λ g, str_is (gm_groupId g) (uuid_of id)) (r_grouped (rows db))
    | STenant => ((λ m, "user:" +++ tm_userId m) <$> js_filter (λ m, str_is (tm_tenantId m) (uuid_of id)) (r_members (rows db)))
                 ++ ((λ a, "service:" +++ sa_id a) <$> js_filter (λ a, col_is (sa_tenantId a) (uuid_of id)) (r_accounts (rows db)))
    | _ => [show_type t +++ ":" +++ id]
    end.
Proof.
  intros H. destruct (isUuid_chars id H) as [Hc _]. unfold reachOf. change (":" +++ id) with (String ":" id).
  assert (split_on ":" (show_type t +++ String ":" id) = [show_type t; id]) as ->.
  { rewrite split_on_cons, !split_on_no_char; [done|done|by destruct t]. }
  cbv zeta. change (default EmptyString ([show_type t; id] !! 0)) with (show_type t).
  change (default EmptyString ([show_type t; id] !! 1)) with id. rewrite H. by destruct t.
Qed.

(** The subject of the row that is stored, and whom it reaches. *)
Lemma stored_subject id p b : isUuid (eb_id b) = true →
  row_subject (new_entry id p b) = show_type (eb_type b) +++ ":" +++ uuid_of (eb_id b).
Proof.
  intros H. rewrite <-isUuid_uuid_of in H. destruct (isUuid_chars _ H) as [_ Hne].
  unfold row_subject, new_entry, entrySubject.
  cbn [ae_userId ae_serviceAccountId ae_groupId ae_tenantGroupId].
  destruct (eb_type b);
    repeat match goal with |- context [decide (?x = ?y)] => destruct (decide (x = y)); try congruence end;
    cbn [truthy_opt_str id_or_null default from_option]; by rewrite ?Hne.
Qed.
Lemma reachOf_stored db id p b x : isUuid (eb_id b) = true →
  eb_type b = SGroup ∨ eb_type b = STenant ∨ as_written b →
  x ∈ reachOf db (row_subject (new_entry id p b)) → x ∈ reachOf db (show_type (eb_type b) +++ ":" +++ eb_id b).
Proof.
  intros H Hk. rewrite (stored_subject _ _ _ H), !reachOf_typed, uuid_of_idem by (by rewrite ?isUuid_uuid_of).
  destruct Hk as [-> |[-> |Hw]]; [done..|]. by rewrite (Hw : uuid_of _ = _).
Qed.

(** *** What the guards let through *)

Lemma needManage_Ok s p path role r :
  isRoleId r = Some role → needManage s p path role = Ok tt →
  can s p "acl.manage" path None = true
  ∧ (r = "administrator" ∨ r = "cluster-owner" → isAdministrator s p = true).
Proof.
  unfold needManage, needPriv. intros Hr H.
  apply unit_bind in H as [[_ Hcan%orThrow_Ok]%orThrow_bind Ha%orThrow_Ok]. split; [done|].
  intros Hc. destruct (isAdministrator s p); [done|]. rewrite orb_false_r in Ha.
  destruct Hc as [-> | ->]; injection Hr as <-; vm_compute in Ha; done.
Qed.

Lemma needOutrank_Ok s p path xs x :
  needOutrank s p path xs = Ok tt → x ∈ xs → x ≠ subjectOf p → reach s x path ⊆ privileges_on s p path None.
Proof.
  unfold needOutrank. intros [Hall _]%orThrow_bind Hx Hne. rewrite every_spec in Hall.
  apply Hall in Hx. apply orb_prop in Hx as [Hx|Hx]; [by apply str_is_true in Hx|by apply bool_decide_eq_true in Hx].
Qed.

(** ** Properties *)

(** Whoever is counted as a platform administrator is one: the decision on
    [/] gives it every privilege, and the handlers take it for an
    administrator. *)
Theorem administrators_hold_all t r h :
  people_wf r → h ∈ administrators r →
  let p := {| p_service := false; p_id := holder h |} in
  privileges_on (load t r) p "/" None = catalog ∧ isAdministrator (load t r) p = true.
Proof.
  intros Hwf Hh. destruct (hold_entry r h Hwf Hh) as (e & He & Hp & Hs & Hr).
  apply elem_of_administrators in Hh as (_ & Hen & Hnf).
  apply (enabled_not_disabled t _ _ Hwf) in Hen as [_ Hd].
  destruct (decide_root t r _ e Hd He Hp Hs) as (es & Hin & Hall & Hdec).
  unfold privileges_on, isAdministrator. change (subjectOf _) with ("user:" +++ holder h). rewrite Hdec. simpl.
  rewrite Forall_forall in Hall. split.
  - apply (anti_symm (⊆)); [apply combine_catalog|]. unfold combine.
    assert (some (λ e, bool_decide (e_role e = RNoAccess)) es = false) as ->.
    { apply some_false. intros x Hx. apply bool_decide_eq_false. intros Hxr.
      destruct (Hall x Hx) as (? & ? & ?). apply Hnf. by eapply no_access_fenced. }
    set (owned := bool_decide _). intros q Hq. apply elem_of_union_list.
    exists (role_gives RAdministrator owned).
    split; [apply list_elem_of_fmap; exists e; rewrite Hr; split; [reflexivity|exact Hin]|].
    unfold role_gives.
    apply elem_of_union_l. by rewrite administrator_catalog.
  - apply some_spec. exists e. by rewrite bool_decide_true.
Qed.

(** C13: a change of entries that goes through was the caller's to make: it
    manages permissions on that path, an Administrator or Cluster owner entry is
    given or taken by administrators only, nobody the stored entry reaches (and,
    when it is taken away, nobody who set it) holds on the path or above something
    the caller lacks there, and the table changes by that entry alone. For a new
    entry of a user or a service account, as long as the request writes its id as
    the database does: see [upper_case_outranks]. *)
Theorem edits_outranked s db p :
  (∀ id b db' t, createEntry s db id p b = Ok (db', t) →
     can s p "acl.manage" (eb_path b) None = true
     ∧ (eb_role b = "administrator" ∨ eb_role b = "cluster-owner" → isAdministrator s p = true)
     ∧ (eb_type b = SGroup ∨ eb_type b = STenant ∨ as_written b →
        ∀ x, x ∈ reachOf db (row_subject (new_entry id p b)) → x ≠ subjectOf p →
          reach s x (eb_path b) ⊆ privileges_on s p (eb_path b) None)
     ∧ r_explicit (rows db') = r_explicit (rows db) ++ [new_entry id p b]
     ∧ Forall (λ e, same_entry (new_entry id p b) e = false) (r_explicit (rows db)))
  ∧ (∀ id db' t, deleteEntry s db p id = Ok (db', t) →
     ∃ row, row ∈ r_explicit (rows db) ∧ ae_id row = uuid_of id
     ∧ can s p "acl.manage" (ae_path row) None = true
     ∧ (ae_role row = "administrator" ∨ ae_role row = "cluster-owner" → isAdministrator s p = true)
     ∧ (∀ x, x ∈ reachOf db (row_subject row) ∨ (∃ a, ae_createdBy row = Some a ∧ a ≠ EmptyString ∧ x = "user:" +++ a) →
          x ≠ subjectOf p → reach s x (ae_path row) ⊆ privileges_on s p (ae_path row) None)
     ∧ (∀ e, e ∈ r_explicit (rows db') ↔ e ∈ r_explicit (rows db) ∧ ae_id e ≠ uuid_of id)).
Proof.
  split.
  - intros id b db' t H.
    apply createEntry_Ok in H as (path & role & _ & Hr & Hsub & _ & Hm & Ho & _ & Hs & -> & _).
    apply (needManage_Ok _ _ _ _ _ Hr) in Hm as [Hm Ha]. split_and!; try done.
    + intros Hk x Hx. apply (needOutrank_Ok _ _ _ _ _ Ho). apply andb_prop in Hsub as [Hu _].
      by eapply reachOf_stored.
    + apply Forall_forall. intros e He. by apply (proj1 (some_false _ _) Hs).
  - intros id db' t H.
    apply deleteEntry_Ok in H as (row & role & Hin & <- & Hr & Hm & Ho & _ & [= -> _]).
    apply (needManage_Ok _ _ _ _ _ Hr) in Hm as [Hm Ha]. exists row. split_and!; try done.
    + intros x Hx. apply (needOutrank_Ok _ _ _ _ _ Ho). rewrite elem_of_app.
      destruct Hx as [?|(a & -> & Hne & ->)]; [by left|right].
      simpl. unfold truthy_str. rewrite bool_decide_false by done. by left.
    + intros e. simpl. rewrite elem_of_js_filter, negb_true_iff. by rewrite str_is_false.
Qed.

(** C5: requests handled one after the other, by whatever snapshots they are
    decided, never take the last platform administrator away: creating and
    deleting entries, changing and deleting users all keep one; as long as a new
    entry names its subject as the database writes the id (see
    [upper_case_takes_last_administrator]). *)
Theorem an_administrator_stays db db' :
  administrators (rows db) ≠ [] → rtc edit db db' → administrators (rows db') ≠ [].
Proof. intros H Hr. apply (rtc_preserves edit (λ x, administrators (rows x) ≠ []) db); eauto using edit_keeps. Qed.

(** *** Two administrators *)

Definition uuid_a : string := "00000000-0000-4000-8000-00000000000a".
Definition uuid_b : string := "00000000-0000-4000-8000-00000000000b".
Definition uuid_e : string := "00000000-0000-4000-8000-0000000000e1".
Definition uuid_f : string := "00000000-0000-4000-8000-0000000000e2".
Definition as_user (id : string) : PrincipalId := {| p_service := false; p_id := id |}.
Definition user_entry (id path user role : string) : AclEntryRow :=
  {| ae_id := id; ae_path := path; ae_role := role; ae_propagate := true;
     ae_userId := Some user; ae_serviceAccountId := None; ae_groupId := None; ae_tenantGroupId := None;
     ae_createdBy := None |}.
Definition demo_db (l : list AclEntryRow) : Db := {|
  rows := {|
    r_explicit := l; r_roles := []; r_members := []; r_accounts := [];
    r_people := [{| u_id := uuid_a; u_disabled := false |}; {| u_id := uuid_b; u_disabled := false |}];
    r_places := [{| pl_cluster := "c1"; pl_project := "p1"; pl_slug := "t1" |}];
    r_tenants := [("t", "t1")]; r_clusters := [("c", "c1"); ("d", "c2")]; r_owned := []; r_k8s := [];
    r_inventoried := [("c1", "p1")]; r_grouped := [];
    r_memberGroups := [{| mg_cluster := "c1"; mg_name := "m1"; mg_groups := None |}];
    r_located := [{| lo_cluster := "c1"; lo_project := "p1"; lo_name := "i"; lo_location := "m1" |}] |};
  groupIds := []; k8sAt := [] |}.
Definition two_admins : Db :=
  demo_db [user_entry uuid_e "/" uuid_a "administrator"; user_entry uuid_f "/" uuid_b "administrator"].

Lemma demo_people_wf l : people_wf (rows (demo_db l)).
Proof. split; [apply (bool_decide_eq_true (NoDup _)); vm_compute; reflexivity|repeat constructor]. Qed.

Lemma administrators_hold_all_witness :
  isAdministrator (load 0 (rows two_admins)) (as_user uuid_a) = true.
Proof.
  apply (administrators_hold_all 0 (rows two_admins) (ViaEntry uuid_a uuid_e)); [apply demo_people_wf|].
  vm_compute. left.
Defined.

(** Either of the two removes the other's entry; then the last one's stays. *)
Lemma an_administrator_stays_witness :
  ∃ db, edit two_admins db ∧ administrators (rows db) ≠ []
    ∧ is_ok (deleteEntry (load 0 (rows db)) db (as_user uuid_a) uuid_e) = false.
Proof.
  set (db := (deleteEntry_write two_admins (user_entry uuid_f "/" uuid_b "administrator")).1).
  assert (edit two_admins db) as Hed.
  { apply (edit_delete (load 0 (rows two_admins)) two_admins (as_user uuid_a) uuid_f db AllClusters).
    vm_compute. reflexivity. }
  exists db. split; [exact Hed|]. split.
  - apply (an_administrator_stays two_admins db); [vm_compute; discriminate|by apply rtc_once].
  - vm_compute. reflexivity.
Defined.

Lemma edits_outranked_witness :
  let b := {| eb_path := "/clusters/c1"; eb_type := SUser; eb_id := uuid_b; eb_role := "cluster-owner"; eb_propagate := true |} in
  is_ok (createEntry (load 0 (rows two_admins)) two_admins "new" (as_user uuid_a) b) = true
  ∧ isAdministrator (load 0 (rows two_admins)) (as_user uuid_a) = true.
Proof.
  intros b.
  set (db' := put_rows two_admins (with_explicit (rows two_admins)
    (r_explicit (rows two_admins) ++ [new_entry "new" (as_user uuid_a) b]))).
  assert (createEntry (load 0 (rows two_admins)) two_admins "new" (as_user uuid_a) b = Ok (db', Clusters ["c"])) as H
    by (vm_compute; reflexivity).
  split; [by rewrite H|].
  apply (proj1 (edits_outranked (load 0 (rows two_admins)) two_admins (as_user uuid_a)) "new" b db' (Clusters ["c"]) H).
  by right.
Defined.

(** Two requests at a time can take the last administrators away: each of
    two administrators removes the other's entry, both checks read the table
    before either delete, and nobody is left. *)
Theorem last_admins_race :
  ∃ row_e row_f,
    deleteEntry_check (load 0 (rows two_admins)) two_admins (as_user uuid_b) uuid_e = Ok row_e
    ∧ deleteEntry_check (load 0 (rows two_admins)) two_admins (as_user uuid_a) uuid_f = Ok row_f
    ∧ length (administrators (rows two_admins)) = 2
    ∧ administrators (rows (deleteEntry_write (deleteEntry_write two_admins row_e).1 row_f).1) = [].
Proof.
  exists (user_entry uuid_e "/" uuid_a "administrator"), (user_entry uuid_f "/" uuid_b "administrator").
  split_and!; vm_compute; reflexivity.
Qed.

(** *** Ids in upper case

    The database finds the subject of a new entry whatever the case of its id,
    while the checks look for the id as it was sent. *)

Definition upper_a : string := "00000000-0000-4000-8000-00000000000A".
Definition upper_b : string := "00000000-0000-4000-8000-00000000000B".
Definition entry_for (id path role : string) : EntryBody :=
  {| eb_path := path; eb_type := SUser; eb_id := id; eb_role := role; eb_propagate := true |}.

(** The last administrator is given No access on the platform when its id is sent in upper case: written as the
    database does, the same request is refused. *)
Definition last_admin : Db := demo_db [user_entry uuid_e "/" uuid_a "administrator"].
Definition put_out (id : string) : result (Db * Targets) :=
  createEntry (load 0 (rows last_admin)) last_admin "new" (as_user uuid_a) (entry_for id "/" "no-access").
Theorem upper_case_takes_last_administrator :
  is_ok (put_out uuid_a) = false
  ∧ match put_out upper_a with
    | Ok (db', _) => length (administrators (rows last_admin)) = 1 ∧ administrators (rows db') = []
    | Throw _ => False
    end.
Proof. split_and!; vm_compute; try split; reflexivity. Qed.

(** Nor is it found who the entry reaches: an owner of one cluster takes an administrator's rights there away. *)
Definition cluster_owner : Db :=
  demo_db [user_entry uuid_e "/" uuid_b "administrator"; user_entry uuid_f "/clusters/c1" uuid_a "cluster-owner"].
Definition fence (id : string) : result (Db * Targets) :=
  createEntry (load 0 (rows cluster_owner)) cluster_owner "new" (as_user uuid_a) (entry_for id "/clusters/c1" "no-access").
Theorem upper_case_outranks :
  is_ok (fence uuid_b) = false
  ∧ match fence upper_b with
    | Ok (db', _) => can (load 0 (rows cluster_owner)) (as_user uuid_b) "acl.manage" "/clusters/c1" None = true
                     ∧ can (load 0 (rows db')) (as_user uuid_b) "cluster.view" "/clusters/c1" None = false
    | Throw _ => False
    end.
Proof. split_and!; vm_compute; try split; reflexivity. Qed.

(** No access beside an Administrator entry on [/] leaves its holder
    nothing there, and it is not counted as an administrator; still the handler
    takes it for one, so where an entry below lets it manage permissions it
    gives the Administrator role, which without the cancelled entry it could
    not. *)
Theorem fenced_administrator_gives :
  let owner := [user_entry uuid_b "/clusters/c1" uuid_a "cluster-owner"] in
  let db := demo_db (user_entry uuid_e "/" uuid_a "administrator" :: user_entry uuid_f "/" uuid_a "no-access" :: owner) in
  let give db := is_ok (createEntry (load 0 (rows db)) db "new" (as_user uuid_a)
                          {| eb_path := "/clusters/c1"; eb_type := SUser; eb_id := uuid_b;
                             eb_role := "administrator"; eb_propagate := true |}) in
  privileges_on (load 0 (rows db)) (as_user uuid_a) "/" None = ∅ ∧ administrators (rows db) = []
  ∧ give db = true ∧ give (demo_db owner) = false.
Proof. split_and!; vm_compute; reflexivity. Qed.
