(* ===== verification/AclEditTargets.v ===== *)
(** * AclEditTargets: the clusters a change of entries asks to reconcile

    A decision reads the entries on its path's chain and on the cluster groups
    of its instance; [affected] names every cluster with a path whose decision
    reads the entry that changed. *)

From S2P Require Import Prelude JsString AclPaths AclCatalog AclResolve Acl AclTheory Effects AclEdit AclEditTheory.

(** ** Which entries a decision reads *)

Lemma push_all_lookup {A V} (f : A → string * V) l (m : gmap string (list V)) k :
  default [] (push_all f l m !! k) = default [] (m !! k) ++ (snd ∘ f <$> js_filter (λ a, str_is (f a).1 k) l).
Proof.
  unfold push_all. revert m. induction l as [|a l IH]; intros m; simpl; [by rewrite app_nil_r|].
  rewrite IH. unfold push. destruct (str_is (f a).1 k) eqn:E.
  - apply str_is_true in E. rewrite E, lookup_insert_eq. simpl. by rewrite <-app_assoc.
  - apply str_is_false in E. by rewrite lookup_insert_ne.
Qed.

Lemma here_at_ext keys m m' i x :
  default [] (m !! x) = default [] (m' !! x) → here_at keys m i x = here_at keys m' i x.
Proof. unfold here_at. by intros ->. Qed.

Lemma resolve_from_ext keys m m' owned i l :
  (∀ x, x ∈ l → default [] (m !! x) = default [] (m' !! x)) →
  resolve_from keys m owned i l = resolve_from keys m' owned i l.
Proof.
  revert i. induction l as [|x l IH]; intros i Hl; [done|]. simpl.
  rewrite (here_at_ext keys m m' i x), (IH (S i)); [done| |apply Hl; left].
  intros y Hy. apply Hl. by right.
Qed.

Lemma js_filter_explicit es x :
  js_filter (λ e, str_is (e_path e) x) (es ≫= explicit_entry)
  = js_filter (λ e, str_is (ae_path e) x) es ≫= explicit_entry.
Proof.
  induction es as [|e es IH]; [done|]. rewrite bind_cons, js_filter_app, IH.
  change (js_filter (λ e, str_is (ae_path e) x) (e :: es))
    with (if str_is (ae_path e) x then e :: js_filter (λ e, str_is (ae_path e) x) es
          else js_filter (λ e, str_is (ae_path e) x) es).
  assert (js_filter (λ e, str_is (e_path e) x) (explicit_entry e)
    = if str_is (ae_path e) x then explicit_entry e else []) as ->; [|by destruct (str_is (ae_path e) x)].
  unfold explicit_entry. destruct (isRoleId (ae_role e)); simpl; by destruct (str_is (ae_path e) x).
Qed.

Lemma load_byPath_ext t r l x :
  js_filter (λ e, str_is (ae_path e) x) l = js_filter (λ e, str_is (ae_path e) x) (r_explicit r) →
  default [] (byPath (load t (with_explicit r l)) !! x) = default [] (byPath (load t r) !! x).
Proof.
  intros H. simpl. rewrite !push_all_lookup, !lookup_empty. simpl. f_equal. unfold load_entries. simpl.
  rewrite !js_filter_app. f_equal.
  by rewrite !js_filter_explicit, H.
Qed.

(** A decision only reads the entries on the path's chain and on the cluster
    groups of its instance. *)
Definition reads (s : Snapshot) (path x : string) : Prop :=
  ∃ parsed, parsePath path = Some parsed
    ∧ (x ∈ chain (tenant_of s) parsed
       ∨ (∃ c p i, parsed = PInstance c p i) ∧ (x = path ∨ x ∈ default [] (locatedIn s !! path))).

Lemma decide_ext t r l subject path owner :
  (∀ x, reads (load t r) path x →
     js_filter (λ e, str_is (ae_path e) x) l = js_filter (λ e, str_is (ae_path e) x) (r_explicit r)) →
  decide_on (load t (with_explicit r l)) subject path owner = decide_on (load t r) subject path owner.
Proof.
  intros H. set (s := load t r) in *. set (s' := load t (with_explicit r l)).
  assert (∀ keys owned ls, (∀ x, x ∈ ls → reads s path x) →
    resolve keys (byPath s') owned ls = resolve keys (byPath s) owned ls) as Hres.
  { intros keys owned ls Hls. apply resolve_from_ext. intros x Hx. by apply load_byPath_ext, H, Hls. }
  unfold decide_on. change (disabled s') with (disabled s). change (owners s') with (owners s).
  change (keysOf s' subject) with (keysOf s subject). change (locatedIn s') with (locatedIn s).
  change (tenant_of s') with (tenant_of s).
  unfold reads in Hres. destruct (parsePath path) as [parsed|] eqn:Ep; [|done].
  assert (∀ x, x ∈ chain (tenant_of s) parsed → ∃ q, Some parsed = Some q
    ∧ (x ∈ chain (tenant_of s) q ∨ (∃ c p i, q = PInstance c p i) ∧ (x = path ∨ x ∈ default [] (locatedIn s !! path)))) as Hch.
  { intros x Hx. exists parsed. auto. }
  case_bool_decide; [done|]. destruct parsed; rewrite ?(Hres _ _ _ Hch); try done.
  destruct (default [] (locatedIn s !! path)) as [|g gs] eqn:Eg; [done|].
  assert (∀ x, x = path ∨ x ∈ g :: gs → ∃ q, Some (PInstance cluster project instance) = Some q
    ∧ (x ∈ chain (tenant_of s) q ∨ (∃ c p i, q = PInstance c p i) ∧ (x = path ∨ x ∈ g :: gs))) as Hsd.
  { intros x Hx. eexists. split; [done|]. right. split; [eauto|done]. }
  rewrite (Hres _ _ [path]); [|intros x ->%list_elem_of_singleton; apply Hsd; by left].
  destruct (resolve _ _ _ [path]).2; [|done]. do 2 f_equal.
  apply list_fmap_ext. intros i y Hy%list_elem_of_lookup_2. apply Hres.
  intros x [-> | ->%list_elem_of_singleton]%elem_of_cons; apply Hsd; auto.
Qed.

(** ** Where those entries are *)

(** The cluster a path is on. *)
Definition cluster_of (q : AclPath) : option string :=
  match q with
  | PCluster c | PGroup c _ | PProject c _ | PInstance c _ _ => Some c
  | _ => None
  end.

Lemma split_format q : path_wf q → q ≠ PPlatform →
  split_on "/" (formatPath q) = EmptyString :: path_parts q.
Proof.
  intros Hq ?. rewrite formatPath_parts.
  change (String "/" (join "/" (path_parts q))) with (EmptyString +++ String "/" (join "/" (path_parts q))).
  by rewrite split_on_cons, split_path_parts.
Qed.

Lemma first_segment_prefix prefix a b :
  NAME a = true → b = EmptyString ∨ (∃ b', b = String "/" b') →
  first_segment prefix (prefix +++ a +++ b) = Some a.
Proof.
  intros Ha Hb. unfold first_segment. rewrite starts_with_append, str_drop_append.
  assert (head (split_on "/" (a +++ b)) = Some a) as ->.
  { destruct Hb as [->|[b' ->]].
    - rewrite append_nil_r, split_on_no_char by auto with incus. done.
    - rewrite split_on_cons by auto with incus. done. }
  simpl. unfold truthy_str. rewrite bool_decide_false; [done|]. by apply NAME_nonempty.
Qed.

Lemma first_segment_end prefix a : NAME a = true → first_segment prefix (prefix +++ a) = Some a.
Proof. intros Ha. rewrite <-(first_segment_prefix prefix a EmptyString Ha (or_introl eq_refl)). by rewrite append_nil_r. Qed.

(** What [affected] answers on the paths a decision about a cluster reads. *)
Lemma affected_format db q : path_wf q →
  match q with
  | PRoot | PTenant _ => affected db (formatPath q) = AllClusters
  | _ => ∀ c, cluster_of q = Some c → affected db (formatPath q) = Clusters (ids_named db c)
  end.
Proof.
  intros Hq. assert (q ≠ PPlatform → k8s_path (formatPath q) = None ∨ ∃ t n, q = PKubernetes t n) as Hk.
  { intros Hne. unfold k8s_path. rewrite split_format by done. destruct q; simpl; eauto. }
  destruct q; try (by intros); destruct Hk as [Hk|(? & ? & ?)]; try done;
    unfold affected; rewrite Hk; try reflexivity; 
    [..|change (formatPath (PTenant tenant)) with ("/tenants/" +++ tenant);
        by rewrite starts_with_append, orb_true_r];
    intros c0 [= <-]; unfold path_wf in Hq; simpl in Hq; apply Forall_cons in Hq as [Hc _].
  - change (formatPath (PCluster cluster)) with ("/clusters/" +++ cluster).
    by rewrite first_segment_end.
  - change (formatPath (PGroup cluster group)) with ("/clusters/" +++ cluster +++ "/groups/" +++ group).
    rewrite first_segment_prefix; [done|done|right; by eexists].
  - change (formatPath (PProject cluster project)) with ("/clusters/" +++ cluster +++ "/projects/" +++ project).
    rewrite first_segment_prefix; [done|done|right; by eexists].
  - change (formatPath (PInstance cluster project instance))
      with ("/clusters/" +++ cluster +++ "/projects/" +++ project +++ "/instances/" +++ instance).
    rewrite first_segment_prefix; [done|done|right; by eexists].
Qed.

(** *** What a decision reads is on its cluster, its tenant or [/] *)

Definition slugs_wf (r : Rows) : Prop := Forall (λ p, NAME (pl_slug p) = true) (r_places r).

Lemma tenant_of_wf t r c p slug :
  slugs_wf r → tenant_of (load t r) c p = Some slug → NAME slug = true.
Proof.
  unfold slugs_wf, tenant_of. rewrite Forall_forall. intros Hs.
  change (tenantOf (load t r)) with
    (foldl (λ m x, <[pl_cluster x +++ "/" +++ pl_project x := pl_slug x]> m) (∅ : gmap string string) (r_places r)).
  revert slug. apply (foldl_inv (λ m : gmap string string, ∀ slug, m !! (c +++ "/" +++ p) = Some slug → NAME slug = true)).
  - intros slug. by rewrite lookup_empty.
  - intros m x Hx IH slug. destruct (decide (pl_cluster x +++ "/" +++ pl_project x = c +++ "/" +++ p)) as [->|Hne].
    + rewrite lookup_insert_eq. intros [= <-]. by apply Hs.
    + rewrite lookup_insert_ne by done. apply IH.
Qed.

Lemma located_sides t r path g :
  rows_wf r → g ∈ default [] (locatedIn (load t r) !! path) →
  ∃ c p i gr, path_wf (PInstance c p i) ∧ NAME gr = true
    ∧ path = instance_path c p i ∧ g = group_path c gr.
Proof.
  intros Hwf. pose proof (groupsAt_names r Hwf) as Hg. destruct Hwf as (Hl & _).
  rewrite Forall_forall in Hl. change (locatedIn (load t r)) with (load_located r).1.
  set (P := λ acc : gmap string (list string) * gmap string (list string), ∀ path g, g ∈ default [] (acc.1 !! path) →
    ∃ c p i gr, path_wf (PInstance c p i) ∧ NAME gr = true ∧ path = instance_path c p i ∧ g = group_path c gr).
  revert path g. enough (P (load_located r)) by done. unfold load_located. apply foldl_inv.
  - intros path g. simpl. rewrite lookup_empty. by intros ?%not_elem_of_nil.
  - intros [li og] x Hx IH path g. destruct (sides_of r x) as [|g0 gs] eqn:Es; [apply IH|].
    simpl. destruct (decide (path = instance_path (lo_cluster x) (lo_project x) (lo_name x))) as [->|Hne];
      [|rewrite lookup_insert_ne by done; apply IH].
    rewrite lookup_insert_eq. simpl. rewrite <-Es. unfold sides_of. intros (gr & -> & Hgr)%list_elem_of_fmap.
    destruct (Hl _ Hx) as (? & ? & ?). exists (lo_cluster x), (lo_project x), (lo_name x), gr.
    split; [by repeat constructor|]. split; [by eapply Hg|done].
Qed.

(** The path of [/], of a tenant, or of something on the cluster. *)
Definition concerns (c x : string) : Prop :=
  ∃ q, x = formatPath q ∧ path_wf q ∧ (q = PRoot ∨ (∃ s, q = PTenant s) ∨ cluster_of q = Some c).

Lemma concerns_on q c : path_wf q → cluster_of q = Some c → concerns c (formatPath q).
Proof. intros. exists q. auto. Qed.

Lemma chain_concerns t r q c :
  slugs_wf r → path_wf q → cluster_of q = Some c → Forall (concerns c) (chain (tenant_of (load t r)) q).
Proof.
  intros Hs Hq Hc. pose proof (concerns_on q c Hq Hc) as Hself.
  assert (NAME c = true) as Hn.
  { unfold path_wf in Hq. destruct q; try done; injection Hc as ->; by apply Forall_cons in Hq as [? _]. }
  assert (Forall (concerns c) (chain_cluster c)) as Hcl.
  { repeat constructor; [apply concerns_on; [by repeat constructor|done]|]. exists PRoot. split; [done|].
    split; [constructor|auto]. }
  assert (∀ p, concerns c (formatPath (PProject c p)) → Forall (concerns c) (chain_project (tenant_of (load t r)) c p)) as Hp.
  { intros p ?. unfold chain_project. constructor; [done|]. apply Forall_app. split; [|done].
    destruct (tenant_of (load t r) c p) as [slug|] eqn:E; [|constructor].
    apply tenant_of_wf in E; [|done]. destruct (truthy_str slug); [|constructor].
    constructor; [|constructor]. exists (PTenant slug). split; [done|]. split; [by repeat constructor|eauto]. }
  destruct q; try done; injection Hc as ->; simpl; [done|by constructor|by apply Hp|constructor; [done|]].
  apply Hp, concerns_on; [|done]. unfold path_wf in *. simpl in *.
  do 2 apply Forall_cons in Hq as [? Hq]. by repeat constructor.
Qed.

Lemma reads_concern t r path q c x :
  rows_wf r → slugs_wf r → parsePath path = Some q → cluster_of q = Some c →
  reads (load t r) path x → concerns c x.
Proof.
  intros Hr Hs Hq Hc (q1 & Hq1 & Hx). rewrite Hq in Hq1. injection Hq1 as <-.
  apply format_parse in Hq as [Hpath Hwf].
  destruct Hx as [Hx|[(c1 & p1 & i1 & ->) [-> | Hx]]].
  - by eapply Forall_forall, Hx; apply chain_concerns.
  - rewrite <-Hpath. by apply concerns_on.
  - apply (located_sides t r _ _ Hr) in Hx as (c2 & p2 & i2 & gr & Hwf2 & Hgr & Hp & ->).
    rewrite <-Hpath in Hp. injection Hc as ->.
    apply (formatPath_inj _ (PInstance c2 p2 i2)) in Hp; [|done|done]. injection Hp as -> -> ->.
    apply (concerns_on (PGroup c2 gr)); [|done]. unfold path_wf in *. simpl in *.
    apply Forall_cons in Hwf2 as [? _]. by repeat constructor.
Qed.

(** *** The clusters asked *)

Definition asked (t : Targets) (id : string) : Prop :=
  match t with AllClusters => True | Clusters l => id ∈ l end.

Lemma concerns_asked db c id x :
  (id, c) ∈ r_clusters (rows db) → concerns c x → asked (affected db x) id.
Proof.
  intros Hid (q & -> & Hq & Hc). pose proof (affected_format db q Hq) as Ha.
  assert (id ∈ ids_named db c) as Hin.
  { unfold ids_named. apply list_elem_of_fmap. exists (id, c). split; [done|].
    apply elem_of_js_filter. by rewrite str_is_refl. }
  destruct Hc as [->|[[s ->]|Hc]]; [by rewrite Ha|by rewrite Ha|].
  destruct q; try done; rewrite (Ha _ Hc); done.
Qed.

Lemma affected_put db r x : r_clusters r = r_clusters (rows db) → affected (put_rows db r) x = affected db x.
Proof. intros H. unfold affected, ids_named. simpl. by rewrite H. Qed.

(** C8: every cluster on which a change of entries changes a decision is asked
    to reconcile: after an entry is created or deleted, the decisions of every
    subject on every path of a cluster that was not asked (the cluster, its
    groups, its projects, their instances) are what they were. *)
Theorem unasked_clusters_unchanged s db p c id :
  rows_wf (rows db) → slugs_wf (rows db) → (id, c) ∈ r_clusters (rows db) →
  NoDup (ae_id <$> r_explicit (rows db)) →
  ∀ db' t, (∃ new b, createEntry s db new p b = Ok (db', t)) ∨ (∃ old, deleteEntry s db p old = Ok (db', t)) →
  ¬ asked t id →
  ∀ now path q subject owner, parsePath path = Some q → cluster_of q = Some c →
    decide_on (load now (rows db')) subject path owner = decide_on (load now (rows db)) subject path owner.
Proof.
  intros Hr Hs Hid Hnd db' t H Hna now path q subject owner Hq Hc.
  assert (∀ x, reads (load now (rows db)) path x → asked (affected db x) id) as Hask.
  { intros x Hx. by eapply concerns_asked, reads_concern. }
  destruct H as [(new & b & H)|(old & H)].
  - apply createEntry_Ok in H as (pp & role & _ & _ & _ & _ & _ & _ & _ & _ & -> & ->).
    rewrite affected_put in Hna by done. simpl. apply decide_ext. intros x Hx.
    rewrite js_filter_app. simpl. destruct (str_is (eb_path b) x) eqn:E; [|by rewrite app_nil_r].
    apply str_is_true in E as <-. by destruct Hna; apply Hask.
  - apply deleteEntry_Ok in H as (row & role & Hin & _ & _ & _ & _ & _ & [= -> ->]).
    rewrite affected_put in Hna by done. simpl. apply decide_ext. intros x Hx.
    rewrite js_filter_filter. apply js_filter_ext. intros e He.
    destruct (str_is (ae_path e) x) eqn:E; [|by rewrite andb_false_r].
    rewrite andb_true_r. apply negb_true_iff, str_is_false. intros Heq.
    apply str_is_true in E as <-. destruct Hna. apply Hask in Hx.
    apply list_elem_of_lookup in He as [i Hi], Hin as [j Hj].
    assert (i = j) as <-; [|congruence].
    apply (NoDup_lookup _ _ _ (ae_id e) Hnd); rewrite list_lookup_fmap; [by rewrite Hi|rewrite Hj; simpl; congruence].
Qed.

Lemma unasked_clusters_unchanged_witness :
  let b := {| eb_path := "/clusters/c1"; eb_type := SUser; eb_id := uuid_b; eb_role := "auditor"; eb_propagate := true |} in
  ∃ db', createEntry (load 0 (rows two_admins)) two_admins "new" (as_user uuid_a) b = Ok (db', Clusters ["c"])
    ∧ decide_on (load 0 (rows db')) ("user:" +++ uuid_b) "/clusters/c2" None
      = decide_on (load 0 (rows two_admins)) ("user:" +++ uuid_b) "/clusters/c2" None.
Proof.
  intros b.
  set (db' := put_rows two_admins (with_explicit (rows two_admins)
    (r_explicit (rows two_admins) ++ [new_entry "new" (as_user uuid_a) b]))).
  assert (createEntry (load 0 (rows two_admins)) two_admins "new" (as_user uuid_a) b = Ok (db', Clusters ["c"])) as H
    by (vm_compute; reflexivity).
  exists db'. split; [exact H|].
  apply (unasked_clusters_unchanged (load 0 (rows two_admins)) two_admins (as_user uuid_a) "c2" "d") with (t := Clusters ["c"]) (q := PCluster "c2");
    [repeat constructor|repeat constructor|right; by left|apply (bool_decide_eq_true (NoDup _)); reflexivity
    |left; eauto|by intros ?%list_elem_of_singleton|reflexivity|reflexivity].
Defined.
