(* ===== verification/Quota.v ===== *)
(** * Quota: a tenant's pool, its split over placements, and placement

    Models [tenants/quota.ts], the pure checks of [tenants/limits.ts] and
    [tenants/placement.ts]. Counts, CPUs and bytes are integers; shares of
    memory are exact rationals where the source divides doubles. *)

From Stdlib Require Import QArith.QArith_base QArith.Qcanon.
From S2P Require Import Prelude JsString Effects.
Open Scope Z_scope.

Inductive Key := Instances | Cpu | Memory | Disk.
Global Instance Key_eq_dec : EqDecision Key.
Proof. solve_decision. Defined.

Definition KEYS : list Key := [Instances; Cpu; Memory; Disk].
Definition key_name (k : Key) : string :=
  match k with Instances => "instances" | Cpu => "cpu" | Memory => "memory" | Disk => "disk" end.

(** [Record<Key, number>] and its partial form. *)
Definition Usage : Type := Key → Z.
Definition Limits : Type := Key → option Z.
Definition ZERO : Usage := λ _, 0.

(** A tenant's quotas; the pool's four by key, memory and disk in GiB. *)
Record Quotas := {
  pool : Limits;
  maxInstanceCpu : option Z; maxInstanceMemory : option Z; maxInstanceDisk : option Z;
  q_snapshots : option Z; q_backups : option Z; q_backupGiB : option Z; q_kubernetes : option Z;
}.

Definition in_gib (k : Key) : bool := match k with Memory | Disk => true | _ => false end.

Definition quotaBytes (q : Quotas) : Limits :=
  λ k, (λ n, if in_gib k then n * GiB else n) <$> pool q k.

(** Total usage over placements; an unknown usage counts as none. *)
Definition sumUsage (usages : list (option Usage)) : Usage :=
  foldl (λ out u, match u with Some u => λ k, out k + u k | None => out end) ZERO usages.

Definition splitLimits (q : Quotas) (usages : list (option Usage)) : list Limits :=
  let quota := quotaBytes q in
  let total := sumUsage usages in
  (λ u, let own := default ZERO u in
        λ k, (λ n, own k + Z.max (n - total k) 0) <$> quota k) <$> usages.

Definition show_amount (k : Key) (n : Z) : string := if in_gib k then show_GiB n else show_Z n.

(** What [request] on top of [used] would exceed. *)
Definition exceeds (q : Quotas) (used request : Usage) : list string :=
  KEYS ≫= λ k,
    match quotaBytes q k, pool q k with
    | Some quota, Some shown =>
        if request k =? 0 then []
        else
          let after := used k + request k in
          if quota <? after
          then [key_name k +++ ": " +++ show_amount k after +++ " of " +++ show_Z shown
                +++ (if in_gib k then " GiB" else EmptyString)]
          else []
    | _, _ => []
    end.

(** ** Caps ([tenants/limits.ts]) *)

Definition over (msg : list string) : result unit :=
  match msg with
  | [] => Ok ()
  | _ => throw 409 "quota_exceeded" ("Over the quota: " +++ join ", " msg)
  end.

Record Size := { size_cpu : Z; size_memory : Z; size_disk : Z }.

Definition cap_msg (cap : option Z) (hit : Z → bool) (msg : Z → string) : list string :=
  match cap with Some c => if hit c then [msg c] else [] | None => [] end.

Definition needInstanceCaps (q : Quotas) (s : Size) : result unit :=
  over
    (cap_msg (maxInstanceCpu q) (λ c, c <? size_cpu s)
       (λ c, show_Z (size_cpu s) +++ " cores per instance, at most " +++ show_Z c)
     ++ cap_msg (maxInstanceMemory q) (λ c, c * GiB <? size_memory s)
       (λ c, show_GiB (size_memory s) +++ " GiB of memory per instance, at most " +++ show_Z c)
     ++ cap_msg (maxInstanceDisk q) (λ c, c * GiB <? size_disk s)
       (λ c, show_GiB (size_disk s) +++ " GiB of disk per instance, at most " +++ show_Z c)).

(** The count and the bytes of the tenant's backups that did not fail, as the query sums them. *)
Definition needBackupQuota (tenantId : option string) (q : Quotas) (n bytes : Z) : result unit :=
  if negb (truthy_opt_str tenantId) || (bool_decide (q_backups q = None) && bool_decide (q_backupGiB q = None)) then Ok ()
  else over
    (cap_msg (q_backups q) (λ c, c <? n + 1) (λ c, "backups: " +++ show_Z c +++ " already")
     ++ cap_msg (q_backupGiB q) (λ c, c * GiB <=? bytes)
       (λ c, "backup storage: " +++ show_GiB bytes +++ " of " +++ show_Z c +++ " GiB")).

Definition needKubernetesQuota (q : Quotas) (n : Z) : result unit :=
  match q_kubernetes q with
  | None => Ok ()
  | Some c => if c <? n + 1 then over ["Kubernetes clusters: " +++ show_Z c +++ " already"] else Ok ()
  end.

(** A user's share inside a tenant: what they asked for on top of what they use. *)
Record UserAmounts := { ua_instances : Z; ua_cpu : Z; ua_memory : Z; ua_backups : Z }.
Record UserQuotas := {
  uq_instances : option Z; uq_cpu : option Z; uq_memory : option Z; uq_backups : option Z;
}.
Definition share_msg (what : string) (q : option Z) (used req : Z) : list string :=
  cap_msg q (λ c, truthy_Z req && (c <? used + req))
    (λ c, "your " +++ what +++ ": " +++ show_Z (used + req) +++ " of " +++ show_Z c).
(** [req]'s absent amounts are 0, which the source's truthiness test skips alike. *)
Definition needUserQuota (q : UserQuotas) (used req : UserAmounts) : result unit :=
  over
    (share_msg "instances" (uq_instances q) (ua_instances used) (ua_instances req)
     ++ share_msg "cpu" (uq_cpu q) (ua_cpu used) (ua_cpu req)
     ++ share_msg "backups" (uq_backups q) (ua_backups used) (ua_backups req)
     ++ cap_msg (uq_memory q) (λ c, truthy_Z (ua_memory req) && (c * GiB <? ua_memory used + ua_memory req))
          (λ c, "your memory: " +++ show_GiB (ua_memory used + ua_memory req) +++ " of " +++ show_Z c +++ " GiB")).

(** ** Placement ([tenants/placement.ts]) *)

Record Candidate := {
  clusterId : string; clusterName : string; project : string;
  placementStatus : string; clusterStatus : string;
  labels : js_map string string;
  memoryTotal : Z; memoryUsed : Z;
}.

Inductive Choice :=
  | Chosen (pick : Candidate)
  | Refused (reason : string).

Definition USABLE : list string := ["ready"; "degraded"].

(** [n / d] for [0 < d]. *)
Definition ratio (n d : Z) : Qc := Q2Qc (Qmake n (Z.to_pos d)).

Section choose.
Context `{!Locale} (request_memory : Z) (o_clusterId : option string) (o_labels : option (js_map string string)).

Definition usable (c : Candidate) : bool :=
  bool_decide (placementStatus c = "ready") && includes USABLE (clusterStatus c).
Definition on_cluster (c : Candidate) : bool := bool_decide (Some (clusterId c) = o_clusterId).
Definition selector : list (string * string) := default [] o_labels.
Definition matches (c : Candidate) : bool :=
  every (λ kv, bool_decide (map_get (labels c) kv.1 = Some kv.2)) selector.

Definition after (c : Candidate) : Qc :=
  ratio (memoryTotal c - memoryUsed c - request_memory) (memoryTotal c).
Definition fits (pool : list Candidate) : list Candidate :=
  js_sort (λ a b, cmp_then (Qccompare (after b) (after a)) (locale_compare (clusterName a) (clusterName b)))
    (js_filter (λ c, 0 <=? memoryTotal c - memoryUsed c - request_memory)
       (js_filter (λ c, 0 <? memoryTotal c) pool)).
Definition unknown (pool : list Candidate) : list Candidate :=
  js_sort (λ a b, locale_compare (clusterName a) (clusterName b))
    (js_filter (λ c, memoryTotal c <=? 0) pool).

Definition pick_from (pool : list Candidate) : Choice :=
  match fits pool, unknown pool with
  | c :: _, _ => Chosen c
  | [], c :: _ => Chosen c
  | [], [] => Refused ("No cluster has " +++ show_GiB request_memory +++ " GiB of memory free")
  end.

Definition by_labels (pool : list Candidate) : Choice :=
  match selector with
  | [] => pick_from pool
  | _ =>
      match js_filter matches pool with
      | [] => Refused ("No cluster of the tenant has "
                       +++ join ", " ((λ kv, kv.1 +++ "=" +++ kv.2) <$> selector))
      | pool => pick_from pool
      end
  end.

Definition choose (candidates : list Candidate) : Choice :=
  let pool := js_filter usable candidates in
  if truthy_opt_str o_clusterId then
    match js_filter on_cluster pool with
    | [] => Refused "The tenant is not placed on that cluster"
    | pool => by_labels pool
    end
  else match pool with
       | [] => Refused "The tenant is not ready on any cluster"
       | _ => by_labels pool
       end.
End choose.

(** ** Lemmas *)

Lemma sumUsage_app us vs k : sumUsage (us ++ vs) k = sumUsage us k + sumUsage vs k.
Proof.
  unfold sumUsage. rewrite foldl_app.
  assert (∀ vs acc, foldl (λ (out : Usage) u, match u with Some u => λ k, out k + u k | None => out end) acc vs k
    = acc k + foldl (λ (out : Usage) u, match u with Some u => λ k, out k + u k | None => out end) ZERO vs k) as H.
  { clear. induction vs as [|[u|] vs IH]; intros acc; simpl.
    - unfold ZERO. lia.
    - rewrite IH, (IH (λ k, ZERO k + u k)). unfold ZERO. lia.
    - apply IH. }
  apply H.
Qed.

Lemma sumUsage_cons u us k : sumUsage (u :: us) k = default ZERO u k + sumUsage us k.
Proof. change (u :: us) with ([u] ++ us). rewrite sumUsage_app. by destruct u. Qed.

Lemma splitLimits_lookup q us i l :
  splitLimits q us !! i = Some l →
  ∃ u, us !! i = Some u ∧
    ∀ k, l k = (λ n, default ZERO u k + Z.max (n - sumUsage us k) 0) <$> quotaBytes q k.
Proof.
  unfold splitLimits. intros H. apply list_lookup_fmap_Some in H as (u & ? & Hu). subst l. eauto.
Qed.

Lemma exceeds_nil q used request :
  exceeds q used request = [] ↔
  ∀ k n, quotaBytes q k = Some n → request k ≠ 0 → used k + request k ≤ n.
Proof.
  unfold exceeds. split.
  - intros H k n Hq Hr.
    assert (k ∈ KEYS) as Hk by (destruct k; unfold KEYS; set_solver).
    destruct (decide (used k + request k ≤ n)) as [|Hgt]; [done|]. exfalso.
    destruct (pool q k) as [s|] eqn:Ep; [|unfold quotaBytes in Hq; by rewrite Ep in Hq].
    assert (∃ m, m ∈ (KEYS ≫= λ k,
      match quotaBytes q k, pool q k with
      | Some quota, Some shown =>
          if request k =? 0 then []
          else if quota <? used k + request k
               then [key_name k +++ ": " +++ show_amount k (used k + request k) +++ " of " +++ show_Z shown
                     +++ (if in_gib k then " GiB" else EmptyString)]
               else []
      | _, _ => []
      end)) as [m Hm].
    { eexists. apply list_elem_of_bind. exists k. split; [|exact Hk]. rewrite Hq, Ep.
      rewrite (proj2 (Z.eqb_neq (request k) 0)) by done.
      rewrite (proj2 (Z.ltb_lt n (used k + request k))) by lia. by apply list_elem_of_singleton. }
    cbv zeta in H. rewrite H in Hm. by apply not_elem_of_nil in Hm.
  - intros H. apply elem_of_nil_inv. intros m (k & Hm & _)%list_elem_of_bind.
    destruct (quotaBytes q k) as [n|] eqn:Hq; [|by apply not_elem_of_nil in Hm].
    destruct (pool q k); [|by apply not_elem_of_nil in Hm].
    destruct (Z.eqb_spec (request k) 0); [by apply not_elem_of_nil in Hm|].
    specialize (H k n Hq n0).
    destruct (Z.ltb_spec n (used k + request k)); [lia|by apply not_elem_of_nil in Hm].
Qed.

(** ** Properties of the pool *)

(** The elastic split: every placement's limit is at least what it uses;
    with the others' usage unchanged, filling one placement to its limit
    brings the tenant exactly to its quota (or leaves it where it is, when it
    already is over); and keys without a quota get no limit. *)
Theorem splitLimits_elastic q us i u l k :
  us !! i = Some u → splitLimits q us !! i = Some l →
  match quotaBytes q k with
  | Some n => ∃ lim, l k = Some lim ∧ default ZERO u k ≤ lim
      ∧ sumUsage us k - default ZERO u k + lim = Z.max n (sumUsage us k)
  | None => l k = None
  end.
Proof.
  intros Hu (u' & Hu' & Hl)%splitLimits_lookup. simplify_eq. rewrite Hl.
  destruct (quotaBytes q k) as [n|]; simpl; [|done].
  eexists. split; [done|]. lia.
Qed.

(** The check made before a create and the limit the cluster enforces
    agree: what [exceeds] admits on top of the summed usage fits the split
    limit of whichever placement it lands on. *)
Theorem admitted_fits_split q us request i u l :
  (∀ k, 0 ≤ request k) →
  exceeds q (sumUsage us) request = [] →
  us !! i = Some u → splitLimits q us !! i = Some l →
  ∀ k lim, l k = Some lim → default ZERO u k + request k ≤ lim.
Proof.
  intros Hpos Hex Hu (u' & Hu' & Hl)%splitLimits_lookup k lim Hlim. simplify_eq.
  rewrite Hl in Hlim. destruct (quotaBytes q k) as [n|] eqn:Hq; simpl in Hlim; simplify_eq.
  destruct (decide (request k = 0)) as [E|Hne]; [rewrite E; lia|].
  pose proof (proj1 (exceeds_nil _ _ _) Hex k n Hq Hne). lia.
Qed.

(** ** Properties of caps *)

Lemma over_Ok msg : over msg = Ok () ↔ msg = [].
Proof. by destruct msg. Qed.

Lemma cap_msg_nil cap hit msg :
  cap_msg cap hit msg = [] ↔ ∀ c, cap = Some c → hit c = false.
Proof.
  unfold cap_msg. destruct cap as [c|]; [|done].
  destruct (hit c) eqn:E; split; try done.
  - intros H. specialize (H c eq_refl). congruence.
  - by intros _ ? [= <-].
Qed.

(** The caps refuse exactly what is over one of them: an instance, a
    backup and a Kubernetes cluster are admitted if and only if no cap that is
    set is exceeded. *)
Theorem caps_exact q s t n bytes :
  (needInstanceCaps q s = Ok () ↔
     (∀ c, maxInstanceCpu q = Some c → size_cpu s ≤ c)
     ∧ (∀ c, maxInstanceMemory q = Some c → size_memory s ≤ c * GiB)
     ∧ (∀ c, maxInstanceDisk q = Some c → size_disk s ≤ c * GiB))
  ∧ (needBackupQuota t q n bytes = Ok () ↔
       (truthy_opt_str t = true →
       (∀ c, q_backups q = Some c → n < c) ∧ (∀ c, q_backupGiB q = Some c → bytes < c * GiB)))
  ∧ (needKubernetesQuota q n = Ok () ↔ ∀ c, q_kubernetes q = Some c → n < c).
Proof.
  split; [|split].
  - unfold needInstanceCaps. rewrite over_Ok, !app_nil, !cap_msg_nil.
    setoid_rewrite Z.ltb_ge. tauto.
  - unfold needBackupQuota. destruct (truthy_opt_str t); simpl; [|done].
    destruct (bool_decide (q_backups q = None) && bool_decide (q_backupGiB q = None)) eqn:E.
    + bool_prop. rewrite H, H0. split; [|done]. intros H1 H2. by split.
    + rewrite over_Ok, app_nil, !cap_msg_nil.
      setoid_rewrite Z.ltb_ge. setoid_rewrite Z.leb_gt.
      split; [intros [H1 H2] _; split; [intros c Hc; specialize (H1 c Hc); lia|done]|].
      intros H. destruct (H eq_refl) as [H1 H2]. split; [intros c Hc; specialize (H1 c Hc); lia|done].
  - unfold needKubernetesQuota. destruct (q_kubernetes q) as [c|]; [|done].
    destruct (Z.ltb_spec c (n + 1)); split; try done; [intros H'; specialize (H' c eq_refl); lia|].
    intros _ ? [= <-]. lia.
Qed.

(** ** Properties of placement *)

Section choose_theory.
Context `{!Locale} (request_memory : Z) (o_clusterId : option string) (o_labels : option (js_map string string)).
Abbreviation choose := (choose request_memory o_clusterId o_labels).
Abbreviation after := (after request_memory).

Definition eligible (c : Candidate) : bool :=
  usable c && (negb (truthy_opt_str o_clusterId) || on_cluster o_clusterId c) && matches o_labels c.

Lemma by_labels_pick pool :
  (∃ c, by_labels request_memory o_labels pool = Chosen c
        ∧ pick_from request_memory (js_filter (matches o_labels) pool) = Chosen c)
  ∨ ∃ r r', by_labels request_memory o_labels pool = Refused r
        ∧ pick_from request_memory (js_filter (matches o_labels) pool) = Refused r'.
Proof.
  unfold by_labels. destruct (selector o_labels) as [|kv sel] eqn:E.
  - rewrite js_filter_all by (intros; unfold matches; by rewrite E).
    destruct (pick_from request_memory pool); eauto.
  - destruct (js_filter (matches o_labels) pool) as [|c l].
    + right. do 2 eexists. split; [done|]. done.
    + destruct (pick_from request_memory (c :: l)); eauto.
Qed.

Lemma choose_pick cands :
  (∃ c, choose cands = Chosen c ∧ pick_from request_memory (js_filter eligible cands) = Chosen c)
  ∨ ∃ r r', choose cands = Refused r ∧ pick_from request_memory (js_filter eligible cands) = Refused r'.
Proof.
  assert (js_filter eligible cands = js_filter (matches o_labels)
    (js_filter (λ c, negb (truthy_opt_str o_clusterId) || on_cluster o_clusterId c) (js_filter usable cands))) as ->.
  { rewrite !js_filter_filter. apply js_filter_ext. intros x _. unfold eligible. by rewrite andb_assoc. }
  unfold choose. destruct (truthy_opt_str o_clusterId); simpl.
  - change (λ c, on_cluster o_clusterId c) with (on_cluster o_clusterId).
    destruct (js_filter (on_cluster o_clusterId) (js_filter usable cands)) as [|c l].
    + right. do 2 eexists. split; [done|]. done.
    + apply by_labels_pick.
  - rewrite (js_filter_all (λ _, true)) by done.
    destruct (js_filter usable cands) as [|c l]; [right; do 2 eexists; done|]. apply by_labels_pick.
Qed.

Lemma elem_of_fits pool c :
  c ∈ fits request_memory pool ↔
  c ∈ pool ∧ 0 < memoryTotal c ∧ memoryUsed c + request_memory ≤ memoryTotal c.
Proof.
  unfold fits. rewrite elem_of_js_sort, !elem_of_js_filter, Z.leb_le, Z.ltb_lt. intuition lia.
Qed.

Lemma elem_of_unknown pool c : c ∈ unknown pool ↔ c ∈ pool ∧ memoryTotal c ≤ 0.
Proof. unfold unknown. by rewrite elem_of_js_sort, elem_of_js_filter, Z.leb_le. Qed.

#[export] Instance fits_comparator :
  Comparator (λ a b, cmp_then (Qccompare (after b) (after a)) (locale_compare (clusterName a) (clusterName b))).
Proof.
  apply comparator_then.
  - apply (comparator_flip (λ a b, Qccompare (after a) (after b))), (comparator_on after), _.
  - apply (comparator_on clusterName), _.
Qed.

Lemma fits_head_max pool c l d :
  fits request_memory pool = c :: l → d ∈ fits request_memory pool → (after d <= after c)%Qc.
Proof.
  intros E Hd. unfold fits in E. apply js_sort_head_min in E as [_ Hmin]; [|apply fits_comparator].
  unfold fits in Hd. apply elem_of_js_sort in Hd.
  specialize (Hmin d Hd). unfold cmp_le in Hmin.
  destruct (Qccompare (after d) (after c)) eqn:Ec; simpl in Hmin; [| |done].
  - apply Qceq_alt in Ec. rewrite Ec. apply Qcle_refl.
  - apply Qclt_alt in Ec. by apply Qclt_le_weak.
Qed.
End choose_theory.

(** Placement is sound, optimal and complete. The chosen candidate is a
    ready placement on a usable cluster that matches the selector or the named
    cluster; if its memory is known, the request fits and no eligible
    candidate keeps a larger share free; one without inventory is chosen only
    when no known one fits; and a refusal means every eligible candidate is
    known and too full. *)
Theorem choose_correct `{!Locale} mem cl lb cands :
  match choose mem cl lb cands with
  | Chosen c =>
      c ∈ cands ∧ eligible cl lb c = true
      ∧ (0 < memoryTotal c → memoryUsed c + mem ≤ memoryTotal c
           ∧ ∀ d, d ∈ cands → eligible cl lb d = true → 0 < memoryTotal d →
               memoryUsed d + mem ≤ memoryTotal d → (after mem d <= after mem c)%Qc)
      ∧ (memoryTotal c ≤ 0 → ∀ d, d ∈ cands → eligible cl lb d = true → 0 < memoryTotal d →
               memoryTotal d < memoryUsed d + mem)
  | Refused _ =>
      ∀ d, d ∈ cands → eligible cl lb d = true →
        0 < memoryTotal d ∧ memoryTotal d < memoryUsed d + mem
  end.
Proof.
  set (pool := js_filter (eligible cl lb) cands).
  assert (∀ d, d ∈ pool ↔ d ∈ cands ∧ eligible cl lb d = true) as Hpool by (intros; apply elem_of_js_filter).
  destruct (choose_pick mem cl lb cands) as [(c & -> & Hp)|(r & r' & -> & Hp)]; fold pool in Hp; unfold pick_from in Hp.
  - destruct (fits mem pool) as [|f fs] eqn:Ef.
    + destruct (unknown pool) as [|u us] eqn:Eu; [done|]. simplify_eq.
      assert (c ∈ unknown pool) as [Hc Ht]%elem_of_unknown by (rewrite Eu; by left).
      apply Hpool in Hc as [? ?]. split; [done|]. split; [done|]. split; [lia|].
      intros _ d Hd He Hpos. destruct (decide (memoryUsed d + mem ≤ memoryTotal d)) as [Hfit|]; [|lia].
      assert (d ∈ fits mem pool) as Hin by (apply elem_of_fits; rewrite Hpool; done).
      rewrite Ef in Hin. by apply not_elem_of_nil in Hin.
    + simplify_eq. assert (c ∈ fits mem pool) as (Hc & Hpos & Hfit)%elem_of_fits by (rewrite Ef; by left).
      apply Hpool in Hc as [? ?]. split; [done|]. split; [done|]. split; [|lia].
      intros _. split; [done|]. intros d Hd He Hdpos Hdfit.
      eapply fits_head_max; [exact Ef|]. apply elem_of_fits. rewrite Hpool. done.
  - destruct (fits mem pool) as [|f fs] eqn:Ef; [|done].
    destruct (unknown pool) as [|u us] eqn:Eu; [|done].
    intros d Hd He.
    assert (0 < memoryTotal d) as Hpos.
    { destruct (decide (0 < memoryTotal d)); [done|]. exfalso.
      assert (d ∈ unknown pool) as Hin by (apply elem_of_unknown; rewrite Hpool; split; [done|lia]).
      rewrite Eu in Hin. by apply not_elem_of_nil in Hin. }
    split; [done|]. destruct (decide (memoryUsed d + mem ≤ memoryTotal d)); [|lia]. exfalso.
    assert (d ∈ fits mem pool) as Hin by (apply elem_of_fits; rewrite Hpool; done).
    rewrite Ef in Hin. by apply not_elem_of_nil in Hin.
Qed.

(** ** A concrete tenant

    A quota of 10 GiB of memory, of which two placements use 4 and 2. *)

Definition demo_quotas : Quotas :=
  {| pool := λ k, match k with Memory => Some 10 | _ => None end;
     maxInstanceCpu := None; maxInstanceMemory := None; maxInstanceDisk := None;
     q_snapshots := None; q_backups := None; q_backupGiB := None; q_kubernetes := None |}.
Definition demo_use (gib : Z) : Usage := λ k, match k with Memory => gib * GiB | _ => 0 end.
Definition demo_usages : list (option Usage) := [Some (demo_use 4); None; Some (demo_use 2)].
Definition demo_limit : Limits := λ k, (λ n, demo_use 4 k + Z.max (n - sumUsage demo_usages k) 0) <$> quotaBytes demo_quotas k.

Example demo_limit_memory : demo_limit Memory = Some (8 * GiB).
Proof. vm_compute. done. Qed.

Lemma splitLimits_elastic_witness :
  ∃ lim, demo_limit Memory = Some lim ∧ demo_use 4 Memory ≤ lim
    ∧ sumUsage demo_usages Memory - demo_use 4 Memory + lim = Z.max (10 * GiB) (sumUsage demo_usages Memory).
Proof.
  exact (splitLimits_elastic demo_quotas demo_usages 0 (Some (demo_use 4)) demo_limit Memory eq_refl eq_refl).
Defined.

Lemma admitted_fits_split_witness : demo_use 4 Memory + demo_use 3 Memory ≤ 8 * GiB.
Proof.
  apply (admitted_fits_split demo_quotas demo_usages (demo_use 3) 0 (Some (demo_use 4)) demo_limit) with (k := Memory).
  - intros []; vm_compute; discriminate.
  - vm_compute. reflexivity.
  - reflexivity.
  - reflexivity.
  - vm_compute. reflexivity.
Defined.
