(* ===== verification/Jobs.v ===== *)
(** * Jobs: the queue, its leases and the worker's loop

    Models [jobs/queue.ts], [jobs/runner.ts], [reconcile/lease.ts] and the
    cancel route of [api/jobs.ts]. Each database statement is a function on the
    jobs table or the leases table, atomic as PostgreSQL makes it. The loop of
    a replica is a state machine whose steps are the stretches between two
    [await]s; replicas, callers of the API and crashes interleave freely
    ([step]). Every step brings its own clock reading, so nothing proved here
    relies on clocks agreeing. *)

From S2P Require Import Prelude JsString Effects.
Open Scope Z_scope.

(** ** Leases by name *)

Definition leases := gmap string (string * Z).

(** Takes or renews: the row is inserted, or updated where it is [holder]'s or has expired. *)
Definition acquireLease (ls : leases) (name holder : string) (ttlMs now : Z) : leases * bool :=
  let expiresAt := now + Z.max 1 ttlMs in
  match ls !! name with
  | None => (<[name := (holder, expiresAt)]> ls, true)
  | Some (h, e) =>
      if bool_decide (h = holder) || (e <? now) then (<[name := (holder, expiresAt)]> ls, true) else (ls, false)
  end.

Definition releaseLease (ls : leases) (name holder : string) : leases :=
  match ls !! name with
  | Some (h, _) => if bool_decide (h = holder) then delete name ls else ls
  | None => ls
  end.

(** ** The jobs table *)

Inductive JobState := Queued | Running | Succeeded | Failed | Cancelled.
Global Instance JobState_eq_dec : EqDecision JobState.
Proof. solve_decision. Defined.

Record JobProgress := { stage : string; percent : option Z; progress_message : option string }.

Record Job := {
  j_id : string; j_type : string; j_state : JobState; j_progress : JobProgress;
  j_payload : list (string * Json); j_result : option (list (string * Json)); j_error : string;
  j_tenantId : option string; j_clusterIds : list string; j_instanceKey : option string;
  j_actorType : string; j_actorId : string; j_cancelRequested : bool;
  j_holder : option string; j_heartbeatAt : option Z;
  j_createdAt : Z; j_startedAt : option Z; j_finishedAt : option Z;
}.

Record NewJob := {
  n_type : string; n_payload : list (string * Json); n_actorType : string; n_actorId : string;
  n_tenantId : option string; n_clusterIds : list string; n_instanceKey : option string;
}.

Definition table := list Job.

Definition is_active (s : JobState) : bool := match s with Queued | Running => true | _ => false end.

(** The unique index [jobs_active_instance]. *)
Definition busy (tbl : table) (k : option string) : bool :=
  match k with
  | Some k => some (λ j, bool_decide (j_instanceKey j = Some k) && is_active (j_state j)) tbl
  | None => false
  end.

(** [id] is the fresh key the database makes. *)
Definition enqueueJob (tbl : table) (id : string) (now : Z) (j : NewJob) : result (table * Job) :=
  if busy tbl (n_instanceKey j) then throw 409 "busy" "Another job is already working on this instance"
  else
    let row := {| j_id := id; j_type := n_type j; j_state := Queued;
                  j_progress := {| stage := "queued"; percent := None; progress_message := None |};
                  j_payload := n_payload j; j_result := None; j_error := EmptyString;
                  j_tenantId := n_tenantId j; j_clusterIds := n_clusterIds j; j_instanceKey := n_instanceKey j;
                  j_actorType := n_actorType j; j_actorId := n_actorId j; j_cancelRequested := false;
                  j_holder := None; j_heartbeatAt := None;
                  j_createdAt := now; j_startedAt := None; j_finishedAt := None |} in
    Ok (tbl ++ [row], row).

(** What an [update] may set; the columns it leaves out stay. *)
Record Change := {
  c_state : option JobState; c_error : option string; c_result : option (list (string * Json));
  c_finishedAt : option Z; c_startedAt : option Z; c_heartbeatAt : option Z;
  c_holder : option string; c_cancel : bool; c_progress : option JobProgress;
}.
Definition no_change : Change :=
  {| c_state := None; c_error := None; c_result := None; c_finishedAt := None; c_startedAt := None;
     c_heartbeatAt := None; c_holder := None; c_cancel := false; c_progress := None |}.
Definition or_else {A} (o d : option A) : option A := match o with Some x => Some x | None => d end.
Definition changed (c : Change) (j : Job) : Job :=
  {| j_id := j_id j; j_type := j_type j; j_state := default (j_state j) (c_state c);
     j_progress := default (j_progress j) (c_progress c); j_payload := j_payload j;
     j_result := or_else (c_result c) (j_result j); j_error := default (j_error j) (c_error c);
     j_tenantId := j_tenantId j; j_clusterIds := j_clusterIds j; j_instanceKey := j_instanceKey j;
     j_actorType := j_actorType j; j_actorId := j_actorId j;
     j_cancelRequested := c_cancel c || j_cancelRequested j;
     j_holder := or_else (c_holder c) (j_holder j); j_heartbeatAt := or_else (c_heartbeatAt c) (j_heartbeatAt j);
     j_createdAt := j_createdAt j; j_startedAt := or_else (c_startedAt c) (j_startedAt j);
     j_finishedAt := or_else (c_finishedAt c) (j_finishedAt j) |}.

(** [update … where]: the rows that match and how they read afterwards. *)
Definition update (tbl : table) (p : Job → bool) (c : Change) : table :=
  (λ j, if p j then changed c j else j) <$> tbl.
Definition returning (tbl : table) (p : Job → bool) (c : Change) : option Job :=
  changed c <$> js_find p tbl.

Definition INTERRUPTED : string := "interrupted: the worker running it stopped".

Definition is_stale (holder : string) (cutoff : Z) (j : Job) : bool :=
  bool_decide (j_state j = Running)
  && match j_holder j with Some h => negb (bool_decide (h = holder)) | None => false end
  && match j_heartbeatAt j with Some t => t <? cutoff | None => false end.
(** Jobs another worker was running when it went away. *)
Definition fail_stale (tbl : table) (holder : string) (staleMs now : Z) : table :=
  update tbl (is_stale holder (now - staleMs))
    {| c_state := Some Failed; c_error := Some INTERRUPTED; c_result := None; c_finishedAt := Some now;
       c_startedAt := None; c_heartbeatAt := None; c_holder := None; c_cancel := false; c_progress := None |}.

(** A queued job none is older than: what [order by created_at limit 1] may answer. *)
Definition oldest (tbl : table) (j : Job) : bool :=
  bool_decide (j_state j = Queued)
  && every (λ k, negb (bool_decide (j_state k = Queued)) || (j_createdAt j <=? j_createdAt k)) tbl.

Definition with_id (id : string) (j : Job) : bool := bool_decide (j_id j = id).
Definition queued_id (id : string) (j : Job) : bool := with_id id j && bool_decide (j_state j = Queued).
Definition running_id (id : string) (j : Job) : bool := with_id id j && bool_decide (j_state j = Running).

Definition claim_change (holder : string) (now : Z) : Change :=
  {| c_state := Some Running; c_error := None; c_result := None; c_finishedAt := None; c_startedAt := Some now;
     c_heartbeatAt := Some now; c_holder := Some holder; c_cancel := false; c_progress := None |}.
Definition claim (tbl : table) (id holder : string) (now : Z) : table * option Job :=
  (update tbl (queued_id id) (claim_change holder now), returning tbl (queued_id id) (claim_change holder now)).

Inductive Outcome :=
  | Returned (res : option (list (string * Json)))
  | Thrown (msg : string).

(** How [run] ends a job: with its handler's outcome, or for want of one. *)
Definition finish_change (stopped aborted : bool) (o : Outcome) (now : Z) : Change :=
  let set state error res :=
    {| c_state := Some state; c_error := error; c_result := res; c_finishedAt := Some now; c_startedAt := None;
       c_heartbeatAt := None; c_holder := None; c_cancel := false; c_progress := None |} in
  match o with
  | Returned res => set Succeeded None (Some (default [] res))
  | Thrown msg =>
      if stopped then set Failed (Some INTERRUPTED) None
      else if aborted then set Cancelled (Some EmptyString) None
      else set Failed (Some (str_take 2000 msg)) None
  end.
Definition no_handler_change (type : string) (now : Z) : Change :=
  {| c_state := Some Failed; c_error := Some ("No handler for job type " +++ type); c_result := None;
     c_finishedAt := Some now; c_startedAt := None; c_heartbeatAt := None; c_holder := None;
     c_cancel := false; c_progress := None |}.

Definition beat_change (now : Z) : Change :=
  {| c_state := None; c_error := None; c_result := None; c_finishedAt := None; c_startedAt := None;
     c_heartbeatAt := Some now; c_holder := None; c_cancel := false; c_progress := None |}.
Definition progress_change (p : JobProgress) : Change :=
  {| c_state := None; c_error := None; c_result := None; c_finishedAt := None; c_startedAt := None;
     c_heartbeatAt := None; c_holder := None; c_cancel := false; c_progress := Some p |}.

(** The cancel route, of a job the caller may cancel. *)
Definition cancel_queued_change (now : Z) : Change :=
  {| c_state := Some Cancelled; c_error := None; c_result := None; c_finishedAt := Some now; c_startedAt := None;
     c_heartbeatAt := None; c_holder := None; c_cancel := true; c_progress := None |}.
Definition cancel_running_change : Change :=
  {| c_state := None; c_error := None; c_result := None; c_finishedAt := None; c_startedAt := None;
     c_heartbeatAt := None; c_holder := None; c_cancel := true; c_progress := None |}.
Definition cancel (tbl : table) (id : string) (now : Z) : result (table * Job) :=
  match returning tbl (queued_id id) (cancel_queued_change now) with
  | Some j => Ok (update tbl (queued_id id) (cancel_queued_change now), j)
  | None =>
      match returning tbl (running_id id) cancel_running_change with
      | Some j => Ok (update tbl (running_id id) cancel_running_change, j)
      | None => throw 409 "finished" "The job has already finished"
      end
  end.

(** ** Replicas *)

Record Options := {
  handlers : list string;  (** the job types with a handler *)
  concurrency : nat;
  leaseMs : Z;
  heartbeatMs : option Z;
}.
Definition staleMs (o : Options) : Z := 3 * Z.max (leaseMs o) (default 0 (heartbeatMs o)).

(** A job a replica runs; [a_done] once its row is final and only [active] still lists it. *)
Record Active := { a_id : string; a_type : string; a_abort : bool; a_done : bool }.

(** Where a pass stands. *)
Inductive Pass := Idle | Acquired | Taking | Chose (id : string).

Record Replica := { r_active : list Active; r_stopped : bool; r_pass : Pass }.
Definition fresh : Replica := {| r_active := []; r_stopped := false; r_pass := Idle |}.

Record Sys := {
  jobs : table;
  held : leases;
  replicas : gmap string Replica;
  launched : list string;  (** every launch so far, in order *)
}.

Definition LEASE : string := "jobs".

Definition at_pass (r : Replica) (p : Pass) : Replica :=
  {| r_active := r_active r; r_stopped := r_stopped r; r_pass := p |}.
Definition with_active (r : Replica) (l : list Active) : Replica :=
  {| r_active := l; r_stopped := r_stopped r; r_pass := r_pass r |}.
Definition set_stopped (r : Replica) (b : bool) : Replica :=
  {| r_active := r_active r; r_stopped := b; r_pass := r_pass r |}.

Definition put (s : Sys) (h : string) (r : Replica) : Sys :=
  {| jobs := jobs s; held := held s; replicas := <[h := r]> (replicas s); launched := launched s |}.
Definition set_jobs (s : Sys) (tbl : table) : Sys :=
  {| jobs := tbl; held := held s; replicas := replicas s; launched := launched s |}.
Definition set_held (s : Sys) (ls : leases) : Sys :=
  {| jobs := jobs s; held := ls; replicas := replicas s; launched := launched s |}.
Definition add_launch (s : Sys) (id : string) : Sys :=
  {| jobs := jobs s; held := held s; replicas := replicas s; launched := launched s ++ [id] |}.

Definition on_active (id : string) (f : Active → Active) (l : list Active) : list Active :=
  (λ a, if bool_decide (a_id a = id) then f a else a) <$> l.
Definition abort_one (a : Active) : Active :=
  {| a_id := a_id a; a_type := a_type a; a_abort := true; a_done := a_done a |}.
Definition done_one (a : Active) : Active :=
  {| a_id := a_id a; a_type := a_type a; a_abort := a_abort a; a_done := true |}.

(** *** One pass of a replica, statement by statement *)

Section pass.
Context (o : Options) (h : string).

(** [acquireLease]: the pass goes on only with the lease. *)
Definition tick_acquire (s : Sys) (r : Replica) (now : Z) : Sys :=
  let '(ls, ok) := acquireLease (held s) LEASE h (leaseMs o) now in
  put (set_held s ls) h (at_pass r (if ok then Acquired else Idle)).

Definition tick_fail_stale (s : Sys) (r : Replica) (now : Z) : Sys :=
  put (set_jobs s (fail_stale (jobs s) h (staleMs o) now)) h (at_pass r Taking).

(** [while (!this.stopped && this.active.size < this.opts.concurrency)] *)
Definition may_take (r : Replica) : bool :=
  negb (r_stopped r) && (length (r_active r) <? concurrency o)%nat.

(** The claim, and the launch when the job was still queued. *)
Definition tick_claim (s : Sys) (r : Replica) (id : string) (now : Z) : Sys :=
  let '(tbl, job) := claim (jobs s) id h now in
  match job with
  | Some j =>
      put (add_launch (set_jobs s tbl) (j_id j)) h
        (at_pass (with_active r (r_active r ++ [{| a_id := j_id j; a_type := j_type j; a_abort := false; a_done := false |}])) Taking)
  | None => put (set_jobs s tbl) h (at_pass r Taking)
  end.

(** [run] ends: its row is finished; [finally] takes it off [active] afterwards. *)
Definition run_finish (s : Sys) (r : Replica) (a : Active) (out : Outcome) (now : Z) : Sys :=
  let c := if includes (handlers o) (a_type a) then finish_change (r_stopped r) (a_abort a) out now
           else no_handler_change (a_type a) now in
  put (set_jobs s (update (jobs s) (with_id (a_id a)) c)) h (with_active r (on_active (a_id a) done_one (r_active r))).

(** A heartbeat, which turns a cancel request into an abort. *)
Definition run_beat (s : Sys) (r : Replica) (a : Active) (now : Z) : Sys :=
  let row := returning (jobs s) (with_id (a_id a)) (beat_change now) in
  let cancel := match row with Some j => j_cancelRequested j | None => false end in
  put (set_jobs s (update (jobs s) (with_id (a_id a)) (beat_change now))) h
    (with_active r (if cancel then on_active (a_id a) abort_one (r_active r) else r_active r)).
End pass.

(** ** The system: replicas, callers, crashes *)

Inductive step (o : Options) (s : Sys) : Sys → Prop :=
  | s_enqueue id now j tbl row :
      id ∉ j_id <$> jobs s → enqueueJob (jobs s) id now j = Ok (tbl, row) → step o s (set_jobs s tbl)
  | s_cancel id now tbl row :
      cancel (jobs s) id now = Ok (tbl, row) → step o s (set_jobs s tbl)
  | s_acquire h r now :
      replicas s !! h = Some r → r_pass r = Idle → step o s (tick_acquire o h s r now)
  | s_fail_stale h r now :
      replicas s !! h = Some r → r_pass r = Acquired → step o s (tick_fail_stale o h s r now)
  | s_choose h r j :
      replicas s !! h = Some r → r_pass r = Taking → may_take o r = true →
      j ∈ jobs s → oldest (jobs s) j = true → step o s (put s h (at_pass r (Chose (j_id j))))
  | s_rest h r :
      replicas s !! h = Some r → r_pass r = Taking →
      may_take o r = false ∨ (∀ j, j ∈ jobs s → j_state j ≠ Queued) → step o s (put s h (at_pass r Idle))
  | s_claim h r id now :
      replicas s !! h = Some r → r_pass r = Chose id → step o s (tick_claim h s r id now)
  | s_progress h r a p :
      replicas s !! h = Some r → a ∈ r_active r → a_done a = false →
      step o s (set_jobs s (update (jobs s) (with_id (a_id a)) (progress_change p)))
  | s_beat h r a now :
      replicas s !! h = Some r → a ∈ r_active r → step o s (run_beat h s r a now)
  | s_finish h r a out now :
      replicas s !! h = Some r → a ∈ r_active r → a_done a = false → step o s (run_finish o h s r a out now)
  | s_forget h r a :
      replicas s !! h = Some r → a ∈ r_active r → a_done a = true →
      step o s (put s h (with_active r (js_filter (λ b, negb (bool_decide (a_id b = a_id a))) (r_active r))))
  | s_stop h r : replicas s !! h = Some r → step o s (put s h (set_stopped r true))
  | s_abort h r :
      replicas s !! h = Some r → r_stopped r = true → r_pass r = Idle →
      step o s (put s h (with_active r (abort_one <$> r_active r)))
  | s_release h r :
      replicas s !! h = Some r → r_stopped r = true → r_pass r = Idle → r_active r = [] →
      step o s (set_held s (releaseLease (held s) LEASE h))
  | s_start h r : replicas s !! h = Some r → r_pass r = Idle → step o s (put s h (set_stopped r false))
  | s_spawn h : replicas s !! h = None → step o s (put s h fresh)
  | s_crash h r :
      replicas s !! h = Some r →
      step o s {| jobs := jobs s; held := held s; replicas := delete h (replicas s); launched := launched s |}.

Definition init : Sys := {| jobs := []; held := ∅; replicas := ∅; launched := [] |}.
Definition reachable (o : Options) (s : Sys) : Prop := rtc (step o) init s.
