(* ===== verification/JobsTheory.v ===== *)
(** * JobsTheory: what the queue and its workers guarantee

    An invariant of every reachable state of the system of [Jobs], whatever
    the interleaving, the clocks and the crashes: ids are unique, an instance
    has at most one active job, a job a replica runs was claimed by it and is
    never queued again, and no replica runs more jobs than its concurrency. *)

From S2P Require Import Prelude JsString Effects Jobs.
Open Scope Z_scope.

(** ** Updates of the table *)

Lemma update_ids tbl p c : j_id <$> update tbl p c = j_id <$> tbl.
Proof.
  unfold update. rewrite <-list_fmap_compose. apply list_fmap_ext. intros i j _. simpl. by destruct (p j).
Qed.

Lemma elem_of_update tbl p c j :
  j ∈ update tbl p c ↔ ∃ k, k ∈ tbl ∧ j = if p k then changed c k else k.
Proof. unfold update. rewrite list_elem_of_fmap. split; intros (k & ? & ?); eauto. Qed.

Lemma id_unique tbl j k : NoDup (j_id <$> tbl) → j ∈ tbl → k ∈ tbl → j_id j = j_id k → j = k.
Proof.
  intros Hnd Hj Hk Heq. apply list_elem_of_lookup in Hj as [a Ha]. apply list_elem_of_lookup in Hk as [b Hb].
  assert (a = b) as ->; [|congruence].
  eapply (NoDup_lookup (j_id <$> tbl)); [done| |]; rewrite list_lookup_fmap, ?Ha, ?Hb; simpl; [done|by rewrite Heq].
Qed.

Lemma returning_some tbl p c j :
  returning tbl p c = Some j → ∃ k, k ∈ tbl ∧ p k = true ∧ j = changed c k.
Proof.
  unfold returning. intros (k & Hk & ->)%fmap_Some. apply js_find_some in Hk as [? ?]. eauto.
Qed.

Lemma returning_none tbl p c : returning tbl p c = None → ∀ k, k ∈ tbl → p k = false.
Proof. unfold returning. intros Hn%fmap_None. by apply js_find_none. Qed.

Lemma with_id_spec id j : with_id id j = true ↔ j_id j = id.
Proof. apply bool_decide_eq_true. Qed.

(** ** The invariant *)

Definition clash (j k : Job) : Prop :=
  is_active (j_state j) = true ∧ is_active (j_state k) = true
  ∧ ∃ key, j_instanceKey j = Some key ∧ j_instanceKey k = Some key.

Record wf_table (tbl : table) : Prop := {
  wf_ids : NoDup (j_id <$> tbl);
  wf_keys j k : j ∈ tbl → k ∈ tbl → clash j k → j_id j = j_id k;
}.

(** A job is in [h]'s hands: claimed by it, and never queued since. *)
Definition claimed_by (tbl : table) (h id : string) : Prop :=
  ∃ j, j ∈ tbl ∧ j_id j = id ∧ j_state j ≠ Queued ∧ j_holder j = Some h.

Record inv (o : Options) (s : Sys) : Prop := {
  inv_table : wf_table (jobs s);
  inv_active h r a : replicas s !! h = Some r → a ∈ r_active r → claimed_by (jobs s) h (a_id a);
  inv_nodup h r : replicas s !! h = Some r → NoDup (a_id <$> r_active r);
  inv_room h r : replicas s !! h = Some r →
    (length (r_active r) + match r_pass r with Chose _ => 1 | _ => 0 end <= concurrency o)%nat;
  inv_launched id : id ∈ launched s → ∃ j, j ∈ jobs s ∧ j_id j = id ∧ j_state j ≠ Queued;
  inv_once : NoDup (launched s);
}.

(** *** Changes that keep the table's part *)

(** A change of rows that keeps every claim: no holder is lost and nothing is queued again. *)
Definition keeps (c : Change) : Prop := c_state c ≠ Some Queued ∧ c_holder c = None.

Lemma changed_active c j :
  (∀ st, c_state c = Some st → is_active st = true → is_active (j_state j) = true) →
  is_active (j_state (changed c j)) = true → is_active (j_state j) = true.
Proof.
  intros Hc. simpl. destruct (c_state c) as [st|]; simpl; [|done]. intros Ha. by apply (Hc st).
Qed.

Lemma wf_update tbl p c :
  wf_table tbl →
  (∀ j st, j ∈ tbl → p j = true → c_state c = Some st → is_active st = true → is_active (j_state j) = true) →
  wf_table (update tbl p c).
Proof.
  intros [Hi Hk] Hc. split; [by rewrite update_ids|].
  intros j k (j' & Hj & ->)%elem_of_update (k' & Hk' & ->)%elem_of_update (Ha & Hb & key & Hjk & Hkk).
  assert (j_id j' = j_id k') as Heq.
  { apply Hk; [done..|]. split; [|split].
    - destruct (p j') eqn:E; [|done]. eapply changed_active; [|exact Ha]. eauto.
    - destruct (p k') eqn:E; [|done]. eapply changed_active; [|exact Hb]. eauto.
    - exists key. destruct (p j'), (p k'); done. }
  by destruct (p j'), (p k').
Qed.

Lemma claimed_update tbl p c h id : keeps c → claimed_by tbl h id → claimed_by (update tbl p c) h id.
Proof.
  intros [Hs Hh] (j & Hj & Hid & Hq & Hjh). exists (if p j then changed c j else j).
  split; [apply elem_of_update; eauto|].
  destruct (p j); [|done]. simpl. rewrite Hh. repeat split; try done.
  destruct (c_state c) as [st|]; simpl; [|done]. intros ->. done.
Qed.

Lemma seen_update tbl p c id :
  c_state c ≠ Some Queued →
  (∃ j, j ∈ tbl ∧ j_id j = id ∧ j_state j ≠ Queued) →
  ∃ j, j ∈ update tbl p c ∧ j_id j = id ∧ j_state j ≠ Queued.
Proof.
  intros Hs (j & Hj & Hid & Hq). exists (if p j then changed c j else j).
  split; [apply elem_of_update; eauto|]. destruct (p j); [|done]. simpl. split; [done|].
  destruct (c_state c) as [st|]; simpl; [|done]. intros ->. done.
Qed.

(** An update that keeps claims preserves the invariant, whatever rows it touches, if it makes no
    job active that was not. *)
Lemma inv_update o s p c :
  inv o s → keeps c →
  (∀ j st, j ∈ jobs s → p j = true → c_state c = Some st → is_active st = true → is_active (j_state j) = true) →
  inv o (set_jobs s (update (jobs s) p c)).
Proof.
  intros [Ht Ha Hn Hr Hl Ho] Hk Hc. split; simpl; try done.
  - by apply wf_update.
  - intros h r a Hh Hin. apply claimed_update; eauto.
  - intros id Hin. apply seen_update; [apply Hk|]. eauto.
Qed.

(** Replacing a replica by one with (part of) the same active jobs. *)
Lemma inv_put o s h r r' :
  inv o s → replicas s !! h = Some r →
  (a_id <$> r_active r') `sublist_of` (a_id <$> r_active r) →
  (length (r_active r') + match r_pass r' with Chose _ => 1 | _ => 0 end <= concurrency o)%nat →
  inv o (put s h r').
Proof.
  intros [Ht Ha Hn Hr Hl Ho] Hh Hsub Hroom. split; simpl; try done.
  - intros h' r0 a. destruct (decide (h = h')) as [<-|Hne].
    + rewrite lookup_insert_eq. intros [= <-] Hin.
      assert (a_id a ∈ a_id <$> r_active r) as (b & Hb & Hbin)%list_elem_of_fmap.
      { eapply elem_of_sublist; [|exact Hsub]. by apply list_elem_of_fmap_2. }
      rewrite Hb. by eapply Ha.
    + rewrite lookup_insert_ne by done. apply Ha.
  - intros h' r0. destruct (decide (h = h')) as [<-|Hne].
    + rewrite lookup_insert_eq. intros [= <-]. eapply sublist_NoDup; [by eapply Hn|done].
    + rewrite lookup_insert_ne by done. apply Hn.
  - intros h' r0. destruct (decide (h = h')) as [<-|Hne].
    + rewrite lookup_insert_eq. by intros [= <-].
    + rewrite lookup_insert_ne by done. apply Hr.
Qed.

Lemma inv_put_pass o s h r p :
  inv o s → replicas s !! h = Some r → match p with Chose _ => may_take o r = true | _ => True end →
  inv o (put s h (at_pass r p)).
Proof.
  intros Hi Hh Hp. apply (inv_put o s h r); [done..|]. simpl.
  pose proof (inv_room _ _ Hi h r Hh) as Hroom.
  destruct p; try (destruct (r_pass r); lia).
  unfold may_take in Hp. apply andb_prop in Hp as [_ Hlt%Nat.ltb_lt]. lia.
Qed.

Lemma on_active_ids id f l : (∀ a, a_id (f a) = a_id a) → a_id <$> on_active id f l = a_id <$> l.
Proof.
  intros Hf. unfold on_active. rewrite <-list_fmap_compose. apply list_fmap_ext. intros i a _. simpl.
  case_bool_decide; [apply Hf|done].
Qed.

Lemma inv_put_active o s h r l :
  inv o s → replicas s !! h = Some r → (a_id <$> l) `sublist_of` (a_id <$> r_active r) →
  inv o (put s h (with_active r l)).
Proof.
  intros Hi Hh Hl. apply (inv_put o s h r); [done..|]. simpl.
  pose proof (inv_room _ _ Hi h r Hh). apply sublist_length in Hl. rewrite !length_fmap in Hl. lia.
Qed.

Lemma elem_of_enqueue tbl id now n tbl' row :
  enqueueJob tbl id now n = Ok (tbl', row) →
  tbl' = tbl ++ [row] ∧ busy tbl (n_instanceKey n) = false ∧ j_id row = id ∧ j_state row = Queued
  ∧ j_instanceKey row = n_instanceKey n.
Proof.
  unfold enqueueJob. destruct (busy _ _) eqn:E; [done|]. by intros [= <- <-].
Qed.

Lemma busy_false tbl k j :
  busy tbl (Some k) = false → j ∈ tbl → j_instanceKey j = Some k → is_active (j_state j) = false.
Proof.
  unfold busy. rewrite some_false. intros Hb Hj Hk. specialize (Hb j Hj). simpl in Hb.
  rewrite bool_decide_eq_true_2 in Hb by done. done.
Qed.

Lemma wf_enqueue tbl id now n tbl' row :
  wf_table tbl → id ∉ j_id <$> tbl → enqueueJob tbl id now n = Ok (tbl', row) → wf_table tbl'.
Proof.
  intros [Hi Hk] Hid (-> & Hb & Hrid & Hrs & Hrk)%elem_of_enqueue. split.
  - rewrite fmap_app. apply NoDup_app. repeat split; [done| |apply NoDup_singleton].
    intros x Hx Hx'. apply list_elem_of_singleton in Hx'. by subst.
  - assert (∀ j, j ∈ tbl → clash j row → False) as Hno.
    { intros j Hj (Ha & _ & key & Hjk & Hrk'). rewrite Hrk in Hrk'. rewrite Hrk' in Hb.
      by rewrite (busy_false tbl key j) in Ha. }
    intros j k [Hj|Hj%list_elem_of_singleton]%elem_of_app [Hk'|Hk'%list_elem_of_singleton]%elem_of_app Hc; subst.
    + by apply Hk.
    + exfalso. by eapply Hno.
    + exfalso. eapply Hno; [exact Hk'|]. destruct Hc as (? & ? & key & ? & ?). repeat split; eauto.
    + done.
Qed.

(** *** The claim *)

Lemma update_none tbl p c : (∀ k, k ∈ tbl → p k = false) → update tbl p c = tbl.
Proof.
  intros Hp. unfold update. rewrite <-(list_fmap_id tbl) at 2. apply list_fmap_ext. intros i k Hk.
  rewrite Hp; [done|]. by eapply list_elem_of_lookup_2.
Qed.

Lemma queued_id_spec id j : queued_id id j = true ↔ j_id j = id ∧ j_state j = Queued.
Proof. unfold queued_id. rewrite andb_true_iff, with_id_spec, bool_decide_eq_true. done. Qed.

Lemma claimed_unqueued tbl id c h h' id' :
  claimed_by tbl h id' → claimed_by (update tbl (queued_id id) (claim_change h' c)) h id'.
Proof.
  intros (j & Hj & Hid & Hq & Hh). exists j. split; [|done].
  apply elem_of_update. exists j. split; [done|].
  destruct (queued_id id j) eqn:E; [|done]. apply queued_id_spec in E as [_ ?]. done.
Qed.

Lemma inv_claim o s h r id now :
  inv o s → replicas s !! h = Some r → r_pass r = Chose id → inv o (tick_claim h s r id now).
Proof.
  intros Hi Hh Hp. unfold tick_claim, claim.
  destruct (returning (jobs s) (queued_id id) (claim_change h now)) as [j|] eqn:E.
  2: { rewrite update_none by (by eapply returning_none). destruct s. by apply (inv_put_pass o _ h r). }
  apply returning_some in E as (k & Hk & [Hid Hq]%queued_id_spec & ->).
  pose proof Hi as [Ht Ha Hn Hr Hl Ho].
  assert (∀ j, j ∈ jobs s → j_id j = id → j = k) as Huniq.
  { intros j Hj Hji. apply (id_unique (jobs s)); [apply Ht|done..|congruence]. }
  set (tbl := update (jobs s) (queued_id id) (claim_change h now)).
  assert (claimed_by tbl h id) as Hnew.
  { exists (changed (claim_change h now) k). split; [|done].
    apply elem_of_update. exists k. split; [done|]. by rewrite (proj2 (queued_id_spec id k)). }
  assert (∀ h' r' a, replicas s !! h' = Some r' → a ∈ r_active r' → a_id a ≠ id) as Hfresh.
  { intros h' r' a Hh' Hin Heq. destruct (Ha h' r' a Hh' Hin) as (j & Hj & Hji & Hjq & _).
    rewrite Heq in Hji. rewrite (Huniq j Hj Hji) in Hjq. done. }
  split; simpl; rewrite ?Hid.
  - apply wf_update; [apply Ht|]. intros j st Hj [_ ->]%queued_id_spec _ _. done.
  - intros h' r' a. destruct (decide (h = h')) as [<-|Hne].
    + rewrite lookup_insert_eq. intros [= <-]. simpl. intros [Hin|Hin]%elem_of_app.
      * apply claimed_unqueued. by eapply Ha.
      * apply list_elem_of_singleton in Hin as ->. done.
    + rewrite lookup_insert_ne by done. intros Hr' Hin. apply claimed_unqueued. by eapply Ha.
  - intros h' r'. destruct (decide (h = h')) as [<-|Hne]; [|rewrite lookup_insert_ne by done; apply Hn].
    rewrite lookup_insert_eq. intros [= <-]. simpl. rewrite fmap_app. apply NoDup_app.
    repeat split; [by eapply Hn| |apply NoDup_singleton].
    intros x (a & -> & Hin)%list_elem_of_fmap Hx%list_elem_of_singleton. by eapply (Hfresh h r a).
  - intros h' r'. destruct (decide (h = h')) as [<-|Hne]; [|rewrite lookup_insert_ne by done; apply Hr].
    rewrite lookup_insert_eq. intros [= <-]. simpl. rewrite length_app. simpl.
    pose proof (Hr h r Hh) as Hroom. rewrite Hp in Hroom. lia.
  - intros x [Hx|Hx]%elem_of_app.
    + apply Hl in Hx as (j & Hj & Hji & Hjq). exists j. split; [|done]. apply elem_of_update. exists j.
      split; [done|]. destruct (queued_id id j) eqn:E; [|done]. by apply queued_id_spec in E as [_ ?].
    + apply list_elem_of_singleton in Hx as ->. destruct Hnew as (j & ? & ? & ? & _). eauto.
  - apply NoDup_app. repeat split; [done| |apply NoDup_singleton].
    intros x Hx Hx'%list_elem_of_singleton. subst x. apply Hl in Hx as (j & Hj & Hji & Hjq).
    rewrite (Huniq j Hj) in Hjq by congruence. done.
Qed.

(** *** Every step *)

Lemma keeps_finish stopped aborted out now : keeps (finish_change stopped aborted out now).
Proof. destruct out, stopped, aborted; by split. Qed.

Lemma finish_inactive stopped aborted out now st :
  c_state (finish_change stopped aborted out now) = Some st → is_active st = false.
Proof. destruct out, stopped, aborted; simpl; by intros [= <-]. Qed.

Lemma inv_final o s p c :
  inv o s → keeps c → (∀ st, c_state c = Some st → is_active st = false) →
  inv o (set_jobs s (update (jobs s) p c)).
Proof.
  intros Hi Hk Hc. apply inv_update; [done..|]. intros j st _ _ Hst Hact. apply Hc in Hst. congruence.
Qed.

Lemma inv_held o s ls : inv o s → inv o (set_held s ls).
Proof. intros [Ht Ha Hn Hr Hl Ho]. by split. Qed.

Lemma inv_spawn o s h : inv o s → replicas s !! h = None → inv o (put s h fresh).
Proof.
  intros [Ht Ha Hn Hr Hl Ho] Hh. split; simpl; try done.
  - intros h' r' a. destruct (decide (h = h')) as [<-|Hne]; [|rewrite lookup_insert_ne by done; apply Ha].
    rewrite lookup_insert_eq. intros [= <-] Hin. by apply elem_of_nil in Hin.
  - intros h' r'. destruct (decide (h = h')) as [<-|Hne]; [|rewrite lookup_insert_ne by done; apply Hn].
    rewrite lookup_insert_eq. intros [= <-]. constructor.
  - intros h' r'. destruct (decide (h = h')) as [<-|Hne]; [|rewrite lookup_insert_ne by done; apply Hr].
    rewrite lookup_insert_eq. intros [= <-]. simpl. lia.
Qed.

Lemma inv_crash o s h :
  inv o s → inv o {| jobs := jobs s; held := held s; replicas := delete h (replicas s); launched := launched s |}.
Proof.
  intros [Ht Ha Hn Hr Hl Ho]. split; simpl; try done.
  - intros h' r' a [_ Hh]%lookup_delete_Some Hin. by eapply Ha.
  - intros h' r' [_ Hh]%lookup_delete_Some. by eapply Hn.
  - intros h' r' [_ Hh]%lookup_delete_Some. by eapply Hr.
Qed.

Lemma inv_enqueue o s id now n tbl row :
  inv o s → id ∉ j_id <$> jobs s → enqueueJob (jobs s) id now n = Ok (tbl, row) → inv o (set_jobs s tbl).
Proof.
  intros [Ht Ha Hn Hr Hl Ho] Hid He. pose proof (wf_enqueue _ _ _ _ _ _ Ht Hid He) as Ht'.
  apply elem_of_enqueue in He as (-> & _). split; simpl; try done.
  - intros h r a Hh Hin. destruct (Ha h r a Hh Hin) as (j & Hj & Hrest). exists j.
    split; [by apply elem_of_app; left|done].
  - intros x Hx. destruct (Hl x Hx) as (j & Hj & Hrest). exists j. split; [by apply elem_of_app; left|done].
Qed.

Lemma inv_cancel o s id now tbl row : inv o s → cancel (jobs s) id now = Ok (tbl, row) → inv o (set_jobs s tbl).
Proof.
  intros Hi. unfold cancel. destruct (returning _ _ _).
  - intros [= <- _]. apply inv_final; [done|done|]. intros st. simpl. by intros [= <-].
  - destruct (returning _ _ _); [|done]. intros [= <- _]. by apply inv_final.
Qed.

Lemma step_inv o s s' : inv o s → step o s s' → inv o s'.
Proof.
  intros Hi Hst. destruct Hst as
    [id now j tbl row Hid He|id now tbl row Hc|h r now Hh Hp|h r now Hh Hp|h r j Hh Hp Hm Hj Ho|h r Hh Hp Hm
    |h r id now Hh Hp|h r a p Hh Ha Hd|h r a now Hh Ha|h r a out now Hh Ha Hd|h r a Hh Ha Hd|h r Hh|h r Hh Hs Hp
    |h r Hh Hs Hp He|h r Hh Hp|h Hh|h r Hh].
  - by eapply inv_enqueue.
  - by eapply inv_cancel.
  - unfold tick_acquire. destruct (acquireLease _ _ _ _ _) as [ls ok].
    apply (inv_put_pass o (set_held s ls) h r); [by apply inv_held|done|by destruct ok].
  - unfold tick_fail_stale. apply (inv_put_pass o (set_jobs s _) h r); [|done..].
    apply inv_final; [done|done|]. intros st. simpl. by intros [= <-].
  - by apply (inv_put_pass o s h r).
  - by apply (inv_put_pass o s h r).
  - by apply inv_claim.
  - by apply inv_final.
  - unfold run_beat. apply (inv_put_active o (set_jobs s _) h r); [by apply inv_final|done|].
    case_match; [|done]. by rewrite on_active_ids.
  - unfold run_finish. apply (inv_put_active o (set_jobs s _) h r); [|done|by rewrite on_active_ids].
    destruct (includes _ _).
    + apply inv_final; [done|apply keeps_finish|apply finish_inactive].
    + apply inv_final; [done|done|]. intros st. simpl. by intros [= <-].
  - apply (inv_put_active o s h r); [done..|]. apply fmap_sublist, js_filter_sublist.
  - apply (inv_put o s h r); [done..|]. exact (inv_room _ _ Hi h r Hh).
  - apply (inv_put_active o s h r); [done..|]. by rewrite <-list_fmap_compose.
  - by apply inv_held.
  - apply (inv_put o s h r); [done..|]. exact (inv_room _ _ Hi h r Hh).
  - by apply inv_spawn.
  - by apply inv_crash.
Qed.

Lemma inv_init o : inv o init.
Proof.
  split; simpl; [|done|done|done|by intros id ?%elem_of_nil|constructor].
  split; [constructor|]. by intros j k ?%elem_of_nil.
Qed.

Lemma reachable_inv o s : reachable o s → inv o s.
Proof. apply rtc_preserves; [apply step_inv|apply inv_init]. Qed.

(** ** Properties *)

(** C32: an instance has at most one job queued or running at a time, however many replicas and callers
    there are and whichever of them crash: two jobs of one instance that are active are one job. *)
Theorem one_job_per_instance o s (Hr : reachable o s) j k key :
  j ∈ jobs s → k ∈ jobs s → j_instanceKey j = Some key → j_instanceKey k = Some key →
  is_active (j_state j) = true → is_active (j_state k) = true → j = k.
Proof.
  intros Hj Hk Hjk Hkk Ha Hb. pose proof (inv_table _ _ (reachable_inv o s Hr)) as [Hi Hkeys].
  apply (id_unique (jobs s)); [done..|]. apply Hkeys; [done..|]. repeat split; eauto.
Qed.

(** C2: no job is ever started twice: every launch is of another job, a job that was launched is never
    queued again, and at any time at most one replica has a job in hand, once. The worker's lease is
    not needed for that, nor are synchronous clocks. *)
Theorem job_runs_once o s (Hr : reachable o s) :
  NoDup (launched s)
  ∧ (∀ id, id ∈ launched s → ∃ j, j ∈ jobs s ∧ j_id j = id ∧ j_state j ≠ Queued)
  ∧ ∀ h h' r r' i i' a a', replicas s !! h = Some r → replicas s !! h' = Some r' →
      r_active r !! i = Some a → r_active r' !! i' = Some a' → a_id a = a_id a' → h = h' ∧ i = i'.
Proof.
  pose proof (reachable_inv o s Hr) as Hi. split; [apply Hi|]. split; [apply Hi|].
  intros h h' r r' i i' a a' Hh Hh' Ha Ha' Heq.
  destruct (inv_active _ _ Hi h r a Hh) as (j & Hj & Hji & _ & Hjh); [by eapply list_elem_of_lookup_2|].
  destruct (inv_active _ _ Hi h' r' a' Hh') as (k & Hk & Hki & _ & Hkh); [by eapply list_elem_of_lookup_2|].
  assert (j = k) as -> by (apply (id_unique (jobs s)); [apply Hi|done|done|congruence]).
  assert (h = h') as <- by congruence. split; [done|]. simplify_eq.
  eapply (NoDup_lookup (a_id <$> r_active r)); [by eapply (inv_nodup _ _ Hi)| |];
    rewrite list_lookup_fmap, ?Ha, ?Ha'; simpl; [done|by rewrite Heq].
Qed.

(** A replica never runs more jobs at once than its concurrency. *)
Theorem concurrency_bound o s (Hr : reachable o s) h r :
  replicas s !! h = Some r → (length (r_active r) <= concurrency o)%nat.
Proof. intros Hh. pose proof (inv_room _ _ (reachable_inv o s Hr) h r Hh). lia. Qed.

(** The lease excludes: once a holder has taken it, nobody else takes it until it expires, its
    holder renews it at any time, and a release by another leaves it in place. *)
Theorem lease_exclusive ls name h ttl now ls' :
  acquireLease ls name h ttl now = (ls', true) →
  (∀ h' ttl' now', h' ≠ h → now' <= now + Z.max 1 ttl → acquireLease ls' name h' ttl' now' = (ls', false))
  ∧ (∀ ttl' now', (acquireLease ls' name h ttl' now').2 = true)
  ∧ (∀ h', h' ≠ h → releaseLease ls' name h' = ls')
  ∧ releaseLease ls' name h !! name = None.
Proof.
  intros Hacq.
  assert (ls' !! name = Some (h, now + Z.max 1 ttl)) as Hl.
  { unfold acquireLease in Hacq. destruct (ls !! name) as [[h0 e]|]; [destruct (_ || _)|];
      simplify_eq; apply lookup_insert_eq. }
  unfold acquireLease, releaseLease. rewrite Hl. repeat split.
  - intros h' ttl' now' Hne Hnow. rewrite bool_decide_eq_false_2 by done.
    by assert ((now + Z.max 1 ttl <? now') = false) as -> by lia.
  - intros. by rewrite bool_decide_eq_true_2.
  - intros h' Hne. by rewrite bool_decide_eq_false_2.
  - rewrite bool_decide_eq_true_2 by done. apply lookup_delete_eq.
Qed.

(** A crashed worker does not block an instance for another: a pass of another holder fails the
    job whose heartbeat is older than the limit, and its instance takes a new job at once. *)
Theorem stale_job_frees_instance tbl h limit now j key id now' n :
  wf_table tbl → j ∈ tbl → is_stale h (now - limit) j = true → j_instanceKey j = Some key →
  n_instanceKey n = Some key →
  ∃ tbl' row, enqueueJob (fail_stale tbl h limit now) id now' n = Ok (tbl', row).
Proof.
  intros [Hi Hk] Hj Hs Hjk Hn. unfold enqueueJob. rewrite Hn.
  enough (busy (fail_stale tbl h limit now) (Some key) = false) as -> by eauto.
  unfold busy. apply some_false. intros k (k' & Hk' & ->)%elem_of_update.
  destruct (is_stale h (now - limit) k') eqn:E; simpl; [by rewrite andb_false_r|].
  case_bool_decide as Hkk; [|done]. simpl. destruct (is_active (j_state k')) eqn:Ea; [|done].
  assert (j = k') as ->; [|congruence].
  apply (id_unique tbl); [done..|]. apply Hk; [done..|]. repeat split; [|done|eauto].
  unfold is_stale in Hs. bool_prop. by destruct (j_state j).
Qed.

(** ** A job nobody runs

    Holders are named [hostname/pid] (main.ts); in a container restarted in
    place the name comes back, and its passes take the rows of the crashed
    process for their own. *)

(** [id]'s row says [h] runs it, and no replica named [h] does. *)
Definition orphan (h id : string) (s : Sys) : Prop :=
  (∃ j, j ∈ jobs s ∧ j_id j = id ∧ j_state j = Running ∧ j_holder j = Some h)
  ∧ ∀ r a, replicas s !! h = Some r → a ∈ r_active r → a_id a ≠ id.

(** Steps while every replica there is goes by the name [h]. *)
Definition step_alone (o : Options) (h : string) (s s' : Sys) : Prop :=
  step o s s' ∧ ∀ h', is_Some (replicas s' !! h') → h' = h.

Lemma orphan_update tbl p c h id :
  (∃ j, j ∈ tbl ∧ j_id j = id ∧ j_state j = Running ∧ j_holder j = Some h) →
  (∀ j, j ∈ tbl → j_id j = id → j_state j = Running → j_holder j = Some h → p j = true →
     c_state c = None ∧ c_holder c = None) →
  ∃ j, j ∈ update tbl p c ∧ j_id j = id ∧ j_state j = Running ∧ j_holder j = Some h.
Proof.
  intros (j & Hj & Hid & Hs & Hh) Hp. exists (if p j then changed c j else j).
  split; [apply elem_of_update; eauto|]. destruct (p j) eqn:E; [|done].
  destruct (Hp j Hj Hid Hs Hh E) as [Hcs Hch]. simpl. by rewrite Hcs, Hch.
Qed.

Lemma orphan_put h id s h' r' :
  orphan h id s → (h' = h → ∀ a, a ∈ r_active r' → a_id a ≠ id) → orphan h id (put s h' r').
Proof.
  intros [Hj Ha] Hr. split; [done|]. intros r a. simpl.
  destruct (decide (h' = h)) as [->|Hne].
  - rewrite lookup_insert_eq. intros [= <-]. by apply Hr.
  - rewrite lookup_insert_ne by done. apply Ha.
Qed.

Lemma orphan_jobs h id s tbl :
  orphan h id s →
  (∃ j, j ∈ tbl ∧ j_id j = id ∧ j_state j = Running ∧ j_holder j = Some h) → orphan h id (set_jobs s tbl).
Proof. intros [_ Ha] Hj. by split. Qed.

Lemma elem_of_on_active id f l a :
  (∀ b, a_id (f b) = a_id b) → a ∈ on_active id f l → ∃ b, b ∈ l ∧ a_id b = a_id a.
Proof.
  intros Hf Hin. assert (a_id a ∈ a_id <$> on_active id f l) as Hm by (by apply list_elem_of_fmap_2).
  rewrite on_active_ids in Hm by done. apply list_elem_of_fmap in Hm as (b & ? & ?). eauto.
Qed.

Lemma orphan_step o h id s s' : inv o s → orphan h id s → step_alone o h s s' → orphan h id s'.
Proof.
  intros Hi Ho [Hst Hal]. pose proof Ho as [Hj Ha].
  destruct Hst as
    [id0 now j tbl row Hid He|id0 now tbl row Hc|h0 r now Hh Hp|h0 r now Hh Hp|h0 r j Hh Hp Hm Hjo Hold|h0 r Hh Hp Hm
    |h0 r id0 now Hh Hp|h0 r a p Hh Hact Hd|h0 r a now Hh Hact|h0 r a out now Hh Hact Hd|h0 r a Hh Hact Hd|h0 r Hh|h0 r Hh Hs Hp
    |h0 r Hh Hs Hp He|h0 r Hh Hp|h0 Hh|h0 r Hh].
  - apply elem_of_enqueue in He as (-> & _). apply orphan_jobs; [done|].
    destruct Hj as (k & Hk & Hrest). exists k. split; [by apply elem_of_app; left|done].
  - apply orphan_jobs; [done|]. unfold cancel in Hc.
    destruct (returning _ _ _); [|destruct (returning _ _ _); [|done]]; injection Hc as <- _; (apply orphan_update; [done|]).
    + intros k _ _ Hs _ [_ Hq]%queued_id_spec. congruence.
    + by split.
  - unfold tick_acquire. destruct (acquireLease _ _ _ _ _) as [ls ok].
    apply orphan_put; [by split|]. intros -> a Hin. exact (Ha r a Hh Hin).
  - assert (h0 = h) as -> by (apply Hal; simpl; rewrite lookup_insert_eq; eauto).
    apply orphan_put; [|intros _ a Hin; exact (Ha r a Hh Hin)].
    apply orphan_jobs; [done|]. apply orphan_update; [done|]. intros k _ _ _ Hkh Hst'. unfold is_stale in Hst'.
    rewrite Hkh, (bool_decide_eq_true_2 (h = h)) in Hst' by done. simpl in Hst'. by rewrite andb_false_r in Hst'.
  - apply orphan_put; [done|]. intros -> a Hin. exact (Ha r a Hh Hin).
  - apply orphan_put; [done|]. intros -> a Hin. exact (Ha r a Hh Hin).
  - unfold tick_claim, claim. destruct (returning _ _ _) as [k|] eqn:E.
    + apply returning_some in E as (k' & Hk' & [Hid Hq]%queued_id_spec & ->).
      apply orphan_put.
      * split; [|done]. simpl. apply orphan_update; [done|]. intros k _ _ Hs _ [_ ?]%queued_id_spec. congruence.
      * intros -> a. simpl. intros [Hin|Hin]%elem_of_app; [by eapply Ha|].
        apply list_elem_of_singleton in Hin as ->. simpl. intros Heq.
        destruct Hj as (k & Hk & Hkid & Hks & _).
        assert (k = k') as -> by (apply (id_unique (jobs s)); [apply Hi|done|done|congruence]). congruence.
    + apply orphan_put; [|intros -> a Hin; exact (Ha r a Hh Hin)].
      apply orphan_jobs; [done|]. apply orphan_update; [done|]. intros k _ _ Hs _ [_ ?]%queued_id_spec. congruence.
  - apply orphan_jobs; [done|]. apply orphan_update; [done|]. done.
  - apply orphan_put.
    + apply orphan_jobs; [done|]. by apply orphan_update.
    + intros -> b. simpl. case_match; [|intros Hin; exact (Ha r b Hh Hin)].
      intros (b' & Hb & <-)%elem_of_on_active; [|done]. by apply (Ha r).
  - apply orphan_put.
    + apply orphan_jobs; [done|]. apply orphan_update; [done|]. intros k Hk Hkid _ Hkh Hw%with_id_spec. exfalso.
      assert (h0 = h) as -> by (apply Hal; simpl; rewrite lookup_insert_eq; eauto).
      apply (Ha r a Hh Hact). congruence.
    + intros -> b. simpl. intros (b' & Hb & <-)%elem_of_on_active; [|done]. by apply (Ha r).
  - apply orphan_put; [done|]. intros -> b. simpl. intros [Hb _]%elem_of_js_filter. by eapply Ha.
  - apply orphan_put; [done|]. intros -> a Hin. exact (Ha r a Hh Hin).
  - apply orphan_put; [done|]. intros -> a. simpl. intros (b & -> & Hb)%list_elem_of_fmap. by apply (Ha r b).
  - by split.
  - apply orphan_put; [done|]. intros -> a Hin. exact (Ha r a Hh Hin).
  - apply orphan_put; [done|]. intros -> a Hin. by apply elem_of_nil in Hin.
  - split; [done|]. intros r' a Hr Hin. simpl in Hr. apply lookup_delete_Some in Hr as [_ Hr']. exact (Ha r' a Hr' Hin).
Qed.

(** A job whose worker crashed is never ended when the worker comes back under the same name and is
    the only one: whatever passes it makes and whatever callers do, cancelling included, the job stays
    running, and its instance takes no other job. *)
Theorem orphan_never_ends o h id s s' key (Hr : reachable o s) :
  orphan h id s → rtc (step_alone o h) s s' →
  (∀ j, j ∈ jobs s' → j_id j = id → j_instanceKey j = Some key) →
  (∃ j, j ∈ jobs s' ∧ j_id j = id ∧ j_state j = Running)
  ∧ ∀ id' now n, n_instanceKey n = Some key → is_ok (enqueueJob (jobs s') id' now n) = false.
Proof.
  intros Ho Hsteps Hkey.
  assert (inv o s' ∧ orphan h id s') as [Hi [(j & Hj & Hid & Hs & Hh) _]].
  { apply (rtc_preserves (step_alone o h) (λ s, inv o s ∧ orphan h id s) s s'); [|by split; [apply reachable_inv|]|done].
    intros x y [Hx Hox] Hst. split; [by eapply step_inv; [|apply Hst]|by eapply orphan_step]. }
  split; [eauto|]. intros id' now n Hn. unfold enqueueJob. rewrite Hn.
  assert (busy (jobs s') (Some key) = true) as ->; [|done].
  unfold busy. apply some_spec. exists j. split; [done|].
  by rewrite bool_decide_eq_true_2, Hs by (by apply Hkey).
Qed.

(** ** A concrete run: a job is queued, claimed, and its worker crashes and comes back *)

Definition demo_options : Options :=
  {| handlers := ["lease"]; concurrency := 2; leaseMs := 60000; heartbeatMs := None |}.
Definition demo_new : NewJob :=
  {| n_type := "lease"; n_payload := []; n_actorType := "system"; n_actorId := "leases"; n_tenantId := None;
     n_clusterIds := ["c1"]; n_instanceKey := Some "c1/web/app" |}.
Definition demo_queued : table :=
  match enqueueJob [] "job-1" 1000 demo_new with Ok (tbl, _) => tbl | Throw _ => [] end.
Definition demo_running : table := (claim demo_queued "job-1" "pod/1" 2000).1.
Definition demo_entry : Active := {| a_id := "job-1"; a_type := "lease"; a_abort := false; a_done := false |}.
Definition demo_held : leases := <["jobs" := ("pod/1", 61500)]> ∅.
Definition demo_busy : Sys :=
  {| jobs := demo_running; held := demo_held;
     replicas := <["pod/1" := {| r_active := [demo_entry]; r_stopped := false; r_pass := Taking |}]> ∅;
     launched := ["job-1"] |}.
Definition demo_back : Sys :=
  {| jobs := demo_running; held := demo_held; replicas := <["pod/1" := fresh]> ∅; launched := ["job-1"] |}.

Lemma reach_step o s t u : reachable o s → step o s t → t = u → reachable o u.
Proof. intros Hs Hst <-. by eapply rtc_r. Qed.

Definition demo_world (tbl : table) (ls : leases) (p : Pass) : Sys :=
  {| jobs := tbl; held := ls; replicas := <["pod/1" := at_pass fresh p]> ∅; launched := [] |}.

Lemma demo_chosen : reachable demo_options (demo_world demo_queued demo_held (Chose "job-1")).
Proof.
  assert (reachable demo_options (demo_world [] ∅ Idle)) as H1.
  { eapply reach_step; [apply rtc_refl|by apply (s_spawn _ _ "pod/1")|reflexivity]. }
  assert (reachable demo_options (demo_world demo_queued ∅ Idle)) as H2.
  { eapply reach_step; [exact H1|eapply (s_enqueue _ _ "job-1" 1000 demo_new); [apply not_elem_of_nil|reflexivity]|reflexivity]. }
  assert (reachable demo_options (demo_world demo_queued demo_held Acquired)) as H3.
  { eapply reach_step; [exact H2|apply (s_acquire _ _ "pod/1" (at_pass fresh Idle) 1500); [apply lookup_insert_eq|done]|].
    vm_compute. reflexivity. }
  assert (reachable demo_options (demo_world demo_queued demo_held Taking)) as H4.
  { eapply reach_step; [exact H3|apply (s_fail_stale _ _ "pod/1" (at_pass fresh Acquired) 1600); [apply lookup_insert_eq|done]|].
    vm_compute. reflexivity. }
  eapply reach_step; [exact H4| |].
  - eapply (s_choose _ _ "pod/1" (at_pass fresh Taking)); [apply lookup_insert_eq|done|done|by left|vm_compute; reflexivity].
  - vm_compute. reflexivity.
Qed.

Lemma demo_busy_reachable : reachable demo_options demo_busy.
Proof.
  eapply reach_step; [exact demo_chosen|apply (s_claim _ _ "pod/1" (at_pass fresh (Chose "job-1")) "job-1" 2000)|].
  - apply lookup_insert_eq.
  - done.
  - vm_compute. reflexivity.
Qed.

Lemma demo_back_reachable : reachable demo_options demo_back.
Proof.
  assert (reachable demo_options {| jobs := demo_running; held := demo_held; replicas := ∅; launched := ["job-1"] |}) as Hc.
  { eapply reach_step; [exact demo_busy_reachable|eapply (s_crash _ _ "pod/1"); apply lookup_insert_eq|].
    vm_compute. reflexivity. }
  eapply reach_step; [exact Hc|by apply (s_spawn _ _ "pod/1")|reflexivity].
Qed.

Definition demo_job : Job := default (changed no_change
  {| j_id := EmptyString; j_type := EmptyString; j_state := Queued;
     j_progress := {| stage := EmptyString; percent := None; progress_message := None |}; j_payload := [];
     j_result := None; j_error := EmptyString; j_tenantId := None; j_clusterIds := []; j_instanceKey := None;
     j_actorType := EmptyString; j_actorId := EmptyString; j_cancelRequested := false; j_holder := None;
     j_heartbeatAt := None; j_createdAt := 0; j_startedAt := None; j_finishedAt := None |}) (head demo_running).

Lemma one_job_per_instance_witness : is_active (j_state demo_job) = true ∧ demo_job = demo_job.
Proof.
  split; [reflexivity|].
  apply (one_job_per_instance demo_options demo_busy demo_busy_reachable demo_job demo_job "c1/web/app");
    try reflexivity; left.
Defined.

Lemma job_runs_once_witness : NoDup (launched demo_busy).
Proof. exact (proj1 (job_runs_once demo_options demo_busy demo_busy_reachable)). Defined.

Lemma concurrency_bound_witness : (length [demo_entry] <= concurrency demo_options)%nat.
Proof.
  apply (concurrency_bound demo_options demo_busy demo_busy_reachable "pod/1"
           {| r_active := [demo_entry]; r_stopped := false; r_pass := Taking |}).
  reflexivity.
Defined.

Lemma lease_exclusive_witness :
  acquireLease ∅ "jobs" "pod/1" 60000 1500 = (demo_held, true)
  ∧ acquireLease demo_held "jobs" "pod/2" 60000 61000 = (demo_held, false).
Proof.
  assert (acquireLease ∅ "jobs" "pod/1" 60000 1500 = (demo_held, true)) as Ha by (vm_compute; reflexivity).
  split; [exact Ha|].
  apply (lease_exclusive ∅ "jobs" "pod/1" 60000 1500 demo_held Ha); [discriminate|lia].
Defined.

Lemma stale_job_frees_instance_witness :
  ∃ tbl' row, enqueueJob (fail_stale demo_running "pod/2" 180000 200000) "job-2" 200001 demo_new = Ok (tbl', row).
Proof.
  apply (stale_job_frees_instance demo_running "pod/2" 180000 200000 demo_job "c1/web/app").
  - exact (inv_table _ _ (reachable_inv _ _ demo_busy_reachable)).
  - left.
  - vm_compute. reflexivity.
  - reflexivity.
  - reflexivity.
Defined.

Lemma demo_orphan : orphan "pod/1" "job-1" demo_back.
Proof.
  split.
  - exists demo_job. repeat split; [left|..]; reflexivity.
  - intros r a Hr Ha. simpl in Hr. rewrite lookup_insert_eq in Hr. injection Hr as <-. by apply elem_of_nil in Ha.
Qed.

Lemma orphan_never_ends_witness :
  is_ok (enqueueJob (jobs demo_back) "job-2" 1000000000 demo_new) = false.
Proof.
  apply (orphan_never_ends demo_options "pod/1" "job-1" demo_back demo_back "c1/web/app" demo_back_reachable demo_orphan).
  - apply rtc_refl.
  - intros j Hj _. apply elem_of_cons in Hj as [->|Hj]; [reflexivity|by apply elem_of_nil in Hj].
  - reflexivity.
Defined.
