(* ===== verification/Leases.v ===== *)
(** * Leases: instances with a time to live

    Models [leases/leases.ts] over the tables it reads and writes. The leases
    table is a map by instance key (its primary key); the inventory, the
    placements and the tenants are lists of rows. Times are milliseconds. The
    cluster a lease job acts on is behind an interface. *)

From S2P Require Import Prelude JsString Effects Jobs.
Open Scope Z_scope.

Definition InstanceKey : Type := string * string * string.  (** cluster id, project, name *)
Definition clusterId (k : InstanceKey) : string := k.1.1.
Definition project (k : InstanceKey) : string := k.1.2.
Definition name (k : InstanceKey) : string := k.2.

Record Lease := {
  tenantId : string; expiresAt : option Z; extensions : Z; actedAt : option Z; createdAt : Z;
}.

Inductive LeaseAction := Stop | Delete.
Global Instance LeaseAction_eq_dec : EqDecision LeaseAction.
Proof. solve_decision. Defined.
Definition show_action (a : LeaseAction) : string := match a with Stop => "stop" | Delete => "delete" end.
Record LeasePolicy := { days : Z; action : LeaseAction; extendDays : Z; maxExtensions : Z }.

Definition DAY_MS : Z := 86400000.

Abbreviation table := (gmap InstanceKey Lease).
Record Placement := { pl_clusterId : string; pl_project : string; pl_tenantId : string }.
Record Tenant := { t_id : string; t_leasePolicy : option LeasePolicy }.
Record InstanceRow := { i_key : InstanceKey; i_status : string; i_seenAt : Z }.

Definition leaseOf (t : table) (k : InstanceKey) : option Lease := t !! k.

(** [None] where the primary key is taken. *)
Definition renameLease (t : table) (from to : InstanceKey) : option table :=
  match t !! from with
  | None => Some t
  | Some l =>
      if bool_decide (from = to) then Some t
      else match t !! to with
           | Some _ => None
           | None => Some (<[to := l]> (delete from t))
           end
  end.

Definition forgetLease (t : table) (k : InstanceKey) : table := delete k t.

Definition placement_of (ps : list Placement) (k : InstanceKey) : option string :=
  pl_tenantId <$> js_find (λ p, bool_decide (pl_clusterId p = clusterId k) && bool_decide (pl_project p = project k)) ps.

Definition putLease (ps : list Placement) (t : table) (to : InstanceKey) (l : Lease) : table :=
  if bool_decide (placement_of ps to = Some (tenantId l)) then <[to := l]> (delete to t) else t.

Record LeaseView := {
  v_expiresAt : option Z; v_extensions : Z; v_maxExtensions : Z; v_extendDays : Z;
  v_action : LeaseAction; v_actedAt : option Z;
}.
Definition leaseView (l : option Lease) (p : option LeasePolicy) : option LeaseView :=
  match l, p with
  | Some l, Some p =>
      Some {| v_expiresAt := expiresAt l; v_extensions := extensions l; v_maxExtensions := maxExtensions p;
              v_extendDays := extendDays p; v_action := action p; v_actedAt := actedAt l |}
  | _, _ => None
  end.

(** ** Extending: a read, and a write that holds only if the lease is as it was read *)

Definition extend_check (l : option Lease) (p : LeasePolicy) : result (Lease * Z) :=
  match l with
  | None => throw 404 "not_found" "This instance has no lease"
  | Some l =>
      match expiresAt l with
      | None => throw 409 "conflict" "This instance's lease never ends"
      | Some e =>
          if maxExtensions p <=? extensions l then
            throw 409 "conflict" ("No extensions left: the tenant allows "
              +++ (if maxExtensions p =? 1 then "one" else show_Z (maxExtensions p)))
          else Ok (l, e)
      end
  end.

Definition extended (l : Lease) (e now : Z) (p : LeasePolicy) : Lease :=
  {| tenantId := tenantId l; expiresAt := Some (Z.max now e + extendDays p * DAY_MS);
     extensions := extensions l + 1; actedAt := None; createdAt := createdAt l |}.

(** The write: [where extensions = lease.extensions]. The row's other columns are the row's own. *)
Definition extend_write (t : table) (k : InstanceKey) (read : Lease) (e now : Z) (p : LeasePolicy)
    : result (table * Lease) :=
  match t !! k with
  | Some l =>
      if extensions l =? extensions read then
        let r := {| tenantId := tenantId l; expiresAt := expiresAt (extended read e now p);
                    extensions := extensions read + 1; actedAt := None; createdAt := createdAt l |} in
        Ok (<[k := r]> t, r)
      else throw 409 "conflict" "The lease changed meanwhile; try again"
  | None => throw 409 "conflict" "The lease changed meanwhile; try again"
  end.

(** With nothing in between. *)
Definition extendLease (t : table) (k : InstanceKey) (p : LeasePolicy) (now : Z) : result (table * Lease) :=
  read ← extend_check (leaseOf t k) p;
  extend_write t k read.1 read.2 now p.

Definition setLease (t : table) (k : InstanceKey) (tenant : string) (e : option Z) (now : Z) : table * Lease :=
  let r := match t !! k with
           | None => {| tenantId := tenant; expiresAt := e; extensions := 0; actedAt := None; createdAt := now |}
           | Some l => {| tenantId := tenant; expiresAt := e; extensions := extensions l; actedAt := None;
                          createdAt := createdAt l |}
           end in
  (<[k := r]> t, r).

(** ** The scheduler *)

Definition policy_of (ts : list Tenant) (id : string) : option LeasePolicy :=
  js_find (λ t, bool_decide (t_id t = id)) ts ≫= t_leasePolicy.

(** Instances of tenants with a policy that have no lease yet. *)
Definition unleased (rows : list InstanceRow) (ps : list Placement) (ts : list Tenant) (t : table)
    : list (InstanceKey * string * LeasePolicy) :=
  rows ≫= λ i,
    match placement_of ps (i_key i) with
    | Some tenant =>
        match policy_of ts tenant, t !! i_key i with
        | Some p, None => [(i_key i, tenant, p)]
        | _, _ => []
        end
    | None => []
    end.

(** [insert … on conflict do nothing] *)
Definition hand_out (now : Z) (t : table) (u : InstanceKey * string * LeasePolicy) : table :=
  let '(k, tenant, p) := u in
  match t !! k with
  | Some _ => t
  | None => <[k := {| tenantId := tenant; expiresAt := Some (now + days p * DAY_MS); extensions := 0;
                      actedAt := None; createdAt := now |}]> t
  end.

Record Ended := { e_key : InstanceKey; e_tenantId : string; e_action : LeaseAction; e_status : string }.

Definition has_ended (now : Z) (l : Lease) (i : InstanceRow) : bool :=
  match expiresAt l with Some e => e <? now | None => false end
  && match actedAt l with None => true | Some a => a <? i_seenAt i end.

(** Leases that ended and whose action is still to take. *)
Definition ended (now : Z) (rows : list InstanceRow) (ts : list Tenant) (t : table) : list Ended :=
  rows ≫= λ i,
    match t !! i_key i with
    | Some l =>
        match policy_of ts (tenantId l) with
        | Some p => if has_ended now l i
                    then [{| e_key := i_key i; e_tenantId := tenantId l; e_action := action p; e_status := i_status i |}]
                    else []
        | None => []
        end
    | None => []
    end.

Definition instanceKey (k : InstanceKey) : string := clusterId k +++ "/" +++ project k +++ "/" +++ name k.

Definition lease_job (e : Ended) : NewJob :=
  {| n_type := "lease";
     n_payload := [("clusterId", JStr (clusterId (e_key e))); ("project", JStr (project (e_key e)));
                   ("name", JStr (name (e_key e))); ("action", JStr (show_action (e_action e)))];
     n_actorType := "system"; n_actorId := "leases"; n_tenantId := Some (e_tenantId e);
     n_clusterIds := [clusterId (e_key e)]; n_instanceKey := Some (instanceKey (e_key e)) |}.

Definition acted (now : Z) (l : Lease) : Lease :=
  {| tenantId := tenantId l; expiresAt := expiresAt l; extensions := extensions l;
     actedAt := Some now; createdAt := createdAt l |}.

(** One ended lease; a job that is refused (409) is left for another pass. [ids] makes the jobs' ids. *)
Definition act_on (ids : nat → string) (now : Z) (s : table * Jobs.table) (e : Ended) : table * Jobs.table :=
  if bool_decide (e_action e = Stop) && negb (bool_decide (e_status e = "Running")) then s
  else
    match enqueueJob s.2 (ids (length s.2)) now (lease_job e) with
    | Ok (tbl, _) => (alter (acted now) (e_key e) s.1, tbl)
    | Throw _ => s
    end.

Definition scheduleLeases (ids : nat → string) (now : Z) (rows : list InstanceRow) (ps : list Placement)
    (ts : list Tenant) (s : table * Jobs.table) : table * Jobs.table :=
  let t := foldl (hand_out now) s.1 (unleased rows ps ts s.1) in
  foldl (act_on ids now) (t, s.2) (ended now rows ts t).

(** ** The job *)

Inductive HandlerResult :=
  | Skipped (why : string)
  | Done (a : LeaseAction) (expired : Z).

Section handler.
(** The cluster: reading an instance's status, stopping and deleting it. *)
Context {W : Type}.
Context (readInstance : W → InstanceKey → result (option string)).
Context (stopInstance deleteInstance : W → InstanceKey → result W).

Definition leaseHandler (t : table) (w : W) (k : InstanceKey) (a : LeaseAction) (now : Z)
    : result (table * W * HandlerResult) :=
  let skipped := Ok (t, w, Skipped "the lease was extended or removed") in
  match leaseOf t k with
  | None => skipped
  | Some l =>
      match expiresAt l with
      | None => skipped
      | Some e =>
          if now <? e then skipped
          else
            inst ← readInstance w k;
            match inst with
            | None => Ok (forgetLease t k, w, Skipped "the instance is gone")
            | Some status =>
                w ← (if bool_decide (status = "Running") then stopInstance w k else Ok w);
                match a with
                | Delete => w ← deleteInstance w k; Ok (forgetLease t k, w, Done a e)
                | Stop => Ok (alter (acted now) k t, w, Done a e)
                end
            end
      end
  end.
End handler.

Definition dropTenantLeases (t : table) (tenant : string) : table :=
  filter (λ kl, tenantId kl.2 ≠ tenant) t.

(** A tenant's leases, soonest end first, never-ending ones last. *)
Definition ends_before (a b : InstanceKey * Lease) : comparison :=
  match expiresAt a.2, expiresAt b.2 with
  | Some x, Some y => Z.compare x y
  | Some _, None => Lt
  | None, Some _ => Gt
  | None, None => Eq
  end.
Definition tenantLeases (t : table) (tenant : string) : list (InstanceKey * Lease) :=
  js_sort (λ a b, cmp_then (ends_before a b) (String.compare (name a.1) (name b.1)))
    (js_filter (λ kl, bool_decide (tenantId kl.2 = tenant)) (map_to_list t)).

(** ** Lemmas *)

Lemma elem_of_unleased rows ps ts t k tenant p :
  (k, tenant, p) ∈ unleased rows ps ts t ↔
  ∃ i, i ∈ rows ∧ i_key i = k ∧ placement_of ps k = Some tenant ∧ policy_of ts tenant = Some p ∧ t !! k = None.
Proof.
  unfold unleased. rewrite list_elem_of_bind. split.
  - intros (i & Hin & Hi). exists i. split; [done|].
    destruct (placement_of ps (i_key i)) as [tn|] eqn:E1; [|by apply elem_of_nil in Hin].
    destruct (policy_of ts tn) as [p'|] eqn:E2; [|by apply elem_of_nil in Hin].
    destruct (t !! i_key i) eqn:E3; [by apply elem_of_nil in Hin|].
    apply list_elem_of_singleton in Hin. by simplify_eq.
  - intros (i & Hi & <- & H1 & H2 & H3). exists i. rewrite H1, H2, H3. split; [by left|done].
Qed.

Lemma hand_out_lookup now t u k :
  hand_out now t u !! k =
    match t !! k with
    | Some l => Some l
    | None => if bool_decide (k = u.1.1)
              then Some {| tenantId := u.1.2; expiresAt := Some (now + days u.2 * DAY_MS); extensions := 0;
                           actedAt := None; createdAt := now |}
              else None
    end.
Proof.
  destruct u as [[k' tn] p]. unfold hand_out. simpl. destruct (t !! k') eqn:E.
  - destruct (t !! k) eqn:E'; [done|]. rewrite bool_decide_eq_false_2; [done|]. intros ->. congruence.
  - destruct (decide (k = k')) as [->|Hne]; [by rewrite lookup_insert_eq, E, bool_decide_eq_true_2|].
    rewrite lookup_insert_ne by done. rewrite bool_decide_eq_false_2 by done. by destruct (t !! k).
Qed.

Lemma hand_out_all_keeps now us t k l : t !! k = Some l → foldl (hand_out now) t us !! k = Some l.
Proof.
  intros Hl. apply (foldl_inv (λ t, t !! k = Some l)); [done|]. intros t' u _ Ht. by rewrite hand_out_lookup, Ht.
Qed.

Lemma hand_out_all_new now us t k :
  t !! k = None →
  match foldl (hand_out now) t us !! k with
  | Some l => ∃ u, u ∈ us ∧ u.1.1 = k ∧ tenantId l = u.1.2 ∧ expiresAt l = Some (now + days u.2 * DAY_MS)
                ∧ extensions l = 0 ∧ actedAt l = None
  | None => ∀ u, u ∈ us → u.1.1 ≠ k
  end.
Proof.
  revert t. induction us as [|u us IH]; intros t Ht; simpl; [rewrite Ht; by intros u ?%elem_of_nil|].
  destruct (decide (k = u.1.1)) as [Heq|Hne].
  - rewrite (hand_out_all_keeps now us _ k {| tenantId := u.1.2; expiresAt := Some (now + days u.2 * DAY_MS);
      extensions := 0; actedAt := None; createdAt := now |}).
    + exists u. repeat split; try done. by left.
    + by rewrite hand_out_lookup, Ht, bool_decide_eq_true_2.
  - specialize (IH (hand_out now t u)). rewrite hand_out_lookup, Ht, bool_decide_eq_false_2 in IH by done.
    specialize (IH eq_refl). destruct (foldl _ _ us !! k).
    + destruct IH as (v & Hv & Hrest). exists v. split; [by right|done].
    + intros v [->|Hv]%elem_of_cons; [congruence|by apply IH].
Qed.

Lemma elem_of_ended now rows ts t e :
  e ∈ ended now rows ts t ↔
  ∃ i l p, i ∈ rows ∧ t !! i_key i = Some l ∧ policy_of ts (tenantId l) = Some p ∧ has_ended now l i = true
    ∧ e = {| e_key := i_key i; e_tenantId := tenantId l; e_action := action p; e_status := i_status i |}.
Proof.
  unfold ended. rewrite list_elem_of_bind. split.
  - intros (i & Hin & Hi). exists i.
    destruct (t !! i_key i) as [l|]; [|by apply elem_of_nil in Hin].
    destruct (policy_of ts (tenantId l)) as [p|] eqn:Ep; [|by apply elem_of_nil in Hin].
    destruct (has_ended now l i) eqn:Eh; [|by apply elem_of_nil in Hin].
    apply list_elem_of_singleton in Hin. by exists l, p.
  - intros (i & l & p & Hi & Hl & Hp & He & ->). exists i. rewrite Hl, Hp, He. split; [by left|done].
Qed.

(** Acting changes nothing of a lease but when it was acted on, and jobs are only added. *)
Definition same_but_acted (a b : option Lease) : Prop :=
  match a, b with
  | Some l, Some l' => tenantId l' = tenantId l ∧ expiresAt l' = expiresAt l ∧ extensions l' = extensions l
                       ∧ createdAt l' = createdAt l
  | None, None => True
  | _, _ => False
  end.
Global Instance same_but_acted_refl : Reflexive same_but_acted.
Proof. by intros [l|]. Qed.
Global Instance same_but_acted_trans : Transitive same_but_acted.
Proof. intros [a|] [b|] [c|]; simpl; try done. intros (-> & -> & -> & ->). done. Qed.

Lemma act_on_spec ids now s e :
  act_on ids now s e = s ∨
  ∃ tbl row, act_on ids now s e = (alter (acted now) (e_key e) s.1, tbl)
    ∧ enqueueJob s.2 (ids (length s.2)) now (lease_job e) = Ok (tbl, row)
    ∧ (e_action e = Stop → e_status e = "Running").
Proof.
  unfold act_on. destruct (_ && _) eqn:E; [by left|].
  destruct (enqueueJob _ _ _ _) as [[tbl row]|err] eqn:Ee; [|by left].
  right. exists tbl, row. split; [done|]. split; [done|]. intros Ha.
  rewrite bool_decide_eq_true_2 in E by done. simpl in E. apply negb_false_iff in E. by apply bool_decide_eq_true in E.
Qed.

Lemma act_on_same ids now s e k : same_but_acted (s.1 !! k) ((act_on ids now s e).1 !! k).
Proof.
  destruct (act_on_spec ids now s e) as [->|(tbl & row & -> & _)]; [done|]. simpl.
  destruct (decide (e_key e = k)) as [->|Hne].
  - rewrite lookup_alter_eq. by destruct (s.1 !! k).
  - by rewrite lookup_alter_ne.
Qed.

Lemma act_all_same ids now es s k : same_but_acted (s.1 !! k) ((foldl (act_on ids now) s es).1 !! k).
Proof.
  apply (foldl_inv (λ s', same_but_acted (s.1 !! k) (s'.1 !! k))); [done|].
  intros s' e _ Hs. etrans; [exact Hs|apply act_on_same].
Qed.

Lemma act_on_jobs ids now s e :
  ∃ new, (act_on ids now s e).2 = s.2 ++ new ∧
    ∀ j, j ∈ new → (e_action e = Stop → e_status e = "Running") ∧ j_instanceKey j = Some (instanceKey (e_key e))
                   ∧ j_type j = "lease" ∧ j_payload j = n_payload (lease_job e) ∧ j_tenantId j = Some (e_tenantId e).
Proof.
  destruct (act_on_spec ids now s e) as [->|(tbl & row & -> & He & Ha)].
  - exists []. split; [by rewrite app_nil_r|]. by intros j ?%elem_of_nil.
  - unfold enqueueJob in He. destruct (busy _ _); [done|]. injection He as <- <-.
    eexists. split; [reflexivity|]. intros j ->%list_elem_of_singleton. done.
Qed.

Lemma act_all_jobs ids now es s :
  ∃ new, (foldl (act_on ids now) s es).2 = s.2 ++ new ∧
    ∀ j, j ∈ new → ∃ e, e ∈ es ∧ (e_action e = Stop → e_status e = "Running")
                   ∧ j_instanceKey j = Some (instanceKey (e_key e))
                   ∧ j_type j = "lease" ∧ j_payload j = n_payload (lease_job e) ∧ j_tenantId j = Some (e_tenantId e).
Proof.
  revert s. induction es as [|e es IH]; intros s; simpl.
  - exists []. split; [by rewrite app_nil_r|]. by intros j ?%elem_of_nil.
  - destruct (act_on_jobs ids now s e) as (n1 & H1 & Hn1). destruct (IH (act_on ids now s e)) as (n2 & H2 & Hn2).
    exists (n1 ++ n2). rewrite H2, H1, (assoc_L (++)). split; [done|].
    intros j [Hj|Hj]%elem_of_app.
    + exists e. split; [by left|]. by apply Hn1.
    + destruct (Hn2 j Hj) as (e' & He' & Hrest). exists e'. split; [by right|done].
Qed.

(** ** Properties *)

(** After a pass of the scheduler every instance of a tenant with a policy has a lease; a new one is
    the tenant's, ends after the policy's days and has no extensions; and no pass changes whose a lease
    is, when it ends or how often it was extended, or drops one. *)
Theorem schedule_hands_out ids now rows ps ts s :
  let t' := (scheduleLeases ids now rows ps ts s).1 in
  (∀ i tenant p, i ∈ rows → placement_of ps (i_key i) = Some tenant → policy_of ts tenant = Some p →
     is_Some (t' !! i_key i))
  ∧ (∀ k l, s.1 !! k = Some l → same_but_acted (Some l) (t' !! k))
  ∧ (∀ k l, s.1 !! k = None → t' !! k = Some l → ∃ tenant p,
       placement_of ps k = Some tenant ∧ policy_of ts tenant = Some p ∧ tenantId l = tenant
       ∧ expiresAt l = Some (now + days p * DAY_MS) ∧ extensions l = 0).
Proof.
  unfold scheduleLeases. set (us := unleased rows ps ts s.1). set (t := foldl (hand_out now) s.1 us).
  set (t' := foldl (act_on ids now) (t, s.2) (ended now rows ts t)).
  assert (∀ k, same_but_acted (t !! k) (t'.1 !! k)) as Hsame.
  { intros k. exact (act_all_same ids now (ended now rows ts t) (t, s.2) k). }
  repeat split.
  - intros i tenant p Hi Hpl Hpo. specialize (Hsame (i_key i)).
    destruct (s.1 !! i_key i) as [l|] eqn:E.
    + unfold t in Hsame. rewrite (hand_out_all_keeps now us s.1 _ l E) in Hsame.
      destruct (t'.1 !! i_key i); [eauto|done].
    + pose proof (hand_out_all_new now us s.1 (i_key i) E) as Hnew. fold t in Hnew.
      destruct (t !! i_key i); [destruct (t'.1 !! i_key i); [eauto|done]|].
      exfalso. apply (Hnew (i_key i, tenant, p)); [|done].
      apply elem_of_unleased. eauto 8.
  - intros k l Hl. specialize (Hsame k). unfold t in Hsame. by rewrite (hand_out_all_keeps now us s.1 k l Hl) in Hsame.
  - intros k l Hn Hl. specialize (Hsame k). rewrite Hl in Hsame.
    pose proof (hand_out_all_new now us s.1 k Hn) as Hnew. fold t in Hnew.
    destruct (t !! k) as [l0|]; [|done]. destruct Hsame as (-> & -> & -> & _).
    destruct Hnew as ([[k' tn] p] & Hu & Hk & Ht & He & Hx & _). simpl in *. subst k'.
    apply elem_of_unleased in Hu as (i & _ & _ & Hpl & Hpo & _). eauto 8.
Qed.

(** The scheduler queues a job only where it should: for an instance of the inventory whose lease
    belongs to a tenant with a policy and has ended, and was not acted on since the inventory last saw
    the instance; a stop only for an instance that runs. Jobs already queued are left alone. *)
Theorem schedule_jobs_sound ids now rows ps ts s :
  ∃ new, (scheduleLeases ids now rows ps ts s).2 = s.2 ++ new ∧
    ∀ j, j ∈ new → ∃ i l p,
      i ∈ rows ∧ foldl (hand_out now) s.1 (unleased rows ps ts s.1) !! i_key i = Some l
      ∧ policy_of ts (tenantId l) = Some p ∧ j_instanceKey j = Some (instanceKey (i_key i))
      ∧ (∃ e, expiresAt l = Some e ∧ e < now)
      ∧ (∀ a, actedAt l = Some a → a < i_seenAt i)
      ∧ (action p = Stop → i_status i = "Running").
Proof.
  unfold scheduleLeases. set (t := foldl (hand_out now) s.1 _).
  destruct (act_all_jobs ids now (ended now rows ts t) (t, s.2)) as (new & Hnew & Hj).
  exists new. split; [exact Hnew|]. intros j Hin.
  destruct (Hj j Hin) as (e & He & Hst & Hk & _). apply elem_of_ended in He as (i & l & p & Hi & Hl & Hp & Hh & ->).
  exists i, l, p. repeat split; try done; unfold has_ended in Hh.
  - destruct (expiresAt l) as [x|]; [|done]. exists x. split; [done|]. apply andb_prop in Hh as [Hh _]. lia.
  - intros a Ha. rewrite Ha in Hh. apply andb_prop in Hh as [_ Hh]. lia.
Qed.

(** A lease job touches an instance only when its lease has ended by then: if the lease was removed,
    made endless or extended meanwhile, the cluster and the table stay as they are. When it acts, the
    lease it acted on is the only row that changes: gone after a delete, marked after a stop. *)
Theorem lease_job_guarded {W} (rd : W → InstanceKey → result (option string)) (st dl : W → InstanceKey → result W)
    t w k a now :
  let ended := ∃ l e, t !! k = Some l ∧ expiresAt l = Some e ∧ e ≤ now in
  match leaseHandler rd st dl t w k a now with
  | Ok (t', w', Done a' e) =>
      ended ∧ a' = a ∧ delete k t' = delete k t ∧
      match a with Delete => t' !! k = None | Stop => actedAt <$> t' !! k = Some (Some now) end
  | Ok (t', w', Skipped _) => w' = w ∧ (t' = t ∨ (ended ∧ t' = delete k t ∧ rd w k = Ok None))
  | Throw _ => ended
  end.
Proof.
  unfold leaseHandler, leaseOf, forgetLease.
  destruct (t !! k) as [l|] eqn:El; [|auto]. destruct (expiresAt l) as [e|] eqn:Ee; [|auto].
  destruct (Z.ltb_spec now e) as [Hlt|Hge]; [auto|].
  assert (∃ l0 e0, Some l = Some l0 ∧ expiresAt l0 = Some e0 ∧ e0 ≤ now) as Hend by eauto.
  destruct (rd w k) as [[status|]|err] eqn:Er; simpl; [| |done].
  - destruct (if bool_decide (status = "Running") then st w k else Ok w) as [w1|err]; simpl; [|done].
    destruct a; simpl.
    + split; [done|]. split; [done|]. split.
      * apply map_eq. intros i. destruct (decide (i = k)) as [->|Hne]; [by rewrite !lookup_delete_eq|].
        rewrite !lookup_delete_ne by done. by rewrite lookup_alter_ne.
      * by rewrite lookup_alter_eq, El.
    + destruct (dl w1 k) as [w2|err]; simpl; [|done].
      split; [done|]. split; [done|]. split; [|apply lookup_delete_eq].
      apply map_eq. intros i. destruct (decide (i = k)) as [->|Hne]; [by rewrite !lookup_delete_eq|].
      by rewrite !lookup_delete_ne.
  - split; [done|]. right. done.
Qed.

(** An extension is granted only while the policy has some left, and then uses one, moves the end
    the policy's days past the later of now and the end it had, and clears what was done; of two
    extensions that read the lease in the same state only one is written. *)
Theorem extension_bounded t k p now t' l :
  extendLease t k p now = Ok (t', l) →
  (∃ old e, t !! k = Some old ∧ expiresAt old = Some e ∧ extensions old < maxExtensions p
     ∧ extensions l = extensions old + 1 ∧ extensions l ≤ maxExtensions p
     ∧ expiresAt l = Some (Z.max now e + extendDays p * DAY_MS) ∧ actedAt l = None ∧ tenantId l = tenantId old)
  ∧ t' = <[k := l]> t
  ∧ ∀ read e p' now', extend_check (t !! k) p' = Ok (read, e) → is_ok (extend_write t' k read e now' p') = false.
Proof.
  unfold extendLease, leaseOf. intros Hx. apply result_bind_Ok in Hx as ([read e] & Hc & Hw). simpl in Hw.
  assert (∀ p r x, extend_check (t !! k) p = Ok (r, x) → t !! k = Some r ∧ expiresAt r = Some x ∧ extensions r < maxExtensions p) as Hcheck.
  { intros p' r x. unfold extend_check. destruct (t !! k) as [l0|]; [|done].
    destruct (expiresAt l0) as [e0|] eqn:E0; [|done]. destruct (Z.leb_spec (maxExtensions p') (extensions l0)); [done|].
    intros [= <- <-]. done. }
  destruct (Hcheck _ _ _ Hc) as (Hl & He & Hlt). unfold extend_write in Hw. rewrite Hl, Z.eqb_refl in Hw.
  injection Hw as <- <-. simpl. repeat split.
  - exists read, e. repeat split; try done; simpl; lia.
  - intros read' e' p' now' Hc'. destruct (Hcheck _ _ _ Hc') as (Hl' & _ & _).
    assert (read' = read) as -> by congruence.
    unfold extend_write. rewrite lookup_insert_eq. simpl.
    by assert ((extensions read + 1 =? extensions read) = false) as -> by lia.
Qed.

(** ** A concrete lease *)

Definition demo_key : InstanceKey := ("c1", "web", "app").
Definition demo_lease : Lease :=
  {| tenantId := "t1"; expiresAt := Some 5000; extensions := 1; actedAt := Some 6000; createdAt := 0 |}.
Definition demo_policy : LeasePolicy := {| days := 30; action := Stop; extendDays := 1; maxExtensions := 2 |}.
Definition demo_leases : table := {[demo_key := demo_lease]}.
Definition demo_extended : Lease :=
  {| tenantId := "t1"; expiresAt := Some 86407000; extensions := 2; actedAt := None; createdAt := 0 |}.

Lemma extension_bounded_witness :
  extendLease demo_leases demo_key demo_policy 7000 = Ok (<[demo_key := demo_extended]> demo_leases, demo_extended)
  ∧ is_ok (extend_write (<[demo_key := demo_extended]> demo_leases) demo_key demo_lease 5000 8000 demo_policy) = false.
Proof.
  assert (extendLease demo_leases demo_key demo_policy 7000
          = Ok (<[demo_key := demo_extended]> demo_leases, demo_extended)) as Hx.
  { unfold extendLease, leaseOf, extend_write, demo_leases. rewrite (lookup_singleton_eq demo_key demo_lease). reflexivity. }
  assert (extend_check (demo_leases !! demo_key) demo_policy = Ok (demo_lease, 5000)) as Hc.
  { unfold demo_leases. rewrite (lookup_singleton_eq demo_key demo_lease). reflexivity. }
  split; [exact Hx|].
  exact (proj2 (proj2 (extension_bounded demo_leases demo_key demo_policy 7000 _ demo_extended Hx))
           demo_lease 5000 demo_policy 8000 Hc).
Defined.
