(* ===== verification/Owners.v ===== *)
(** * Owners: who owns an instance, and what follows it

    Models [acl/owners.ts] (the table of owners), [acl/entries.ts] (permission
    entries below a path) and the handling of one lifecycle event in
    [acl/lifecycle.ts], which keeps owners, leases ([Leases]) and entries in
    step with the instances of a cluster. Dates of owner rows are left out. *)

From S2P Require Import Prelude JsString AclPaths Acl AclTheory AclEdit AclEditTheory Leases.

Inductive OwnerSource := Incuscloud | Event | Backfill.
Global Instance OwnerSource_eq_dec : EqDecision OwnerSource.
Proof. solve_decision. Defined.
Definition RANK (s : OwnerSource) : nat := match s with Backfill => 0%nat | Event => 1%nat | Incuscloud => 2%nat end.

Record OwnerRow := { or_userId : option string; or_serviceAccountId : option string; or_source : OwnerSource }.
Abbreviation owner_table := (gmap InstanceKey OwnerRow).

Definition columns (subject : string) : option string * option string :=
  let parts := split_on ":" subject in
  let id := default EmptyString (parts !! 1%nat) in
  if str_is (default EmptyString (parts !! 0%nat)) "service" then (None, Some id) else (Some id, None).

Definition owner_row (subject : string) (source : OwnerSource) : OwnerRow :=
  {| or_userId := (columns subject).1; or_serviceAccountId := (columns subject).2; or_source := source |}.

(** An insert, or on conflict an update where the recorded source is beaten. *)
Definition recordOwner (t : owner_table) (k : InstanceKey) (subject : string) (source : OwnerSource) : owner_table :=
  match t !! k with
  | None => <[k := owner_row subject source]> t
  | Some r =>
      if bool_decide (source = Backfill) then t
      else if bool_decide (RANK (or_source r) ≤ RANK source)%nat then <[k := owner_row subject source]> t else t
  end.

(** [None] where the primary key is taken. *)
Definition renameOwned (t : owner_table) (from to : InstanceKey) : option owner_table :=
  match t !! from with
  | None => Some t
  | Some r =>
      if bool_decide (from = to) then Some t
      else match t !! to with
           | Some _ => None
           | None => Some (<[to := r]> (delete from t))
           end
  end.
Definition forgetOwned (t : owner_table) (k : InstanceKey) : owner_table := delete k t.

Definition row_owner (r : OwnerRow) : option string :=
  if truthy_opt_str (or_userId r) then Some ("user:" +++ id_or_null (or_userId r))
  else if truthy_opt_str (or_serviceAccountId r) then Some ("service:" +++ id_or_null (or_serviceAccountId r))
  else None.
Definition ownerOf (t : owner_table) (k : InstanceKey) : option string := t !! k ≫= row_owner.

(** ** Filling gaps *)

Record MemberRow := { mb_tenantId : string; mb_userId : string; mb_role : string; mb_createdAt : Z }.

Definition joined_first (a b : MemberRow) : comparison :=
  cmp_then (mb_createdAt a ?= mb_createdAt b)%Z (String.compare (mb_userId a) (mb_userId b)).
(** The tenant's owner who joined first. *)
Definition first_owner (ms : list MemberRow) (tenant : string) : option string :=
  mb_userId <$> head (js_sort joined_first
    (js_filter (λ m, str_is (mb_tenantId m) tenant && str_is (mb_role m) "owner") ms)).

(** Instances of the cluster in tenants' projects without a row of owners. *)
Definition orphans (insts : list InstanceKey) (ps : list Placement) (t : owner_table) (cluster : string)
  : list (InstanceKey * string) :=
  js_filter (λ k, str_is (clusterId k) cluster) insts ≫= (λ k,
    match t !! k with
    | Some _ => []
    | None => (λ p, (k, pl_tenantId p)) <$>
        js_filter (λ p, str_is (pl_clusterId p) (clusterId k) && str_is (pl_project p) (project k)) ps
    end).

Definition backfill_one (ms : list MemberRow) (s : owner_table * nat) (o : InstanceKey * string) : owner_table * nat :=
  match first_owner ms o.2 with
  | Some u => if truthy_str u then (recordOwner s.1 o.1 ("user:" +++ u) Backfill, S s.2) else s
  | None => s
  end.
Definition backfillOwners (insts : list InstanceKey) (ps : list Placement) (ms : list MemberRow)
    (t : owner_table) (cluster : string) : owner_table * nat :=
  foldl (backfill_one ms) (t, 0%nat) (orphans insts ps t cluster).

(** A job's actor. *)
Definition actorOf (actorType actorId : option string) : option string :=
  match actorType, actorId with
  | Some ty, Some id =>
      if (str_is ty "user" || str_is ty "service") && truthy_str id then Some (ty +++ ":" +++ id) else None
  | _, _ => None
  end.

Definition carryOwner (t : owner_table) (from to : InstanceKey) (move : bool) : owner_table :=
  match t !! from with
  | None => t
  | Some r =>
      let t := <[to := {| or_userId := or_userId r; or_serviceAccountId := or_serviceAccountId r;
                          or_source := Incuscloud |}]> (delete to t) in
      if move then delete from t else t
  end.

(** ** Entries below a path ([acl/entries.ts]) *)

Definition under (path x : string) : bool := str_is x path || starts_with (path +++ "/") x.

Definition with_path (e : AclEntryRow) (path : string) : AclEntryRow :=
  {| ae_id := ae_id e; ae_path := path; ae_role := ae_role e; ae_propagate := ae_propagate e;
     ae_userId := ae_userId e; ae_serviceAccountId := ae_serviceAccountId e; ae_groupId := ae_groupId e;
     ae_tenantGroupId := ae_tenantGroupId e; ae_createdBy := ae_createdBy e |}.
Definition moved_path (from to x : string) : string := to +++ str_drop (String.length from) x.

(** [None] where [acl_entry_unique] is broken: an entry comes to be where the
    same one was. *)
Definition moveEntries (l : list AclEntryRow) (from to : string) : option (list AclEntryRow) :=
  let move e := if under from (ae_path e) then with_path e (moved_path from to (ae_path e)) else e in
  let stays := js_filter (λ e, negb (under from (ae_path e))) l in
  if some (λ e, under from (ae_path e) && some (same_entry (move e)) stays) l
  then None else Some (move <$> l).

Definition deleteUnder (l : list AclEntryRow) (path : string) : list AclEntryRow :=
  js_filter (λ e, negb (under path (ae_path e))) l.

Definition instance_at (cluster project name : string) : string :=
  "/clusters/" +++ cluster +++ "/projects/" +++ project +++ "/instances/" +++ name.
Arguments instance_at : simpl never.

Definition sweepInstanceEntries (l : list AclEntryRow) (insts : list InstanceKey) (id cluster : string)
  : list AclEntryRow * nat :=
  let prefix := "/clusters/" +++ cluster +++ "/projects/" in
  let rows := js_filter (λ e, starts_with prefix (ae_path e) && str_contains "/instances/" (ae_path e)) l in
  let present := (λ k, instance_at cluster (project k) (name k)) <$> js_filter (λ k, str_is (clusterId k) id) insts in
  let gone := ae_id <$> js_filter (λ e, negb (includes present (ae_path e))) rows in
  (js_filter (λ e, negb (includes gone (ae_id e))) l, length gone).

(** ** Lifecycle events ([acl/lifecycle.ts]) *)

Record Requestor := { rq_username : option string; rq_protocol : option string }.
Record Metadata := {
  md_action : option string; md_name : option string; md_project : option string;
  md_old_name : option string; md_requestor : option Requestor;
}.
Record LifecycleEvent := { ev_type : option string; ev_metadata : option Metadata }.

Record State := { owned : owner_table; leases : Leases.table; st_entries : list AclEntryRow }.

Section lifecycle.
(** Rows of [clusters] (id, name), [users] (id) and [service_accounts] (client id, id). *)
Context (clusterRows : list (string * string)) (userIds : list string) (clients : list (string * string)).

Definition requestor_subject (requestor : option Requestor) : option string :=
  match requestor with
  | Some {| rq_username := Some name; rq_protocol := Some protocol |} =>
      if str_is protocol "oidc" && truthy_str name then
        if isUuid name && includes userIds name then Some ("user:" +++ name)
        else (λ id, "service:" +++ id) <$> map_get clients name
      else None
  | _ => None
  end.

(** The statements of one event run one by one; one that fails stops the rest
    ([None]) and what ran before it stays. *)
Definition onLifecycle (s : State) (cluster : string) (event : LifecycleEvent) : State * option bool :=
  match ev_metadata event with
  | None => (s, Some false)
  | Some m =>
      if negb (bool_decide (ev_type event = Some "lifecycle")) || negb (truthy_opt_str (md_name m))
         || negb (truthy_opt_str (md_project m)) then (s, Some false)
      else
        let name := id_or_null (md_name m) in
        let project := id_or_null (md_project m) in
        let key : InstanceKey := (cluster, project, name) in
        let at_ := λ n, (λ c, instance_at c project n) <$> map_get clusterRows cluster in
        match md_action m with
        | Some action =>
            if str_is action "instance-created" then
              match requestor_subject (md_requestor m) with
              | Some subject =>
                  ({| owned := recordOwner (owned s) key subject Event; leases := leases s;
                      st_entries := st_entries s |}, Some true)
              | None => (s, Some false)
              end
            else if str_is action "instance-renamed" then
              if negb (truthy_opt_str (md_old_name m)) then (s, Some false)
              else
                let old : InstanceKey := (cluster, project, id_or_null (md_old_name m)) in
                match renameOwned (owned s) old key with
                | None => (s, None)
                | Some o =>
                    let s := {| owned := o; leases := leases s; st_entries := st_entries s |} in
                    match renameLease (leases s) old key with
                    | None => (s, None)
                    | Some ls =>
                        let s := {| owned := o; leases := ls; st_entries := st_entries s |} in
                        match at_ (id_or_null (md_old_name m)), at_ name with
                        | Some from, Some to =>
                            match moveEntries (st_entries s) from to with
                            | None => (s, None)
                            | Some l => ({| owned := o; leases := ls; st_entries := l |}, Some true)
                            end
                        | _, _ => (s, Some true)
                        end
                    end
                end
            else if str_is action "instance-deleted" then
              let s := {| owned := forgetOwned (owned s) key; leases := forgetLease (leases s) key;
                          st_entries := st_entries s |} in
              match at_ name with
              | Some path => ({| owned := owned s; leases := leases s;
                                 st_entries := deleteUnder (st_entries s) path |}, Some true)
              | None => (s, Some true)
              end
            else (s, Some false)
        | None => (s, Some false)
        end
  end.
End lifecycle.

(** ** Theorems: owners follow their instances

    The owner recorded is the one the best source named; the backfill fills
    every gap it can and stops; a rename carries owner, lease and entries over,
    a delete leaves nothing behind; what a missed delete leaves is inherited. *)

(** ** Recording *)

Lemma recordOwner_ne t k k' subject source : k ≠ k' → recordOwner t k subject source !! k' = t !! k'.
Proof. intros. unfold recordOwner. split_matches; by rewrite ?lookup_insert_ne. Qed.

Lemma recordOwner_eq t k subject source :
  recordOwner t k subject source !! k =
    match t !! k with
    | Some r => if decide (source ≠ Backfill ∧ RANK (or_source r) ≤ RANK source)%nat
                then Some (owner_row subject source) else Some r
    | None => Some (owner_row subject source)
    end.
Proof.
  unfold recordOwner. destruct (t !! k) as [r|] eqn:E; [|by rewrite lookup_insert_eq].
  repeat case_bool_decide; case_decide; try tauto; by rewrite ?lookup_insert_eq.
Qed.

Lemma recordOwner_event_keeps t k subject r :
  t !! k = Some r → or_source r = Incuscloud → recordOwner t k subject Event !! k = Some r.
Proof. intros Hr Hs. rewrite recordOwner_eq, Hr, Hs. case_decide as Hd; [|done]. simpl in Hd. lia. Qed.

(** Claims of ownership, oldest first, and the one that stands. *)
Definition Claim : Type := InstanceKey * (string * OwnerSource).
Definition record_claims (t : owner_table) (l : list Claim) : owner_table :=
  foldl (λ t c, recordOwner t c.1 c.2.1 c.2.2) t l.
Definition of_source (source : OwnerSource) (l : list (string * OwnerSource)) : list string :=
  (js_filter (λ c, bool_decide (c.2 = source)) l).*1.
Definition standing (l : list (string * OwnerSource)) : option (string * OwnerSource) :=
  match last (of_source Incuscloud l), last (of_source Event l), head (of_source Backfill l) with
  | Some s, _, _ => Some (s, Incuscloud)
  | None, Some s, _ => Some (s, Event)
  | None, None, Some s => Some (s, Backfill)
  | None, None, None => None
  end.
Definition claims_on (k : InstanceKey) (l : list Claim) : list (string * OwnerSource) :=
  (js_filter (λ c, bool_decide (c.1 = k)) l).*2.

Lemma of_source_snoc source l c :
  of_source source (l ++ [c]) = of_source source l ++ (if decide (c.2 = source) then [c.1] else []).
Proof.
  unfold of_source. rewrite js_filter_app, fmap_app. f_equal. simpl.
  case_decide; [rewrite bool_decide_true|rewrite bool_decide_false]; done.
Qed.

Lemma claims_on_snoc k l c :
  claims_on k (l ++ [c]) = claims_on k l ++ (if decide (c.1 = k) then [c.2] else []).
Proof.
  unfold claims_on. rewrite js_filter_app, fmap_app. f_equal. simpl.
  case_decide; [rewrite bool_decide_true|rewrite bool_decide_false]; done.
Qed.

Lemma standing_snoc l c :
  standing (l ++ [c]) =
    match standing l with
    | Some s => if decide (c.2 ≠ Backfill ∧ RANK s.2 ≤ RANK c.2)%nat then Some c else Some s
    | None => Some c
    end.
Proof.
  unfold standing. rewrite !of_source_snoc. destruct c as [x []]; simpl.
  all: rewrite ?app_nil_r, ?last_snoc.
  all: destruct (last (of_source Incuscloud l)), (last (of_source Event l)), (of_source Backfill l); simpl;
    try case_decide; try done; simpl in *; try tauto; lia.
Qed.

(** ** Filling gaps *)

Section backfill.
Context (insts : list InstanceKey) (ps : list Placement) (ms : list MemberRow) (cluster : string).

Lemma elem_of_orphans t k tenant :
  (k, tenant) ∈ orphans insts ps t cluster ↔
  k ∈ insts ∧ clusterId k = cluster ∧ t !! k = None
  ∧ ∃ p, p ∈ ps ∧ pl_clusterId p = clusterId k ∧ pl_project p = project k ∧ pl_tenantId p = tenant.
Proof.
  unfold orphans. rewrite list_elem_of_bind. setoid_rewrite elem_of_js_filter. setoid_rewrite str_is_true.
  split.
  - intros (k' & Hin & ? & Hc). destruct (t !! k') eqn:E; [by apply not_elem_of_nil in Hin|].
    apply list_elem_of_fmap in Hin as (p & [= -> ->] & [? Hp]%elem_of_js_filter). bool_prop.
    rewrite str_is_true in *. naive_solver.
  - intros (? & ? & Hn & p & ? & Hpc & Hpp & <-). exists k. rewrite Hn. split; [|done].
    apply list_elem_of_fmap. exists p. split; [done|]. apply elem_of_js_filter.
    by rewrite Hpc, Hpp, !str_is_refl.
Qed.

Lemma backfill_one_keeps s o k r : s.1 !! k = Some r → (backfill_one ms s o).1 !! k = Some r.
Proof.
  intros H. unfold backfill_one. split_matches; try done.
  destruct (decide (o.1 = k)) as [<-|?]; [|by rewrite recordOwner_ne].
  rewrite recordOwner_eq, H. case_decide; [naive_solver|done].
Qed.
Lemma backfill_keeps l s k r : s.1 !! k = Some r → (foldl (backfill_one ms) s l).1 !! k = Some r.
Proof. revert s. induction l as [|o l IH]; intros s H; [done|]. simpl. by apply IH, backfill_one_keeps. Qed.

Definition has_owner (tenant : string) : Prop := ∃ u, first_owner ms tenant = Some u ∧ u ≠ EmptyString.

Lemma backfill_one_owner s o u :
  first_owner ms o.2 = Some u → u ≠ EmptyString → s.1 !! o.1 = None →
  (backfill_one ms s o).1 !! o.1 = Some (owner_row ("user:" +++ u) Backfill).
Proof.
  intros Hu Hne Hn. unfold backfill_one, truthy_str. rewrite Hu, bool_decide_false by done. simpl.
  by rewrite recordOwner_eq, Hn.
Qed.
Lemma backfill_one_other s o k : k ≠ o.1 → (backfill_one ms s o).1 !! k = s.1 !! k.
Proof. intros. unfold backfill_one. split_matches; try done. by apply recordOwner_ne. Qed.

(** A key in the list gets the first owner of its tenant, when all its
    listings name the same tenant. *)
Lemma backfill_fills l s k tenant u :
  (k, tenant) ∈ l → (∀ t', (k, t') ∈ l → t' = tenant) →
  first_owner ms tenant = Some u → u ≠ EmptyString → s.1 !! k = None →
  (foldl (backfill_one ms) s l).1 !! k = Some (owner_row ("user:" +++ u) Backfill).
Proof.
  intros Hin Huniq Hu Hne. revert s. induction l as [|[k' t'] l IH]; intros s Hn; [by apply not_elem_of_nil in Hin|].
  simpl. destruct (decide (k' = k)) as [->|Hk].
  - assert (t' = tenant) as -> by (apply Huniq; by left).
    by apply backfill_keeps, (backfill_one_owner _ (k, tenant)).
  - apply IH; [|intros t'' ?; apply Huniq; by right|by rewrite backfill_one_other].
    apply elem_of_cons in Hin as [[= -> _]|?]; done.
Qed.

Lemma backfill_stops l s :
  (∀ o, o ∈ l → ¬ has_owner o.2) → foldl (backfill_one ms) s l = s.
Proof.
  intros H. induction l as [|o l IH]; [done|]. simpl.
  assert (backfill_one ms s o = s) as ->.
  { unfold backfill_one. destruct (first_owner ms o.2) as [u|] eqn:E; [|done].
    destruct (truthy_str u) eqn:Ht; [|done]. exfalso. apply (H o); [by left|]. exists u. split; [done|].
    unfold truthy_str in Ht. by bool_prop. }
  apply IH. intros ??. apply H. by right.
Qed.
End backfill.

(** ** Paths of instances *)

Lemma moved_path_append from to rest : moved_path from to (from +++ rest) = to +++ rest.
Proof. unfold moved_path. by rewrite str_drop_append. Qed.

Lemma under_spec path x : under path x = true ↔ ∃ rest, x = path +++ rest ∧ (rest = EmptyString ∨ ∃ r, rest = String "/" r).
Proof.
  unfold under. rewrite orb_true_iff, str_is_true, starts_with_spec. split.
  - intros [->|[r ->]]; [exists EmptyString; by rewrite append_nil_r; auto|].
    rewrite append_assoc. exists (String "/" r). eauto.
  - intros (rest & -> & [->|[r ->]]); [left; by rewrite append_nil_r|right].
    exists r. by rewrite append_assoc.
Qed.

Lemma under_moved from to x : under from x = true → under to (moved_path from to x) = true.
Proof. rewrite !under_spec. intros (rest & -> & Hr). exists rest. by rewrite moved_path_append. Qed.

Lemma has_char_length_inj a b s t :
  has_char "/" a = false → has_char "/" b = false →
  (s = EmptyString ∨ ∃ r, s = String "/" r) → t = EmptyString → a +++ s = b +++ t → a = b.
Proof.
  intros Ha Hb [->|[r ->]] -> E; rewrite !append_nil_r in E; [done|].
  rewrite <-E, has_char_append in Hb. simpl in Hb. by rewrite orb_true_r in Hb.
Qed.

(** An instance's path is below another's only when it is that one. *)
Lemma under_instance c p n n' :
  NAME n = true → NAME n' = true → under (instance_at c p n) (instance_at c p n') = true → n' = n.
Proof.
  intros Hn Hn' (rest & E & Hr)%under_spec. unfold instance_at in E. rewrite !append_assoc in E.
  do 5 apply append_inj_l in E.
  symmetry. apply (has_char_length_inj n n' rest EmptyString); auto with incus. by rewrite append_nil_r.
Qed.

Lemma moveEntries_free l from to :
  (∀ e, e ∈ l → under to (ae_path e) = false) →
  moveEntries l from to =
    Some ((λ e, if under from (ae_path e) then with_path e (moved_path from to (ae_path e)) else e) <$> l).
Proof.
  intros H. unfold moveEntries.
  assert (some (λ e, under from (ae_path e) && some (same_entry
    (if under from (ae_path e) then with_path e (moved_path from to (ae_path e)) else e))
    (js_filter (λ e, negb (under from (ae_path e))) l)) l = false) as ->; [|done].
  apply some_false. intros e He. destruct (under from (ae_path e)) eqn:E; [|done]. simpl.
  apply some_false. intros x [Hx _]%elem_of_js_filter. unfold same_entry. apply bool_decide_eq_false.
  intros Heq. assert (ae_path x = moved_path from to (ae_path e)) as Hp by (simpl in Heq; congruence).
  apply H in Hx. rewrite Hp in Hx. by rewrite (under_moved _ _ _ E) in Hx.
Qed.

(** ** Properties *)

(** Whatever claims on instances are recorded, in whatever order, the row of
    an instance is the claim that stands: the latest of IncusCloud's own jobs,
    without one the latest event, without either the first backfill. *)
Theorem recorded_owner_stands l k :
  record_claims ∅ l !! k = (λ c, owner_row c.1 c.2) <$> standing (claims_on k l).
Proof.
  induction l as [|c l IH] using rev_ind; [done|].
  unfold record_claims in *. rewrite foldl_app, claims_on_snoc. simpl.
  case_decide as Hc; [|by rewrite app_nil_r, recordOwner_ne].
  rewrite <-Hc in IH |- *. rewrite recordOwner_eq, IH, standing_snoc.
  destruct (standing (claims_on c.1 l)) as [x|]; simpl; [|done]. by case_decide.
Qed.

(** The backfill gives exactly the gaps it can fill: rows that exist stay,
    an instance in a tenant's project gets that tenant's first owner, and a
    second pass finds nothing to do. *)
Theorem backfill_converges insts ps ms cluster t :
  NoDup ((λ p, (pl_clusterId p, pl_project p)) <$> ps) →
  let t' := (backfillOwners insts ps ms t cluster).1 in
  (∀ k r, t !! k = Some r → t' !! k = Some r)
  ∧ (∀ k p u, k ∈ insts → clusterId k = cluster → t !! k = None →
       p ∈ ps → pl_clusterId p = clusterId k → pl_project p = project k →
       first_owner ms (pl_tenantId p) = Some u → u ≠ EmptyString →
       t' !! k = Some (owner_row ("user:" +++ u) Backfill))
  ∧ backfillOwners insts ps ms t' cluster = (t', 0%nat).
Proof.
  intros Hnd t'.
  assert (∀ k p u, k ∈ insts → clusterId k = cluster → t !! k = None →
       p ∈ ps → pl_clusterId p = clusterId k → pl_project p = project k →
       first_owner ms (pl_tenantId p) = Some u → u ≠ EmptyString →
       t' !! k = Some (owner_row ("user:" +++ u) Backfill)) as Hfill.
  { intros k p u ?????? Hu Hne. apply (backfill_fills ms _ _ _ (pl_tenantId p)); [|..|done|done|done].
    - apply elem_of_orphans. eauto 10.
    - intros tn (_ & _ & _ & q & Hq & Hqc & Hqp & <-)%elem_of_orphans. f_equal.
      apply list_elem_of_lookup in Hq as [i Hi].
      assert (p ∈ ps) as Hp by done. apply list_elem_of_lookup in Hp as [j Hj].
      assert (i = j) as <-; [|congruence].
      apply (NoDup_lookup _ _ _ (pl_clusterId q, pl_project q) Hnd); rewrite list_lookup_fmap;
        [by rewrite Hi|rewrite Hj; simpl; congruence]. }
  split; [|split; [exact Hfill|]].
  - intros k r H. by apply (backfill_keeps ms).
  - unfold backfillOwners at 1. apply backfill_stops.
    intros [k tn] (Hk & Hc & Hn & p & Hp & Hpc & Hpp & <-)%elem_of_orphans (u & Hu & Hne). simpl in Hu.
    destruct (t !! k) as [r|] eqn:E.
    + assert (t' !! k = Some r) as Hr by (by apply (backfill_keeps ms)). congruence.
    + rewrite (Hfill k p u) in Hn; done.
Qed.

(** An entry on or below [from] keeps its place relative to [to]; another stays. *)
Definition follows (from to : string) (e e' : AclEntryRow) : Prop :=
  (∀ rest, ae_path e = from +++ rest → under from (ae_path e) = true → e' = with_path e (to +++ rest))
  ∧ (under from (ae_path e) = false → e' = e).

Section events.
Context (clusterRows : list (string * string)) (userIds : list string) (clients : list (string * string)).

Definition event_of (action name project : string) (old : option string) (rq : option Requestor) : LifecycleEvent :=
  {| ev_type := Some "lifecycle";
     ev_metadata := Some {| md_action := Some action; md_name := Some name; md_project := Some project;
                            md_old_name := old; md_requestor := rq |} |}.

(** After the event of a deleted instance nothing of it is left: no owner, no
    lease, no entry on it or below; every other instance keeps all three, one
    whose name only begins alike included. *)
Theorem deleted_starts_clean s cluster c project name rq :
  NAME name = true → project ≠ EmptyString → map_get clusterRows cluster = Some c →
  ∃ s', onLifecycle clusterRows userIds clients s cluster (event_of "instance-deleted" name project None rq)
        = (s', Some true)
    ∧ owned s' !! (cluster, project, name) = None ∧ leases s' !! (cluster, project, name) = None
    ∧ (∀ k, k ≠ (cluster, project, name) → owned s' !! k = owned s !! k ∧ leases s' !! k = leases s !! k)
    ∧ (∀ e, e ∈ st_entries s' ↔ e ∈ st_entries s ∧ under (instance_at c project name) (ae_path e) = false)
    ∧ (∀ e n, e ∈ st_entries s → NAME n = true → n ≠ name → ae_path e = instance_at c project n → e ∈ st_entries s').
Proof.
  intros Hn Hp Hc. unfold onLifecycle, event_of. simpl.
  unfold truthy_str. rewrite !bool_decide_false by (done || by apply NAME_nonempty).
  rewrite Hc. simpl. eexists. split; [reflexivity|]. simpl. unfold forgetOwned, forgetLease.
  rewrite !lookup_delete_eq. split_and!; try done.
  - intros k Hk. by rewrite !lookup_delete_ne.
  - intros e. unfold deleteUnder. by rewrite elem_of_js_filter, negb_true_iff.
  - intros e n He Hnn Hne Hpath. unfold deleteUnder. rewrite elem_of_js_filter, negb_true_iff. split; [done|].
    apply not_true_iff_false. rewrite Hpath. intros Hu%under_instance; done.
Qed.

(** A renamed instance keeps what it had: when nothing is left under the new
    name, its owner, its lease and the entries on it and below follow it, and
    nothing else moves. *)
Theorem rename_carries s cluster c project old new rq :
  old ≠ new → NAME old = true → NAME new = true → project ≠ EmptyString → map_get clusterRows cluster = Some c →
  let from : InstanceKey := (cluster, project, old) in
  let to : InstanceKey := (cluster, project, new) in
  owned s !! to = None → leases s !! to = None →
  (∀ e, e ∈ st_entries s → under (instance_at c project new) (ae_path e) = false) →
  ∃ s', onLifecycle clusterRows userIds clients s cluster (event_of "instance-renamed" new project (Some old) rq)
        = (s', Some true)
    ∧ owned s' !! to = owned s !! from ∧ leases s' !! to = leases s !! from
    ∧ owned s' !! from = None ∧ leases s' !! from = None
    ∧ (∀ k, k ≠ from → k ≠ to → owned s' !! k = owned s !! k ∧ leases s' !! k = leases s !! k)
    ∧ Forall2 (follows (instance_at c project old) (instance_at c project new)) (st_entries s) (st_entries s').
Proof.
  intros Hon Ho Hn Hp Hc from to Hto Hlto Hfree.
  assert (from ≠ to) as Hft by (unfold from, to; congruence).
  assert (∃ o, renameOwned (owned s) from to = Some o ∧ o !! to = owned s !! from ∧ o !! from = None
    ∧ ∀ k, k ≠ from → k ≠ to → o !! k = owned s !! k) as (o & Hr & Hro & Hrf & Hrk).
  { unfold renameOwned. destruct (owned s !! from) as [r|] eqn:E; [|by exists (owned s); rewrite E].
    rewrite bool_decide_false, Hto by done. eexists. split; [done|]. split_and!.
    - by rewrite lookup_insert_eq.
    - by rewrite lookup_insert_ne, lookup_delete_eq by done.
    - intros k ??. by rewrite lookup_insert_ne, lookup_delete_ne. }
  assert (∃ ls, renameLease (leases s) from to = Some ls ∧ ls !! to = leases s !! from ∧ ls !! from = None
    ∧ ∀ k, k ≠ from → k ≠ to → ls !! k = leases s !! k) as (ls & Hl & Hlo & Hlf & Hlk).
  { unfold renameLease. destruct (leases s !! from) as [r|] eqn:E; [|by exists (leases s); rewrite E].
    rewrite bool_decide_false, Hlto by done. eexists. split; [done|]. split_and!.
    - by rewrite lookup_insert_eq.
    - by rewrite lookup_insert_ne, lookup_delete_eq by done.
    - intros k ??. by rewrite lookup_insert_ne, lookup_delete_ne. }
  unfold onLifecycle, event_of. simpl.
  unfold truthy_str. rewrite !bool_decide_false by (done || by apply NAME_nonempty). simpl.
  fold from to. rewrite Hr, Hl, Hc. simpl.
  rewrite moveEntries_free by done. eexists. split; [reflexivity|]. cbn [owned leases st_entries]. split_and!; try done.
  - intros k ??. by rewrite Hrk, Hlk.
  - apply Forall2_fmap_r, Forall_Forall2_diag, Forall_forall. intros e _. split.
    + intros rest Hrest ->. by rewrite Hrest, moved_path_append.
    + by intros ->.
Qed.

(** What a missed delete leaves is inherited. While the event stream is
    down an instance goes; neither the inventory's backfill nor its sweep of
    entries touches its owner or its lease, and when someone makes an instance of
    that name, the create event does not take it from the owner IncusCloud
    recorded: the new instance belongs to the old one's owner and ends with
    the old one's lease. *)
Theorem missed_delete_inherited s cluster c project name rq r l insts ps ms :
  owned s !! (cluster, project, name) = Some r → or_source r = Incuscloud →
  leases s !! (cluster, project, name) = l → NAME name = true → project ≠ EmptyString →
  let swept : State := {| owned := (backfillOwners insts ps ms (owned s) cluster).1; leases := leases s;
                          st_entries := (sweepInstanceEntries (st_entries s) insts cluster c).1 |} in
  let s' := (onLifecycle clusterRows userIds clients swept cluster (event_of "instance-created" name project None rq)).1 in
  owned s' !! (cluster, project, name) = Some r ∧ leases s' !! (cluster, project, name) = l.
Proof.
  intros Hr Hs Hl Hn Hp swept s'. unfold s', onLifecycle, event_of. simpl.
  unfold truthy_str. rewrite !bool_decide_false by (done || by apply NAME_nonempty). simpl.
  assert (owned swept !! (cluster, project, name) = Some r) as Hsw by (by apply (backfill_keeps ms)).
  destruct (requestor_subject userIds clients rq) as [subject|]; [|done]. simpl. split; [|done].
  by apply recordOwner_event_keeps.
Qed.
End events.

(** *** One cluster, two instances *)

Definition demo_owned : State :=
  {| owned := {[("c", "p1", "app") := owner_row "user:u1" Incuscloud]};
     leases := {[("c", "p1", "app") := demo_lease]};
     st_entries := [user_entry "e1" "/clusters/c1/projects/p1/instances/app" "u2" "auditor";
                    user_entry "e2" "/clusters/c1/projects/p1/instances/app2" "u2" "auditor"] |}.

Lemma backfill_converges_witness :
  let ps := [{| Leases.pl_clusterId := "c"; Leases.pl_project := "p1"; Leases.pl_tenantId := "t" |}] in
  let ms := [{| mb_tenantId := "t"; mb_userId := "u1"; mb_role := "owner"; mb_createdAt := 5 |}] in
  (backfillOwners [("c", "p1", "app")] ps ms ∅ "c").1 !! (("c", "p1", "app") : InstanceKey)
    = Some (owner_row "user:u1" Backfill).
Proof.
  intros ps ms.
  apply (backfill_converges [("c", "p1", "app")] ps ms "c" ∅) with (p := {| Leases.pl_clusterId := "c"; Leases.pl_project := "p1"; Leases.pl_tenantId := "t" |});
    try done; [apply (bool_decide_eq_true (NoDup _)); reflexivity|by left|by left].
Defined.

Lemma deleted_starts_clean_witness :
  ∃ s', onLifecycle [("c", "c1")] [] [] demo_owned "c" (event_of "instance-deleted" "app" "p1" None None) = (s', Some true)
    ∧ owned s' !! (("c", "p1", "app") : InstanceKey) = None
    ∧ user_entry "e2" "/clusters/c1/projects/p1/instances/app2" "u2" "auditor" ∈ st_entries s'.
Proof.
  destruct (deleted_starts_clean [("c", "c1")] [] [] demo_owned "c" "c1" "p1" "app" None) as (s' & H & Ho & _ & _ & _ & Hk);
    [reflexivity|done|reflexivity|].
  exists s'. split; [done|]. split; [done|].
  apply (Hk _ "app2"); [right; by left|reflexivity|done|reflexivity].
Defined.

Lemma rename_carries_witness :
  ∃ s', onLifecycle [("c", "c1")] [] [] demo_owned "c" (event_of "instance-renamed" "web" "p1" (Some "app") None) = (s', Some true)
    ∧ owned s' !! (("c", "p1", "web") : InstanceKey) = owned demo_owned !! (("c", "p1", "app") : InstanceKey).
Proof.
  destruct (rename_carries [("c", "c1")] [] [] demo_owned "c" "c1" "p1" "app" "web" None) as (s' & H & Ho & _);
    [done|reflexivity|reflexivity|done|reflexivity|by apply lookup_singleton_ne|by apply lookup_singleton_ne|..].
  - intros e [-> | [-> | []%not_elem_of_nil]%elem_of_cons]%elem_of_cons; vm_compute; reflexivity.
  - by exists s'.
Defined.

Lemma missed_delete_inherited_witness :
  let rq := Some {| rq_username := Some "client"; rq_protocol := Some "oidc" |} in
  let s' := (onLifecycle [("c", "c1")] [] [("client", "s1")]
    {| owned := (backfillOwners [] [] [] (owned demo_owned) "c").1; leases := leases demo_owned;
       st_entries := (sweepInstanceEntries (st_entries demo_owned) [] "c" "c1").1 |}
    "c" (event_of "instance-created" "app" "p1" None rq)).1 in
  requestor_subject [] [("client", "s1")] rq = Some "service:s1"
  ∧ ownerOf (owned s') ("c", "p1", "app") = Some "user:u1".
Proof.
  intros rq s'. split; [reflexivity|]. unfold ownerOf, s'.
  transitivity (Some (owner_row "user:u1" Incuscloud) ≫= row_owner); [|reflexivity].
  apply (f_equal (λ o, o ≫= row_owner)).
  by apply (missed_delete_inherited [("c", "c1")] [] [("client", "s1")] demo_owned "c" "c1" "p1" "app" rq
    (owner_row "user:u1" Incuscloud) (Some demo_lease) [] [] []).
Defined.
