(* ===== verification/Balancing.v ===== *)
(** * Balancing: the engine that plans moves inside a cluster

    Models [balancing/engine.ts]. Loads and capacities are exact rationals
    where the source computes in doubles. The plan's working state (where each
    guest is, each member's load) is threaded through every step, mutations
    and their undoing included; notes are kept as the data their text shows. *)

From Stdlib Require Import QArith.QArith_base QArith.Qcanon.
From S2P Require Import Prelude JsString.
Open Scope Qc_scope.

Inductive Method := ByMemory | ByCpu | ByDisk.
Inductive Mode := Used | Assigned.
Record Resources := { r_memory : Qc; r_cpu : Qc; r_disk : Qc }.
Definition res_get (r : Resources) (m : Method) : Qc :=
  match m with ByMemory => r_memory r | ByCpu => r_cpu r | ByDisk => r_disk r end.
Definition res_zero : Resources := {| r_memory := 0; r_cpu := 0; r_disk := 0 |}.
Definition res_add (a b : Resources) : Resources :=
  {| r_memory := r_memory a + r_memory b; r_cpu := r_cpu a + r_cpu b; r_disk := r_disk a + r_disk b |}.
Definition res_sub (a b : Resources) : Resources :=
  {| r_memory := r_memory a - r_memory b; r_cpu := r_cpu a - r_cpu b; r_disk := r_disk a - r_disk b |}.

Record Member := { m_name : string; m_maintenance : bool; m_total : Resources; m_used : Resources }.

Record Hints := {
  h_affinity : option string;
  h_antiAffinity : option string;
  h_pin : option (list string);
  h_balance : option bool;
}.

Record Guest := {
  g_project : string; g_name : string; g_member : string;
  g_type : string; g_running : bool;
  g_movable : bool;
  g_used : Resources; g_assigned : Resources;
  g_hints : Hints;
}.

Record PlanInput := {
  i_members : list Member; i_guests : list Guest;
  i_method : Method; i_mode : Mode;
  i_balanciness : Qc; i_maxMoves : Z;
}.

Inductive MoveReason := ForPin | ForAntiAffinity | ForAffinity | ForBalance.
Record Move := { mv_project : string; mv_name : string; mv_from : string; mv_to : string; mv_reason : MoveReason }.

Inductive Note :=
  | CannotPin (guest : string) (pin : list string)
  | GroupTooLarge (group project : string) (instances members : nat)
  | CannotJoin (guest group home : string)
  | NoImprovement (spread : Qc)
  | StoppedAfter (moves : nat).

Record Plan := { before : Qc; after : Qc; moves : list Move; notes : list Note }.

Definition key (g : Guest) : string := g_project g +++ "/" +++ g_name g.

(** [groupBy] *)
Definition groupBy {T} (xs : list T) (k : T → string) : js_map string (list T) :=
  foldl (λ m x, map_set m (k x) (default [] (map_get m (k x)) ++ [x])) [] xs.

(** ** The working state *)

Record State := { load : gmap string Resources; where_ : gmap string string }.

Section state.
Context (members : list Member) (guests : list Guest) (mode : Mode).

Definition size_of (g : Guest) : Resources :=
  match mode with Used => g_used g | Assigned => g_assigned g end.
Definition size (g : Guest) (r : Method) : Qc := res_get (size_of g) r.

Definition new_state : State :=
  let l0 := foldl (λ l m, <[m_name m := match mode with Used => m_used m | Assigned => res_zero end]> l)
              ∅ members in
  foldl (λ s g,
    {| load := match mode with
               | Used => load s
               | Assigned => alter (λ l, res_add l (g_assigned g)) (g_member g) (load s)
               end;
       where_ := <[key g := g_member g]> (where_ s) |})
    {| load := l0; where_ := ∅ |} guests.

Definition find_member (name : string) : option Member :=
  js_find (λ m, bool_decide (m_name m = name)) members.

Definition load_of (s : State) (member : string) (r : Method) : Qc :=
  res_get (default res_zero (load s !! member)) r.

(** Asked only of members of the list. *)
Definition percent (s : State) (member : string) (r : Method) : Qc :=
  match find_member member with
  | Some m =>
      match Qccompare (res_get (m_total m) r) 0 with
      | Gt => load_of s member r / res_get (m_total m) r * Q2Qc 100
      | _ => 0
      end
  | None => 0
  end.

Definition active : list Member := js_filter (λ m, negb (m_maintenance m)) members.
Definition activeNames : list string := m_name <$> active.

Definition Qc_max (a b : Qc) : Qc := match Qccompare a b with Lt => b | _ => a end.
Definition Qc_min (a b : Qc) : Qc := match Qccompare a b with Gt => b | _ => a end.
Definition spread_list (p : list Qc) : Qc :=
  match p with
  | [] => 0
  | x :: p => foldl Qc_max x p - foldl Qc_min x p
  end.
Definition spread_of (s : State) (r : Method) : Qc :=
  spread_list ((λ m, percent s (m_name m) r) <$> active).

Definition where_is (s : State) (g : Guest) : string := default EmptyString (where_ s !! key g).

Definition move (s : State) (g : Guest) (to : string) : State :=
  let from := where_is s g in
  {| load := alter (λ l, res_add l (size_of g)) to
               (alter (λ l, res_sub l (size_of g)) from (load s));
     where_ := <[key g := to]> (where_ s) |}.

Definition Qc_leb (a b : Qc) : bool := match Qccompare a b with Gt => false | _ => true end.

(** Whether [units] fit on [to] (at most 100% of its capacity). *)
Definition fits (s : State) (units : list Guest) (to : string) (r : Method) : bool :=
  match find_member to with
  | Some m => Qc_leb (load_of s to r + foldl (λ n g, n + size g r) 0 units) (res_get (m_total m) r)
  | None => false
  end.

(** Others of [g]'s anti-affinity group on [member]; guests are told apart by their keys. *)
Definition antiConflict (s : State) (g : Guest) (member : string) (ignore : list string) : bool :=
  match h_antiAffinity (g_hints g) with
  | Some group =>
      truthy_str group &&
      some (λ o, negb (bool_decide (key o = key g)) && negb (includes ignore (key o))
                 && bool_decide (g_project o = g_project g)
                 && bool_decide (h_antiAffinity (g_hints o) = Some group)
                 && bool_decide (where_is s o = member)) guests
  | None => false
  end.
End state.

(** [spread] as the module exports it. *)
Definition spread (members : list Member) (guests : list Guest) (method : Method) (mode : Mode) : Qc :=
  spread_of members (new_state members guests mode) method.

(** ** Planning *)

(** 1e-9 *)
Definition eps : Qc := Q2Qc (Qmake 1 1000000000).

Record Best := { b_unit : list Guest; b_to : string; b_spread : Qc; b_size : Qc }.

(** What the plan has done so far. *)
Record Progress := {
  st : State; p_moves : list Move; p_notes : list Note; moved : list string; capped : bool;
}.

Section plan.
Context `{!Locale} (input : PlanInput).
Abbreviation members := (i_members input).
Abbreviation mode := (i_mode input).
Abbreviation method := (i_method input).

Definition pin_of (g : Guest) : list string := default [] (h_pin (g_hints g)).

(** May [g] be moved by this plan, and to which members. *)
Definition allowed (s : State) (done : list string) (g : Guest) : list string :=
  if negb (g_movable g) || bool_decide (h_balance (g_hints g) = Some false) || includes done (key g) then []
  else
    let on := where_is s g in
    if match find_member members on with Some m => m_maintenance m | None => false end then []
    else js_filter (λ m, negb (bool_decide (m = on))
                         && (bool_decide (pin_of g = []) || includes (pin_of g) m))
           (activeNames members).

Definition note (p : Progress) (n : Note) : Progress :=
  {| st := st p; p_moves := p_moves p; p_notes := p_notes p ++ [n]; moved := moved p; capped := capped p |}.
Definition cap (p : Progress) : Progress :=
  {| st := st p; p_moves := p_moves p; p_notes := p_notes p; moved := moved p; capped := true |}.

Definition record (p : Progress) (g : Guest) (to : string) (reason : MoveReason) : Progress * bool :=
  if (i_maxMoves input <=? Z.of_nat (length (p_moves p)))%Z then (cap p, false)
  else ({| st := move mode (st p) g to;
           p_moves := p_moves p ++ [{| mv_project := g_project g; mv_name := g_name g;
                                       mv_from := where_is (st p) g; mv_to := to; mv_reason := reason |}];
           p_notes := p_notes p; moved := set_add (moved p) (key g); capped := capped p |}, true).

(** The allowed target with the lowest load that fits and keeps anti-affinity. *)
Definition leastLoaded (s : State) (g : Guest) (targets : list string) : option string :=
  head (js_sort (λ a b, cmp_then (Qccompare (percent members s a method) (percent members s b method))
                                 (locale_compare a b))
          (js_filter (λ t, fits members mode s [g] t method
                           && negb (antiConflict (i_guests input) s g t [])) targets)).

Definition guests : list Guest :=
  js_sort (λ a b, locale_compare (key a) (key b)) (i_guests input).

(** *** The best move off one member *)

Definition can_leave (s : State) (done : list string) (source : string) (o : Guest) : bool :=
  bool_decide (where_ s !! key o = Some source) && negb (bool_decide (allowed s done o = [])).

Definition same_affinity (g o : Guest) : bool :=
  bool_decide (g_project o = g_project g) && bool_decide (h_affinity (g_hints o) = h_affinity (g_hints g)).

(** The units on [source]: a guest, or a whole affinity group all there. *)
Fixpoint units_from (s : State) (done : list string) (source : string)
    (here : list Guest) (seen : list string) : list (list Guest) :=
  match here with
  | [] => []
  | g :: here =>
      if includes seen (key g) then units_from s done source here seen
      else if truthy_opt_str (h_affinity (g_hints g)) then
        let group := js_filter (same_affinity g) guests in
        if every (can_leave s done source) group
        then group :: units_from s done source here (foldl set_add seen (key <$> group))
        else units_from s done source here seen
      else [g] :: units_from s done source here (set_add seen (key g))
  end.

Definition better (after_ sz : Qc) (unit : list Guest) (best : option Best) : bool :=
  match best with
  | None => true
  | Some b =>
      negb (Qc_leb (b_spread b - eps) after_)
      || (negb (Qc_leb eps (after_ - b_spread b)) && negb (Qc_leb eps (b_spread b - after_))
          && (negb (Qc_leb sz (b_size b))
              || (bool_decide (sz = b_size b)
                  && match head unit, head (b_unit b) with
                     | Some x, Some y => match String.compare (key x) (key y) with Lt => true | _ => false end
                     | _, _ => false
                     end)))
  end.

(** One target for one unit: moved there, measured, moved back. *)
Definition try_target (source : string) (current : Qc) (unit : list Guest)
    (acc : State * option Best) (to : string) : State * option Best :=
  let '(s, best) := acc in
  if negb (fits members mode s unit to method)
     || some (λ g, antiConflict (i_guests input) s g to (key <$> unit)) unit then acc
  else
    let s1 := foldl (λ s g, move mode s g to) s unit in
    let after_ := spread_of members s1 method in
    let s2 := foldl (λ s g, move mode s g source) s1 unit in
    if Qc_leb (current - eps) after_ then (s2, best)
    else
      let sz := foldl (λ n g, n + size mode g method) 0 unit in
      (s2, if better after_ sz unit best
           then Some {| b_unit := unit; b_to := to; b_spread := after_; b_size := sz |}
           else best).

Definition try_unit (done : list string) (source : string) (current : Qc)
    (acc : State * option Best) (unit : list Guest) : State * option Best :=
  let s := acc.1 in
  let targets := js_filter (λ t, every (λ g, includes (allowed s done g) t) unit) (activeNames members) in
  foldl (try_target source current unit) acc targets.

(** The move of a unit off [source] that leaves the lowest spread, if any improves on [current]. *)
Definition bestMove (s : State) (done : list string) (source : string) (current : Qc) : State * option Best :=
  let here := js_filter (can_leave s done source) guests in
  foldl (try_unit done source current) (s, None) (units_from s done source here []).

(** *** 1. Pins *)

Definition pin_step (p : Progress) (g : Guest) : Progress :=
  if bool_decide (pin_of g = []) || includes (pin_of g) (where_is (st p) g) then p
  else
    let to := leastLoaded (st p) g (allowed (st p) (moved p) g) in
    match to with
    | Some t => if truthy_str t then (record p g t ForPin).1 else note p (CannotPin (key g) (pin_of g))
    | None => note p (CannotPin (key g) (pin_of g))
    end.

(** *** 2. Anti-affinity: one of each group per member *)

Definition anti_guest (acc : Progress * list string) (g : Guest) : Progress * list string :=
  let '(p, seen) := acc in
  let on := where_is (st p) g in
  if negb (includes seen on) then (p, set_add seen on)
  else
    match leastLoaded (st p) g (js_filter (λ t, negb (includes seen t)) (allowed (st p) (moved p) g)) with
    | Some t =>
        if truthy_str t then
          let '(p, ok) := record p g t ForAntiAffinity in
          (p, if ok then set_add seen t else seen)
        else (p, seen)
    | None => (p, seen)
    end.

Definition anti_step (p : Progress) (group : string * list Guest) : Progress :=
  let ms := group.2 in
  let p := match ms with
           | g :: _ =>
               if (length (activeNames members) <? length ms)%nat
               then note p (GroupTooLarge (default EmptyString (h_antiAffinity (g_hints g))) (g_project g)
                              (length ms) (length (activeNames members)))
               else p
           | [] => p
           end in
  (foldl anti_guest (p, []) ms).1.

Definition anti_groups : js_map string (list Guest) :=
  groupBy (js_filter (λ g, truthy_opt_str (h_antiAffinity (g_hints g))) guests)
    (λ g, g_project g +++ "/" +++ default EmptyString (h_antiAffinity (g_hints g))).

(** *** 3. Affinity: gather a split group where most of it runs *)

Definition count_members (s : State) (ms : list Guest) : js_map string Z :=
  foldl (λ m g, map_set m (where_is s g) (default 0%Z (map_get m (where_is s g)) + 1)%Z) [] ms.

Definition home_of (count : js_map string Z) : option string :=
  fst <$> head (js_sort (λ a b, cmp_then (Z.compare b.2 a.2) (locale_compare a.1 b.1))
                  (js_filter (λ c, includes (activeNames members) c.1) count)).

Definition join_home (home : string) (p : Progress) (g : Guest) : Progress :=
  if bool_decide (where_ (st p) !! key g = Some home) then p
  else if includes (allowed (st p) (moved p) g) home && fits members mode (st p) [g] home method
          && negb (antiConflict (i_guests input) (st p) g home [])
  then (record p g home ForAffinity).1
  else note p (CannotJoin (key g) (default EmptyString (h_affinity (g_hints g))) home).

Definition affinity_step (p : Progress) (group : string * list Guest) : Progress :=
  let ms := group.2 in
  let count := count_members (st p) ms in
  if (length count <? 2)%nat then p
  else match home_of count with
       | Some home => if truthy_str home then foldl (join_home home) p ms else p
       | None => p
       end.

Definition aff_groups : js_map string (list Guest) :=
  groupBy (js_filter (λ g, truthy_opt_str (h_affinity (g_hints g))) guests)
    (λ g, g_project g +++ "/" +++ default EmptyString (h_affinity (g_hints g))).

(** *** 4. Balance *)

(** The first source, busiest first, that has an improving move. *)
Fixpoint first_best (s : State) (done : list string) (current : Qc) (sources : list string) : State * option Best :=
  match sources with
  | [] => (s, None)
  | source :: rest =>
      let '(s, best) := bestMove s done source current in
      match best with
      | Some b => (s, Some b)
      | None => first_best s done current rest
      end
  end.

Definition sources (s : State) : list string :=
  js_sort (λ a b, cmp_then (Qccompare (percent members s b method) (percent members s a method))
                           (locale_compare a b))
    (activeNames members).

Definition set_state (p : Progress) (s : State) : Progress :=
  {| st := s; p_moves := p_moves p; p_notes := p_notes p; moved := moved p; capped := capped p |}.

Inductive Outcome := Break (p : Progress) | Continue (p : Progress).

(** One turn of the loop. *)
Definition balance_turn (p : Progress) : Outcome :=
  if Qc_leb (spread_of members (st p) method) (i_balanciness input) || capped p then Break p
  else
    let current := spread_of members (st p) method in
    let '(s, best) := first_best (st p) (moved p) current (sources (st p)) in
    let p := set_state p s in
    match best with
    | None => Break (note p (NoImprovement current))
    | Some b =>
        if (i_maxMoves input <? Z.of_nat (length (p_moves p)) + Z.of_nat (length (b_unit b)))%Z
        then Break (cap p)
        else Continue (foldl (λ p g, (record p g (b_to b) ForBalance).1) p (b_unit b))
    end.

(** [for (;;)], with at most [fuel] turns; [None] when they are used up. *)
Fixpoint balance_loop (fuel : nat) (p : Progress) : option Progress :=
  match fuel with
  | 0%nat => None
  | S fuel =>
      match balance_turn p with
      | Break p => Some p
      | Continue p => balance_loop fuel p
      end
  end.

Definition start : Progress :=
  {| st := new_state members (i_guests input) mode; p_moves := []; p_notes := []; moved := []; capped := false |}.
Definition after_hints : Progress :=
  let p := foldl pin_step start guests in
  let p := foldl anti_step p anti_groups in
  foldl affinity_step p aff_groups.

(** Every turn but the last records at least one move. *)
Definition plan_fuel : nat := S (Z.to_nat (i_maxMoves input)).

Definition plan : option Plan :=
  match balance_loop plan_fuel after_hints with
  | None => None
  | Some p =>
      let p := if capped p then note p (StoppedAfter (length (p_moves p))) else p in
      Some {| before := spread_of members (st start) method;
              after := spread_of members (st p) method;
              moves := p_moves p; notes := p_notes p |}
  end.
End plan.
