(* ===== verification/BalancingMoves.v ===== *)
(** * BalancingMoves: moving guests between members

    Facts of the working state of a plan: moving a guest and moving it back
    changes nothing, moves of different guests commute, and the state built
    from a cluster in which a move has been made is the state after the move. *)

From Stdlib Require Import QArith.QArith_base QArith.Qcanon.
From S2P Require Import Prelude JsString Balancing.
Open Scope Qc_scope.

(** ** Resources and comparisons *)

Lemma Resources_eq a b :
  r_memory a = r_memory b → r_cpu a = r_cpu b → r_disk a = r_disk b → a = b.
Proof. destruct a, b; simpl; by intros -> -> ->. Qed.

Ltac res_ring := intros; apply Resources_eq; simpl; ring.

Lemma res_add_sub l a : res_add (res_sub l a) a = l.
Proof. res_ring. Qed.
Lemma res_sub_add l a : res_sub (res_add l a) a = l.
Proof. res_ring. Qed.
Lemma res_get_add l a r : res_get (res_add l a) r = res_get l r + res_get a r.
Proof. by destruct r. Qed.
Lemma res_get_sub l a r : res_get (res_sub l a) r = res_get l r - res_get a r.
Proof. by destruct r. Qed.

Lemma Qc_leb_true a b : Qc_leb a b = true ↔ a <= b.
Proof.
  unfold Qc_leb. rewrite Qcle_alt. by destruct (a ?= b).
Qed.

Lemma Qc_leb_false a b : Qc_leb a b = false ↔ b < a.
Proof.
  split; intros H.
  - apply Qcnot_le_lt. intros Hl. apply Qc_leb_true in Hl. congruence.
  - destruct (Qc_leb a b) eqn:E; [|done]. apply Qc_leb_true in E.
    exfalso. by apply (Qclt_not_le _ _ H).
Qed.

Lemma Qc_minus_eps_lt a : a - eps < a.
Proof.
  apply Qclt_minus_iff. replace (a + - (a - eps)) with eps by ring. reflexivity.
Qed.

(** ** Moving guests, and moving them back *)

Section moving.
Context (mode : Mode).
Abbreviation move := (move mode).

Lemma alter_swap {V} (f g : V → V) (i j : string) (m : gmap string V) :
  (∀ x, f (g x) = g (f x)) → alter f i (alter g j m) = alter g j (alter f i m).
Proof.
  intros Hfg. destruct (decide (i = j)) as [->|Hne].
  - rewrite !alter_alter_eq. apply alter_ext. intros x _. apply Hfg.
  - by apply alter_alter_ne.
Qed.

Lemma where_is_move_ne s g h to : key g ≠ key h → where_is (move s g to) h = where_is s h.
Proof. intros Hne. unfold where_is, move. simpl. by rewrite lookup_insert_ne. Qed.

Lemma where_move_ne s g to k : key g ≠ k → where_ (move s g to) !! k = where_ s !! k.
Proof. intros Hne. unfold move. simpl. by rewrite lookup_insert_ne. Qed.

Lemma move_comm s g h a b :
  key g ≠ key h → move (move s h b) g a = move (move s g a) h b.
Proof.
  intros Hne. unfold move at 1 3. rewrite (where_is_move_ne s h g), (where_is_move_ne s g h) by done.
  unfold move. simpl. f_equal; [|by apply insert_insert_ne].
  rewrite (alter_swap _ _ (where_is s g) b), (alter_swap _ _ (where_is s g) (where_is s h)),
    (alter_swap _ _ a b), (alter_swap _ _ a (where_is s h)) by res_ring.
  done.
Qed.

Definition move_all (s : State) (unit : list Guest) (to : string) : State :=
  foldl (λ s g, move s g to) s unit.

Lemma move_comm_all s unit g a b :
  key g ∉ key <$> unit → move (move_all s unit b) g a = move_all (move s g a) unit b.
Proof.
  revert s. induction unit as [|h unit IH]; intros s Hg; csimpl; [done|].
  csimpl in Hg. apply not_elem_of_cons in Hg as [Hne Hg].
  rewrite IH by done. by rewrite move_comm.
Qed.

Lemma move_back s g to source :
  where_ s !! key g = Some source → move (move s g to) g source = s.
Proof.
  intros Hw. unfold move. unfold where_is at 1 2. simpl.
  rewrite lookup_insert_eq. simpl. destruct s as [ld wh]. unfold where_is; simpl in *. rewrite Hw. simpl.
  f_equal; [|by rewrite insert_insert_eq, insert_id].
  rewrite (alter_alter_eq _ _ _ to), (alter_id _ _ to) by (intros; apply res_sub_add).
  rewrite alter_alter_eq. apply alter_id. intros; apply res_add_sub.
Qed.

Lemma move_all_back s unit to source :
  NoDup (key <$> unit) → (∀ g, g ∈ unit → where_ s !! key g = Some source) →
  move_all (move_all s unit to) unit source = s.
Proof.
  revert s. induction unit as [|g unit IH]; intros s Hnd Hw; csimpl; [done|].
  csimpl in Hnd. apply NoDup_cons in Hnd as [Hg Hnd].
  rewrite move_comm_all by done. rewrite move_back by (apply Hw; by left).
  apply IH; [done|]. intros h Hh. apply Hw. by right.
Qed.

Lemma where_move_all_ne s unit to k :
  k ∉ key <$> unit → where_ (move_all s unit to) !! k = where_ s !! k.
Proof.
  revert s. induction unit as [|g unit IH]; intros s Hk; csimpl; [done|].
  csimpl in Hk. apply not_elem_of_cons in Hk as [Hne Hk].
  rewrite IH by done. by rewrite where_move_ne.
Qed.

Lemma where_move_all s unit to k :
  k ∈ key <$> unit → where_ (move_all s unit to) !! k = Some to.
Proof.
  revert s. induction unit as [|g unit IH]; intros s Hk; csimpl in Hk; [by apply elem_of_nil in Hk|].
  csimpl. destruct (decide (k ∈ key <$> unit)) as [Hin|Hnin]; [by apply IH|].
  rewrite where_move_all_ne by done. apply elem_of_cons in Hk as [->|Hk]; [|done].
  simpl. apply lookup_insert_eq.
Qed.
End moving.

(** ** The cluster once a move has been made

    The specification of what executing a move does, independent of the
    plan's working state: the guest is on its target, and what it uses has
    gone from one member's use to the other's. *)

Definition mv_key (m : Move) : string := mv_project m +++ "/" +++ mv_name m.

Definition guest_at (g : Guest) (to : string) : Guest :=
  {| g_project := g_project g; g_name := g_name g; g_member := to; g_type := g_type g; g_running := g_running g;
     g_movable := g_movable g;
     g_used := g_used g; g_assigned := g_assigned g; g_hints := g_hints g |}.
Definition relocate (g : Guest) (to : string) (h : Guest) : Guest :=
  if bool_decide (key h = key g) then guest_at h to else h.

Definition shifted (g : Guest) (to name : string) (u : Resources) : Resources :=
  let u := if bool_decide (name = g_member g) then res_sub u (g_used g) else u in
  if bool_decide (name = to) then res_add u (g_used g) else u.
Definition shift_member (g : Guest) (to : string) (m : Member) : Member :=
  {| m_name := m_name m; m_maintenance := m_maintenance m; m_total := m_total m;
     m_used := shifted g to (m_name m) (m_used m) |}.

Definition cluster : Type := list Member * list Guest.
Definition execute (c : cluster) (mv : Move) : cluster :=
  match js_find (λ g, bool_decide (key g = mv_key mv)) c.2 with
  | Some g => (shift_member g (mv_to mv) <$> c.1, relocate g (mv_to mv) <$> c.2)
  | None => c
  end.

Section relocate.
Context (mode : Mode) (g : Guest) (to : string).

Lemma key_guest_at h : key (guest_at h to) = key h.
Proof. done. Qed.
Lemma key_relocate h : key (relocate g to h) = key h.
Proof. unfold relocate. by case_bool_decide. Qed.
Lemma size_relocate h : size_of mode (relocate g to h) = size_of mode h.
Proof. unfold relocate. by case_bool_decide; destruct mode. Qed.

Definition shift_load (l : gmap string Resources) : gmap string Resources :=
  alter (λ x, res_add x (g_used g)) to (alter (λ x, res_sub x (g_used g)) (g_member g) l).

Lemma shift_load_insert l n u : shift_load (<[n := u]> l) = <[n := shifted g to n u]> (shift_load l).
Proof.
  unfold shift_load, shifted. apply map_eq. intros i.
  destruct (decide (n = i)) as [->|Hn].
  - rewrite lookup_insert_eq, !lookup_alter, lookup_insert_eq.
    repeat case_decide; repeat case_bool_decide; simplify_eq/=; by rewrite ?lookup_insert_eq.
  - rewrite lookup_insert_ne, !lookup_alter by done.
    repeat case_decide; subst; by rewrite ?lookup_insert_ne.
Qed.

Lemma base_shift ms l :
  foldl (λ l m, <[m_name m := m_used m]> l) (shift_load l) (shift_member g to <$> ms)
  = shift_load (foldl (λ l m, <[m_name m := m_used m]> l) l ms).
Proof.
  revert l. induction ms as [|m ms IH]; intros l; csimpl; [done|].
  by rewrite <-IH, shift_load_insert.
Qed.

Lemma base_zero ms (l : gmap string Resources) :
  foldl (λ l m, <[m_name m := res_zero]> l) l (shift_member g to <$> ms)
  = foldl (λ l m, <[m_name m := res_zero]> l) l ms.
Proof. revert l. induction ms as [|m ms IH]; intros l; csimpl; [done|]. apply IH. Qed.

Lemma relocate_others (gs : list Guest) : key g ∉ key <$> gs → relocate g to <$> gs = gs.
Proof.
  induction gs as [|h gs IH]; csimpl; [done|]. intros [Hne Hn]%not_elem_of_cons.
  rewrite IH by done. unfold relocate. by rewrite bool_decide_eq_false_2.
Qed.

Abbreviation places w0 gs := (foldl (λ (w : gmap string string) h, <[key h := g_member h]> w) w0 gs).
Abbreviation assigns l0 gs := (foldl (λ (l : gmap string Resources) h, alter (λ l, res_add l (g_assigned h)) (g_member h) l) l0 gs).

Lemma places_relocate (gs : list Guest) w :
  NoDup (key <$> gs) → g ∈ gs →
  places w (relocate g to <$> gs) = <[key g := to]> (places w gs) ∧ places w gs !! key g = Some (g_member g).
Proof.
  induction gs as [|h gs IH] using rev_ind; intros Hnd Hg; [by apply elem_of_nil in Hg|].
  rewrite fmap_app in Hnd. rewrite fmap_app. apply NoDup_app in Hnd as (Hnd & Hdis & _).
  rewrite !foldl_app. csimpl. destruct (decide (key h = key g)) as [Heq|Hne].
  - assert (key g ∉ key <$> gs) as Hn by (intros Hin; apply (Hdis _ Hin); csimpl; rewrite Heq; by left).
    apply elem_of_app in Hg as [Hg| <-%list_elem_of_singleton]; [by destruct Hn; apply list_elem_of_fmap_2|].
    rewrite relocate_others by done. unfold relocate. rewrite bool_decide_eq_true_2 by done. simpl.
    by rewrite insert_insert_eq, lookup_insert_eq.
  - apply elem_of_app in Hg as [Hg|Hg%list_elem_of_singleton]; [|by subst].
    destruct (IH Hnd Hg) as [-> Hl]. rewrite lookup_insert_ne by done.
    unfold relocate. rewrite bool_decide_eq_false_2 by done.
    split; [|done]. by rewrite insert_insert_ne.
Qed.

Lemma assigns_relocate (gs : list Guest) l :
  NoDup (key <$> gs) → g ∈ gs →
  assigns l (relocate g to <$> gs)
  = alter (λ x, res_add x (g_assigned g)) to (alter (λ x, res_sub x (g_assigned g)) (g_member g) (assigns l gs)).
Proof.
  induction gs as [|h gs IH] using rev_ind; intros Hnd Hg; [by apply elem_of_nil in Hg|].
  rewrite fmap_app in Hnd. rewrite fmap_app. apply NoDup_app in Hnd as (Hnd & Hdis & _).
  rewrite !foldl_app. csimpl. destruct (decide (key h = key g)) as [Heq|Hne].
  - assert (key g ∉ key <$> gs) as Hn by (intros Hin; apply (Hdis _ Hin); csimpl; rewrite Heq; by left).
    apply elem_of_app in Hg as [Hg| <-%list_elem_of_singleton]; [by destruct Hn; apply list_elem_of_fmap_2|].
    rewrite relocate_others by done. unfold relocate. rewrite bool_decide_eq_true_2 by done. simpl.
    rewrite (alter_alter_eq _ _ _ (g_member g)), (alter_id _ _ (g_member g)) by (intros; apply res_sub_add). done.
  - apply elem_of_app in Hg as [Hg|Hg%list_elem_of_singleton]; [|by subst].
    rewrite (IH Hnd Hg). unfold relocate. rewrite bool_decide_eq_false_2 by done.
    rewrite (alter_swap _ _ (g_member h) to), (alter_swap _ _ (g_member h) (g_member g)) by res_ring. done.
Qed.

Lemma new_state_split ms gs :
  new_state ms gs mode =
    {| load := match mode with
               | Used => foldl (λ l m, <[m_name m := m_used m]> l) ∅ ms
               | Assigned => assigns (foldl (λ l m, <[m_name m := res_zero]> l) ∅ ms) gs
               end;
       where_ := places ∅ gs |}.
Proof.
  unfold new_state.
  assert (∀ l w, foldl (λ s g0,
      {| load := match mode with
                 | Used => load s
                 | Assigned => alter (λ l, res_add l (g_assigned g0)) (g_member g0) (load s)
                 end;
         where_ := <[key g0 := g_member g0]> (where_ s) |}) {| load := l; where_ := w |} gs
    = {| load := match mode with Used => l | Assigned => assigns l gs end; where_ := places w gs |}) as Hf.
  { induction gs as [|h gs IH]; intros l w; simpl; [by destruct mode|].
    rewrite IH. by destruct mode. }
  rewrite Hf. by destruct mode.
Qed.

(** The state built from the cluster with [g] relocated is the state after moving [g]. *)
Lemma new_state_relocate ms gs :
  NoDup (key <$> gs) → g ∈ gs →
  new_state (shift_member g to <$> ms) (relocate g to <$> gs) mode = move mode (new_state ms gs mode) g to.
Proof.
  intros Hnd Hg. rewrite !new_state_split. unfold move, where_is. simpl.
  destruct (places_relocate gs ∅ Hnd Hg) as [-> ->]. simpl. f_equal.
  unfold size_of. destruct mode.
  - pose proof (base_shift ms ∅) as Hb. unfold shift_load at 1 in Hb. by rewrite !alter_empty in Hb.
  - by rewrite base_zero, assigns_relocate.
Qed.

Lemma spread_shift ms s r : spread_of (shift_member g to <$> ms) s r = spread_of ms s r.
Proof.
  assert (∀ n, find_member (shift_member g to <$> ms) n = shift_member g to <$> find_member ms n) as Hf.
  { intros n. unfold find_member, js_find. induction ms as [|m ms' IH]; csimpl; [done|]. by case_bool_decide. }
  unfold spread_of, active. f_equal. rewrite (js_filter_fmap _ (λ m, negb (m_maintenance m))) by done.
  rewrite <-list_fmap_compose. apply list_fmap_ext. intros i m _. simpl. unfold percent.
  rewrite Hf. by destruct (find_member ms (m_name m)).
Qed.
End relocate.
