(* ===== verification/BalancingTheory.v ===== *)
(** * BalancingTheory: what a balancing plan promises

    A plan is a sequence of steps from the state the cluster is in: a batch of
    guests recorded together, or bookkeeping. Everything [plan] does is such a
    sequence ([plan_steps]), so what every step preserves holds of every plan:
    moves are legal, no guest moves twice, the policy's maximum is kept,
    members are not overfilled and anti-affinity conflicts are not created. The
    search for the best move tries moves and takes them back; it leaves the
    state as it found it. *)

From Stdlib Require Import QArith.QArith_base QArith.Qcanon.
From S2P Require Import Prelude JsString Effects Balancing BalancingMoves.
Open Scope Qc_scope.

(** ** Steps of a plan *)

Section theory.
Context `{!Locale} (input : PlanInput).
Hypothesis Hkeys : NoDup (key <$> i_guests input).

Abbreviation members := (i_members input).
Abbreviation mode := (i_mode input).
Abbreviation method := (i_method input).
Abbreviation allowed := (allowed input).
Abbreviation guests := (guests input).

Lemma elem_of_guests g : g ∈ guests ↔ g ∈ i_guests input.
Proof. apply elem_of_js_sort. Qed.

Lemma NoDup_guests : NoDup (key <$> guests).
Proof. unfold Balancing.guests. by rewrite (js_sort_perm _ (i_guests input)). Qed.

Lemma NoDup_filter_guests p : NoDup (key <$> js_filter p guests).
Proof.
  eapply sublist_NoDup; [apply NoDup_guests|].
  apply fmap_sublist, js_filter_sublist.
Qed.

Lemma key_inj g h : g ∈ i_guests input → h ∈ i_guests input → key g = key h → g = h.
Proof.
  intros Hg Hh Heq. apply list_elem_of_lookup in Hg as [i Hi]. apply list_elem_of_lookup in Hh as [j Hj].
  assert (i = j) as ->.
  { eapply (NoDup_lookup (key <$> i_guests input)); [done| |];
      rewrite list_lookup_fmap, ?Hi, ?Hj; simpl; [done|by rewrite Heq]. }
  congruence.
Qed.

(** What holds when a batch of guests is recorded: it may go from [source] to [to]. *)
Record batch (s : State) (done : list string) (unit : list Guest) (source to : string) : Prop := {
  batch_nonempty : unit ≠ [];
  batch_nodup : NoDup (key <$> unit);
  batch_guests g : g ∈ unit → g ∈ i_guests input;
  batch_where g : g ∈ unit → where_ s !! key g = Some source;
  batch_allowed g : g ∈ unit → to ∈ allowed s done g;
  batch_fits : fits members mode s unit to method = true;
  batch_anti g : g ∈ unit → antiConflict (i_guests input) s g to (key <$> unit) = false;
}.

Definition record_all (p : Progress) (unit : list Guest) (to : string) (reason : MoveReason) : Progress :=
  foldl (λ p g, (record input p g to reason).1) p unit.

Definition mk_move (s : State) (to : string) (reason : MoveReason) (g : Guest) : Move :=
  {| mv_project := g_project g; mv_name := g_name g; mv_from := where_is s g; mv_to := to; mv_reason := reason |}.

(** Within the maximum, a batch is recorded as a whole. *)
Lemma record_all_eq p unit to reason :
  NoDup (key <$> unit) →
  (Z.of_nat (length (p_moves p)) + Z.of_nat (length unit) <= i_maxMoves input)%Z →
  record_all p unit to reason =
    {| st := move_all mode (st p) unit to;
       p_moves := p_moves p ++ (mk_move (st p) to reason <$> unit);
       p_notes := p_notes p; moved := foldl set_add (moved p) (key <$> unit); capped := capped p |}.
Proof.
  revert p. induction unit as [|g unit IH]; intros p Hnd Hlen.
  - simpl. rewrite app_nil_r. by destruct p.
  - csimpl in Hnd. apply NoDup_cons in Hnd as [Hg Hnd]. simpl length in Hlen.
    change (record_all p (g :: unit) to reason) with (record_all (record input p g to reason).1 unit to reason).
    unfold record. assert ((i_maxMoves input <=? Z.of_nat (length (p_moves p)))%Z = false) as -> by lia.
    rewrite IH; [|done|simpl; rewrite length_app; simpl; lia]. simpl. f_equal.
    rewrite <-(assoc_L (++)). f_equal. simpl. f_equal.
    apply list_fmap_ext. intros i h Hh. unfold mk_move. f_equal. apply where_is_move_ne.
    intros Heq. apply Hg. rewrite Heq. apply list_elem_of_fmap. exists h. split; [done|].
    by eapply list_elem_of_lookup_2.
Qed.

(** The steps a plan is made of. *)
Inductive step (p : Progress) : Progress → Prop :=
  | step_batch unit source to reason :
      batch (st p) (moved p) unit source to →
      (Z.of_nat (length (p_moves p)) + Z.of_nat (length unit) <= i_maxMoves input)%Z →
      step p (record_all p unit to reason)
  | step_cap : step p (cap p)
  | step_note n : step p (note p n).

(** *** The best move is found without disturbing the state *)

Record good_best (s : State) (done : list string) (source : string) (current : Qc) (b : Best) : Prop := {
  good_batch : batch s done (b_unit b) source (b_to b);
  good_spread : b_spread b = spread_of members (move_all mode s (b_unit b) (b_to b)) method;
  good_improves : b_spread b < current - eps;
}.

Record good_unit (s : State) (source : string) (unit : list Guest) : Prop := {
  unit_nonempty : unit ≠ [];
  unit_nodup : NoDup (key <$> unit);
  unit_guests g : g ∈ unit → g ∈ i_guests input;
  unit_where g : g ∈ unit → where_ s !! key g = Some source;
}.

Lemma can_leave_where s done source g :
  can_leave input s done source g = true → where_ s !! key g = Some source.
Proof. unfold can_leave. intros Hl. by bool_prop. Qed.

Lemma units_from_good s done source here seen unit :
  (∀ g, g ∈ here → g ∈ guests ∧ where_ s !! key g = Some source) →
  unit ∈ units_from input s done source here seen → good_unit s source unit.
Proof.
  revert seen. induction here as [|g here IH]; intros seen Hh Hu; simpl in Hu; [by apply elem_of_nil in Hu|].
  assert (∀ h, h ∈ here → h ∈ guests ∧ where_ s !! key h = Some source) as Hh' by (intros; apply Hh; by right).
  destruct (Hh g) as [Hg Hw]; [by left|].
  repeat case_match; eauto; apply elem_of_cons in Hu as [->|Hu]; eauto.
  - split.
    + intros Hnil. pose proof (proj1 (js_filter_nil _ _) Hnil g Hg) as Hs.
      unfold same_affinity in Hs. rewrite !bool_decide_eq_true_2 in Hs; done.
    + apply NoDup_filter_guests.
    + intros h Hin. apply elem_of_js_filter in Hin as [Hin _]. by apply elem_of_guests.
    + intros h Hin. eapply can_leave_where, every_spec; done.
  - split; [done|csimpl; apply NoDup_singleton|..]; intros h ->%list_elem_of_singleton; [by apply elem_of_guests|done].
Qed.

Lemma try_target_good s done source current unit best to :
  good_unit s source unit → (∀ g, g ∈ unit → to ∈ allowed s done g) →
  (∀ b, best = Some b → good_best s done source current b) →
  (try_target input source current unit (s, best) to).1 = s ∧
  ∀ b, (try_target input source current unit (s, best) to).2 = Some b → good_best s done source current b.
Proof.
  intros [Hne Hnd Hg Hw] Hto Hbest. unfold try_target.
  destruct (negb _ || _) eqn:Ec; [done|]. bool_prop.
  change (foldl (λ s g, move mode s g to) s unit) with (move_all mode s unit to).
  change (foldl (λ s g, move mode s g source) (move_all mode s unit to) unit)
    with (move_all mode (move_all mode s unit to) unit source).
  rewrite move_all_back by done.
  destruct (Qc_leb _ _) eqn:El; [done|]. split; [done|]. simpl.
  destruct (better _ _ _ _); [|done]. intros b [= <-].
  split; simpl; [|done|by apply Qc_leb_false].
  split; try done. by apply some_false.
Qed.

Lemma bestMove_good s done source current :
  (bestMove input s done source current).1 = s ∧
  ∀ b, (bestMove input s done source current).2 = Some b → good_best s done source current b.
Proof.
  unfold bestMove.
  apply (foldl_inv (λ acc, acc.1 = s ∧ ∀ b, acc.2 = Some b → good_best s done source current b)); [done|].
  intros [s' best] unit Hu [Hs Hb]. simpl in Hs. subst s'.
  assert (good_unit s source unit) as Hgood.
  { eapply units_from_good; [|exact Hu]. intros g Hg. apply elem_of_js_filter in Hg as [Hg Hc].
    split; [done|]. by eapply can_leave_where. }
  unfold try_unit. simpl.
  apply (foldl_inv (λ acc, acc.1 = s ∧ ∀ b, acc.2 = Some b → good_best s done source current b)); [done|].
  intros [s' best'] to Hto [Hs' Hb']. simpl in Hs'. subst s'.
  apply try_target_good; [done| |done].
  intros g Hg. apply elem_of_js_filter in Hto as [_ Hev].
  rewrite every_spec in Hev. by apply includes_spec, Hev.
Qed.

Lemma first_best_good s done current srcs :
  (first_best input s done current srcs).1 = s ∧
  ∀ b, (first_best input s done current srcs).2 = Some b → ∃ source, good_best s done source current b.
Proof.
  induction srcs as [|source srcs IH]; simpl; [done|].
  destruct (bestMove_good s done source current) as [Hs Hb].
  destruct (bestMove _ _ _ _ _) as [s' [b|]]; simpl in *; subst; [|done].
  split; [done|]. intros ? [= <-]. eauto.
Qed.

(** *** A plan is a sequence of steps *)

Definition located (s : State) : Prop := ∀ g, g ∈ i_guests input → is_Some (where_ s !! key g).
Definition reached (p : Progress) : Prop := rtc step (start input) p.

Lemma located_start : located (st (start input)).
Proof.
  intros g Hg. unfold start, new_state. simpl.
  set (s0 := {| load := _; where_ := ∅ |}). generalize s0. clear s0.
  revert Hg. generalize (i_guests input) as gs. clear Hkeys.
  induction gs as [|h gs IH] using rev_ind; intros Hg s0; [by apply elem_of_nil in Hg|].
  rewrite foldl_app. simpl. apply elem_of_app in Hg as [Hg|Hg%list_elem_of_singleton].
  - destruct (decide (key h = key g)) as [->|Hne]; [rewrite lookup_insert_eq; eauto|].
    rewrite lookup_insert_ne by done. by apply IH.
  - subst. rewrite lookup_insert_eq. eauto.
Qed.

Lemma located_move_all s unit to : located s → located (move_all mode s unit to).
Proof.
  intros Hs g Hg. destruct (decide (key g ∈ key <$> unit)).
  - rewrite where_move_all by done. eauto.
  - rewrite where_move_all_ne by done. by apply Hs.
Qed.

Lemma reached_located p : reached p → located (st p).
Proof.
  apply (rtc_preserves step (λ p, located (st p))); [|apply located_start].
  intros x y Hx [unit source to reason Hb Hlen| |n]; [|done..].
  rewrite record_all_eq by (done || apply Hb). by apply located_move_all.
Qed.

Lemma where_is_located s g : located s → g ∈ i_guests input → where_ s !! key g = Some (where_is s g).
Proof. intros Hs Hg. destruct (Hs g Hg) as [m Hm]. unfold where_is. by rewrite Hm. Qed.

Lemma reached_note p n : reached p → reached (note p n).
Proof. intros Hr. eapply rtc_r; [exact Hr|constructor]. Qed.
Lemma reached_cap p : reached p → reached (cap p).
Proof. intros Hr. eapply rtc_r; [exact Hr|constructor]. Qed.

Lemma reached_batch p unit source to reason :
  reached p → batch (st p) (moved p) unit source to →
  (Z.of_nat (length (p_moves p)) + Z.of_nat (length unit) <= i_maxMoves input)%Z →
  reached (record_all p unit to reason).
Proof. intros Hr Hb Hlen. eapply rtc_r; [exact Hr|by econstructor]. Qed.

Lemma antiConflict_self s g t : antiConflict (i_guests input) s g t [key g] = antiConflict (i_guests input) s g t [].
Proof.
  unfold antiConflict. destruct (h_antiAffinity (g_hints g)) as [group|]; [|done]. f_equal.
  apply some_ext. intros o _. destruct (decide (key o = key g)) as [->|Hne].
  - by rewrite bool_decide_eq_true_2.
  - rewrite (bool_decide_eq_false_2 (key o = key g)) by done. do 4 f_equal.
    unfold includes. rewrite !bool_decide_eq_false_2; [done|try apply not_elem_of_nil; by rewrite ?list_elem_of_singleton..].
Qed.

Lemma single_batch p g t :
  reached p → g ∈ guests → t ∈ allowed (st p) (moved p) g →
  fits members mode (st p) [g] t method = true →
  antiConflict (i_guests input) (st p) g t [] = false →
  batch (st p) (moved p) [g] (where_is (st p) g) t.
Proof.
  intros Hr Hg%elem_of_guests Ht Hf Ha. pose proof (reached_located p Hr) as Hl.
  split; try done; try (intros h ->%list_elem_of_singleton); try done.
  - apply NoDup_singleton.
  - by apply where_is_located.
  - csimpl. by rewrite antiConflict_self.
Qed.

Lemma reached_record p g t reason :
  reached p → g ∈ guests → t ∈ allowed (st p) (moved p) g →
  fits members mode (st p) [g] t method = true →
  antiConflict (i_guests input) (st p) g t [] = false →
  reached (record input p g t reason).1.
Proof.
  intros Hr Hg Ht Hf Ha. destruct (i_maxMoves input <=? Z.of_nat (length (p_moves p)))%Z eqn:E.
  - unfold record. rewrite E. by apply reached_cap.
  - apply (reached_batch p [g] (where_is (st p) g) t reason Hr); [by apply single_batch|simpl; lia].
Qed.

Lemma leastLoaded_some s g targets t :
  leastLoaded input s g targets = Some t →
  t ∈ targets ∧ fits members mode s [g] t method = true ∧ antiConflict (i_guests input) s g t [] = false.
Proof.
  unfold leastLoaded. intros Hh%head_Some_elem_of.
  apply elem_of_js_sort, elem_of_js_filter in Hh as [Ht Hc]. by bool_prop.
Qed.

Lemma reached_pin p g : g ∈ guests → reached p → reached (pin_step input p g).
Proof.
  intros Hg Hr. unfold pin_step. destruct (_ || _); [done|].
  destruct (leastLoaded _ _ _ _) as [t|] eqn:E; [|by apply reached_note].
  destruct (truthy_str t); [|by apply reached_note].
  apply leastLoaded_some in E as (Ht & Hf & Ha). by apply reached_record.
Qed.

Lemma reached_anti_guest acc g : g ∈ guests → reached acc.1 → reached (anti_guest input acc g).1.
Proof.
  destruct acc as [p seen]. simpl. intros Hg Hr. unfold anti_guest.
  destruct (negb _); [done|].
  destruct (leastLoaded _ _ _ _) as [t|] eqn:E; [|done].
  destruct (truthy_str t); [|done].
  apply leastLoaded_some in E as (Ht & Hf & Ha). apply elem_of_js_filter in Ht as [Ht _].
  pose proof (reached_record p g t ForAntiAffinity Hr Hg Ht Hf Ha) as Hr'.
  by destruct (record _ _ _ _ _).
Qed.

Lemma groupBy_elem {T} (f : T → string) xs k l g :
  (k, l) ∈ groupBy xs f → g ∈ l → g ∈ xs.
Proof.
  unfold groupBy.
  set (P := λ m : js_map string (list T), map_wf m ∧ ∀ k l g, map_get m k = Some l → g ∈ l → g ∈ xs).
  enough (P (foldl (λ m x, map_set m (f x) (default [] (map_get m (f x)) ++ [x])) [] xs)) as [Hwf HP].
  { intros Hin Hg. eapply HP; [|exact Hg]. by apply map_get_elem. }
  apply foldl_inv; [split; [constructor|done]|].
  intros m x Hx [Hwf HP]. split; [by apply map_wf_set|].
  intros k' l' g'. rewrite map_get_set. case_bool_decide as Hk; [|apply HP].
  intros [= <-] [Hin|Hin]%elem_of_app.
  - destruct (map_get m (f x)) eqn:E; simpl in Hin; [by eapply HP|by apply elem_of_nil in Hin].
  - by apply list_elem_of_singleton in Hin as ->.
Qed.

Lemma anti_groups_guests group g : group ∈ anti_groups input → g ∈ group.2 → g ∈ guests.
Proof.
  destruct group as [k l]. simpl. intros Hin Hg. pose proof (groupBy_elem _ _ _ _ _ Hin Hg) as Hx.
  by apply elem_of_js_filter in Hx as [? _].
Qed.
Lemma aff_groups_guests group g : group ∈ aff_groups input → g ∈ group.2 → g ∈ guests.
Proof.
  destruct group as [k l]. simpl. intros Hin Hg. pose proof (groupBy_elem _ _ _ _ _ Hin Hg) as Hx.
  by apply elem_of_js_filter in Hx as [? _].
Qed.

Lemma reached_anti p group : group ∈ anti_groups input → reached p → reached (anti_step input p group).
Proof.
  intros Hgr Hr. unfold anti_step.
  match goal with |- reached (foldl _ (?q, _) _).1 => assert (reached q) as Hq end.
  { repeat case_match; eauto using reached_note. }
  apply (foldl_inv (λ acc, reached acc.1)); [done|].
  intros acc g Hg Hacc. apply reached_anti_guest; [|done]. by eapply anti_groups_guests.
Qed.

Lemma reached_affinity p group : group ∈ aff_groups input → reached p → reached (affinity_step input p group).
Proof.
  intros Hgr Hr. unfold affinity_step. destruct (_ <? _)%nat; [done|].
  destruct (home_of _ _) as [home|]; [|done]. destruct (truthy_str home); [|done].
  apply foldl_inv; [done|]. intros q g Hg Hq. unfold join_home.
  case_bool_decide; [done|]. destruct (_ && _) eqn:E; [|by apply reached_note].
  bool_prop. apply reached_record; try done; [by eapply aff_groups_guests|by apply includes_spec].
Qed.

Lemma reached_after_hints : reached (after_hints input).
Proof.
  unfold after_hints.
  apply foldl_inv; [|intros; by apply reached_affinity].
  apply foldl_inv; [|intros; by apply reached_anti].
  apply foldl_inv; [apply rtc_refl|intros; by apply reached_pin].
Qed.

(** One turn of the balance loop: it stops, or records a unit that lowers the spread. *)
Lemma balance_turn_cases p :
  match balance_turn input p with
  | Break q =>
      q = p ∧ (spread_of members (st p) method <= i_balanciness input ∨ capped p = true)
      ∨ q = note p (NoImprovement (spread_of members (st p) method))
      ∨ q = cap p
  | Continue q =>
      ∃ b source, good_best (st p) (moved p) source (spread_of members (st p) method) b
        ∧ (Z.of_nat (length (p_moves p)) + Z.of_nat (length (b_unit b)) <= i_maxMoves input)%Z
        ∧ q = record_all p (b_unit b) (b_to b) ForBalance
  end.
Proof.
  unfold balance_turn. destruct (_ || _) eqn:E.
  { left. split; [done|]. bool_prop. destruct E as [E|E]; [left|by right]. by apply Qc_leb_true. }
  pose proof (first_best_good (st p) (moved p) (spread_of members (st p) method) (sources input (st p))) as [Hs Hb].
  destruct (first_best _ _ _ _ _) as [s' best]. simpl in *. subst s'.
  assert (set_state p (st p) = p) as -> by (by destruct p).
  destruct best as [b|]; [|by right; left].
  destruct (Hb b eq_refl) as [source Hgood].
  destruct (_ <? _)%Z eqn:Ec; [by right; right|].
  exists b, source. repeat split; try apply Hgood. lia.
Qed.

(** Every turn that goes on records at least one move, so the fuel is enough. *)
Lemma balance_loop_total fuel p :
  reached p → (i_maxMoves input < Z.of_nat (length (p_moves p)) + Z.of_nat fuel)%Z → (0 < fuel)%nat →
  ∃ q, balance_loop input fuel p = Some q ∧ reached q
     ∧ spread_of members (st q) method <= spread_of members (st p) method
     ∧ (spread_of members (st q) method <= i_balanciness input
        ∨ NoImprovement (spread_of members (st q) method) ∈ p_notes q
        ∨ capped q = true).
Proof.
  revert p. induction fuel as [|fuel IH]; intros p Hr Hlen Hf; [lia|]. simpl.
  pose proof (balance_turn_cases p) as Ht.
  destruct (balance_turn input p) as [q|q].
  - exists q. split; [done|].
    destruct Ht as [[-> Ht]|[-> | ->]]; (split; [eauto using reached_note, reached_cap|split; [apply Qcle_refl|]]); simpl; auto.
    + destruct Ht; auto.
    + right; left. apply elem_of_app; right. by left.
  - destruct Ht as (b & source & Hgood & Hmax & ->).
    destruct Hgood as [Hb Hs Hi].
    pose proof (batch_nodup _ _ _ _ _ Hb) as Hnd. pose proof (batch_nonempty _ _ _ _ _ Hb) as Hne.
    assert (0 < length (b_unit b))%nat by (destruct (b_unit b); [done|simpl; lia]).
    pose proof (reached_batch p (b_unit b) source (b_to b) ForBalance Hr Hb Hmax) as Hr'.
    destruct (IH _ Hr') as (q & Hq & Hrq & Hle & Hout).
    + rewrite record_all_eq by done. simpl. rewrite length_app, length_fmap. lia.
    + destruct fuel; [simpl in *; lia|lia].
    + exists q. repeat split; try done. eapply Qcle_trans; [exact Hle|].
      rewrite record_all_eq by done. simpl. rewrite <-Hs.
      apply Qclt_le_weak. eapply Qclt_trans; [exact Hi|apply Qc_minus_eps_lt].
Qed.

(** *** Legal moves, at most one per guest *)

Lemma elem_of_allowed s done g to :
  to ∈ allowed s done g →
  g_movable g = true ∧ h_balance (g_hints g) ≠ Some false ∧ (key g ∉ done) ∧
  (∀ m, find_member members (where_is s g) = Some m → m_maintenance m = false) ∧
  to ∈ activeNames members ∧ to ≠ where_is s g ∧ (pin_of g = [] ∨ to ∈ pin_of g).
Proof.
  unfold Balancing.allowed. destruct (_ || _) eqn:E1; [by intros ?%elem_of_nil|].
  destruct (match find_member _ _ with Some _ => _ | None => _ end) eqn:E2; [by intros ?%elem_of_nil|].
  intros [Hin Hc]%elem_of_js_filter.
  bool_prop. repeat split; try done.
  - by apply includes_false.
  - intros m Hm. by rewrite Hm in E2.
  - destruct H1 as [Hp|Hp]; [left; by apply bool_decide_eq_true in Hp|right; by apply includes_spec].
Qed.

(** What a plan may do to a guest. *)
Definition legal_move (mv : Move) : Prop :=
  ∃ g, g ∈ i_guests input
    ∧ mv_project mv = g_project g ∧ mv_name mv = g_name g ∧ mv_from mv = g_member g
    ∧ g_movable g = true ∧ h_balance (g_hints g) ≠ Some false
    ∧ (∀ m, find_member members (g_member g) = Some m → m_maintenance m = false)
    ∧ mv_to mv ∈ activeNames members ∧ mv_to mv ≠ g_member g
    ∧ (pin_of g = [] ∨ mv_to mv ∈ pin_of g).

Record sound (p : Progress) : Prop := {
  sound_moved : moved p = mv_key <$> p_moves p;
  sound_nodup : NoDup (moved p);
  sound_where g : g ∈ i_guests input → key g ∉ moved p → where_ (st p) !! key g = Some (g_member g);
  sound_legal : Forall legal_move (p_moves p);
  sound_max : (Z.of_nat (length (p_moves p)) <= Z.max 0 (i_maxMoves input))%Z;
}.

Lemma foldl_set_add_fresh (l s : list string) :
  NoDup l → (∀ x, x ∈ l → x ∉ s) → foldl set_add s l = s ++ l.
Proof.
  revert s. induction l as [|x l IH]; intros s Hnd Hf; simpl; [by rewrite app_nil_r|].
  apply NoDup_cons in Hnd as [Hx Hnd].
  assert (set_add s x = s ++ [x]) as ->.
  { unfold set_add. rewrite (proj2 (includes_false _ _)); [done|]. apply Hf. by left. }
  rewrite IH; [by rewrite <-(assoc_L (++))|done|].
  intros y Hy [Hys|Hyx%list_elem_of_singleton]%elem_of_app; [|by subst].
  apply (Hf y); [by right|done].
Qed.

Lemma batch_moved s done unit source to :
  batch s done unit source to → foldl set_add done (key <$> unit) = done ++ (key <$> unit).
Proof.
  intros Hb. apply foldl_set_add_fresh; [apply Hb|].
  intros x (g & -> & Hg)%list_elem_of_fmap.
  by apply (batch_allowed _ _ _ _ _ Hb), elem_of_allowed in Hg as (_ & _ & ? & _).
Qed.

Lemma mv_key_mk s to reason (unit : list Guest) : mv_key <$> (mk_move s to reason <$> unit) = key <$> unit.
Proof. rewrite <-list_fmap_compose. done. Qed.

Lemma sound_start : sound (start input).
Proof.
  split; simpl; [done|constructor| |constructor|lia].
  intros g Hg _. unfold new_state.
  match goal with |- context [foldl _ ?s _] => generalize s end.
  revert Hg. revert Hkeys. generalize (i_guests input) as gs.
  induction gs as [|h gs IH] using rev_ind; intros Hnd Hg s0; [by apply elem_of_nil in Hg|].
  rewrite fmap_app in Hnd. apply NoDup_app in Hnd as (Hnd & Hdis & _).
  rewrite foldl_app. simpl. apply elem_of_app in Hg as [Hg|Hg%list_elem_of_singleton].
  - rewrite lookup_insert_ne; [by apply IH|]. intros Heq.
    apply (Hdis (key g)); [by apply list_elem_of_fmap_2|]. csimpl. rewrite Heq. by left.
  - subst. by rewrite lookup_insert_eq.
Qed.

Lemma step_sound p q : sound p → step p q → sound q.
Proof.
  intros [Hm Hnd Hw Hl Hmax] [unit source to reason Hb Hlen| |n]; [|by split..].
  rewrite record_all_eq by (done || apply Hb). split; simpl.
  - by rewrite (batch_moved _ _ _ _ _ Hb), fmap_app, mv_key_mk, Hm.
  - rewrite (batch_moved _ _ _ _ _ Hb). apply NoDup_app. split; [done|]. split; [|apply Hb].
    intros x Hx (g & -> & Hg)%list_elem_of_fmap.
    by apply (batch_allowed _ _ _ _ _ Hb), elem_of_allowed in Hg as (_ & _ & ? & _).
  - intros g Hg Hn. rewrite (batch_moved _ _ _ _ _ Hb) in Hn.
    rewrite elem_of_app in Hn. rewrite where_move_all_ne by tauto. apply Hw; tauto.
  - apply Forall_app. split; [done|]. apply Forall_fmap, Forall_forall. intros g Hg.
    pose proof (batch_guests _ _ _ _ _ Hb g Hg) as Hin.
    pose proof (elem_of_allowed _ _ _ _ (batch_allowed _ _ _ _ _ Hb g Hg)) as (H1 & H2 & H3 & H4 & H5 & H6 & H7).
    assert (where_is (st p) g = g_member g) as Hat.
    { unfold where_is. by rewrite (Hw g). }
    rewrite Hat in *. exists g. repeat split; done.
  - rewrite length_app, length_fmap. lia.
Qed.

Lemma reached_sound p : reached p → sound p.
Proof. apply rtc_preserves; [apply step_sound|apply sound_start]. Qed.

(** *** Members are not overfilled *)

(** [r] of what the guests of a unit take. *)
Definition unit_size (unit : list Guest) : Qc := foldl (λ n g, n + size mode g method) 0 unit.

Lemma foldl_size n unit : foldl (λ n g, n + size mode g method) n unit = n + unit_size unit.
Proof.
  unfold unit_size. generalize n at 1 2. clear n. intros n.
  assert (∀ a b, foldl (λ n g, n + size mode g method) (a + b) unit
                 = a + foldl (λ n g, n + size mode g method) b unit) as Hs.
  { induction unit as [|g unit IH]; intros a b; simpl; [done|].
    rewrite <-IH. f_equal. ring. }
  rewrite <-Hs. f_equal. ring.
Qed.

Lemma load_move s g to m :
  where_is s g ≠ to → is_Some (load s !! to) →
  load_of (move mode s g to) m method =
    if bool_decide (m = to) then load_of s m method + size mode g method
    else if bool_decide (m = where_is s g) then
      match load s !! m with Some _ => load_of s m method - size mode g method | None => load_of s m method end
    else load_of s m method.
Proof.
  intros Hne [l Hl]. unfold load_of, move, size. simpl.
  repeat case_bool_decide; subst.
  - rewrite lookup_alter_eq, lookup_alter_ne, Hl by done. simpl. apply res_get_add.
  - rewrite lookup_alter_ne, lookup_alter_eq by done.
    destruct (load s !! where_is s g); simpl; [apply res_get_sub|done].
  - by rewrite !lookup_alter_ne by done.
Qed.

Lemma load_some_move s g to m : is_Some (load s !! m) → is_Some (load (move mode s g to) !! m).
Proof.
  intros Hm. unfold move. simpl. rewrite !lookup_alter.
  repeat case_decide; subst; by rewrite ?fmap_is_Some.
Qed.

Lemma load_some_move_all s unit to m :
  is_Some (load s !! m) → is_Some (load (move_all mode s unit to) !! m).
Proof. intros Hm. unfold move_all. apply foldl_inv; [done|]. intros. by apply load_some_move. Qed.

Definition sizes_nonneg : Prop := ∀ g, g ∈ i_guests input → 0 <= size mode g method.

Lemma Qc_sub_le a b : 0 <= b → a - b <= a.
Proof. intros Hb. apply Qcle_minus_iff. replace (a + - (a - b)) with b by ring. done. Qed.

(** A batch adds its size to its target and takes from the others only. *)
Lemma load_move_all s unit source to m :
  sizes_nonneg → source ≠ to → is_Some (load s !! to) → NoDup (key <$> unit) →
  (∀ g, g ∈ unit → g ∈ i_guests input) →
  (∀ g, g ∈ unit → where_ s !! key g = Some source) →
  (m = to → load_of (move_all mode s unit to) m method = load_of s m method + unit_size unit)
  ∧ (m ≠ to → load_of (move_all mode s unit to) m method <= load_of s m method).
Proof.
  intros Hpos Hne. revert s. induction unit as [|g unit IH]; intros s Hto Hnd Hg Hw.
  - simpl. split; intros _; [unfold unit_size; simpl; ring|apply Qcle_refl].
  - csimpl in Hnd. apply NoDup_cons in Hnd as [Hnin Hnd]. csimpl.
    assert (where_is s g = source) as Hat by (unfold where_is; by rewrite (Hw g) by left).
    destruct (IH (move mode s g to)) as [IH1 IH2]; [by apply load_some_move|done| |..].
    + intros h Hh. apply Hg. by right.
    + intros h Hh. rewrite where_move_ne; [apply Hw; by right|].
      intros Heq. apply Hnin. rewrite Heq. by apply list_elem_of_fmap_2.
    + pose proof (load_move s g to m) as Hlm. rewrite Hat in Hlm. specialize (Hlm Hne Hto).
      split; intros Hm.
      * rewrite (IH1 Hm), Hlm. rewrite bool_decide_eq_true_2 by done.
        change (unit_size (g :: unit)) with (foldl (λ n g, n + size mode g method) (0 + size mode g method) unit).
        rewrite foldl_size. ring.
      * eapply Qcle_trans; [by apply IH2|]. rewrite Hlm, bool_decide_eq_false_2 by done.
        repeat case_match; try apply Qcle_refl; apply Qc_sub_le, Hpos, Hg; by left.
Qed.

(** No member ends above its capacity, unless it was there already. *)
Definition within (p : Progress) : Prop :=
  ∀ m, m ∈ members → find_member members (m_name m) = Some m →
    load_of (st p) (m_name m) method <= res_get (m_total m) method
    ∨ load_of (st p) (m_name m) method <= load_of (st (start input)) (m_name m) method.

Definition loaded (p : Progress) : Prop := ∀ m, m ∈ members → is_Some (load (st p) !! m_name m).

Lemma loaded_start : loaded (start input).
Proof.
  intros m Hm. unfold start, new_state. simpl.
  match goal with |- context [foldl _ ?s (i_guests input)] =>
    assert (is_Some (load s !! m_name m)) as Hs; [simpl|revert Hs; generalize s] end.
  - revert Hm. generalize (∅ : gmap string Resources). induction members as [|x ms IH] using rev_ind; intros l0 Hm.
    + by apply elem_of_nil in Hm.
    + rewrite foldl_app. simpl. destruct (decide (m_name x = m_name m)) as [->|Hne]; [rewrite lookup_insert_eq; eauto|].
      rewrite lookup_insert_ne by done. apply IH.
      apply elem_of_app in Hm as [Hm|Hm%list_elem_of_singleton]; [done|by subst].
  - intros s Hs. apply (foldl_inv (λ s, is_Some (load s !! m_name m))); [done|].
    intros s' g _ Hs'. simpl. destruct mode; [done|].
    rewrite lookup_alter. case_decide as E; [by rewrite fmap_is_Some, E|done].
Qed.

Lemma active_member m : m ∈ activeNames members → ∃ x, x ∈ members ∧ m_name x = m.
Proof.
  unfold activeNames, active. intros (x & -> & Hx)%list_elem_of_fmap.
  apply elem_of_js_filter in Hx as [Hx _]. eauto.
Qed.

Lemma batch_target s done unit source to :
  batch s done unit source to → source ≠ to ∧ to ∈ activeNames members.
Proof.
  intros Hb. destruct unit as [|g unit]; [by destruct (batch_nonempty _ _ _ _ _ Hb)|].
  pose proof (batch_allowed _ _ _ _ _ Hb g) as Ha.
  destruct (elem_of_allowed s done g to) as (_ & _ & _ & _ & Hact & Hne & _); [apply Ha; by left|].
  split; [|done]. intros ->. apply Hne. unfold where_is.
  by rewrite (batch_where _ _ _ _ _ Hb g) by left.
Qed.

Lemma step_within p q :
  sizes_nonneg → loaded p ∧ within p → step p q → loaded q ∧ within q.
Proof.
  intros Hpos [Hl Hw] [unit source to reason Hb Hlen| |n]; [|done..].
  rewrite record_all_eq by (done || apply Hb).
  destruct (batch_target _ _ _ _ _ Hb) as [Hne Hact].
  destruct (active_member _ Hact) as (x & Hx & Hxn).
  assert (is_Some (load (st p) !! to)) as Hto by (rewrite <-Hxn; by apply Hl).
  split; [intros m Hm; simpl; by apply load_some_move_all, Hl|].
  intros m Hm Hfind. simpl.
  destruct (load_move_all (st p) unit source to (m_name m)) as [H1 H2]; try done; try apply Hb.
  destruct (decide (m_name m = to)) as [Heq|Hneq].
  - left. rewrite (H1 Heq). pose proof (batch_fits _ _ _ _ _ Hb) as Hf.
    unfold fits in Hf. rewrite <-Heq, Hfind in Hf. apply Qc_leb_true in Hf. exact Hf.
  - destruct (Hw m Hm Hfind) as [Hc|Hc]; [left|right]; (eapply Qcle_trans; [by apply H2|exact Hc]).
Qed.

Lemma reached_within p : sizes_nonneg → reached p → within p.
Proof.
  intros Hpos Hr. apply (rtc_preserves step (λ p, loaded p ∧ within p) (start input) p); [|split; [apply loaded_start|]|done].
  - intros x y. by apply step_within.
  - intros m _ _. right. apply Qcle_refl.
Qed.

(** *** Anti-affinity is never broken by a plan *)

(** Two guests the same anti-affinity hint keeps apart. *)
Definition rivals (g h : Guest) : Prop :=
  g ∈ i_guests input ∧ h ∈ i_guests input ∧ key g ≠ key h ∧ g_project g = g_project h ∧
  h_antiAffinity (g_hints g) = h_antiAffinity (g_hints h) ∧ truthy_opt_str (h_antiAffinity (g_hints g)) = true.

Definition apart (p : Progress) : Prop :=
  ∀ g h, rivals g h → where_is (st p) g = where_is (st p) h → g_member g = g_member h.

Lemma rivals_sym g h : rivals g h → rivals h g.
Proof. intros (? & ? & ? & ? & Ha & Ht). repeat split; try done. by rewrite <-Ha. Qed.

Lemma antiConflict_rival s g h to ignore :
  rivals g h → key h ∉ ignore → where_is s h = to → antiConflict (i_guests input) s g to ignore = true.
Proof.
  intros (Hg & Hh & Hne & Hpr & Ha & Ht) Hi Hw. unfold antiConflict.
  destruct (h_antiAffinity (g_hints g)) as [grp|] eqn:E; [|done]. simpl in Ht. rewrite Ht. simpl.
  apply some_spec. exists h. split; [done|].
  rewrite (bool_decide_eq_false_2 (key h = key g)) by done.
  rewrite (proj2 (includes_false _ _) Hi). by rewrite !bool_decide_eq_true_2.
Qed.

Lemma where_is_move_all s unit to g :
  where_is (move_all mode s unit to) g = if bool_decide (key g ∈ key <$> unit) then to else where_is s g.
Proof.
  unfold where_is. case_bool_decide.
  - by rewrite where_move_all.
  - by rewrite where_move_all_ne.
Qed.

Lemma in_unit s done unit source to g :
  batch s done unit source to → g ∈ i_guests input → key g ∈ key <$> unit → g ∈ unit.
Proof.
  intros Hb Hg (h & Heq & Hh)%list_elem_of_fmap.
  by rewrite (key_inj g h Hg (batch_guests _ _ _ _ _ Hb h Hh) Heq).
Qed.

Lemma batch_no_rival s done unit source to g h :
  batch s done unit source to → rivals g h →
  key g ∈ key <$> unit → key h ∉ key <$> unit → where_is s h ≠ to.
Proof.
  intros Hb Hr Hg Hh Hw. pose proof Hr as (Hgi & _).
  pose proof (batch_anti _ _ _ _ _ Hb g (in_unit _ _ _ _ _ _ Hb Hgi Hg)) as Hf.
  by rewrite (antiConflict_rival s g h) in Hf.
Qed.

Lemma step_apart p q : apart p → step p q → apart q.
Proof.
  intros Ha [unit source to reason Hb Hlen| |n]; [|done..].
  rewrite record_all_eq by (done || apply Hb). intros g h Hr. simpl.
  rewrite !where_is_move_all. pose proof Hr as (Hg & Hh & _).
  repeat case_bool_decide; intros Heq; [|exfalso..|by apply Ha].
  - apply Ha; [done|]. unfold where_is.
    rewrite (batch_where _ _ _ _ _ Hb g), (batch_where _ _ _ _ _ Hb h); [done|by eapply in_unit..].
  - by eapply (batch_no_rival _ _ _ _ _ g h).
  - by eapply (batch_no_rival _ _ _ _ _ h g); [|apply rivals_sym|..].
Qed.

Lemma reached_apart p : reached p → apart p.
Proof.
  apply rtc_preserves; [apply step_apart|]. intros g h (Hg & Hh & _).
  unfold where_is. rewrite (sound_where _ sound_start g), (sound_where _ sound_start h); [done|done|..];
    try done; apply not_elem_of_nil.
Qed.

(** *** Where everything is once the moves are made *)

Definition destination (ms : list Move) (g : Guest) : string :=
  match js_find (λ m, bool_decide (mv_key m = key g)) ms with
  | Some m => mv_to m
  | None => g_member g
  end.

Definition arrived (p : Progress) : Prop :=
  ∀ g, g ∈ i_guests input → where_is (st p) g = destination (p_moves p) g.

Lemma js_find_app {A} (f : A → bool) l k :
  js_find f (l ++ k) = match js_find f l with Some x => Some x | None => js_find f k end.
Proof. unfold js_find. induction l as [|x l IH]; simpl; [done|]. by destruct (f x). Qed.

Lemma step_arrived p q : sound p → arrived p → step p q → arrived q.
Proof.
  intros Hs Ha [unit source to reason Hb Hlen| |n]; [|done..].
  rewrite record_all_eq by (done || apply Hb). intros g Hg. simpl.
  rewrite where_is_move_all. unfold destination. rewrite js_find_app.
  case_bool_decide as Hk.
  - destruct (js_find _ (p_moves p)) as [m|] eqn:E.
    + exfalso. apply js_find_some in E as [Hm Heq%bool_decide_eq_true].
      apply (in_unit _ _ _ _ _ _ Hb Hg) in Hk.
      apply (batch_allowed _ _ _ _ _ Hb), elem_of_allowed in Hk as (_ & _ & Hk & _).
      apply Hk. rewrite (sound_moved _ Hs), <-Heq. by apply list_elem_of_fmap_2.
    + destruct (js_find _ (_ <$> unit)) as [m|] eqn:E'.
      * apply js_find_some in E' as [(h & -> & _)%list_elem_of_fmap _]. done.
      * exfalso. apply list_elem_of_fmap in Hk as (h & Heq & Hh).
        pose proof (js_find_none _ _ E' (mk_move (st p) to reason h) ltac:(by apply list_elem_of_fmap_2)) as Hf.
        apply bool_decide_eq_false in Hf. by rewrite Heq in Hf.
  - rewrite (Ha g Hg). unfold destination. destruct (js_find _ (p_moves p)) as [m|]; [done|].
    destruct (js_find _ (_ <$> unit)) as [m|] eqn:E'; [|done].
    exfalso. apply js_find_some in E' as [(h & -> & Hh)%list_elem_of_fmap Heq%bool_decide_eq_true].
    apply Hk. rewrite <-Heq. change (mv_key _) with (key h). by apply list_elem_of_fmap_2.
Qed.

Lemma reached_arrived p : reached p → arrived p.
Proof.
  intros Hr. apply (rtc_preserves step (λ p, sound p ∧ arrived p) (start input) p); [| |done].
  - intros x y [Hs Ha] Hst. split; [by eapply step_sound|by eapply step_arrived].
  - split; [apply sound_start|]. intros g Hg. unfold where_is.
    by rewrite (sound_where _ sound_start g Hg) by apply not_elem_of_nil.
Qed.

Lemma find_member_unique m :
  NoDup (m_name <$> members) → m ∈ members → find_member members (m_name m) = Some m.
Proof.
  unfold find_member, js_find. induction members as [|x ms IH]; csimpl; [by intros _ ?%elem_of_nil|].
  intros [Hx Hnd]%NoDup_cons Hm. apply elem_of_cons in Hm as [->|Hm]; [by rewrite bool_decide_eq_true_2|].
  rewrite bool_decide_eq_false_2; [by apply IH|]. intros Heq. apply Hx. rewrite Heq. by apply list_elem_of_fmap_2.
Qed.

(** Without hints the first three phases do nothing. *)
Lemma after_hints_none :
  (∀ g, g ∈ i_guests input →
     pin_of g = [] ∧ h_affinity (g_hints g) = None ∧ h_antiAffinity (g_hints g) = None) →
  after_hints input = start input.
Proof.
  intros Hh. unfold after_hints, anti_groups, aff_groups.
  rewrite (proj2 (js_filter_nil _ guests)), (proj2 (js_filter_nil _ guests)).
  - simpl. apply (foldl_inv (λ p, p = start input)); [done|]. intros p g Hg ->.
    apply elem_of_guests in Hg. unfold pin_step. destruct (Hh g Hg) as (-> & _).
    by rewrite bool_decide_eq_true_2.
  - intros g Hg. apply elem_of_guests in Hg. by destruct (Hh g Hg) as (_ & -> & _).
  - intros g Hg. apply elem_of_guests in Hg. by destruct (Hh g Hg) as (_ & _ & ->).
Qed.

(** The plan's final progress. *)
Lemma plan_reached :
  ∃ p, reached p
     ∧ plan input = Some {| before := spread_of members (st (start input)) method;
                            after := spread_of members (st p) method;
                            moves := p_moves p; notes := p_notes p |}
     ∧ spread_of members (st p) method <= spread_of members (st (after_hints input)) method
     ∧ (spread_of members (st p) method <= i_balanciness input
        ∨ NoImprovement (spread_of members (st p) method) ∈ p_notes p
        ∨ StoppedAfter (length (p_moves p)) ∈ p_notes p).
Proof.
  unfold plan. destruct (balance_loop_total (plan_fuel input) (after_hints input)) as (q & -> & Hr & Hle & Hout).
  - apply reached_after_hints.
  - unfold plan_fuel. lia.
  - unfold plan_fuel. lia.
  - destruct (capped q).
    + exists (note q (StoppedAfter (length (p_moves q)))). repeat split; [by apply reached_note|done|].
      right; right. simpl. apply elem_of_app; right. by left.
    + exists q. repeat split; try done. destruct Hout as [?|[?|?]]; [by left|by right; left|done].
Qed.

(** *** The working state is the cluster with the moves made *)

Definition tag (g : Guest) : string * Resources := (key g, size_of mode g).

Definition realised (s : State) (ms : list Move) : Prop :=
  let c := foldl execute (members, i_guests input) ms in
  s = new_state c.1 c.2 mode ∧ (∀ s r, spread_of c.1 s r = spread_of members s r)
  ∧ tag <$> c.2 = tag <$> i_guests input.

Lemma tag_relocate g to (gs : list Guest) : tag <$> (relocate g to <$> gs) = tag <$> gs.
Proof.
  rewrite <-list_fmap_compose. apply list_fmap_ext. intros i h _. simpl. unfold tag.
  by rewrite key_relocate, size_relocate.
Qed.

Lemma realised_move s ms g to mv :
  realised s ms → g ∈ i_guests input → mv_key mv = key g → mv_to mv = to →
  realised (move mode s g to) (ms ++ [mv]).
Proof.
  unfold realised. rewrite foldl_app. simpl. intros (Hs & Hsp & Ht) Hg Hk Hto.
  destruct (foldl execute _ ms) as [ms' gs']. simpl in *.
  assert (NoDup (key <$> gs')) as Hnd.
  { replace (key <$> gs') with (fst <$> (tag <$> gs')) by (by rewrite <-list_fmap_compose).
    rewrite Ht, <-list_fmap_compose. exact Hkeys. }
  assert (tag g ∈ tag <$> gs') as Hin by (rewrite Ht; by apply list_elem_of_fmap_2).
  apply list_elem_of_fmap in Hin as (g' & Heq & Hg'). injection Heq as Hkg Hsz.
  unfold execute. simpl. destruct (js_find _ gs') as [f|] eqn:E.
  - apply js_find_some in E as [Hf Hfk%bool_decide_eq_true].
    assert (f = g') as ->.
    { apply list_elem_of_lookup in Hf as [a Ha]. apply list_elem_of_lookup in Hg' as [b Hb].
      assert (a = b) as ->; [|congruence].
      eapply (NoDup_lookup (key <$> gs')); [done|by rewrite list_lookup_fmap, Ha|].
      rewrite list_lookup_fmap, Hb. simpl. congruence. }
    simpl. repeat split.
    + rewrite new_state_relocate by done. rewrite Hs, Hto. unfold move, where_is. by rewrite Hsz, Hkg.
    + intros s' r. by rewrite spread_shift.
    + by rewrite tag_relocate.
  - exfalso. pose proof (js_find_none _ _ E g' Hg') as Hf. apply bool_decide_eq_false in Hf. congruence.
Qed.

Lemma realised_move_all s0 s ms unit to reason :
  realised s ms → (∀ g, g ∈ unit → g ∈ i_guests input) →
  realised (move_all mode s unit to) (ms ++ (mk_move s0 to reason <$> unit)).
Proof.
  revert s ms. induction unit as [|g unit IH]; intros s ms Hr Hg; csimpl; [by rewrite app_nil_r|].
  rewrite cons_middle, (assoc_L (++)). apply IH; [|intros; apply Hg; by right].
  apply realised_move; try done. apply Hg. by left.
Qed.

Lemma reached_realised p : reached p → realised (st p) (p_moves p).
Proof.
  apply (rtc_preserves step (λ p, realised (st p) (p_moves p))); [|done].
  intros x y Hx [unit source to reason Hb Hlen| |n]; [|done..].
  rewrite record_all_eq by (done || apply Hb). apply realised_move_all; [done|apply Hb].
Qed.
End theory.

(** ** Properties *)

Section properties.
Context `{!Locale} (input : PlanInput).

(** C6: planning always ends with a plan, and every move of it is legal: it takes a guest of the
    cluster that may be migrated and is not held back by its [balance] hint, off the member the
    guest runs on, which is not in maintenance, to another active member its pin allows. No guest
    moves twice and the policy's maximum is kept. *)
Theorem plan_legal (Hkeys : NoDup (key <$> i_guests input)) :
  ∃ r, plan input = Some r ∧ Forall (legal_move input) (moves r) ∧ NoDup (mv_key <$> moves r)
     ∧ (Z.of_nat (length (moves r)) <= Z.max 0 (i_maxMoves input))%Z.
Proof.
  destruct (plan_reached input Hkeys) as (p & Hr & Hp & _).
  pose proof (reached_sound input Hkeys p Hr) as Hs. eexists. split; [exact Hp|]. simpl.
  split; [by apply sound_legal|]. rewrite <-(sound_moved _ _ Hs). split; apply Hs.
Qed.

(** The plan's figures are those of the cluster itself: [before] is the spread as things are,
    and [after] the spread of the cluster in which the plan's moves have been made. *)
Theorem plan_after (Hkeys : NoDup (key <$> i_guests input)) r :
  plan input = Some r →
  before r = spread (i_members input) (i_guests input) (i_method input) (i_mode input)
  ∧ after r = (let c := foldl execute (i_members input, i_guests input) (moves r) in
               spread c.1 c.2 (i_method input) (i_mode input)).
Proof.
  destruct (plan_reached input Hkeys) as (p & Hr & -> & _). intros [= <-]. simpl. split; [done|].
  destruct (reached_realised input Hkeys p Hr) as (Hs & Hsp & _).
  unfold spread. by rewrite <-Hs, Hsp.
Qed.

(** Balancing stops for a reason: the spread is within the policy's balanciness, or the plan
    says that no move improves it further and gives that spread, or that it stopped at the
    policy's maximum; and when no guest has a pin, an affinity or an anti-affinity the spread
    after the plan is at most the spread before. *)
Theorem plan_outcome (Hkeys : NoDup (key <$> i_guests input)) r :
  plan input = Some r →
  (after r <= i_balanciness input ∨ NoImprovement (after r) ∈ notes r ∨ StoppedAfter (length (moves r)) ∈ notes r)
  ∧ ((∀ g, g ∈ i_guests input → pin_of g = [] ∧ h_affinity (g_hints g) = None ∧ h_antiAffinity (g_hints g) = None) →
     after r <= before r).
Proof.
  destruct (plan_reached input Hkeys) as (p & Hr & -> & Hle & Hout). intros [= <-]. simpl. split; [done|].
  intros Hh. eapply Qcle_trans; [exact Hle|]. rewrite after_hints_none by done. apply Qcle_refl.
Qed.

(** C34: no plan overfills a member: where guests do not have negative sizes, every member ends
    within its capacity or with no more load than it had. *)
Theorem plan_capacity (Hkeys : NoDup (key <$> i_guests input)) (Hnames : NoDup (m_name <$> i_members input)) r m :
  sizes_nonneg input → plan input = Some r → m ∈ i_members input →
  let c := foldl execute (i_members input, i_guests input) (moves r) in
  let final := load_of (new_state c.1 c.2 (i_mode input)) (m_name m) (i_method input) in
  final <= res_get (m_total m) (i_method input)
  ∨ final <= load_of (new_state (i_members input) (i_guests input) (i_mode input)) (m_name m) (i_method input).
Proof.
  intros Hpos. destruct (plan_reached input Hkeys) as (p & Hr & -> & _). intros [= <-] Hm. simpl.
  destruct (reached_realised input Hkeys p Hr) as (Hs & _). rewrite <-Hs.
  apply (reached_within input p Hpos Hr m Hm). by apply find_member_unique.
Qed.

(** A plan never puts two guests of an anti-affinity group on one member: two such guests that
    are together once the moves are made were together before. *)
Theorem plan_apart (Hkeys : NoDup (key <$> i_guests input)) r g h :
  plan input = Some r → rivals input g h →
  destination (moves r) g = destination (moves r) h → g_member g = g_member h.
Proof.
  destruct (plan_reached input Hkeys) as (p & Hr & -> & _). intros [= <-] Hrv. simpl.
  pose proof Hrv as (Hg & Hh & _).
  rewrite <-(reached_arrived input Hkeys p Hr g Hg), <-(reached_arrived input Hkeys p Hr h Hh).
  by apply (reached_apart input Hkeys p Hr).
Qed.
End properties.

(** ** A concrete cluster

    Two members, three guests on the first; two of them, of one
    anti-affinity group, may not be migrated. *)

Definition demo_res (n : positive) : Resources :=
  {| r_memory := Q2Qc (Qmake (Zpos n) 1); r_cpu := 0; r_disk := 0 |}.
Definition demo_hints (anti : option string) : Hints :=
  {| h_affinity := None; h_antiAffinity := anti; h_pin := None; h_balance := None |}.
Definition demo_guest (name : string) (movable : bool) (n : positive) (anti : option string) : Guest :=
  {| g_project := "web"; g_name := name; g_member := "n1"; g_type := "virtual-machine"; g_running := true;
     g_movable := movable;
     g_used := demo_res n; g_assigned := demo_res n; g_hints := demo_hints anti |}.
Definition demo_member (name : string) : Member :=
  {| m_name := name; m_maintenance := false; m_total := demo_res 100; m_used := res_zero |}.
Definition demo_db1 : Guest := demo_guest "db1" false 10 (Some "db").
Definition demo_db2 : Guest := demo_guest "db2" false 10 (Some "db").
Definition demo_input : PlanInput :=
  {| i_members := [demo_member "n1"; demo_member "n2"];
     i_guests := [demo_db1; demo_db2; demo_guest "app" true 20 None];
     i_method := ByMemory; i_mode := Assigned; i_balanciness := Q2Qc (Qmake 5 1); i_maxMoves := 3 |}.
Definition demo_plan : Plan :=
  default {| before := 0; after := 0; moves := []; notes := [] |} (@plan code_unit_locale demo_input).

Lemma demo_plan_eq : @plan code_unit_locale demo_input = Some demo_plan.
Proof.
  unfold demo_plan. destruct (@plan code_unit_locale demo_input) eqn:E; [done|].
  vm_compute in E. discriminate.
Qed.

Lemma demo_keys : NoDup (key <$> i_guests demo_input).
Proof. apply (bool_decide_unpack _). vm_compute. exact I. Qed.

Example demo_plan_moves :
  ((λ m, (mv_name m, mv_from m, mv_to m)) <$> moves demo_plan) = [("app", "n1", "n2")]
  ∧ this (before demo_plan) = Qmake 40 1 ∧ this (after demo_plan) = Qmake 0 1.
Proof. vm_compute. done. Qed.

Lemma plan_legal_witness :
  ∃ r, @plan code_unit_locale demo_input = Some r ∧ Forall (legal_move demo_input) (moves r)
     ∧ NoDup (mv_key <$> moves r) ∧ (Z.of_nat (length (moves r)) <= 3)%Z.
Proof. exact (@plan_legal code_unit_locale demo_input demo_keys). Defined.

Lemma plan_after_witness :
  after demo_plan = (let c := foldl execute (i_members demo_input, i_guests demo_input) (moves demo_plan) in
                     spread c.1 c.2 ByMemory Assigned).
Proof. exact (proj2 (@plan_after code_unit_locale demo_input demo_keys demo_plan demo_plan_eq)). Defined.

Lemma plan_outcome_witness :
  after demo_plan <= i_balanciness demo_input ∨ NoImprovement (after demo_plan) ∈ notes demo_plan
  ∨ StoppedAfter (length (moves demo_plan)) ∈ notes demo_plan.
Proof. exact (proj1 (@plan_outcome code_unit_locale demo_input demo_keys demo_plan demo_plan_eq)). Defined.

Lemma plan_capacity_witness :
  let c := foldl execute (i_members demo_input, i_guests demo_input) (moves demo_plan) in
  let final := load_of (new_state c.1 c.2 Assigned) "n2" ByMemory in
  final <= Q2Qc (Qmake 100 1)
  ∨ final <= load_of (new_state (i_members demo_input) (i_guests demo_input) Assigned) "n2" ByMemory.
Proof.
  apply (@plan_capacity code_unit_locale demo_input demo_keys) with (m := demo_member "n2").
  - apply (bool_decide_unpack _). vm_compute. exact I.
  - intros g Hg. simpl in Hg. repeat (apply elem_of_cons in Hg as [->|Hg]); [vm_compute; discriminate..|].
    by apply elem_of_nil in Hg.
  - exact demo_plan_eq.
  - right. left.
Defined.

Lemma plan_apart_witness : g_member demo_db1 = g_member demo_db2.
Proof.
  apply (@plan_apart code_unit_locale demo_input demo_keys demo_plan demo_db1 demo_db2 demo_plan_eq).
  - repeat split; try (vm_compute; reflexivity); [by left|right; by left|vm_compute; discriminate].
  - vm_compute. reflexivity.
Defined.
