(* ===== verification/Fleet.v ===== *)
(** * Fleet: what an inventory pass reads from a cluster

    Models [fleet/collect.ts]: the snapshot of a cluster's members, instances
    and pools, built from the JSON Incus answers. What Incus answers is data
    ([IncusInstance] and the like); a failed optional read is [None]. *)

From Stdlib Require Import QArith.QArith_base QArith.Qcanon.
From S2P Require Import Prelude JsString Balancing Effects.

(** Byte counts and clocks are [Z]; a load average is a rational. *)
Record MemberSnapshot := {
  ms_name : string; ms_url : string; ms_status : string;
  ms_roles : list string; ms_groups : list string; ms_architecture : string;
  ms_cpuThreads : Z; ms_memoryTotal : Z; ms_memoryUsed : Z;
  ms_load1 : option Qc; ms_uptimeS : option Z;
}.

Record InstanceSnapshot := {
  is_project : string; is_name : string; is_type : string; is_status : string; is_location : string;
  is_description : string; is_architecture : string; is_createdAt : string;
  is_imageOs : string; is_imageRelease : string; is_limitsCpu : string; is_limitsMemory : string;
  is_cpuNs : option Z; is_memoryUsed : option Z; is_memoryTotal : option Z; is_diskUsed : option Z;
  is_netRx : option Z; is_netTx : option Z;
  is_addresses : list string; is_hints : Hints; is_stateful : bool; is_snapshots : Z;
}.

Record PoolSnapshot := {
  ps_member : string; ps_name : string; ps_driver : string; ps_status : string;
  ps_spaceTotal : option Z; ps_spaceUsed : option Z;
}.

Record NetworkSnapshot := {
  ns_project : string; ns_name : string; ns_type : string; ns_managed : bool;
  ns_status : string; ns_description : string;
}.

Record Snapshot := {
  s_clustered : bool;
  s_members : list MemberSnapshot; s_instances : list InstanceSnapshot;
  s_pools : list PoolSnapshot; s_networks : list NetworkSnapshot;
}.

(** ** Incus's JSON *)

Definition config := gmap string string.

Record IncusNic := {
  nic_type : string; nic_received : option Z; nic_sent : option Z; nic_addresses : list string;
}.
Record IncusState := {
  st_cpuUsage : option Z; st_memoryUsage : option Z; st_memoryTotal : option Z;
  st_disk : list (option Z);  (** the usage of each disk *)
  st_network : list IncusNic;
}.
Record IncusInstance := {
  ii_name : string; ii_project : string; ii_type : string; ii_status : string; ii_location : string;
  ii_description : string; ii_architecture : string; ii_created_at : string;
  ii_expanded_config : config; ii_snapshots : list string; ii_state : option IncusState;
}.
Record IncusResources := {
  ir_cpuTotal : option Z; ir_cpuArchitecture : option string;
  ir_memoryTotal : option Z; ir_memoryUsed : option Z;
}.
Record IncusMemberState := {
  im_uptime : option Z; im_load_averages : list Qc;
  im_storage_pools : gmap string (option Z * option Z);  (** the pools with a [space]: total and used *)
}.
Record IncusPool := { ip_name : string; ip_driver : string; ip_status : string }.
Record IncusNetwork := {
  in_project : option string; in_name : string; in_type : string; in_managed : bool;
  in_status : option string; in_description : option string;
}.
Record IncusMember := {
  ic_server_name : string; ic_url : option string; ic_status : string;
  ic_roles : option (list string); ic_groups : option (list string); ic_architecture : option string;
}.

Definition ACTIVE : list string := ["Running"; "Frozen"].

(** [/^fe[89ab][0-9a-f]:/i] *)
Definition is_hex (c : Ascii.ascii) : bool := is_digit c || in_range "a" "f" c.
Definition linkLocal (a : string) : bool :=
  match toLowerCase (str_take 5 a) with
  | String "f" (String "e" (String x (String y (String ":" EmptyString)))) =>
      includes ["8"; "9"; "a"; "b"]%char x && is_hex y
  | _ => false
  end%char.

Definition trimmed (cfg : config) (k : string) : option string := trim <$> cfg !! k.
Definition truthy_or_none (o : option string) : option string :=
  match o with Some s => if truthy_str s then Some s else None | None => None end.

Definition hintsOf (cfg : config) : Hints :=
  let pin := js_filter truthy_str (trim <$> split_on "," (default EmptyString (cfg !! "user.incuscloud.pin"))) in
  let balance := toLowerCase <$> trimmed cfg "user.incuscloud.balance" in
  {| h_affinity := truthy_or_none (trimmed cfg "user.incuscloud.affinity");
     h_antiAffinity := truthy_or_none (trimmed cfg "user.incuscloud.anti-affinity");
     h_pin := match pin with [] => None | _ => Some pin end;
     h_balance := if bool_decide (balance = Some "false") || bool_decide (balance = Some "true")
                  then Some (bool_decide (balance = Some "true")) else None |}.

Definition sum_Z (l : list Z) : Z := foldl Z.add 0%Z l.

Definition instanceOf (i : IncusInstance) : InstanceSnapshot :=
  let cfg := ii_expanded_config i in
  let get k := default EmptyString (cfg !! k) in
  let st := if includes ACTIVE (ii_status i) then ii_state i else None in
  let disks := js_filter (λ u, (0 <=? u)%Z) ((λ d, default (-1)%Z d) <$> default [] (st_disk <$> st)) in
  let nics := js_filter (λ n, negb (bool_decide (nic_type n = "loopback"))) (default [] (st_network <$> st)) in
  {| is_project := ii_project i; is_name := ii_name i; is_type := ii_type i; is_status := ii_status i;
     is_location := if truthy_str (ii_location i) && negb (bool_decide (ii_location i = "none"))
                    then ii_location i else EmptyString;
     is_description := ii_description i; is_architecture := ii_architecture i; is_createdAt := ii_created_at i;
     is_imageOs := get "image.os"; is_imageRelease := get "image.release";
     is_limitsCpu := get "limits.cpu"; is_limitsMemory := get "limits.memory";
     is_cpuNs := st ≫= st_cpuUsage;
     is_memoryUsed := st ≫= st_memoryUsage;
     is_memoryTotal := match st ≫= st_memoryTotal with Some t => if truthy_Z t then Some t else None | None => None end;
     is_diskUsed := match disks with [] => None | _ => Some (sum_Z disks) end;
     is_netRx := match st with Some _ => Some (sum_Z ((λ n, default 0%Z (nic_received n)) <$> nics)) | None => None end;
     is_netTx := match st with Some _ => Some (sum_Z ((λ n, default 0%Z (nic_sent n)) <$> nics)) | None => None end;
     is_addresses := js_filter (λ a, negb (linkLocal a)) (nics ≫= nic_addresses);
     is_hints := hintsOf cfg;
     is_stateful := bool_decide (ii_type i = "virtual-machine") && bool_decide (cfg !! "migration.stateful" = Some "true");
     is_snapshots := Z.of_nat (length (ii_snapshots i)) |}.

Definition memberOf (name url status : string) (roles groups : list string) (architecture : string)
    (res : option IncusResources) (state : option IncusMemberState) : MemberSnapshot :=
  {| ms_name := name; ms_url := url; ms_status := status; ms_roles := roles; ms_groups := groups;
     ms_architecture := if truthy_str architecture then architecture
                        else default EmptyString (res ≫= ir_cpuArchitecture);
     ms_cpuThreads := default 0%Z (res ≫= ir_cpuTotal);
     ms_memoryTotal := default 0%Z (res ≫= ir_memoryTotal);
     ms_memoryUsed := default 0%Z (res ≫= ir_memoryUsed);
     ms_load1 := state ≫= λ s, head (im_load_averages s);
     ms_uptimeS := state ≫= im_uptime |}.

(** ** A pass *)

(** What the cluster answers to the requests of a pass. A read through
    [maybe] that fails is [None]; the first two fail the pass. *)
Record IncusAnswers := {
  a_server : result (bool * string);  (** server_clustered, server_name *)
  a_instances : result (list IncusInstance);
  a_pools : option (list IncusPool);
  a_networks : option (list IncusNetwork);
  a_members : option (list IncusMember);
  a_resources : option string → option IncusResources;  (** of a target member, or of the server *)
  a_memberState : string → option IncusMemberState;
  a_poolSpace : string → option (option Z * option Z);
}.

Definition networkOf (n : IncusNetwork) : NetworkSnapshot :=
  {| ns_project := default "default" (in_project n); ns_name := in_name n; ns_type := in_type n;
     ns_managed := in_managed n; ns_status := default EmptyString (in_status n);
     ns_description := default EmptyString (in_description n) |}.

Definition poolsOf (poolList : list IncusPool) (member : string) (state : option IncusMemberState) : list PoolSnapshot :=
  poolList ≫= λ p,
    match state ≫= λ s, im_storage_pools s !! ip_name p with
    | Some space => [{| ps_member := member; ps_name := ip_name p; ps_driver := ip_driver p; ps_status := ip_status p;
                        ps_spaceTotal := space.1; ps_spaceUsed := space.2 |}]
    | None => []
    end.

Definition collectInventory (c : IncusAnswers) : result Snapshot :=
  server ← a_server c;
  let clustered : bool := server.1 in
  raw ← (match a_instances c with
         | Ok l => Ok l
         | Throw e => throw 502 "cluster_error" ("Reading instances: " +++ message e)
         end);
  let poolList := default [] (a_pools c) in
  let networks := networkOf <$> js_filter in_managed (default [] (a_networks c)) in
  let read : list MemberSnapshot * list PoolSnapshot :=
    if clustered then
      let listed := default [] (a_members c) in
      ((λ m : IncusMember, memberOf (ic_server_name m) (default EmptyString (ic_url m)) (ic_status m)
               (default [] (ic_roles m)) (default [] (ic_groups m)) (default EmptyString (ic_architecture m))
               (a_resources c (Some (ic_server_name m))) (a_memberState c (ic_server_name m))) <$> listed,
       listed ≫= λ m : IncusMember, poolsOf poolList (ic_server_name m) (a_memberState c (ic_server_name m)))
    else
      let name := server.2 in
      ([memberOf name EmptyString "Online" [] ["default"] EmptyString (a_resources c None) None],
       (λ p : IncusPool, let r := a_poolSpace c (ip_name p) in
             {| ps_member := name; ps_name := ip_name p; ps_driver := ip_driver p; ps_status := ip_status p;
                ps_spaceTotal := r ≫= fst; ps_spaceUsed := r ≫= snd |}) <$> poolList)
  in
  Ok {| s_clustered := clustered; s_members := read.1; s_instances := instanceOf <$> raw;
        s_pools := read.2; s_networks := networks |}.
