(* ===== verification/BalancingModel.v ===== *)
(** * BalancingModel: the engine's view of a cluster

    Models [balancing/model.ts]: sizes and CPU sets as Incus writes them, which
    guests a policy lets the engine move, and the engine's input from a fresh
    inventory pass. The engine's promises ([BalancingTheory]) are carried back
    to the inventory: a plan respects the policy it was made under. *)

From Stdlib Require Import QArith.QArith_base QArith.Qcanon.
From S2P Require Import Prelude JsString Digits Effects Balancing BalancingMoves BalancingTheory Fleet.
Open Scope Z_scope.

Record Policy := {
  p_method : Method; p_mode : Mode; p_balanciness : Qc; p_maxMoves : Z;
  p_allowRestart : bool; p_excludeMembers : list string; p_excludeProjects : list string;
}.

Definition DEFAULT_POLICY : Policy :=
  {| p_method := ByMemory; p_mode := Used; p_balanciness := Q2Qc (Qmake 10 1); p_maxMoves := 5;
     p_allowRestart := false; p_excludeMembers := []; p_excludeProjects := [] |}.

(** ** Sizes and CPU sets *)

Definition UNITS : list (string * Z) :=
  [(EmptyString, 1); ("B", 1); ("kB", 1000); ("MB", 1000 ^ 2); ("GB", 1000 ^ 3); ("TB", 1000 ^ 4);
   ("KiB", 1024); ("MiB", 1024 ^ 2); ("GiB", 1024 ^ 3); ("TiB", 1024 ^ 4)].

(** [Math.round(n / d)] for [0 < d] *)
Definition round_div (n d : Z) : Z := (2 * n + d) / (2 * d).

(** [(?:\.\d+)?] at the front of [r]: the digits after the point, and the rest. *)
Definition fraction (r : string) : string * string :=
  match r with
  | String "."%char r' =>
      let '(f, rest) := span is_digit r' in if truthy_str f then (f, rest) else (EmptyString, r)
  | _ => (EmptyString, r)
  end.

(** [/^\s*(\d+(?:\.\d+)?)\s*([kMGT]i?B|B)?\s*$/]: what is left after the
    number is trimmed and looked up, so it is one of the units or nothing
    ([kiB] matches the expression but is no unit). *)
Definition bytesOf (v : string) : option Z :=
  let '(d, r) := span is_digit (trim_start v) in
  if truthy_str d then
    let '(f, r) := fraction r in
    unit ← map_get UNITS (trim r);
    Some (round_div (digits_val (d +++ f) * unit) (10 ^ Z.of_nat (String.length f)))
  else None.

(** [/^(\d+)(?:-(\d+))?$/] *)
Definition cpu_range (part : string) : option (Z * option Z) :=
  let '(a, r) := span is_digit part in
  if truthy_str a then
    match r with
    | EmptyString => Some (digits_val a, None)
    | String "-"%char b => if all_digits b then Some (digits_val a, Some (digits_val b)) else None
    | _ => None
    end
  else None.

Fixpoint sum_ranges (n : Z) (parts : list string) : option Z :=
  match parts with
  | [] => Some n
  | part :: parts =>
      match cpu_range (trim part) with
      | None => None
      | Some (a, Some b) => sum_ranges (n + (b - a + 1)) parts
      | Some (_, None) => sum_ranges (n + 1) parts
      end
  end.

Definition cpusOf (v : string) : option Z :=
  let s := trim v in
  if negb (truthy_str s) then None
  else if all_digits s then Some (digits_val s)
  else sum_ranges 0 (split_on "," s).

(** ** The engine's input *)

Definition RUNNING : list string := ["Running"].

Definition movable (i : InstanceSnapshot) (p : Policy) : bool :=
  if includes (p_excludeProjects p) (is_project i) then false
  else if bool_decide (is_status i = "Stopped") then true
  else if negb (includes RUNNING (is_status i)) then false
  else is_stateful i || p_allowRestart p.

Definition qc (z : Z) : Qc := Q2Qc (inject_Z z).

Definition model_member (s : Snapshot) (p : Policy) (m : MemberSnapshot) : Member :=
  let pools := js_filter (λ x, bool_decide (ps_member x = ms_name m)) (s_pools s) in
  {| m_name := ms_name m;
     m_maintenance := negb (bool_decide (ms_status m = "Online")) || includes (p_excludeMembers p) (ms_name m);
     m_total := {| r_memory := qc (ms_memoryTotal m); r_cpu := qc (ms_cpuThreads m);
                   r_disk := qc (foldl (λ n x, n + default 0 (ps_spaceTotal x)) 0 pools) |};
     m_used := {| r_memory := qc (ms_memoryUsed m); r_cpu := default (qc 0) (ms_load1 m);
                  r_disk := qc (foldl (λ n x, n + default 0 (ps_spaceUsed x)) 0 pools) |} |}.

Definition rate_key (i : InstanceSnapshot) : string := is_project i +++ "/" +++ is_name i.

Definition model_guest (p : Policy) (cpuRates : gmap string Qc) (i : InstanceSnapshot) : Guest :=
  let running := includes RUNNING (is_status i) in
  let disk := qc (default 0 (is_diskUsed i)) in
  {| g_project := is_project i; g_name := is_name i; g_member := is_location i;
     g_type := is_type i; g_running := running; g_movable := movable i p;
     g_used := {| r_memory := qc (if running then default 0 (is_memoryUsed i) else 0);
                  r_cpu := if running then default (qc 0) (cpuRates !! rate_key i) else qc 0;
                  r_disk := disk |};
     g_assigned := {| r_memory := qc (default (default 0 (is_memoryUsed i)) (bytesOf (is_limitsMemory i)));
                      r_cpu := qc (default 1 (cpusOf (is_limitsCpu i)));
                      r_disk := disk |};
     g_hints := is_hints i |}.

Definition modelOf (s : Snapshot) (p : Policy) (cpuRates : gmap string Qc) : list Member * list Guest :=
  let members := model_member s p <$> s_members s in
  let known := set_of (m_name <$> members) in
  (members, model_guest p cpuRates <$> js_filter (λ i, includes known (is_location i)) (s_instances s)).

(** The input of a plan for a snapshot under a policy. *)
Definition input_of (s : Snapshot) (p : Policy) (cpuRates : gmap string Qc) : PlanInput :=
  let m := modelOf s p cpuRates in
  {| i_members := m.1; i_guests := m.2; i_method := p_method p; i_mode := p_mode p;
     i_balanciness := p_balanciness p; i_maxMoves := p_maxMoves p |}.

(** ** Lemmas *)

Lemma trim_start_digits d r :
  str_forall is_digit d = true → d ≠ EmptyString → trim_start (d +++ r) = d +++ r.
Proof.
  destruct d as [|c d]; [done|]. simpl. intros [Hc _]%andb_prop _.
  by rewrite is_digit_not_space.
Qed.

Lemma round_div_1 n : round_div n 1 = n.
Proof.
  unfold round_div. replace (2 * n + 1) with (1 + n * (2 * 1)) by lia.
  by rewrite Z.div_add.
Qed.

Lemma bytesOf_number d u k :
  str_forall is_digit d = true → d ≠ EmptyString → (u, k) ∈ UNITS → bytesOf (d +++ u) = Some (digits_val d * k).
Proof.
  intros Hd Hne Hu. unfold bytesOf. rewrite trim_start_digits by done.
  assert (starts_not is_digit u = true ∧ fraction u = (EmptyString, u) ∧ map_get UNITS (trim u) = Some k) as (H1 & H2 & H3).
  { unfold UNITS in Hu. repeat (apply elem_of_cons in Hu as [[= -> ->]|Hu]; [done|]). by apply elem_of_nil in Hu. }
  rewrite span_append by done.
  unfold truthy_str. rewrite bool_decide_eq_false_2 by done. cbn [negb]. rewrite H2, H3. simpl.
  rewrite append_nil_r. f_equal. apply round_div_1.
Qed.

Lemma modelOf_members s p r m :
  m ∈ (modelOf s p r).1 ↔ ∃ x, x ∈ s_members s ∧ m = model_member s p x.
Proof.
  simpl. rewrite list_elem_of_fmap. split; intros (x & ? & ?); eauto.
Qed.

Lemma modelOf_guests s p r g :
  g ∈ (modelOf s p r).2 ↔ ∃ i, i ∈ s_instances s ∧ g = model_guest p r i ∧ is_location i ∈ ms_name <$> s_members s.
Proof.
  unfold modelOf. simpl. rewrite list_elem_of_fmap.
  assert (∀ i, includes (set_of (m_name <$> (model_member s p <$> s_members s))) (is_location i) = true
               ↔ is_location i ∈ ms_name <$> s_members s) as Hk.
  { intros i. rewrite includes_spec, elem_of_set_of, <-list_fmap_compose. done. }
  split.
  - intros (i & -> & [Hi Hc]%elem_of_js_filter). exists i. repeat split; try done. by apply Hk.
  - intros (i & Hi & -> & Hc). exists i. split; [done|]. apply elem_of_js_filter. split; [done|]. by apply Hk.
Qed.

Lemma modelOf_keys s p r : NoDup (rate_key <$> s_instances s) → NoDup (key <$> (modelOf s p r).2).
Proof.
  intros Hnd. unfold modelOf. simpl. rewrite <-list_fmap_compose.
  eapply sublist_NoDup; [exact Hnd|].
  change (key ∘ model_guest p r) with rate_key.
  apply fmap_sublist, js_filter_sublist.
Qed.

Lemma movable_spec i p :
  movable i p = true ↔
  (is_project i ∉ p_excludeProjects p) ∧
  (is_status i = "Stopped" ∨ is_status i = "Running" ∧ (is_stateful i = true ∨ p_allowRestart p = true)).
Proof.
  unfold movable. destruct (includes (p_excludeProjects p) (is_project i)) eqn:E1.
  { apply includes_spec in E1. split; [done|tauto]. }
  apply includes_false in E1. case_bool_decide as E2; [tauto|].
  destruct (includes RUNNING (is_status i)) eqn:E3; simpl.
  - apply includes_spec, list_elem_of_singleton in E3.
    destruct (is_stateful i), (p_allowRestart p); simpl; split; try done; intuition congruence.
  - apply includes_false in E3. split; [done|]. intros (_ & [?|[Hr _]]); [done|].
    exfalso. apply E3. rewrite Hr. by left.
Qed.

(** ** Properties *)

(** What a policy lets the engine do with an instance of a snapshot: its project is not excluded,
    and it is stopped, or runs and can move live or may be restarted; it goes off the member the
    snapshot places it on, to a member that is online and not excluded. *)
Definition move_allowed (s : Snapshot) (p : Policy) (mv : Move) : Prop :=
  ∃ i m,
    i ∈ s_instances s ∧ is_project i = mv_project mv ∧ is_name i = mv_name mv ∧ is_location i = mv_from mv
    ∧ (is_project i ∉ p_excludeProjects p)
    ∧ (is_status i = "Stopped" ∨ is_status i = "Running" ∧ (is_stateful i = true ∨ p_allowRestart p = true))
    ∧ m ∈ s_members s ∧ ms_name m = mv_to mv ∧ ms_status m = "Online" ∧ (ms_name m ∉ p_excludeMembers p)
    ∧ ms_name m ≠ is_location i.

Lemma planned_moves `{!Locale} s p rates (Hkeys : NoDup (rate_key <$> s_instances s)) :
  ∃ r, plan (input_of s p rates) = Some r ∧ (∀ mv, mv ∈ moves r → move_allowed s p mv)
    ∧ NoDup (mv_key <$> moves r) ∧ Z.of_nat (length (moves r)) ≤ Z.max 0 (p_maxMoves p).
Proof.
  pose proof (modelOf_keys s p rates Hkeys) as Hk.
  destruct (plan_reached (input_of s p rates) Hk) as (pr & Hr & Hp & _).
  pose proof (reached_sound (input_of s p rates) Hk _ Hr) as Hs.
  eexists. split; [exact Hp|]. simpl. split; [|rewrite <-(sound_moved _ _ Hs); split; apply Hs].
  intros mv Hmv. pose proof (sound_legal _ _ Hs) as Hl. rewrite Forall_forall in Hl.
  destruct (Hl mv Hmv) as (g & Hg & Hpr & Hn & Hf & Hm & _ & _ & Hact & Hne & _).
  apply modelOf_guests in Hg as (i & Hi & -> & _).
  unfold activeNames, active in Hact. apply list_elem_of_fmap in Hact as (x & Hx & Hin).
  apply elem_of_js_filter in Hin as [Hin Hmaint]. apply (modelOf_members s p rates) in Hin as (m & Hin & ->).
  simpl in *. apply movable_spec in Hm as [Hex Hst]. bool_prop.
  exists i, m. repeat split; try done; try (by apply includes_false); congruence.
Qed.

(** A plan respects the policy it was made under. *)
Theorem plan_respects_policy `{!Locale} s p rates (Hkeys : NoDup (rate_key <$> s_instances s)) :
  ∃ r, plan (input_of s p rates) = Some r ∧ ∀ mv, mv ∈ moves r → move_allowed s p mv.
Proof. destruct (planned_moves s p rates Hkeys) as (r & ? & ? & _). by exists r. Qed.

(** A size written with a whole number and one of Incus's units is read as that many units. *)
Theorem bytesOf_units n u k :
  0 ≤ n → (u, k) ∈ UNITS → bytesOf (show_Z n +++ u) = Some (n * k).
Proof.
  intros Hn Hu. destruct (show_Z_spec n Hn) as (Hd & Hne & Hv).
  by rewrite (bytesOf_number _ u k), Hv.
Qed.

Example bytesOf_examples :
  bytesOf " 1.5 GiB " = Some (3 * 2 ^ 29) ∧ bytesOf "2048" = Some 2048 ∧ bytesOf "10%" = None
  ∧ bytesOf "1kiB" = None ∧ bytesOf "1." = None.
Proof. vm_compute. done. Qed.
Example cpusOf_examples :
  cpusOf "0,2,4-5" = Some 4 ∧ cpusOf "0-3" = Some 4 ∧ cpusOf " 2 " = Some 2 ∧ cpusOf "a" = None ∧ cpusOf EmptyString = None.
Proof. vm_compute. done. Qed.

(** ** A concrete snapshot *)

Definition demo_ms (name : string) (status : string) : MemberSnapshot :=
  {| ms_name := name; ms_url := EmptyString; ms_status := status; ms_roles := []; ms_groups := [];
     ms_architecture := "x86_64"; ms_cpuThreads := 8; ms_memoryTotal := 100; ms_memoryUsed := 0;
     ms_load1 := None; ms_uptimeS := None |}.
Definition demo_is (name status : string) (stateful : bool) : InstanceSnapshot :=
  {| is_project := "web"; is_name := name; is_type := "virtual-machine"; is_status := status; is_location := "n1";
     is_description := EmptyString; is_architecture := "x86_64"; is_createdAt := EmptyString;
     is_imageOs := EmptyString; is_imageRelease := EmptyString; is_limitsCpu := EmptyString; is_limitsMemory := "40B";
     is_cpuNs := None; is_memoryUsed := Some 40; is_memoryTotal := None; is_diskUsed := None;
     is_netRx := None; is_netTx := None; is_addresses := []; is_hints := hintsOf ∅; is_stateful := stateful;
     is_snapshots := 0 |}.
Definition demo_snapshot : Snapshot :=
  {| s_clustered := true; s_members := [demo_ms "n1" "Online"; demo_ms "n2" "Evacuated"; demo_ms "n3" "Online"];
     s_instances := [demo_is "pinned" "Running" false; demo_is "live" "Running" true];
     s_pools := []; s_networks := [] |}.
Definition demo_policy : Policy :=
  {| p_method := ByMemory; p_mode := Assigned; p_balanciness := Q2Qc (Qmake 5 1); p_maxMoves := 5;
     p_allowRestart := false; p_excludeMembers := []; p_excludeProjects := [] |}.

Example demo_policy_moves :
  ((λ r, (λ m, (mv_name m, mv_to m)) <$> moves r) <$> @plan code_unit_locale (input_of demo_snapshot demo_policy ∅))
  = Some [("live", "n3")].
Proof. vm_compute. done. Qed.

Lemma plan_respects_policy_witness :
  ∃ r, @plan code_unit_locale (input_of demo_snapshot demo_policy ∅) = Some r
    ∧ ∀ mv, mv ∈ moves r → move_allowed demo_snapshot demo_policy mv.
Proof.
  apply (@plan_respects_policy code_unit_locale demo_snapshot demo_policy ∅).
  apply (bool_decide_unpack _). vm_compute. exact I.
Defined.

Lemma bytesOf_units_witness : 0 ≤ 3 ∧ ("GiB", 1024 ^ 3) ∈ UNITS ∧ bytesOf (show_Z 3 +++ "GiB") = Some (3 * 1024 ^ 3).
Proof.
  assert (("GiB", 1024 ^ 3) ∈ UNITS) as Hu by (apply (bool_decide_unpack _); vm_compute; exact I).
  split; [lia|]. split; [exact Hu|]. apply (bytesOf_units 3 "GiB" (1024 ^ 3)); [lia|exact Hu].
Defined.
