(* ===== verification/Grants.v ===== *)
(** * Grants: the tuples a cluster's OpenFGA store holds for the platform

    Models [reconcile/grants.ts]: which Incus relations a subject's decisions
    give on a cluster, the tuples wanted in its store, and the difference to
    write; and the write of [reconcile/cluster-store.ts] and [syncGrants], where
    OpenFGA may refuse chunks or fail ([Taken]). Objects, users and relations are the strings of the source; the
    digest that names the groups of explicit entries is a parameter. *)

From S2P Require Import Prelude JsString AclCatalog Effects.

Definition PREFIX : string := "incuscloud-".

Record Tuple := { tu_user : string; tu_relation : string; tu_object : string }.
Global Instance Tuple_eq_dec : EqDecision Tuple.
Proof. solve_decision. Defined.

Inductive GroupKind := ForTenant | ForPlatform.
(** [groupName]; a platform group has no second part. *)
Definition groupName (kind : GroupKind) (a b : string) : string :=
  match kind with
  | ForTenant => PREFIX +++ "tenant-" +++ a +++ "-" +++ b
  | ForPlatform => PREFIX +++ "platform-" +++ a
  end.

Definition PROJECT_RELATION : list (string * string) :=
  [("owner", "operator"); ("admin", "operator"); ("member", "operator"); ("viewer", "viewer")].
Definition TENANT_ROLES : list string := PROJECT_RELATION.*1.
Definition PLATFORM_ROLES : list string := ["admin"; "operator"; "viewer"].

Definition projectRelation (role : string) : string := default EmptyString (map_get PROJECT_RELATION role).
Definition serverRelation (role : string) : string := if includes PLATFORM_ROLES role then role else EmptyString.

Record GrantFacts := {
  gf_placements : list (string * string);  (** tenant id, project *)
  gf_members : list (string * string * string);  (** tenant id, subject, role *)
  gf_platform : list (string * string);  (** subject, role *)
  gf_acl : option (list (string * string * string));  (** subject, relation, object *)
}.

(** ** Relations and their ranks *)

Definition RANK (r : string) : nat := default 0 (map_get [("viewer", 1); ("operator", 2); ("admin", 3)] r).

Definition SERVER (r : RoleId) : string :=
  match r with
  | RAdministrator | RClusterOwner => "admin"
  | ROperator => "operator"
  | RAuditor => "viewer"
  | _ => EmptyString
  end.
Definition PROJECT (r : RoleId) : string :=
  match r with
  | RAdministrator | RClusterOwner | ROperator | RUnrestrictedUser | RTenantAdmin => "operator"
  | RAuditor => "viewer"
  | _ => EmptyString
  end.

Definition strongest (map : RoleId → string) (roles : list RoleId) : string :=
  foldl (λ a b, if (RANK a <? RANK b)%nat then b else a) EmptyString
    (map <$> (if includes roles RNoAccess then [] else roles)).

Inductive Level := OnServer | OnProject.
Definition roleRelation (role : RoleId) (on : Level) : string :=
  strongest (match on with OnServer => SERVER | OnProject => PROJECT end) [role].

Record ProjectFacts := { pf_name : string; pf_instances : list string; pf_shared : list string }.
Record Decision := { d_roles : list RoleId; d_at : option string; d_privileges : option (list string) }.

Definition USER_PROJECT : list string :=
  ["can_create_instances"; "can_create_storage_volumes"; "can_create_storage_buckets"; "can_view_events";
   "can_view_operations"].

Definition instanceRelation (p : list string) : string :=
  if includes p "instance.configure" then "operator"
  else if includes p "instance.console" then "user"
  else if includes p "instance.view" then "viewer" else EmptyString.
Definition IRANK (r : string) : nat := default 0 (map_get [("viewer", 1); ("user", 2); ("operator", 3)] r).
Definition asInstance (r : string) : string := if bool_decide (r = "admin") then "operator" else r.

Record Relation := { relation : string; object : string }.

(** ** The relations a subject's decisions give on one cluster *)

Section explicit.
Context (cluster : string) (decide : string → Decision).

Definition clusterPath : string := "/clusters/" +++ cluster.
Definition projectPath (p : string) : string := "/clusters/" +++ cluster +++ "/projects/" +++ p.
Definition instancePath (p i : string) : string := projectPath p +++ "/instances/" +++ i.

(** What is worked out per project. *)
Record Per := {
  x_facts : ProjectFacts; x_relation : string; x_narrowed : bool;
  x_instances : list (string * string);  (** name, relation *)
  x_user : bool;
}.

Definition instances_of (f : ProjectFacts) : list (string * string) :=
  (λ i, (i, instanceRelation (default [] (d_privileges (decide (instancePath (pf_name f) i)))))) <$> pf_instances f.

(** The relation the project's decision gives: the cluster's own unless it is made below. *)
Definition decided_relation (base : string) (f : ProjectFacts) : string :=
  let d := decide (projectPath (pf_name f)) in
  let below := match d_at d with
               | Some at_ => truthy_str at_ && negb (bool_decide (at_ = "/")) && negb (bool_decide (at_ = clusterPath))
               | None => false
               end in
  if below then strongest PROJECT (d_roles d) else base.

Definition per_project (base : string) (f : ProjectFacts) : Per :=
  let d := decide (projectPath (pf_name f)) in
  let relation := decided_relation base f in
  let instances := instances_of f in
  let narrowed := some (λ i, (IRANK i.2 <? IRANK (asInstance relation))%nat) instances in
  let user := negb (truthy_str relation) && match d_privileges d with Some p => includes p "instance.create" | None => false end in
  {| x_facts := f; x_relation := if narrowed then EmptyString else relation; x_narrowed := narrowed;
     x_instances := instances; x_user := user |}.

Definition projectObject (p : string) : string := "project:" +++ p.
Definition instanceObject (p i : string) : string := "instance:" +++ p +++ "/" +++ i.
Definition SERVER_OBJECT : string := "server:incus".

Definition project_out (whole : bool) (base : string) (x : Per) : list Relation :=
  let p := pf_name (x_facts x) in
  (if truthy_str (x_relation x) && (negb whole || (RANK base <? RANK (x_relation x))%nat)
   then [{| relation := x_relation x; object := projectObject p |}] else [])
  ++ (if x_user x
      then ((λ r, {| relation := r; object := projectObject p |}) <$> USER_PROJECT)
           ++ ((λ o, {| relation := "can_view"; object := o |}) <$> pf_shared (x_facts x))
      else [])
  ++ (let given := if x_narrowed x then EmptyString
                   else asInstance (if truthy_str (x_relation x) then x_relation x
                                    else if whole then base else EmptyString) in
      (λ i, {| relation := i.2; object := instanceObject p i.1 |})
      <$> js_filter (λ i, (IRANK given <? IRANK i.2)%nat) (x_instances x)).

Definition is_narrowed (base : string) (per : list Per) : bool :=
  some (λ x, x_narrowed x || (RANK (x_relation x) <? RANK base)%nat) per.

Definition explicitRelations (projects : list ProjectFacts) : list Relation :=
  let top := d_roles (decide clusterPath) in
  let server := strongest SERVER top in
  let base := strongest PROJECT top in
  let per := per_project base <$> projects in
  let whole := negb (is_narrowed base per) && truthy_str server in
  (if whole then [{| relation := server; object := SERVER_OBJECT |}] else [])
  ++ (per ≫= project_out whole base).
End explicit.

(** ** The tuples a store should hold *)

Definition memberTuple (subject group : string) : Tuple :=
  {| tu_user := "user:" +++ subject; tu_relation := "member"; tu_object := "group:" +++ group |}.
Definition groupTuple (group relation object : string) : Tuple :=
  {| tu_user := "group:" +++ group +++ "#member"; tu_relation := relation; tu_object := object |}.

Section desired.
(** The first twelve characters of the hexadecimal SHA-256 of a string. *)
Context (digest12 : string → string).

Definition aclGroup (relation object : string) : string :=
  PREFIX +++ "acl-" +++ digest12 (relation +++ "|" +++ object).

Definition placementTuples (p : string * string) : list Tuple :=
  (λ r, groupTuple (groupName ForTenant p.1 r.1) r.2 ("project:" +++ p.2)) <$> PROJECT_RELATION.

Definition memberTuples (placed : list string) (m : string * string * string) : list Tuple :=
  let '(tenant, subject, role) := m in
  if includes placed tenant && includes TENANT_ROLES role
  then [memberTuple subject (groupName ForTenant tenant role)] else [].

Definition platformTuples (p : string * string) : list Tuple :=
  if includes PLATFORM_ROLES p.2 then [memberTuple p.1 (groupName ForPlatform p.2 EmptyString)] else [].

(** A group is defined where its first entry is met. *)
Fixpoint aclTuples (defined : list string) (l : list (string * string * string)) : list Tuple :=
  match l with
  | [] => []
  | (subject, relation, object) :: l =>
      let group := aclGroup relation object in
      (if includes defined group then [] else [groupTuple group relation object])
      ++ memberTuple subject group :: aclTuples (set_add defined group) l
  end.

Definition desiredGrants (f : GrantFacts) : list Tuple :=
  let placed := set_of (gf_placements f).*1 in
  (gf_placements f ≫= placementTuples)
  ++ (gf_members f ≫= memberTuples placed)
  ++ ((λ role, groupTuple (groupName ForPlatform role EmptyString) role "server:incus") <$> PLATFORM_ROLES)
  ++ (gf_platform f ≫= platformTuples)
  ++ aclTuples [] (default [] (gf_acl f)).
End desired.

Definition isManaged (t : Tuple) : bool :=
  starts_with ("group:" +++ PREFIX) (tu_user t) || starts_with ("group:" +++ PREFIX) (tu_object t).

Definition key (t : Tuple) : string := tu_user t +++ "|" +++ tu_relation t +++ "|" +++ tu_object t.

Definition by_key (l : list Tuple) : js_map string Tuple := foldl (λ m t, map_set m (key t) t) [] l.

Record Diff := { writes : list Tuple; deletes : list Tuple }.
Definition diffTuples (desired current : list Tuple) : Diff :=
  let want := by_key desired in
  let have := by_key current in
  {| writes := (js_filter (λ kt, negb (map_has have kt.1)) want).*2;
     deletes := (js_filter (λ kt, negb (map_has want kt.1) && isManaged kt.2) have).*2 |}.

(** ** The store and its synchronisation ([cluster-store.ts], [cluster.ts])

    The store is written without a transaction: the client sends the tuples to
    write, then those to delete, in chunks of fifty, each taken or refused by
    itself, and reports a refused chunk only in what it returns, which is not
    looked at. What OpenFGA made of a write is the argument [Taken]. *)

Definition CHUNK : nat := 50.
Record Taken := {
  tk_writes : nat → bool;       (** whether the n-th chunk of writes was taken *)
  tk_deletes : nat → bool;
  tk_raised : option ApiError;  (** what the client threw: no sign-in, no connection *)
  tk_unread : option ApiError;  (** what reading the store threw *)
}.
Definition all_taken (a : Taken) : Prop := (∀ n, tk_writes a n = true) ∧ (∀ n, tk_deletes a n = true) ∧ tk_raised a = None ∧ tk_unread a = None.

(** The tuples of the chunks that were taken, from position [i] on. *)
Fixpoint of_chunks (ok : nat → bool) (i : nat) (l : list Tuple) : list Tuple :=
  match l with
  | [] => []
  | t :: l => (if ok (i / CHUNK) then [t] else []) ++ of_chunks ok (S i) l
  end.

(** A store is the list of its tuples; a duplicate write and a missing delete are ignored. Nothing to write is no call. *)
Definition store_write (a : Taken) (store : list Tuple) (w d : list Tuple) : list Tuple * result unit :=
  match w, d with
  | [], [] => (store, Ok ())
  | _, _ =>
      let w := of_chunks (tk_writes a) 0 w in
      let d := of_chunks (tk_deletes a) 0 d in
      (foldl (λ s t, if includes s t then s else s ++ [t]) (js_filter (λ t, negb (includes d t)) store) w,
       match tk_raised a with Some e => Throw e | None => Ok () end)
  end.
Definition readManaged (store : list Tuple) : list Tuple := js_filter isManaged store.

(** [syncGrants]: the store afterwards, and the record of what is taken to be there; nothing is recorded when reading
    or writing throws. *)
Definition current_grants (a : Taken) (scan : bool) (s : list Tuple * list Tuple) : result (list Tuple) :=
  if scan then match tk_unread a with Some e => Throw e | None => Ok (readManaged s.1) end else Ok s.2.
Definition syncGrants (a : Taken) (desired : list Tuple) (scan : bool) (s : list Tuple * list Tuple)
    : list Tuple * result (list Tuple) :=
  match current_grants a scan s with
  | Throw e => (s.1, Throw e)
  | Ok current =>
      let d := diffTuples desired current in
      let '(store, written) := store_write a s.1 (writes d) (deletes d) in
      (store,
       _ ← written;
       Ok match writes d, deletes d, scan with
          | [], [], false => s.2
          | _, _, _ => set_of desired
          end)
  end.
