(* ===== verification/GrantsTheory.v ===== *)
(** * GrantsTheory: the tuples give what the decisions say

    What Incus makes of relations is specified by [project_gives] and
    [instance_gives]: a relation on the server counts on every project, one on
    a project on its instances. The relations computed for a subject never give
    more than its decisions, and give exactly them on instances unless roles
    with and without a server relation decide the cluster together. Writing
    the difference touches no other tuples, and reaches the wanted ones when
    OpenFGA takes every chunk; what it refuses is recorded all the same, until a
    scan. *)

From S2P Require Import Prelude JsString AclCatalog Effects Grants.

(** ** What Incus gives *)

Definition maxof {A} (w : A → nat) (l : list A) : nat := foldr (λ x n, w x `max` n) 0 l.

Lemma maxof_le {A} (w : A → nat) l n : (∀ x, x ∈ l → w x ≤ n) → maxof w l ≤ n.
Proof.
  induction l as [|x l IH]; simpl; intros H; [lia|].
  apply Nat.max_lub; [apply H; by left|apply IH; intros; apply H; by right].
Qed.


(** A server or project relation by what it gives on a project: 1 to view, 2 to operate. *)
Definition project_weight (p : string) (t : Relation) : nat :=
  if bool_decide (object t = SERVER_OBJECT) || bool_decide (object t = projectObject p)
  then 2 `min` RANK (relation t) else 0.
Definition project_gives (out : list Relation) (p : string) : nat := maxof (project_weight p) out.

(** The same on the instances of a project, on the scale of [IRANK]. *)
Definition on_instance (n : nat) : nat := match n with 0 => 0 | 1 => 1 | _ => 3 end.
Definition instance_weight (p i : string) (t : Relation) : nat :=
  if bool_decide (object t = instanceObject p i) then IRANK (relation t) else 0.
Definition instance_gives (out : list Relation) (p i : string) : nat :=
  on_instance (project_gives out p) `max` maxof (instance_weight p i) out.

Lemma on_instance_mono a b : a ≤ b → on_instance a ≤ on_instance b.
Proof. intros. destruct a as [|[|a]], b as [|[|b]]; simpl; lia. Qed.

(** ** Relations and ranks *)

Definition project_value (r : string) : Prop := r ∈ [EmptyString; "viewer"; "operator"].
Definition server_value (r : string) : Prop := r ∈ [EmptyString; "viewer"; "operator"; "admin"].

Lemma strongest_value (P : string → Prop) map roles :
  P EmptyString → (∀ r, P (map r)) → P (strongest map roles).
Proof.
  intros H0 Hm. unfold strongest. apply foldl_inv; [done|].
  intros a b (r & -> & _)%list_elem_of_fmap Ha. by case_match.
Qed.

Lemma strongest_project roles : project_value (strongest PROJECT roles).
Proof. apply strongest_value; [left|]. intros []; apply (bool_decide_unpack _); vm_compute; exact I. Qed.
Lemma strongest_server roles : server_value (strongest SERVER roles).
Proof. apply strongest_value; [left|]. intros []; apply (bool_decide_unpack _); vm_compute; exact I. Qed.

Lemma project_value_server r : project_value r → server_value r.
Proof. unfold project_value, server_value. set_solver. Qed.

Lemma irank_rank r : server_value r → IRANK (asInstance r) = on_instance (2 `min` RANK r).
Proof. intros Hr. repeat (apply elem_of_cons in Hr as [->|Hr]; [reflexivity|]). by apply elem_of_nil in Hr. Qed.

Lemma project_rank r : project_value r → 2 `min` RANK r = RANK r.
Proof. intros Hr. repeat (apply elem_of_cons in Hr as [->|Hr]; [reflexivity|]). by apply elem_of_nil in Hr. Qed.


(** What the server relation gives on projects is never above the base. *)
Lemma server_below_base roles : 2 `min` RANK (strongest SERVER roles) ≤ RANK (strongest PROJECT roles).
Proof.
  unfold strongest. destruct (includes roles RNoAccess); [done|].
  assert (∀ a b, 2 `min` RANK a ≤ RANK b →
    2 `min` RANK (foldl (λ a b, if RANK a <? RANK b then b else a) a (SERVER <$> roles))
    ≤ RANK (foldl (λ a b, if RANK a <? RANK b then b else a) b (PROJECT <$> roles))) as Hf; [|by apply Hf].
  induction roles as [|r roles IH]; intros a b Hab; csimpl; [done|]. apply IH.
  assert (2 `min` RANK (SERVER r) ≤ RANK (PROJECT r)) as Hr by (destruct r; vm_compute; lia).
  destruct (Nat.ltb_spec (RANK a) (RANK (SERVER r))), (Nat.ltb_spec (RANK b) (RANK (PROJECT r))); lia.
Qed.

(** ** Objects *)

Lemma projectObject_inj p q : projectObject p = projectObject q → p = q.
Proof. apply append_inj_l. Qed.

Lemma instanceObject_inj p i q j :
  has_char "/" p = false → has_char "/" q = false → instanceObject p i = instanceObject q j → p = q ∧ i = j.
Proof.
  intros Hp Hq Heq. unfold instanceObject in Heq. apply append_inj_l in Heq.
  assert (split_on "/" (p +++ "/" +++ i) = split_on "/" (q +++ "/" +++ j)) as Hs by (by rewrite Heq).
  change ("/" +++ i) with (String "/" i) in Hs. change ("/" +++ j) with (String "/" j) in Hs.
  rewrite !split_on_cons in Hs by done. injection Hs as -> Hs. split; [done|].
  apply (f_equal (join "/")) in Hs. by rewrite !(join_split "/") in Hs.
Qed.

(** ** The relations of one subject *)

Section explicit.
Context (cluster : string) (decide : string → Decision) (projects : list ProjectFacts).
Hypothesis Hnames : NoDup (pf_name <$> projects).
Hypothesis Hslash : ∀ f, f ∈ projects → has_char "/" (pf_name f) = false.

Definition top : list RoleId := d_roles (decide (clusterPath cluster)).
Definition server : string := strongest SERVER top.
Definition base : string := strongest PROJECT top.
Definition pers : list Per := per_project cluster decide base <$> projects.
Definition whole : bool := negb (is_narrowed base pers) && truthy_str server.
Definition out : list Relation := explicitRelations cluster decide projects.
Abbreviation per f := (per_project cluster decide base f).
Abbreviation held f i := (IRANK (instanceRelation (default [] (d_privileges (decide (instancePath cluster (pf_name f) i)))))).

Lemma elem_of_out t :
  t ∈ out ↔ (whole = true ∧ t = {| relation := server; object := SERVER_OBJECT |})
            ∨ ∃ f, f ∈ projects ∧ t ∈ project_out whole base (per f).
Proof.
  unfold out, explicitRelations. fold top server base pers whole. rewrite elem_of_app, list_elem_of_bind. split.
  - intros [Ht|(x & Ht & (f & -> & Hf)%list_elem_of_fmap)]; [left|right; eauto].
    destruct whole; [by apply list_elem_of_singleton in Ht|by apply elem_of_nil in Ht].
  - intros [[-> ->]|(f & Hf & Ht)]; [left; by left|right]. exists (per f). split; [done|]. by apply list_elem_of_fmap_2.
Qed.

Lemma elem_of_project_out w b x t :
  t ∈ project_out w b x →
  (object t = projectObject (pf_name (x_facts x)) ∧ relation t = x_relation x ∧ truthy_str (x_relation x) = true
   ∧ (w = true → RANK b < RANK (x_relation x)))
  ∨ (RANK (relation t) = 0 ∧ relation t ≠ "admin" ∧ IRANK (relation t) = 0)
  ∨ ∃ i, i ∈ x_instances x ∧ t = {| relation := i.2; object := instanceObject (pf_name (x_facts x)) i.1 |}.
Proof.
  unfold project_out. rewrite !elem_of_app. intros [Ht|[Ht|Ht]].
  - left. destruct (_ && _) eqn:E; [|by apply elem_of_nil in Ht]. apply list_elem_of_singleton in Ht as ->.
    apply andb_prop in E as [E1 E2]. repeat split; try done. intros ->. simpl in E2. by apply Nat.ltb_lt in E2.
  - right; left. destruct (x_user x); [|by apply elem_of_nil in Ht].
    apply elem_of_app in Ht as [(r & -> & Hr)%list_elem_of_fmap|(o & -> & _)%list_elem_of_fmap]; [|done].
    repeat (apply elem_of_cons in Hr as [->|Hr]; [done|]). by apply elem_of_nil in Hr.
  - right; right. apply list_elem_of_fmap in Ht as (i & -> & Hi). apply elem_of_js_filter in Hi as [Hi _]. eauto.
Qed.

Lemma decided_value f : project_value (decided_relation cluster decide base f).
Proof. unfold decided_relation. destruct (match d_at _ with Some _ => _ | None => _ end); apply strongest_project. Qed.

Lemma per_relation_value f : project_value (x_relation (per f)).
Proof. simpl. case_match; [left|apply decided_value]. Qed.

Lemma per_instance f i : i ∈ x_instances (per f) → IRANK i.2 = held f i.1.
Proof. simpl. unfold instances_of. by intros (n & -> & _)%list_elem_of_fmap. Qed.

Lemma per_instances f i : i ∈ pf_instances f →
  (i, instanceRelation (default [] (d_privileges (decide (instancePath cluster (pf_name f) i))))) ∈ x_instances (per f).
Proof. intros Hi. simpl. unfold instances_of. apply list_elem_of_fmap. eauto. Qed.

(** A project that is not narrowed gives none of its instances more than they were decided. *)
Lemma not_narrowed_below f i :
  x_narrowed (per f) = false → i ∈ pf_instances f → IRANK (asInstance (x_relation (per f))) ≤ held f i.
Proof.
  intros Hn Hi. pose proof (per_instances f i Hi) as Hin.
  assert (x_relation (per f) = decided_relation cluster decide base f) as ->.
  { simpl. simpl in Hn. by rewrite Hn. }
  simpl in Hn. rewrite some_false in Hn. specialize (Hn _ Hin). simpl in Hn. by apply Nat.ltb_ge in Hn.
Qed.

Lemma relation_not_narrowed f : truthy_str (x_relation (per f)) = true → x_narrowed (per f) = false.
Proof. simpl. by destruct (some _ _). Qed.

Lemma whole_spec f : whole = true → f ∈ projects →
  x_narrowed (per f) = false ∧ RANK base ≤ RANK (x_relation (per f)).
Proof.
  unfold whole. intros [Hn _]%andb_prop Hf. apply negb_true_iff in Hn. unfold is_narrowed in Hn.
  rewrite some_false in Hn. specialize (Hn (per f)).
  apply orb_false_elim in Hn as [H1 H2]; [|by apply list_elem_of_fmap_2]. split; [done|]. by apply Nat.ltb_ge in H2.
Qed.

Lemma same_project f g : f ∈ projects → g ∈ projects → pf_name f = pf_name g → f = g.
Proof.
  intros Hf Hg Heq. apply list_elem_of_lookup in Hf as [a Ha]. apply list_elem_of_lookup in Hg as [b Hb].
  assert (a = b) as ->; [|congruence].
  eapply (NoDup_lookup (pf_name <$> projects)); [done| |]; rewrite list_lookup_fmap, ?Ha, ?Hb; simpl; [done|by rewrite Heq].
Qed.

(** *** Nothing above the decisions *)

Lemma project_weight_bound f t n :
  f ∈ projects → t ∈ out →
  (whole = true → 2 `min` RANK server ≤ n) → RANK (x_relation (per f)) ≤ n →
  project_weight (pf_name f) t ≤ n.
Proof.
  intros Hf Ht Hs Hx. unfold project_weight.
  destruct (bool_decide (object t = SERVER_OBJECT) || bool_decide (object t = projectObject (pf_name f))) eqn:E; [|lia].
  apply elem_of_out in Ht as [[Hw ->]|(g & Hg & Ht)]; [by apply Hs|].
  apply elem_of_project_out in Ht as [(Ho & Hr & _)|[(Hr & _)|(i & _ & ->)]]; [|lia|done].
  rewrite Ho in E. assert (g = f) as ->; [|rewrite Hr; lia].
  apply same_project; [done..|]. apply orb_prop in E as [E|E]; apply bool_decide_eq_true in E; [done|].
  by apply projectObject_inj.
Qed.

Lemma project_gives_bound f :
  f ∈ projects → project_gives out (pf_name f) ≤ RANK (decided_relation cluster decide base f).
Proof.
  intros Hf. unfold project_gives. apply maxof_le. intros t Ht.
  assert (RANK (x_relation (per f)) ≤ RANK (decided_relation cluster decide base f)) as Hx.
  { simpl. case_match; [apply Nat.le_0_l|done]. }
  apply (project_weight_bound f); [done..| |done].
  intros Hw. destruct (whole_spec f Hw Hf) as [_ Hb]. pose proof (server_below_base top). fold server base in *. lia.
Qed.

Lemma instance_gives_bound f i :
  f ∈ projects → i ∈ pf_instances f → instance_gives out (pf_name f) i ≤ held f i.
Proof.
  intros Hf Hi. unfold instance_gives. apply Nat.max_lub.
  - assert (∃ n, project_gives out (pf_name f) ≤ n ∧ on_instance n ≤ held f i) as (n & Hn & Hle).
    { destruct (x_narrowed (per f)) eqn:En.
      - exists 0. split; [|simpl; lia]. unfold project_gives. apply maxof_le. intros t Ht.
        apply (project_weight_bound f); [done..| |].
        + intros Hw. destruct (whole_spec f Hw Hf). congruence.
        + simpl in En |- *. by rewrite En.
      - exists (RANK (x_relation (per f))). split.
        + unfold project_gives. apply maxof_le. intros t Ht. apply (project_weight_bound f); [done..| |done].
          intros Hw. destruct (whole_spec f Hw Hf) as [_ Hb]. pose proof (server_below_base top). fold server base in *. lia.
        + pose proof (per_relation_value f) as Hv. rewrite <-(project_rank _ Hv), <-irank_rank by (by apply project_value_server).
          by apply not_narrowed_below. }
    etrans; [by apply on_instance_mono|done].
  - apply maxof_le. intros t Ht. unfold instance_weight. case_bool_decide as Eo; [|lia].
    apply elem_of_out in Ht as [[_ ->]|(g & Hg & Ht)]; [done|].
    apply elem_of_project_out in Ht as [(Ho & _)|[(_ & _ & ->)|(j & Hj & ->)]]; [by rewrite Ho in Eo|lia|].
    simpl in *. apply instanceObject_inj in Eo as [Heq Hij]; [|by apply Hslash..].
    assert (g = f) as -> by (by apply same_project). rewrite (per_instance f j Hj). by rewrite Hij.
Qed.

(** *** Everything of the decisions *)






(** *** No project admin *)

Lemma out_admin t : t ∈ out → relation t = "admin" → object t = SERVER_OBJECT.
Proof.
  intros [[_ ->]|(f & Hf & Ht)]%elem_of_out Hr; [done|].
  apply elem_of_project_out in Ht as [(_ & Hrel & _)|[(_ & Hne & _)|(i & Hi & ->)]]; [|done|].
  - exfalso. pose proof (per_relation_value f) as Hv. rewrite <-Hrel, Hr in Hv.
    repeat (apply elem_of_cons in Hv as [?|Hv]; [done|]). by apply elem_of_nil in Hv.
  - exfalso. simpl in *. unfold instances_of in Hi. apply list_elem_of_fmap in Hi as (n & -> & _).
    simpl in Hr. unfold instanceRelation in Hr. by repeat case_match.
Qed.
End explicit.

(** ** Tuples, their keys and the difference *)

(** The parts of a tuple have no [|], so that [key] tells tuples apart. *)
Definition tuple_wf (t : Tuple) : Prop :=
  has_char "|" (tu_user t) = false ∧ has_char "|" (tu_relation t) = false ∧ has_char "|" (tu_object t) = false.

Lemma key_tuple_inj t u : tuple_wf t → tuple_wf u → key t = key u → t = u.
Proof.
  intros (H1 & H2 & H3) (H4 & H5 & H6) Heq. unfold key in Heq.
  apply (f_equal (split_on "|")) in Heq.
  change ("|" +++ tu_relation t +++ "|" +++ tu_object t) with (String "|" (tu_relation t +++ String "|" (tu_object t))) in Heq.
  change ("|" +++ tu_relation u +++ "|" +++ tu_object u) with (String "|" (tu_relation u +++ String "|" (tu_object u))) in Heq.
  rewrite !split_on_cons, !split_on_no_char in Heq by done.
  destruct t, u. simpl in *. by injection Heq as -> -> ->.
Qed.

Lemma by_key_get l k t : map_get (by_key l) k = Some t → t ∈ l ∧ key t = k.
Proof.
  unfold by_key. revert t.
  apply (foldl_inv (λ m, ∀ t, map_get m k = Some t → t ∈ l ∧ key t = k)); [done|].
  intros m x Hx Hm t. rewrite map_get_set. case_bool_decide; [by intros [= <-]|apply Hm].
Qed.

Lemma by_key_wf l : map_wf (by_key l).
Proof. unfold by_key. apply foldl_inv; [constructor|]. intros. by apply map_wf_set. Qed.

Lemma by_key_has l t : t ∈ l → map_has (by_key l) (key t) = true.
Proof.
  intros Ht. unfold by_key. revert Ht. generalize ([] : js_map string Tuple).
  induction l as [|x l IH]; intros m Ht; [by apply elem_of_nil in Ht|]. simpl.
  apply elem_of_cons in Ht as [<-|Ht]; [|by apply IH].
  apply (foldl_inv (λ m, map_has m (key t) = true)).
  - unfold map_has. by rewrite map_get_set, bool_decide_eq_true_2.
  - intros m' y _. unfold map_has. rewrite map_get_set. by case_bool_decide.
Qed.

Lemma by_key_has_wf l t : (∀ u, u ∈ l → tuple_wf u) → tuple_wf t → map_has (by_key l) (key t) = true ↔ t ∈ l.
Proof.
  intros Hl Ht. split; [|apply by_key_has]. unfold map_has.
  destruct (map_get _ _) as [u|] eqn:E; [|done]. intros _. apply by_key_get in E as [Hu Hk].
  by rewrite (key_tuple_inj t u Ht (Hl u Hu)) by done.
Qed.

Lemma elem_of_by_key l t : (∀ u, u ∈ l → tuple_wf u) → (key t, t) ∈ by_key l ↔ t ∈ l.
Proof.
  intros Hl. split.
  - intros Hin. by apply (map_get_elem _ _ _ (by_key_wf l)), by_key_get in Hin as [? _].
  - intros Ht. pose proof (by_key_has l t Ht) as Hh. unfold map_has in Hh.
    destruct (map_get _ _) as [u|] eqn:E; [|done]. pose proof (by_key_get _ _ _ E) as [Hu Hk].
    rewrite (key_tuple_inj t u (Hl t Ht) (Hl u Hu)) by done. rewrite Hk. by apply map_get_Some_elem.
Qed.

Lemma elem_of_by_key_fst l kt : kt ∈ by_key l → kt.1 = key kt.2.
Proof.
  destruct kt as [k t]. intros Hin. by apply (map_get_elem _ _ _ (by_key_wf l)), by_key_get in Hin as [_ <-].
Qed.

Section diff.
Context (desired current : list Tuple).
Hypothesis Hd : ∀ t, t ∈ desired → tuple_wf t.
Hypothesis Hc : ∀ t, t ∈ current → tuple_wf t.

Lemma elem_of_writes t : t ∈ writes (diffTuples desired current) ↔ t ∈ desired ∧ t ∉ current.
Proof.
  simpl. rewrite list_elem_of_fmap. split.
  - intros ([k u] & -> & [Hin Hno]%elem_of_js_filter). pose proof (elem_of_by_key_fst _ _ Hin) as Hk. simpl in *. subst k.
    apply elem_of_by_key in Hin; [|done]. split; [done|]. intros Hcur. apply by_key_has in Hcur. by rewrite Hcur in Hno.
  - intros [Hin Hno]. exists (key t, t). split; [done|]. apply elem_of_js_filter. split; [by apply elem_of_by_key|]. simpl.
    destruct (map_has (by_key current) (key t)) eqn:E; [|done]. apply by_key_has_wf in E; [done|done|by apply Hd].
Qed.

Lemma elem_of_deletes t :
  t ∈ deletes (diffTuples desired current) ↔ t ∈ current ∧ (t ∉ desired) ∧ isManaged t = true.
Proof.
  simpl. rewrite list_elem_of_fmap. split.
  - intros ([k u] & -> & [Hin Hno]%elem_of_js_filter). pose proof (elem_of_by_key_fst _ _ Hin) as Hk. simpl in *. subst k.
    apply elem_of_by_key in Hin; [|done]. apply andb_prop in Hno as [Hno Hm]. repeat split; [done| |done].
    intros Hdes. apply by_key_has in Hdes. by rewrite Hdes in Hno.
  - intros (Hin & Hno & Hm). exists (key t, t). split; [done|]. apply elem_of_js_filter. split; [by apply elem_of_by_key|]. simpl.
    rewrite Hm. destruct (map_has (by_key desired) (key t)) eqn:E; [|done]. apply by_key_has_wf in E; [done|done|by apply Hc].
Qed.
End diff.

(** What a write leaves: of the chunks that were taken, each tuple. *)
Lemma of_chunks_all ok i l : (∀ n, ok n = true) → of_chunks ok i l = l.
Proof. intros H. revert i. induction l as [|t l IH]; intros i; [done|]. simpl. by rewrite H, IH. Qed.
Lemma of_chunks_subset ok i l t : t ∈ of_chunks ok i l → t ∈ l.
Proof.
  revert i. induction l as [|x l IH]; intros i; [done|]. simpl. destruct (ok _); simpl; [|intros ?%IH; by right].
  intros [->|?%IH]%elem_of_cons; [by left|by right].
Qed.

Lemma elem_of_written (s w : list Tuple) t : t ∈ foldl (λ s t, if includes s t then s else s ++ [t]) s w ↔ t ∈ s ∨ t ∈ w.
Proof.
  revert s. induction w as [|x w IH]; intros s; simpl; [set_solver|]. rewrite IH. destruct (includes s x) eqn:E.
  - apply includes_spec in E. set_solver.
  - set_solver.
Qed.
Lemma elem_of_store_write a store w d t :
  t ∈ (store_write a store w d).1 ↔
    (t ∈ store ∧ t ∉ of_chunks (tk_deletes a) 0 d) ∨ t ∈ of_chunks (tk_writes a) 0 w.
Proof.
  unfold store_write. destruct w as [|x w], d as [|y d]; [simpl; set_solver|..];
    cbn [fst]; by rewrite elem_of_written, elem_of_js_filter, negb_true_iff, includes_false.
Qed.
Lemma store_write_taken a store w d : all_taken a → (store_write a store w d).2 = Ok ().
Proof. intros (_ & _ & Hr & _). unfold store_write. rewrite Hr. by destruct w, d. Qed.

Lemma elem_of_readManaged store t : t ∈ readManaged store ↔ t ∈ store ∧ isManaged t = true.
Proof. apply elem_of_js_filter. Qed.

(** ** Every wanted tuple is the platform's own *)

Lemma groupTuple_managed g r o : isManaged (groupTuple (PREFIX +++ g) r o) = true.
Proof.
  unfold isManaged. apply orb_true_iff; left.
  change (tu_user _) with ("group:" +++ (PREFIX +++ g) +++ "#member").
  rewrite (append_assoc PREFIX g), <-append_assoc. apply starts_with_append.
Qed.

Lemma memberTuple_managed s g : isManaged (memberTuple s (PREFIX +++ g)) = true.
Proof.
  unfold isManaged. apply orb_true_iff; right. change (tu_object _) with ("group:" +++ PREFIX +++ g).
  rewrite <-append_assoc. apply starts_with_append.
Qed.

Lemma groupName_prefix kind a b : ∃ g, groupName kind a b = PREFIX +++ g.
Proof. destruct kind; simpl; eexists; reflexivity. Qed.

Lemma elem_of_aclTuples digest12 defined l t :
  t ∈ aclTuples digest12 defined l →
  ∃ s r o, (s, r, o) ∈ l ∧ (t = groupTuple (aclGroup digest12 r o) r o ∨ t = memberTuple s (aclGroup digest12 r o)).
Proof.
  revert defined. induction l as [|[[s r] o] l IH]; intros defined; [by intros ?%elem_of_nil|]. simpl.
  intros [Ht|[->|Ht]%elem_of_cons]%elem_of_app.
  - destruct (includes _ _); [by apply elem_of_nil in Ht|]. apply list_elem_of_singleton in Ht as ->.
    exists s, r, o. split; [by left|by left].
  - exists s, r, o. split; [by left|by right].
  - destruct (IH _ Ht) as (s' & r' & o' & Hin & Hrest). exists s', r', o'. split; [by right|done].
Qed.

Lemma desired_managed digest12 f t : t ∈ desiredGrants digest12 f → isManaged t = true.
Proof.
  unfold desiredGrants. rewrite !elem_of_app.
  intros [Ht|[Ht|[Ht|[Ht|Ht]]]].
  - apply list_elem_of_bind in Ht as (p & Ht & _). apply list_elem_of_fmap in Ht as (r & -> & _).
    destruct (groupName_prefix ForTenant p.1 r.1) as [g ->]. apply groupTuple_managed.
  - apply list_elem_of_bind in Ht as ([[tn s] r] & Ht & _). unfold memberTuples in Ht.
    destruct (_ && _); [|by apply elem_of_nil in Ht]. apply list_elem_of_singleton in Ht as ->.
    destruct (groupName_prefix ForTenant tn r) as [g ->]. apply memberTuple_managed.
  - apply list_elem_of_fmap in Ht as (r & -> & _). destruct (groupName_prefix ForPlatform r EmptyString) as [g ->].
    apply groupTuple_managed.
  - apply list_elem_of_bind in Ht as (p & Ht & _). unfold platformTuples in Ht.
    destruct (includes _ _); [|by apply elem_of_nil in Ht]. apply list_elem_of_singleton in Ht as ->.
    destruct (groupName_prefix ForPlatform p.2 EmptyString) as [g ->]. apply memberTuple_managed.
  - apply elem_of_aclTuples in Ht as (s & r & o & _ & [->| ->]); [apply groupTuple_managed|apply memberTuple_managed].
Qed.

(** Whatever OpenFGA takes, a pass only adds what is wanted, and takes away only what is the platform's and not wanted. *)
Lemma sync_bounds a desired scan s t :
  let after := syncGrants a desired scan s in
  (t ∈ after.1 → t ∈ desired ∨ t ∈ s.1)
  ∧ (t ∈ s.1 → t ∉ after.1 → isManaged t = true ∧ t ∉ desired).
Proof.
  intros after. unfold after, syncGrants. destruct (current_grants a scan s) as [current|e]; [|simpl; tauto].
  set (d := diffTuples desired current).
  pose proof (elem_of_store_write a s.1 (writes d) (deletes d) t) as Hst.
  destruct (store_write a s.1 (writes d) (deletes d)) as [st r]. cbn [fst] in *. rewrite Hst. split.
  - intros [[? _]|Hw%of_chunks_subset]; [by right|left]. unfold d in Hw. simpl in Hw.
    apply list_elem_of_fmap in Hw as ([k u] & -> & [Hin _]%elem_of_js_filter).
    by apply (map_get_elem _ _ _ (by_key_wf desired)), by_key_get in Hin as [? _].
  - intros Hs Hno. assert (t ∈ of_chunks (tk_deletes a) 0 (deletes d)) as Hd%of_chunks_subset.
    { destruct (decide (t ∈ of_chunks (tk_deletes a) 0 (deletes d))) as [|Hn]; [done|]. destruct Hno. by left. }
    unfold d in Hd. simpl in Hd. apply list_elem_of_fmap in Hd as ([k u] & -> & [Hin Hb]%elem_of_js_filter).
    apply andb_prop in Hb as [Hb ?]. split; [done|]. intros Hdes%by_key_has.
    pose proof (elem_of_by_key_fst _ _ Hin) as Hk. simpl in *. subst k. by rewrite Hdes in Hb.
Qed.

Lemma sync_spec digest12 f a scan store recorded
    (Hwf : ∀ t, t ∈ desiredGrants digest12 f ∨ t ∈ store → tuple_wf t) :
  all_taken a →
  (scan = false → ∀ t, t ∈ recorded ↔ t ∈ store ∧ isManaged t = true) →
  let desired := desiredGrants digest12 f in
  let after := syncGrants a desired scan (store, recorded) in
  (∀ t, t ∈ after.1 ↔ t ∈ desired ∨ (t ∈ store ∧ isManaged t = false))
  ∧ (∃ kept, after.2 = Ok kept ∧ (∀ t, t ∈ kept ↔ t ∈ desired) ∧ (scan = true → kept = set_of desired)).
Proof.
  intros Ha Hrec desired after.
  set (current := if scan then readManaged store else recorded).
  assert (∀ t, t ∈ current ↔ t ∈ store ∧ isManaged t = true) as Hcur.
  { intros t. unfold current. destruct scan; [apply elem_of_readManaged|by apply Hrec]. }
  assert (∀ t, t ∈ desired → tuple_wf t) as Hd by auto.
  assert (∀ t, t ∈ current → tuple_wf t) as Hc by (intros t Ht; apply Hcur in Ht as [? _]; auto).
  assert (∀ t, t ∈ desired → isManaged t = true) as Hm by (intros t; apply desired_managed).
  set (d := diffTuples desired current).
  assert (∀ t, t ∈ (store_write a store (writes d) (deletes d)).1 ↔ t ∈ desired ∨ (t ∈ store ∧ isManaged t = false)) as Hst.
  { intros t. rewrite elem_of_store_write, !of_chunks_all by apply Ha.
    unfold d. rewrite elem_of_writes, elem_of_deletes, Hcur by done.
    destruct (decide (t ∈ desired)), (decide (t ∈ store)), (isManaged t) eqn:E; try (rewrite (Hm t) in E by done); intuition congruence. }
  assert (current_grants a scan (store, recorded) = Ok current) as Hg.
  { unfold current_grants, current. destruct Ha as (_ & _ & _ & ->). by destruct scan. }
  assert (after = ((store_write a store (writes d) (deletes d)).1,
    Ok match writes d, deletes d, scan with [], [], false => recorded | _, _, _ => set_of desired end)) as ->.
  { unfold after, syncGrants. rewrite Hg. fold d. pose proof (store_write_taken a store (writes d) (deletes d) Ha) as Hw.
    cbn [fst snd]. destruct (store_write a store (writes d) (deletes d)) as [st r]. cbn [fst snd] in *. by rewrite Hw. }
  split; [exact Hst|]. eexists. split; [reflexivity|]. split.
  - intros t. destruct (writes d) as [|w ws] eqn:Ew; [destruct (deletes d) as [|x xs] eqn:Ex; [destruct scan eqn:Es|]|]; simpl;
      try apply elem_of_set_of.
    change (t ∈ current ↔ t ∈ desired). split; intros Ht.
    + destruct (decide (t ∈ desired)); [done|]. exfalso. apply (not_elem_of_nil t). rewrite <-Ex. unfold d.
      apply elem_of_deletes; [done..|]. repeat split; [done|done|]. by apply Hcur in Ht as [_ ?].
    + destruct (decide (t ∈ current)); [done|]. exfalso. apply (not_elem_of_nil t). rewrite <-Ew. unfold d.
      by apply elem_of_writes.
  - intros ->. by destruct (writes d), (deletes d).
Qed.

(** Nothing is written when what is there of the platform's is what is wanted. *)
Lemma sync_settled desired a scan store recorded
    (Hwf : ∀ t, t ∈ desired → tuple_wf t) :
  (∀ t, t ∈ readManaged store ↔ t ∈ desired) → (∀ t, t ∈ recorded ↔ t ∈ desired) →
  (syncGrants a desired scan (store, recorded)).1 = store.
Proof.
  intros Hs Hr. unfold syncGrants. destruct (current_grants a scan (store, recorded)) as [current|e] eqn:E; [|done].
  assert (∀ t, t ∈ current ↔ t ∈ desired) as Hc.
  { unfold current_grants in E. destruct scan; [destruct (tk_unread a); [done|]|]; by simplify_eq/=. }
  assert (∀ t, t ∈ current → tuple_wf t) as Hcw by (intros t ?%Hc; auto).
  assert (writes (diffTuples desired current) = []) as ->.
  { apply elem_of_nil_inv. intros t [Hin Hno]%elem_of_writes; [|done..]. by rewrite Hc in Hno. }
  assert (deletes (diffTuples desired current) = []) as ->; [|done].
  apply elem_of_nil_inv. intros t (Hin & Hno & _)%elem_of_deletes; [|done..]. by rewrite Hc in Hin.
Qed.

(** Passes over a store, one after the other: what is wanted by then, whether it is a scan, and what OpenFGA makes of it. *)
Record SyncPass := { sp_facts : GrantFacts; sp_scan : bool; sp_taken : Taken }.
Definition pass_on (digest12 : string → string) (s : list Tuple * list Tuple) (x : SyncPass) : list Tuple * list Tuple :=
  let after := syncGrants (sp_taken x) (desiredGrants digest12 (sp_facts x)) (sp_scan x) s in
  (after.1, match after.2 with Ok kept => kept | Throw _ => s.2 end).

Lemma passes_spare digest12 before s t : isManaged t = false → t ∈ (foldl (pass_on digest12) s before).1 ↔ t ∈ s.1.
Proof.
  intros Hm. revert s. induction before as [|x before IH]; intros s; [done|]. simpl. rewrite IH. unfold pass_on at 1. cbn [fst].
  destruct (sync_bounds (sp_taken x) (desiredGrants digest12 (sp_facts x)) (sp_scan x) s t) as [H1 H2]. split.
  - intros [Hd%desired_managed|]%H1; [congruence|done].
  - intros Ht. destruct (decide (t ∈ (syncGrants (sp_taken x) (desiredGrants digest12 (sp_facts x)) (sp_scan x) s).1)) as [|Hn]; [done|].
    destruct (H2 Ht Hn). congruence.
Qed.

(** ** Properties *)


(** Whatever roles decide, no subject gets more in Incus than its decisions give: not on a project,
    not on an instance, and nobody is made admin of a project. *)
Theorem grants_never_exceed cluster decide projects (Hnames : NoDup (pf_name <$> projects))
    (Hslash : ∀ f, f ∈ projects → has_char "/" (pf_name f) = false) :
  (∀ f, f ∈ projects →
     project_gives (explicitRelations cluster decide projects) (pf_name f)
       ≤ RANK (decided_relation cluster decide (strongest PROJECT (d_roles (decide (clusterPath cluster)))) f)
     ∧ ∀ i, i ∈ pf_instances f →
       instance_gives (explicitRelations cluster decide projects) (pf_name f) i
       ≤ IRANK (instanceRelation (default [] (d_privileges (decide (instancePath cluster (pf_name f) i))))))
  ∧ ∀ t, t ∈ explicitRelations cluster decide projects → relation t = "admin" → object t = SERVER_OBJECT.
Proof.
  split.
  - intros f Hf. split; [by apply (project_gives_bound cluster decide projects)|].
    intros i Hi. by apply (instance_gives_bound cluster decide projects).
  - intros t Ht. by apply (out_admin cluster decide projects).
Qed.

(** C29: a scan brings a store to the wanted grants whatever passes went before and whatever OpenFGA took of them,
    if it takes all of this one: afterwards the store's tuples are the wanted ones and those that are not the platform's,
    which no pass ever touches; the record says so; and another pass, scanning or not, writes nothing. (Tuples whose
    parts have no [|], by which keys tell them apart.) *)
Theorem sync_converges digest12 f a before store recorded :
  let now := foldl (pass_on digest12) (store, recorded) before in
  let desired := desiredGrants digest12 f in
  let after := syncGrants a desired true now in
  (∀ t, isManaged t = false → t ∈ after.1 ↔ t ∈ store)
  ∧ ((∀ t, t ∈ desired ∨ t ∈ now.1 → tuple_wf t) → all_taken a →
     (∀ t, t ∈ after.1 ↔ t ∈ desired ∨ (t ∈ store ∧ isManaged t = false))
     ∧ after.2 = Ok (set_of desired)
     ∧ ∀ a' scan, (syncGrants a' desired scan (after.1, set_of desired)).1 = after.1).
Proof.
  intros now desired after. split.
  - intros t Hm. pose proof (passes_spare digest12 (before ++ [{| sp_facts := f; sp_scan := true; sp_taken := a |}]) (store, recorded) t Hm) as H.
    rewrite foldl_app in H. exact H.
  - intros Hwf Ha.
    pose proof (sync_spec digest12 f a true now.1 now.2 Hwf Ha ltac:(done)) as (Hst & kept & Hk & Hin & Hset).
    rewrite <-surjective_pairing in Hst, Hk.
    assert (∀ t, t ∈ after.1 ↔ t ∈ desired ∨ (t ∈ store ∧ isManaged t = false)) as Hst'.
    { intros t. unfold after, desired. rewrite Hst. pose proof (passes_spare digest12 before (store, recorded) t) as Hp.
      split; (intros [?|[Ht Hm]]; [by left|right; split; [by apply Hp|done]]). }
    split; [done|]. split; [rewrite Hset in Hk by done; exact Hk|].
    intros a' scan. apply sync_settled; [auto| |intros t; apply elem_of_set_of].
    intros t. rewrite elem_of_readManaged, Hst'. split; [intros [[?|[_ ?]] ?]; [done|congruence]|].
    intros Ht. split; [by left|]. by eapply desired_managed.
Qed.

(** ** Roles with and without a server relation *)

(** A subject that is auditor and unrestricted user of a cluster, and nothing below. *)
Definition mixed_decision (cluster : string) : Decision :=
  {| d_roles := [RAuditor; RUnrestrictedUser]; d_at := Some (clusterPath cluster);
     d_privileges := Some ["instance.view"; "instance.console"; "instance.configure"; "instance.create"] |}.

Lemma mixed_decided cluster f : decided_relation cluster (λ _, mixed_decision cluster) "operator" f = "operator".
Proof.
  unfold decided_relation. cbn [d_at mixed_decision].
  by rewrite (bool_decide_eq_true_2 (clusterPath cluster = clusterPath cluster)), andb_false_r.
Qed.

Lemma mixed_instances cluster f i : i ∈ instances_of cluster (λ _, mixed_decision cluster) f → i.2 = "operator".
Proof. by intros (n & -> & _)%list_elem_of_fmap. Qed.

Lemma mixed_per cluster f :
  per_project cluster (λ _, mixed_decision cluster) "operator" f =
    {| x_facts := f; x_relation := "operator"; x_narrowed := false;
       x_instances := instances_of cluster (λ _, mixed_decision cluster) f; x_user := false |}.
Proof.
  unfold per_project. rewrite mixed_decided.
  assert (some (λ i : string * string, IRANK i.2 <? IRANK (asInstance "operator"))
            (instances_of cluster (λ _, mixed_decision cluster) f) = false) as ->; [|reflexivity].
  apply some_false. intros i Hin. by rewrite (mixed_instances cluster f i Hin).
Qed.

Lemma mixed_out cluster f :
  project_out true "operator" (per_project cluster (λ _, mixed_decision cluster) "operator" f) = [].
Proof.
  rewrite mixed_per. unfold project_out. cbn [x_relation x_narrowed x_user x_instances x_facts].
  assert (js_filter (λ i : string * string, IRANK (asInstance "operator") <? IRANK i.2)
            (instances_of cluster (λ _, mixed_decision cluster) f) = []) as Hf.
  { apply js_filter_nil. intros i Hin. by rewrite (mixed_instances cluster f i Hin). }
  change (if truthy_str "operator" then "operator" else _) with "operator". cbv zeta. rewrite Hf. reflexivity.
Qed.

(** Without [uniform] the relations fall short: an auditor of a cluster who is also unrestricted user
    of it gets the server's viewer relation and no other, so Incus lets the subject view instances whose
    decision is to configure them. *)
Theorem mixed_roles_lose cluster projects :
  let decide := λ _ : string, mixed_decision cluster in
  explicitRelations cluster decide projects = [{| relation := "viewer"; object := SERVER_OBJECT |}]
  ∧ ∀ p i, instance_gives (explicitRelations cluster decide projects) p i = 1
           ∧ IRANK (instanceRelation (default [] (d_privileges (decide (instancePath cluster p i))))) = 3.
Proof.
  intros decide.
  assert (explicitRelations cluster decide projects = [{| relation := "viewer"; object := SERVER_OBJECT |}]) as He.
  { unfold explicitRelations.
    change (strongest PROJECT (d_roles (decide (clusterPath cluster)))) with "operator".
    change (strongest SERVER (d_roles (decide (clusterPath cluster)))) with "viewer".
    assert (is_narrowed "operator" (per_project cluster decide "operator" <$> projects) = false) as ->.
    { apply some_false. intros x (f & -> & _)%list_elem_of_fmap. unfold decide. by rewrite mixed_per. }
    simpl. f_equal. unfold decide. clear. induction projects as [|f fs IH]; [done|]. csimpl.
    by rewrite mixed_out, IH. }
  split; [done|]. intros p i. split; [|done]. rewrite He. unfold instance_gives, project_gives, maxof. simpl.
  unfold project_weight, instance_weight. simpl. reflexivity.
Qed.

(** ** Concrete subjects and stores *)

Definition demo_projects : list ProjectFacts :=
  [{| pf_name := "web"; pf_instances := ["app"; "db"]; pf_shared := [] |};
   {| pf_name := "ops"; pf_instances := ["ci"]; pf_shared := [] |}].
(** Operator of the cluster, but only auditor of [web], with rights of its own on [web/app]. *)
Definition demo_decide (path : string) : Decision :=
  if bool_decide (path = "/clusters/c/projects/web") || bool_decide (path = "/clusters/c/projects/web/instances/db")
  then {| d_roles := [RAuditor]; d_at := Some "/clusters/c/projects/web"; d_privileges := Some ["instance.view"] |}
  else {| d_roles := [ROperator]; d_at := Some "/clusters/c"; d_privileges := Some ["instance.view"; "instance.configure"] |}.

Example demo_relations :
  (λ t, (relation t, object t)) <$> explicitRelations "c" demo_decide demo_projects
  = [("viewer", "project:web"); ("operator", "instance:web/app"); ("operator", "project:ops")].
Proof. vm_compute. reflexivity. Qed.

Lemma demo_names : NoDup (pf_name <$> demo_projects).
Proof. apply (bool_decide_unpack _). vm_compute. exact I. Qed.
Lemma demo_slash f : f ∈ demo_projects → has_char "/" (pf_name f) = false.
Proof. intros Hf. repeat (apply elem_of_cons in Hf as [->|Hf]; [done|]). by apply elem_of_nil in Hf. Qed.


Lemma grants_never_exceed_witness :
  instance_gives (explicitRelations "c" demo_decide demo_projects) "web" "db" ≤ 1.
Proof.
  assert (demo_projects !! 0 = Some (Build_ProjectFacts "web" ["app"; "db"] [])) as Hl by reflexivity.
  apply list_elem_of_lookup_2 in Hl.
  apply (proj2 (proj1 (grants_never_exceed "c" demo_decide demo_projects demo_names demo_slash) _ Hl)).
  right; left.
Defined.

Definition demo_digest (s : string) : string := "0123456789ab".
Definition demo_facts : GrantFacts :=
  {| gf_placements := [("t1", "web")]; gf_members := [("t1", "alice", "viewer"); ("t2", "bob", "member")];
     gf_platform := [("carol", "admin")]; gf_acl := Some [("dave", "operator", "instance:web/app")] |}.
Definition demo_foreign : Tuple := {| tu_user := "user:eve"; tu_relation := "admin"; tu_object := "server:incus" |}.
Definition demo_stray : Tuple := memberTuple "mallory" (groupName ForPlatform "admin" EmptyString).
Definition tuple_wfb (t : Tuple) : bool :=
  negb (has_char "|" (tu_user t)) && negb (has_char "|" (tu_relation t)) && negb (has_char "|" (tu_object t)).

Lemma demo_tuples_wf t : t ∈ desiredGrants demo_digest demo_facts ∨ t ∈ [demo_foreign; demo_stray] → tuple_wf t.
Proof.
  rewrite <-elem_of_app. intros Ht.
  assert (every tuple_wfb (desiredGrants demo_digest demo_facts ++ [demo_foreign; demo_stray]) = true) as Hall
    by (vm_compute; reflexivity).
  rewrite every_spec in Hall. specialize (Hall t Ht). unfold tuple_wfb in Hall. bool_prop. by split.
Qed.

(** OpenFGA as it takes all, and as it refuses the first chunk of what is to be written. *)
Definition takes_all : Taken := {| tk_writes := λ _, true; tk_deletes := λ _, true; tk_raised := None; tk_unread := None |}.
Definition refuses_writes : Taken :=
  {| tk_writes := λ n, negb (n =? 0); tk_deletes := λ _, true; tk_raised := None; tk_unread := None |}.

(** A pass whose writes were refused, then a scan. *)
Lemma sync_converges_witness :
  let now := pass_on demo_digest ([demo_foreign; demo_stray], []) {| sp_facts := demo_facts; sp_scan := false; sp_taken := refuses_writes |} in
  let after := syncGrants takes_all (desiredGrants demo_digest demo_facts) true now in
  demo_stray ∈ now.1 ∧ demo_foreign ∈ after.1 ∧ demo_stray ∉ after.1.
Proof.
  intros now after.
  destruct (sync_converges demo_digest demo_facts takes_all [{| sp_facts := demo_facts; sp_scan := false; sp_taken := refuses_writes |}]
              [demo_foreign; demo_stray] []) as [Hf Hall].
  split_and!.
  - apply (bool_decide_unpack _). vm_compute. exact I.
  - apply (Hf demo_foreign); [reflexivity|left].
  - destruct Hall as (Hst & _ & _).
    + intros t [Ht|Ht]; apply demo_tuples_wf; [by left|]. vm_compute in Ht |- *. by right.
    + done.
    + intros Hin. apply Hst in Hin as [Hin|[_ Hm]]; [|vm_compute in Hm; discriminate].
      revert Hin. apply (bool_decide_unpack _). vm_compute. exact I.
Defined.

(** What OpenFGA refused is recorded as written all the same: the store stays without the grants, and passes that do
    not scan have nothing to write. *)
Theorem refused_grants_recorded :
  let desired := desiredGrants demo_digest demo_facts in
  let after := syncGrants refuses_writes desired false ([], []) in
  after.1 = [] ∧ after.2 = Ok desired ∧ desired ≠ []
  ∧ syncGrants takes_all desired false (after.1, desired) = ([], Ok desired).
Proof. split_and!; [vm_compute; reflexivity..|discriminate|vm_compute; reflexivity]. Qed.
