(* ===== verification/OpenFga.v ===== *)
(** * OpenFga: reading a cluster's authorization store

    Models [packages/ui/src/util/openfga.ts] up to the server's configuration:
    which relations of the authorization model can be granted, and how the
    store's tuples sort into grants, memberships and known objects; and the
    model Incus writes, from the fixture the server's tests use
    ([src/incuscloud/server/src/test/fixtures/incus-openfga-model.fga]). *)

From S2P Require Import Prelude JsString AclPaths AclCatalog Grants GrantsTheory.

(** ** The authorization model *)

(** One of a relation's [directly_related_user_types]. *)
Record TypeRef := { ref_type : string; ref_relation : option string; ref_wildcard : bool }.
Global Instance TypeRef_eq_dec : EqDecision TypeRef.
Proof. solve_decision. Defined.

(** A relation without direct types is computed from others. *)
Record TypeDefinition := { td_type : string; td_relations : list (string * list TypeRef) }.

Definition AnyUser : TypeRef := {| ref_type := "user"; ref_relation := None; ref_wildcard := false |}.
Definition Members : TypeRef := {| ref_type := "group"; ref_relation := Some "member"; ref_wildcard := false |}.
Definition Everyone : TypeRef := {| ref_type := "user"; ref_relation := None; ref_wildcard := true |}.
Definition Direct (type : string) : TypeRef := {| ref_type := type; ref_relation := None; ref_wildcard := false |}.

Definition INCUS_MODEL : list TypeDefinition :=
  [
   {| td_type := "user"; td_relations := [] |};
   {| td_type := "group"; td_relations := [("member", [AnyUser])] |};
   {| td_type := "certificate"; td_relations := [("server", [Direct "server"]);
      ("can_edit", [AnyUser; Members]);
      ("can_view", [])] |};
   {| td_type := "image"; td_relations := [("project", [Direct "project"]);
      ("can_edit", [AnyUser; Members]);
      ("can_view", [AnyUser; Members])] |};
   {| td_type := "image_alias"; td_relations := [("project", [Direct "project"]);
      ("can_edit", [AnyUser; Members]);
      ("can_view", [AnyUser; Members])] |};
   {| td_type := "instance"; td_relations := [("project", [Direct "project"]);
      ("tag", [Direct "security_tag"]);
      ("admin", [AnyUser; Members]);
      ("operator", [AnyUser; Members]);
      ("user", [AnyUser; Members]);
      ("viewer", [AnyUser; Members]);
      ("can_access_console", [AnyUser; Members]);
      ("can_access_files", [AnyUser; Members]);
      ("can_connect_nbd", [AnyUser; Members]);
      ("can_connect_sftp", [AnyUser; Members]);
      ("can_connect_tcp", [AnyUser; Members]);
      ("can_edit", []);
      ("can_exec", [AnyUser; Members]);
      ("can_manage_backups", [AnyUser; Members]);
      ("can_manage_snapshots", [AnyUser; Members]);
      ("can_update_state", [AnyUser; Members]);
      ("can_view", [])] |};
   {| td_type := "network"; td_relations := [("project", [Direct "project"]);
      ("shared_with", [Direct "project"]);
      ("can_edit", [AnyUser; Members]);
      ("can_view", [AnyUser; Members])] |};
   {| td_type := "network_acl"; td_relations := [("project", [Direct "project"]);
      ("can_edit", [AnyUser; Members]);
      ("can_view", [AnyUser; Members])] |};
   {| td_type := "network_address_set"; td_relations := [("project", [Direct "project"]);
      ("can_edit", [AnyUser; Members]);
      ("can_view", [AnyUser; Members])] |};
   {| td_type := "network_integration"; td_relations := [("server", [Direct "server"]);
      ("can_edit", [AnyUser; Members]);
      ("can_view", [])] |};
   {| td_type := "network_zone"; td_relations := [("project", [Direct "project"]);
      ("can_edit", [AnyUser; Members]);
      ("can_view", [AnyUser; Members])] |};
   {| td_type := "profile"; td_relations := [("project", [Direct "project"]);
      ("can_edit", [AnyUser; Members]);
      ("can_view", [AnyUser; Members])] |};
   {| td_type := "project"; td_relations := [("server", [Direct "server"]);
      ("admin", [AnyUser; Members]);
      ("operator", [AnyUser; Members]);
      ("user", [AnyUser; Members]);
      ("viewer", [AnyUser; Members]);
      ("can_create_image_aliases", [AnyUser; Members]);
      ("can_create_images", [AnyUser; Members]);
      ("can_create_instances", [AnyUser; Members]);
      ("can_create_network_acls", [AnyUser; Members]);
      ("can_create_network_address_sets", [AnyUser; Members]);
      ("can_create_networks", [AnyUser; Members]);
      ("can_create_network_zones", [AnyUser; Members]);
      ("can_create_profiles", [AnyUser; Members]);
      ("can_create_storage_buckets", [AnyUser; Members]);
      ("can_create_storage_volumes", [AnyUser; Members]);
      ("can_edit", []);
      ("can_view_events", [AnyUser; Members]);
      ("can_view_operations", [AnyUser; Members]);
      ("can_view", [])] |};
   {| td_type := "security_tag"; td_relations := [("server", [Direct "server"])] |};
   {| td_type := "server"; td_relations := [("admin", [AnyUser; Members]);
      ("operator", [AnyUser; Members]);
      ("user", [AnyUser; Members]);
      ("viewer", [AnyUser; Members]);
      ("authenticated", [Everyone]);
      ("can_create_certificates", [AnyUser; Members]);
      ("can_create_network_integrations", [AnyUser; Members]);
      ("can_create_projects", [AnyUser; Members]);
      ("can_create_storage_pools", [AnyUser; Members]);
      ("can_edit", []);
      ("can_override_cluster_target_restriction", [AnyUser; Members]);
      ("can_view_privileged_events", [AnyUser; Members]);
      ("can_view_metrics", []);
      ("can_view_resources", []);
      ("can_view_sensitive", [AnyUser; Members]);
      ("can_view", [])] |};
   {| td_type := "storage_bucket"; td_relations := [("project", [Direct "project"]);
      ("can_edit", [AnyUser; Members]);
      ("can_view", [AnyUser; Members])] |};
   {| td_type := "storage_pool"; td_relations := [("server", [Direct "server"]);
      ("can_edit", [AnyUser; Members]);
      ("can_view", [])] |};
   {| td_type := "storage_volume"; td_relations := [("project", [Direct "project"]);
      ("can_edit", [AnyUser; Members]);
      ("can_manage_backups", [AnyUser; Members]);
      ("can_manage_snapshots", [AnyUser; Members]);
      ("can_view", [AnyUser; Members]);
      ("can_access_files", [AnyUser; Members]);
      ("can_connect_nbd", [AnyUser; Members]);
      ("can_connect_sftp", [AnyUser; Members])] |}].

(** ** Grantable relations *)

Definition ROLE_ORDER : list string := ["admin"; "operator"; "user"; "viewer"; "member"].

(** [xs.indexOf(x)] *)
Fixpoint indexOf (l : list string) (x : string) : option nat :=
  match l with
  | [] => None
  | y :: l => if bool_decide (x = y) then Some 0 else S <$> indexOf l x
  end.

Section openfga.
Context `{Locale}.

Definition role_order (a b : string) : comparison :=
  match indexOf ROLE_ORDER a, indexOf ROLE_ORDER b with
  | None, None => locale_compare a b
  | ra, rb => (default 99 ra ?= default 99 rb)%nat
  end.
Definition sortRelations (relations : list string) : list string := js_sort role_order relations.

Definition assignable (ref : TypeRef) : bool :=
  (str_is (ref_type ref) "user" && negb (truthy_opt_str (ref_relation ref)) && negb (ref_wildcard ref))
  || (str_is (ref_type ref) "group" && bool_decide (ref_relation ref = Some "member")).

Definition grantable_step (result : js_map string (list string)) (d : TypeDefinition) : js_map string (list string) :=
  if str_is (td_type d) "user" then result
  else match (js_filter (λ r, some assignable r.2) (td_relations d)).*1 with
       | [] => result
       | relations => map_set result (td_type d) (sortRelations relations)
       end.
Definition grantableRelations (model : list TypeDefinition) : js_map string (list string) :=
  foldl grantable_step [] model.

Definition all_step (result : js_map string (list string)) (d : TypeDefinition) : js_map string (list string) :=
  match (td_relations d).*1 with
  | [] => result
  | relations => map_set result (td_type d) (sortRelations relations)
  end.
Definition allRelations (model : list TypeDefinition) : js_map string (list string) := foldl all_step [] model.

(** ** Objects and subjects *)

(** [s.replaceAll(pat, rep)] for a pattern that is not empty; [skip] characters
    of a match are left to pass over. *)
Fixpoint replace_from (pat rep : string) (skip : nat) (s : string) : string :=
  match s with
  | EmptyString => EmptyString
  | String c r =>
      match skip with
      | S skip => replace_from pat rep skip r
      | O => if starts_with pat s then rep +++ replace_from pat rep (String.length pat - 1) r
             else String c (replace_from pat rep 0 r)
      end
  end.
Definition replaceAll (pat rep s : string) : string := replace_from pat rep 0 s.

Definition escape (s : string) : string := replaceAll "/" "%2F" s.
Definition unescape (s : string) : string := replaceAll "%2F" "/" s.

Definition objectType (object : string) : string := str_take (default 0 (index_of ":" object)) object.
Definition objectName (object : string) : string :=
  let id := match index_of ":" object with Some n => str_drop (S n) object | None => object end in
  join " / " (unescape <$> split_on "/" id).

Inductive Subject := SubUser (name : string) | SubGroup (name : string).
Global Instance Subject_eq_dec : EqDecision Subject.
Proof. solve_decision. Defined.

(** The group of [/^group:(.+)#member$/], on names without line breaks. *)
Definition group_name (user : string) : option string :=
  if starts_with "group:" user && ends_with "#member" user then
    let rest := str_drop 6 user in
    if (8 <=? String.length rest)%nat then Some (str_take (String.length rest - 7) rest) else None
  else None.
Definition parseSubject (user : string) : option Subject :=
  if starts_with "user:" user && negb (str_is user "user:*") then Some (SubUser (unescape (str_drop 5 user)))
  else SubGroup <$> group_name user.
Definition subjectUser (s : Subject) : string :=
  match s with SubUser n => "user:" +++ escape n | SubGroup n => "group:" +++ n +++ "#member" end.

(** ** Sorting the store's tuples *)

Record FgaState := {
  grants : list Tuple; memberships : list Tuple; objects : js_map string (list string);
  users : list string; groups : list string;
}.

Definition addObject (objects : js_map string (list string)) (object : string) : js_map string (list string) :=
  let type := objectType object in
  if negb (truthy_str type) || str_is type "group" || str_is type "user" then objects
  else map_set objects type (set_add (default [] (map_get objects type)) object).

Definition add_name (st : FgaState) (s : Subject) : list string * list string :=
  match s with
  | SubUser n => (set_add (users st) n, groups st)
  | SubGroup n => (users st, set_add (groups st) n)
  end.

Definition classify_one (grantable : js_map string (list string)) (st : FgaState) (t : Tuple) : FgaState :=
  let type := objectType (tu_object t) in
  let structure :=
    if starts_with "server:" (tu_user t) || starts_with "project:" (tu_user t)
    then {| grants := grants st; memberships := memberships st;
            objects := addObject (addObject (objects st) (tu_object t)) (tu_user t);
            users := users st; groups := groups st |}
    else st in
  match parseSubject (tu_user t) with
  | Some s =>
      if str_is type "group" && str_is (tu_relation t) "member" then
        {| grants := grants st; memberships := memberships st ++ [t]; objects := objects st;
           users := match s with SubUser n => set_add (users st) n | SubGroup _ => users st end;
           groups := set_add (groups st) (objectName (tu_object t)) |}
      else if match map_get grantable type with Some l => includes l (tu_relation t) | None => false end then
        {| grants := grants st ++ [t]; memberships := memberships st;
           objects := addObject (objects st) (tu_object t);
           users := (add_name st s).1; groups := (add_name st s).2 |}
      else structure
  | None => structure
  end.

(** Names sort by code units, objects by their readable names. *)
Definition classifyTuples (tuples : list Tuple) (grantable : js_map string (list string)) : FgaState :=
  let st := foldl (classify_one grantable)
    {| grants := []; memberships := []; objects := [("server", [Grants.SERVER_OBJECT])]; users := []; groups := [] |}
    tuples in
  {| grants := grants st; memberships := memberships st;
     objects := (λ o, (o.1, js_sort (λ a b, locale_compare (objectName a) (objectName b)) o.2)) <$> objects st;
     users := js_sort String.compare (users st); groups := js_sort String.compare (groups st) |}.
End openfga.

(** ** Server configuration *)

Record ClientRoute := { cr_key : string; cr_builtin : string }.
Definition CLIENT_ROUTES : list ClientRoute := [
  {| cr_key := "oidc"; cr_builtin := "allow" |}; {| cr_key := "tls"; cr_builtin := "allow" |};
  {| cr_key := "tls-restricted"; cr_builtin := "tls" |}; {| cr_key := "unix"; cr_builtin := "allow" |};
  {| cr_key := "default"; cr_builtin := "deny" |}].
Definition effectiveRoute (route : ClientRoute) (config : js_map string string) : string :=
  let own := map_get config ("authorization.client." +++ cr_key route) in
  if truthy_opt_str own then default EmptyString own
  else if str_is (cr_key route) "default" then cr_builtin route
  else let d := map_get config "authorization.client.default" in
       if truthy_opt_str d then default EmptyString d else cr_builtin route.

(** ** Theorems: the tuples written are well typed, and shown

    Every tuple the reconciler wants in a cluster's store is one Incus's
    authorization model takes, and the UI sorts it into grants or memberships;
    names of users survive the way into a tuple and back. *)

(** ** Typing of tuples *)

Definition user_fits (ref : TypeRef) (u : string) : Prop :=
  (ref = AnyUser ∧ ∃ n, n ≠ "*" ∧ u = "user:" +++ n)
  ∨ (ref = Members ∧ ∃ g, g ≠ EmptyString ∧ u = "group:" +++ g +++ "#member").

(** The model has the relation on the object's type, directly for such a user. *)
Definition fits (m : list TypeDefinition) (t : Tuple) : Prop :=
  ∃ d refs ref, d ∈ m ∧ td_type d = objectType (tu_object t)
    ∧ (tu_relation t, refs) ∈ td_relations d ∧ ref ∈ refs ∧ user_fits ref (tu_user t).

(** Both checks of the model, computed. *)
Definition takes (m : list TypeDefinition) (type relation : string) (ref : TypeRef) : bool :=
  some (λ d, str_is (td_type d) type
             && some (λ r, str_is r.1 relation && includes r.2 ref) (td_relations d)) m.

Lemma takes_fits m t ref :
  takes m (objectType (tu_object t)) (tu_relation t) ref = true → user_fits ref (tu_user t) → fits m t.
Proof.
  unfold takes. intros (d & Hd & Ht)%some_spec Hu. apply andb_prop in Ht as [Htype Hr].
  apply str_is_true in Htype. apply some_spec in Hr as ([r refs] & Hin & Hr).
  apply andb_prop in Hr as [Hrel Href]. apply str_is_true in Hrel. apply includes_spec in Href.
  simpl in *. subst r. by exists d, refs, ref.
Qed.

Lemma group_fits g : user_fits Members ("group:" +++ (PREFIX +++ g) +++ "#member").
Proof. right. split; [done|]. by exists (PREFIX +++ g). Qed.

Lemma member_fits s g : s ≠ "*" → fits INCUS_MODEL (memberTuple s g).
Proof. intros Hs. apply (takes_fits _ _ AnyUser); [reflexivity|]. left. eauto. Qed.

Lemma groupTuple_fits g r o : takes INCUS_MODEL (objectType o) r Members = true →
  fits INCUS_MODEL (groupTuple (PREFIX +++ g) r o).
Proof. intros Ht. by apply (takes_fits _ _ Members); [|apply group_fits]. Qed.

(** ** The relations of explicit entries *)

(** What [sharedObjects] lists: profiles, networks and images. *)
Definition shared_ok (f : ProjectFacts) : Prop :=
  Forall (λ o, objectType o ∈ ["profile"; "network"; "image"]) (pf_shared f).

Lemma instanceRelation_value p : instanceRelation p ∈ ["operator"; "user"; "viewer"; EmptyString].
Proof. unfold instanceRelation. repeat case_match; apply (bool_decide_unpack _); vm_compute; exact I. Qed.

(** The relations written on each type of object, looked up one by one. *)
Lemma all_taken type l : every (λ r, takes INCUS_MODEL type r Members) l = true →
  ∀ r, r ∈ l → takes INCUS_MODEL type r Members = true.
Proof. by rewrite every_spec. Qed.

Lemma server_taken r : server_value r → truthy_str r = true → takes INCUS_MODEL "server" r Members = true.
Proof.
  intros [-> | Hr]%elem_of_cons; [done|]. intros _. revert r Hr. apply all_taken. vm_compute. reflexivity.
Qed.
Lemma project_taken r : project_value r → truthy_str r = true → takes INCUS_MODEL "project" r Members = true.
Proof.
  intros [-> | Hr]%elem_of_cons; [done|]. intros _. revert r Hr. apply all_taken. vm_compute. reflexivity.
Qed.
Lemma user_project_taken r : r ∈ USER_PROJECT → takes INCUS_MODEL "project" r Members = true.
Proof. apply all_taken. vm_compute. reflexivity. Qed.
Lemma instance_taken r : r ∈ ["operator"; "user"; "viewer"; EmptyString] → 0 < IRANK r →
  takes INCUS_MODEL "instance" r Members = true.
Proof.
  change ["operator"; "user"; "viewer"; EmptyString] with (["operator"; "user"; "viewer"] ++ [EmptyString]).
  intros [Hr|Hr]%elem_of_app Hi.
  - revert r Hr Hi. intros r Hr _. revert r Hr. apply all_taken. vm_compute. reflexivity.
  - apply list_elem_of_singleton in Hr as ->. by vm_compute in Hi; lia.
Qed.
Lemma shared_taken type : type ∈ ["profile"; "network"; "image"] → takes INCUS_MODEL type "can_view" Members = true.
Proof.
  intros Ht. assert (every (λ ty, takes INCUS_MODEL ty "can_view" Members) ["profile"; "network"; "image"] = true) as Hall
    by (vm_compute; reflexivity).
  rewrite every_spec in Hall. by apply Hall.
Qed.

Lemma explicit_taken cluster decide projects t :
  Forall shared_ok projects → t ∈ explicitRelations cluster decide projects →
  takes INCUS_MODEL (objectType (object t)) (relation t) Members = true.
Proof.
  rewrite Forall_forall. intros Hs Ht. apply elem_of_out in Ht as [[Hw ->]|(f & Hf & Ht)].
  - apply andb_prop in Hw as [_ Hw]. apply (server_taken _ (strongest_server _) Hw).
  - unfold project_out in Ht. rewrite !elem_of_app in Ht. destruct Ht as [Ht|[Ht|Ht]].
    + destruct (_ && _) eqn:E in Ht; [|by apply not_elem_of_nil in Ht].
      apply list_elem_of_singleton in Ht as ->. apply andb_prop in E as [E _].
      apply (project_taken _ (per_relation_value _ _ _) E).
    + destruct (x_user _) in Ht; [|by apply not_elem_of_nil in Ht].
      apply elem_of_app in Ht as [(r & -> & Hr)%list_elem_of_fmap|(o & -> & Ho)%list_elem_of_fmap].
      * by apply user_project_taken.
      * apply shared_taken. specialize (Hs f Hf). unfold shared_ok in Hs. rewrite Forall_forall in Hs. by apply Hs.
    + apply list_elem_of_fmap in Ht as (i & -> & [Hi Hr]%elem_of_js_filter).
      apply Nat.ltb_lt in Hr. apply instance_taken; [|change (0 < IRANK i.2); lia].
      simpl in Hi. unfold instances_of in Hi. apply list_elem_of_fmap in Hi as (n & -> & _).
      apply instanceRelation_value.
Qed.

(** ** Facts whose tuples are well typed *)

Record facts_ok (f : GrantFacts) : Prop := {
  ok_members tn s r : (tn, s, r) ∈ gf_members f → s ≠ "*";
  ok_platform s r : (s, r) ∈ gf_platform f → s ≠ "*";
  ok_acl s r o : (s, r, o) ∈ default [] (gf_acl f) → s ≠ "*"
    ∧ ∃ cluster decide projects, Forall shared_ok projects
        ∧ {| relation := r; object := o |} ∈ explicitRelations cluster decide projects;
}.

Lemma desired_fits digest12 f t : facts_ok f → t ∈ desiredGrants digest12 f → fits INCUS_MODEL t.
Proof.
  intros [Hm Hp Ha]. unfold desiredGrants. rewrite !elem_of_app. intros [Ht|[Ht|[Ht|[Ht|Ht]]]].
  - apply list_elem_of_bind in Ht as (p & Ht & _). apply list_elem_of_fmap in Ht as (r & -> & Hr).
    destruct (groupName_prefix ForTenant p.1 r.1) as [g ->]. apply groupTuple_fits.
    assert (every (λ r, takes INCUS_MODEL "project" r.2 Members) PROJECT_RELATION = true) as Hall by (vm_compute; reflexivity).
    rewrite every_spec in Hall. apply (Hall r Hr).
  - apply list_elem_of_bind in Ht as ([[tn s] r] & Ht & Hin). unfold memberTuples in Ht.
    destruct (_ && _) in Ht; [|by apply elem_of_nil in Ht]. apply list_elem_of_singleton in Ht as ->.
    by eapply member_fits, Hm.
  - apply list_elem_of_fmap in Ht as (r & -> & Hr). destruct (groupName_prefix ForPlatform r EmptyString) as [g ->].
    apply groupTuple_fits. revert r Hr. apply (all_taken "server"). vm_compute. reflexivity.
  - apply list_elem_of_bind in Ht as ([s r] & Ht & Hin). unfold platformTuples in Ht.
    destruct (includes _ _) in Ht; [|by apply elem_of_nil in Ht]. apply list_elem_of_singleton in Ht as ->.
    by eapply member_fits, Hp.
  - apply elem_of_aclTuples in Ht as (s & r & o & Hin & Ht).
    destruct (Ha _ _ _ Hin) as (Hs & cluster & decide & projects & Hsh & He).
    destruct Ht as [-> | ->]; [|by apply member_fits].
    unfold aclGroup. apply groupTuple_fits. by apply (explicit_taken _ _ _ _ Hsh) in He.
Qed.

(** ** Subjects *)

Lemma subject_user n : n ≠ "*" → parseSubject ("user:" +++ n) = Some (SubUser (unescape n)).
Proof.
  intros Hn. unfold parseSubject. rewrite starts_with_append.
  assert (str_is ("user:" +++ n) "user:*" = false) as ->; [|done].
  apply str_is_false. intros E. by apply (append_inj_l "user:" n "*") in E.
Qed.

Lemma group_name_spec g : g ≠ EmptyString → group_name ("group:" +++ g +++ "#member") = Some g.
Proof.
  intros Hg. unfold group_name. rewrite starts_with_append, <-append_assoc, ends_with_append.
  rewrite append_assoc. cbv zeta. change (str_drop 6 ("group:" +++ g +++ "#member")) with (g +++ "#member").
  rewrite length_append. change (String.length "#member") with 7.
  destruct g as [|c g]; [done|]. rewrite (proj2 (Nat.leb_le _ _)) by (simpl; lia).
  rewrite Nat.add_sub. simpl andb. cbv iota. by rewrite str_take_append.
Qed.

Lemma subject_group g : g ≠ EmptyString → parseSubject ("group:" +++ g +++ "#member") = Some (SubGroup g).
Proof.
  intros Hg. unfold parseSubject. rewrite group_name_spec by done.
  assert (starts_with "user:" ("group:" +++ g +++ "#member") = false) as -> by done. done.
Qed.

Lemma escape_head r x e : escape r = String x e → x ≠ "%"%char → ∃ r', r = String x r' ∧ e = escape r'.
Proof.
  unfold escape, replaceAll. destruct r as [|c r]; [done|]. cbn [replace_from].
  destruct (starts_with "/" (String c r)); [by intros [= <- _]|]. intros [= -> <-] _. eauto.
Qed.

Lemma unescape_slash e : unescape ("%2F" +++ e) = String "/" (unescape e).
Proof.
  unfold unescape, replaceAll. change ("%2F" +++ e) with (String "%" (String "2" (String "F" e))).
  cbn [replace_from]. change (String "%" (String "2" (String "F" e))) with ("%2F" +++ e).
  rewrite starts_with_append. reflexivity.
Qed.

Lemma unescape_escape s : str_contains "%2F" s = false → unescape (escape s) = s.
Proof.
  induction s as [|c s IH]; [done|]. cbn [str_contains]. intros [Hs Hc]%orb_false_elim.
  specialize (IH Hc). unfold escape at 1, replaceAll. cbn [replace_from].
  destruct (starts_with "/" (String c s)) eqn:E.
  - apply starts_with_inv in E as [r [= -> _]]. change (String.length "/" - 1) with 0.
    change (replace_from "/" "%2F" 0 s) with (escape s). by rewrite unescape_slash, IH.
  - change (replace_from "/" "%2F" 0 s) with (escape s).
    unfold unescape, replaceAll. cbn [replace_from].
    assert (starts_with "%2F" (String c (escape s)) = false) as ->.
    { apply not_true_iff_false. intros [r [= -> H2]]%starts_with_inv. clear E IH Hc.
      apply escape_head in H2 as (s1 & -> & H2); [|done]. symmetry in H2.
      apply escape_head in H2 as (s2 & -> & _); [|done].
      change (starts_with "%2F" ("%2F" +++ s2) = false) in Hs. by rewrite starts_with_append in Hs. }
    f_equal. exact IH.
Qed.

(** ** Grantable relations of the model *)

Section openfga.
Context `{Locale}.

Lemma grantable_other m acc type : type ∉ td_type <$> m →
  map_get (foldl grantable_step acc m) type = map_get acc type.
Proof.
  revert acc. induction m as [|d m IH]; intros acc Hn; [done|]. simpl.
  apply not_elem_of_cons in Hn as [Hd Hn]. rewrite IH by done. unfold grantable_step.
  destruct (str_is _ _); [done|]. destruct (js_filter _ _).*1; [done|].
  rewrite map_get_set. by rewrite bool_decide_false.
Qed.

Lemma grantable_has m acc d rel refs ref :
  NoDup (td_type <$> m) → d ∈ m → td_type d ≠ "user" →
  (rel, refs) ∈ td_relations d → ref ∈ refs → assignable ref = true →
  ∃ l, map_get (foldl grantable_step acc m) (td_type d) = Some l ∧ rel ∈ l.
Proof.
  intros Hnd Hd Hu Hrel Href Ha. revert acc Hnd. induction m as [|x m IH]; intros acc Hnd; [by apply not_elem_of_nil in Hd|].
  apply NoDup_cons in Hnd as [Hx Hnd]. simpl. apply elem_of_cons in Hd as [<-|Hd]; [|by apply IH].
  rewrite grantable_other by done. unfold grantable_step.
  assert (rel ∈ (js_filter (λ r, some assignable r.2) (td_relations d)).*1) as Hin.
  { apply list_elem_of_fmap. exists (rel, refs). split; [done|]. apply elem_of_js_filter. split; [done|].
    apply some_spec. eauto. }
  assert (str_is (td_type d) "user" = false) as -> by by apply str_is_false.
  destruct (js_filter _ _).*1 as [|r rs] eqn:E; [by apply not_elem_of_nil in Hin|].
  rewrite map_get_set, bool_decide_true by done. eexists. split; [done|].
  unfold sortRelations. rewrite elem_of_js_sort. done.
Qed.

Lemma user_fits_assignable ref u : user_fits ref u → assignable ref = true ∧ parseSubject u ≠ None.
Proof.
  intros [[-> (n & Hn & ->)]|[-> (g & Hg & ->)]]; (split; [reflexivity|]);
    [by rewrite subject_user|by rewrite subject_group].
Qed.

Lemma fits_grantable t : fits INCUS_MODEL t →
  parseSubject (tu_user t) ≠ None
  ∧ ∃ l, map_get (grantableRelations INCUS_MODEL) (objectType (tu_object t)) = Some l ∧ tu_relation t ∈ l.
Proof.
  intros (d & refs & ref & Hd & <- & Hrel & Href & Hu). apply user_fits_assignable in Hu as [Ha Hp].
  split; [done|]. apply (grantable_has INCUS_MODEL [] d (tu_relation t) refs ref); try done.
  - apply (bool_decide_eq_true (NoDup _)). vm_compute. reflexivity.
  - intros E. assert (every (λ d, negb (str_is (td_type d) "user") || bool_decide (td_relations d = [])) INCUS_MODEL = true) as Hall
      by (vm_compute; reflexivity).
    rewrite every_spec in Hall. specialize (Hall d Hd). rewrite E in Hall. simpl in Hall. bool_prop.
    rewrite Hall in Hrel. by apply not_elem_of_nil in Hrel.
Qed.

(** ** What is shown *)

Definition is_membership (t : Tuple) : bool :=
  bool_decide (is_Some (parseSubject (tu_user t)))
  && str_is (objectType (tu_object t)) "group" && str_is (tu_relation t) "member".
Definition is_grant (grantable : js_map string (list string)) (t : Tuple) : bool :=
  bool_decide (is_Some (parseSubject (tu_user t))) && negb (is_membership t)
  && match map_get grantable (objectType (tu_object t)) with Some l => includes l (tu_relation t) | None => false end.

Lemma classify_one_lists g st t :
  grants (classify_one g st t) = grants st ++ (if is_grant g t then [t] else [])
  ∧ memberships (classify_one g st t) = memberships st ++ (if is_membership t then [t] else []).
Proof.
  unfold classify_one, is_grant, is_membership.
  destruct (parseSubject (tu_user t)) as [s|]; simpl; [|by case_match; rewrite !app_nil_r].
  destruct (str_is (objectType (tu_object t)) "group" && str_is (tu_relation t) "member"); simpl; [by rewrite app_nil_r|].
  destruct (match map_get g _ with Some _ => _ | None => _ end); simpl; [by rewrite app_nil_r|].
  by case_match; rewrite !app_nil_r.
Qed.

Lemma classify_lists g l st :
  grants (foldl (classify_one g) st l) = grants st ++ js_filter (is_grant g) l
  ∧ memberships (foldl (classify_one g) st l) = memberships st ++ js_filter is_membership l.
Proof.
  revert st. induction l as [|t l IH]; intros st; simpl; [by rewrite !app_nil_r|].
  destruct (IH (classify_one g st t)) as [-> ->]. destruct (classify_one_lists g st t) as [-> ->].
  rewrite <-!app_assoc. by destruct (is_grant g t), (is_membership t).
Qed.

(** ** Properties *)

(** C4: every tuple wanted in a cluster's store is well typed for Incus's
    authorization model: its object is of a type of the model, its relation is
    one of that type's that is given directly to users (memberships) or to the
    members of a group (all else); so Incus takes it, and the UI, which lists
    what the model lets one grant, shows it among the grants or memberships of
    every store that holds it. *)
Theorem desired_well_typed digest12 f t (Hf : facts_ok f) :
  t ∈ desiredGrants digest12 f →
  fits INCUS_MODEL t
  ∧ ∀ tuples, t ∈ tuples →
      let st := classifyTuples tuples (grantableRelations INCUS_MODEL) in t ∈ grants st ∨ t ∈ memberships st.
Proof.
  intros Ht. pose proof (desired_fits _ _ _ Hf Ht) as Hfit. split; [done|]. intros tuples Hin.
  destruct (fits_grantable t Hfit) as (Hp & l & Hl & Hr). unfold classifyTuples. simpl.
  edestruct (classify_lists (grantableRelations INCUS_MODEL) tuples) as [-> ->]. simpl.
  rewrite !elem_of_js_filter. unfold is_grant.
  assert (bool_decide (is_Some (parseSubject (tu_user t))) = true) as Hs.
  { apply bool_decide_eq_true. by destruct (parseSubject (tu_user t)). }
  rewrite Hs, Hl, (proj2 (includes_spec _ _) Hr). destruct (is_membership t); auto.
Qed.

(** The store's tuples are sorted exactly: the memberships are the tuples
    that make a user or group a member of a group, the grants the others of a
    user or group on a relation that can be granted, each as often and in the
    order the store has them. *)
Theorem classify_exact tuples grantable :
  let st := classifyTuples tuples grantable in
  grants st = js_filter (is_grant grantable) tuples ∧ memberships st = js_filter is_membership tuples
  ∧ ∀ t, ¬ (is_grant grantable t = true ∧ is_membership t = true).
Proof.
  unfold classifyTuples. simpl. edestruct (classify_lists grantable tuples) as [-> ->]. simpl.
  split; [done|]. split; [done|]. intros t [Hg Hm]. unfold is_grant in Hg. rewrite Hm in Hg.
  by rewrite andb_false_r in Hg.
Qed.
End openfga.

(** A subject survives the way into a tuple and back: a user whose name is
    not [*] and has no escaped slash of its own, a group with a name; names with
    slashes included. *)
Theorem subject_roundtrip s :
  match s with
  | SubUser n => escape n ≠ "*" ∧ str_contains "%2F" n = false
  | SubGroup g => g ≠ EmptyString
  end → parseSubject (subjectUser s) = Some s.
Proof.
  destruct s as [n|g]; [|apply subject_group].
  intros [Hn Hc]. change (subjectUser (SubUser n)) with ("user:" +++ escape n). by rewrite subject_user, unescape_escape.
Qed.

Lemma subject_roundtrip_witness : parseSubject (subjectUser (SubUser "eng/alice")) = Some (SubUser "eng/alice").
Proof. apply (subject_roundtrip (SubUser "eng/alice")). split; [discriminate|reflexivity]. Defined.

Lemma desired_well_typed_witness :
  fits INCUS_MODEL (groupTuple (aclGroup demo_digest "operator" "instance:web/app") "operator" "instance:web/app").
Proof.
  apply (@desired_well_typed code_unit_locale demo_digest demo_facts).
  - split.
    + intros tn s r. unfold demo_facts. simpl. rewrite !elem_of_cons. intros [[= _ -> _]|[[= _ -> _]|?]]; try done. by apply not_elem_of_nil in H.
    + intros s r [= -> _]%list_elem_of_singleton. done.
    + intros s r o [= -> -> ->]%list_elem_of_singleton. split; [done|].
      exists "c", demo_decide, demo_projects. split; [repeat constructor|].
      apply list_elem_of_lookup. exists 1. vm_compute. reflexivity.
  - apply (bool_decide_unpack _). vm_compute. exact I.
Defined.
