(* ===== verification/Projects.v ===== *)
(** * Projects: a tenant's project on a cluster, and the cluster's own configuration

    Models [reconcile/projects.ts] and [reconcile/incus-config.ts]: what the
    platform wants of a project, its default profile and the server, and the
    requests that bring Incus there. What Incus holds is the state; reads that
    fail are errors of the result. *)

From S2P Require Import Prelude JsString Digits Effects Quota.
Open Scope Z_scope.

Abbreviation config := (gmap string string).

Definition TENANT_KEY : string := "user.incuscloud.tenant".

(** [Object.fromEntries(Object.entries(limits).map(…))]: the limits that are set. *)
Definition limits_config (limits : Limits) : config :=
  list_to_map (KEYS ≫= λ k, match limits k with Some v => [("limits." +++ key_name k, show_Z v)] | None => [] end).

Definition base_config (tenant : string) : config :=
  list_to_map [("restricted", "true"); ("restricted.backups", "allow"); ("restricted.containers.nesting", "allow");
               ("restricted.cluster.target", "allow"); ("features.images", "true"); ("features.profiles", "true");
               ("features.storage.volumes", "true"); ("features.storage.buckets", "true"); ("features.networks", "false");
               (TENANT_KEY, tenant)].

Definition projectConfigFor (tenant : string) (limits : Limits) : config := limits_config limits ∪ base_config tenant.

Definition UPDATABLE (k : string) : bool :=
  starts_with "restricted" k || starts_with "limits." k || bool_decide (k = TENANT_KEY).

Record Project := { pr_config : config; pr_description : string }.

(** The keys a removed quota leaves behind. *)
Definition droppable (k : string) : bool := starts_with "limits." k || bool_decide (k = "restricted.cluster.groups").

Definition wanted (tenant : string) (limits : Limits) (clusterGroups : list string) (snapshotsFull : bool) : config :=
  let want := <["restricted.snapshots" := if snapshotsFull then "block" else "allow"]> (projectConfigFor tenant limits) in
  match clusterGroups with
  | [] => want
  | _ => <["restricted.cluster.groups" := join "," (js_sort String.compare clusterGroups)]> want
  end.

(** The patch: what differs of the updatable keys, and the dropped ones emptied. *)
Definition patch_of (want current : config) : config :=
  filter (λ kv, UPDATABLE kv.1 = true ∧ current !! kv.1 ≠ Some kv.2) want
  ∪ ((λ _, EmptyString) <$> filter (λ kv, droppable kv.1 = true ∧ want !! kv.1 = None) current).

(** [next]: the whole configuration sent; an empty value removes its key. *)
Definition next_config (current patch : config) : config :=
  filter (λ kv, ¬ (patch !! kv.1 = Some EmptyString)) (patch ∪ current).

Inductive Ensured := Created | Updated | Unchanged.

(** [project]: the project of that name on the cluster, as read. *)
Definition ensureProject (project : result (option Project)) (name tenant slug : string) (limits : Limits)
    (clusterGroups : list string) (snapshotsFull : bool) : result (Project * Ensured) :=
  let want := wanted tenant limits clusterGroups snapshotsFull in
  found ← project;
  match found with
  | None => Ok ({| pr_config := want; pr_description := "IncusCloud tenant " +++ slug |}, Created)
  | Some p =>
      if negb (bool_decide (pr_config p !! TENANT_KEY = Some tenant)) then
        throw 409 "project_exists"
          ("Project " +++ quoted name +++ " already exists on the cluster and does not belong to this tenant")
      else
        let patch := patch_of want (pr_config p) in
        if bool_decide (patch = ∅) then Ok (p, Unchanged)
        else Ok ({| pr_config := next_config (pr_config p) patch; pr_description := pr_description p |}, Updated)
  end.

(** What the project uses; [None] when it does not exist yet. The state lists a usage per resource. *)
Definition projectUsage (state : result (option (gmap string Z))) : result (option Usage) :=
  match state with
  | Ok found => Ok ((λ (r : gmap string Z) (k : Key), default 0 (r !! key_name k)) <$> found)
  | Throw e => Throw e
  end.

(** ** The default profile *)

Abbreviation devices := (js_map string config).
Definition rootOf (d : devices) : option (string * config) :=
  js_find (λ kv, bool_decide (kv.2 !! "type" = Some "disk") && bool_decide (kv.2 !! "path" = Some "/")) d.
Definition nicOf (d : devices) : option (string * config) :=
  js_find (λ kv, bool_decide (kv.2 !! "type" = Some "nic")) d.

Definition DEFAULT_CPU : Z := 1.
Definition DEFAULT_MEMORY_GIB : Z := 1.
Definition DEFAULT_DISK_GIB : Z := 10.

Record Profile := { pf_config : config; pf_description : string; pf_devices : devices }.
Record Network := { net_name : string; net_type : string; net_managed : bool }.

(** What is read of the cluster: the default project's default profile, pools and networks. *)
Record Defaults := { df_devices : devices; df_pools : list string; df_networks : list Network }.

Definition with_root (df : Defaults) (d : devices) : devices :=
  match rootOf d with
  | Some _ => d
  | None =>
      match rootOf (df_devices df) with
      | Some root => map_set d root.1 root.2
      | None =>
          match df_pools df with
          | pool :: _ => map_set d "root" (list_to_map [("type", "disk"); ("path", "/"); ("pool", pool)])
          | [] => d
          end
      end
  end.

Definition with_nic (df : Defaults) (d : devices) : devices :=
  match nicOf d with
  | Some _ => d
  | None =>
      match nicOf (df_devices df) with
      | Some nic => map_set d nic.1 nic.2
      | None =>
          match js_find (λ n, net_managed n && bool_decide (net_type n = "bridge")) (df_networks df) with
          | Some bridge => map_set d "eth0" (list_to_map [("type", "nic"); ("name", "eth0"); ("network", net_name bridge)])
          | None => d
          end
      end
  end.

(** A limit the profile lacks, when the quota asks for one. *)
Definition fill (quota : option Z) (k v : string) (c : config) : config * bool :=
  match quota with
  | Some _ => if truthy_opt_str (c !! k) then (c, false) else (<[k := v]> c, true)
  | None => (c, false)
  end.
Definition min_text (d : Z) (quota : option Z) : string := show_Z (Z.min d (default d quota)).

(** The profile sent; [None] when there is nothing to change. *)
Definition ensureDefaultProfile (df : Defaults) (p : Profile) (q : Quotas) : option Profile :=
  let lacks := match rootOf (pf_devices p), nicOf (pf_devices p) with Some _, Some _ => false | _, _ => true end in
  let d := with_nic df (with_root df (pf_devices p)) in
  let '(c1, ch1) := fill (pool q Cpu) "limits.cpu" (min_text DEFAULT_CPU (pool q Cpu)) (pf_config p) in
  let '(c2, ch2) := fill (pool q Memory) "limits.memory" (min_text DEFAULT_MEMORY_GIB (pool q Memory) +++ "GiB") c1 in
  let '(d, ch3) :=
    match pool q Disk, rootOf d with
    | Some _, Some root =>
        if truthy_opt_str (root.2 !! "size") then (d, false)
        else (map_set d root.1 (<["size" := min_text DEFAULT_DISK_GIB (pool q Disk) +++ "GiB"]> root.2), true)
    | _, _ => (d, false)
    end in
  if lacks || ch1 || ch2 || ch3 then Some {| pf_config := c2; pf_description := pf_description p; pf_devices := d |}
  else None.

(** ** The server's configuration *)

Record ServerOptions := {
  o_issuer : string; o_clientId : string; o_audience : string;
  o_openfgaUrl : string; o_openfgaToken : option string; o_storeId : string;
}.

Definition clusterConfigFor (o : ServerOptions) : config :=
  list_to_map ([("oidc.issuer", o_issuer o); ("oidc.client.id", o_clientId o); ("oidc.audience", o_audience o);
    ("oidc.claim", "sub"); ("authorization.openfga.api.url", o_openfgaUrl o)]
    ++ (match o_openfgaToken o with
        | Some t => if truthy_str t then [("authorization.openfga.api.token", t)] else []
        | None => []
        end)
    ++ [("authorization.openfga.store.id", o_storeId o); ("authorization.client.oidc", "openfga");
        ("authorization.client.tls", "allow")]).

Definition MANAGED_KEYS : list string :=
  ["oidc.issuer"; "oidc.client.id"; "oidc.audience"; "oidc.claim"; "authorization.openfga.api.url";
   "authorization.openfga.api.token"; "authorization.openfga.store.id"; "authorization.client.oidc";
   "authorization.client.tls"].

(** The patches sent; empty ones are not. *)
Definition ensureServerConfig (want current : config) : config :=
  filter (λ kv, current !! kv.1 ≠ Some kv.2) want.
Definition releaseServerConfig (current : config) : config :=
  (λ _, EmptyString) <$> filter (λ kv, kv.1 ∈ MANAGED_KEYS) current.

(** ** Lemmas *)

Definition no_empty (c : config) : Prop := ∀ k v, c !! k = Some v → v ≠ EmptyString.

Lemma patch_of_lookup want current k :
  patch_of want current !! k =
    match want !! k with
    | Some v => if UPDATABLE k && negb (bool_decide (current !! k = Some v)) then Some v else None
    | None => match current !! k with Some _ => if droppable k then Some EmptyString else None | None => None end
    end.
Proof.
  unfold patch_of. destruct (want !! k) as [v|] eqn:Ew.
  - destruct (UPDATABLE k && negb (bool_decide (current !! k = Some v))) eqn:E.
    + apply lookup_union_Some_l, map_lookup_filter_Some. simpl. split; [done|]. bool_prop. done.
    + apply lookup_union_None. split.
      * apply map_lookup_filter_None. right. intros v' Hv'. simplify_eq. simpl. intros [Hu Hn].
        rewrite Hu in E. simpl in E. apply negb_false_iff in E. by apply bool_decide_eq_true in E.
      * rewrite lookup_fmap. apply fmap_None, map_lookup_filter_None. right. intros v' _. simpl.
        intros [_ Hn]. congruence.
  - rewrite lookup_union_r by (apply map_lookup_filter_None; left; done).
    rewrite lookup_fmap. destruct (current !! k) as [v|] eqn:Ec.
    + destruct (droppable k) eqn:Ed.
      * rewrite (proj2 (map_lookup_filter_Some _ _ k v)); [done|]. simpl. by rewrite Ed, Ew.
      * apply fmap_None, map_lookup_filter_None. right. intros v' _. simpl. rewrite Ed. by intros [? _].
    + apply fmap_None, map_lookup_filter_None. by left.
Qed.

Lemma next_config_lookup current patch k :
  next_config current patch !! k =
    match patch !! k with
    | Some v => if bool_decide (v = EmptyString) then None else Some v
    | None => current !! k
    end.
Proof.
  unfold next_config. destruct (patch !! k) as [v|] eqn:Ep.
  - case_bool_decide as Hv.
    + apply map_lookup_filter_None. right. intros x _. simpl. rewrite Ep, Hv. by intros [].
    + apply map_lookup_filter_Some. split; [by apply lookup_union_Some_l|]. simpl. rewrite Ep. congruence.
  - destruct (current !! k) as [v|] eqn:Ec.
    + apply map_lookup_filter_Some. split; [by rewrite lookup_union_r|]. simpl. by rewrite Ep.
    + apply map_lookup_filter_None. left. by apply lookup_union_None.
Qed.

(** A project brought in line needs no further change. *)
Lemma patch_next want current :
  no_empty want → patch_of want (next_config current (patch_of want current)) = ∅.
Proof.
  intros Hne. apply map_eq. intros k. rewrite patch_of_lookup, next_config_lookup, patch_of_lookup, lookup_empty.
  destruct (want !! k) as [v|] eqn:Ew.
  - destruct (UPDATABLE k); simpl; [|done]. destruct (decide (current !! k = Some v)) as [He|Hn].
    + rewrite (bool_decide_eq_true_2 (current !! k = Some v)) by done. simpl. by rewrite bool_decide_eq_true_2.
    + rewrite (bool_decide_eq_false_2 (current !! k = Some v)) by done. simpl.
      rewrite (bool_decide_eq_false_2 (v = EmptyString)) by (by eapply Hne). by rewrite bool_decide_eq_true_2.
  - destruct (current !! k) as [x|] eqn:Ec; [|done]. destruct (droppable k) eqn:Ed.
    + by rewrite bool_decide_eq_true_2.
    + done.
Qed.

Lemma patch_self want : patch_of want want = ∅.
Proof.
  apply map_eq. intros k. rewrite patch_of_lookup, lookup_empty. destruct (want !! k); [|done].
  by rewrite bool_decide_eq_true_2, andb_false_r.
Qed.

Lemma show_Z_nonempty z : show_Z z ≠ EmptyString.
Proof.
  destruct (decide (0 ≤ z)) as [Hz|Hz]; [by destruct (show_Z_spec z Hz) as (_ & ? & _)|].
  destruct z; [lia|lia|]. done.
Qed.

Lemma limits_config_some limits k v : limits_config limits !! k = Some v → v ≠ EmptyString ∧ starts_with "limits." k = true.
Proof.
  unfold limits_config. intros Hl%elem_of_list_to_map_2. apply list_elem_of_bind in Hl as (x & Hin & _).
  destruct (limits x) as [z|]; [|by apply elem_of_nil in Hin].
  apply list_elem_of_singleton in Hin. injection Hin as -> ->. split; [apply show_Z_nonempty|apply (starts_with_append "limits.")].
Qed.

Lemma base_config_some tenant k v :
  base_config tenant !! k = Some v →
  (k = TENANT_KEY ∧ v = tenant) ∨ (k ≠ TENANT_KEY ∧ v ≠ EmptyString ∧ starts_with "limits." k = false).
Proof.
  unfold base_config. intros Hl%elem_of_list_to_map_2.
  repeat (apply elem_of_cons in Hl as [[= -> ->]|Hl]; [by (left + right)|]). by apply elem_of_nil in Hl.
Qed.

Lemma projectConfigFor_tenant tenant limits : projectConfigFor tenant limits !! TENANT_KEY = Some tenant.
Proof.
  unfold projectConfigFor. rewrite lookup_union_r; [reflexivity|].
  destruct (limits_config limits !! TENANT_KEY) as [v|] eqn:E; [|done].
  by apply limits_config_some in E as [_ ?].
Qed.

Lemma wanted_tenant tenant limits groups full : wanted tenant limits groups full !! TENANT_KEY = Some tenant.
Proof.
  unfold wanted. destruct groups; rewrite ?(lookup_insert_ne _ "restricted.cluster.groups"), lookup_insert_ne by done;
    apply projectConfigFor_tenant.
Qed.

Lemma join_nonempty sep x l : x ≠ EmptyString → join sep (x :: l) ≠ EmptyString.
Proof. destruct x, l; done. Qed.

Lemma wanted_no_empty tenant limits groups full :
  tenant ≠ EmptyString → Forall (λ g, g ≠ EmptyString) groups → no_empty (wanted tenant limits groups full).
Proof.
  intros Ht Hg k v. unfold wanted.
  assert (no_empty (<["restricted.snapshots" := if full then "block" else "allow"]> (projectConfigFor tenant limits))) as Hw.
  { intros k' v'. destruct (decide (k' = "restricted.snapshots")) as [->|Hne].
    - rewrite lookup_insert_eq. intros [= <-]. by destruct full.
    - rewrite lookup_insert_ne by done. unfold projectConfigFor.
      intros [Hl|[_ Hb]]%lookup_union_Some_raw; [by apply limits_config_some in Hl as [? _]|].
      by apply base_config_some in Hb as [[_ ->]|(_ & ? & _)]. }
  destruct groups as [|g gs]; [apply Hw|].
  destruct (decide (k = "restricted.cluster.groups")) as [->|Hne].
  - rewrite lookup_insert_eq. intros Heq%(inj Some). subst v.
    destruct (js_sort String.compare (g :: gs)) as [|x l] eqn:E; [by apply js_sort_nil in E|].
    apply join_nonempty. rewrite Forall_forall in Hg. apply Hg. apply (elem_of_js_sort String.compare). rewrite E. by left.
  - rewrite lookup_insert_ne by done. apply Hw.
Qed.

(** ** Properties *)

(** The tenant's project is created as wanted when there is none, refused when it is another's, and
    otherwise brought in line: every restriction and limit wanted is set, limits and groups no longer
    wanted are gone, and whatever else the project holds stays. A second pass finds nothing to do. *)
Theorem ensureProject_converges name tenant slug limits groups full
    (Htenant : tenant ≠ EmptyString) (Hgroups : Forall (λ g, g ≠ EmptyString) groups) current :
  let want := wanted tenant limits groups full in
  let again p := ensureProject (Ok (Some p)) name tenant slug limits groups full in
  match current with
  | None => ∃ p, ensureProject (Ok None) name tenant slug limits groups full = Ok (p, Created)
                 ∧ pr_config p = want ∧ again p = Ok (p, Unchanged)
  | Some c =>
      if bool_decide (pr_config c !! TENANT_KEY = Some tenant) then
        ∃ p how, ensureProject (Ok (Some c)) name tenant slug limits groups full = Ok (p, how)
          ∧ pr_description p = pr_description c
          ∧ (∀ k v, want !! k = Some v → UPDATABLE k = true → pr_config p !! k = Some v)
          ∧ (∀ k, want !! k = None → droppable k = true → pr_config p !! k = None)
          ∧ (∀ k, UPDATABLE k = false → pr_config p !! k = pr_config c !! k)
          ∧ again p = Ok (p, Unchanged)
      else is_ok (ensureProject (Ok (Some c)) name tenant slug limits groups full) = false
  end.
Proof.
  intros want again.
  assert (no_empty want) as Hne by (by apply wanted_no_empty).
  assert (want !! TENANT_KEY = Some tenant) as Ht by apply wanted_tenant.
  assert (∀ p, pr_config p !! TENANT_KEY = Some tenant → patch_of want (pr_config p) = ∅ → again p = Ok (p, Unchanged)) as Hagain.
  { intros p Hp Hpatch. unfold again, ensureProject. simpl. fold want.
    rewrite (bool_decide_eq_true_2 (pr_config p !! TENANT_KEY = Some tenant)) by done. simpl.
    by rewrite Hpatch, bool_decide_eq_true_2. }
  destruct current as [c|].
  2: { eexists. split; [reflexivity|]. split; [done|]. apply Hagain; [done|apply patch_self]. }
  case_bool_decide as Hc.
  2: { unfold ensureProject. simpl. by rewrite bool_decide_eq_false_2. }
  assert (∀ k, UPDATABLE k = false → droppable k = false) as Hdrop.
  { unfold UPDATABLE, droppable. intros k Hu. apply orb_false_elim in Hu as [[Hr ->]%orb_false_elim _].
    simpl. apply bool_decide_eq_false. intros ->. done. }
  assert (∀ k, next_config (pr_config c) (patch_of want (pr_config c)) !! k =
    match want !! k with
    | Some v => if UPDATABLE k then Some v else pr_config c !! k
    | None => if droppable k then None else pr_config c !! k
    end) as Hnext.
  { intros k. rewrite next_config_lookup, patch_of_lookup. destruct (want !! k) as [v|] eqn:Ew.
    - destruct (UPDATABLE k); simpl; [|done]. case_bool_decide as He; simpl; [done|].
      by rewrite bool_decide_eq_false_2 by (by eapply Hne).
    - destruct (pr_config c !! k) eqn:Ec; [|by destruct (droppable k)].
      destruct (droppable k); [by rewrite bool_decide_eq_true_2|done]. }
  set (p := {| pr_config := next_config (pr_config c) (patch_of want (pr_config c)); pr_description := pr_description c |}).
  assert (∃ how, ensureProject (Ok (Some c)) name tenant slug limits groups full = Ok (p, how)) as (how & He).
  { unfold ensureProject. simpl. fold want. rewrite (bool_decide_eq_true_2 (pr_config c !! TENANT_KEY = Some tenant)) by done.
    simpl. case_bool_decide as Hp; [|eauto]. exists Unchanged. f_equal. f_equal. unfold p. destruct c as [cc cd]. simpl in *. f_equal.
    apply map_eq. intros k. by rewrite next_config_lookup, Hp, lookup_empty. }
  exists p, how. split; [done|]. split; [done|]. split; [|split; [|split]].
  - intros k v Hk Hu. unfold p. simpl. by rewrite Hnext, Hk, Hu.
  - intros k Hk Hd. unfold p. simpl. by rewrite Hnext, Hk, Hd.
  - intros k Hu. unfold p. simpl. rewrite Hnext, Hu, (Hdrop k Hu). by destruct (want !! k).
  - apply Hagain; [|by apply patch_next]. unfold p. simpl. rewrite Hnext, Ht. done.
Qed.

(** Configuring the server is idempotent and releasing undoes it: after the patch every wanted key has
    its value and no other key changed, a second pass patches nothing, and a release leaves none of the
    platform's keys. [apply] is what Incus makes of a patch: keys are set, and unset by an empty value. *)
Theorem server_config_converges (apply_ : config → config → config)
    (Happly : ∀ c p k, apply_ c p !! k =
       match p !! k with Some v => if bool_decide (v = EmptyString) then None else Some v | None => c !! k end) o current :
  no_empty (clusterConfigFor o) →
  let want := clusterConfigFor o in
  let after := apply_ current (ensureServerConfig want current) in
  (∀ k, after !! k = match want !! k with Some v => Some v | None => current !! k end)
  ∧ ensureServerConfig want after = ∅
  ∧ (∀ k, apply_ after (releaseServerConfig after) !! k = if bool_decide (k ∈ MANAGED_KEYS) then None else current !! k).
Proof.
  intros Hne want after.
  assert (∀ k, ensureServerConfig want current !! k
               = match want !! k with Some v => if bool_decide (current !! k = Some v) then None else Some v | None => None end) as He.
  { intros k. unfold ensureServerConfig. destruct (want !! k) as [v|] eqn:Ew.
    - case_bool_decide as Hc.
      + apply map_lookup_filter_None. right. intros x Hx. simpl. congruence.
      + by apply map_lookup_filter_Some.
    - apply map_lookup_filter_None. by left. }
  assert (∀ k, after !! k = match want !! k with Some v => Some v | None => current !! k end) as Ha.
  { intros k. unfold after. rewrite Happly, He. destruct (want !! k) as [v|] eqn:Ew; [|done].
    case_bool_decide as Hc; [done|]. by rewrite bool_decide_eq_false_2 by (by eapply Hne). }
  split; [done|]. split.
  - apply map_eq. intros k. rewrite lookup_empty. unfold ensureServerConfig.
    apply map_lookup_filter_None. destruct (want !! k) as [v|] eqn:Ew; [right|by left].
    intros x Hx. simpl. rewrite Ha, Ew. congruence.
  - intros k. rewrite Happly. unfold releaseServerConfig. rewrite lookup_fmap.
    assert (∀ v, want !! k = Some v → k ∈ MANAGED_KEYS) as Hman.
    { intros v Hv. unfold want, clusterConfigFor in Hv. apply elem_of_list_to_map_2 in Hv.
      apply (bool_decide_unpack _).
      rewrite !elem_of_app in Hv. destruct Hv as [Hv|[Hv|Hv]].
      - repeat (apply elem_of_cons in Hv as [[= -> ->]|Hv]; [exact I|]). by apply elem_of_nil in Hv.
      - destruct (o_openfgaToken o) as [t|]; [destruct (truthy_str t)|]; [|by apply elem_of_nil in Hv..].
        apply list_elem_of_singleton in Hv as [= -> ->]. exact I.
      - repeat (apply elem_of_cons in Hv as [[= -> ->]|Hv]; [exact I|]). by apply elem_of_nil in Hv. }
    case_bool_decide as Hk.
    + destruct (after !! k) as [v|] eqn:Ea.
      * rewrite (proj2 (map_lookup_filter_Some _ _ k v)) by done. simpl. done.
      * rewrite (proj2 (map_lookup_filter_None _ _ k)) by (by left). done.
    + rewrite (proj2 (map_lookup_filter_None _ _ k)) by (right; intros x _; simpl; done). simpl.
      rewrite Ha. destruct (want !! k) eqn:Ew; [|done]. exfalso. apply Hk. by eapply Hman.
Qed.

Lemma fill_lookup quota k v c :
  v ≠ EmptyString →
  (∀ k', k' ≠ k → (fill quota k v c).1 !! k' = c !! k')
  ∧ (truthy_opt_str (c !! k) = true → (fill quota k v c).1 !! k = c !! k)
  ∧ (quota ≠ None → truthy_opt_str ((fill quota k v c).1 !! k) = true).
Proof.
  intros Hv. unfold fill. destruct quota; [|by repeat split; intros ?]. destruct (truthy_opt_str (c !! k)) eqn:E; [by repeat split|].
  repeat split; try done.
  - intros k' Hk. simpl. by rewrite lookup_insert_ne.
  - intros _. simpl. rewrite lookup_insert_eq. simpl. unfold truthy_str. by rewrite bool_decide_eq_false_2.
Qed.

(** The default profile is only filled in: a value the tenant set stays, no other key changes, and
    where a quota asks instances for CPU or memory limits the profile has one afterwards. *)
Theorem profile_filled df p q :
  let p' := default p (ensureDefaultProfile df p q) in
  (∀ k, truthy_opt_str (pf_config p !! k) = true ∨ (k ≠ "limits.cpu" ∧ k ≠ "limits.memory") →
     pf_config p' !! k = pf_config p !! k)
  ∧ (pool q Cpu ≠ None → truthy_opt_str (pf_config p' !! "limits.cpu") = true)
  ∧ (pool q Memory ≠ None → truthy_opt_str (pf_config p' !! "limits.memory") = true)
  ∧ pf_description p' = pf_description p.
Proof.
  intros p'.
  set (f1 := fill (pool q Cpu) "limits.cpu" (min_text DEFAULT_CPU (pool q Cpu)) (pf_config p)).
  set (f2 := fill (pool q Memory) "limits.memory" (min_text DEFAULT_MEMORY_GIB (pool q Memory) +++ "GiB") f1.1).
  destruct (fill_lookup (pool q Cpu) "limits.cpu" (min_text DEFAULT_CPU (pool q Cpu)) (pf_config p)) as (Ha & Hb & Hc);
    [apply show_Z_nonempty|]. fold f1 in Ha, Hb, Hc.
  destruct (fill_lookup (pool q Memory) "limits.memory" (min_text DEFAULT_MEMORY_GIB (pool q Memory) +++ "GiB") f1.1)
    as (Hd & He & Hf); [intros Hx; apply (f_equal String.length) in Hx; rewrite length_append in Hx; simpl in Hx; lia|]. fold f2 in Hd, He, Hf.
  assert (pf_config p' = f2.1 ∧ pf_description p' = pf_description p) as [-> ->].
  { unfold p', ensureDefaultProfile. fold f1.
    assert (f1.2 = false → f1.1 = pf_config p) as H1 by (unfold f1, fill; by repeat case_match).
    assert (f2.2 = false → f2.1 = f1.1) as H2 by (unfold f2, fill; by repeat case_match).
    unfold f2 in *. destruct f1 as [c1 ch1]. simpl in *.
    destruct (fill (pool q Memory) "limits.memory" _ c1) as [c2 ch2]. simpl in *.
    match goal with |- context [let '(_, _) := ?e in _] => destruct e as [d ch3] end.
    destruct (match rootOf (pf_devices p) with Some _ => _ | None => _ end), ch1, ch2, ch3; simpl; try done.
    split; [|done]. by rewrite H2, H1. }
  repeat split; [|..|done].
  - intros k [Ht|[H1 H2]]; [|by rewrite Hd, Ha].
    destruct (decide (k = "limits.memory")) as [->|Hm].
    + rewrite He; by rewrite Ha.
    + rewrite Hd by done. destruct (decide (k = "limits.cpu")) as [->|Hcpu]; [by apply Hb|by apply Ha].
  - intros Hq. rewrite Hd by done. by apply Hc.
Qed.

(** ** Concrete configurations *)

Lemma ensureProject_converges_witness :
  let c := {| pr_config := {[TENANT_KEY := "other"]}; pr_description := EmptyString |} in
  is_ok (ensureProject (Ok (Some c)) "web" "t1" "acme" (λ _, Some 4) ["gpu"] false) = false.
Proof.
  intros c.
  assert (pr_config c !! TENANT_KEY ≠ Some "t1") as Hne.
  { unfold c. simpl. rewrite (lookup_singleton_eq TENANT_KEY "other"). discriminate. }
  pose proof (ensureProject_converges "web" "t1" "acme" (λ _, Some 4) ["gpu"] false
           ltac:(discriminate) ltac:(repeat constructor; discriminate) (Some c)) as Hx.
  simpl in Hx. rewrite bool_decide_eq_false_2 in Hx by exact Hne. exact Hx.
Defined.

Definition demo_server : ServerOptions :=
  {| o_issuer := "https://id"; o_clientId := "incus"; o_audience := "incus"; o_openfgaUrl := "https://fga";
     o_openfgaToken := Some "secret"; o_storeId := "s1" |}.
(** A patch as Incus applies it. *)
Definition demo_apply (c p : config) : config := filter (λ kv, kv.2 ≠ EmptyString) p ∪ filter (λ kv, p !! kv.1 = None) c.

Lemma demo_apply_spec c p k : demo_apply c p !! k =
  match p !! k with Some v => if bool_decide (v = EmptyString) then None else Some v | None => c !! k end.
Proof.
  unfold demo_apply. destruct (p !! k) as [v|] eqn:Ep.
  - case_bool_decide as Hv.
    + apply lookup_union_None. split; apply map_lookup_filter_None; right; intros x Hx; simpl; congruence.
    + apply lookup_union_Some_l, map_lookup_filter_Some. done.
  - destruct (c !! k) as [v|] eqn:Ec.
    + rewrite lookup_union_r; [by apply map_lookup_filter_Some|]. apply map_lookup_filter_None. by left.
    + apply lookup_union_None. split; apply map_lookup_filter_None; left; done.
Qed.

Lemma server_config_converges_witness :
  ensureServerConfig (clusterConfigFor demo_server) (demo_apply ∅ (ensureServerConfig (clusterConfigFor demo_server) ∅)) = ∅.
Proof.
  apply (server_config_converges demo_apply demo_apply_spec demo_server ∅).
  intros k v Hv. unfold clusterConfigFor in Hv. apply elem_of_list_to_map_2 in Hv. simpl in Hv.
  repeat (apply elem_of_cons in Hv as [[= -> ->]|Hv]; [discriminate|]). by apply elem_of_nil in Hv.
Defined.
