(* ===== verification/Reconcile.v ===== *)
(** * Reconcile: bringing a cluster in line with the database

    Models [reconcile/cluster.ts]: who should hold what on a cluster, the
    placements' projects and the pass over one cluster. Incus and OpenFGA are
    behind an interface. *)

From S2P Require Import Prelude JsString Effects AclCatalog Quota Grants Projects.
Open Scope Z_scope.

(** ** Who should hold which role *)

Record UserRow := { u_id : string; u_disabled : bool }.
Record AccountRow := {
  sa_id : string; sa_clientId : string; sa_tenantId : option string; sa_platformRole : option string; sa_disabled : bool;
}.
Record Db := {
  db_users : list UserRow;
  db_accounts : list AccountRow;
  db_tenantMembers : list (string * string * string);  (** tenant id, user id, role *)
  db_platformRoles : list (string * string);  (** user id, role *)
  db_groupMembers : list (string * option string * option string);  (** group id, user id, service account id *)
}.

(** The inner join with [users] on users that are not disabled. *)
Definition enabled_user (db : Db) (id : string) : bool :=
  some (λ u, bool_decide (u_id u = id) && negb (u_disabled u)) (db_users db).

Definition grantFacts (db : Db) (placed : list (string * string)) : GrantFacts :=
  let tenantIds := placed.*1 in
  let ms := js_filter (λ m : string * string * string, includes tenantIds m.1.1 && enabled_user db m.1.2) (db_tenantMembers db) in
  let sas := js_filter (λ a, negb (sa_disabled a)
                             && match sa_tenantId a with Some t => includes tenantIds t | None => false end) (db_accounts db) in
  let members := match tenantIds with
                 | [] => []
                 | _ => ms ++ ((λ a, (default EmptyString (sa_tenantId a), sa_clientId a, "member")) <$> sas)
                 end in
  let userRoles := js_filter (λ p : string * string, enabled_user db p.1) (db_platformRoles db) in
  let saRoles := js_filter (λ a, negb (sa_disabled a) && match sa_platformRole a with Some _ => true | None => false end) (db_accounts db) in
  {| gf_placements := placed; gf_members := members;
     gf_platform := userRoles ++ ((λ a, (sa_clientId a, default EmptyString (sa_platformRole a))) <$> saRoles);
     gf_acl := None |}.

(** *** Subjects with explicit entries *)

(** [const [kind, id] = k.split(":")] *)
Definition kind_of (k : string) : string := default EmptyString (split_on ":" k !! 0%nat).
Definition id_of (k : string) : string := default EmptyString (split_on ":" k !! 1%nat).

Definition expand_key (db : Db) (k : string) : list string :=
  if bool_decide (kind_of k = "group") then
    (λ m : string * option string * option string,
       match m.1.2 with
       | Some u => "user:" +++ u
       | None => "service:" +++ default "null" m.2
       end)
    <$> js_filter (λ m, bool_decide (m.1.1 = id_of k)) (db_groupMembers db)
  else if bool_decide (kind_of k = "tenant") then
    ((λ m : string * string * string, "user:" +++ m.1.2) <$> js_filter (λ m, bool_decide (m.1.1 = id_of k)) (db_tenantMembers db))
    ++ ((λ a, "service:" +++ sa_id a) <$> js_filter (λ a, bool_decide (sa_tenantId a = Some (id_of k))) (db_accounts db))
  else [k].

(** What is known of the cluster: its projects, the inventory and the ACL. *)
Record Explicit := {
  e_named : list string;  (** the subjects of explicit entries *)
  e_disabled : list string;  (** keys of disabled subjects *)
  e_taken : list string;  (** the projects of all placements here *)
  e_listed : list string;  (** the projects Incus lists *)
  e_inventory : list (string * string);  (** project, instance *)
  e_explain : string → string → Decision;  (** a subject key and a path *)
  e_shared : string → list string;  (** the objects a User may need in a project *)
}.

Definition subject_of (db : Db) (k : string) : option string :=
  if bool_decide (kind_of k = "service")
  then sa_clientId <$> js_find (λ a, bool_decide (sa_id a = id_of k)) (db_accounts db)
  else Some (id_of k).

Definition explicit_keys (db : Db) (e : Explicit) : list string := set_of (set_of (e_named e) ≫= expand_key db).

(** The subject's Incus name with each key that has one; an empty name has no relations. *)
Definition named_subjects (db : Db) (keys : list string) : list (string * string) :=
  keys ≫= λ k, match subject_of db k with
               | Some s => if truthy_str s then [(k, s)] else []
               | None => []
               end.

Definition project_facts (cluster : string) (e : Explicit) (facts : GrantFacts) (deciding : list string) : list ProjectFacts :=
  let grantable := (gf_placements facts).*2 in
  let taken := js_filter (λ p, negb (includes grantable p)) (e_taken e) in
  (λ p, {| pf_name := p;
           pf_instances := snd <$> js_filter (λ i : string * string, bool_decide (i.1 = p)) (e_inventory e);
           pf_shared := if some (λ k, includes (d_roles (e_explain e k (projectPath cluster p))) RUser) deciding
                        then e_shared e p else [] |})
  <$> js_filter (λ p, negb (includes taken p)) (e_listed e).

Definition addExplicit (db : Db) (cluster : string) (e : Explicit) (facts : GrantFacts) : GrantFacts :=
  match e_named e with
  | [] => facts
  | _ =>
      let keys := named_subjects db (explicit_keys db e) in
      let names := set_of keys.*2 in
      let subjects := js_filter (λ ks : string * string, negb (includes (e_disabled e) ks.1)) keys in
      let projects := project_facts cluster e facts subjects.*1 in
      let acl := subjects ≫= λ ks,
        (λ r, (ks.2, relation r, object r)) <$> explicitRelations cluster (e_explain e ks.1) projects in
      {| gf_placements := gf_placements facts;
         gf_members := js_filter (λ m : string * string * string, negb (includes names m.1.2)) (gf_members facts);
         gf_platform := js_filter (λ m : string * string, negb (includes names m.1)) (gf_platform facts);
         gf_acl := Some acl |}
  end.

(** ** Cluster groups and snapshots *)

Record AclEntryRow := { ae_tenantGroupId : option string; ae_path : string; ae_role : string }.

Definition tenantGroupsOn (rows : list AclEntryRow) (tenant cluster : string) : list string :=
  let here := js_filter (λ r, bool_decide (ae_tenantGroupId r = Some tenant) && negb (bool_decide (ae_role r = "no-access"))) rows in
  if some (λ r, bool_decide (ae_path r = clusterPath cluster) || bool_decide (ae_path r = "/")) here then []
  else
    let prefix := "/clusters/" +++ cluster +++ "/groups/" in
    set_of ((λ r, str_drop (String.length prefix) (ae_path r)) <$> js_filter (λ r, starts_with prefix (ae_path r)) here).

(** [counts]: the snapshots of each instance in the tenant's placements. *)
Definition snapshotsFull (counts : list Z) (q : Quotas) : bool :=
  match q_snapshots q with
  | None => false
  | Some n => n <=? foldl Z.add 0 counts
  end.

(** ** Placements *)

Record PlacementRow := {
  pl_tenantId : string; pl_clusterId : string; pl_project : string;
  pl_slug : string; pl_quotas : Quotas;
  pl_usage : option Usage; pl_limits : option Limits; pl_status : string; pl_message : string;
}.

(** The cluster as the reconciler uses it. *)
Record Incus (W : Type) := {
  io_usage : W → string → result (option Usage);
  io_project : W → string → result (option Project);
  io_putProject : W → string → Project → Ensured → result W;
  io_defaultProfile : W → string → Quotas → result W;
}.
Arguments io_usage {W}. Arguments io_project {W}. Arguments io_putProject {W}. Arguments io_defaultProfile {W}.

Section placements.
Context {W : Type} (io : Incus W).
Context (groupsOn : string → list string) (full : string → Quotas → bool).

(** The rows of one placement, by its tenant and cluster. *)
Definition is_row (tenant cluster : string) (r : PlacementRow) : bool :=
  bool_decide (pl_tenantId r = tenant) && bool_decide (pl_clusterId r = cluster).
Definition set_usage (u : option Usage) (r : PlacementRow) : PlacementRow :=
  {| pl_tenantId := pl_tenantId r; pl_clusterId := pl_clusterId r; pl_project := pl_project r; pl_slug := pl_slug r;
     pl_quotas := pl_quotas r; pl_usage := u; pl_limits := pl_limits r; pl_status := pl_status r; pl_message := pl_message r |}.
Definition set_limits (l : Limits) (r : PlacementRow) : PlacementRow :=
  {| pl_tenantId := pl_tenantId r; pl_clusterId := pl_clusterId r; pl_project := pl_project r; pl_slug := pl_slug r;
     pl_quotas := pl_quotas r; pl_usage := pl_usage r; pl_limits := Some l; pl_status := pl_status r; pl_message := pl_message r |}.
Definition set_status (st msg : string) (r : PlacementRow) : PlacementRow :=
  {| pl_tenantId := pl_tenantId r; pl_clusterId := pl_clusterId r; pl_project := pl_project r; pl_slug := pl_slug r;
     pl_quotas := pl_quotas r; pl_usage := pl_usage r; pl_limits := pl_limits r; pl_status := st; pl_message := msg |}.
Definition update_row (tenant cluster : string) (f : PlacementRow → PlacementRow) (rows : list PlacementRow) : list PlacementRow :=
  (λ r, if is_row tenant cluster r then f r else r) <$> rows.

(** The limits of the placement on [cluster] among the tenant's placements. *)
Definition share (cluster : string) (q : Quotas) (all : list PlacementRow) : Limits :=
  let i := default 0%nat (fst <$> list_find (λ x, pl_clusterId x = cluster) all) in
  default (λ _, None) (splitLimits q (pl_usage <$> all) !! i).

(** What the [try] does: the table and the cluster as far as it got, and how it ended. *)
Definition try_placement (cluster : string) (rows : list PlacementRow) (w : W) (p : PlacementRow)
    : list PlacementRow * W * result unit :=
  let tenant := pl_tenantId p in
  match io_usage io w (pl_project p) with
  | Throw e => (rows, w, Throw e)
  | Ok usage =>
      let rows := update_row tenant cluster (set_usage usage) rows in
      let limits := share cluster (pl_quotas p) (js_filter (λ r, bool_decide (pl_tenantId r = tenant)) rows) in
      match ensureProject (io_project io w (pl_project p)) (pl_project p) tenant (pl_slug p) limits
              (groupsOn tenant) (full tenant (pl_quotas p)) ≫= λ pe, io_putProject io w (pl_project p) pe.1 pe.2 with
      | Throw e => (rows, w, Throw e)
      | Ok w =>
          let rows := update_row tenant cluster (set_limits limits) rows in
          match io_defaultProfile io w (pl_project p) (pl_quotas p) with
          | Throw e => (rows, w, Throw e)
          | Ok w => (rows, w, Ok ())
          end
      end
  end.

Record Pass := {
  ps_rows : list PlacementRow; ps_world : W;
  ps_problems : list string; ps_placed : list (string * string);
}.

Definition foreign (r : result unit) : bool :=
  match r with Throw e => bool_decide (code e = "project_exists") | Ok _ => false end.

Definition placement_step (cluster : string) (s : Pass) (p : PlacementRow) : Pass :=
  let '(rows, w, r) := try_placement cluster (ps_rows s) (ps_world s) p in
  let '(st, msg) := match r with Ok _ => ("ready", EmptyString) | Throw e => ("error", message e) end in
  {| ps_rows := update_row (pl_tenantId p) cluster (set_status st msg) rows;
     ps_world := w;
     ps_problems := match r with
                    | Ok _ => ps_problems s
                    | Throw e => ps_problems s ++ [pl_project p +++ ": " +++ message e]
                    end;
     ps_placed := if foreign r then ps_placed s else ps_placed s ++ [(pl_tenantId p, pl_project p)] |}.

Definition ensurePlacements (cluster : string) (rows : list PlacementRow) (w : W) : Pass :=
  foldl (placement_step cluster) {| ps_rows := rows; ps_world := w; ps_problems := []; ps_placed := [] |}
    (js_filter (λ r, bool_decide (pl_clusterId r = cluster)) rows).
End placements.
Arguments Pass : clear implicits.

(** ** A pass over one cluster *)

Inductive Status := Ready | Degraded | Error | Disabled.
Record ReconcileResult := { rr_status : Status; rr_message : string }.

Record ClusterRow := {
  cl_id : string; cl_name : string; cl_disabled : bool; cl_fgaStoreId : option string;
  cl_grantsScannedAt : option Z; cl_grants : list Tuple;
}.

Definition storeNameFor (clusterId : string) : string := "incuscloud-cluster-" +++ clusterId.

(** A store as it was opened: its id, its tuples, and whether Incus uploads its model in time. *)
Record Store := { so_id : string; so_tuples : list Tuple; so_hasModel : bool }.

Section reconcile.
Context {W : Type} (io : Incus W) (digest12 : string → string).
Context (groupsOn : string → list string) (full : string → Quotas → bool).
(** Reaching the cluster, opening its store by the recorded id or the name, and configuring the server. *)
Context (ping : W → result unit) (openStore : option string → string → result Store) (configure : W → string → result W).
(** The ACL, the inventory and the projects, read from the cluster as it is by then. *)
Context (readExplicit : W → result Explicit).
(** What OpenFGA makes of what is written to the store. *)
Context (taken : Taken).

(** [scanDue] *)
Definition scanDue (row : ClusterRow) (newStore : bool) (now interval : Z) : bool :=
  newStore || match cl_grantsScannedAt row with None => true | Some t => interval <=? now - t end.

Definition with_grants (row : ClusterRow) (store : option string) (g : list Tuple) (scanned : option Z) : ClusterRow :=
  {| cl_id := cl_id row; cl_name := cl_name row; cl_disabled := cl_disabled row; cl_fgaStoreId := store;
     cl_grantsScannedAt := scanned; cl_grants := g |}.

Record Reconciled := {
  rc_row : ClusterRow; rc_rows : list PlacementRow; rc_world : W;
  rc_store : option (list Tuple);  (** the store's tuples, once it was opened *)
  rc_result : ReconcileResult;
}.

(** How a pass that reached the cluster ends. *)
Definition ended_with (problems : list string) : ReconcileResult :=
  match problems with
  | [] => {| rr_status := Ready; rr_message := EmptyString |}
  | _ => {| rr_status := Degraded; rr_message := join "; " problems |}
  end.

Definition reconcileCluster (db : Db) (row : ClusterRow) (rows : list PlacementRow) (w : W) (now interval : Z) : Reconciled :=
  let stop row rows w store r := {| rc_row := row; rc_rows := rows; rc_world := w; rc_store := store; rc_result := r |} in
  if cl_disabled row then stop row rows w None {| rr_status := Disabled; rr_message := EmptyString |}
  else
    match ping w with
    | Throw e => stop row rows w None {| rr_status := Error; rr_message := "Cannot reach the cluster: " +++ message e |}
    | Ok _ =>
        match openStore (cl_fgaStoreId row) (storeNameFor (cl_id row)) with
        | Throw e => stop row rows w None (ended_with [message e])
        | Ok store =>
            let newStore := negb (bool_decide (cl_fgaStoreId row = Some (so_id store))) in
            let row := if newStore then with_grants row (Some (so_id store)) [] (cl_grantsScannedAt row) else row in
            match configure w (so_id store) with
            | Throw e => stop row rows w (Some (so_tuples store)) (ended_with [message e])
            | Ok w =>
                let s := ensurePlacements io groupsOn full (cl_id row) rows w in
                let facts := grantFacts db (ps_placed s) in
                match readExplicit (ps_world s) with
                | Throw e => stop row (ps_rows s) (ps_world s) (Some (so_tuples store)) (ended_with (ps_problems s ++ [message e]))
                | Ok e =>
                    let facts := addExplicit db (cl_name row) e facts in
                    if so_hasModel store then
                      let scan := scanDue row newStore now interval in
                      let '(tuples, recorded) := syncGrants taken (desiredGrants digest12 facts) scan (so_tuples store, cl_grants row) in
                      match recorded with
                      | Throw e => stop row (ps_rows s) (ps_world s) (Some tuples) (ended_with (ps_problems s ++ [message e]))
                      | Ok recorded =>
                          let row := with_grants row (cl_fgaStoreId row) recorded (if scan then Some now else cl_grantsScannedAt row) in
                          stop row (ps_rows s) (ps_world s) (Some tuples) (ended_with (ps_problems s))
                      end
                    else
                      stop row (ps_rows s) (ps_world s) (Some (so_tuples store))
                        (ended_with (ps_problems s ++ ["grants: waiting for Incus to upload its OpenFGA model"]))
                end
            end
        end
    end.
End reconcile.
