(* ===== verification/ReconcileTheory.v ===== *)
(** * ReconcileTheory: what a pass over a cluster guarantees

    Disabled users get no grants, a project that is another's is refused and
    not granted on, and a pass that says [ready] left the store with exactly the
    wanted grants if OpenFGA took what was written. *)

From S2P Require Import Prelude JsString Effects AclCatalog Quota Grants GrantsTheory Projects Reconcile.
Open Scope Z_scope.

(** ** Subjects *)

Definition subject_tuple (s : string) (t : Tuple) : Prop := tu_user t = "user:" +++ s.

Lemma groupTuple_not_subject g r o s : ¬ subject_tuple s (groupTuple g r o).
Proof. unfold subject_tuple. simpl. discriminate. Qed.

Lemma memberTuple_subject g s s' : subject_tuple s (memberTuple s' g) → s' = s.
Proof. unfold subject_tuple. simpl. intros Heq. by injection Heq. Qed.

(** Where a subject's tuples come from. *)
Lemma desired_subject digest12 f s t :
  t ∈ desiredGrants digest12 f → subject_tuple s t →
  (∃ tn role, (tn, s, role) ∈ gf_members f) ∨ (∃ role, (s, role) ∈ gf_platform f)
  ∨ (∃ r o, (s, r, o) ∈ default [] (gf_acl f)).
Proof.
  unfold desiredGrants. rewrite !elem_of_app. intros [Ht|[Ht|[Ht|[Ht|Ht]]]] Hs.
  - apply list_elem_of_bind in Ht as (p & Ht & _). apply list_elem_of_fmap in Ht as (r & -> & _).
    by apply groupTuple_not_subject in Hs.
  - apply list_elem_of_bind in Ht as ([[tn s'] r] & Ht & Hin). unfold memberTuples in Ht.
    destruct (_ && _); [|by apply elem_of_nil in Ht]. apply list_elem_of_singleton in Ht as ->.
    apply memberTuple_subject in Hs; simpl in Hs; subst. eauto.
  - apply list_elem_of_fmap in Ht as (r & -> & _). by apply groupTuple_not_subject in Hs.
  - apply list_elem_of_bind in Ht as ([s' role] & Ht & Hin). unfold platformTuples in Ht.
    destruct (includes _ _); [|by apply elem_of_nil in Ht]. apply list_elem_of_singleton in Ht as ->.
    apply memberTuple_subject in Hs; simpl in Hs; subst. eauto.
  - apply elem_of_aclTuples in Ht as (s' & r & o & Hin & [->| ->]); [by apply groupTuple_not_subject in Hs|].
    apply memberTuple_subject in Hs; simpl in Hs; subst. eauto.
Qed.

Lemma grantFacts_members db placed tn s role :
  (tn, s, role) ∈ gf_members (grantFacts db placed) →
  enabled_user db s = true ∨ ∃ a, a ∈ db_accounts db ∧ sa_clientId a = s.
Proof.
  unfold grantFacts. simpl. destruct placed.*1; [by intros ?%elem_of_nil|].
  intros [Hin|Hin]%elem_of_app.
  - apply elem_of_js_filter in Hin as [_ Hc]. simpl in Hc. by apply andb_prop in Hc as [_ ?]; left.
  - apply list_elem_of_fmap in Hin as (a & [= -> -> ->] & Ha). apply elem_of_js_filter in Ha as [Ha _]. eauto.
Qed.

Lemma grantFacts_platform db placed s role :
  (s, role) ∈ gf_platform (grantFacts db placed) →
  enabled_user db s = true ∨ ∃ a, a ∈ db_accounts db ∧ sa_clientId a = s.
Proof.
  unfold grantFacts. simpl. intros [Hin|Hin]%elem_of_app.
  - apply elem_of_js_filter in Hin as [_ Hc]. by left.
  - apply list_elem_of_fmap in Hin as (a & [= -> ->] & Ha). apply elem_of_js_filter in Ha as [Ha _]. eauto.
Qed.

Lemma elem_of_named_subjects db keys k s :
  (k, s) ∈ named_subjects db keys → k ∈ keys ∧ subject_of db k = Some s.
Proof.
  unfold named_subjects. intros (k' & Hin & Hk)%list_elem_of_bind.
  destruct (subject_of db k') as [s'|] eqn:E; [|by apply elem_of_nil in Hin].
  destruct (truthy_str s'); [|by apply elem_of_nil in Hin].
  apply list_elem_of_singleton in Hin. by simplify_eq.
Qed.

(** A key names a service account, or a user by its id. *)
Definition keys_wf (db : Db) (e : Explicit) : Prop :=
  ∀ k, k ∈ explicit_keys db e → kind_of k = "service" ∨ (k = "user:" +++ id_of k).

(** ** Placements *)

Section placements.
Context {W : Type} (io : Incus W) (groupsOn : string → list string) (full : string → Quotas → bool).

Lemma placed_step cluster s p tp :
  tp ∈ ps_placed (placement_step io groupsOn full cluster s p) ↔
  tp ∈ ps_placed s ∨ (tp = (pl_tenantId p, pl_project p)
                      ∧ foreign (try_placement io groupsOn full cluster (ps_rows s) (ps_world s) p).2 = false).
Proof.
  unfold placement_step. destruct (try_placement _ _ _ _ _ _ _) as [[rows w] r]. simpl.
  destruct (foreign r) eqn:E; destruct r; simpl in *; set_solver.
Qed.

(** What the table may look like meanwhile: only these columns change. *)
Definition same_placement (a b : PlacementRow) : Prop :=
  pl_tenantId a = pl_tenantId b ∧ pl_clusterId a = pl_clusterId b ∧ pl_project a = pl_project b.

(** The project is another tenant's whenever it is read. *)
Definition foreign_project (p : PlacementRow) : Prop :=
  ∀ w, ∃ q, io_project io w (pl_project p) = Ok (Some q) ∧ pr_config q !! TENANT_KEY ≠ Some (pl_tenantId p).

Lemma try_foreign cluster rows w p :
  foreign_project p → (∀ w, is_ok (io_usage io w (pl_project p)) = true) →
  foreign (try_placement io groupsOn full cluster rows w p).2 = true.
Proof.
  intros Hf Hu. unfold try_placement. specialize (Hu w).
  destruct (io_usage io w (pl_project p)) as [usage|]; [|done].
  destruct (Hf w) as (q & -> & Hq). unfold ensureProject. simpl.
  by rewrite bool_decide_eq_false_2.
Qed.

Lemma try_failed cluster rows w p e :
  io_usage io w (pl_project p) = Throw e → code e ≠ "project_exists" →
  foreign (try_placement io groupsOn full cluster rows w p).2 = false.
Proof. intros Hu Hc. unfold try_placement. rewrite Hu. simpl. by apply bool_decide_eq_false. Qed.

(** What placing leaves of a row: whose it is, where, and its status. *)
Definition same_row (a b : PlacementRow) : Prop :=
  pl_tenantId a = pl_tenantId b ∧ pl_clusterId a = pl_clusterId b ∧ pl_status a = pl_status b.

Lemma elem_of_update_row tenant cluster f rows r : r ∈ update_row tenant cluster f rows →
  ∃ r0, r0 ∈ rows ∧ r = if is_row tenant cluster r0 then f r0 else r0.
Proof. unfold update_row. intros (r0 & -> & H)%list_elem_of_fmap. eauto. Qed.

Lemma update_row_same tenant cluster f rows r : (∀ x, same_row x (f x)) →
  r ∈ update_row tenant cluster f rows → ∃ r0, r0 ∈ rows ∧ same_row r0 r.
Proof.
  intros Hf (r0 & Hr0 & ->)%elem_of_update_row. exists r0. split; [done|].
  by destruct (is_row tenant cluster r0).
Qed.

Lemma try_rows cluster rows w p r : r ∈ (try_placement io groupsOn full cluster rows w p).1.1 →
  ∃ r0, r0 ∈ rows ∧ same_row r0 r.
Proof.
  unfold try_placement. destruct (io_usage _ _ _); [|by exists r].
  destruct (_ ≫= _); [destruct (io_defaultProfile _ _ _ _)|]; simpl; intros Hr;
    repeat (apply update_row_same in Hr as (? & Hr & ?); [|done]); eexists; (split; [exact Hr|]);
    unfold same_row in *; naive_solver congruence.
Qed.

(** A step that records no problem leaves its rows ready, and the others as they were. *)
Lemma step_ready cluster s p :
  ps_problems (placement_step io groupsOn full cluster s p) = [] →
  ps_problems s = [] ∧ (pl_tenantId p, pl_project p) ∈ ps_placed (placement_step io groupsOn full cluster s p)
  ∧ ∀ r, r ∈ ps_rows (placement_step io groupsOn full cluster s p) → pl_clusterId r = cluster →
      pl_status r = "ready" ∨ (pl_tenantId r ≠ pl_tenantId p ∧ ∃ r0, r0 ∈ ps_rows s ∧ same_row r0 r).
Proof.
  unfold placement_step.
  pose proof (try_rows cluster (ps_rows s) (ps_world s) p) as Ht.
  destruct (try_placement _ _ _ _ _ _ _) as [[rows w] [[]|e]]; simpl in *; intros Hp;
    [|by apply app_eq_nil in Hp as [_ ?]].
  split; [done|]. split; [set_solver|].
  intros r (r1 & Hr1 & ->)%elem_of_update_row Hc. unfold is_row in *.
  destruct (bool_decide (pl_tenantId r1 = pl_tenantId p)) eqn:Hb; bool_prop; simpl in *; [|right; by auto].
  destruct (bool_decide (pl_clusterId r1 = cluster)) eqn:Hb'; bool_prop; simpl in *; [by left|done].
Qed.

Lemma no_problems cluster todo : ∀ s,
  ps_problems (foldl (placement_step io groupsOn full cluster) s todo) = [] → ps_problems s = [].
Proof.
  induction todo as [|p todo IH]; intros s Hp; simpl in *; [done|]. by apply IH, step_ready in Hp as [? _].
Qed.

(** A run that records no problem leaves every row of the cluster ready, and places all of them. *)
Lemma all_ready cluster todo : ∀ s,
  ps_problems (foldl (placement_step io groupsOn full cluster) s todo) = [] →
  (∀ r, r ∈ ps_rows s → pl_clusterId r = cluster → pl_status r = "ready" ∨ pl_tenantId r ∈ pl_tenantId <$> todo) →
  (∀ r, r ∈ ps_rows (foldl (placement_step io groupsOn full cluster) s todo) → pl_clusterId r = cluster →
     pl_status r = "ready")
  ∧ (∀ tp, tp ∈ ps_placed s ∨ (∃ p, p ∈ todo ∧ tp = (pl_tenantId p, pl_project p)) →
       tp ∈ ps_placed (foldl (placement_step io groupsOn full cluster) s todo)).
Proof.
  induction todo as [|p todo IH]; intros s Hp Hr; simpl in *.
  - split; [|set_solver]. intros r Hin Hc. destruct (Hr r Hin Hc) as [|Hn]; [done|by apply elem_of_nil in Hn].
  - pose proof (step_ready cluster s p (no_problems _ _ _ Hp)) as (Hs & Hpl & Hrows).
    destruct (IH _ Hp) as [Hready Hplaced].
    + intros r Hin Hc. destruct (Hrows r Hin Hc) as [|(Hn & r0 & Hr0 & Ht & Hcl & Hst)]; [by left|].
      destruct (Hr r0 Hr0) as [|Ht0]; [congruence|left; congruence|].
      right. rewrite <-Ht. apply elem_of_cons in Ht0 as [Ht0|]; [congruence|done].
    + split; [done|]. intros tp Htp. apply Hplaced.
      destruct Htp as [Htp|(p' & [->|Hp']%elem_of_cons & ->)]; [left; apply placed_step; by left|by left|].
      right. by exists p'.
Qed.

Lemma placements_ready cluster rows w :
  ps_problems (ensurePlacements io groupsOn full cluster rows w) = [] →
  (∀ r, r ∈ ps_rows (ensurePlacements io groupsOn full cluster rows w) → pl_clusterId r = cluster → pl_status r = "ready")
  ∧ (∀ p, p ∈ rows → pl_clusterId p = cluster →
       (pl_tenantId p, pl_project p) ∈ ps_placed (ensurePlacements io groupsOn full cluster rows w)).
Proof.
  intros Hp. destruct (all_ready cluster _ _ Hp) as [Hr Hpl].
  - intros r Hin Hc. right. apply list_elem_of_fmap. exists r. split; [done|].
    apply elem_of_js_filter. split; [done|]. by apply bool_decide_eq_true.
  - split; [done|]. intros p Hin Hc. apply Hpl. right. exists p. split; [|done].
    apply elem_of_js_filter. split; [done|]. by apply bool_decide_eq_true.
Qed.
End placements.

(** ** Properties *)

(** A disabled user holds nothing on any cluster: whatever roles, memberships and explicit entries
    name the user, none of the tuples wanted in a cluster's store does. *)
Theorem disabled_user_no_grants digest12 db cluster e placed u
    (Huser : ∀ r, r ∈ db_users db → u_id r = u → u_disabled r = true)
    (Hclient : ∀ a, a ∈ db_accounts db → sa_clientId a ≠ u)
    (Hkeys : keys_wf db e) t :
  "user:" +++ u ∈ e_disabled e →
  t ∈ desiredGrants digest12 (addExplicit db cluster e (grantFacts db placed)) → tu_user t ≠ "user:" +++ u.
Proof.
  intros Hdis Ht Hs.
  assert (enabled_user db u = true ∨ (∃ a, a ∈ db_accounts db ∧ sa_clientId a = u) → False) as Hno.
  { intros [He|(a & Ha & Hc)]; [|by apply (Hclient a)].
    unfold enabled_user in He. apply some_spec in He as (r & Hr & Hc). bool_prop. by rewrite (Huser r) in *. }
  apply (desired_subject _ _ u) in Ht; [|done]. unfold addExplicit in Ht.
  destruct (e_named e) as [|k ks] eqn:En.
  - destruct Ht as [(tn & role & Hin)|[(role & Hin)|(r & o & Hin)]].
    + by apply grantFacts_members in Hin.
    + by apply grantFacts_platform in Hin.
    + by apply elem_of_nil in Hin.
  - cbn [gf_members gf_platform gf_acl default] in Ht.
    destruct Ht as [(tn & role & Hin)|[(role & Hin)|(r & o & Hin)]].
    + apply elem_of_js_filter in Hin as [Hin _]. by apply grantFacts_members in Hin.
    + apply elem_of_js_filter in Hin as [Hin _]. by apply grantFacts_platform in Hin.
    + change (id ?x) with x in Hin. apply list_elem_of_bind in Hin as ([k' s'] & Hin & Hk).
      apply list_elem_of_fmap in Hin as (x & [= -> -> ->] & _).
      apply elem_of_js_filter in Hk as [Hk Hnd]. simpl in Hnd.
      apply elem_of_named_subjects in Hk as [Hk Hsub].
      apply negb_true_iff, includes_false in Hnd. unfold subject_of in Hsub.
      case_bool_decide as Hkind.
      * apply fmap_Some in Hsub as (a & Ha & ->). apply js_find_some in Ha as [Ha _]. by apply (Hclient a).
      * injection Hsub as <-. destruct (Hkeys k' Hk) as [?|Hku]; [done|]. apply Hnd. by rewrite Hku.
Qed.

(** A placement whose project on the cluster belongs to another tenant is not granted on, as long as
    the project's usage can be read: it is left out of the placements grants are made for. *)
Theorem foreign_not_granted {W} (io : Incus W) groupsOn full cluster rows w tenant name
    (Hforeign : ∀ r, r ∈ rows → pl_tenantId r = tenant → pl_project r = name → foreign_project io r) :
  (∀ w, is_ok (io_usage io w name) = true) →
  (tenant, name) ∉ ps_placed (ensurePlacements io groupsOn full cluster rows w).
Proof.
  intros Hu. unfold ensurePlacements.
  apply (foldl_inv (λ s, (tenant, name) ∉ ps_placed s)); [apply not_elem_of_nil|].
  intros s p Hp Hs Hin. apply placed_step in Hin as [Hin|[[= -> ->] Hf]]; [done|].
  apply elem_of_js_filter in Hp as [Hp _]. rewrite try_foreign in Hf; [done|by apply Hforeign|done].
Qed.

(** When the read of a project's usage fails, the placement is granted on unseen: the project is never checked, and the
    tenant's groups get their relations on a project that may be another's. *)
Theorem unread_project_granted {W} (io : Incus W) groupsOn full digest12 db cluster rows w p e :
  p ∈ rows → pl_clusterId p = cluster →
  (∀ w, io_usage io w (pl_project p) = Throw e) → code e ≠ "project_exists" →
  let placed := ps_placed (ensurePlacements io groupsOn full cluster rows w) in
  (pl_tenantId p, pl_project p) ∈ placed
  ∧ groupTuple (groupName ForTenant (pl_tenantId p) "owner") "operator" ("project:" +++ pl_project p)
      ∈ desiredGrants digest12 (grantFacts db placed).
Proof.
  intros Hp Hc Hu He placed.
  assert ((pl_tenantId p, pl_project p) ∈ placed) as Hin.
  { assert (∀ l s, p ∈ l → (pl_tenantId p, pl_project p) ∈ ps_placed (foldl (placement_step io groupsOn full cluster) s l)) as Hf.
    { induction l as [|q l IH]; intros s Hl; [by apply elem_of_nil in Hl|]. simpl.
      apply elem_of_cons in Hl as [<-|Hl]; [|by apply IH].
      apply (foldl_inv (λ s, (pl_tenantId p, pl_project p) ∈ ps_placed s)).
      - apply placed_step. right. split; [done|]. by eapply try_failed.
      - intros s' q' _ Hs'. apply placed_step. by left. }
    apply Hf. apply elem_of_js_filter. split; [done|]. by apply bool_decide_eq_true. }
  split; [done|]. unfold desiredGrants. apply elem_of_app; left.
  apply list_elem_of_bind. exists (pl_tenantId p, pl_project p). split; [|done].
  unfold placementTuples. apply list_elem_of_fmap. exists ("owner", "operator"). split; [done|by left].
Qed.

Section ready.
Context {W : Type} (io : Incus W) (digest12 : string → string).
Context (groupsOn : string → list string) (full : string → Quotas → bool).
Context (ping : W → result unit) (openStore : option string → string → result Store) (configure : W → string → result W).
Context (readExplicit : W → result Explicit) (taken : Taken).

Lemma ended_ready problems : rr_status (ended_with problems) = Ready → problems = [].
Proof. by destruct problems. Qed.

(** A pass that does not scan knows its store from before, and when it was scanned last. *)
Lemma not_scanning row store now interval :
  let new := negb (bool_decide (cl_fgaStoreId row = Some store)) in
  let row' := if new then with_grants row (Some store) [] (cl_grantsScannedAt row) else row in
  scanDue row' new now interval = false →
  cl_fgaStoreId row = Some store ∧ row' = row ∧ ∃ at_, cl_grantsScannedAt row = Some at_ ∧ (now - at_ < interval)%Z.
Proof.
  intros new row'. unfold scanDue, row', new. destruct (decide (cl_fgaStoreId row = Some store)) as [Hid|Hid].
  - rewrite bool_decide_eq_true_2 by done. simpl. intros Hs. split_and!; [done..|].
    destruct (cl_grantsScannedAt row) as [at_|]; [|done]. exists at_. split; [done|]. by apply Z.leb_gt.
  - by rewrite bool_decide_eq_false_2.
Qed.

(** C7: a pass that ends [ready] reached the cluster, opened its store, configured the server, and brought
    every placement on the cluster to the state ready, to be granted on. The store then has nothing new but wanted
    grants and has lost nothing but unwanted ones of the platform's; and if OpenFGA took every chunk that was written
    (a refused one is not reported) and the record of what is there was right (or the store was scanned), it holds the
    wanted grants and nothing else of the platform's. *)
Theorem ready_means_converged db row rows w now interval :
  let r := reconcileCluster io digest12 groupsOn full ping openStore configure readExplicit taken db row rows w now interval in
  rr_status (rc_result r) = Ready →
  ∃ store w1 e tuples,
    cl_disabled row = false ∧ openStore (cl_fgaStoreId row) (storeNameFor (cl_id row)) = Ok store
    ∧ configure w (so_id store) = Ok w1
    ∧ (let s := ensurePlacements io groupsOn full (cl_id row) rows w1 in
       let desired := desiredGrants digest12 (addExplicit db (cl_name row) e (grantFacts db (ps_placed s))) in
       (∀ p, p ∈ rc_rows r → pl_clusterId p = cl_id row → pl_status p = "ready")
       ∧ (∀ p, p ∈ rows → pl_clusterId p = cl_id row → (pl_tenantId p, pl_project p) ∈ ps_placed s)
       ∧ readExplicit (ps_world s) = Ok e ∧ rc_store r = Some tuples
       ∧ (∀ t, (t ∈ tuples → t ∈ desired ∨ t ∈ so_tuples store)
               ∧ (t ∈ so_tuples store → t ∉ tuples → isManaged t = true ∧ t ∉ desired))
       ∧ ((∀ t, t ∈ desired ∨ t ∈ so_tuples store → tuple_wf t) →
          all_taken taken →
          (cl_fgaStoreId row = Some (so_id store) →
             cl_grantsScannedAt row = None ∨ (∃ at_, cl_grantsScannedAt row = Some at_ ∧ (interval ≤ now - at_)%Z)
             ∨ ∀ t, t ∈ cl_grants row ↔ t ∈ so_tuples store ∧ isManaged t = true) →
          ∀ t, t ∈ tuples ↔ t ∈ desired ∨ (t ∈ so_tuples store ∧ isManaged t = false))).
Proof.
  intros r. subst r. unfold reconcileCluster.
  destruct (cl_disabled row) eqn:Ed; [done|].
  destruct (ping w); [|done].
  destruct (openStore _ _) as [store|] eqn:Eo; [|done].
  destruct (configure w (so_id store)) as [w1|] eqn:Ec; [|done].
  set (row' := if negb (bool_decide (cl_fgaStoreId row = Some (so_id store)))
               then with_grants row (Some (so_id store)) [] (cl_grantsScannedAt row) else row).
  assert (cl_id row' = cl_id row ∧ cl_name row' = cl_name row) as [-> ->] by (unfold row'; by destruct (negb _)).
  set (s := ensurePlacements io groupsOn full (cl_id row) rows w1).
  destruct (readExplicit (ps_world s)) as [e|] eqn:Ee.
  2: { simpl. intros Hr%ended_ready. by apply app_eq_nil in Hr as [_ ?]. }
  destruct (so_hasModel store).
  2: { simpl. intros Hr%ended_ready. by apply app_eq_nil in Hr as [_ ?]. }
  set (facts := addExplicit db (cl_name row) e (grantFacts db (ps_placed s))).
  set (scan := scanDue row' _ now interval).
  pose proof (sync_bounds taken (desiredGrants digest12 facts) scan (so_tuples store, cl_grants row')) as Hbounds.
  pose proof (sync_spec digest12 facts taken scan (so_tuples store) (cl_grants row')) as Hsync.
  destruct (syncGrants taken (desiredGrants digest12 facts) scan (so_tuples store, cl_grants row')) as [tuples [recorded|ex]] eqn:Es.
  2: { simpl. intros Hr%ended_ready. by apply app_eq_nil in Hr as [_ ?]. }
  simpl. intros Hr%ended_ready. exists store, w1, e, tuples.
  destruct (placements_ready io groupsOn full _ _ _ Hr) as [Hready Hplaced].
  do 3 (split; [done|]). fold s in Hready, Hplaced |- *. fold facts.
  do 4 (split; [done|]). split; [exact Hbounds|]. intros Hwf Ha Hrec.
  enough (scan = false → ∀ t, t ∈ cl_grants row' ↔ t ∈ so_tuples store ∧ isManaged t = true) as Hprem.
  { destruct (Hsync Hwf Ha Hprem) as [Hx _]. by rewrite Es in Hx. }
  intros Hscan. apply not_scanning in Hscan as (Hid & Hrow & at_ & Hat & Hlt). rewrite (Hrow : row' = row).
  destruct (Hrec Hid) as [Hn|[(at' & Hat' & Hle)|Hr']]; [congruence| |exact Hr']. simplify_eq. lia.
Qed.
End ready.

(** ** Concrete inputs *)

Definition demo_db : Db :=
  {| db_users := [{| u_id := "u1"; u_disabled := true |}; {| u_id := "u2"; u_disabled := false |}];
     db_accounts := [];
     db_tenantMembers := [("t1", "u1", "owner"); ("t1", "u2", "member")];
     db_platformRoles := [("u1", "admin")]; db_groupMembers := [("g1", Some "u1", None)] |}.
Definition demo_explicit : Explicit :=
  {| e_named := ["group:g1"; "user:u1"]; e_disabled := ["user:u1"]; e_taken := ["acme"]; e_listed := ["acme"; "default"];
     e_inventory := [("acme", "web")];
     e_explain := λ _ _, {| d_roles := [RAdministrator]; d_at := Some "/"; d_privileges := None |};
     e_shared := λ _, [] |}.

Lemma disabled_user_no_grants_witness :
  "user:u1" ∈ e_disabled demo_explicit ∧
  ∀ t, t ∈ desiredGrants id (addExplicit demo_db "c1" demo_explicit (grantFacts demo_db [("t1", "acme")])) →
       tu_user t ≠ "user:u1".
Proof.
  split; [by left|]. intros t Ht.
  refine (disabled_user_no_grants id demo_db "c1" demo_explicit [("t1", "acme")] "u1" _ _ _ t _ Ht).
  - intros r [->|[->|Hr]%elem_of_cons]%elem_of_cons; simpl; [done|done|by apply elem_of_nil in Hr].
  - intros a Ha. by apply elem_of_nil in Ha.
  - intros k Hk. assert (explicit_keys demo_db demo_explicit = ["user:u1"]) as Hks by reflexivity.
    rewrite Hks in Hk. apply list_elem_of_singleton in Hk as ->. by right.
  - by left.
Defined.

Definition no_quotas : Quotas :=
  {| pool := λ _, None; maxInstanceCpu := None; maxInstanceMemory := None; maxInstanceDisk := None;
     q_snapshots := None; q_backups := None; q_backupGiB := None; q_kubernetes := None |}.
Definition demo_row : PlacementRow :=
  {| pl_tenantId := "t1"; pl_clusterId := "c1"; pl_project := "acme"; pl_slug := "acme"; pl_quotas := no_quotas;
     pl_usage := None; pl_limits := None; pl_status := "pending"; pl_message := EmptyString |}.

(** A cluster whose project [acme] is the tenant [t2]'s; its state cannot be read where [broken] says so. *)
Definition demo_io (broken : bool) : Incus unit :=
  {| io_usage := λ _ _, if broken then Throw ({| status := 500; code := "incus_error"; message := "timeout" |}) else Ok None;
     io_project := λ _ _, Ok (Some {| pr_config := {[TENANT_KEY := "t2"]}; pr_description := EmptyString |});
     io_putProject := λ w _ _ _, Ok w; io_defaultProfile := λ w _ _, Ok w |}.

Lemma foreign_not_granted_witness :
  ("t1", "acme") ∉ ps_placed (ensurePlacements (demo_io false) (λ _, []) (λ _ _, false) "c1" [demo_row] ()).
Proof.
  apply foreign_not_granted; [|done].
  intros r ->%list_elem_of_singleton _ _ w. eexists. split; [reflexivity|].
  simpl. rewrite lookup_singleton_eq. discriminate.
Defined.

Lemma unread_project_granted_witness :
  ("t1", "acme") ∈ ps_placed (ensurePlacements (demo_io true) (λ _, []) (λ _ _, false) "c1" [demo_row] ()).
Proof.
  exact (proj1 (unread_project_granted (demo_io true) (λ _, []) (λ _ _, false) id demo_db "c1" [demo_row] () demo_row
                  ({| status := 500; code := "incus_error"; message := "timeout" |}) (list_elem_of_here _ _) eq_refl (λ _, eq_refl) ltac:(discriminate))).
Defined.

Definition demo_cluster : ClusterRow :=
  {| cl_id := "c1"; cl_name := "c1"; cl_disabled := false; cl_fgaStoreId := Some "s1"; cl_grantsScannedAt := None;
     cl_grants := [] |}.
Definition demo_store : Store := {| so_id := "s1"; so_tuples := []; so_hasModel := true |}.

Lemma ready_means_converged_witness :
  ∃ tuples, rc_store (reconcileCluster (demo_io false) id (λ _, []) (λ _ _, false) (λ _, Ok ()) (λ _ _, Ok demo_store)
                        (λ w _, Ok w) (λ _, Ok demo_explicit) takes_all demo_db demo_cluster [] () 0 60000) = Some tuples
            ∧ (∃ t, t ∈ tuples).
Proof.
  pose proof (ready_means_converged (demo_io false) id (λ _, []) (λ _ _, false) (λ _, Ok ()) (λ _ _, Ok demo_store)
                (λ w _, Ok w) (λ _, Ok demo_explicit) takes_all demo_db demo_cluster [] () 0 60000) as H'.
  destruct (H' ltac:(vm_compute; reflexivity)) as (st & w1 & e & tuples & _ & Ho & _ & _ & _ & He & Hs & _).
  exists tuples. split; [exact Hs|]. vm_compute in Hs. injection Hs as <-. eexists. left.
Defined.
