(* ===== verification/Worker.v ===== *)
(** * Worker: serving requests to reconcile

    Models [reconcile/worker.ts] and [reconcile/requests.ts]. Replicas run the
    pass of [Worker.tick] one database call at a time, and requests arrive in
    between: an execution is a list of events, in any order. *)

From S2P Require Import Prelude JsString Effects Jobs.
Open Scope Z_scope.

(** ** Clusters and requests *)

(** The columns of [clusters] the loop reads and writes. *)
Record Cluster := {
  wc_id : string; wc_name : string; wc_disabled : bool;
  wc_generation : nat; wc_reconciled : nat;  (** [reconcileGeneration], [reconciledGeneration] *)
  wc_reconciledAt : option Z; wc_requested : bool;  (** [reconcileRequestedAt] is set *)
}.

Inductive Target := Ids (ids : list string) | All | OfTenant (tenant : string).

Definition requested (c : Cluster) : Cluster :=
  {| wc_id := wc_id c; wc_name := wc_name c; wc_disabled := wc_disabled c; wc_generation := S (wc_generation c);
     wc_reconciled := wc_reconciled c; wc_reconciledAt := wc_reconciledAt c; wc_requested := true |}.

(** [placed]: the tenant and cluster of every placement. *)
Definition requestReconcile (target : Target) (placed : list (string * string)) (cs : list Cluster) : list Cluster :=
  (λ c, if match target with
           | All => true
           | Ids ids => includes ids (wc_id c)
           | OfTenant t => includes placed (t, wc_id c)
           end then requested c else c) <$> cs.

(** ** The pass *)

(** Which clusters a pass visits, and the generation it will answer. *)
Definition is_due (staleBefore : Z) (c : Cluster) : bool :=
  negb (wc_disabled c)
  && ((wc_reconciled c <? wc_generation c)%nat
      || match wc_reconciledAt c with None => true | Some t => t <? staleBefore end).

Abbreviation Due := (string * nat)%type.

Definition due `{Locale} (staleBefore : Z) (cs : list Cluster) : list Due :=
  (λ c, (wc_id c, wc_generation c))
  <$> js_sort (λ a b, locale_compare (wc_name a) (wc_name b)) (js_filter (is_due staleBefore) cs).

(** [finish] of [reconcileCluster]: the pass ended and was recorded. *)
Definition finished (now : Z) (c : Cluster) : Cluster :=
  {| wc_id := wc_id c; wc_name := wc_name c; wc_disabled := false; wc_generation := wc_generation c;
     wc_reconciled := wc_reconciled c; wc_reconciledAt := Some now; wc_requested := wc_requested c |}.

(** The update after a pass: the generation it was started for is served. *)
Definition answered (g : nat) (c : Cluster) : Cluster :=
  {| wc_id := wc_id c; wc_name := wc_name c; wc_disabled := wc_disabled c; wc_generation := wc_generation c;
     wc_reconciled := g; wc_reconciledAt := wc_reconciledAt c;
     wc_requested := if bool_decide (wc_generation c = g) then false else wc_requested c |}.

Definition dropped (c : Cluster) : Cluster :=
  {| wc_id := wc_id c; wc_name := wc_name c; wc_disabled := wc_disabled c; wc_generation := wc_generation c;
     wc_reconciled := wc_generation c; wc_reconciledAt := wc_reconciledAt c; wc_requested := false |}.

Definition on_cluster (id : string) (f : Cluster → Cluster) (cs : list Cluster) : list Cluster :=
  (λ c, if bool_decide (wc_id c = id) then f c else c) <$> cs.
Definition sweep (cs : list Cluster) : list Cluster :=
  (λ c, if wc_disabled c && wc_requested c then dropped c else c) <$> cs.

(** Where a replica is in its pass. [Passing c rest began off]: it is
    reconciling [c], whose generation was [began] and which was disabled ([off])
    when it was read. *)
Inductive Phase :=
  | Resting
  | Selecting
  | Visiting (rest : list Due)
  | Passing (c : Due) (rest : list Due) (began : nat) (off : bool)
  | Answering (c : Due) (rest : list Due).

Record Replica := { wr_stopped : bool; wr_phase : Phase }.

(** What happened to requests: a pass on a cluster that began at a generation
    has ended, or the requests of a disabled cluster were dropped. *)
Inductive Answer := Passed (id : string) (began : nat) | Dropped (id : string) (generation : nat).
Definition answer_of (id : string) (g : nat) (a : Answer) : Prop :=
  match a with Passed i b => i = id ∧ g ≤ b | Dropped i b => i = id ∧ g ≤ b end%nat.

Record Sys := {
  sy_clusters : list Cluster; sy_leases : leases; sy_replicas : gmap string Replica;
  sy_answers : list Answer;
}.

Definition set_clusters (s : Sys) (cs : list Cluster) : Sys :=
  {| sy_clusters := cs; sy_leases := sy_leases s; sy_replicas := sy_replicas s; sy_answers := sy_answers s |}.
Definition set_leases (s : Sys) (ls : leases) : Sys :=
  {| sy_clusters := sy_clusters s; sy_leases := ls; sy_replicas := sy_replicas s; sy_answers := sy_answers s |}.
Definition log (s : Sys) (l : list Answer) : Sys :=
  {| sy_clusters := sy_clusters s; sy_leases := sy_leases s; sy_replicas := sy_replicas s; sy_answers := sy_answers s ++ l |}.
Definition put (s : Sys) (h : string) (r : Replica) : Sys :=
  {| sy_clusters := sy_clusters s; sy_leases := sy_leases s; sy_replicas := <[h := r]> (sy_replicas s);
     sy_answers := sy_answers s |}.

(** A replica not seen yet rests. *)
Definition replica (s : Sys) (h : string) : Replica :=
  default {| wr_stopped := false; wr_phase := Resting |} (sy_replicas s !! h).
Definition at_phase (s : Sys) (h : string) (p : Phase) : Sys :=
  put s h {| wr_stopped := wr_stopped (replica s h); wr_phase := p |}.

Section worker.
Context `{Locale} (intervalMs leaseMs : Z).

Definition RECONCILER : string := "reconciler".

(** The next database call of [h]'s pass. [ok]: the pass over a cluster ends
    by recording its result, rather than by an exception. *)
Definition turn (s : Sys) (h : string) (now : Z) (ok : bool) : Sys :=
  match wr_phase (replica s h) with
  | Resting =>
      if wr_stopped (replica s h) then s
      else
        let '(ls, got) := acquireLease (sy_leases s) RECONCILER h leaseMs now in
        at_phase (set_leases s ls) h (if got then Selecting else Resting)
  | Selecting => at_phase s h (Visiting (due (now - intervalMs) (sy_clusters s)))
  | Visiting [] =>
      let swept := js_filter (λ c, wc_disabled c && wc_requested c) (sy_clusters s) in
      at_phase (log (set_clusters s (sweep (sy_clusters s))) ((λ c, Dropped (wc_id c) (wc_generation c)) <$> swept)) h Resting
  | Visiting (c :: rest) =>
      if wr_stopped (replica s h) then at_phase s h Resting
      else
        let '(ls, got) := acquireLease (sy_leases s) RECONCILER h leaseMs now in
        let row := js_find (λ x, bool_decide (wc_id x = c.1)) (sy_clusters s) in
        at_phase (set_leases s ls) h
          (if got then Passing c rest (default c.2 (wc_generation <$> row)) (default false (wc_disabled <$> row)) else Resting)
  | Passing c rest began off =>
      let cs := if ok && negb off then on_cluster c.1 (finished now) (sy_clusters s) else sy_clusters s in
      at_phase (log (set_clusters s cs) [Passed c.1 began]) h (Answering c rest)
  | Answering c rest => at_phase (set_clusters s (on_cluster c.1 (answered c.2) (sy_clusters s))) h (Visiting rest)
  end.

Inductive Event :=
  | Request (target : Target) (placed : list (string * string))
  | Turn (h : string) (now : Z) (ok : bool)
  | Stop (h : string)  (** [stop] sets the flag; the lease is released once the loop has ended *)
  | Release (h : string)
  | Disable (id : string) (off : bool).

Definition disable (off : bool) (c : Cluster) : Cluster :=
  {| wc_id := wc_id c; wc_name := wc_name c; wc_disabled := off; wc_generation := wc_generation c;
     wc_reconciled := wc_reconciled c; wc_reconciledAt := wc_reconciledAt c; wc_requested := wc_requested c |}.

Definition event (s : Sys) (e : Event) : Sys :=
  match e with
  | Request target placed => set_clusters s (requestReconcile target placed (sy_clusters s))
  | Turn h now ok => turn s h now ok
  | Stop h => put s h {| wr_stopped := true; wr_phase := wr_phase (replica s h) |}
  | Release h =>
      match wr_phase (replica s h) with
      | Resting => if wr_stopped (replica s h) then set_leases s (releaseLease (sy_leases s) RECONCILER h) else s
      | _ => s
      end
  | Disable id off => set_clusters s (on_cluster id (disable off) (sy_clusters s))
  end.

Definition run (s : Sys) (es : list Event) : Sys := foldl event s es.
End worker.

Definition start (cs : list Cluster) (ls : leases) : Sys :=
  {| sy_clusters := cs; sy_leases := ls; sy_replicas := ∅; sy_answers := [] |}.

(** ** A request is answered only by a pass that began after it *)

Definition of_id (cs : list Cluster) (id : string) (P : Cluster → Prop) : Prop := ∀ c, c ∈ cs → wc_id c = id → P c.
(** What is due was asked for by then. *)
Definition due_wf (cs : list Cluster) (d : Due) : Prop := of_id cs d.1 (λ c, d.2 ≤ wc_generation c)%nat.

Definition phase_wf (cs : list Cluster) (l : list Answer) (p : Phase) : Prop :=
  match p with
  | Resting | Selecting => True
  | Visiting rest => Forall (due_wf cs) rest
  | Passing c rest began _ =>
      of_id cs c.1 (λ x, c.2 ≤ began)%nat ∧ of_id cs c.1 (λ x, began ≤ wc_generation x)%nat ∧ Forall (due_wf cs) rest
  | Answering c rest =>
      of_id cs c.1 (λ x, c.2 ≤ wc_generation x ∧ ∃ a, a ∈ l ∧ answer_of c.1 (c.2) a)%nat ∧ Forall (due_wf cs) rest
  end.

Definition served_wf (l : list Answer) (c : Cluster) : Prop :=
  (wc_reconciled c ≤ wc_generation c ∧ (0 < wc_reconciled c → ∃ a, a ∈ l ∧ answer_of (wc_id c) (wc_reconciled c) a))%nat.

Record sys_wf (s : Sys) : Prop := {
  wf_served : ∀ c, c ∈ sy_clusters s → served_wf (sy_answers s) c;
  wf_phase : ∀ h, phase_wf (sy_clusters s) (sy_answers s) (wr_phase (replica s h));
}.

(** Rows keep their id and their generation only grows. *)
Definition grows (f : Cluster → Cluster) : Prop :=
  ∀ c, wc_id (f c) = wc_id c ∧ (wc_generation c ≤ wc_generation (f c))%nat.

Lemma of_id_map f cs id (P Q : Cluster → Prop) :
  (∀ c, wc_id (f c) = wc_id c) → (∀ c, P c → Q (f c)) → of_id cs id P → of_id (f <$> cs) id Q.
Proof.
  intros Hid HPQ Hof c (x & -> & Hx)%list_elem_of_fmap Hc. apply HPQ, Hof; [done|]. by rewrite <-(Hid x).
Qed.

Lemma due_wf_grows f cs d : grows f → due_wf cs d → due_wf (f <$> cs) d.
Proof.
  intros Hf. apply of_id_map; [intros c; apply Hf|]. simpl. intros c Hc. destruct (Hf c). etrans; eassumption.
Qed.

Lemma phase_wf_grows f cs l l' p :
  grows f → (∀ a, a ∈ l → a ∈ l') → phase_wf cs l p → phase_wf (f <$> cs) l' p.
Proof.
  intros Hf Hl. assert (∀ rest, Forall (due_wf cs) rest → Forall (due_wf (f <$> cs)) rest) as Hrest.
  { intros rest HF. eapply Forall_impl; [exact HF|]. intros d. by apply due_wf_grows. }
  assert (∀ c, wc_id (f c) = wc_id c) as Hid by (intros c; apply Hf).
  destruct p as [| |rest|c rest b off|c rest]; simpl; [done|done|by apply Hrest| |].
  - intros (H1 & H2 & H3). split_and!; [|  |by apply Hrest].
    + eapply of_id_map; [exact Hid| |exact H1]. done.
    + eapply of_id_map; [exact Hid| |exact H2]. simpl. intros x ?. destruct (Hf x). lia.
  - intros (H1 & H3). split; [|by apply Hrest]. eapply of_id_map; [exact Hid| |exact H1].
    simpl. intros x (Hx & a & Ha & Haa). destruct (Hf x). split; [lia|]. exists a. auto.
Qed.

Lemma grows_id : grows (λ c, c).
Proof. done. Qed.

Lemma grows_on (b : Cluster → bool) f : grows f → grows (λ c, if b c then f c else c).
Proof. intros Hf c. destruct (b c); [apply Hf|done]. Qed.

(** The system after [h] moved on: [f] on the rows, [more] answers, [p] for [h]. *)
Lemma wf_next s f more h p ls :
  sys_wf s → grows f →
  (∀ c, c ∈ sy_clusters s → served_wf (sy_answers s ++ more) (f c)) →
  phase_wf (f <$> sy_clusters s) (sy_answers s ++ more) p →
  ∀ st, sys_wf (put (log (set_clusters (set_leases s ls) (f <$> sy_clusters s)) more) h {| wr_stopped := st; wr_phase := p |}).
Proof.
  intros [Hs Hp] Hf Hserved Hph st. split; simpl.
  - intros c (x & -> & Hx)%list_elem_of_fmap. by apply Hserved.
  - intros h'. unfold replica. simpl. destruct (decide (h' = h)) as [->|Hne].
    + by rewrite lookup_insert_eq.
    + rewrite lookup_insert_ne by done. apply (phase_wf_grows f _ (sy_answers s)); [done|set_solver|apply Hp].
Qed.

Lemma served_more l more c : served_wf l c → served_wf (l ++ more) c.
Proof. intros [? Ha]. split; [done|]. intros Hlt. destruct (Ha Hlt) as (a & ? & ?). exists a. set_solver. Qed.

Lemma fmap_self (cs : list Cluster) : (λ c, c) <$> cs = cs.
Proof. apply list_fmap_id. Qed.

Lemma wf_same s h p ls st :
  sys_wf s → phase_wf (sy_clusters s) (sy_answers s) p →
  sys_wf (put (set_leases s ls) h {| wr_stopped := st; wr_phase := p |}).
Proof.
  intros Hs Hp. pose proof (wf_next s (λ c, c) [] h p ls Hs grows_id) as Hn.
  rewrite fmap_self, app_nil_r in Hn. unfold log, set_clusters in Hn. simpl in Hn. rewrite app_nil_r in Hn.
  apply Hn; [apply Hs|done].
Qed.

Lemma wf_rows s f :
  sys_wf s → grows f → (∀ c, c ∈ sy_clusters s → served_wf (sy_answers s) (f c)) → sys_wf (set_clusters s (f <$> sy_clusters s)).
Proof.
  intros [Hs Hp] Hf Hserved. split; simpl.
  - intros c (x & -> & Hx)%list_elem_of_fmap. by apply Hserved.
  - intros h. by apply (phase_wf_grows f _ (sy_answers s)), Hp.
Qed.

Section theory.
Context `{Locale} (intervalMs leaseMs : Z).

Lemma due_due_wf before cs : NoDup (wc_id <$> cs) → Forall (due_wf cs) (due before cs).
Proof.
  intros Hnd. apply Forall_forall. intros d Hd. unfold due in Hd.
  apply list_elem_of_fmap in Hd as (c & -> & Hc). apply elem_of_js_sort, elem_of_js_filter in Hc as [Hc _].
  intros c' Hc' Hid. simpl in Hid.
  apply list_elem_of_lookup in Hc as [i Hi], Hc' as [j Hj].
  assert (i = j) as ->.
  { eapply (NoDup_lookup _ _ _ (wc_id c) Hnd); rewrite list_lookup_fmap; [by rewrite Hi|rewrite Hj; simpl; by f_equal]. }
  simplify_eq. simpl. lia.
Qed.

Lemma turn_ids s h now ok : (wc_id <$> sy_clusters (turn intervalMs leaseMs s h now ok)) = (wc_id <$> sy_clusters s).
Proof.
  assert (∀ (b : Cluster → bool) f, (∀ c, wc_id (f c) = wc_id c) →
            (wc_id <$> ((λ c, if b c then f c else c) <$> sy_clusters s)) = (wc_id <$> sy_clusters s)) as Hm.
  { intros b f Hf. rewrite <-list_fmap_compose. apply list_fmap_ext. intros i c _. simpl. by destruct (b c). }
  unfold turn. destruct (wr_phase (replica s h)) as [| |[|c rest]|c rest b off|c rest]; simpl; try done.
  - destruct (wr_stopped _); [done|]. destruct (acquireLease _ _ _ _ _). done.
  - by apply Hm.
  - destruct (wr_stopped _); [done|]. destruct (acquireLease _ _ _ _ _). done.
  - destruct (ok && negb off); [by apply Hm|done].
  - by apply Hm.
Qed.

Lemma grows_answered g : grows (answered g). Proof. done. Qed.
Lemma grows_finished now : grows (finished now). Proof. done. Qed.
Lemma grows_dropped : grows dropped. Proof. done. Qed.
Lemma grows_requested : grows requested. Proof. intros c. simpl. split; [done|lia]. Qed.
Lemma grows_disable off : grows (disable off). Proof. done. Qed.

Lemma phase_of s h p : sys_wf s → wr_phase (replica s h) = p → phase_wf (sy_clusters s) (sy_answers s) p.
Proof. intros Hs <-. apply Hs. Qed.

Lemma turn_wf s h now ok :
  NoDup (wc_id <$> sy_clusters s) → sys_wf s → sys_wf (turn intervalMs leaseMs s h now ok).
Proof.
  intros Hnd Hs. unfold turn. destruct (wr_phase (replica s h)) as [| |[|d rest]|d rest began off|d rest] eqn:Ep;
    pose proof (phase_of s h _ Hs Ep) as Hp; simpl in Hp.
  - destruct (wr_stopped _); [done|]. destruct (acquireLease _ _ _ _ _) as [ls got].
    apply (wf_same s h _ ls); [done|]. by destruct got.
  - apply (wf_same s h _ (sy_leases s)); [done|]. by apply due_due_wf.
  - apply (wf_next s _ _ h Resting (sy_leases s)); [done|by apply grows_on| |done].
    intros c Hc. destruct (wc_disabled c && wc_requested c) eqn:Eb; [|by apply served_more, Hs].
    split; simpl; [lia|]. intros _. exists (Dropped (wc_id c) (wc_generation c)). split; [|done].
    apply elem_of_app; right. apply list_elem_of_fmap. exists c. split; [done|]. by apply elem_of_js_filter.
  - apply Forall_cons in Hp as [Hd Hrest].
    destruct (wr_stopped _); [by apply (wf_same s h _ (sy_leases s))|].
    destruct (acquireLease _ _ _ _ _) as [ls got]. apply (wf_same s h _ ls); [done|].
    destruct got; [|done]. simpl. unfold js_find.
    destruct (js_find (λ x, bool_decide (wc_id x = d.1)) (sy_clusters s)) as [row|] eqn:Er; unfold js_find in Er; rewrite Er; simpl.
    + apply js_find_some in Er as [Hrow Hid]. apply bool_decide_eq_true in Hid. split_and!; [| |done].
      * intros x Hx Hxid. by apply (Hd row).
      * intros x Hx Hxid. apply list_elem_of_lookup in Hrow as [i Hi], Hx as [j Hj].
        assert (i = j) as ->.
        { eapply (NoDup_lookup _ _ _ (wc_id row) Hnd); rewrite list_lookup_fmap;
            [by rewrite Hi|rewrite Hj; simpl; congruence]. }
        by simplify_eq.
    + split_and!; [by intros ???| |done]. intros x Hx Hxid. by apply Hd.
  - destruct Hp as (H1 & H2 & Hrest).
    assert (∀ f, grows f → (∀ c, wc_reconciled (f c) = wc_reconciled c ∧ wc_generation (f c) = wc_generation c) →
      sys_wf (at_phase (log (set_clusters s (f <$> sy_clusters s)) [Passed d.1 began]) h (Answering d rest))) as Hgo.
    { intros f Hf Heq. apply (wf_next s f _ h (Answering d rest) (sy_leases s)); [done|done| |].
      - intros c Hc. destruct (Heq c) as [E1 E2]. destruct (served_more _ [Passed d.1 began] _ (wf_served _ Hs _ Hc)) as [? Ha].
        split; rewrite ?E1, ?E2; [done|]. intros Hlt. destruct (Hf c) as [-> _]. by apply Ha.
      - simpl. split.
        + apply (of_id_map f _ _ (λ x, d.2 ≤ began ∧ began ≤ wc_generation x)%nat);
            [intros x; apply Hf| |intros x Hx Hid; exact (conj (H1 x Hx Hid) (H2 x Hx Hid))].
          simpl. intros x [??]. destruct (Hf x) as [_ ?]. split; [lia|].
          exists (Passed d.1 began). simpl. split; [set_solver|done].
        + eapply Forall_impl; [exact Hrest|]. intros d'. by apply due_wf_grows. }
    destruct (ok && negb off); [|].
    + apply Hgo; [by apply grows_on|]. intros c. by destruct (bool_decide _).
    + rewrite <-(fmap_self (sy_clusters s)). by apply Hgo.
  - destruct Hp as [H1 Hrest].
    assert (sys_wf (set_clusters s (on_cluster d.1 (answered d.2) (sy_clusters s)))) as Hs'.
    { apply wf_rows; [done|by apply grows_on|]. intros c Hc. case_bool_decide as Hid; [|by apply Hs].
      destruct (H1 c Hc Hid) as [Hle Ha]. split; simpl; [done|]. intros _. by rewrite Hid. }
    apply (wf_same (set_clusters s (on_cluster d.1 (answered d.2) (sy_clusters s))) h _ (sy_leases s)); [done|]. simpl.
    eapply Forall_impl; [exact Hrest|]. intros d'. by apply due_wf_grows, grows_on.
Qed.

Lemma event_wf s e :
  NoDup (wc_id <$> sy_clusters s) → sys_wf s → sys_wf (event intervalMs leaseMs s e).
Proof.
  intros Hnd Hs. destruct e as [target placed|h now ok|h|h|id off]; simpl.
  - apply wf_rows; [done|apply grows_on, grows_requested|]. intros c Hc.
    destruct (wf_served _ Hs _ Hc) as [Hle Ha]. destruct (match target with Ids _ => _ | All => _ | OfTenant _ => _ end); [|done].
    split; simpl; [lia|done].
  - by apply turn_wf.
  - apply (wf_same s h _ (sy_leases s)); [done|]. exact (wf_phase _ Hs h).
  - destruct (wr_phase (replica s h)) eqn:E; [|done..]. destruct (wr_stopped _); [|done].
    destruct Hs as [Hs Hp]. by split.
  - apply wf_rows; [done|apply grows_on, grows_disable|]. intros c Hc.
    case_bool_decide; exact (wf_served _ Hs c Hc).
Qed.

Lemma event_ids s e : (wc_id <$> sy_clusters (event intervalMs leaseMs s e)) = (wc_id <$> sy_clusters s).
Proof.
  destruct e as [target placed|h now ok|h|h|id off]; simpl; [| |done| |].
  - unfold requestReconcile. rewrite <-list_fmap_compose. apply list_fmap_ext. intros i c _. simpl. by case_match.
  - apply turn_ids.
  - destruct (wr_phase _); try done. by destruct (wr_stopped _).
  - unfold on_cluster. rewrite <-list_fmap_compose. apply list_fmap_ext. intros i c _. simpl. by case_bool_decide.
Qed.

Lemma run_wf es s :
  NoDup (wc_id <$> sy_clusters s) → sys_wf s → sys_wf (run intervalMs leaseMs s es).
Proof.
  revert s. induction es as [|e es IH]; intros s Hnd Hs; simpl; [done|].
  apply IH; [by rewrite event_ids|by apply event_wf].
Qed.

Lemma start_wf cs ls : (∀ c, c ∈ cs → wc_reconciled c = 0%nat) → sys_wf (start cs ls).
Proof.
  intros H0. split; simpl.
  - intros c Hc. split; rewrite (H0 c Hc); lia.
  - intros h. unfold replica. simpl. by rewrite lookup_empty.
Qed.

(** C9: whatever replicas, callers and administrators do and in whatever order, a request counts as
    served only once a pass over its cluster that began after the request has ended, or the
    cluster was disabled when its requests were dropped. Until then the cluster stays due. *)
Theorem request_served_after cs ls es
    (Hids : NoDup (wc_id <$> cs)) (Hnew : ∀ c, c ∈ cs → wc_reconciled c = 0%nat) :
  let s := run intervalMs leaseMs (start cs ls) es in
  ∀ c k, c ∈ sy_clusters s → (0 < k ≤ wc_generation c)%nat →
    (∃ a, a ∈ sy_answers s ∧ answer_of (wc_id c) k a)
    ∨ (∀ before, wc_disabled c = false → (wc_id c, wc_generation c) ∈ due before (sy_clusters s)).
Proof.
  intros s c k Hc Hk.
  destruct (wf_served s (run_wf es (start cs ls) Hids (start_wf cs ls Hnew)) c Hc) as [Hle Ha].
  destruct (decide (k ≤ wc_reconciled c)%nat) as [Hd|Hd].
  - left. destruct Ha as (a & Hin & Haa); [lia|]. exists a. split; [done|]. 
    destruct a, Haa; (split; [done|lia]).
  - right. intros before Hoff. unfold due. apply list_elem_of_fmap. exists c. split; [done|].
    apply elem_of_js_sort, elem_of_js_filter. split; [done|]. unfold is_due. rewrite Hoff. simpl.
    apply orb_true_iff. left. apply Nat.ltb_lt. lia.
Qed.

(** ** An undisturbed pass serves everything *)

(** Every cluster in use has been served up to now, or is still to be visited. *)
Definition to_visit (cs : list Cluster) (rest : list Due) : Prop :=
  ∀ c, c ∈ cs → wc_disabled c = false → (wc_generation c ≤ wc_reconciled c)%nat ∨ (wc_id c, wc_generation c) ∈ rest.
Definition current (cs : list Cluster) (d : Due) : Prop :=
  of_id cs d.1 (λ c, wc_generation c = d.2 ∧ wc_disabled c = false).

(** Everyone is served, and nothing is left of requests for disabled clusters. *)
Definition all_served (cs : list Cluster) : Prop :=
  ∀ c, c ∈ cs → (wc_disabled c = false → wc_generation c ≤ wc_reconciled c)%nat
                ∧ (wc_disabled c = true → wc_requested c = false).

Lemma due_current before cs : NoDup (wc_id <$> cs) → Forall (current cs) (due before cs) ∧ to_visit cs (due before cs).
Proof.
  intros Hnd. unfold due. split.
  - apply Forall_forall. intros d (c & -> & Hc)%list_elem_of_fmap.
    apply elem_of_js_sort, elem_of_js_filter in Hc as [Hc Hdue]. unfold is_due in Hdue.
    apply andb_prop in Hdue as [Hoff _]. apply negb_true_iff in Hoff.
    intros x Hx Hid. simpl in *. apply list_elem_of_lookup in Hc as [i Hi], Hx as [j Hj].
    assert (i = j) as ->.
    { eapply (NoDup_lookup _ _ _ (wc_id c) Hnd); rewrite list_lookup_fmap; [by rewrite Hi|rewrite Hj; simpl; by f_equal]. }
    by simplify_eq.
  - intros c Hc Hoff. destruct (is_due before c) eqn:E.
    + right. apply list_elem_of_fmap. exists c. split; [done|]. apply elem_of_js_sort. by apply elem_of_js_filter.
    + left. unfold is_due in E. rewrite Hoff in E. simpl in E. apply orb_false_iff in E as [E _].
      by apply Nat.ltb_ge in E.
Qed.

(** [h]'s next turns, with nothing in between. *)
Definition turns (h : string) (s : Sys) (l : list (Z * bool)) : Sys :=
  foldl (λ s x, turn intervalMs leaseMs s h x.1 x.2) s l.

Lemma acquire_own ls h now :
  (∃ e, ls !! RECONCILER = Some (h, e)) → ∃ ls', acquireLease ls RECONCILER h leaseMs now = (ls', true)
  ∧ ∃ e, ls' !! RECONCILER = Some (h, e).
Proof.
  intros [e He]. unfold acquireLease. rewrite He, (bool_decide_eq_true_2 (h = h)) by done. simpl.
  eexists. split; [done|]. eexists. apply lookup_insert_eq.
Qed.

Lemma replica_put s h r : replica (put s h r) h = r.
Proof. unfold replica. simpl. by rewrite lookup_insert_eq. Qed.

Lemma replica_at s h p : replica (at_phase s h p) h = {| wr_stopped := wr_stopped (replica s h); wr_phase := p |}.
Proof. apply replica_put. Qed.
Lemma replica_rows s cs h : replica (set_clusters s cs) h = replica s h.
Proof. done. Qed.
Lemma replica_leases s ls h : replica (set_leases s ls) h = replica s h.
Proof. done. Qed.
Lemma replica_log s l h : replica (log s l) h = replica s h.
Proof. done. Qed.

Record visiting (h : string) (s : Sys) (rest : list Due) : Prop := {
  v_replica : replica s h = {| wr_stopped := false; wr_phase := Visiting rest |};
  v_lease : ∃ e, sy_leases s !! RECONCILER = Some (h, e);
  v_current : Forall (current (sy_clusters s)) rest;
  v_todo : to_visit (sy_clusters s) rest;
}.

Lemma visit_one h s d rest now1 ok1 now2 ok2 now3 ok3 :
  visiting h s (d :: rest) → visiting h (turns h s [(now1, ok1); (now2, ok2); (now3, ok3)]) rest.
Proof.
  intros [Hr Hl [Hd Hc]%Forall_cons Ht]. unfold turns. simpl.
  unfold turn at 3. rewrite Hr. simpl. destruct (acquire_own _ h now1 Hl) as (ls & -> & Hl').
  unfold turn at 2. unfold at_phase at 1. rewrite replica_put. simpl.
  unfold turn. unfold at_phase at 1. rewrite replica_put. simpl.
  set (f1 := λ c : Cluster, if bool_decide (wc_id c = d.1) then finished now2 c else c).
  set (row := js_find (λ x, bool_decide (wc_id x = d.1)) (sy_clusters s)).
  set (pass := ok2 && negb (default false (wc_disabled <$> row))).
  set (f := λ c : Cluster, let c := if pass then f1 c else c in if bool_decide (wc_id c = d.1) then answered d.2 c else c).
  assert (on_cluster d.1 (answered d.2) (if pass then on_cluster d.1 (finished now2) (sy_clusters s) else sy_clusters s)
          = f <$> sy_clusters s) as ->.
  { unfold f. destruct pass; [|done]. unfold on_cluster. by rewrite <-list_fmap_compose. }
  assert (∀ c, wc_id (f c) = wc_id c ∧ wc_generation (f c) = wc_generation c
               ∧ (wc_id c ≠ d.1 → f c = c) ∧ (wc_disabled (f c) = false ∨ wc_disabled (f c) = wc_disabled c)
               ∧ (wc_id c = d.1 → wc_reconciled (f c) = d.2)) as Hf.
  { intros c. unfold f, f1. destruct pass; repeat (case_bool_decide; simpl in * ); split_and!; try done; auto. }
  clearbody f. split.
  - by rewrite replica_at, replica_rows, replica_at, replica_log, replica_rows, replica_at, replica_leases, Hr.
  - done.
  - eapply Forall_impl; [exact Hc|]. intros d' Hd' c (x & -> & Hx)%list_elem_of_fmap Hid.
    destruct (Hf x) as (Hfi & Hfg & _ & Hfd & _). rewrite Hfi in Hid. destruct (Hd' x Hx Hid) as [Hg Ho].
    rewrite Hfg. split; [done|]. destruct Hfd as [|Hfd]; [done|]. by rewrite Hfd.
  - intros c (x & -> & Hx)%list_elem_of_fmap Hoff. destruct (Hf x) as (Hfi & Hfg & Hne & _ & Heq).
    rewrite Hfi, Hfg. destruct (decide (wc_id x = d.1)) as [Hid|Hid].
    + left. rewrite (Heq Hid). destruct (Hd x Hx Hid) as [-> _]. done.
    + rewrite (Hne Hid) in *. destruct (Ht x Hx Hoff) as [?|[Hin|?]%elem_of_cons]; [by left| |by right].
      destruct Hid. by rewrite <-Hin.
Qed.

Lemma visit_all h rest : ∀ s l, visiting h s rest → length l = (3 * length rest + 1)%nat →
  replica (turns h s l) h = {| wr_stopped := false; wr_phase := Resting |} ∧ all_served (sy_clusters (turns h s l)).
Proof.
  induction rest as [|d rest IH]; intros s l Hv Hl.
  - destruct l as [|[now ok] [|]]; [done| |done]. destruct Hv as [Hr _ _ Ht]. unfold turns. simpl.
    unfold turn. rewrite Hr. simpl. split; [by rewrite replica_at, replica_log, replica_rows, Hr|].
    intros c (x & -> & Hx)%list_elem_of_fmap. destruct (wc_disabled x) eqn:Ed; simpl.
    + destruct (wc_requested x) eqn:Er; simpl; [by split|]. rewrite Ed, Er. by split.
    + rewrite Ed. split; [|done]. intros _. destruct (Ht x Hx Ed) as [?|Hin]; [done|by apply elem_of_nil in Hin].
  - destruct l as [|[n1 o1] [|[n2 o2] [|[n3 o3] l]]]; simpl in Hl; try lia.
    apply (IH (turns h s [(n1, o1); (n2, o2); (n3, o3)]) l); [by apply (visit_one _ _ d)|lia].
Qed.

(** C33: a replica that gets the lease and runs its pass with nothing in between comes to rest after three
    calls for each due cluster and three more, and then every request has been served: no cluster in use
    has a generation above the one recorded, and no disabled cluster is marked as requested. *)
Theorem undisturbed_pass_serves_all h s now1 now2 ok1 ok2 l
    (Hids : NoDup (wc_id <$> sy_clusters s))
    (Hrest : replica s h = {| wr_stopped := false; wr_phase := Resting |})
    (Hlease : (acquireLease (sy_leases s) RECONCILER h leaseMs now1).2 = true) :
  length l = (3 * length (due (now2 - intervalMs) (sy_clusters s)) + 1)%nat →
  let s' := turns h s ((now1, ok1) :: (now2, ok2) :: l) in
  wr_phase (replica s' h) = Resting ∧ all_served (sy_clusters s').
Proof.
  intros Hl s'. assert (∃ ls, acquireLease (sy_leases s) RECONCILER h leaseMs now1 = (ls, true)
                              ∧ ∃ e, ls !! RECONCILER = Some (h, e)) as (ls & Hls & Hown).
  { revert Hlease. unfold acquireLease. destruct (sy_leases s !! RECONCILER) as [[h' e]|]; simpl;
      [destruct (_ || _); [|done]|]; intros _; (eexists; split; [done|]; eexists; apply lookup_insert_eq). }
  set (s2 := at_phase (at_phase (set_leases s ls) h Selecting) h (Visiting (due (now2 - intervalMs) (sy_clusters s)))).
  assert (s' = turns h s2 l) as ->.
  { unfold s', turns. simpl. f_equal. unfold turn at 2. rewrite Hrest. simpl. rewrite Hls.
    unfold turn. by rewrite replica_at. }
  destruct (due_current (now2 - intervalMs) (sy_clusters s) Hids) as [Hc Ht].
  assert (visiting h s2 (due (now2 - intervalMs) (sy_clusters s))) as Hv.
  { split; [|exact Hown|exact Hc|exact Ht]. unfold s2. by rewrite !replica_at, replica_leases, Hrest. }
  destruct (visit_all h _ s2 l Hv Hl) as [-> Hall]. by split.
Qed.
End theory.

(** ** Concrete runs *)

Definition demo_clusters : list Cluster :=
  [{| wc_id := "1"; wc_name := "b"; wc_disabled := false; wc_generation := 0; wc_reconciled := 0; wc_reconciledAt := None; wc_requested := false |};
   {| wc_id := "2"; wc_name := "a"; wc_disabled := true; wc_generation := 0; wc_reconciled := 0; wc_reconciledAt := None; wc_requested := false |}].

Lemma demo_ids : NoDup (wc_id <$> demo_clusters).
Proof. repeat constructor; set_solver. Qed.

(** A request, the pass up to its end, and a second request while it runs. *)
Definition demo_events : list Event :=
  [Request (Ids ["1"]) []; Turn "r1" 0 true; Turn "r1" 1 true; Turn "r1" 2 true; Request All []; Turn "r1" 3 true; Turn "r1" 4 true].

Lemma request_served_after_witness :
  let s := @run code_unit_locale 60000 30000 (start demo_clusters ∅) demo_events in
  (∃ a, a ∈ sy_answers s ∧ answer_of "1" 1 a)
  ∧ ("1", 2%nat) ∈ @due code_unit_locale 0 (sy_clusters s).
Proof.
  intros s.
  assert (∀ c, c ∈ demo_clusters → wc_reconciled c = 0%nat) as H0.
  { intros c [->|[->|Hc]%elem_of_cons]%elem_of_cons; [done|done|by apply elem_of_nil in Hc]. }
  pose proof (@request_served_after code_unit_locale 60000 30000 demo_clusters ∅ demo_events demo_ids H0) as Hmain.
  assert (∃ c, head (sy_clusters s) = Some c ∧ wc_id c = "1" ∧ wc_generation c = 2%nat ∧ wc_disabled c = false
               ∧ sy_answers s = [Passed "1" 1]) as (c & Hc & Hid & Hg & Hoff & Ha).
  { eexists. split; [reflexivity|]. by vm_compute. }
  assert (c ∈ sy_clusters s) as Hin.
  { destruct (sy_clusters s); [done|]. injection Hc as ->. by left. }
  destruct (Hmain c 1%nat Hin ltac:(lia)) as [H1|H1]; destruct (Hmain c 2%nat Hin ltac:(lia)) as [H2|H2]; rewrite Hid in *.
  - exfalso. destruct H2 as (a & Hx & Hy). fold s in Hx. rewrite Ha in Hx. apply list_elem_of_singleton in Hx as ->. simpl in Hy. lia.
  - split; [done|]. rewrite <-Hg. by apply H2.
  - exfalso. destruct H2 as (a & Hx & Hy). fold s in Hx. rewrite Ha in Hx. apply list_elem_of_singleton in Hx as ->. simpl in Hy. lia.
  - split; [|rewrite <-Hg; by apply H2]. rewrite Ha. eexists. split; [by left|]. done.
Defined.

Lemma undisturbed_pass_serves_all_witness :
  let s := set_clusters (start [] ∅) (requestReconcile All [] demo_clusters) in
  let s' := @turns code_unit_locale 60000 30000 "r1" s (replicate 6 (0, true)) in
  wr_phase (replica s' "r1") = Resting ∧ all_served (sy_clusters s').
Proof.
  intros s. exact (@undisturbed_pass_serves_all code_unit_locale 60000 30000 "r1" s 0 0 true true (replicate 4 (0, true))
                     ltac:(repeat constructor; set_solver) eq_refl eq_refl eq_refl).
Defined.
