(* ===== verification/JsNumber.v ===== *)
(** * JsNumber: [Number(s)] on integers

    The string to number conversion of ECMAScript, as far as the program asks
    whether the result is an integer. A decimal literal is taken exactly, where
    JavaScript rounds to the nearest double: the two agree on every literal of
    at most 15 significant digits. *)

From S2P Require Import Prelude JsString Digits.
Open Scope Z_scope.

Definition hex_val (c : Ascii.ascii) : option Z :=
  if is_digit c then Some (digit_val c)
  else if in_range "a"%char "f"%char c then Some (Z.of_N (Ascii.N_of_ascii c) - 87)
  else if in_range "A"%char "F"%char c then Some (Z.of_N (Ascii.N_of_ascii c) - 55)
  else None.

(** A literal in base [b] without its prefix. *)
Fixpoint radix_acc (b acc : Z) (s : string) : option Z :=
  match s with
  | EmptyString => Some acc
  | String c s => match hex_val c with
                  | Some v => if v <? b then radix_acc b (acc * b + v) s else None
                  | None => None
                  end
  end.
Definition radix (b : Z) (s : string) : option Z := if truthy_str s then radix_acc b 0 s else None.

(** [m * 10 ^ e] when it is an integer. *)
Definition scaled (m e : Z) : option Z :=
  if 0 <=? e then Some (m * 10 ^ e)
  else let d := 10 ^ (- e) in if m mod d =? 0 then Some (m / d) else None.

(** The sign in front, and what follows it. *)
Definition sign_of (s : string) : Z * string :=
  match s with
  | String c r => if char_is c "-" then (-1, r) else if char_is c "+" then (1, r) else (1, s)
  | EmptyString => (1, s)
  end.

(** The exponent part, empty or [e] with digits. *)
Definition exponent (s : string) : option Z :=
  match s with
  | EmptyString => Some 0
  | String c r =>
      if char_is c "e" || char_is c "E" then
        let '(sg, d) := sign_of r in
        if all_digits d then Some (sg * digits_val d) else None
      else None
  end.

(** The mantissa and exponent of an unsigned decimal literal. *)
Definition decimal (s : string) : option (Z * Z) :=
  let '(ip, r) := span is_digit s in
  let '(fp, r) := match r with
                  | String c r' => if char_is c "." then span is_digit r' else (EmptyString, r)
                  | EmptyString => (EmptyString, r)
                  end in
  if truthy_str ip || truthy_str fp
  then (λ e, (digits_val (ip +++ fp), e - Z.of_nat (String.length fp))) <$> exponent r
  else None.

(** [Number(s)] when [Number.isInteger] holds of it. *)
Definition integer_of (s : string) : option Z :=
  match trim s with
  | EmptyString => Some 0
  | String c (String x r) as t =>
      if char_is c "0" && (char_is x "x" || char_is x "X") then radix 16 r
      else if char_is c "0" && (char_is x "o" || char_is x "O") then radix 8 r
      else if char_is c "0" && (char_is x "b" || char_is x "B") then radix 2 r
      else let '(sg, d) := sign_of t in decimal d ≫= λ me, (Z.mul sg) <$> scaled me.1 me.2
  | t => let '(sg, d) := sign_of t in decimal d ≫= λ me, (Z.mul sg) <$> scaled me.1 me.2
  end.

(** ** Plain digits *)

Lemma span_all p s : str_forall p s = true → span p s = (s, EmptyString).
Proof.
  intros Hs. pose proof (span_append p s EmptyString Hs eq_refl) as Hsp.
  by rewrite append_nil_r in Hsp.
Qed.

Lemma trim_start_first c s : is_js_space c = false → trim_start (String c s) = String c s.
Proof. intros Hc. simpl. by rewrite Hc. Qed.

Lemma trim_end_id s : str_forall (λ c, negb (is_js_space c)) s = true → trim_end s = s.
Proof.
  induction s as [|c s IH]; simpl; [done|]. intros [Hc Hs]%andb_prop. rewrite (IH Hs).
  destruct s; [|done]. apply negb_true_iff in Hc. by rewrite Hc.
Qed.

Lemma trim_id s : str_forall (λ c, negb (is_js_space c)) s = true → trim s = s.
Proof.
  intros Hs. unfold trim. assert (trim_start s = s) as ->; [|by apply trim_end_id].
  destruct s; [done|]. simpl in Hs. apply andb_prop in Hs as [Hc _]. apply negb_true_iff in Hc.
  by apply trim_start_first.
Qed.

Lemma digits_no_space s : str_forall is_digit s = true → str_forall (λ c, negb (is_js_space c)) s = true.
Proof.
  induction s as [|c s IH]; simpl; [done|]. intros [Hc Hs]%andb_prop.
  by rewrite (is_digit_not_space c Hc), (IH Hs).
Qed.

Lemma decimal_digits s : all_digits s = true → decimal s = Some (digits_val s, 0).
Proof.
  unfold all_digits, decimal. intros [Hn Hd]%andb_prop. rewrite span_all by done. simpl.
  by rewrite Hn, append_nil_r.
Qed.

Lemma is_digit_not c d : is_digit c = true → is_digit d = false → char_is c d = false.
Proof. intros Hc Hd. unfold char_is. apply bool_decide_eq_false. intros ->. congruence. Qed.

Lemma integer_of_digits s : all_digits s = true → integer_of s = Some (digits_val s).
Proof.
  intros Hs. pose proof Hs as Hs'. unfold all_digits in Hs'. apply andb_prop in Hs' as [Hn Hd].
  unfold integer_of. rewrite (trim_id s) by (by apply digits_no_space).
  destruct s as [|c [|x r]]; [done| |].
  - assert (sign_of (String c EmptyString) = (1, String c EmptyString)) as ->.
    { simpl in Hd. rewrite andb_true_r in Hd. unfold sign_of. by rewrite !is_digit_not. }
    rewrite decimal_digits by done. simpl. unfold scaled. simpl. f_equal. lia.
  - simpl in Hd. apply andb_prop in Hd as [Hc Hd]. apply andb_prop in Hd as [Hx Hd].
    rewrite !(is_digit_not x) by done. rewrite !andb_false_r.
    assert (sign_of (String c (String x r)) = (1, String c (String x r))) as ->.
    { unfold sign_of. by rewrite !is_digit_not. }
    rewrite decimal_digits by done. cbn -[digits_val Z.mul]. unfold scaled. simpl (0 <=? 0). f_equal. lia.
Qed.
