(* ===== verification/MetalLB.v ===== *)
(** * MetalLB: service addresses for workload clusters

    Models [lib/metallb.ts] of the Kubernetes agent: IPv4 addresses and ranges,
    the pool manifest, the free block proposed on a network, the checks of a
    pool against other pools and the subnet, and the services listed. *)

From S2P Require Import Prelude JsString Digits Effects JsNumber.
Open Scope Z_scope.

(** ** IPv4 *)

(** [IPV4.exec]: four groups of one to three digits. *)
Definition octet_text (s : string) : bool := all_digits s && (String.length s <=? 3)%nat.

Definition ipToInt (ip : string) : option Z :=
  match split_on "." (trim ip) with
  | [a; b; c; d] =>
      if every octet_text [a; b; c; d] then
        let octets := digits_val <$> [a; b; c; d] in
        if some (λ o, 255 <? o) octets then None
        else Some (foldl (λ acc o, acc * 256 + o) 0 octets)
      else None
  | _ => None
  end.

(** [%] keeps the sign of its left operand. *)
Definition intToIp (n : Z) : string :=
  join "." ((λ shift, show_Z (Z.rem (n / 2 ^ shift) 256)) <$> [24; 16; 8; 0]).

Record IpRange := { start : Z; end_ : Z }.

Definition part (l : list string) (i : nat) : string := default EmptyString (l !! i).

Definition parseRange (value : string) : option IpRange :=
  let text := trim value in
  if has_char "-" text then
    let l := split_on "-" text in
    match ipToInt (part l 0), ipToInt (part l 1) with
    | Some s, Some e => if s <=? e then Some {| start := s; end_ := e |} else None
    | _, _ => None
    end
  else if has_char "/" text then
    let l := split_on "/" text in
    match ipToInt (part l 0), integer_of (part l 1) with
    | Some base, Some prefix =>
        if (prefix <? 0) || (32 <? prefix) then None
        else
          let size := 2 ^ (32 - prefix) in
          let s := base / size * size in
          Some {| start := s; end_ := s + size - 1 |}
    | _, _ => None
    end
  else (λ n, {| start := n; end_ := n |}) <$> ipToInt text.

Definition overlaps (a b : IpRange) : bool := (start a <=? end_ b) && (start b <=? end_ a).

(** ** The pool *)

Definition METALLB_NAMESPACE : string := "metallb-system".
Definition METALLB_POOL : string := "incendio".

(** What [MetalLBBody] accepts. *)
Definition valid_body (addresses : list string) : bool :=
  (1 <=? length addresses)%nat && (length addresses <=? 16)%nat
  && every (λ a, match parseRange a with Some _ => true | None => false end) addresses.

(** [JSON.stringify] of this value. *)
Definition buildPoolManifest (addresses : list string) : Json :=
  let meta := JObj [("name", JStr METALLB_POOL); ("namespace", JStr METALLB_NAMESPACE)] in
  JObj [("apiVersion", JStr "v1"); ("kind", JStr "List");
        ("items", JArr
          [JObj [("apiVersion", JStr "metallb.io/v1beta1"); ("kind", JStr "IPAddressPool"); ("metadata", meta);
                 ("spec", JObj [("addresses", JArr ((λ a, JStr (trim a)) <$> addresses))])];
           JObj [("apiVersion", JStr "metallb.io/v1beta1"); ("kind", JStr "L2Advertisement"); ("metadata", meta);
                 ("spec", JObj [("ipAddressPools", JArr [JStr METALLB_POOL])])]])].

(** ** A free block *)

Record NetworkFacts := { cidr : string; reserved : list string; used : list string; taken : list string }.
Record Suggestion := { range : option string; subnet : string; warning : option string }.

Definition ranges_of (l : list string) : list IpRange :=
  l ≫= λ t, match parseRange t with Some r => [r] | None => [] end.
Definition at_ (n : Z) : IpRange := {| start := n; end_ := n |}.

Definition dhcp_of (facts : NetworkFacts) : list IpRange := reserved facts ≫= λ r, ranges_of (split_on "," r).

Definition blocked_of (facts : NetworkFacts) (net : IpRange) (gateway : Z) : list IpRange :=
  [at_ (start net); at_ (end_ net); at_ gateway] ++ dhcp_of facts ++ ranges_of (taken facts)
  ++ (used facts ≫= λ ip, match ipToInt ip with Some n => [at_ n] | None => [] end).

(** [for (let end = ...; end - size + 1 > subnetRange.start; end--)]: the loop ends for lack of fuel only
    when [fuel] is smaller than the subnet (see [search_spec]). *)
Fixpoint search (fuel : nat) (blocked : list IpRange) (low size e : Z) : option IpRange :=
  match fuel with
  | O => None
  | S fuel =>
      if low <? e - size + 1 then
        let candidate := {| start := e - size + 1; end_ := e |} in
        match js_find (λ b, overlaps b candidate) blocked with
        | None => Some candidate
        | Some hit => search fuel blocked low size (Z.min e (start hit) - 1)
        end
      else None
  end.

Definition suggestRange (facts : NetworkFacts) (size : Z) : Suggestion :=
  let l := split_on "/" (cidr facts) in
  match parseRange (cidr facts), ipToInt (part l 0) with
  | Some net, Some gateway =>
      let subnet := intToIp (start net) +++ "/" +++ default "32" (l !! 1%nat) in
      match search (Z.to_nat (end_ net - start net)) (blocked_of facts net gateway) (start net) size (end_ net - 1) with
      | Some c =>
          {| range := Some (intToIp (start c) +++ "-" +++ intToIp (end_ c)); subnet := subnet;
             warning := match dhcp_of facts with
                        | [] => Some "the network has no ipv4.dhcp.ranges, so its DHCP server may lease these addresses too; restrict ipv4.dhcp.ranges to keep them apart"
                        | _ => None
                        end |}
      | None =>
          {| range := None; subnet := subnet;
             warning := Some ("no free block of " +++ show_Z size +++ " addresses in " +++ subnet) |}
      end
  | _, _ => {| range := None; subnet := cidr facts; warning := Some "the network has no IPv4 subnet" |}
  end.

(** ** Checks of a pool *)

Definition overlapping (addresses taken : list string) : list string :=
  let takenRanges := ranges_of taken in
  js_filter (λ a, match parseRange a with Some r => some (overlaps r) takenRanges | None => false end) addresses.

Definition outsideSubnet (addresses : list string) (cidr : string) : list string :=
  match parseRange cidr with
  | None => []
  | Some net =>
      js_filter (λ a, match parseRange a with
                      | None => true
                      | Some r => (start r <? start net) || (end_ net <? end_ r)
                      end) addresses
  end.

(** [pickEndpointAddress] of [lib/network-hint.ts], on the network's facts. *)
Definition pickEndpointAddress (facts : NetworkFacts) : option string :=
  (λ r, part (split_on "-" r) 0) <$> range (suggestRange facts 1).

(** ** Services *)

Record ServicePort := { sp_port : option Z; sp_protocol : option string }.
Record Ingress := { in_ip : option string; in_hostname : option string }.
Record ServiceItem := {
  si_name : option string; si_namespace : option string; si_type : option string;
  si_ports : option (list ServicePort); si_ingress : option (list Ingress);
}.
Record LoadBalancerService := { lb_namespace : string; lb_name : string; lb_addresses : list string; lb_ports : list string }.

Definition to_service (s : ServiceItem) : LoadBalancerService :=
  {| lb_namespace := default EmptyString (si_namespace s); lb_name := default EmptyString (si_name s);
     lb_addresses := js_filter truthy_str
       ((λ i, match in_ip i with Some a => a | None => default EmptyString (in_hostname i) end) <$> default [] (si_ingress s));
     lb_ports := (λ p, (match sp_port p with Some n => show_Z n | None => "?" end) +++ "/" +++ default "TCP" (sp_protocol p))
                 <$> default [] (si_ports s) |}.

Definition loadBalancerServices (items : option (list ServiceItem)) : list LoadBalancerService :=
  to_service <$> js_filter (λ s, bool_decide (si_type s = Some "LoadBalancer")) (default [] items).

(** ** Addresses and their text *)

Definition is_ip (n : Z) : Prop := 0 ≤ n < 2 ^ 32.

Lemma octet_bounds s : octet_text s = true → 0 ≤ digits_val s.
Proof.
  unfold octet_text, all_digits. intros [[_ Hd]%andb_prop _]%andb_prop. unfold digits_val. by apply digits_acc_nonneg.
Qed.

Lemma ipToInt_inv s n : ipToInt s = Some n →
  ∃ a b c d, n = ((a * 256 + b) * 256 + c) * 256 + d ∧ 0 ≤ a < 256 ∧ 0 ≤ b < 256 ∧ 0 ≤ c < 256 ∧ 0 ≤ d < 256.
Proof.
  unfold ipToInt. destruct (split_on _ _) as [|a [|b [|c [|d [|]]]]]; try done.
  destruct (every octet_text [a; b; c; d]) eqn:Ho; [|done].
  destruct (some _ _) eqn:E; [done|]. intros [= <-].
  rewrite every_spec in Ho. rewrite some_false in E.
  assert (∀ x, x ∈ [a; b; c; d] → 0 ≤ digits_val x < 256) as Hx.
  { intros x Hx. split; [apply octet_bounds, Ho, Hx|].
    assert ((255 <? digits_val x) = false) as Hlt by (apply E; apply list_elem_of_fmap; eauto).
    apply Z.ltb_ge in Hlt. lia. }
  exists (digits_val a), (digits_val b), (digits_val c), (digits_val d). simpl.
  split; [ring|]. split_and!; apply Hx; set_solver.
Qed.

Lemma ipToInt_bounds s n : ipToInt s = Some n → is_ip n.
Proof. intros (a & b & c & d & -> & ? & ? & ? & ?)%ipToInt_inv. unfold is_ip. lia. Qed.

Lemma octets_short : every (λ n, (String.length (show_Z (Z.of_nat n)) <=? 3)%nat) (seq 0 256) = true.
Proof. by vm_compute. Qed.

Lemma octet_show o : 0 ≤ o < 256 → octet_text (show_Z o) = true.
Proof.
  intros Ho. unfold octet_text. rewrite all_digits_show by lia.
  assert (Z.to_nat o ∈ seq 0 256) as Hin by (apply elem_of_seq; lia).
  apply (proj1 (every_spec _ _) octets_short) in Hin. by rewrite Z2Nat.id in Hin by lia.
Qed.

Lemma show_no_char c z : 0 ≤ z → is_digit c = false → has_char c (show_Z z) = false.
Proof. intros Hz Hc. destruct (show_Z_spec z Hz) as (Hd & _). by apply (str_forall_no_char is_digit). Qed.

(** The four octets of an address. *)
Definition octets (n : Z) : list Z := (λ shift, Z.rem (n / 2 ^ shift) 256) <$> [24; 16; 8; 0].

Lemma octets_bounds n o : 0 ≤ n → o ∈ octets n → 0 ≤ o < 256.
Proof.
  intros Hn Ho. unfold octets in Ho. apply list_elem_of_fmap in Ho as (s & -> & Hs).
  apply Z.rem_bound_pos; [|lia]. apply Z.div_pos; [done|].
  by repeat (apply elem_of_cons in Hs as [->|Hs]; [done|]); apply elem_of_nil in Hs.
Qed.

Lemma intToIp_octets n : intToIp n = join "." (show_Z <$> octets n).
Proof. done. Qed.

Lemma show_octets_digits n : 0 ≤ n → Forall (λ s, octet_text s = true ∧ has_char "." s = false ∧ has_char "-" s = false
   ∧ has_char "/" s = false ∧ str_forall (λ c, negb (is_js_space c)) s = true) (show_Z <$> octets n).
Proof.
  intros Hn. apply Forall_fmap, Forall_forall. intros o Ho. apply octets_bounds in Ho; [|done]. simpl.
  split_and!; [by apply octet_show|by apply show_no_char; [lia|]..|].
  apply digits_no_space. by destruct (show_Z_spec o) as (? & _); [lia|].
Qed.

Lemma join_has_char c sep l :
  has_char c sep = false → Forall (λ s, has_char c s = false) l → has_char c (join sep l) = false.
Proof.
  intros Hs H. induction H as [|x l Hx Hl IH]; [done|]. destruct l; [done|].
  change (join sep (x :: s :: l)) with (x +++ sep +++ join sep (s :: l)).
  by rewrite !has_char_append, Hx, Hs, IH.
Qed.

Lemma join_forall p sep l :
  str_forall p sep = true → Forall (λ s, str_forall p s = true) l → str_forall p (join sep l) = true.
Proof.
  intros Hs H. induction H as [|x l Hx Hl IH]; [done|]. destruct l; [done|].
  change (join sep (x :: s :: l)) with (x +++ sep +++ join sep (s :: l)).
  by rewrite !str_forall_append, Hx, Hs, IH.
Qed.

Lemma intToIp_no_space n : 0 ≤ n → str_forall (λ c, negb (is_js_space c)) (intToIp n) = true.
Proof.
  intros Hn. rewrite intToIp_octets. apply join_forall; [done|].
  eapply Forall_impl; [by apply show_octets_digits|]. by intros x (? & ? & ? & ? & ?).
Qed.

Lemma intToIp_text n : 0 ≤ n →
  has_char "-" (intToIp n) = false ∧ has_char "/" (intToIp n) = false ∧ trim (intToIp n) = intToIp n.
Proof.
  intros Hn. pose proof (show_octets_digits n Hn) as Ho. rewrite intToIp_octets. split_and!.
  - apply join_has_char; [done|]. eapply Forall_impl; [exact Ho|]. by intros x (? & ? & ? & ? & ?).
  - apply join_has_char; [done|]. eapply Forall_impl; [exact Ho|]. by intros x (? & ? & ? & ? & ?).
  - rewrite <-intToIp_octets. by apply trim_id, intToIp_no_space.
Qed.

Lemma ipToInt_intToIp n : is_ip n → ipToInt (intToIp n) = Some n.
Proof.
  intros Hn. unfold is_ip in Hn. assert (0 ≤ n) as Hp by lia.
  unfold ipToInt. destruct (intToIp_text n Hp) as (_ & _ & ->). rewrite intToIp_octets.
  pose proof (show_octets_digits n Hp) as Ho.
  rewrite split_join; [|done|eapply Forall_impl; [exact Ho|]; by intros x (? & ? & ? & ? & ?)].
  unfold octets in *. csimpl in *. rewrite !Forall_cons in Ho.
  destruct Ho as ((H1 & _) & (H2 & _) & (H3 & _) & (H4 & _) & _).
  rewrite H1, H2, H3, H4. simpl (true && _).
  assert (∀ shift, shift ∈ [24; 16; 8; 0] →
    digits_val (show_Z (Z.rem (n / 2 ^ shift) 256)) = (n / 2 ^ shift) mod 256) as Hd.
  { intros shift Hs. assert (Z.rem (n / 2 ^ shift) 256 ∈ octets n) as Hin by (apply list_elem_of_fmap; eauto).
    apply octets_bounds in Hin; [|done]. rewrite digits_show by lia. apply Z.rem_mod_nonneg; [|lia].
    apply Z.div_pos; [done|]. by repeat (apply elem_of_cons in Hs as [->|Hs]; [done|]); apply elem_of_nil in Hs. }
  rewrite !Hd by set_solver. clear -Hn.
  assert (∀ x, (255 <? x mod 256) = false) as Hlt by (intros x; apply Z.ltb_ge; pose proof (Z.mod_pos_bound x 256); lia).
  rewrite !Hlt. simpl. f_equal. change (2 ^ 24) with 16777216. change (2 ^ 16) with 65536. change (2 ^ 8) with 256.
  rewrite Z.div_1_r. Z.to_euclidean_division_equations. lia.
Qed.

(** Addresses and numbers below 2^32 are in bijection: a number's text reads as that number, and what
    reads as a number is one of 32 bits. *)
Theorem ip_roundtrip n : is_ip n ↔ ipToInt (intToIp n) = Some n ∧ 0 ≤ n.
Proof.
  split; [intros Hn; split; [by apply ipToInt_intToIp|apply Hn]|]. by intros [?%ipToInt_bounds _].
Qed.

(** ** Ranges *)

Lemma parseRange_bounds t r : parseRange t = Some r → 0 ≤ start r ∧ start r ≤ end_ r ∧ end_ r < 2 ^ 32.
Proof.
  unfold parseRange. destruct (has_char "-" _).
  - destruct (ipToInt (part _ 0)) as [a|] eqn:Ea; [|done]. destruct (ipToInt (part _ 1)) as [b|] eqn:Eb; [|done].
    apply ipToInt_bounds in Ea, Eb. destruct (a <=? b) eqn:Hab; [|done]. intros [= <-]. simpl. unfold is_ip in *. lia.
  - destruct (has_char "/" _).
    + destruct (ipToInt (part _ 0)) as [a|] eqn:Ea; [|done]. destruct (integer_of _) as [p|]; [|done].
      apply ipToInt_bounds in Ea. unfold is_ip in Ea.
      destruct ((p <? 0) || (32 <? p)) eqn:Hp; [done|]. apply orb_false_iff in Hp as [Hp1 Hp2].
      apply Z.ltb_ge in Hp1, Hp2. intros [= <-]. simpl.
      set (size := 2 ^ (32 - p)). assert (0 < size) as Hs by (apply Z.pow_pos_nonneg; lia).
      assert (2 ^ p * size = 2 ^ 32) as Hm by (unfold size; rewrite <-Z.pow_add_r by lia; f_equal; lia).
      pose proof (Z.div_mod a size). pose proof (Z.mod_pos_bound a size Hs).
      assert (0 ≤ a / size) by (apply Z.div_pos; lia).
      assert (a / size < 2 ^ p) by (apply Z.div_lt_upper_bound; lia).
      split_and!; [by nia|lia|]. assert ((a / size + 1) * size ≤ 2 ^ p * size) by (apply Z.mul_le_mono_nonneg_r; lia). lia.
    + destruct (ipToInt _) as [a|] eqn:Ea; [|done]. simpl. intros [= <-]. apply ipToInt_bounds in Ea.
      simpl. unfold is_ip in Ea. lia.
Qed.

(** The text of a block reads as that block. *)
Lemma parseRange_text a b : 0 ≤ a → a ≤ b → b < 2 ^ 32 →
  parseRange (intToIp a +++ "-" +++ intToIp b) = Some {| start := a; end_ := b |}.
Proof.
  intros Ha Hab Hb. destruct (intToIp_text a) as (Ha1 & Ha2 & Ha3); [done|]. destruct (intToIp_text b) as (Hb1 & Hb2 & Hb3); [lia|].
  unfold parseRange. assert (trim (intToIp a +++ "-" +++ intToIp b) = intToIp a +++ "-" +++ intToIp b) as ->.
  { apply trim_id. by rewrite !str_forall_append, !intToIp_no_space by lia. }
  rewrite !has_char_append, Ha1. simpl (has_char "-" "-" || _). 
  assert (split_on "-" (intToIp a +++ "-" +++ intToIp b) = [intToIp a; intToIp b]) as ->.
  { change (split_on "-" (intToIp a +++ String "-" (intToIp b)) = [intToIp a; intToIp b]).
    by rewrite split_on_cons, split_on_no_char. }
  unfold part. simpl. rewrite !ipToInt_intToIp by (unfold is_ip; lia).
  by rewrite (proj2 (Z.leb_le a b)).
Qed.

(** ** The proposed block *)

Definition hit_by (blocked : list IpRange) (c : IpRange) : Prop := ∃ b, b ∈ blocked ∧ overlaps b c = true.
Definition block (size e : Z) : IpRange := {| start := e - size + 1; end_ := e |}.

(** The highest free block that ends at [e] or below and begins above [low]. *)
Definition highest (blocked : list IpRange) (low size e : Z) (r : option IpRange) : Prop :=
  match r with
  | Some c => ∃ e1, c = block size e1 ∧ e1 ≤ e ∧ low < e1 - size + 1 ∧ ¬ hit_by blocked c
                    ∧ ∀ e', e1 < e' ≤ e → hit_by blocked (block size e')
  | None => ∀ e', e' ≤ e → low < e' - size + 1 → hit_by blocked (block size e')
  end.

(** Below an obstacle nothing is skipped. *)
Lemma overlaps_between hit size e e' :
  overlaps hit (block size e) = true → start hit ≤ e' → e' ≤ e → overlaps hit (block size e') = true.
Proof.
  unfold overlaps. simpl. intros [H1 H2]%andb_prop ? ?. apply Z.leb_le in H1, H2.
  apply andb_true_intro. split; apply Z.leb_le; lia.
Qed.

Lemma highest_skip blocked low size e e' r :
  e' ≤ e → (∀ x, e' < x ≤ e → hit_by blocked (block size x)) →
  highest blocked low size e' r → highest blocked low size e r.
Proof.
  intros Hle Hskip. destruct r as [c|]; simpl.
  - intros (e1 & Hc & He & Hl & Hn & Hup). exists e1. split_and!; [done|lia|done|done|].
    intros x Hx. destruct (decide (x ≤ e')); [apply Hup; lia|apply Hskip; lia].
  - intros Hnone x Hx Hl. destruct (decide (x ≤ e')); [by apply Hnone|apply Hskip; lia].
Qed.

Lemma search_spec fuel blocked low size : ∀ e, 0 < size → e - low < Z.of_nat fuel →
  highest blocked low size e (search fuel blocked low size e).
Proof.
  induction fuel as [|fuel IH]; intros e Hs Hf; simpl.
  - intros e' He Hl. exfalso. lia.
  - destruct (low <? e - size + 1) eqn:El; [|apply Z.ltb_ge in El; intros e' He Hl; exfalso; lia].
    apply Z.ltb_lt in El. fold (block size e).
    destruct (js_find (λ b, overlaps b (block size e)) blocked) as [hit|] eqn:Eh.
    + apply js_find_some in Eh as [Hin Hov].
      assert (start hit ≤ e) as Hhit by (unfold overlaps in Hov; apply andb_prop in Hov as [Hov _]; by apply Z.leb_le in Hov).
      apply (highest_skip _ _ _ _ (Z.min e (start hit) - 1)); [lia| |apply IH; lia].
      intros x Hx. exists hit. split; [done|]. apply (overlaps_between _ _ e); [done|lia|lia].
    + exists e. split_and!; [done|lia|done| |intros; lia].
      intros (b & Hb & Hov). by rewrite (js_find_none _ _ Eh b Hb) in Hov.
Qed.

Lemma suggested facts size net gw :
  0 < size → parseRange (cidr facts) = Some net → ipToInt (part (split_on "/" (cidr facts)) 0) = Some gw →
  ∃ r, highest (blocked_of facts net gw) (start net) size (end_ net - 1) r
       ∧ range (suggestRange facts size) = (λ c, intToIp (start c) +++ "-" +++ intToIp (end_ c)) <$> r
       ∧ (∀ c, r = Some c → parseRange (intToIp (start c) +++ "-" +++ intToIp (end_ c)) = Some c).
Proof.
  intros Hs Hnet Hgw. unfold suggestRange. rewrite Hnet, Hgw.
  pose proof (search_spec (Z.to_nat (end_ net - start net)) (blocked_of facts net gw) (start net) size (end_ net - 1) Hs) as Hsp.
  destruct (parseRange_bounds _ _ Hnet) as (Hn1 & Hn2 & Hn3).
  assert (end_ net - 1 - start net < Z.of_nat (Z.to_nat (end_ net - start net))) as Hfuel by lia.
  specialize (Hsp Hfuel).
  destruct (search _ _ _ _ _) as [c|]; (eexists; split; [exact Hsp|]); simpl; [|by split].
  split; [done|]. intros c' [= <-]. destruct Hsp as (e1 & -> & He & Hl & _). simpl.
  apply parseRange_text; lia.
Qed.

(** The proposal is the highest block of [size] addresses strictly inside the subnet that touches neither
    the gateway, nor a DHCP or OVN range, nor another cluster's pool, nor an address in use, and its text reads
    as that block; without a proposal there is no such block. *)
Theorem suggestRange_highest facts size net gw (Hsize : 0 < size) :
  parseRange (cidr facts) = Some net → ipToInt (part (split_on "/" (cidr facts)) 0) = Some gw →
  let free e := start net < e - size + 1 ∧ e < end_ net ∧ ¬ hit_by (blocked_of facts net gw) (block size e) in
  match range (suggestRange facts size) with
  | Some t => ∃ e, parseRange t = Some (block size e) ∧ free e ∧ ∀ e', e < e' → ¬ free e'
  | None => ∀ e, ¬ free e
  end.
Proof.
  intros Hnet Hgw free. destruct (suggested facts size net gw Hsize Hnet Hgw) as (r & Hr & -> & Htext).
  destruct r as [c|].
  - specialize (Htext c eq_refl). simpl in *. rewrite Htext. destruct Hr as (e1 & -> & He & Hl & Hn & Hup). exists e1.
    split; [done|]. split; [unfold free; split_and!; [done|lia|done]|].
    intros e' He' (_ & Hlt & Hno). apply Hno, Hup. lia.
  - simpl. intros e (Hl & Hlt & Hno). apply Hno, Hr; [lia|done].
Qed.

(** A proposed range passes the agent's own checks: it overlaps no pool or endpoint that was taken into
    account, and it is not outside the subnet. *)
Theorem suggestion_accepted facts size t :
  0 < size → range (suggestRange facts size) = Some t →
  overlapping [t] (taken facts) = [] ∧ outsideSubnet [t] (cidr facts) = [] ∧ valid_body [t] = true.
Proof.
  intros Hs Ht. pose proof Ht as Ht'. unfold suggestRange in Ht'.
  destruct (parseRange (cidr facts)) as [net|] eqn:Hnet; [|done].
  destruct (ipToInt (part (split_on "/" (cidr facts)) 0)) as [gw|] eqn:Hgw; [|done]. clear Ht'.
  destruct (suggested facts size net gw Hs Hnet Hgw) as (r & Hr & Hrange & Htext). rewrite Ht in Hrange.
  destruct r as [c|]; [|done]. simpl in Hrange. injection Hrange as Et. specialize (Htext c eq_refl).
  simpl in Htext. rewrite <-Et in Htext. clear Et.
  destruct Hr as (e1 & -> & He & Hl & Hn & _). split_and!.
  - unfold overlapping. simpl. rewrite Htext.
    destruct (some _ _) eqn:E; [|done]. apply some_spec in E as (b & Hb & Hov). destruct Hn. exists b. split.
    + unfold blocked_of. rewrite !elem_of_app. tauto.
    + unfold overlaps in *. rewrite andb_comm. done.
  - unfold outsideSubnet. rewrite Hnet. simpl. rewrite Htext. simpl.
    rewrite (proj2 (Z.ltb_ge _ _)) by lia. by rewrite (proj2 (Z.ltb_ge _ _)) by lia.
  - unfold valid_body. simpl. by rewrite Htext.
Qed.

(** An address with a slash and nothing after it is read as the whole of IPv4 (the empty string is the number 0), and
    whatever follows a second dash is not looked at; the request accepts both. *)
Theorem malformed_ranges_accepted n m rest :
  is_ip n → is_ip m → n ≤ m → has_char "-" rest = false → str_forall (λ c, negb (is_js_space c)) rest = true →
  parseRange (intToIp n +++ "/") = Some {| start := 0; end_ := 2 ^ 32 - 1 |}
  ∧ parseRange (intToIp n +++ "-" +++ intToIp m +++ "-" +++ rest) = Some {| start := n; end_ := m |}.
Proof.
  intros Hn Hm Hnm Hrest Hspace. unfold is_ip in Hn, Hm.
  destruct (intToIp_text n) as (Hn1 & Hn2 & Hn3); [lia|]. destruct (intToIp_text m) as (Hm1 & Hm2 & Hm3); [lia|]. split.
  - unfold parseRange. assert (trim (intToIp n +++ "/") = intToIp n +++ "/") as ->.
    { apply trim_id. by rewrite str_forall_append, intToIp_no_space by lia. }
    rewrite !has_char_append, Hn1. simpl. rewrite orb_true_r.
    assert (split_on "/" (intToIp n +++ "/") = [intToIp n; EmptyString]) as ->.
    { change (split_on "/" (intToIp n +++ String "/" EmptyString) = [intToIp n; EmptyString]). by rewrite split_on_cons. }
    unfold part. simpl. rewrite ipToInt_intToIp by (unfold is_ip; lia).
    change (integer_of EmptyString) with (Some 0). simpl. rewrite Z.div_small by lia. done.
  - unfold parseRange. rewrite trim_id.
    2: { rewrite !str_forall_append, !intToIp_no_space by lia. done. }
    rewrite !has_char_append, Hn1. simpl (has_char "-" "-"). rewrite orb_true_r.
    assert (split_on "-" (intToIp n +++ "-" +++ intToIp m +++ "-" +++ rest) = [intToIp n; intToIp m; rest]) as ->.
    { change (split_on "-" (intToIp n +++ String "-" (intToIp m +++ String "-" rest)) = [intToIp n; intToIp m; rest]).
      by rewrite !split_on_cons, split_on_no_char. }
    unfold part. simpl. rewrite !ipToInt_intToIp by done. by rewrite (proj2 (Z.leb_le n m)).
Qed.

(** ** Concrete inputs *)

Definition demo_facts : NetworkFacts :=
  {| cidr := "10.0.0.1/24"; reserved := ["10.0.0.2-10.0.0.199, 10.0.0.240/29"]; used := ["10.0.0.230"]; taken := ["10.0.0.250-10.0.0.252"] |}.

Example demo_range : range (suggestRange demo_facts 20) = Some "10.0.0.210-10.0.0.229".
Proof. reflexivity. Qed.

Definition demo_net : IpRange := {| start := 167772160; end_ := 167772415 |}.

Lemma suggestRange_highest_witness :
  let blocked := blocked_of demo_facts demo_net 167772161 in
  ∃ e, parseRange "10.0.0.210-10.0.0.229" = Some (block 20 e)
       ∧ ∀ e', e < e' → ¬ (start demo_net < e' - 20 + 1 ∧ e' < end_ demo_net ∧ ¬ hit_by blocked (block 20 e')).
Proof.
  intros blocked.
  pose proof (suggestRange_highest demo_facts 20 demo_net 167772161 ltac:(lia) eq_refl eq_refl) as Hmain.
  rewrite demo_range in Hmain. destruct Hmain as (e & He & _ & Hup). by exists e.
Defined.

Lemma suggestion_accepted_witness :
  overlapping ["10.0.0.210-10.0.0.229"] (taken demo_facts) = []
  ∧ outsideSubnet ["10.0.0.210-10.0.0.229"] (cidr demo_facts) = [] ∧ valid_body ["10.0.0.210-10.0.0.229"] = true.
Proof. exact (suggestion_accepted demo_facts 20 "10.0.0.210-10.0.0.229" ltac:(lia) demo_range). Defined.

Lemma malformed_ranges_accepted_witness :
  parseRange "10.0.0.5/" = Some {| start := 0; end_ := 4294967295 |}
  ∧ parseRange "10.0.0.5-10.0.0.5-anything" = Some {| start := 167772165; end_ := 167772165 |}.
Proof.
  assert (is_ip 167772165) as Hip by (unfold is_ip; lia).
  exact (malformed_ranges_accepted 167772165 167772165 "anything" Hip Hip ltac:(lia) eq_refl eq_refl).
Defined.
