(* ===== verification/Throttle.v ===== *)
(** * Throttle: failed sign-ins in a sliding window

    Models [identity/throttle.ts]. The clock is an argument of each call. The
    specification is a history of failures per key, never forgotten; the class
    is shown to answer as the history does while its table has room, and never
    to be stricter than it when keys are evicted. *)

From S2P Require Import Prelude JsString.
Open Scope Z_scope.

(** ** The class *)

Record Options := { limit : nat; windowMs : Z; maxKeys : nat }.

Abbreviation Hits := (js_map string (list Z)).
Abbreviation History := (string → list Z).

Section throttle.
Context (o : Options).

Definition in_window (now t : Z) : bool := now - windowMs o <? t.

Definition recent (hits : Hits) (now : Z) (key : string) : Hits * list Z :=
  let kept := js_filter (in_window now) (default [] (map_get hits key)) in
  (match kept with [] => map_delete hits key | _ => map_set hits key kept end, kept).

(** [Math.ceil(ms / 1000)] *)
Definition seconds (ms : Z) : Z := - ((- ms) / 1000).

Definition retry_one (now : Z) (acc : Hits * Z) (k : string) : Hits * Z :=
  let '(hits, r) := recent acc.1 now k in
  if (limit o <=? length r)%nat
  then (hits, Z.max acc.2 (seconds (default 0 (r !! (length r - limit o)%nat) + windowMs o - now)))
  else (hits, acc.2).

Definition retryAfterS (hits : Hits) (now : Z) (keys : list string) : Hits * Z := foldl (retry_one now) (hits, 0) keys.

Definition evict (hits : Hits) (k : string) : Hits :=
  if negb (map_has hits k) && (maxKeys o <=? length hits)%nat
  then match hits with [] => hits | (oldest, _) :: _ => map_delete hits oldest end
  else hits.

Definition fail_one (now : Z) (hits : Hits) (k : string) : Hits :=
  let '(hits, r) := recent (evict hits k) now k in map_set hits k (r ++ [now]).

Definition fail (hits : Hits) (now : Z) (keys : list string) : Hits := foldl (fail_one now) hits keys.
Definition clear (hits : Hits) (keys : list string) : Hits := foldl map_delete hits keys.

(** Calls of the class, in the order they are made. *)
Inductive Op := Retry (keys : list string) (now : Z) | Fail_ (keys : list string) (now : Z) | Clear (keys : list string).
Definition op (hits : Hits) (x : Op) : Hits :=
  match x with
  | Retry keys now => (retryAfterS hits now keys).1
  | Fail_ keys now => fail hits now keys
  | Clear keys => clear hits keys
  end.
Definition run (hits : Hits) (l : list Op) : Hits := foldl op hits l.

(** ** The specification: every failure of a key since it was last cleared *)

Definition set_key (h : History) (k : string) (l : list Z) : History := λ k', if bool_decide (k' = k) then l else h k'.
Definition spec_op (h : History) (x : Op) : History :=
  match x with
  | Retry _ _ => h
  | Fail_ keys now => foldl (λ h k, set_key h k (h k ++ [now])) h keys
  | Clear keys => foldl (λ h k, set_key h k []) h keys
  end.
Definition spec_run (l : list Op) : History := foldl spec_op (λ _, []) l.

Definition in_time (now : Z) (l : list Z) : list Z := js_filter (in_window now) l.
End throttle.

Section theory.
Context (o : Options) (keyset : list string).

Abbreviation in_window := (in_window o).
Abbreviation in_time := (in_time o).

Lemma in_time_later now now' l : now ≤ now' → in_time now' (in_time now l) = in_time now' l.
Proof.
  intros Hle. unfold Throttle.in_time. rewrite js_filter_filter. apply js_filter_ext. intros x _.
  unfold Throttle.in_window. destruct (now' - windowMs o <? x) eqn:E; [|by rewrite andb_false_r].
  apply Z.ltb_lt in E. rewrite (proj2 (Z.ltb_lt _ _)); [done|lia].
Qed.

Lemma in_time_app now a b : in_time now (a ++ b) = in_time now a ++ in_time now b.
Proof. unfold Throttle.in_time, js_filter. apply List.filter_app. Qed.

(** The table agrees with the history on every key from [now] on. *)
Record agrees (now : Z) (m : Hits) (h : History) : Prop := {
  ag_wf : map_wf m;
  ag_keys : ∀ k, k ∈ m.*1 → k ∈ keyset;
  ag_same : ∀ k, in_time now (default [] (map_get m k)) = in_time now (h k);
}.

Lemma recent_get m now k k' : map_wf m →
  default [] (map_get (recent o m now k).1 k') = if bool_decide (k' = k) then in_time now (default [] (map_get m k)) else default [] (map_get m k').
Proof.
  intros Hwf. unfold recent. simpl. fold (in_time now (default [] (map_get m k))).
  destruct (in_time now (default [] (map_get m k))) as [|x l]; simpl.
  - rewrite map_get_delete by done. by case_bool_decide.
  - rewrite map_get_set. by case_bool_decide.
Qed.

Lemma recent_wf m now k : map_wf m → map_wf (recent o m now k).1.
Proof. intros Hwf. unfold recent. simpl. case_match; [by apply map_wf_delete|by apply map_wf_set]. Qed.

Lemma delete_keys (m : Hits) k x : x ∈ (map_delete m k).*1 → x ∈ m.*1.
Proof. intros Hx. eapply elem_of_sublist; [exact Hx|apply map_delete_keys]. Qed.

Lemma get_in_keys (m : Hits) k x l : map_get m k = Some (x :: l) → k ∈ m.*1.
Proof. intros Hg. destruct (decide (k ∈ m.*1)) as [|Hn]; [done|]. apply map_get_None in Hn. congruence. Qed.

Lemma recent_keys m now k x : x ∈ (recent o m now k).1.*1 → x ∈ m.*1.
Proof.
  unfold recent. simpl. destruct (js_filter _ _) as [|y l] eqn:E; [by apply delete_keys|].
  rewrite map_set_keys. case_bool_decide as Hk; [done|]. apply map_get_None in Hk. by rewrite Hk in E.
Qed.

Lemma recent_agrees now now' m h k : now ≤ now' → agrees now m h → agrees now' (recent o m now' k).1 h.
Proof.
  intros Hle [Hwf Hk Hs]. split; [by apply recent_wf|intros x Hx; by eapply Hk, recent_keys|].
  intros k'. rewrite recent_get by done. rewrite <-(in_time_later now now' (h k')) by done.
  rewrite <-Hs, in_time_later by done.
  case_bool_decide; subst; [|done]. by rewrite in_time_later.
Qed.

Lemma agrees_later now now' m h : now ≤ now' → agrees now m h → agrees now' m h.
Proof.
  intros Hle [Hwf Hk Hs]. split; [done|done|]. intros k.
  by rewrite <-(in_time_later now), Hs, in_time_later.
Qed.

Lemma retry_agrees keys : ∀ now now' acc h, now ≤ now' → agrees now acc.1 h → agrees now' (foldl (retry_one o now') acc keys).1 h.
Proof.
  induction keys as [|k keys IH]; intros now now' acc h Hle Ha; simpl; [by eapply agrees_later|].
  apply (IH now'); [done|]. unfold retry_one. pose proof (recent_agrees _ _ _ _ k Hle Ha) as Hr.
  destruct (recent o acc.1 now' k) as [m r]. by destruct (_ <=? _)%nat.
Qed.

(** Within the keys the table has room for, nothing is dropped. *)
Lemma evict_none m k :
  NoDup keyset → (length keyset ≤ maxKeys o)%nat → k ∈ keyset → map_wf m → (∀ k, k ∈ m.*1 → k ∈ keyset) → evict o m k = m.
Proof.
  intros Hnd Hlen Hk Hwf Hsub. unfold evict. destruct (negb (map_has m k) && _) eqn:E; [|done].
  apply andb_prop in E as [Hh Hl]. exfalso. unfold map_has in Hh.
  destruct (map_get m k) eqn:Hg; [done|]. apply map_get_None in Hg. apply Nat.leb_le in Hl.
  assert (length (k :: m.*1) ≤ length keyset)%nat as Hle.
  { apply NoDup_incl_length; [apply NoDup_ListNoDup; by constructor|].
    intros x Hx. apply list_elem_of_In. apply list_elem_of_In in Hx.
    apply elem_of_cons in Hx as [->|Hx]; [done|by apply Hsub]. }
  simpl in Hle. rewrite length_fmap in Hle. lia.
Qed.

Lemma fail_one_agrees now now' m h k :
  NoDup keyset → (length keyset ≤ maxKeys o)%nat → k ∈ keyset → now ≤ now' →
  agrees now m h → agrees now' (fail_one o now' m k) (set_key h k (h k ++ [now'])).
Proof.
  intros Hnd Hlen Hk Hle Ha. unfold fail_one. rewrite evict_none by (done || apply Ha).
  pose proof (recent_agrees _ _ _ _ k Hle Ha) as [Hwf Hsub Hs].
  pose proof (recent_get m now' k k (ag_wf _ _ _ Ha)) as Hget. rewrite bool_decide_eq_true_2 in Hget by done.
  assert ((recent o m now' k).2 = in_time now' (default [] (map_get m k))) as Hr by done.
  destruct (recent o m now' k) as [m' r]. simpl in *. subst r. split.
  - by apply map_wf_set.
  - intros x. rewrite map_set_keys. case_bool_decide; [apply Hsub|].
    intros [Hx|Hx%list_elem_of_singleton]%elem_of_app; [by apply Hsub|by subst].
  - intros k'. unfold set_key. rewrite map_get_set. case_bool_decide; subst; [|apply Hs].
    simpl. rewrite !in_time_app, in_time_later by done. f_equal.
    rewrite <-(in_time_later now now' (h k)) by done. rewrite <-(ag_same _ _ _ Ha), in_time_later by done. done.
Qed.

Lemma fail_agrees keys now' : NoDup keyset → (length keyset ≤ maxKeys o)%nat → (∀ k, k ∈ keys → k ∈ keyset) →
  ∀ now m h, now ≤ now' → agrees now m h →
  agrees now' (fail o m now' keys) (spec_op h (Fail_ keys now')).
Proof.
  intros Hnd Hlen. unfold fail. simpl. induction keys as [|k keys IH]; intros Hk now m h Hle Ha; simpl; [by eapply agrees_later|].
  apply (IH ltac:(intros; apply Hk; by right) now'); [done|]. apply (fail_one_agrees now); [done|done| |done|done].
  apply Hk. by left.
Qed.

Lemma clear_agrees keys : ∀ now m h, agrees now m h → agrees now (clear m keys) (spec_op h (Clear keys)).
Proof.
  unfold clear. simpl. induction keys as [|k keys IH]; intros now m h [Hwf Hk Hs]; simpl; [done|].
  apply IH. split; [by apply map_wf_delete|intros x Hx; by eapply Hk, delete_keys|].
  intros k'. unfold set_key. rewrite map_get_delete by done. by case_bool_decide.
Qed.

(** The calls are made in the order of their clocks, up to [until]. *)
Fixpoint timely (from : Z) (l : list Op) (until : Z) : Prop :=
  match l with
  | [] => from ≤ until
  | Retry _ now :: l => from ≤ now ∧ timely now l until
  | Fail_ _ now :: l => from ≤ now ∧ timely now l until
  | Clear _ :: l => timely from l until
  end.
(** The keys that fail. *)
Definition failing (l : list Op) : list string := l ≫= λ x, match x with Fail_ keys _ => keys | _ => [] end.

Lemma run_agrees l : NoDup keyset → (length keyset ≤ maxKeys o)%nat → (∀ k, k ∈ failing l → k ∈ keyset) → ∀ from until m h,
  timely from l until → agrees from m h → agrees until (run o m l) (foldl spec_op h l).
Proof.
  intros Hnd Hlen. induction l as [|x l IH]; intros Hks from until m h Ht Ha; [by eapply agrees_later|].
  change (failing (x :: l)) with (match x with Fail_ keys _ => keys | _ => [] end ++ failing l) in Hks.
  assert (∀ k, k ∈ failing l → k ∈ keyset) as Hks' by (intros k Hk; apply Hks, elem_of_app; by right).
  simpl in Ht |- *. destruct x as [keys now|keys now|keys].
  - destruct Ht as [Hle Ht]. apply (IH Hks' now); [done|]. unfold op, retryAfterS. by apply (retry_agrees keys from).
  - destruct Ht as [Hle Ht]. apply (IH Hks' now); [done|]. apply (fail_agrees keys now Hnd Hlen) with from; [|done..].
    intros k Hk. apply Hks, elem_of_app. by left.
  - apply (IH Hks' from); [done|]. by apply clear_agrees.
Qed.

Lemma agrees_start from : agrees from [] (λ _, []).
Proof. split; [apply map_wf_nil|intros k Hk; by apply elem_of_nil in Hk|done]. Qed.

(** ** What the answer means *)

Lemma retry_one_spec m now acc k :
  map_wf m →
  let kept := in_time now (default [] (map_get m k)) in
  retry_one o now (m, acc) k =
    ((recent o m now k).1,
     if (limit o <=? length kept)%nat
     then acc `max` seconds (default 0 (kept !! (length kept - limit o)%nat) + windowMs o - now) else acc).
Proof. intros Hwf kept. unfold retry_one. simpl. fold (in_time now (default [] (map_get m k))). fold kept. by destruct (_ <=? _)%nat. Qed.

(** The answer for one key, from its failures in the window. *)
Definition wait (now : Z) (kept : list Z) : Z :=
  if (limit o <=? length kept)%nat
  then 0 `max` seconds (default 0 (kept !! (length kept - limit o)%nat) + windowMs o - now) else 0.

Lemma retry_single m now k : map_wf m → (retryAfterS o m now [k]).2 = wait now (in_time now (default [] (map_get m k))).
Proof. intros Hwf. unfold retryAfterS. simpl. by rewrite retry_one_spec. Qed.

Lemma seconds_spec ms : 1000 * seconds ms - 1000 < ms ≤ 1000 * seconds ms.
Proof. unfold seconds. pose proof (Z.div_mod (- ms) 1000). pose proof (Z.mod_pos_bound (- ms) 1000). lia. Qed.

Lemma sorted_in_time now now' l : StronglySorted Z.le l → now ≤ now' →
  ∃ n, in_time now' l = drop n (in_time now l) ∧ (∀ x, x ∈ take n (in_time now l) → x ≤ now' - windowMs o)
       ∧ (∀ x, x ∈ drop n (in_time now l) → now' - windowMs o < x).
Proof.
  intros Hs Hle. rewrite <-(in_time_later now now' l) by done.
  assert (StronglySorted Z.le (in_time now l)) as Hs'.
  { unfold Throttle.in_time, js_filter. induction Hs as [|x l Hs IH Hx]; simpl; [constructor|].
    destruct (Throttle.in_window o now x); [|done]. constructor; [done|].
    apply Forall_forall. intros y Hy. rewrite Forall_forall in Hx. apply Hx.
    apply list_elem_of_In in Hy. apply list_elem_of_In. by eapply incl_filter. }
  induction Hs' as [|x l' Hs' IH Hx]; [exists 0%nat; split_and!; [done|by intros ? ?%elem_of_nil..]|].
  unfold Throttle.in_time at 1, js_filter. simpl. destruct (Throttle.in_window o now' x) eqn:E.
  - exists 0%nat. unfold Throttle.in_window in E. apply Z.ltb_lt in E. simpl. split_and!; [|by intros ? ?%elem_of_nil|].
    + f_equal. change (in_time now' l' = l'). unfold Throttle.in_time. apply js_filter_all. intros y Hy.
      rewrite Forall_forall in Hx. specialize (Hx y Hy). unfold Throttle.in_window. apply Z.ltb_lt. lia.
    + intros y [->|Hy]%elem_of_cons; [done|]. rewrite Forall_forall in Hx. specialize (Hx y Hy). lia.
  - unfold Throttle.in_window in E. apply Z.ltb_ge in E. destruct IH as (n & Hn & Ht & Hd). exists (S n).
    split_and!; [exact Hn| |exact Hd]. simpl. intros y [->|Hy]%elem_of_cons; [lia|by apply Ht].
Qed.

(** The failures of a key are recorded in the order they happened. *)
Definition hist_wf (now : Z) (h : History) : Prop := ∀ k, StronglySorted Z.le (h k) ∧ ∀ x, x ∈ h k → x ≤ now.

Lemma sorted_snoc l x : StronglySorted Z.le l → (∀ y, y ∈ l → y ≤ x) → StronglySorted Z.le (l ++ [x]).
Proof.
  induction 1 as [|y l Hs IH Hy]; intros Hx; simpl; [repeat constructor|]. constructor.
  - apply IH. intros z Hz. apply Hx. by right.
  - apply Forall_app. split; [done|]. repeat constructor. apply Hx. by left.
Qed.

Lemma spec_wf l : ∀ from until h, timely from l until → hist_wf from h → hist_wf until (foldl spec_op h l).
Proof.
  assert (∀ now now' h, now ≤ now' → hist_wf now h → hist_wf now' h) as Hlater.
  { intros now now' h Hle Hh k. destruct (Hh k) as [? Hx]. split; [done|]. intros x ?. specialize (Hx x). lia || (etrans; [by apply Hx|done]). }
  induction l as [|x l IH]; intros from until h Ht Hh; simpl in *; [by eapply Hlater|].
  destruct x as [keys now|keys now|keys].
  - destruct Ht as [Hle Ht]. apply (IH now); [done|by eapply Hlater].
  - destruct Ht as (Hle & Ht). apply (IH now); [done|]. simpl.
    apply (foldl_inv (hist_wf now)); [by eapply Hlater|]. intros h' k _ Hh' k'. unfold set_key.
    case_bool_decide; [subst|apply Hh']. destruct (Hh' k) as [Hs Hx]. split; [by apply sorted_snoc|].
    intros x [?| ->%list_elem_of_singleton]%elem_of_app; [by apply Hx|done].
  - apply (IH from); [done|]. simpl. apply (foldl_inv (hist_wf from)); [done|]. intros h' k _ Hh' k'. unfold set_key.
    case_bool_decide; [|apply Hh']. split; [constructor|by intros ? ?%elem_of_nil].
Qed.

Lemma wait_spec now l : (1 ≤ limit o)%nat → StronglySorted Z.le l →
  let w := wait now (in_time now l) in
  (0 < w ↔ (limit o ≤ length (in_time now l))%nat)
  ∧ ∀ now', now ≤ now' →
      ((limit o ≤ length (in_time now' l))%nat → now' < now + 1000 * w)
      ∧ (0 < w → now' ≤ now + 1000 * (w - 1) → (limit o ≤ length (in_time now' l))%nat).
Proof.
  intros Hlim Hs w. unfold w, wait. clear w. set (kept := in_time now l).
  destruct (limit o <=? length kept)%nat eqn:El.
  2: { apply Nat.leb_gt in El. split; [lia|]. intros now' Hle. split; [|lia].
       destruct (sorted_in_time now now' l Hs Hle) as (n & Hn & _ & _). fold kept in Hn. rewrite Hn, length_drop. lia. }
  apply Nat.leb_le in El.
  destruct (lookup_lt_is_Some_2 kept (length kept - limit o)) as [x Hx]; [lia|]. rewrite Hx. simpl default.
  pose proof (seconds_spec (x + windowMs o - now)) as Hsec.
  assert (now - windowMs o < x) as Hin.
  { assert (x ∈ kept) as Hk by (by eapply list_elem_of_lookup_2). apply elem_of_js_filter in Hk as [_ Hk].
    by apply Z.ltb_lt in Hk. }
  set (w := seconds (x + windowMs o - now)) in *. assert (0 < w) by lia. rewrite Z.max_r by lia.
  split; [by split|]. intros now' Hle.
  destruct (sorted_in_time now now' l Hs Hle) as (n & Hn & Ht & Hd). fold kept in Hn, Ht, Hd. rewrite Hn, length_drop.
  assert ((n ≤ length kept - limit o)%nat ↔ now' - windowMs o < x) as Hiff.
  { split; intros Hc.
    - apply Hd. apply (list_elem_of_lookup_2 _ (length kept - limit o - n)). rewrite lookup_drop. by rewrite Nat.add_comm, Nat.sub_add.
    - destruct (decide (n ≤ length kept - limit o)%nat) as [|Hgt]; [done|]. exfalso.
      assert (x ≤ now' - windowMs o); [|lia]. apply Ht. apply (list_elem_of_lookup_2 _ (length kept - limit o)).
      by rewrite lookup_take_lt by lia. }
  split; [intros; assert (now' - windowMs o < x) by (apply Hiff; lia); lia|].
  intros _ Hle'. assert (n ≤ length kept - limit o)%nat by (apply Hiff; lia). lia.
Qed.
(** ** Whatever is evicted: the table has the latest of the history *)

Lemma evict_wf m k : map_wf m → map_wf (evict o m k).
Proof.
  intros Hwf. unfold evict. destruct (_ && _); [|done]. destruct m as [|[x l] m]; [done|]. by apply map_wf_delete.
Qed.
(** Only the key that was entered first goes, and only for a new one when the table is full. *)
Lemma evict_get m k x : map_wf m →
  map_get (evict o m k) x =
    if bool_decide ((k ∉ m.*1) ∧ (maxKeys o ≤ length m)%nat ∧ head m.*1 = Some x) then None else map_get m x.
Proof.
  intros Hwf. unfold evict.
  assert ((map_has m k = false) ↔ (k ∉ m.*1)) as Hhas.
  { unfold map_has. rewrite <-map_get_None. by destruct (map_get m k). }
  destruct (negb (map_has m k) && (maxKeys o <=? length m)%nat) eqn:E.
  - apply andb_prop in E as [Hn%negb_true_iff%Hhas Hl%Nat.leb_le].
    destruct m as [|[y l] m]; [by rewrite bool_decide_eq_false_2 by (intros (_ & _ & ?); done)|].
    rewrite map_get_delete by done. destruct (decide (x = y)) as [->|Hx].
    + by rewrite !bool_decide_eq_true_2.
    + rewrite !bool_decide_eq_false_2; [done| |done]. intros (_ & _ & Hh). by simplify_eq/=.
  - rewrite bool_decide_eq_false_2; [done|]. intros (Hn%Hhas & Hl%Nat.leb_le & _). by rewrite Hn, Hl in E.
Qed.

Record within (now : Z) (m : Hits) (h : History) : Prop := {
  wi_wf : map_wf m;
  wi_suffix : ∀ k, in_time now (default [] (map_get m k)) `suffix_of` in_time now (h k);
}.

Lemma suffix_in_time now a b : a `suffix_of` b → in_time now a `suffix_of` in_time now b.
Proof. intros [c ->]. exists (in_time now c). apply in_time_app. Qed.
Lemma within_later now now' m h : now ≤ now' → within now m h → within now' m h.
Proof.
  intros Hle [Hwf Hs]. split; [done|]. intros k. rewrite <-(in_time_later now now' (h k)), <-(in_time_later now now' (default [] _)) by done.
  by apply suffix_in_time.
Qed.
Lemma recent_within now m h k : within now m h → within now (recent o m now k).1 h.
Proof.
  intros [Hwf Hs]. split; [by apply recent_wf|]. intros k'. rewrite recent_get by done.
  case_bool_decide; subst; [|done]. by rewrite in_time_later.
Qed.
Lemma retry_within keys : ∀ now acc h, within now acc.1 h → within now (foldl (retry_one o now) acc keys).1 h.
Proof.
  induction keys as [|k keys IH]; intros now acc h Hw; [done|]. simpl. apply IH. unfold retry_one.
  pose proof (recent_within _ _ _ k Hw) as Hr. destruct (recent o acc.1 now k) as [m r]. by destruct (_ <=? _)%nat.
Qed.
Lemma fail_one_within now m h k : within now m h → within now (fail_one o now m k) (set_key h k (h k ++ [now])).
Proof.
  intros [Hwf Hs].
  assert (within now (evict o m k) h) as He.
  { split; [by apply evict_wf|]. intros x. rewrite evict_get by done. case_bool_decide; [apply suffix_nil|apply Hs]. }
  destruct He as [Hwe Hse]. unfold fail_one.
  pose proof (recent_within _ _ _ k (Build_within _ _ _ Hwe Hse)) as [Hwr Hsr].
  assert ((recent o (evict o m k) now k).2 = in_time now (default [] (map_get (evict o m k) k))) as Hr by done.
  destruct (recent o (evict o m k) now k) as [m' r]. simpl in *. subst r. split; [by apply map_wf_set|].
  intros k'. unfold set_key. rewrite map_get_set. case_bool_decide; subst; [|apply Hsr].
  simpl. rewrite !in_time_app, in_time_later by done. by apply suffix_app.
Qed.
Lemma clear_within keys : ∀ now m h, within now m h → within now (clear m keys) (spec_op h (Clear keys)).
Proof.
  unfold clear. simpl. induction keys as [|k keys IH]; intros now m h [Hwf Hs]; [done|]. simpl.
  apply IH. split; [by apply map_wf_delete|]. intros k'. unfold set_key. rewrite map_get_delete by done.
  case_bool_decide; [apply suffix_nil|apply Hs].
Qed.
Lemma run_within l : ∀ from until m h, timely from l until → within from m h → within until (run o m l) (foldl spec_op h l).
Proof.
  induction l as [|x l IH]; intros from until m h Ht Hw; simpl in *; [by eapply within_later|].
  destruct x as [keys now|keys now|keys].
  - destruct Ht as [Hle Ht]. apply (IH now); [done|]. unfold op, retryAfterS. apply retry_within. by eapply within_later.
  - destruct Ht as [Hle Ht]. apply (IH now); [done|]. simpl. apply (within_later _ _ _ _ Hle) in Hw. clear IH Ht Hle. unfold fail.
    revert m h Hw. induction keys as [|k keys IH]; intros m h Hw; [done|]. simpl. apply IH. by apply fail_one_within.
  - apply (IH from); [done|]. by apply clear_within.
Qed.

(** A key that must wait for what the table has must wait as long for all that happened. *)
Lemma wait_suffix now a b : (1 ≤ limit o)%nat → a `suffix_of` b → 0 < wait now a → wait now a = wait now b.
Proof.
  intros Hlim [c ->] Hw. unfold wait in *. destruct (Nat.leb_spec (limit o) (length a)); [|lia].
  rewrite length_app, (proj2 (Nat.leb_le _ _)) by lia. do 4 f_equal.
  rewrite lookup_app_r by lia. by replace (length c + length a - limit o - length c)%nat with (length a - limit o)%nat by lia.
Qed.
End theory.

(** ** The table stays bounded *)

Section bounded.
Context (o : Options).

Lemma length_map_set (m : Hits) k l :
  length (map_set m k l) = if bool_decide (k ∈ m.*1) then length m else S (length m).
Proof.
  rewrite <-(length_fmap fst (map_set m k l)), map_set_keys. case_bool_decide; rewrite ?length_app, ?length_fmap; simpl; lia.
Qed.

Lemma length_map_delete (m : Hits) k : (length (map_delete m k) ≤ length m)%nat.
Proof. rewrite <-(length_fmap fst m), <-(length_fmap fst). apply sublist_length, map_delete_keys. Qed.

Definition small (m : Hits) : Prop := map_wf m ∧ (length m ≤ maxKeys o)%nat.

Lemma recent_small now m k : small m → small (recent o m now k).1.
Proof.
  intros [Hwf Hl]. split; [by apply recent_wf|]. unfold recent. simpl. destruct (js_filter _ _) as [|x r] eqn:E.
  - pose proof (length_map_delete m k). lia.
  - rewrite length_map_set. destruct (decide (k ∈ m.*1)) as [Hk|Hk]; [by rewrite bool_decide_eq_true_2|].
    apply map_get_None in Hk. by rewrite Hk in E.
Qed.

Lemma evict_small m k : (1 ≤ maxKeys o)%nat → small m →
  small (evict o m k) ∧ (map_has m k = false → S (length (evict o m k)) ≤ maxKeys o)%nat
  ∧ (map_has m k = true → evict o m k = m).
Proof.
  intros H1 [Hwf Hl]. unfold evict. destruct (map_has m k); simpl; [done|].
  destruct (maxKeys o <=? length m)%nat eqn:E; [|apply Nat.leb_gt in E; split; [done|split; [lia|done]]].
  apply Nat.leb_le in E. destruct m as [|[k0 l0] m]; simpl in *; [lia|].
  rewrite bool_decide_eq_true_2 by done. split; [|split; [lia|done]]. split; simpl in *; [|lia].
  unfold map_wf in *. by apply NoDup_cons in Hwf as [_ ?].
Qed.

Lemma fail_one_small now m k : (1 ≤ maxKeys o)%nat → small m → small (fail_one o now m k).
Proof.
  intros H1 Hs. destruct (evict_small m k H1 Hs) as (He & Hno & Hyes). unfold fail_one.
  pose proof (recent_small now (evict o m k) k He) as [Hrw Hrl].
  destruct (map_has m k) eqn:Hh.
  - rewrite (Hyes eq_refl) in *. assert (k ∈ m.*1) as Hk.
    { destruct (decide (k ∈ m.*1)) as [|Hk]; [done|]. apply map_get_None in Hk. unfold map_has in Hh. by rewrite Hk in Hh. }
    destruct Hs as [Hwf Hl].
    unfold recent in *. simpl in *. destruct (js_filter _ _) as [|x r]; (split; [by apply map_wf_set|]); rewrite length_map_set.
    + case_bool_decide; [done|]. apply (Nat.le_trans _ (length m)); [|done].
      rewrite <-(length_fmap fst m), <-(length_fmap fst (map_delete m k)).
      assert (length (k :: (map_delete m k).*1) ≤ length m.*1)%nat as Hle; [|exact Hle].
      apply NoDup_incl_length; [apply NoDup_ListNoDup; constructor; [done|]; by apply map_wf_delete|].
      intros y Hy. apply list_elem_of_In. apply list_elem_of_In in Hy. apply elem_of_cons in Hy as [->|Hy]; [done|].
      by eapply delete_keys.
    + by case_bool_decide; [|rewrite map_set_keys in *; rewrite bool_decide_eq_true_2 in * by done].
  - specialize (Hno eq_refl). unfold recent in *. simpl in *.
    destruct (js_filter _ _) as [|x r]; (split; [by apply map_wf_set|]); rewrite length_map_set.
    + pose proof (length_map_delete (evict o m k) k). case_bool_decide; lia.
    + rewrite length_map_set in Hrl |- *. rewrite map_set_keys.
      repeat case_bool_decide; try lia. all: set_solver.
Qed.
End bounded.

(** Whatever is called and whenever, the table never holds more than [maxKeys] keys. *)
Theorem throttle_bounded o l : (1 ≤ maxKeys o)%nat → (length (run o [] l) ≤ maxKeys o)%nat.
Proof.
  intros H1. assert (small o (run o [] l)) as [_ ?]; [|done].
  apply (foldl_inv (small o)); [split; [apply map_wf_nil|simpl; lia]|].
  intros m x _ Hm. destruct x as [keys now|keys now|keys]; simpl.
  - unfold retryAfterS. apply (foldl_inv (λ a, small o a.1)); [done|]. intros [m' z] k _ Hm'.
    pose proof (recent_small o now m' k Hm') as Hr. 
    rewrite retry_one_spec by apply Hm'. exact Hr.
  - apply (foldl_inv (small o)); [done|]. intros m' k _ Hm'. by apply fail_one_small.
  - apply (foldl_inv (small o)); [done|]. intros m' k _ [Hwf Hl]. split; [by apply map_wf_delete|].
    pose proof (length_map_delete m' k). lia.
Qed.

(** ** Properties *)

(** What a failure of [k] does to the table: the key that was entered first goes if [k] is new and the table full. *)
Lemma fail_get o m now k x : map_wf m → x ≠ k →
  map_get (fail o m now [k]) x =
    if bool_decide ((k ∉ m.*1) ∧ (maxKeys o ≤ length m)%nat ∧ head m.*1 = Some x) then None else map_get m x.
Proof.
  intros Hwf Hx. unfold fail, fail_one, recent. simpl. rewrite map_get_set, bool_decide_eq_false_2 by done.
  rewrite <-evict_get by done. destruct (js_filter _ _) as [|y l].
  - rewrite map_get_delete by by apply evict_wf. by rewrite bool_decide_eq_false_2.
  - by rewrite map_get_set, bool_decide_eq_false_2.
Qed.

(** C40: whatever is called and evicted, the throttle is never stricter than the history of all failures: a key that
    must wait has failed [limit] times within the window since it was last cleared, and waits the least number of whole
    seconds after which that is no longer so. As long as no more keys fail than the table has room for, it is never
    laxer either: every such key must wait. And the table never has more than [maxKeys] keys: a failure of a new key
    when it is full drops the failures of the key entered first, and no others. *)
Theorem throttle_refines_history o from l now k (Hlimit : (1 ≤ limit o)%nat) (Hmax : (1 ≤ maxKeys o)%nat) :
  timely from l now →
  let m := run o [] l in
  let w := (retryAfterS o m now [k]).2 in
  let blocked t := (limit o ≤ length (in_time o t (spec_run l k)))%nat in
  (0 < w → blocked now
     ∧ ∀ later, now ≤ later → (blocked later → later < now + 1000 * w) ∧ (later ≤ now + 1000 * (w - 1) → blocked later))
  ∧ (∀ keyset, NoDup keyset → (length keyset ≤ maxKeys o)%nat → (∀ x, x ∈ failing l → x ∈ keyset) → 0 < w ↔ blocked now)
  ∧ (length m ≤ maxKeys o)%nat
  ∧ ∀ x, x ≠ k → map_get (fail o m now [k]) x =
      if bool_decide ((k ∉ m.*1) ∧ (maxKeys o ≤ length m)%nat ∧ head m.*1 = Some x) then None else map_get m x.
Proof.
  intros Ht m w blocked.
  assert (hist_wf now (spec_run l)) as Hh.
  { apply (spec_wf l from now (λ _, []) Ht). intros k'. split; [constructor|by intros ? ?%elem_of_nil]. }
  assert (within o now m (spec_run l)) as [Hwf Hs].
  { apply (run_within o l from); [done|]. split; [apply map_wf_nil|intros k'; done]. }
  assert (w = wait o now (in_time o now (default [] (map_get m k)))) as Hw by by apply retry_single.
  split_and!.
  - intros Hpos. rewrite Hw in Hpos. pose proof (wait_suffix o now _ _ Hlimit (Hs k) Hpos) as Heq.
    rewrite Heq in Hpos. rewrite Hw, Heq. clear Hw Heq.
    destruct (wait_spec o now (spec_run l k) Hlimit) as [Hb Hl]; [apply Hh|]. split; [by apply Hb|].
    intros later Hle. destruct (Hl later Hle) as [H1 H2]. split; [done|]. intros Hlater. by apply H2.
  - intros keyset Hnd Hroom Hkeys. assert (agrees o keyset now m (spec_run l)) as Ha.
    { apply (run_agrees o keyset l Hnd Hroom Hkeys from); [done|apply agrees_start]. }
    rewrite Hw, (ag_same _ _ _ _ _ Ha). apply wait_spec; [done|apply Hh].
  - by apply throttle_bounded.
  - intros x Hx. by apply fail_get.
Qed.

(** ** Concrete calls *)

Definition demo_options : Options := {| limit := 2; windowMs := 1000; maxKeys := 3 |}.
Definition demo_calls : list Op := [Fail_ ["a"; "b"] 0; Fail_ ["a"] 100; Retry ["a"] 200].

Definition demo_full : list Op := demo_calls ++ [Fail_ ["c"] 300; Fail_ ["d"] 400].

(** A key that failed twice must wait; a fourth key makes the table forget it. *)
Lemma throttle_refines_history_witness :
  (retryAfterS demo_options (run demo_options [] demo_calls) 300 ["a"]).2 = 1
  ∧ (2 ≤ length (in_time demo_options 300 (spec_run demo_calls "a")))%nat
  ∧ map_get (fail demo_options (run demo_options [] demo_full) 500 ["e"]) "b" = None
  ∧ (retryAfterS demo_options (run demo_options [] demo_full) 500 ["a"]).2 = 0.
Proof.
  assert (timely 0 demo_calls 300) as Ht by (simpl; lia).
  assert (timely 0 demo_full 500) as Ht' by (simpl; lia).
  destruct (throttle_refines_history demo_options 0 demo_calls 300 "a" ltac:(simpl; lia) ltac:(simpl; lia) Ht) as (Hb & _).
  destruct (throttle_refines_history demo_options 0 demo_full 500 "e" ltac:(simpl; lia) ltac:(simpl; lia) Ht') as (_ & _ & _ & He).
  split_and!; [reflexivity|apply Hb; reflexivity| |reflexivity].
  rewrite (He "b" ltac:(discriminate)). vm_compute. reflexivity.
Defined.

Lemma throttle_bounded_witness : (length (run demo_options [] (replicate 2 (Fail_ ["a"; "b"; "c"; "d"] 0))) ≤ 3)%nat.
Proof. apply (throttle_bounded demo_options). simpl. lia. Defined.
