(* ===== verification/SignIn.v ===== *)
(** * SignIn: signing in, with a password or through an identity provider

    Models [identity/federation.ts], [identity/passwords.ts] and the sign-in of
    [identity/routes.ts]: which account an upstream identity is, the group
    memberships that its claims give, and what a login checks before Hydra is
    told to accept it. Tables are lists of rows; sealing, the verification of
    ID tokens and of passwords are parameters. *)

From S2P Require Import Fleet.
From S2P Require Throttle.
From S2P Require Import Prelude JsString Effects.
Open Scope Z_scope.

(** ** Rows *)

Record User := { us_id : string; us_email : string; us_name : string; us_passwordHash : option string; us_disabled : bool; us_lastLoginAt : option Z }.
Record Provider := {
  pv_id : string; pv_slug : string; pv_name : string; pv_issuer : string; pv_clientId : string; pv_groupsClaim : string;
  pv_createUsers : bool; pv_enabled : bool;
}.
Record Identity := { ui_providerId : string; ui_subject : string; ui_userId : string; ui_groups : list string; ui_lastLoginAt : option Z }.
Record Mapping := { gm_providerId : string; gm_claim : string; gm_groupId : string }.
Record Member := { mb_groupId : string; mb_userId : option string; mb_serviceAccountId : option string; mb_providerId : option string }.
Global Instance Member_eq_dec : EqDecision Member.
Proof. solve_decision. Defined.

Record Db := { db_users : list User; db_identities : list Identity; db_mappings : list Mapping; db_members : list Member }.
Definition with_users (db : Db) (l : list User) : Db :=
  {| db_users := l; db_identities := db_identities db; db_mappings := db_mappings db; db_members := db_members db |}.
Definition with_identities (db : Db) (l : list Identity) : Db :=
  {| db_users := db_users db; db_identities := l; db_mappings := db_mappings db; db_members := db_members db |}.
Definition with_members (db : Db) (l : list Member) : Db :=
  {| db_users := db_users db; db_identities := db_identities db; db_mappings := db_mappings db; db_members := l |}.

(** Emails are [citext]. *)
Definition same_email (a b : string) : bool := bool_decide (toLowerCase a = toLowerCase b).
Definition user_by_email (db : Db) (email : string) : option User := js_find (λ u, same_email (us_email u) email) (db_users db).
Definition user_by_id (db : Db) (id : string) : option User := js_find (λ u, bool_decide (us_id u = id)) (db_users db).
Definition identity_of (db : Db) (provider subject : string) : option Identity :=
  js_find (λ i, bool_decide (ui_providerId i = provider) && bool_decide (ui_subject i = subject)) (db_identities db).

(** ** Group memberships ([syncMappedGroups]) *)

Definition mine (user : string) (m : Member) : bool := bool_decide (mb_userId m = Some user) && bool_decide (mb_serviceAccountId m = None).
Definition from_provider (provider : string) (m : Member) : bool := bool_decide (mb_providerId m = Some provider).

Definition wanted (db : Db) (provider : string) (claimed : list string) : list string :=
  set_of (gm_groupId <$> js_filter (λ r, bool_decide (gm_providerId r = provider) && includes claimed (gm_claim r)) (db_mappings db)).

Definition conflicts (a b : Member) : bool :=
  bool_decide (mb_groupId a = mb_groupId b) && bool_decide (mb_userId a = mb_userId b) && bool_decide (mb_serviceAccountId a = mb_serviceAccountId b).
(** [onConflictDoNothing] *)
Definition insert_member (l : list Member) (m : Member) : list Member := if some (conflicts m) l then l else l ++ [m].

Definition membership (provider user group : string) : Member :=
  {| mb_groupId := group; mb_userId := Some user; mb_serviceAccountId := None; mb_providerId := Some provider |}.

Definition syncMappedGroups (db : Db) (provider user : string) (claimed : list string) : Db * bool :=
  let want := wanted db provider claimed in
  let have := js_filter (mine user) (db_members db) in
  let fromHere := set_of (mb_groupId <$> js_filter (from_provider provider) have) in
  let any := set_of (mb_groupId <$> have) in
  let drop := js_filter (λ g, negb (includes want g)) fromHere in
  let add := js_filter (λ g, negb (includes any g)) want in
  let kept := js_filter (λ m, negb (mine user m && from_provider provider m && includes drop (mb_groupId m))) (db_members db) in
  (with_members db (foldl insert_member kept (membership provider user <$> add)), (0 <? length drop + length add)%nat).

Definition resync_one (provider : string) (s : Db * bool) (i : Identity) : Db * bool :=
  let r := syncMappedGroups s.1 provider (ui_userId i) (ui_groups i) in (r.1, r.2 || s.2).
Definition resyncProvider (db : Db) (provider : string) : Db * bool :=
  foldl (resync_one provider) (db, false) (js_filter (λ i, bool_decide (ui_providerId i = provider)) (db_identities db)).

(** ** Which account ([userForUpstream]) *)

Record UpstreamClaims := { uc_sub : string; uc_email : option string; uc_emailVerified : bool; uc_name : option string; uc_groups : list string }.
Inductive SignInOutcome := SignedIn (userId : string) (created groupsChanged : bool) | Refused (reason : string).

Definition link (db : Db) (provider : string) (c : UpstreamClaims) (user : string) : Db :=
  match identity_of db provider (uc_sub c) with
  | Some _ => db
  | None => with_identities db (db_identities db ++ [{| ui_providerId := provider; ui_subject := uc_sub c; ui_userId := user; ui_groups := uc_groups c; ui_lastLoginAt := None |}])
  end.

(** The account, and whether it was created. [newId]: the key of a row that is inserted. *)
Definition find_account (db : Db) (pv : Provider) (c : UpstreamClaims) (newId : string) : Db * (string * bool + string) :=
  match identity_of db (pv_id pv) (uc_sub c) with
  | Some i => (db, inl (ui_userId i, false))
  | None =>
      match uc_email c with
      | None => (db, inr (pv_name pv +++ " did not tell IncusCloud your email address. Ask an administrator to add the email scope."))
      | Some email =>
          if negb (truthy_str email) then
            (db, inr (pv_name pv +++ " did not tell IncusCloud your email address. Ask an administrator to add the email scope."))
          else
            match user_by_email db email with
            | Some u =>
                if negb (uc_emailVerified c) then
                  (db, inr ("An IncusCloud account with " +++ email +++ " exists, but " +++ pv_name pv +++ " has not verified that address, so it cannot be linked."))
                else (link db (pv_id pv) c (us_id u), inl (us_id u, false))
            | None =>
                if pv_createUsers pv then
                  let db := with_users db (db_users db ++ [{| us_id := newId; us_email := email; us_name := str_take 200 (default email (uc_name c));
                                                              us_passwordHash := None; us_disabled := false; us_lastLoginAt := None |}]) in
                  (link db (pv_id pv) c newId, inl (newId, true))
                else (db, inr ("There is no IncusCloud account for " +++ email +++ ". Ask an administrator to create one."))
            end
      end
  end.

Definition touch_identity (db : Db) (provider : string) (c : UpstreamClaims) (now : Z) : Db :=
  with_identities db
    ((λ i, if bool_decide (ui_providerId i = provider) && bool_decide (ui_subject i = uc_sub c)
           then {| ui_providerId := ui_providerId i; ui_subject := ui_subject i; ui_userId := ui_userId i; ui_groups := uc_groups c; ui_lastLoginAt := Some now |}
           else i) <$> db_identities db).
Definition touch_user (db : Db) (user : string) (now : Z) : Db :=
  with_users db
    ((λ u, if bool_decide (us_id u = user)
           then {| us_id := us_id u; us_email := us_email u; us_name := us_name u; us_passwordHash := us_passwordHash u; us_disabled := us_disabled u; us_lastLoginAt := Some now |}
           else u) <$> db_users db).

Definition userForUpstream (db : Db) (pv : Provider) (c : UpstreamClaims) (newId : string) (now : Z) : Db * SignInOutcome :=
  match find_account db pv c newId with
  | (db, inr reason) => (db, Refused reason)
  | (db, inl (user, created)) =>
      match user_by_id db user with
      | None => (db, Refused "This account is disabled")
      | Some u =>
          if us_disabled u then (db, Refused "This account is disabled")
          else
            let db := touch_user (touch_identity db (pv_id pv) c now) user now in
            let r := syncMappedGroups db (pv_id pv) user (uc_groups c) in
            (r.1, SignedIn user created r.2)
      end
  end.

(** ** There and back ([readFlight], [finishSignIn], the callback) *)

Record Flight := {
  fl_provider : string; fl_challenge : string; fl_state : string; fl_nonce : string; fl_verifier : string; fl_expires : Z;
}.
Definition FLIGHT_S : Z := 600.
(** [random]: the three tokens drawn. *)
Definition start_flight (provider challenge : string) (random : string * string * string) (now : Z) : Flight :=
  {| fl_provider := provider; fl_challenge := challenge; fl_state := random.1.1; fl_nonce := random.1.2; fl_verifier := random.2;
     fl_expires := now + FLIGHT_S * 1000 |}.

Definition expired {A} : result A := throw 400 "federation_expired" "This sign-in has expired. Start again from your application.".

Section upstream.
Context (open_flight : string → option Flight).  (** unseals and parses; [None] when either fails *)

Definition readFlight (sealed : option string) (state : string) (now : Z) : result Flight :=
  match open_flight (default EmptyString sealed) with
  | None => expired
  | Some f => if (fl_expires f <? now) || negb (truthy_str state) || negb (bool_decide (fl_state f = state)) then expired else Ok f
  end.

Abbreviation Claims := (js_map string Json).
Definition str_of (j : option Json) : option string := match j with Some (JStr s) => Some s | _ => None end.
Definition groupsOf (j : option Json) : list string :=
  match j with
  | Some (JArr l) => omap (λ x, match x with JStr s => Some s | _ => None end) l
  | Some (JStr s) => if truthy_str s then [s] else []
  | _ => []
  end.
(** [{ ...info, ...claims }] *)
Definition spread_over (info claims : Claims) : Claims := foldl (λ m kv, map_set m kv.1 kv.2) info claims.

(** What the provider's endpoints answered: the discovery, the token endpoint, the userinfo endpoint. *)
Record Answers := {
  an_discovered : result bool;  (** whether it has a userinfo endpoint *)
  an_token_ok : bool; an_token_status : Z; an_id_token : option string; an_access_token : option string; an_token_error : option string;
  an_userinfo : Claims;         (** [{}] when it cannot be read *)
}.

(** [verify]: [jwtVerify] with the provider's keys, issuer and audience; the claims, or why not. *)
Context (verify : Provider → string → Claims + string).

Definition claims_of (pv : Provider) (userinfo_endpoint : bool) (a : Answers) (claims : Claims) (sub : string) : UpstreamClaims :=
  let lacks := bool_decide (map_get claims (pv_groupsClaim pv) = None) || bool_decide (map_get claims "email" = None) in
  let all :=
    if lacks && userinfo_endpoint && truthy_opt_str (an_access_token a) && bool_decide (str_of (map_get (an_userinfo a) "sub") = Some sub)
    then spread_over (an_userinfo a) claims else claims in
  {| uc_sub := sub; uc_email := str_of (map_get all "email");
     uc_emailVerified := match map_get all "email_verified" with Some (JBool true) => true | Some (JStr s) => bool_decide (s = "true") | _ => false end;
     uc_name := js_find truthy_str (omap (λ k, str_of (map_get all k)) ["name"; "preferred_username"; "email"]);
     uc_groups := groupsOf (map_get all (pv_groupsClaim pv)) |}.

Definition finishSignIn (pv : Provider) (f : Flight) (a : Answers) : result UpstreamClaims :=
  userinfo_endpoint ← an_discovered a;
  match an_id_token a with
  | Some token =>
      if negb (an_token_ok a) || negb (truthy_str token) then
        throw 502 "idp_token" (pv_name pv +++ " refused the sign-in: " +++ default ("answered " +++ show_Z (an_token_status a)) (an_token_error a))
      else
        match verify pv token with
        | inr why => throw 502 "idp_token" (pv_name pv +++ "'s ID token does not verify: " +++ why)
        | inl claims =>
            let sub := default EmptyString (str_of (map_get claims "sub")) in
            if negb (bool_decide (str_of (map_get claims "nonce") = Some (fl_nonce f))) || negb (truthy_str sub) then
              throw 502 "idp_token" (pv_name pv +++ "'s ID token is not for this sign-in")
            else Ok (claims_of pv userinfo_endpoint a claims sub)
        end
  | None => throw 502 "idp_token" (pv_name pv +++ " refused the sign-in: " +++ default ("answered " +++ show_Z (an_token_status a)) (an_token_error a))
  end.

(** The end of a login: Hydra accepts a challenge for a subject, or the browser gets a page. *)
Inductive LoginEnd := AcceptLogin (challenge subject : string) | Page (status : Z) (message : string) | RejectLogin (challenge : string).

(** What the browser came back with. *)
Record Callback := { cb_cookie : option string; cb_state : string; cb_error : option string }.

Definition thrown (e : ApiError) : LoginEnd := if 500 <=? status e then Page 502 (message e) else Page (status e) (message e).

Definition callback (db : Db) (providers : list Provider) (q : Callback) (answers : Provider → Answers) (newId : string) (now : Z) : Db * LoginEnd :=
  match readFlight (cb_cookie q) (cb_state q) now with
  | Throw e => (db, thrown e)
  | Ok f =>
      match js_find (λ p, bool_decide (pv_id p = fl_provider f)) providers with
      | None => (db, Page 400 "This identity provider is no longer available.")
      | Some pv =>
          if negb (pv_enabled pv) then (db, Page 400 "This identity provider is no longer available.")
          else if truthy_opt_str (cb_error q) then (db, Page 400 (pv_name pv +++ ": " +++ default EmptyString (cb_error q)))
          else
            match finishSignIn pv f (answers pv) with
            | Throw e => (db, thrown e)
            | Ok c =>
                match userForUpstream db pv c newId now with
                | (db, Refused reason) => (db, Page 403 reason)
                | (db, SignedIn user _ _) => (db, AcceptLogin (fl_challenge f) user)
                end
            end
      end
  end.
End upstream.

(** ** With a password ([checkCredentials], [POST /auth/login]) *)

Definition WINDOW_MS : Z := 15 * 60000.
Definition perEmail_options : Throttle.Options := {| Throttle.limit := 10; Throttle.windowMs := WINDOW_MS; Throttle.maxKeys := Z.to_nat 100000 |}.
Definition perIp_options : Throttle.Options := {| Throttle.limit := 50; Throttle.windowMs := WINDOW_MS; Throttle.maxKeys := Z.to_nat 100000 |}.
Record Throttles := { th_email : Throttle.Hits; th_ip : Throttle.Hits }.

Section password.
Context (verifyPassword : string → string → bool) (dummy : string).

Definition checkCredentials (db : Db) (email password : string) : option User :=
  let user := user_by_email db (trim email) in
  let ok := verifyPassword password (default dummy (user ≫= us_passwordHash)) in
  match user with
  | Some u => if ok && truthy_opt_str (us_passwordHash u) && negb (us_disabled u) then Some u else None
  | None => None
  end.

Definition email_key (email : string) : string := toLowerCase (trim email).

Definition login (db : Db) (th : Throttles) (challenge email password ip : string) (now : Z) : Db * Throttles * LoginEnd :=
  let '(he, we) := Throttle.retryAfterS perEmail_options (th_email th) now [email_key email] in
  let '(hi, wi) := Throttle.retryAfterS perIp_options (th_ip th) now [ip] in
  let wait := Z.max we wi in
  if 0 <? wait then (db, {| th_email := he; th_ip := hi |}, Page 429 "Too many attempts")
  else
    match checkCredentials db email password with
    | None =>
        (db, {| th_email := Throttle.fail perEmail_options he now [email_key email]; th_ip := Throttle.fail perIp_options hi now [ip] |},
         Page 401 "Wrong email or password")
    | Some u => (touch_user db (us_id u) now, {| th_email := Throttle.clear he [email_key email]; th_ip := hi |}, AcceptLogin challenge (us_id u))
    end.

(** A login that Hydra remembers. *)
Definition remembered (db : Db) (challenge subject : string) : LoginEnd :=
  match user_by_id db subject with
  | Some u => if us_disabled u then RejectLogin challenge else AcceptLogin challenge subject
  | None => RejectLogin challenge
  end.
End password.
