(* ===== verification/SignInTheory.v ===== *)
(** * SignInTheory: whose account a sign-in is, and what it may change

    The memberships that a provider's mappings give, the account an upstream
    identity leads to, and what was checked before a login is accepted. *)

From S2P Require Import Fleet.
From S2P Require Throttle.
From S2P Require Import Prelude JsString Effects SignIn.
Open Scope Z_scope.

(** ** Group memberships *)

(** [group_member_unique] *)
Definition members_unique (l : list Member) : Prop := ∀ a b, a ∈ l → b ∈ l → conflicts a b = true → a = b.

(** The user's memberships that the provider's mappings made. *)
Definition mapped (provider user : string) (m : Member) : bool := mine user m && from_provider provider m.

Lemma mapped_spec provider user m : mapped provider user m = true ↔ m = membership provider user (mb_groupId m).
Proof.
  unfold mapped, mine, from_provider. rewrite !andb_true_iff, !bool_decide_eq_true. destruct m as [g u a p]; cbn.
  unfold membership. split; [by intros [[-> ->] ->]|by intros [= -> -> ->]].
Qed.

Lemma conflicts_membership provider user g m : conflicts (membership provider user g) m = true ↔ mine user m = true ∧ mb_groupId m = g.
Proof.
  unfold conflicts, mine. rewrite !andb_true_iff, !bool_decide_eq_true. cbn. split; [intros [[-> <-] <-]; done|intros [[-> ->] ->]; done].
Qed.

Lemma insert_members l provider user add : NoDup add →
  (∀ m, m ∈ l → mine user m = true → mb_groupId m ∉ add) →
  foldl insert_member l (membership provider user <$> add) = l ++ (membership provider user <$> add).
Proof.
  revert l. induction add as [|g add IH]; intros l Hnd Hl; [by rewrite app_nil_r|]. cbn [fmap list_fmap foldl].
  apply NoDup_cons in Hnd as [Hg Hnd]. unfold insert_member at 2.
  destruct (some (conflicts (membership provider user g)) l) eqn:Hs.
  - apply some_spec in Hs as (m & Hm & Hc). apply conflicts_membership in Hc as [Hc <-]. destruct (Hl m Hm Hc). by left.
  - rewrite IH; [by rewrite <-(assoc_L (++))|done|]. intros m [Hm|Hm]%elem_of_app Hmine.
    + intros Hin. apply (Hl m Hm Hmine). by right.
    + apply list_elem_of_singleton in Hm as ->. exact Hg.
Qed.

Lemma NoDup_js_filter {A} (p : A → bool) l : NoDup l → NoDup (js_filter p l).
Proof.
  induction 1 as [|x l Hx Hl IH]; [constructor|]. cbn. destruct (p x); [|done]. constructor; [|done].
  intros [Hin _]%elem_of_js_filter. by apply Hx.
Qed.

Section sync.
Context (db : Db) (provider user : string) (claimed : list string).
Abbreviation want := (wanted db provider claimed).
Abbreviation after := (syncMappedGroups db provider user claimed).

Definition any_groups : list string := set_of (mb_groupId <$> js_filter (mine user) (db_members db)).
Definition dropped : list string :=
  js_filter (λ g, negb (includes want g)) (set_of (mb_groupId <$> js_filter (from_provider provider) (js_filter (mine user) (db_members db)))).
Definition added : list string := js_filter (λ g, negb (includes any_groups g)) want.
Definition kept : list Member := js_filter (λ m, negb (mapped provider user m && includes dropped (mb_groupId m))) (db_members db).

Lemma elem_of_any g : g ∈ any_groups ↔ ∃ m, m ∈ db_members db ∧ mine user m = true ∧ mb_groupId m = g.
Proof.
  unfold any_groups. rewrite elem_of_set_of, list_elem_of_fmap. split.
  - intros (m & -> & Hm). apply elem_of_js_filter in Hm as [Hm Hmine]. by exists m.
  - intros (m & Hm & Hmine & <-). exists m. split; [done|]. by apply elem_of_js_filter.
Qed.
Lemma elem_of_dropped g : g ∈ dropped ↔ membership provider user g ∈ db_members db ∧ g ∉ want.
Proof.
  unfold dropped. rewrite elem_of_js_filter, elem_of_set_of, list_elem_of_fmap, negb_true_iff, includes_false. split.
  - intros [(m & -> & Hm) Hw]. split; [|done]. apply elem_of_js_filter in Hm as [Hm Hp]. apply elem_of_js_filter in Hm as [Hm Hmine].
    assert (m = membership provider user (mb_groupId m)) as <-; [|done]. apply mapped_spec. unfold mapped. by rewrite Hmine, Hp.
  - intros [Hm Hw]. split; [|done]. exists (membership provider user g). split; [done|].
    pose proof (proj2 (mapped_spec provider user (membership provider user g)) eq_refl) as Hmp. unfold mapped in Hmp. apply andb_true_iff in Hmp as [H1 H2].
    apply elem_of_js_filter. split; [|done]. by apply elem_of_js_filter.
Qed.
Lemma elem_of_added g : g ∈ added ↔ g ∈ want ∧ g ∉ any_groups.
Proof. unfold added. by rewrite elem_of_js_filter, negb_true_iff, includes_false. Qed.
Lemma NoDup_added : NoDup added.
Proof. apply NoDup_js_filter. unfold wanted. auto with incus. Qed.

Lemma members_after : db_members after.1 = kept ++ (membership provider user <$> added).
Proof.
  unfold syncMappedGroups. cbn [fst db_members with_members]. apply insert_members; [apply NoDup_added|].
  intros m [Hm _]%elem_of_js_filter Hmine. rewrite elem_of_added. intros [_ Hn]. apply Hn, elem_of_any. by exists m.
Qed.

Lemma elem_of_kept m : m ∈ kept ↔ m ∈ db_members db ∧ (mapped provider user m = true → mb_groupId m ∈ want).
Proof.
  unfold kept. rewrite elem_of_js_filter, negb_true_iff, andb_false_iff. split.
  - intros [Hm Hk]. split; [done|]. intros Hmp. destruct Hk as [Hk|Hk]; [congruence|]. apply includes_false in Hk.
    destruct (decide (mb_groupId m ∈ want)) as [|Hn]; [done|]. destruct Hk. apply elem_of_dropped.
    split; [|done]. by rewrite <-(proj1 (mapped_spec provider user m) Hmp).
  - intros [Hm Hk]. split; [done|]. destruct (mapped provider user m); [|by left]. right. apply includes_false.
    rewrite elem_of_dropped. intros [_ Hn]. by apply Hn, Hk.
Qed.

(** The user's memberships by the provider's mappings are, afterwards, those of the wanted groups that
    nothing else makes them a member of; all other memberships are as they were. *)
Lemma sync_members m : members_unique (db_members db) →
  m ∈ db_members after.1
  ↔ if mapped provider user m then
      mb_groupId m ∈ want ∧ ∀ x, x ∈ db_members db → mine user x = true → mb_groupId x = mb_groupId m → mapped provider user x = true
    else m ∈ db_members db.
Proof.
  intros Hu. rewrite members_after, elem_of_app, elem_of_kept, list_elem_of_fmap.
  destruct (mapped provider user m) eqn:Hm.
  - pose proof (proj1 (mapped_spec provider user m) Hm) as Heq. split.
    + intros [[Hin Hw]|(g & -> & Hg)].
      * split; [by apply Hw|]. intros x Hx Hmine Hgx. assert (m = x) as <-; [|done]. apply Hu; [done..|].
        rewrite Heq. by apply conflicts_membership.
      * apply elem_of_added in Hg as [Hg Hn]. split; [done|]. intros x Hx Hmine Hgx. destruct Hn. apply elem_of_any. by exists x.
    + intros [Hw Hall]. destruct (decide (mb_groupId m ∈ any_groups)) as [Hany|Hany].
      * left. split; [|done]. apply elem_of_any in Hany as (x & Hx & Hmine & Hgx). specialize (Hall x Hx Hmine Hgx).
        apply mapped_spec in Hall. rewrite Heq, <-Hgx, <-Hall. done.
      * right. exists (mb_groupId m). split; [done|]. by apply elem_of_added.
  - split; [|by left]. intros [[Hin _]|(g & -> & _)]; [done|]. by rewrite (proj2 (mapped_spec provider user (membership provider user g)) eq_refl) in Hm.
Qed.

Lemma sync_unique : members_unique (db_members db) → members_unique (db_members after.1).
Proof.
  intros Hu a b Ha Hb Hc. rewrite members_after in Ha, Hb.
  assert (∀ x g, x ∈ kept → g ∈ added → conflicts (membership provider user g) x = false) as Hno.
  { intros x g [Hx _]%elem_of_kept [_ Hn]%elem_of_added. destruct (conflicts _ x) eqn:E; [|done]. apply conflicts_membership in E as [Hmine <-].
    destruct Hn. apply elem_of_any. by exists x. }
  assert (conflicts b a = true) as Hc'.
  { unfold conflicts in *. rewrite !andb_true_iff, !bool_decide_eq_true in *. destruct Hc as [[-> ->] ->]. done. }
  apply elem_of_app in Ha as [Ha|Ha], Hb as [Hb|Hb].
  - apply elem_of_kept in Ha as [Ha _], Hb as [Hb _]. by apply Hu.
  - apply list_elem_of_fmap in Hb as (g & -> & Hg). by rewrite (Hno a g Ha Hg) in Hc'.
  - apply list_elem_of_fmap in Ha as (g & -> & Hg). by rewrite (Hno b g Hb Hg) in Hc.
  - apply list_elem_of_fmap in Ha as (g & -> & Hg), Hb as (h & -> & Hh). apply conflicts_membership in Hc as [_ Hgh]. cbn in Hgh. by subst.
Qed.

(** It tells whether it changed anything. *)
Lemma sync_told : after.2 = false ↔ dropped = [] ∧ added = [].
Proof.
  assert (after.2 = (0 <? length (dropped) + length (added))%nat) as -> by done.
  rewrite Nat.ltb_ge. split; [|by intros [-> ->]]. intros Hle.
  destruct (dropped); [|cbn in Hle; lia]. destruct (added); [done|cbn in Hle; lia].
Qed.
Lemma sync_unchanged : after.2 = false → db_members after.1 = db_members db.
Proof.
  intros [Hd Ha]%sync_told. rewrite members_after, Ha, app_nil_r. unfold kept. rewrite Hd. generalize (db_members db) as l. intros l.
  induction l as [|m l IH]; [done|]. cbn. rewrite andb_false_r. cbn. by f_equal.
Qed.
End sync.

(** Done twice, it changes nothing the second time. *)
Lemma sync_settles db provider user claimed : members_unique (db_members db) →
  (syncMappedGroups (syncMappedGroups db provider user claimed).1 provider user claimed).2 = false.
Proof.
  intros Hu. set (db' := (syncMappedGroups db provider user claimed).1).
  assert (wanted db' provider claimed = wanted db provider claimed) as Hw by done.
  apply sync_told. split.
  - destruct (dropped db' provider user claimed) as [|g l] eqn:Hd; [done|]. exfalso.
    assert (g ∈ dropped db' provider user claimed) as Hg by (rewrite Hd; by left). apply elem_of_dropped in Hg as [Hm Hn].
    apply (sync_members db provider user claimed _ Hu) in Hm. rewrite (proj2 (mapped_spec provider user _) eq_refl) in Hm. by destruct Hm.
  - destruct (added db' provider user claimed) as [|g l] eqn:Hd; [done|]. exfalso.
    assert (g ∈ added db' provider user claimed) as Hg by (rewrite Hd; by left). apply elem_of_added in Hg as [Hg Hn].
    apply Hn, elem_of_any. destruct (decide (g ∈ any_groups db user)) as [Hany|Hany].
    + apply elem_of_any in Hany as (x & Hx & Hmine & Hgx). exists x. split; [|done]. apply (sync_members db provider user claimed _ Hu).
      destruct (mapped provider user x) eqn:Hmx; [|done]. split; [by rewrite Hgx|]. intros y Hy Hmy Hgy.
      assert (x = y) as <-; [|done]. apply Hu; [done..|]. apply mapped_spec in Hmx. rewrite Hmx. by apply conflicts_membership.
    + exists (membership provider user g). split; [|split; [apply (proj1 (conflicts_membership provider user g (membership provider user g)));
        unfold conflicts; by rewrite !bool_decide_eq_true_2|done]].
      apply (sync_members db provider user claimed _ Hu). rewrite (proj2 (mapped_spec provider user _) eq_refl). split; [done|].
      intros y Hy Hmy Hgy. destruct Hany. apply elem_of_any. by exists y.
Qed.

(** A resync touches no membership that the provider's mappings did not make. *)
Lemma resync_others db provider m : members_unique (db_members db) → mb_providerId m ≠ Some provider →
  (m ∈ db_members (resyncProvider db provider).1 ↔ m ∈ db_members db) ∧ members_unique (db_members (resyncProvider db provider).1).
Proof.
  intros Hu Hm. unfold resyncProvider. generalize (js_filter (λ i, bool_decide (ui_providerId i = provider)) (db_identities db)) as l. intros l.
  assert (∀ user, mapped provider user m = false) as Hmap.
  { intros user. unfold mapped, from_provider. rewrite (bool_decide_eq_false_2 _ Hm). apply andb_false_r. }
  generalize false as b. revert db Hu. induction l as [|i l IH]; intros db Hu b; [done|]. cbn [foldl]. unfold resync_one at 2 4. cbn [fst snd].
  destruct (IH (syncMappedGroups db provider (ui_userId i) (ui_groups i)).1 (sync_unique _ _ _ _ Hu) ((syncMappedGroups db provider (ui_userId i) (ui_groups i)).2 || b)) as [H1 H2].
  split; [|exact H2]. etrans; [exact H1|]. rewrite sync_members by done. by rewrite Hmap.
Qed.

(** ** The account *)

(** Why a user may sign in as an upstream account. *)
Inductive entitled (db : Db) (pv : Provider) (c : UpstreamClaims) (newId user : string) : bool → Prop :=
  | Linked i : identity_of db (pv_id pv) (uc_sub c) = Some i → ui_userId i = user → entitled db pv c newId user false
  | VerifiedEmail email u :
      identity_of db (pv_id pv) (uc_sub c) = None → uc_email c = Some email → uc_emailVerified c = true →
      user_by_email db email = Some u → us_id u = user → entitled db pv c newId user false
  | Created email :
      identity_of db (pv_id pv) (uc_sub c) = None → uc_email c = Some email → user_by_email db email = None →
      pv_createUsers pv = true → user = newId → entitled db pv c newId user true.

Lemma identity_of_snoc db p s i : identity_of db p s = None → ui_providerId i = p → ui_subject i = s →
  identity_of (with_identities db (db_identities db ++ [i])) p s = Some i.
Proof.
  intros Hn <- <-. unfold identity_of in *. cbn. rewrite (js_find_snoc _ _ _ Hn). by rewrite !bool_decide_eq_true_2.
Qed.

Lemma link_spec db p c user : identity_of db p (uc_sub c) = None →
  db_members (link db p c user) = db_members db ∧ db_mappings (link db p c user) = db_mappings db ∧ db_users (link db p c user) = db_users db
  ∧ ∃ i, identity_of (link db p c user) p (uc_sub c) = Some i ∧ ui_userId i = user.
Proof.
  intros Hn. unfold link. rewrite Hn. do 3 (split; [done|]). eexists. split; [by apply identity_of_snoc|done].
Qed.

Lemma find_account_ok db pv c newId db' user created : find_account db pv c newId = (db', inl (user, created)) →
  entitled db pv c newId user created
  ∧ db_members db' = db_members db ∧ db_mappings db' = db_mappings db
  ∧ (created = false → db_users db' = db_users db)
  ∧ (created = true → ∃ u, db_users db' = db_users db ++ [u] ∧ us_id u = newId ∧ us_disabled u = false)
  ∧ ∃ i, identity_of db' (pv_id pv) (uc_sub c) = Some i ∧ ui_userId i = user.
Proof.
  unfold find_account. destruct (identity_of db (pv_id pv) (uc_sub c)) as [i|] eqn:Hi.
  { intros [= <- <- <-]. split; [by eapply Linked|]. do 4 (split; [done|]). by exists i. }
  destruct (uc_email c) as [email|] eqn:He; [|done]. destruct (negb (truthy_str email)); [done|].
  destruct (user_by_email db email) as [u|] eqn:Hu.
  - destruct (uc_emailVerified c) eqn:Hv; [|done]. intros [= <- <- <-]. split; [by eapply VerifiedEmail|].
    destruct (link_spec db (pv_id pv) c (us_id u) Hi) as (H1 & H2 & H3 & H4). by repeat (split; [done|]).
  - destruct (pv_createUsers pv) eqn:Hc; [|done]. intros Heq. injection Heq as <- <- <-. split; [by eapply Created|].
    set (db1 := with_users db _). assert (identity_of db1 (pv_id pv) (uc_sub c) = None) as Hi1 by done.
    destruct (link_spec db1 (pv_id pv) c newId Hi1) as (H1 & H2 & H3 & H4). split; [done|]. split; [done|]. split; [done|]. split; [|done].
    intros _. eexists. split; [exact H3|done].
Qed.
Lemma find_account_refused db pv c newId db' why : find_account db pv c newId = (db', inr why) → db' = db.
Proof.
  unfold find_account. destruct (identity_of _ _ _); [done|]. destruct (uc_email c) as [email|]; [|by intros [= <-]].
  destruct (negb (truthy_str email)); [by intros [= <-]|]. destruct (user_by_email db email).
  - destruct (negb _); [by intros [= <-]|done].
  - destruct (pv_createUsers pv); [done|by intros [= <-]].
Qed.

Lemma js_find_fmap {A} (p : A → bool) (f : A → A) l : (∀ x, p (f x) = p x) → js_find p (f <$> l) = f <$> js_find p l.
Proof. intros Hp. unfold js_find. induction l as [|x l IH]; [done|]. cbn. rewrite Hp. by destruct (p x). Qed.

Lemma touched_identity db p c now s : uc_sub c = s →
  identity_of (touch_identity db p c now) p s = (λ i, {| ui_providerId := p; ui_subject := s; ui_userId := ui_userId i; ui_groups := uc_groups c; ui_lastLoginAt := Some now |}) <$> identity_of db p s.
Proof.
  intros <-. unfold identity_of, touch_identity. cbn. rewrite js_find_fmap.
  - destruct (js_find _ _) as [i|] eqn:Hi; [|done]. apply js_find_some in Hi as [_ Hi]. cbn. rewrite Hi. apply andb_true_iff in Hi as [H1 H2].
    bool_prop. by rewrite H1, H2.
  - intros x. destruct (bool_decide (ui_providerId x = p) && bool_decide (ui_subject x = uc_sub c)) eqn:E; [cbn; exact E|exact E].
Qed.
Lemma touched_user db user now id : user_by_id (touch_user db user now) id = (λ u, if bool_decide (us_id u = user)
  then {| us_id := us_id u; us_email := us_email u; us_name := us_name u; us_passwordHash := us_passwordHash u; us_disabled := us_disabled u; us_lastLoginAt := Some now |} else u) <$> user_by_id db id.
Proof. unfold user_by_id, touch_user. cbn. rewrite js_find_fmap; [done|]. intros x. by destruct (bool_decide (us_id x = user)). Qed.

Lemma sync_same db db' p user claimed : db_members db = db_members db' → db_mappings db = db_mappings db' →
  db_members (syncMappedGroups db p user claimed).1 = db_members (syncMappedGroups db' p user claimed).1
  ∧ (syncMappedGroups db p user claimed).2 = (syncMappedGroups db' p user claimed).2.
Proof. intros Hm Hp. unfold syncMappedGroups, wanted. rewrite Hm, Hp. done. Qed.

(** What an upstream sign-in does. *)
Definition signed_in (db : Db) (pv : Provider) (c : UpstreamClaims) (newId : string) (r : Db * SignInOutcome) : Prop :=
  match r.2 with
  | SignedIn user created changed =>
      entitled db pv c newId user created
      ∧ (∃ u, user_by_id r.1 user = Some u ∧ us_disabled u = false)
      ∧ (∃ i, identity_of r.1 (pv_id pv) (uc_sub c) = Some i ∧ ui_userId i = user ∧ ui_groups i = uc_groups c)
      ∧ db_members r.1 = db_members (syncMappedGroups db (pv_id pv) user (uc_groups c)).1
      ∧ changed = (syncMappedGroups db (pv_id pv) user (uc_groups c)).2
  | Refused _ => db_users r.1 = db_users db ∧ db_members r.1 = db_members db
  end.

Lemma userForUpstream_spec db pv c newId now : user_by_id db newId = None → signed_in db pv c newId (userForUpstream db pv c newId now).
Proof.
  intros Hnew. unfold userForUpstream. destruct (find_account db pv c newId) as [db1 [[user created]|why]] eqn:Hf.
  2: { apply find_account_refused in Hf as ->. by split. }
  destruct (find_account_ok _ _ _ _ _ _ _ Hf) as (Hent & Hm & Hp & Hu & Hcr & i & Hi & Hiu).
  destruct (user_by_id db1 user) as [u|] eqn:Hby.
  - destruct (us_disabled u) eqn:Hd.
    + split; [|done]. cbn [fst]. destruct created; [|by apply Hu]. exfalso. destruct (Hcr eq_refl) as (u0 & Hus & Hid & Hd0).
      assert (user = newId) as -> by (by inversion Hent). unfold user_by_id in Hby.
      rewrite Hus, (js_find_snoc _ _ _ Hnew), Hid, bool_decide_eq_true_2 in Hby by done. congruence.
    + unfold signed_in. cbn [snd]. split; [done|]. set (db2 := touch_user _ user now).
      assert (db_members db2 = db_members db ∧ db_mappings db2 = db_mappings db) as [Hm2 Hp2] by done.
      destruct (sync_same db2 db (pv_id pv) user (uc_groups c) Hm2 Hp2) as [Hs1 Hs2].
      split; [|split; [|by split]].
      * exists {| us_id := us_id u; us_email := us_email u; us_name := us_name u; us_passwordHash := us_passwordHash u; us_disabled := us_disabled u; us_lastLoginAt := Some now |}.
        split; [|done]. change (user_by_id db2 user = Some {| us_id := us_id u; us_email := us_email u; us_name := us_name u;
          us_passwordHash := us_passwordHash u; us_disabled := us_disabled u; us_lastLoginAt := Some now |}). unfold db2. rewrite touched_user.
        change (user_by_id (touch_identity db1 (pv_id pv) c now) user) with (user_by_id db1 user). rewrite Hby.
        assert (us_id u = user) as Hid by (unfold user_by_id in Hby; apply js_find_some in Hby as [_ Hby]; by bool_prop).
        cbn. by rewrite bool_decide_eq_true_2.
      * change (∃ i0, identity_of (touch_identity db1 (pv_id pv) c now) (pv_id pv) (uc_sub c) = Some i0 ∧ ui_userId i0 = user ∧ ui_groups i0 = uc_groups c).
        rewrite (touched_identity db1 (pv_id pv) c now _ eq_refl), Hi. cbn. eexists. split; [done|]. by split.
  - split; [|done]. cbn [fst]. destruct created; [|by apply Hu]. exfalso. destruct (Hcr eq_refl) as (u0 & Hus & Hid & _).
    assert (user = newId) as -> by (by inversion Hent). unfold user_by_id in Hby.
    by rewrite Hus, (js_find_snoc _ _ _ Hnew), Hid, bool_decide_eq_true_2 in Hby.
Qed.

(** ** Properties *)

(** C37: an upstream account signs in as the user it is linked to, or, when it is linked to none, as the one
    whose email the provider verified, or as a new one when the provider creates users and nobody has the
    email; never as a disabled one. It is linked to that user then, whose memberships by the provider's
    mappings become those of the groups claimed. A refusal changes no user and no membership. *)
Theorem who_signs_in db pv c newId now :
  user_by_id db newId = None → signed_in db pv c newId (userForUpstream db pv c newId now).
Proof. exact (userForUpstream_spec db pv c newId now). Qed.

(** The user's memberships by a provider's mappings become exactly those of the mapped groups that
    nothing else makes them a member of; every other membership stays; a group has no member twice; and
    doing it again changes nothing. *)
Theorem memberships_follow_claims db provider user claimed :
  members_unique (db_members db) →
  let r := syncMappedGroups db provider user claimed in
  (∀ m, m ∈ db_members r.1
     ↔ if mapped provider user m then
         mb_groupId m ∈ wanted db provider claimed
         ∧ ∀ x, x ∈ db_members db → mine user x = true → mb_groupId x = mb_groupId m → mapped provider user x = true
       else m ∈ db_members db)
  ∧ members_unique (db_members r.1)
  ∧ (syncMappedGroups r.1 provider user claimed).2 = false
  ∧ (r.2 = false → db_members r.1 = db_members db).
Proof.
  intros Hu r. split; [intros m; by apply sync_members|]. split; [by apply sync_unique|]. split; [by apply sync_settles|].
  apply sync_unchanged.
Qed.

Definition refused_end (e : LoginEnd) : Prop := match e with AcceptLogin _ _ => False | _ => True end.
Lemma thrown_refused e : refused_end (thrown e).
Proof. unfold thrown. by destruct (500 <=? status e). Qed.

(** The callback of a provider has Hydra accept only the login that the browser's own unexpired flight
    began, with an enabled provider, whose ID token verifies and carries the flight's nonce; the subject is
    the user that the token's account signs in as. *)
Theorem callback_accepts open_flight verify db providers q answers newId now db' challenge subject :
  callback open_flight verify db providers q answers newId now = (db', AcceptLogin challenge subject) →
  ∃ f pv token claims sub c created changed,
    open_flight (default EmptyString (cb_cookie q)) = Some f ∧ fl_state f = cb_state q ∧ cb_state q ≠ EmptyString ∧ now ≤ fl_expires f
    ∧ challenge = fl_challenge f ∧ pv ∈ providers ∧ pv_id pv = fl_provider f ∧ pv_enabled pv = true
    ∧ an_id_token (answers pv) = Some token ∧ verify pv token = inl claims ∧ str_of (map_get claims "nonce") = Some (fl_nonce f)
    ∧ str_of (map_get claims "sub") = Some sub ∧ uc_sub c = sub
    ∧ userForUpstream db pv c newId now = (db', SignedIn subject created changed).
Proof.
  unfold callback. destruct (readFlight open_flight (cb_cookie q) (cb_state q) now) as [f|e] eqn:Hf.
  2: { intros [= _ He]. by pose proof (thrown_refused e) as Hr; rewrite He in Hr. }
  unfold readFlight in Hf. destruct (open_flight _) as [f0|] eqn:Ho; [|done].
  destruct (_ || _ || _) eqn:Hbad; [done|]. injection Hf as ->. rewrite !orb_false_iff, !negb_false_iff in Hbad. destruct Hbad as [[Hexp Hst] Hstate].
  destruct (js_find _ providers) as [pv|] eqn:Hpv; [|done]. apply js_find_some in Hpv as [Hin Hid].
  destruct (negb (pv_enabled pv)) eqn:Hen; [done|]. apply negb_false_iff in Hen. destruct (truthy_opt_str (cb_error q)); [done|].
  destruct (finishSignIn verify pv f (answers pv)) as [c|e] eqn:Hfin.
  2: { intros [= _ He]. by pose proof (thrown_refused e) as Hr; rewrite He in Hr. }
  unfold finishSignIn in Hfin. apply result_bind_Ok in Hfin as (endpoint & _ & Hfin).
  destruct (an_id_token (answers pv)) as [token|] eqn:Htok; [|done]. destruct (negb (an_token_ok _) || _); [done|].
  destruct (verify pv token) as [claims|why] eqn:Hver; [|done]. destruct (_ || _) eqn:Hn in Hfin; [done|]. injection Hfin as <-.
  apply orb_false_iff in Hn as [Hnonce Hsub]. apply negb_false_iff in Hnonce, Hsub.
  destruct (userForUpstream _ _ _ _ _) as [db2 [user created changed|why]] eqn:Hu; [|done]. intros [= <- <- <-].
  bool_prop. apply Z.ltb_ge in Hexp. destruct (str_of (map_get claims "sub")) as [sub|] eqn:Hs; [|done].
  exists f, pv, token, claims, sub, (claims_of pv endpoint (answers pv) claims (default EmptyString (Some sub))), created, changed.
  split; [done|]. split; [done|]. split; [by intros Hz; rewrite Hz in Hst|]. by repeat (split; [done|]).
Qed.

(** A password signs in only where neither the email nor the address is throttled, as the enabled user
    who has the email, with a hash that the password verifies against; and what did not sign in counts
    against both. *)
Theorem login_checks verifyPassword dummy db th challenge email password ip now :
  let r := login verifyPassword dummy db th challenge email password ip now in
  match r.2 with
  | AcceptLogin ch subject =>
      ch = challenge
      ∧ (Throttle.retryAfterS perEmail_options (th_email th) now [email_key email]).2 ≤ 0
      ∧ (Throttle.retryAfterS perIp_options (th_ip th) now [ip]).2 ≤ 0
      ∧ ∃ u hash, user_by_email db (trim email) = Some u ∧ us_id u = subject ∧ us_disabled u = false
          ∧ us_passwordHash u = Some hash ∧ verifyPassword password hash = true
  | _ =>
      r.1.1 = db
      ∧ (r.2 = Page 401 "Wrong email or password" →
           th_email r.1.2 = Throttle.fail perEmail_options (Throttle.retryAfterS perEmail_options (th_email th) now [email_key email]).1 now [email_key email]
           ∧ th_ip r.1.2 = Throttle.fail perIp_options (Throttle.retryAfterS perIp_options (th_ip th) now [ip]).1 now [ip])
  end.
Proof.
  unfold login. destruct (Throttle.retryAfterS perEmail_options _ _ _) as [he we] eqn:Hwe.
  destruct (Throttle.retryAfterS perIp_options _ _ _) as [hi wi] eqn:Hwi.
  destruct (Z.ltb_spec 0 (Z.max we wi)); [by split|]. unfold checkCredentials.
  destruct (user_by_email db (trim email)) as [u|] eqn:Hu; [|by split].
  destruct (verifyPassword password _ && _ && _) eqn:Hok; [|by split]. rewrite !andb_true_iff in Hok. destruct Hok as [[Hv Hh] Hd].
  apply negb_true_iff in Hd. split; [done|]. split; [cbn; lia|]. split; [cbn; lia|]. cbn in Hv. destruct (us_passwordHash u) as [hash|] eqn:Hhash; [|done].
  by exists u, hash.
Qed.

(** ** Examples *)

Definition demo_user (id email : string) (disabled : bool) : User :=
  {| us_id := id; us_email := email; us_name := id; us_passwordHash := Some ("hash of " +++ id); us_disabled := disabled; us_lastLoginAt := None |}.
Definition demo_provider : Provider :=
  {| pv_id := "p"; pv_slug := "corp"; pv_name := "Corp"; pv_issuer := "https://corp"; pv_clientId := "incus"; pv_groupsClaim := "groups";
     pv_createUsers := true; pv_enabled := true |}.
Definition demo_member (group user : string) (provider : option string) : Member :=
  {| mb_groupId := group; mb_userId := Some user; mb_serviceAccountId := None; mb_providerId := provider |}.
Definition demo_identity (sub user : string) (groups : list string) : Identity :=
  {| ui_providerId := "p"; ui_subject := sub; ui_userId := user; ui_groups := groups; ui_lastLoginAt := None |}.
Definition demo_db (identities : list Identity) : Db :=
  {| db_users := [demo_user "ada" "Ada@corp.example" false; demo_user "bob" "bob@corp.example" true]; db_identities := identities;
     db_mappings := [{| gm_providerId := "p"; gm_claim := "ops"; gm_groupId := "admins" |}; {| gm_providerId := "p"; gm_claim := "dev"; gm_groupId := "makers" |}];
     db_members := [demo_member "makers" "ada" None; demo_member "admins" "ada" (Some "p"); demo_member "makers" "bob" (Some "p")] |}.
Definition demo_claims (email : string) (verified : bool) (groups : list string) : UpstreamClaims :=
  {| uc_sub := "s1"; uc_email := Some email; uc_emailVerified := verified; uc_name := None; uc_groups := groups |}.
Definition demo_sign_in (c : UpstreamClaims) := userForUpstream (demo_db []) demo_provider c "new" 5.

Example demo_sign_ins :
  (demo_sign_in (demo_claims "ada@corp.example" true ["dev"])).2 = SignedIn "ada" false true
  ∧ db_members (demo_sign_in (demo_claims "ada@corp.example" true ["dev"])).1 = [demo_member "makers" "ada" None; demo_member "makers" "bob" (Some "p")]
  ∧ (demo_sign_in (demo_claims "bob@corp.example" true [])).2 = Refused "This account is disabled"
  ∧ (demo_sign_in (demo_claims "eve@corp.example" false ["ops"])).2 = SignedIn "new" true true
  ∧ match (demo_sign_in (demo_claims "ada@corp.example" false [])).2 with Refused _ => True | _ => False end.
Proof. vm_compute. by repeat split. Qed.

Lemma who_signs_in_witness :
  user_by_id (demo_db []) "new" = None
  ∧ signed_in (demo_db []) demo_provider (demo_claims "ada@corp.example" true ["dev"]) "new" (demo_sign_in (demo_claims "ada@corp.example" true ["dev"])).
Proof. split; [reflexivity|]. apply (who_signs_in (demo_db []) demo_provider (demo_claims "ada@corp.example" true ["dev"]) "new" 5). reflexivity. Defined.

Lemma demo_unique : members_unique (db_members (demo_db [])).
Proof.
  assert (every (λ a, every (λ b, negb (conflicts a b) || bool_decide (a = b)) (db_members (demo_db []))) (db_members (demo_db [])) = true) as Hall by (vm_compute; reflexivity).
  intros a b Ha Hb Hc. pose proof (proj1 (every_spec _ _) (proj1 (every_spec _ _) Hall a Ha) b Hb) as Hor. cbv beta in Hor. rewrite Hc in Hor. by apply bool_decide_eq_true in Hor.
Qed.
Lemma memberships_follow_claims_witness :
  members_unique (db_members (demo_db []))
  ∧ (membership "p" "ada" "admins" ∈ db_members (syncMappedGroups (demo_db []) "p" "ada" ["dev"]).1
     ↔ "admins" ∈ wanted (demo_db []) "p" ["dev"]
       ∧ ∀ x, x ∈ db_members (demo_db []) → mine "ada" x = true → mb_groupId x = "admins" → mapped "p" "ada" x = true).
Proof. split; [exact demo_unique|]. exact (proj1 (memberships_follow_claims (demo_db []) "p" "ada" ["dev"] demo_unique) (membership "p" "ada" "admins")). Defined.

(** Two accounts of one provider are the same user (the provider gave the person a new one): a resync may
    give back what the old account had, though the new one lost it. *)
Theorem resync_revives_old_groups :
  let db := demo_db [demo_identity "new" "ada" []; demo_identity "old" "ada" ["ops"]] in
  let signed := (userForUpstream db demo_provider {| uc_sub := "new"; uc_email := None; uc_emailVerified := false; uc_name := None; uc_groups := [] |} "x" 5).1 in
  (membership "p" "ada" "admins" ∉ db_members signed) ∧ membership "p" "ada" "admins" ∈ db_members (resyncProvider signed "p").1.
Proof. vm_compute. split; [|by repeat (first [left; reflexivity|right])]. intros H. repeat (apply elem_of_cons in H as [H|H]; [discriminate H|]). by apply elem_of_nil in H. Qed.

(** The flag that an email is verified may come from userinfo for the email of the ID token. *)
Theorem verified_flag_of_another_email :
  let claims := [("sub", JStr "s"); ("email", JStr "ada@corp.example")] in
  let info := [("sub", JStr "s"); ("email", JStr "mallory@corp.example"); ("email_verified", JBool true)] in
  let c := claims_of demo_provider true {| an_discovered := Ok true; an_token_ok := true; an_token_status := 200; an_id_token := Some "t";
             an_access_token := Some "a"; an_token_error := None; an_userinfo := info |} claims "s" in
  uc_email c = Some "ada@corp.example" ∧ uc_emailVerified c = true.
Proof. vm_compute. done. Qed.
