(* ===== verification/Uri.v ===== *)
(** * Uri: percent encoding

    [encodeURIComponent] and [decodeURIComponent] of ECMAScript. Where this
    file is used a string is the UTF-8 encoding of a JavaScript string (one
    without lone surrogates). *)

From S2P Require Import Prelude JsString Digits JsNumber.
Open Scope Z_scope.

Definition code (c : Ascii.ascii) : Z := Z.of_N (Ascii.N_of_ascii c).
Definition of_code (z : Z) : Ascii.ascii := Ascii.ascii_of_N (Z.to_N z).

(** ** UTF-8 *)

(** How many continuation bytes are missing, and the range of the next. *)
Record Utf8 := { missing : nat; lowest : Z; highest : Z }.
Definition utf8_start : Utf8 := {| missing := 0; lowest := 128; highest := 191 |}.
Definition after_lead (n : nat) (lo hi : Z) : option Utf8 := Some {| missing := n; lowest := lo; highest := hi |}.

Definition utf8_step (st : Utf8) (b : Z) : option Utf8 :=
  match missing st with
  | S n => if (lowest st <=? b) && (b <=? highest st) then after_lead n 128 191 else None
  | O =>
      if b <? 128 then Some utf8_start
      else if (194 <=? b) && (b <=? 223) then after_lead 1 128 191
      else if b =? 224 then after_lead 2 160 191
      else if b =? 237 then after_lead 2 128 159
      else if (225 <=? b) && (b <=? 239) then after_lead 2 128 191
      else if b =? 240 then after_lead 3 144 191
      else if (241 <=? b) && (b <=? 243) then after_lead 3 128 191
      else if b =? 244 then after_lead 3 128 143
      else None
  end.

Fixpoint utf8_from (st : Utf8) (s : string) : bool :=
  match s with
  | EmptyString => (missing st =? 0)%nat
  | String c s => match utf8_step st (code c) with Some st => utf8_from st s | None => false end
  end.
Definition utf8 (s : string) : bool := utf8_from utf8_start s.

(** ** Encoding *)

Definition unreserved (c : Ascii.ascii) : bool :=
  is_alnum c || some (char_is c) ["-"; "_"; "."; "!"; "~"; "*"; "'"; "("; ")"]%char.

Definition hex_digit (n : Z) : Ascii.ascii := of_code (if n <? 10 then n + 48 else n + 55).

Fixpoint encodeURIComponent (s : string) : string :=
  match s with
  | EmptyString => EmptyString
  | String c s =>
      if unreserved c then String c (encodeURIComponent s)
      else String "%" (String (hex_digit (code c / 16)) (String (hex_digit (code c mod 16)) (encodeURIComponent s)))
  end.

(** ** Decoding *)

Definition hex_pair (a b : Ascii.ascii) : option Z := x ← hex_val a; y ← hex_val b; Some (16 * x + y).

(** [None] is the exception. *)
Fixpoint decode_from (st : Utf8) (s : string) : option string :=
  match s with
  | EmptyString => if (missing st =? 0)%nat then Some EmptyString else None
  | String c r =>
      if char_is c "%" then
        match r with
        | String a (String b r) =>
            v ← hex_pair a b; st ← utf8_step st v; String (of_code v) <$> decode_from st r
        | _ => None
        end
      else if (missing st =? 0)%nat then String c <$> decode_from st r
      else None
  end.
Definition decodeURIComponent (s : string) : option string := decode_from utf8_start s.

(** ** Round trip *)

Lemma code_bounds c : 0 ≤ code c < 256.
Proof. unfold code. pose proof (Ascii.N_ascii_bounded c). lia. Qed.

Lemma of_code_code c : of_code (code c) = c.
Proof. unfold of_code, code. rewrite N2Z.id. apply Ascii.ascii_N_embedding. Qed.

Lemma hex_digit_val n : 0 ≤ n < 16 → hex_val (hex_digit n) = Some n.
Proof.
  intros Hn. assert (n ∈ seqZ 0 16) as Hin by (apply elem_of_seqZ; lia).
  assert (every (λ n, bool_decide (hex_val (hex_digit n) = Some n)) (seqZ 0 16) = true) as Hall by (by vm_compute).
  apply (proj1 (every_spec _ _) Hall) in Hin. by apply bool_decide_eq_true in Hin.
Qed.

Lemma unreserved_ascii c : unreserved c = true → code c < 128 ∧ char_is c "%" = false.
Proof. destruct c as [[] [] [] [] [] [] [] []]; vm_compute; intros [=]; by split. Qed.

Definition state_wf (st : Utf8) : Prop := missing st = 0%nat → st = utf8_start.

Lemma utf8_step_wf st b st' : utf8_step st b = Some st' → state_wf st'.
Proof.
  unfold utf8_step, after_lead, state_wf. destruct (missing st) as [|n].
  - repeat case_match; intros [= <-]; simpl; done.
  - destruct (_ && _); [|done]. intros [= <-]. simpl. by intros ->.
Qed.

Lemma utf8_step_ascii st b st' : state_wf st → utf8_step st b = Some st' → 128 ≤ lowest st → b < 128 → st = utf8_start ∧ st' = utf8_start.
Proof.
  unfold utf8_step, state_wf. destruct (missing st) as [|n]; intros Hwf Hst Hlo Hb.
  - rewrite (proj2 (Z.ltb_lt _ _) Hb) in Hst. injection Hst as <-. by rewrite Hwf.
  - rewrite (proj2 (Z.leb_gt _ _)) in Hst by lia. done.
Qed.

Lemma utf8_step_lowest st b st' : utf8_step st b = Some st' → 128 ≤ lowest st'.
Proof.
  unfold utf8_step, after_lead. destruct (missing st) as [|n]; [|destruct (_ && _); [|done]];
    repeat case_match; intros [= <-]; simpl; lia.
Qed.

Lemma decode_encode_from st s : state_wf st → 128 ≤ lowest st → utf8_from st s = true →
  decode_from st (encodeURIComponent s) = Some s.
Proof.
  revert st. induction s as [|c s IH]; intros st Hwf Hlo Hs; simpl in *; [by rewrite Hs|].
  destruct (utf8_step st (code c)) as [st'|] eqn:Est; [|done].
  pose proof (utf8_step_wf _ _ _ Est) as Hwf'. pose proof (utf8_step_lowest _ _ _ Est) as Hlo'.
  specialize (IH st' Hwf' Hlo' Hs). destruct (unreserved c) eqn:Eu.
  - apply unreserved_ascii in Eu as [Hc Hp]. destruct (utf8_step_ascii _ _ _ Hwf Est Hlo Hc) as [-> ->].
    simpl. rewrite Hp. simpl. by rewrite IH.
  - pose proof (code_bounds c) as Hb. simpl. unfold hex_pair. rewrite !hex_digit_val.
    + simpl. replace (16 * (code c / 16) + code c mod 16) with (code c) by (pose proof (Z.div_mod (code c) 16); lia).
      rewrite Est. simpl. by rewrite IH, of_code_code.
    + split; [apply Z.div_pos; lia|apply Z.div_lt_upper_bound; lia].
    + apply Z.mod_pos_bound. lia.
Qed.

Lemma decode_encode s : utf8 s = true → decodeURIComponent (encodeURIComponent s) = Some s.
Proof. by apply decode_encode_from. Qed.

(** Plain text decodes to itself. *)
Lemma decode_plain s : has_char "%" s = false → decodeURIComponent s = Some s.
Proof.
  unfold decodeURIComponent. induction s as [|c s IH]; simpl; [done|]. intros [Hc Hs]%orb_false_elim.
  rewrite Hc. simpl. by rewrite IH.
Qed.
