(* ===== verification/Rewrite.v ===== *)
(** * Rewrite: names in the federation

    Models [federation/rewrite.ts]: what belongs to a cluster is written
    [name@cluster]; requests lose the qualifiers, responses gain them. Strings
    are UTF-8. JSON objects are their entries in order, each key once; [in] and
    indexing of the two fixed tables do not see [Object.prototype]. *)

From S2P Require Import Prelude JsString Effects Uri.
Open Scope nat_scope.

(** ** Qualified names *)

Definition qualify (name cluster : string) : string := name +++ "@" +++ cluster.

Definition split (s : string) (clusters : list string) : string * option string :=
  match last_index_of "@" s with
  | Some (S n) =>
      let cluster := str_drop (S (S n)) s in
      if includes clusters cluster then (str_take (S n) s, Some cluster) else (s, None)
  | _ => (s, None)
  end.

Inductive Target := One (cluster : string) | AllClusters | Conflict (clusters : list string).

(** [s.replace(/\+/g, " ")] *)
Fixpoint plus_to_space (s : string) : string :=
  match s with
  | EmptyString => EmptyString
  | String c s => String (if char_is c "+" then " "%char else c) (plus_to_space s)
  end.

Definition decode (s : string) : string := default s (decodeURIComponent (plus_to_space s)).

(** ** Paths and queries *)

Record Param := { p_k : string; p_v : option string; p_raw : string }.

Definition param (p : string) : Param :=
  match index_of "=" p with
  | None => {| p_k := decode p; p_v := None; p_raw := p |}
  | Some eq => {| p_k := decode (str_take eq p); p_v := Some (decode (str_drop (S eq) p)); p_raw := p |}
  end.

Definition parse (pathAndQuery : string) : list string * list Param :=
  let '(path, query) := match index_of "?" pathAndQuery with
                        | None => (pathAndQuery, EmptyString)
                        | Some q => (str_take q pathAndQuery, str_drop (S q) pathAndQuery)
                        end in
  (split_on "/" path, if truthy_str query then param <$> split_on "&" query else []).

Definition names_cluster (p : Param) : bool := bool_decide (p_k p = "project") || bool_decide (p_k p = "target").

Definition clustersIn (pathAndQuery : string) (clusters : list string) : list string :=
  let '(segs, params) := parse pathAndQuery in
  set_of ((segs ≫= λ s, match (split (decode s) clusters).2 with
                        | Some c => if truthy_str c then [c] else []
                        | None => []
                        end)
          ++ (params ≫= λ p, match p_v p with
                             | Some v =>
                                 if names_cluster p && truthy_str v then
                                   match (split v clusters).2 with
                                   | Some c => if truthy_str c then [c] else []
                                   | None => []
                                   end
                                 else []
                             | None => []
                             end)).

(** ** Which cluster a request is for *)

(** The cluster a console page is about: [/^\/inventory\/([^/]+)/]. *)
Definition inventory_page (path : string) : option string :=
  match split_on "/" path with
  | EmptyString :: "inventory" :: page :: _ => if truthy_str page then Some page else None
  | _ => None
  end.

(** [pathname]: the path of a URL, where it parses. *)
Definition from_referer (pathname : string → option string) (referer : string) (clusters : list string) : Target :=
  let path := default EmptyString (pathname referer) in
  match clustersIn path clusters with
  | c :: _ => One c
  | [] =>
      match inventory_page path with
      | Some page => if includes clusters (decode page) then One (decode page) else AllClusters
      | None => AllClusters
      end
  end.

Definition targetOf (pathname : string → option string) (pathAndQuery : string) (referer : option string)
    (clusters : list string) (scope : option string) : Target :=
  match clustersIn pathAndQuery clusters with
  | [c] => One c
  | (_ :: _ :: _) as own => Conflict own
  | [] =>
      if bool_decide (scope = Some "all") then AllClusters
      else
        match scope with
        | Some c => if truthy_str c && includes clusters c then One c
                    else match referer with
                         | Some r => if truthy_str r then from_referer pathname r clusters else AllClusters
                         | None => AllClusters
                         end
        | None => match referer with
                  | Some r => if truthy_str r then from_referer pathname r clusters else AllClusters
                  | None => AllClusters
                  end
        end
  end.

(** ** Requests *)

Definition stripName (s cluster : string) : string :=
  let suffix := "@" +++ cluster in
  if ends_with suffix s then str_take (String.length s - String.length cluster - 1) s else s.

Definition strip_seg (cluster s : string) : string :=
  let d := decode s in
  let n := stripName d cluster in
  if bool_decide (n = d) then s else encodeURIComponent n.

Definition strip_param (cluster : string) (standalone : bool) (p : Param) : list string :=
  match p_v p with
  | None => [p_raw p]
  | Some v =>
      let n := stripName v cluster in
      if bool_decide (p_k p = "target") && standalone && bool_decide (n = cluster) then []
      else [if bool_decide (n = v) then p_raw p else encodeURIComponent (p_k p) +++ "=" +++ encodeURIComponent n]
  end.

Definition stripRequest (pathAndQuery cluster : string) (standalone : bool) : string :=
  let '(segs, params) := parse pathAndQuery in
  let path := join "/" (strip_seg cluster <$> segs) in
  match params ≫= strip_param cluster standalone with
  | [] => path
  | kept => path +++ "?" +++ join "&" kept
  end.

Definition strip_string (cluster s : string) : string :=
  if starts_with "/1.0/" s then stripRequest s cluster false else stripName s cluster.

Fixpoint stripBody (v : Json) (cluster : string) : Json :=
  match v with
  | JStr s => JStr (strip_string cluster s)
  | JArr l => JArr (map (λ x, stripBody x cluster) l)
  | JObj l => JObj (map (λ kx, (kx.1, stripBody kx.2 cluster)) l)
  | v => v
  end.

(** ** Responses *)

Definition GLOBAL_NAME_AT (kind : string) : option nat :=
  if includes ["storage-pools"; "operations"; "projects"; "certificates"; "warnings"; "network-integrations"] kind
  then Some 3 else None.
Definition CLUSTER_NAME_AT (kind : string) : option nat := if includes ["members"; "groups"] kind then Some 4 else None.

Definition projectScoped (segs : list string) : bool :=
  match segs !! 2 with
  | None => false
  | Some kind =>
      if negb (truthy_str kind) then false
      else if bool_decide (kind = "storage-pools") then 4 <? length segs
      else negb (bool_decide (is_Some (GLOBAL_NAME_AT kind))) && negb (includes ["cluster"; "events"; "resources"; "metrics"; "auth"] kind)
  end.

Record Ctx := { c_cluster : string; c_standalone : bool }.

Definition q (s : string) (c : Ctx) : string := if truthy_str s then qualify s (c_cluster c) else s.
Definition member (s : string) (c : Ctx) : string :=
  if c_standalone c && (bool_decide (s = "none") || bool_decide (s = EmptyString))
  then qualify (c_cluster c) (c_cluster c) else q s c.

Definition is_project (p : Param) : bool :=
  match p_v p with Some _ => bool_decide (p_k p = "project") | None => false end.

Definition qualify_param (c : Ctx) (p : Param) : string :=
  match p_v p with
  | Some v =>
      if bool_decide (p_k p = "project") then "project=" +++ q v c
      else if bool_decide (p_k p = "target") then "target=" +++ member v c
      else p_raw p
  | None => p_raw p
  end.

Definition qualifyUrl (url : string) (c : Ctx) : string :=
  let '(segs, params) := parse url in
  let kind := default EmptyString (segs !! 2) in
  let at_ := if bool_decide (kind = "cluster") then CLUSTER_NAME_AT (default EmptyString (segs !! 3)) else GLOBAL_NAME_AT kind in
  let segs := match at_ with
              | Some i => match segs !! i with
                          | Some s => if truthy_str s then <[i := q (decode s) c]> segs else segs
                          | None => segs
                          end
              | None => segs
              end in
  let out := (qualify_param c <$> params)
             ++ (if negb (some is_project params) && projectScoped segs then ["project=" +++ qualify "default" (c_cluster c)] else []) in
  let path := join "/" segs in
  match out with [] => path | _ => path +++ "?" +++ join "&" out end.

Definition has_key (k : string) (l : list (string * Json)) : bool := includes l.*1 k.
Definition get_key (k : string) (l : list (string * Json)) : option Json := snd <$> js_find (λ kx, bool_decide (kx.1 = k)) l.

Definition isOperation (l : list (string * Json)) : bool :=
  match get_key "id" l with Some (JStr _) => has_key "resources" l | _ => false end.

(** An element of [locations], [groups] or [members]. *)
Definition qualify_member (k : string) (c : Ctx) (m : Json) : Json :=
  match m with
  | JStr s => JStr (if bool_decide (k = "groups") then q s c else member s c)
  | m => m
  end.

Definition lists_members (identity : list string) (k : string) : bool :=
  bool_decide (k = "locations") || (includes identity "server_name" && bool_decide (k = "groups"))
  || (includes identity "members" && bool_decide (k = "members")).

Fixpoint walk (v : Json) (c : Ctx) (identity : list string) : Json :=
  match v with
  | JStr s => JStr (if starts_with "/1.0/" s then qualifyUrl s c else s)
  | JArr l => JArr (map (λ x, walk x c identity) l)
  | JObj l =>
      JObj (map (λ kx,
        (kx.1,
         match kx.2 with
         | JStr s =>
             if includes ("project" :: "pool" :: identity) kx.1 then JStr (q s c)
             else if bool_decide (kx.1 = "location") then JStr (member s c)
             else if bool_decide (kx.1 = "id") && isOperation l then JStr (q s c)
             else if includes ["config"; "expanded_config"] kx.1 then kx.2
             else walk kx.2 c []
         | JArr xs =>
             if lists_members identity kx.1 then JArr (qualify_member kx.1 c <$> xs)
             else if includes ["config"; "expanded_config"] kx.1 then kx.2
             else walk kx.2 c []
         | _ => if includes ["config"; "expanded_config"] kx.1 then kx.2 else walk kx.2 c []
         end)) l)
  | v => v
  end.

Definition identityOf (path : string) : list string :=
  let segs := split_on "/" (default EmptyString (head (split_on "?" path))) in
  let kind := segs !! 2 in
  if bool_decide (kind = Some "projects") || bool_decide (kind = Some "network-integrations")
     || (bool_decide (kind = Some "storage-pools") && (length segs <=? 4)) then ["name"]
  else if bool_decide (kind = Some "certificates") then ["fingerprint"]
  else if bool_decide (kind = Some "warnings") then ["uuid"]
  else if bool_decide (kind = Some "cluster") && bool_decide (segs !! 3 = Some "members") then ["server_name"]
  else if bool_decide (kind = Some "cluster") && bool_decide (segs !! 3 = Some "groups") then ["name"; "members"]
  else [].

Definition is_array (v : Json) : bool := match v with JArr _ => true | _ => false end.

(** Operation lists: [{running: [...], success: [...]}]. The recursive call is on arrays. *)
Definition walk_list (v : Json) (c : Ctx) (identity : list string) : Json :=
  match v with JArr l => JArr ((λ m, walk m c identity) <$> l) | v => walk v c identity end.

Definition walkMetadata (x : Json) (c : Ctx) (identity : list string) : Json :=
  match x with
  | JObj l =>
      if negb (has_key "id" l) && every (λ kx, is_array kx.2) l && (0 <? length l)
      then JObj ((λ kx, (kx.1, walk_list kx.2 c identity)) <$> l)
      else walk x c identity
  | x => walk_list x c identity
  end.

(** [metadata] comes last, as the source adds it to what was walked. *)
Definition qualifyResponse (path : string) (body : Json) (cluster : string) (standalone : bool) : Json :=
  let c := {| c_cluster := cluster; c_standalone := standalone |} in
  match body with
  | JObj l =>
      let rest := js_filter (λ kx, negb (bool_decide (kx.1 = "metadata"))) l in
      match walk (JObj rest) c [] with
      | JObj out => JObj (out ++ match get_key "metadata" l with
                                 | Some m => [("metadata", walkMetadata m c (identityOf path))]
                                 | None => []
                                 end)
      | v => v
      end
  | v => walk v c []
  end.

(** ** Splitting and stripping *)

Definition cluster_name (c : string) : Prop := has_char "@" c = false.

Lemma qualify_string n c : qualify n c = n +++ String "@" c.
Proof. done. Qed.

Lemma split_qualified n c cs : cluster_name c → n ≠ EmptyString → c ∈ cs → split (qualify n c) cs = (n, Some c).
Proof.
  intros Hc Hn Hin. unfold split. rewrite qualify_string, last_index_of_append by done.
  destruct n as [|a n]; [done|]. simpl String.length. cbv iota.
  change (S (S (String.length n))) with (S (String.length (String a n))).
  assert (str_drop (S (String.length (String a n))) (String a n +++ String "@" c) = c) as ->.
  { simpl. clear. induction n as [|x n IH]; simpl; [by destruct c|done]. }
  rewrite (proj2 (includes_spec cs c)) by done. do 2 f_equal. apply (str_take_append (String a n)).
Qed.

Lemma split_some s cs n c : split s cs = (n, Some c) → s = qualify n c ∧ n ≠ EmptyString ∧ c ∈ cs ∧ cluster_name c.
Proof.
  unfold split. destruct (last_index_of "@" s) as [[|i]|] eqn:E; [done| |done].
  destruct (includes cs _) eqn:Hin; [|done]. apply includes_spec in Hin. intros [= <- <-].
  destruct (last_index_of_inv _ _ _ E) as [Hs Hc]. split_and!; [done| |done|done].
  intros He. destruct s as [|a s]; [done|]. discriminate He.
Qed.

(** A string is read as a name on a cluster exactly when it is that name qualified with a known
    cluster; whatever is qualified is read back as it was. *)
Theorem split_exact s cs n c : (∀ x, x ∈ cs → cluster_name x) →
  split s cs = (n, Some c) ↔ s = qualify n c ∧ n ≠ EmptyString ∧ c ∈ cs.
Proof.
  intros Hcs. split; [by intros (? & ? & ? & _)%split_some|]. intros (-> & Hn & Hin). by apply split_qualified; [apply Hcs|..].
Qed.

Lemma stripName_qualified n c : stripName (qualify n c) c = n.
Proof.
  unfold stripName. change (qualify n c) with (n +++ ("@" +++ c)). rewrite ends_with_append.
  rewrite length_append. simpl. replace (String.length n + S (String.length c) - String.length c - 1)%nat with (String.length n) by lia.
  apply str_take_append.
Qed.

Lemma stripName_other s c : ends_with ("@" +++ c) s = false → stripName s c = s.
Proof. unfold stripName. by intros ->. Qed.

(** ** Responses read back *)

(** No string of [v] is a URL or already ends in the cluster's qualifier. *)
Fixpoint plain (c : string) (v : Json) : bool :=
  match v with
  | JStr s => negb (starts_with "/1.0/" s) && negb (ends_with ("@" +++ c) s)
  | JArr l => forallb (plain c) l
  | JObj l => forallb (λ kx, plain c kx.2) l
  | _ => true
  end.

Lemma starts_with_at p s r : has_char "@" p = false → starts_with p s = false → starts_with p (s +++ String "@" r) = false.
Proof.
  unfold starts_with. revert s. induction p as [|a p IH]; intros s Hp Hs; [by destruct s|].
  simpl in Hp. apply orb_false_elim in Hp as [Ha Hp]. destruct s as [|b s]; simpl in *.
  - destruct (Ascii.ascii_dec a "@") as [->|]; [|done]. unfold char_is in Ha. by rewrite bool_decide_eq_true_2 in Ha.
  - destruct (Ascii.ascii_dec a b); [by apply IH|done].
Qed.

Lemma strip_plain c s : plain c (JStr s) = true → strip_string c s = s.
Proof.
  simpl. intros [Hu%negb_true_iff He%negb_true_iff]%andb_prop. unfold strip_string. rewrite Hu. by apply stripName_other.
Qed.

Lemma strip_q c s : plain c (JStr s) = true → strip_string c (q s {| c_cluster := c; c_standalone := false |}) = s.
Proof.
  intros Hp. unfold q. destruct (truthy_str s); [|by apply strip_plain]. simpl in *.
  apply andb_prop in Hp as [Hu _]. apply negb_true_iff in Hu. unfold strip_string.
  rewrite qualify_string, starts_with_at by done. rewrite <-qualify_string. apply stripName_qualified.
Qed.

Lemma map_plain {A} (f : A → A) (p : A → bool) l :
  Forall (λ x, p x = true → f x = x) l → forallb p l = true → map f l = l.
Proof. induction 1 as [|x l Hx Hl IH]; simpl; [done|]. intros [Hp Hps]%andb_prop. by rewrite Hx, IH. Qed.

(** Nothing plain is touched by stripping. *)
Lemma strip_plain_json c v : plain c v = true → stripBody v c = v.
Proof.
  induction v as [| | |s|l IH|l IH] using json_induction; try done.
  - intros Hp. simpl. by rewrite strip_plain.
  - simpl. intros Hp. f_equal. by apply (map_plain _ (plain c)).
  - simpl. intros Hp. f_equal. apply (map_plain _ (λ kx, plain c kx.2)); [|done].
    eapply Forall_impl; [exact IH|]. intros [k x] Hx Hpx. simpl in *. by rewrite Hx.
Qed.

Abbreviation clustered c := {| c_cluster := c; c_standalone := false |}.

Lemma strip_member c k x : plain c x = true → stripBody (qualify_member k (clustered c) x) c = x.
Proof.
  intros Hp. destruct x as [| | |s|l|l]; try by apply strip_plain_json. cbn [qualify_member stripBody].
  f_equal. destruct (bool_decide _); [by apply strip_q|]. unfold member. simpl. by apply strip_q.
Qed.

Lemma strip_entry c l identity k x :
  (∀ identity, plain c x = true → stripBody (walk x (clustered c) identity) c = x) → plain c x = true →
  stripBody
    (match x with
     | JStr s =>
         if includes ("project" :: "pool" :: identity) k then JStr (q s (clustered c))
         else if bool_decide (k = "location") then JStr (member s (clustered c))
         else if bool_decide (k = "id") && isOperation l then JStr (q s (clustered c))
         else if includes ["config"; "expanded_config"] k then x
         else walk x (clustered c) []
     | JArr xs =>
         if lists_members identity k then JArr (qualify_member k (clustered c) <$> xs)
         else if includes ["config"; "expanded_config"] k then x
         else walk x (clustered c) []
     | _ => if includes ["config"; "expanded_config"] k then x else walk x (clustered c) []
     end) c = x.
Proof.
  intros IH Hp. assert (stripBody x c = x) as Hx by (by apply strip_plain_json).
  specialize (IH [] Hp). destruct x as [| | |s|xs|xs]; try by destruct (includes _ k).
  - repeat case_match; try done; cbn [stripBody]; f_equal; by apply strip_q.
  - destruct (lists_members _ _); [|by destruct (includes _ k)]. cbn [stripBody]. f_equal.
    simpl in Hp. clear IH Hx. induction xs as [|x xs IHx]; csimpl; [done|]. simpl in Hp. apply andb_prop in Hp as [Hx Hxs].
    rewrite (IHx Hxs). f_equal. by apply strip_member.
Qed.

(** C35: writing back what was read gives the cluster what it had: on a cluster of several members, stripping
    undoes qualifying on every value whose strings are not URLs and do not already end in the qualifier. *)
Theorem strip_undoes_qualify c v : ∀ identity, plain c v = true → stripBody (walk v (clustered c) identity) c = v.
Proof.
  induction v as [| | |s|l IH|l IH] using json_induction; intros identity Hp; try done.
  - simpl. pose proof Hp as Hp'. simpl in Hp'. apply andb_prop in Hp' as [Hu _]. apply negb_true_iff in Hu.
    rewrite Hu. by rewrite strip_plain.
  - cbn [walk stripBody]. f_equal. rewrite List.map_map. apply (map_plain _ (plain c)); [|done].
    eapply Forall_impl; [exact IH|]. auto.
  - cbn [walk stripBody]. f_equal. rewrite List.map_map. apply (map_plain _ (λ kx, plain c kx.2)); [|done].
    eapply Forall_impl; [exact IH|]. intros [k x] Hx Hpx. cbn [fst snd] in *. f_equal. by apply strip_entry.
Qed.

(** Configuration is not qualified in responses but is stripped in requests, so a value of a key such as
    [user.contact] that ends in [@] and the cluster's name loses that ending when it is written back. *)
Theorem config_value_lost c k s :
  starts_with "/1.0/" (qualify s c) = false →
  let instance := JObj [("config", JObj [(k, JStr (qualify s c))])] in
  qualifyResponse "/1.0/instances/web" instance c false = instance
  ∧ stripBody instance c = JObj [("config", JObj [(k, JStr s)])].
Proof.
  intros Hu instance. split; [done|]. simpl. unfold strip_string. rewrite Hu. by rewrite stripName_qualified.
Qed.

(** ** Targets *)

Lemma clustersIn_known p cs c : c ∈ clustersIn p cs → c ∈ cs.
Proof.
  unfold clustersIn. destruct (parse p) as [segs params]. rewrite elem_of_set_of, elem_of_app.
  intros [Hc|Hc]; apply list_elem_of_bind in Hc as (x & Hc & _).
  - destruct (split (decode x) cs) as [n o] eqn:E. simpl in Hc. destruct o as [c'|]; [|by apply elem_of_nil in Hc].
    destruct (truthy_str c'); [|by apply elem_of_nil in Hc]. apply list_elem_of_singleton in Hc as ->. by eapply split_some.
  - destruct (p_v x) as [v|]; [|by apply elem_of_nil in Hc]. destruct (_ && _); [|by apply elem_of_nil in Hc].
    destruct (split v cs) as [n o] eqn:E. simpl in Hc. destruct o as [c'|]; [|by apply elem_of_nil in Hc].
    destruct (truthy_str c'); [|by apply elem_of_nil in Hc]. apply list_elem_of_singleton in Hc as ->. by eapply split_some.
Qed.

Lemma clustersIn_nodup p cs : NoDup (clustersIn p cs).
Proof. unfold clustersIn. destruct (parse p). apply NoDup_set_of. Qed.

Lemma from_referer_known pathname r cs : match from_referer pathname r cs with One c => c ∈ cs | AllClusters => True | Conflict _ => False end.
Proof.
  unfold from_referer. destruct (clustersIn _ cs) as [|c l] eqn:E.
  - destruct (inventory_page _) as [p|]; [|done]. destruct (includes cs _) eqn:Hi; [|done]. by apply includes_spec in Hi.
  - apply (clustersIn_known (default EmptyString (pathname r))). rewrite E. by left.
Qed.

(** A request is only ever sent to a known cluster; what its own path and query name decides before the
    page it was made from, and naming two clusters is refused rather than resolved. *)
Theorem targetOf_exact pathname p referer cs scope :
  match targetOf pathname p referer cs scope with
  | One c => c ∈ cs ∧ (clustersIn p cs = [c] ∨ clustersIn p cs = [])
  | AllClusters => clustersIn p cs = []
  | Conflict own => own = clustersIn p cs ∧ NoDup own ∧ 2 ≤ length own ∧ ∀ c, c ∈ own → c ∈ cs
  end
  ∧ (∀ c, clustersIn p cs = [c] → targetOf pathname p referer cs scope = One c).
Proof.
  unfold targetOf. pose proof (clustersIn_known p cs) as Hk. pose proof (clustersIn_nodup p cs) as Hnd.
  destruct (clustersIn p cs) as [|c [|c' l]].
  - split; [|done]. assert (∀ r, match (if truthy_str r then from_referer pathname r cs else AllClusters) with
        | One c => c ∈ cs ∧ ([] = [c] ∨ ([] : list string) = []) | AllClusters => ([] : list string) = []
        | Conflict own => own = [] ∧ NoDup own ∧ 2 ≤ length own ∧ ∀ c, c ∈ own → c ∈ cs end) as Href.
    { intros r. destruct (truthy_str r); [|done]. pose proof (from_referer_known pathname r cs) as Hr.
      destruct (from_referer pathname r cs); [auto|done|done]. }
    destruct (bool_decide _); [done|]. destruct scope as [s|].
    + destruct (truthy_str s && includes cs s) eqn:Es.
      * apply andb_prop in Es as [_ Es]. apply includes_spec in Es. auto.
      * destruct referer; [apply Href|done].
    + destruct referer; [apply Href|done].
  - split; [|by intros ? [= ->]]. split; [apply Hk; by left|by left].
  - split; [|done]. split_and!; [done|done|simpl; lia|exact Hk].
Qed.

(** ** Concrete requests and responses *)

Definition demo_clusters : list string := ["cluster-b"; "cluster-d"].

Example demo_target : targetOf (λ _, None) "/1.0/instances?project=acme%40cluster-b&recursion=2" None demo_clusters None = One "cluster-b".
Proof. by vm_compute. Qed.

Example demo_strip :
  stripRequest "/1.0/storage-pools/default%40cluster-b/volumes/custom/v1?project=acme%40cluster-b&target=d1%40cluster-b" "cluster-b" false
  = "/1.0/storage-pools/default/volumes/custom/v1?project=acme&target=d1".
Proof. by vm_compute. Qed.

Example demo_url : qualifyUrl "/1.0/storage-pools/local/volumes/custom/v1?project=acme&target=d2" (clustered "cluster-d")
  = "/1.0/storage-pools/local@cluster-d/volumes/custom/v1?project=acme@cluster-d&target=d2@cluster-d".
Proof. by vm_compute. Qed.

Lemma split_exact_witness : split "a@b@cluster-d" demo_clusters = ("a@b", Some "cluster-d").
Proof.
  apply (split_exact "a@b@cluster-d" demo_clusters "a@b" "cluster-d"); [|by vm_compute; split_and!; [| |right; left]].
  intros x [->|[->|Hx]%elem_of_cons]%elem_of_cons; [done|done|by apply elem_of_nil in Hx].
Defined.

Definition demo_instance : Json :=
  JObj [("name", JStr "web"); ("project", JStr "acme"); ("location", JStr "d1");
        ("devices", JObj [("root", JObj [("pool", JStr "local")])])].

Lemma strip_undoes_qualify_witness :
  walk demo_instance (clustered "cluster-d") ["name"] ≠ demo_instance
  ∧ stripBody (walk demo_instance (clustered "cluster-d") ["name"]) "cluster-d" = demo_instance.
Proof. split; [by vm_compute|]. apply (strip_undoes_qualify "cluster-d" demo_instance ["name"]). reflexivity. Defined.

Lemma config_value_lost_witness :
  stripBody (JObj [("config", JObj [("user.contact", JStr "ops@prod")])]) "prod"
  = JObj [("config", JObj [("user.contact", JStr "ops")])].
Proof. exact (proj2 (config_value_lost "prod" "user.contact" "ops" eq_refl)). Defined.
