(* ===== verification/Merge.v ===== *)
(** * Merge: answers of several clusters as one

    Models [federation/merge.ts] (without the views of a standalone server).
    An answer's metadata that is missing is [JNull]; a resource in a project's
    state has a limit and a usage. *)

From S2P Require Import Prelude JsString Effects Uri Rewrite.
Open Scope Z_scope.

Record Answer := { an_cluster : string; an_status : Z; an_json : option Json }.
Record Merged := { mg_status : Z; mg_body : Json }.

(** ** Objects *)

Definition Obj := list (string * Json).
(** [{ ...v }] *)
Definition spread (v : Json) : Obj := match v with JObj l => l | _ => [] end.
Definition field (k : string) (v : Json) : option Json := get_key k (spread v).
(** [{ ...o, k: v }] *)
Definition set_key (o : Obj) (kv : string * Json) : Obj := map_set o kv.1 kv.2.
Definition with_keys (o : Obj) (l : list (string * Json)) : Obj := foldl set_key o l.

Definition sync (metadata : Json) : Merged :=
  {| mg_status := 200;
     mg_body := JObj [("type", JStr "sync"); ("status", JStr "Success"); ("status_code", JNum 200); ("operation", JStr EmptyString);
                      ("error_code", JNum 0); ("error", JStr EmptyString); ("metadata", metadata)] |}.
Definition error (status : Z) (msg : string) : Merged :=
  {| mg_status := status; mg_body := JObj [("type", JStr "error"); ("error", JStr msg); ("error_code", JNum status)] |}.
Definition isObj (v : Json) : bool := match v with JObj _ => true | _ => false end.

Definition untrustedServer : Merged :=
  sync (JObj [("api_extensions", JArr []); ("api_status", JStr "stable"); ("api_version", JStr "1.0"); ("auth", JStr "untrusted");
              ("public", JBool false); ("auth_methods", JArr [JStr "oidc"])]).

(** ** A project's state *)

Record Resource := { limit : Z; usage : Z }.
Abbreviation Resources := (js_map string Resource).

Definition add_resource (out : Resources) (kv : string * Resource) : Resources :=
  let '(k, v) := kv in
  match map_get out k with
  | None => map_set out k v
  | Some cur =>
      map_set out k {| limit := if (limit cur <? 0) || (limit v <? 0) then -1 else limit cur + limit v;
                       usage := usage cur + usage v |}
  end.

Definition sumResources (states : list Resources) : Resources := foldl add_resource [] (concat states).

Definition num (o : option Json) : Z := match o with Some (JNum n) => n | _ => 0 end.
Definition resources_of (s : Json) : Resources :=
  (λ kv, (kv.1, {| limit := num (field "limit" kv.2); usage := num (field "usage" kv.2) |})) <$> spread (default JNull (field "resources" s)).
Definition resources_json (r : Resources) : Json :=
  JObj ((λ kv, (kv.1, JObj [("limit", JNum (limit kv.2)); ("usage", JNum (usage kv.2))])) <$> r).

Definition sumState (states : list Json) : Json :=
  JObj (with_keys (spread (default JNull (head states))) [("resources", resources_json (sumResources (resources_of <$> states)))]).

(** ** The server *)

Definition strings (v : option Json) : list string :=
  match v with Some (JArr l) => l ≫= λ x, match x with JStr s => [s] | _ => [] end | _ => [] end.

Definition federatedServer (servers : list Json) : Json :=
  let ext := (λ s, set_of (strings (field "api_extensions" s))) <$> servers in
  let first := default JNull (head servers) in
  let api_extensions := js_filter (λ e, every (λ x, includes x e) ext) (default [] (head ext)) in
  let env := match field "environment" first with Some (JObj l) => l | _ => [] end in
  let trusted := some (λ s, match field "auth" s with Some (JStr a) => bool_decide (a = "trusted") | _ => false end) servers in
  JObj (with_keys (spread first)
    [("api_extensions", JArr (JStr <$> api_extensions));
     ("auth", if trusted then JStr "trusted" else default JNull (field "auth" first));
     ("config", JObj []);
     ("environment", JObj (with_keys env [("server_clustered", JBool true); ("server_name", JStr "incuscloud")]))]).

(** ** Projects and lists *)

Definition elements (v : Json) : list Json := match v with JArr l => l | _ => [] end.
(** [xs.flat()] *)
Definition flat (l : list Json) : list Json := l ≫= λ v, match v with JArr x => x | v => [v] end.

Definition show_nat (n : nat) : string := show_Z (Z.of_nat n).

Definition mergedProject (name : string) (same : list Json) : Json :=
  JObj (with_keys (spread (default JNull (head same)))
    [("name", JStr name); ("description", JStr (name +++ " on " +++ show_nat (length same) +++ " clusters"));
     ("used_by", JArr (same ≫= λ p, elements (default (JArr []) (field "used_by" p))))]).

(** [for (const [k, l] of Object.entries(m)) out[k] = [...(out[k] ?? []), ...l]] *)
Definition append_list (out : js_map string (list Json)) (kv : string * Json) : js_map string (list Json) :=
  map_set out kv.1 (default [] (map_get out kv.1) ++ elements kv.2).

Definition is_lists (m : Json) : bool := match m with JObj l => every (λ kv, is_array kv.2) l | _ => false end.
Definition merge_lists (metas : list Json) : Json :=
  JObj ((λ kv, (kv.1, JArr kv.2)) <$> foldl append_list [] (metas ≫= spread)).

(** ** All of it *)

Definition is_sync (a : Answer) : bool :=
  (an_status a =? 200) && match an_json a with
                          | Some j => match field "type" j with Some (JStr t) => bool_decide (t = "sync") | _ => false end
                          | None => false
                          end.
Definition metadata_of (a : Answer) : Json := default JNull (an_json a ≫= field "metadata").
Definition is_failure (a : Answer) : bool := match an_json a with Some _ => 400 <=? an_status a | None => false end.
Definition present (answers : list (option Answer)) : list Answer := answers ≫= option_list.

(** [/^\/1\.0\/projects\/([^/]+)(\/state)?$/] *)
Definition project_path (segs : list string) : option (string * bool) :=
  match segs with
  | [EmptyString; "1.0"; "projects"; name] => if truthy_str name then Some (name, false) else None
  | [EmptyString; "1.0"; "projects"; name; "state"] => if truthy_str name then Some (name, true) else None
  | _ => None
  end.

(** No cluster answered the read. *)
Definition merge_none (path : string) (failed : list Answer) (clusters : nat) : Merged :=
  let collection := Nat.odd (length (split_on "/" path)) in
  if (clusters =? 0)%nat && collection then
    sync (if bool_decide (path = "/1.0/operations") then JObj [] else JArr [])
  else
    match failed with
    | [] => if (clusters =? 0)%nat then error 404 "Not found" else error 503 "No cluster answered"
    | first :: _ =>
        let real := default first (js_find (λ a, negb (an_status a =? 404)) failed) in
        {| mg_status := an_status real; mg_body := default JNull (an_json real) |}
    end.

(** [None]: the exception of [decodeURIComponent]. *)
Definition merge (path : string) (answers : list (option Answer)) (clusters : nat) (config : option (list (string * Json))) : option Merged :=
  let ok := js_filter is_sync (present answers) in
  let metas := metadata_of <$> ok in
  if bool_decide (path = "/1.0") then
    let server := match ok with
                  | [] => JObj [("api_extensions", JArr []); ("api_status", JStr "stable"); ("api_version", JStr "1.0"); ("auth", JStr "trusted");
                                ("public", JBool false);
                                ("environment", JObj [("server_clustered", JBool true); ("server_name", JStr "incuscloud")])]
                  | _ => federatedServer metas
                  end in
    Some (sync (JObj (with_keys (spread server) [("config", JObj (default [] config))])))
  else if bool_decide (path = "/1.0/cluster") then
    Some (sync (JObj [("server_name", JStr EmptyString); ("enabled", JBool true); ("member_config", JArr [])]))
  else
    match ok with
    | [] => Some (merge_none path (js_filter is_failure (present answers)) clusters)
    | first :: _ =>
        if bool_decide (path = "/1.0/projects") then Some (sync (JArr (flat metas)))
        else
          match project_path (split_on "/" path) with
          | Some (_, true) => Some (sync (sumState metas))
          | Some (name, false) => (λ n, sync (mergedProject n metas)) <$> decodeURIComponent name
          | None =>
              if every is_array metas then Some (sync (JArr (flat metas)))
              else if every (λ m, isObj m && is_lists m) metas then Some (sync (merge_lists metas))
              else Some {| mg_status := 200; mg_body := default JNull (an_json first) |}
          end
    end.

(** ** Sums *)

Definition entries (states : list Resources) (k : string) : list Resource :=
  snd <$> js_filter (λ kv, bool_decide (kv.1 = k)) (concat states).
Definition total (f : Resource → Z) (l : list Resource) : Z := foldr (λ r acc, f r + acc) 0 l.
Definition unlimited (l : list Resource) : bool := some (λ r, limit r <? 0) l.

(** What is known of [k] after a resource has been added. *)
Definition combined (l : list Resource) : option Resource :=
  match l with
  | [] => None
  | _ => Some {| limit := if unlimited l then -1 else total limit l; usage := total usage l |}
  end.

Lemma total_app f a b : total f (a ++ b) = total f a + total f b.
Proof. unfold total. induction a as [|x a IH]; simpl; [done|]. rewrite IH. lia. Qed.

Lemma unlimited_app a b : unlimited (a ++ b) = unlimited a || unlimited b.
Proof. unfold unlimited, some. apply existsb_app. Qed.

Lemma combined_snoc l r : -1 ≤ limit r →
  combined (l ++ [r]) = match combined l with
                        | None => Some r
                        | Some cur => Some {| limit := if (limit cur <? 0) || (limit r <? 0) then -1 else limit cur + limit r;
                                              usage := usage cur + usage r |}
                        end.
Proof.
  intros Hr. destruct l as [|x l].
  - unfold combined, unlimited, total. simpl. destruct r as [li us]. simpl in *. rewrite orb_false_r.
    destruct (li <? 0) eqn:E; do 2 f_equal; lia.
  - change (combined (x :: l)) with (Some {| limit := if unlimited (x :: l) then -1 else total limit (x :: l); usage := total usage (x :: l) |}).
    change (combined ((x :: l) ++ [r])) with
      (Some {| limit := if unlimited ((x :: l) ++ [r]) then -1 else total limit ((x :: l) ++ [r]); usage := total usage ((x :: l) ++ [r]) |}).
    rewrite unlimited_app, !total_app. assert (unlimited [r] = (limit r <? 0)) as -> by apply orb_false_r.
    cbn [limit usage]. replace (total usage [r]) with (usage r) by (unfold total; simpl; lia).
    replace (total limit [r]) with (limit r) by (unfold total; simpl; lia).
    destruct (unlimited (x :: l)) eqn:Eu; [done|]. rewrite (proj2 (Z.ltb_ge (total limit (x :: l)) 0)); [done|].
    unfold unlimited in Eu. rewrite some_false in Eu. revert Eu. generalize (x :: l). clear.
    induction l as [|y l IH]; intros Hl; [done|]. assert ((limit y <? 0) = false) as Hy by (apply Hl; by left).
    apply Z.ltb_ge in Hy. assert (0 ≤ total limit l); [|unfold total in *; simpl; lia].
    apply IH. intros z Hz. apply Hl. by right.
Qed.

Lemma sum_from out seen k l :
  (∀ kv, kv ∈ l → -1 ≤ limit kv.2) → map_get out k = combined seen →
  map_get (foldl add_resource out l) k = combined (seen ++ (snd <$> js_filter (λ kv : string * Resource, bool_decide (kv.1 = k)) l)).
Proof.
  revert out seen. induction l as [|[k' r] l IH]; intros out seen Hl Hg; simpl; [by rewrite app_nil_r|].
  assert (-1 ≤ limit r) as Hr by (apply (Hl (k', r)); by left).
  assert (∀ kv, kv ∈ l → -1 ≤ limit kv.2) as Hl' by (intros; apply Hl; by right).
  destruct (decide (k' = k)) as [->|Hne].
  - rewrite bool_decide_eq_true_2 by done. rewrite (IH _ (seen ++ [r])); [by rewrite <-app_assoc|done|].
    rewrite combined_snoc, Hg by done. destruct (combined seen); rewrite map_get_set, bool_decide_eq_true_2 by done; done.
  - rewrite (bool_decide_eq_false_2 (k' = k)) by done. apply IH; [done|].
    destruct (map_get out k'); rewrite map_get_set, bool_decide_eq_false_2 by done; done.
Qed.

(** A project's state over several clusters: a resource is there when some cluster has it, its usage is the
    sum of theirs, and its limit the sum of theirs, unless one of them is unlimited, and then it is unlimited. *)
Theorem sumResources_exact states k (Hlimits : ∀ kv, kv ∈ concat states → -1 ≤ limit kv.2) :
  map_get (sumResources states) k = combined (entries states k).
Proof. unfold sumResources, entries. by apply (sum_from [] []). Qed.

(** ** Errors *)

Lemma is_failure_status a : is_failure a = true → 400 ≤ an_status a.
Proof. unfold is_failure. destruct (an_json a); [apply Z.leb_le|done]. Qed.

(** A merged read fails only when no cluster answered it. Then the failure is one of theirs, never a 404
    when another cluster failed otherwise, or, when none of them failed either, says so. *)
Theorem merge_fails_only_unanswered path answers clusters config r :
  merge path answers clusters config = Some r → mg_status r ≠ 200 →
  js_filter is_sync (present answers) = []
  ∧ ((∃ a, a ∈ present answers ∧ is_failure a = true ∧ mg_status r = an_status a
           ∧ (an_status a = 404 → ∀ b, b ∈ present answers → is_failure b = true → an_status b = 404))
     ∨ ((∀ a, a ∈ present answers → is_failure a = false) ∧ mg_status r = if (clusters =? 0)%nat then 404 else 503)).
Proof.
  unfold merge. destruct (bool_decide (path = "/1.0")); [by intros [= <-]|].
  destruct (bool_decide (path = "/1.0/cluster")); [by intros [= <-]|].
  destruct (js_filter is_sync (present answers)) as [|first rest].
  2: { destruct (bool_decide _); [by intros [= <-]|]. destruct (project_path _) as [[n []]|]; [by intros [= <-]| |].
       - destruct (decodeURIComponent n); simpl; [by intros [= <-]|done].
       - repeat case_match; by intros [= <-]. }
  intros [= <-]. unfold merge_none. destruct ((clusters =? 0)%nat && _); [done|].
  intros Hst. split; [done|].
  destruct (js_filter is_failure (present answers)) as [|f fs] eqn:Ef.
  - right. split; [by apply js_filter_nil|]. by destruct (clusters =? 0)%nat.
  - left. assert (∀ b, b ∈ f :: fs ↔ b ∈ present answers ∧ is_failure b = true) as Hin.
    { intros b. rewrite <-Ef. apply elem_of_js_filter. }
    destruct (js_find _ (f :: fs)) as [real|] eqn:Er; simpl.
    + apply js_find_some in Er as [Hr Hn]. exists real. apply Hin in Hr as [Hr1 Hr2]. split_and!; [done|done|done|].
      intros He. rewrite He in Hn. done.
    + exists f. destruct (proj1 (Hin f)) as [Hf1 Hf2]; [by left|]. split_and!; [done|done|done|].
      intros _ b Hb Hbf. assert (b ∈ f :: fs) as Hbi by (by apply Hin).
      pose proof (js_find_none _ _ Er b Hbi) as Hz. apply negb_false_iff in Hz. by apply Z.eqb_eq in Hz.
Qed.

(** ** Lists *)

Definition list_under (k : string) (metas : list Json) : list Json :=
  (metas ≫= spread) ≫= λ kv, if bool_decide (kv.1 = k) then elements kv.2 else [].

Lemma append_lists out l k :
  default [] (map_get (foldl append_list out l) k) = default [] (map_get out k) ++ (l ≫= λ kv, if bool_decide (kv.1 = k) then elements kv.2 else []).
Proof.
  revert out. induction l as [|[k' v] l IH]; intros out; simpl; [by rewrite app_nil_r|].
  rewrite IH. unfold append_list at 1. rewrite map_get_set.
  destruct (decide (k' = k)) as [->|Hne].
  - rewrite !bool_decide_eq_true_2 by done. simpl. by rewrite app_assoc.
  - by rewrite (bool_decide_eq_false_2 (k = k')), (bool_decide_eq_false_2 (k' = k)) by done.
Qed.

(** Operation lists are merged by status: under each status, the operations of every cluster in the order
    of the answers, none lost and none twice. *)
Theorem merge_lists_exact metas k :
  default [] (elements <$> field k (merge_lists metas)) = list_under k metas.
Proof.
  unfold merge_lists, list_under. etrans; [|exact (append_lists [] (metas ≫= spread) k)].
  set (out := foldl append_list [] (metas ≫= spread)). clearbody out. unfold field, get_key. cbn [spread].
  induction out as [|[k' l] out IH]; csimpl; [done|].
  destruct (decide (k = k')) as [->|Hne].
  - by rewrite !bool_decide_eq_true_2.
  - rewrite (bool_decide_eq_false_2 (k' = k)), (bool_decide_eq_false_2 (k = k')) by done. exact IH.
Qed.

(** ** Concrete answers *)

Definition demo_states : list Resources :=
  [[("cpu", {| limit := 4; usage := 1 |}); ("memory", {| limit := -1; usage := 10 |})]; [("cpu", {| limit := 2; usage := 2 |}); ("memory", {| limit := 5; usage := 1 |})]].

Lemma sumResources_exact_witness :
  map_get (sumResources demo_states) "cpu" = Some {| limit := 6; usage := 3 |}
  ∧ map_get (sumResources demo_states) "memory" = Some {| limit := -1; usage := 11 |}.
Proof.
  assert (∀ kv, kv ∈ concat demo_states → -1 ≤ limit kv.2) as Hl.
  { intros kv Hkv. simpl in Hkv. repeat (apply elem_of_cons in Hkv as [->|Hkv]; [simpl; lia|]). by apply elem_of_nil in Hkv. }
  split; [exact (sumResources_exact demo_states "cpu" Hl)|exact (sumResources_exact demo_states "memory" Hl)].
Defined.

Definition demo_failed : list (option Answer) :=
  [None; Some {| an_cluster := "a"; an_status := 404; an_json := Some JNull |}; Some {| an_cluster := "b"; an_status := 403; an_json := Some JNull |}].

Lemma merge_fails_only_unanswered_witness :
  js_filter is_sync (present demo_failed) = []
  ∧ (mg_status <$> merge "/1.0/instances/web" demo_failed 3 None) = Some 403.
Proof.
  split; [|reflexivity].
  apply (merge_fails_only_unanswered "/1.0/instances/web" demo_failed 3 None {| mg_status := 403; mg_body := JNull |}); [reflexivity|discriminate].
Defined.
