(* ===== verification/Preflight.v ===== *)
(** * Preflight: whether an instance can go to another cluster

    Models [mobility/preflight.ts]. Devices are in the order Incus lists them;
    reading the boot record ([JSON.parse]) is a parameter. *)

From S2P Require Import Prelude JsString Digits Effects Projects Rewrite.
Open Scope Z_scope.

Inductive Kind := Container | VirtualMachine.
Global Instance Kind_eq_dec : EqDecision Kind.
Proof. solve_decision. Defined.
Definition kind_text (k : Kind) : string := match k with Container => "container" | VirtualMachine => "virtual-machine" end.

Record SourceInstance := {
  s_name : string; s_type : Kind; s_status : string; s_architecture : string;
  s_config : config; s_expandedConfig : option config;
  s_devices : devices; s_profiles : list string; s_expandedDevices : devices;
  s_snapshots : Z; s_apiExtensions : list string;
}.

Record TargetFacts := {
  t_projectExists : bool; t_architectures : list string; t_pools : list string; t_networks : list string;
  t_profiles : list string; t_instanceNames : list string; t_defaultProfileDevices : devices;
  t_apiExtensions : list string; t_dropsBootState : bool;
}.

Inductive Mode := Copy | Move.
Global Instance Mode_eq_dec : EqDecision Mode.
Proof. solve_decision. Defined.

Record PreflightInput := {
  i_source : SourceInstance; i_target : TargetFacts; i_targetName : string; i_mode : Mode; i_live : bool; i_pool : option string;
}.

Record TargetRequest := {
  rq_name : string; rq_type : string; rq_architecture : string; rq_config : config; rq_devices : devices; rq_profiles : list string;
}.

Record Report := { ok : bool; problems : list string; warnings : list string; request : TargetRequest }.

(** [if (c) xs.push(m)] *)
Definition when (c : bool) (m : string) : list string := if c then [m] else [].

(** ** The boot record *)

Section preflight.
Context (JSON_parse : string → option Json).

Definition bootState (raw : option string) : option Json := JSON_parse (default EmptyString raw).
Definition entry (k : string) (v : option Json) : option Json :=
  match v with Some (JObj l) => get_key k l | _ => None end.

Definition bootMachine (raw : option string) : option string :=
  match entry "machine_type" (bootState raw) with
  | Some (JStr s) => if truthy_str s then Some s else None
  | _ => None
  end.

Definition count (k : string) (t : option Json) : Z := match entry k t with Some (JNum n) => n | _ => 1 end.
Definition bootCpus (raw : option string) : Z :=
  let t := entry "cpu_topology" (bootState raw) in count "sockets" t * count "cores" t * count "threads" t.

(** ** The checks *)

(** An empty name of a pool is none. *)
Definition named (o : option string) : option string :=
  match o with Some p => if truthy_str p then Some p else None | None => None end.

Definition choose_pool (i : PreflightInput) : option string :=
  let t := i_target i in
  match named (i_pool i) with
  | Some p => Some p
  | None =>
      let profilePool := rootOf (t_defaultProfileDevices t) ≫= λ kv, named (kv.2 !! "pool") in
      named match profilePool with
            | Some p => if includes (t_pools t) p then Some p
                        else match t_pools t with [p] => Some p | _ => None end
            | None => match t_pools t with [p] => Some p | _ => None end
            end
  end.

Definition pool_problems (i : PreflightInput) : list string :=
  match named (i_pool i) with
  | Some p => when (negb (includes (t_pools (i_target i)) p)) ("Storage pool " +++ quoted p +++ " does not exist on the target")
  | None => when (negb (bool_decide (is_Some (choose_pool i)))) "Choose a storage pool on the target"
  end.

Definition target_problems (i : PreflightInput) : list string :=
  let '(s, t) := (i_source i, i_target i) in
  when (negb (t_projectExists t)) "The target project does not exist"
  ++ when (includes (t_instanceNames t) (i_targetName i)) ("An instance named " +++ quoted (i_targetName i) +++ " already exists on the target")
  ++ when ((0 <? length (t_architectures t))%nat && negb (includes (t_architectures t) (s_architecture s)))
       ("The target has no " +++ s_architecture s +++ " members")
  ++ (s_profiles s ≫= λ p, when (negb (includes (t_profiles t) p)) ("Profile " +++ quoted p +++ " does not exist on the target")).

(** *** Devices *)

(** What a device gives: problems, warnings, and whether the target gets it. *)
Definition type_of (d : config) : string := default EmptyString (d !! "type").
Definition set_ (d : config) (k : string) : option string := named (d !! k).

Definition device (i : PreflightInput) (root : option string) (nd : string * config) : list string * list string * bool :=
  let '(name, d) := nd in
  let '(s, t) := (i_source i, i_target i) in
  if bool_decide (root = Some name) then ([], [], false)
  else
    let isLocal := map_has (s_devices s) name in
    if bool_decide (d !! "type" = Some "nic") then
      if negb isLocal then
        ([], when (includes (s_profiles s) "default" && negb (map_has (t_defaultProfileDevices t) name))
               ("The target's default profile has no " +++ quoted name +++ ": the instance will have no such NIC there"), false)
      else
        match set_ d "network" with
        | Some n => (when (negb (includes (t_networks t) n)) ("Network " +++ quoted n +++ " (" +++ name +++ ") does not exist on the target"), [], true)
        | None => ([], [name +++ " (nic) is copied as is"], true)
        end
    else if negb isLocal then ([], [], false)
    else if bool_decide (d !! "type" = Some "disk") && bool_decide (is_Some (set_ d "pool")) && bool_decide (is_Some (set_ d "source")) then
      (["Volume " +++ quoted (default EmptyString (d !! "source")) +++ " (" +++ name +++ ") is not migrated; detach it first"], [], false)
    else if bool_decide (d !! "type" = Some "disk") && starts_with "/" (default EmptyString (d !! "source")) then
      ([], ["Host path " +++ quoted (default EmptyString (d !! "source")) +++ " (" +++ name +++ ") must exist on the target"], true)
    else
      ([], when (negb (bool_decide (d !! "type" = Some "none")) && negb (bool_decide (d !! "type" = Some "disk")))
             (name +++ " (" +++ default "undefined" (d !! "type") +++ ") is copied as is"), true).

Definition root_device (i : PreflightInput) : devices :=
  match rootOf (s_expandedDevices (i_source i)), choose_pool i with
  | Some root, Some pool => [(root.1, <["pool" := pool]> root.2)]
  | _, _ => []
  end.
Definition root_name (i : PreflightInput) : option string := fst <$> rootOf (s_expandedDevices (i_source i)).

Definition target_devices (i : PreflightInput) : devices :=
  foldl (λ out nd, if (device i (root_name i) nd).2 then map_set out nd.1 nd.2 else out)
    (root_device i) (s_expandedDevices (i_source i)).
Definition device_problems (i : PreflightInput) : list string :=
  s_expandedDevices (i_source i) ≫= λ nd, (device i (root_name i) nd).1.1.
Definition device_warnings (i : PreflightInput) : list string :=
  s_expandedDevices (i_source i) ≫= λ nd, (device i (root_name i) nd).1.2.

(** *** Moving live *)

Definition BOOT_STATE : string := "volatile.vm.boot_state".
Definition LIVE : string := "migration_vm_live".

Definition live_checks (i : PreflightInput) : list string * list string :=
  let '(s, t) := (i_source i, i_target i) in
  if i_live i then
    let cfg := default (s_config s) (s_expandedConfig s) in
    if bool_decide (s_type s = Container) then (["Containers cannot move live"], [])
    else
      let running := bool_decide (s_status s = "Running") in
      let '(p, w) :=
        if negb (bool_decide (cfg !! "migration.stateful" = Some "true")) then (["Live moves need migration.stateful=true on the instance"], [])
        else if running && negb (bool_decide (is_Some (bootMachine (s_config s !! BOOT_STATE)))) then
          (["Restart this VM before moving it live: Incus has no record of how it booted (as after a live move into a tenant project)"], [])
        else if t_dropsBootState t then
          if 1 <? bootCpus (s_config s !! BOOT_STATE) then
            (["Incus can't move a VM with more than one vCPU live into a tenant project: the restricted project drops the VM's boot record and the restore fails. Move it with a restart instead"], [])
          else ([], ["The VM must be restarted on the target before it can move live again: the tenant project drops its boot record"])
        else ([], []) in
      (when (negb running) "Only a running instance moves live" ++ p
       ++ when (negb (includes (s_apiExtensions s) LIVE)) "The source does not support live VM migration"
       ++ when (negb (includes (t_apiExtensions t) LIVE)) "The target does not support live VM migration", w)
  else if bool_decide (s_status s = "Running") then
    ([], [match i_mode i with
          | Move => "The " +++ (if bool_decide (s_type s = Container) then "container" else "instance") +++ " is stopped for the move and started again on the target"
          | Copy => "The copy is not started"
          end])
  else ([], []).

Definition snapshot_warnings (n : Z) : list string :=
  if 0 <? n then [show_Z n +++ " snapshot" +++ (if n =? 1 then " is" else "s are") +++ " copied too"] else [].

Definition keep (m : Mode) (k : string) : bool :=
  negb (bool_decide (k = "volatile.last_state.power"))
  && (bool_decide (m = Move) || negb (starts_with "volatile." k) || bool_decide (k = "volatile.base_image")).

Definition preflight (i : PreflightInput) : Report :=
  let s := i_source i in
  let problems := target_problems i ++ pool_problems i ++ device_problems i ++ (live_checks i).1 in
  {| ok := bool_decide (problems = []); problems := problems;
     warnings := device_warnings i ++ (live_checks i).2 ++ snapshot_warnings (s_snapshots s);
     request := {| rq_name := i_targetName i; rq_type := kind_text (s_type s); rq_architecture := s_architecture s;
                   rq_config := filter (λ kv, keep (i_mode i) kv.1 = true) (s_config s);
                   rq_devices := target_devices i; rq_profiles := s_profiles s |} |}.
End preflight.

(** ** When an instance can go *)

Section theory.
Context (JSON_parse : string → option Json).

Lemma when_nil c m : when c m = [] ↔ c = false.
Proof. by destruct c. Qed.

Lemma bind_nil {A B} (f : A → list B) l : l ≫= f = [] ↔ ∀ x, x ∈ l → f x = [].
Proof.
  induction l as [|x l IH]; simpl; [split; [intros _ y Hy; by apply elem_of_nil in Hy|done]|].
  rewrite app_nil, IH. split.
  - intros [Hx Hl] y [->|Hy]%elem_of_cons; auto.
  - intros H. split; [apply H; by left|]. intros y Hy. apply H. by right.
Qed.

Definition local (i : PreflightInput) (name : string) : Prop := map_has (s_devices (i_source i)) name = true.

(** A volume that would have to be copied with the instance. *)
Definition volume (d : config) : Prop := d !! "type" = Some "disk" ∧ is_Some (set_ d "pool") ∧ is_Some (set_ d "source").

(** A device that does not stand in the way. *)
Definition device_fits (i : PreflightInput) (nd : string * config) : Prop :=
  root_name i = Some nd.1 ∨ ¬ local i nd.1
  ∨ (nd.2 !! "type" = Some "nic" ∧ ∀ n, set_ nd.2 "network" = Some n → n ∈ t_networks (i_target i))
  ∨ (nd.2 !! "type" ≠ Some "nic" ∧ ¬ volume nd.2).

Record live_fits (i : PreflightInput) : Prop := {
  lf_vm : s_type (i_source i) = VirtualMachine;
  lf_running : s_status (i_source i) = "Running";
  lf_stateful : default (s_config (i_source i)) (s_expandedConfig (i_source i)) !! "migration.stateful" = Some "true";
  lf_boot : is_Some (bootMachine JSON_parse (s_config (i_source i) !! BOOT_STATE));
  lf_cpus : t_dropsBootState (i_target i) = true → bootCpus JSON_parse (s_config (i_source i) !! BOOT_STATE) ≤ 1;
  lf_source : LIVE ∈ s_apiExtensions (i_source i);
  lf_target : LIVE ∈ t_apiExtensions (i_target i);
}.

(** What the target must offer. *)
Record fits (i : PreflightInput) : Prop := {
  f_project : t_projectExists (i_target i) = true;
  f_name : i_targetName i ∉ t_instanceNames (i_target i);
  f_arch : t_architectures (i_target i) = [] ∨ s_architecture (i_source i) ∈ t_architectures (i_target i);
  f_profiles : ∀ p, p ∈ s_profiles (i_source i) → p ∈ t_profiles (i_target i);
  f_pool : ∃ p, choose_pool i = Some p ∧ p ∈ t_pools (i_target i);
  f_devices : ∀ nd, nd ∈ s_expandedDevices (i_source i) → device_fits i nd;
  f_live : i_live i = true → live_fits i;
}.

Lemma target_problems_nil i : target_problems i = [] ↔
  t_projectExists (i_target i) = true ∧ (i_targetName i ∉ t_instanceNames (i_target i))
  ∧ (t_architectures (i_target i) = [] ∨ s_architecture (i_source i) ∈ t_architectures (i_target i))
  ∧ ∀ p, p ∈ s_profiles (i_source i) → p ∈ t_profiles (i_target i).
Proof.
  unfold target_problems. rewrite !app_nil, !when_nil, bind_nil, negb_false_iff, includes_false.
  assert (((0 <? length (t_architectures (i_target i)))%nat && negb (includes (t_architectures (i_target i)) (s_architecture (i_source i)))) = false
          ↔ (t_architectures (i_target i) = [] ∨ s_architecture (i_source i) ∈ t_architectures (i_target i))) as ->.
  { rewrite andb_false_iff, negb_false_iff, includes_spec.
    destruct (t_architectures (i_target i)); simpl; split; intros [?|?]; auto; done. }
  assert ((∀ x, x ∈ s_profiles (i_source i) → when (negb (includes (t_profiles (i_target i)) x)) ("Profile " +++ quoted x +++ " does not exist on the target") = [])
          ↔ (∀ p, p ∈ s_profiles (i_source i) → p ∈ t_profiles (i_target i))) as ->; [|done].
  split; intros H p Hp; specialize (H p Hp).
  - apply when_nil, negb_false_iff in H. by apply includes_spec.
  - apply when_nil, negb_false_iff. by apply includes_spec.
Qed.

Lemma named_named o : named (named o) = named o.
Proof. destruct o as [s|]; simpl; [|done]. destruct (truthy_str s) eqn:E; simpl; [by rewrite E|done]. Qed.

Lemma pool_problems_nil i : pool_problems i = [] ↔ ∃ p, choose_pool i = Some p ∧ p ∈ t_pools (i_target i).
Proof.
  unfold pool_problems. destruct (named (i_pool i)) as [p|] eqn:En.
  - rewrite when_nil, negb_false_iff, includes_spec. unfold choose_pool. rewrite En. naive_solver.
  - rewrite when_nil, negb_false_iff, bool_decide_eq_true. split; [|intros (p & -> & _); eauto].
    intros [p Hp]. exists p. split; [done|]. unfold choose_pool in Hp. rewrite En in Hp.
    assert (∀ o : option string, named o = Some p → o = Some p) as Hn.
    { intros o Ho. destruct o as [x|]; [|done]. simpl in Ho. by destruct (truthy_str x). }
    apply Hn in Hp. clear Hn.
    assert ((match t_pools (i_target i) with [x] => Some x | _ => None end) = Some p → p ∈ t_pools (i_target i)) as Hone.
    { destruct (t_pools (i_target i)) as [|x [|]]; [done| |done]. intros [= ->]. by left. }
    destruct (rootOf _ ≫= _) as [x|]; [|by apply Hone].
    destruct (includes _ x) eqn:Ei; [|by apply Hone]. injection Hp as ->. by apply includes_spec.
Qed.

Lemma device_nil i nd : (device i (root_name i) nd).1.1 = [] ↔ device_fits i nd.
Proof.
  destruct nd as [name d]. unfold device_fits, device, local. simpl.
  destruct (decide (root_name i = Some name)) as [Hr|Hr]; [rewrite bool_decide_eq_true_2 by done; split; [by left|done]|].
  rewrite (bool_decide_eq_false_2 (root_name i = Some name)) by done.
  destruct (map_has _ name) eqn:El; simpl.
  2: { destruct (bool_decide (d !! "type" = Some "nic")); (split; [intros _; right; left; done|done]). }
  destruct (decide (d !! "type" = Some "nic")) as [Ht|Ht].
  - rewrite bool_decide_eq_true_2 by done. destruct (set_ d "network") as [n|] eqn:Es; simpl.
    + rewrite when_nil, negb_false_iff, includes_spec. split.
      * intros Hn. right; right; left. split; [done|]. by intros ? [= <-].
      * intros [?|[?|[[_ Hn]|[? _]]]]; [done|done|by apply Hn|done].
    + split; [|done]. intros _. right; right; left. by split.
  - rewrite (bool_decide_eq_false_2 (d !! "type" = Some "nic")) by done. unfold volume.
    destruct (bool_decide (d !! "type" = Some "disk") && bool_decide (is_Some (set_ d "pool")) && bool_decide (is_Some (set_ d "source"))) eqn:Ev; simpl.
    + apply andb_prop in Ev as [[Hd Hp]%andb_prop Hs]. apply bool_decide_eq_true in Hd, Hp, Hs.
      split; [done|]. intros [?|[?|[[? _]|[_ Hv]]]]; [done|done|done|]. by destruct Hv.
    + split; [|by destruct (bool_decide (d !! "type" = Some "disk") && starts_with "/" _)]. intros _. right; right; right. split; [done|]. intros (Hd & Hp & Hs).
      by rewrite !bool_decide_eq_true_2 in Ev.
Qed.

Lemma live_nil i : (live_checks JSON_parse i).1 = [] ↔ (i_live i = true → live_fits i).
Proof.
  unfold live_checks. destruct (i_live i); [|split; [done|by destruct (bool_decide _)]].
  destruct (s_type (i_source i)) eqn:Et; simpl.
  { split; [done|]. intros Hl. destruct (Hl eq_refl) as [Hvm]. congruence. }
  set (p := if negb (bool_decide (default (s_config (i_source i)) (s_expandedConfig (i_source i)) !! "migration.stateful" = Some "true")) then _ else _).
  assert (s_status (i_source i) = "Running" → p.1 = [] ↔
    default (s_config (i_source i)) (s_expandedConfig (i_source i)) !! "migration.stateful" = Some "true"
    ∧ is_Some (bootMachine JSON_parse (s_config (i_source i) !! BOOT_STATE))
    ∧ (t_dropsBootState (i_target i) = true → bootCpus JSON_parse (s_config (i_source i) !! BOOT_STATE) ≤ 1)) as Hp.
  { intros Hrun. unfold p. rewrite (bool_decide_eq_true_2 (s_status (i_source i) = "Running")) by done.
    case_bool_decide as Hst; simpl; [|naive_solver].
    case_bool_decide as Hb; simpl; [|naive_solver].
    destruct (t_dropsBootState (i_target i)); [|naive_solver].
    destruct (1 <? bootCpus _ _) eqn:Ec; simpl.
    - apply Z.ltb_lt in Ec. split; [done|]. intros (_ & _ & Hc). specialize (Hc eq_refl). lia.
    - apply Z.ltb_ge in Ec. naive_solver. }
  destruct p as [pr w]. simpl in *. rewrite !app_nil, !when_nil, !negb_false_iff, !includes_spec, bool_decide_eq_true.
  split.
  - intros (Hr & Hpr & Hs & Ht) _. apply Hp in Hpr as (? & ? & ?); [|done]. by split.
  - intros Hl. destruct (Hl eq_refl) as [_ Hr Hs Hb Hc ? ?]. split_and!; [done| |done|done]. by apply Hp.
Qed.

(** The report says an instance can go exactly when the target offers all it needs: the project and a free
    name, its architecture and profiles, a pool for its root disk, the networks of its own interfaces, no
    volume left behind, and for a live move everything Incus asks of both sides. *)
Theorem preflight_ok_exact i : ok (preflight JSON_parse i) = true ↔ fits i.
Proof.
  unfold preflight. simpl. rewrite bool_decide_eq_true, !app_nil, target_problems_nil, pool_problems_nil, live_nil.
  unfold device_problems. rewrite bind_nil. setoid_rewrite device_nil. split.
  - by intros ((? & ? & ? & ?) & ? & ? & ?).
  - intros []. auto 10.
Qed.

(** ** What the target is asked for *)

Lemma fold_kept (f : string * config → bool) l : ∀ acc name, NoDup l.*1 →
  map_get (foldl (λ out nd, if f nd then map_set out nd.1 nd.2 else out) acc l) name
  = match map_get l name with
    | Some d => if f (name, d) then Some d else map_get acc name
    | None => map_get acc name
    end.
Proof.
  induction l as [|[k d] l IH]; intros acc name; [done|]. simpl. intros [Hk Hnd]%NoDup_cons. rewrite IH by done.
  case_bool_decide as Hn; [subst|].
  - assert (map_get l k = None) as -> by (by apply map_get_None). destruct (f (k, d)); [|done].
    rewrite map_get_set. by rewrite bool_decide_eq_true_2.
  - assert (map_get (if f (k, d) then map_set acc k d else acc) name = map_get acc name) as ->; [|done].
    destruct (f (k, d)); [|done]. rewrite map_get_set. by rewrite bool_decide_eq_false_2.
Qed.

Lemma device_kept i name d : device_fits i (name, d) → root_name i ≠ Some name →
  (device i (root_name i) (name, d)).2 = map_has (s_devices (i_source i)) name.
Proof.
  intros Hfit Hr. unfold device. rewrite (bool_decide_eq_false_2 (root_name i = Some name)) by done.
  destruct (map_has _ name) eqn:El; simpl.
  2: { by destruct (bool_decide (d !! "type" = Some "nic")). }
  destruct (decide (d !! "type" = Some "nic")) as [Ht|Ht].
  - rewrite bool_decide_eq_true_2 by done. by destruct (set_ d "network").
  - rewrite (bool_decide_eq_false_2 (d !! "type" = Some "nic")) by done.
    destruct Hfit as [?|[Hl|[[? _]|[_ Hv]]]]; [done|by destruct Hl|done|].
    destruct (bool_decide (d !! "type" = Some "disk") && bool_decide (is_Some (set_ d "pool")) && bool_decide (is_Some (set_ d "source"))) eqn:Ev.
    + apply andb_prop in Ev as [[Hd Hp]%andb_prop Hs]. apply bool_decide_eq_true in Hd, Hp, Hs. by destruct Hv.
    + by destruct (bool_decide (d !! "type" = Some "disk") && starts_with "/" _).
Qed.

(** An instance that can go is created with its root disk on the chosen pool, every other device of its own
    as it is, and no device of its profiles; a copy gets none of the instance's volatile keys but the base
    image, a move all but the last power state. *)
Theorem preflight_request i (Hwf : map_wf (s_expandedDevices (i_source i))) :
  ok (preflight JSON_parse i) = true →
  (∀ name, map_get (rq_devices (request (preflight JSON_parse i))) name =
     match map_get (s_expandedDevices (i_source i)) name with
     | Some d => if bool_decide (root_name i = Some name) then (λ p, <["pool" := p]> d) <$> choose_pool i
                 else if map_has (s_devices (i_source i)) name then Some d else None
     | None => None
     end)
  ∧ (∀ k v, rq_config (request (preflight JSON_parse i)) !! k = Some v ↔
       s_config (i_source i) !! k = Some v ∧ k ≠ "volatile.last_state.power"
       ∧ (i_mode i = Copy → starts_with "volatile." k = true → k = "volatile.base_image")).
Proof.
  rewrite preflight_ok_exact. intros Hfits. split.
  - intros name. simpl. unfold target_devices. rewrite fold_kept by done.
    destruct (f_pool i Hfits) as (pool & Hpool & _). rewrite Hpool. unfold root_device. rewrite Hpool.
    destruct (map_get _ name) as [d|] eqn:Hd.
    + pose proof (map_get_Some_elem _ _ _ Hd) as Hin.
      destruct (decide (root_name i = Some name)) as [Hr|Hr].
      * rewrite bool_decide_eq_true_2 by done. unfold device at 1. rewrite bool_decide_eq_true_2 by done. simpl.
        unfold root_name in Hr. destruct (rootOf _) as [[n r]|] eqn:Er; [|done]. injection Hr as ->. simpl.
        rewrite bool_decide_eq_true_2 by done. f_equal. unfold rootOf in Er. apply js_find_some in Er as [Er _].
        apply (map_get_elem _ _ _ Hwf) in Er. congruence.
      * rewrite (bool_decide_eq_false_2 (root_name i = Some name)) by done.
        rewrite device_kept by (done || by apply (f_devices i Hfits (name, d))).
        destruct (map_has _ name); [done|]. unfold root_name in Hr. destruct (rootOf _) as [[n r]|]; [|done]. simpl.
        rewrite bool_decide_eq_false_2; [done|]. intros ->. by apply Hr.
    + destruct (rootOf _) as [[n r]|] eqn:Er; [|done]. simpl. rewrite bool_decide_eq_false_2; [done|]. intros ->.
      unfold rootOf in Er. apply js_find_some in Er as [Er _]. apply (map_get_elem _ _ _ Hwf) in Er. congruence.
  - intros k v. simpl. rewrite map_lookup_filter_Some. simpl. unfold keep.
    assert (negb (bool_decide (k = "volatile.last_state.power"))
            && (bool_decide (i_mode i = Move) || negb (starts_with "volatile." k) || bool_decide (k = "volatile.base_image")) = true
            ↔ k ≠ "volatile.last_state.power" ∧ (i_mode i = Copy → starts_with "volatile." k = true → k = "volatile.base_image")) as ->; [|done].
    rewrite andb_true_iff, !orb_true_iff, !negb_true_iff, bool_decide_eq_false, !bool_decide_eq_true.
    destruct (starts_with "volatile." k), (i_mode i); naive_solver.
Qed.
End theory.

(** ** A concrete instance *)

Definition demo_root : config := {["type" := "disk"; "path" := "/"; "pool" := "fast"]}.
Definition demo_nic : config := {["type" := "nic"; "network" := "incusbr0"]}.
Definition demo_source : SourceInstance :=
  {| s_name := "web"; s_type := Container; s_status := "Stopped"; s_architecture := "aarch64";
     s_config := {["limits.memory" := "1GiB"; "volatile.uuid" := "x"; "volatile.base_image" := "abc"]}; s_expandedConfig := None;
     s_devices := [("eth0", demo_nic)]; s_profiles := ["default"]; s_expandedDevices := [("root", demo_root); ("eth0", demo_nic)];
     s_snapshots := 0; s_apiExtensions := [LIVE] |}.
Definition demo_target : TargetFacts :=
  {| t_projectExists := true; t_architectures := ["aarch64"]; t_pools := ["default"]; t_networks := ["incusbr0"]; t_profiles := ["default"];
     t_instanceNames := []; t_defaultProfileDevices := []; t_apiExtensions := [LIVE]; t_dropsBootState := false |}.
Definition demo_input : PreflightInput :=
  {| i_source := demo_source; i_target := demo_target; i_targetName := "web"; i_mode := Copy; i_live := false; i_pool := None |}.

Lemma preflight_request_witness :
  map_get (rq_devices (request (preflight (λ _, None) demo_input))) "root" = Some (<["pool" := "default"]> demo_root)
  ∧ rq_config (request (preflight (λ _, None) demo_input)) !! "volatile.uuid" ≠ Some "x".
Proof.
  assert (map_wf (s_expandedDevices (i_source demo_input))) as Hwf by (repeat constructor; set_solver).
  destruct (preflight_request (λ _, None) demo_input Hwf eq_refl) as [Hd Hc]. split; [exact (Hd "root")|].
  intros (_ & _ & Hk)%Hc. specialize (Hk eq_refl eq_refl). discriminate.
Defined.
