(* ===== verification/Program.v ===== *)
(** * Program: code that calls services

    An [async] function of the server is a tree of the calls it makes on the
    database, on clusters and on object stores, each followed by what the code
    does with the answer. Nothing is assumed of the answers: a run is driven by
    an oracle that answers every call, also with an error, knowing all that
    happened before, so that what is proved of every oracle holds whatever the
    services, other jobs and users do in the meantime. The trace of a run is
    the calls made with their answers, in order.

    [wp] is the weakest precondition of a program over traces, with a rule for
    each construct; [emits] says that every call a program makes, on any
    answers, is of some kind. *)

From S2P Require Import Prelude JsString Effects.

(** What a call or a function ends with. [Running]: the fuel of a loop is used up. *)
Inductive outcome (E A : Type) :=
  | Returned (x : A)
  | Raised (e : E)
  | Running.
Arguments Returned {E A} x.
Arguments Raised {E A} e.
Arguments Running {E A}.

Section program.
Context {E : Type} {call : Type → Type}.

Inductive prog (A : Type) : Type :=
  | Ret (x : A)
  | Raise (e : E)
  | Spin
  | Call {X : Type} (c : call X) (k : X → prog A).
Arguments Ret {A} x.
Arguments Raise {A} e.
Arguments Spin {A}.
Arguments Call {A X} c k.

Inductive event :=
  | Ev {X : Type} (c : call X) (x : X).
Abbreviation trace := (list event).

Global Instance prog_ret : MRet prog := λ A x, Ret x.
Global Instance prog_bind : MBind prog := λ A B f,
  fix go p := match p with
              | Ret x => f x
              | Raise e => Raise e
              | Spin => Spin
              | Call c k => Call c (λ x, go (k x))
              end.

(** [try { p } catch (e) { h(e) }] *)
Fixpoint try_catch {A} (p : prog A) (h : E → prog A) : prog A :=
  match p with
  | Ret x => Ret x
  | Raise e => h e
  | Spin => Spin
  | Call c k => Call c (λ x, try_catch (k x) h)
  end.

(** [try { p } finally { f }]: an exception of [f] takes the place of what [p] ended with. *)
Fixpoint try_finally {A} (p : prog A) (f : prog unit) : prog A :=
  match p with
  | Ret x => f ≫= λ _, Ret x
  | Raise e => f ≫= λ _, Raise e
  | Spin => Spin
  | Call c k => Call c (λ x, try_finally (k x) f)
  end.

(** A call that answers with a value, and one that may answer with an exception. *)
Definition ask {X} (c : call X) : prog X := Call c Ret.
Definition try_call {F X} (fault : F → E) (c : call (F + X)) : prog X :=
  Call c (λ x, match x with inl e => Raise (fault e) | inr v => Ret v end).

(** [p.catch(() => {})] *)
Definition quietly (p : prog unit) : prog unit := try_catch p (λ _, Ret tt).

(** A loop over a list. *)
Fixpoint each {A} (f : A → prog unit) (l : list A) : prog unit :=
  match l with
  | [] => Ret tt
  | x :: l => f x ≫= λ _, each f l
  end.

(** ** Runs *)

Abbreviation oracle := (∀ X, call X → trace → X).

Fixpoint run {A} (o : oracle) (p : prog A) (tr : trace) : outcome E A * trace :=
  match p with
  | Ret x => (Returned x, tr)
  | Raise e => (Raised e, tr)
  | Spin => (Running, tr)
  | @Call _ X c k => run o (k (o X c tr)) (tr ++ [Ev c (o X c tr)])
  end.

Fixpoint wp {A} (p : prog A) (Q : outcome E A → trace → Prop) (tr : trace) : Prop :=
  match p with
  | Ret x => Q (Returned x) tr
  | Raise e => Q (Raised e) tr
  | Spin => Q Running tr
  | Call c k => ∀ x, wp (k x) Q (tr ++ [Ev c x])
  end.

Lemma wp_run {A} (p : prog A) Q o tr : wp p Q tr → Q (run o p tr).1 (run o p tr).2.
Proof. revert tr. induction p as [x|e| |X c k IH]; intros tr Hp; simpl in *; [done..|by apply IH]. Qed.

(** What holds of every run from a trace is the weakest precondition there. *)
Lemma wp_mono {A} (p : prog A) (Q Q' : outcome E A → trace → Prop) tr :
  wp p Q tr → (∀ r tr', Q r tr' → Q' r tr') → wp p Q' tr.
Proof. revert tr. induction p as [x|e| |X c k IH]; intros tr Hp HQ; simpl in *; eauto. Qed.

Lemma wp_bind {A B} (p : prog A) (f : A → prog B) Q tr :
  wp p (λ r tr', match r with
                 | Returned x => wp (f x) Q tr'
                 | Raised e => Q (Raised e) tr'
                 | Running => Q Running tr'
                 end) tr →
  wp (p ≫= f) Q tr.
Proof. revert tr. induction p as [x|e| |X c k IH]; intros tr Hp; simpl in *; [done..|intros x; by apply IH]. Qed.

Lemma wp_ask {X} (c : call X) Q tr : (∀ x, Q (Returned x) (tr ++ [Ev c x])) → wp (ask c) Q tr.
Proof. done. Qed.

Lemma wp_try {A} (p : prog A) (h : E → prog A) Q tr :
  wp p (λ r tr', match r with Raised e => wp (h e) Q tr' | _ => Q r tr' end) tr → wp (try_catch p h) Q tr.
Proof. revert tr. induction p as [x|e| |X c k IH]; intros tr Hp; simpl in *; [done..|intros x; by apply IH]. Qed.

Lemma wp_finally {A} (p : prog A) (f : prog unit) Q tr :
  wp p (λ r tr', match r with
                 | Running => Q Running tr'
                 | _ => wp f (λ rf tr'', match rf with
                                         | Returned _ => Q r tr''
                                         | Raised e => Q (Raised e) tr''
                                         | Running => Q Running tr''
                                         end) tr'
                 end) tr → wp (try_finally p f) Q tr.
Proof.
  revert tr. induction p as [x|e| |X c k IH]; intros tr Hp; simpl in *; [| |done|intros x; by apply IH];
    apply wp_bind; apply (wp_mono _ _ _ _ Hp); by intros [].
Qed.

Lemma wp_quietly (p : prog unit) Q tr :
  wp p (λ r tr', match r with Running => Q Running tr' | _ => Q (Returned tt) tr' end) tr → wp (quietly p) Q tr.
Proof. intros Hp. apply wp_try, (wp_mono _ _ _ _ Hp). by intros [[]| |]. Qed.

(** ** What a program may call *)

Fixpoint emits (F : event → Prop) {A} (p : prog A) : Prop :=
  match p with
  | Call c k => ∀ x, F (Ev c x) ∧ emits F (k x)
  | _ => True
  end.

Lemma emits_mono (F G : event → Prop) {A} (p : prog A) : (∀ e, F e → G e) → emits F p → emits G p.
Proof. intros HFG. induction p as [| | |X c k IH]; simpl; [done..|]. intros Hp x. destruct (Hp x). split; eauto. Qed.

Lemma emits_any {A} (p : prog A) : emits (λ _, True) p.
Proof. induction p as [| | |X c k IH]; simpl; auto. Qed.

Lemma emits_ret F {A} (x : A) : emits F (mret x).
Proof. done. Qed.

Lemma emits_bind F {A B} (p : prog A) (f : A → prog B) : emits F p → (∀ x, emits F (f x)) → emits F (p ≫= f).
Proof. intros Hp Hf. induction p as [x| | |X c k IH]; simpl in *; [apply Hf|done..|]. intros x. destruct (Hp x). split; auto. Qed.

Lemma emits_try F {A} (p : prog A) h : emits F p → (∀ e, emits F (h e)) → emits F (try_catch p h).
Proof. intros Hp Hf. induction p as [x| | |X c k IH]; simpl in *; [done|apply Hf|done|]. intros x. destruct (Hp x). split; auto. Qed.

Lemma emits_finally F {A} (p : prog A) f : emits F p → emits F f → emits F (try_finally p f).
Proof.
  intros Hp Hf. induction p as [x| | |X c k IH]; simpl in *;
    [by apply emits_bind|by apply (emits_bind F f)|done|]. intros x. destruct (Hp x). split; auto.
Qed.

Lemma emits_quietly F p : emits F p → emits F (quietly p).
Proof. intros Hp. by apply emits_try. Qed.

Lemma emits_ask F {X} (c : call X) : (∀ x, F (Ev c x)) → emits F (ask c).
Proof. intros Hc x. by split. Qed.

Lemma emits_try_call F {Y X} (fault : Y → E) (c : call (Y + X)) : (∀ x, F (Ev c x)) → emits F (try_call fault c).
Proof. intros Hc x. split; [apply Hc|]. by destruct x. Qed.

Lemma emits_each F {A} (f : A → prog unit) l : (∀ x, emits F (f x)) → emits F (each f l).
Proof. intros Hf. induction l as [|x l IH]; [done|]. by apply emits_bind. Qed.

Lemma emits_mapM F {A B} (f : A → prog B) l : (∀ x, emits F (f x)) → emits F (mapM f l).
Proof. intros Hf. induction l as [|x l IH]; [done|]. simpl. apply emits_bind; [apply Hf|intros y]. by apply emits_bind. Qed.

(** Calls of one kind extend the trace by events of that kind. *)
Lemma wp_emits F {A} (p : prog A) tr :
  emits F p → wp p (λ _ tr', ∃ evs, tr' = tr ++ evs ∧ Forall F evs) tr.
Proof.
  revert tr. induction p as [x|e| |X c k IH]; intros tr Hp; simpl in *;
    [exists []; rewrite app_nil_r; by repeat constructor..|].
  intros x. destruct (Hp x) as [Hx Hk]. apply (wp_mono _ _ _ _ (IH x _ Hk)).
  intros r tr' (evs & -> & HF). exists (Ev c x :: evs). rewrite <- (assoc_L (++)). split; [done|]. by constructor.
Qed.

Lemma wp_emits_weaken F {A} (p : prog A) (Q : outcome E A → trace → Prop) tr :
  emits F p → (∀ r evs, Forall F evs → Q r (tr ++ evs)) → wp p Q tr.
Proof. intros Hp HQ. apply (wp_mono _ _ _ _ (wp_emits _ _ tr Hp)). intros r tr' (evs & -> & HF). by apply HQ. Qed.

Lemma wp_and {A} (p : prog A) (Q Q' : outcome E A → trace → Prop) tr :
  wp p Q tr → wp p Q' tr → wp p (λ r tr', Q r tr' ∧ Q' r tr') tr.
Proof. revert tr. induction p as [x|e| |X c k IH]; intros tr Hp Hp'; simpl in *; auto. Qed.

(** Traces only grow. *)
Lemma wp_extends {A} (p : prog A) (Q : outcome E A → trace → Prop) tr :
  wp p Q tr → wp p (λ r tr', Q r tr' ∧ ∃ evs, tr' = tr ++ evs) tr.
Proof.
  intros Hp. apply wp_and; [done|]. apply (wp_emits_weaken (λ _, True)); [by apply emits_any|]. intros r evs _. by exists evs.
Qed.

(** *** Programs that never return *)

Fixpoint throws {A} (p : prog A) : Prop :=
  match p with
  | Ret _ => False
  | Raise _ | Spin => True
  | Call c k => ∀ x, throws (k x)
  end.

Lemma throws_bind {A B} (p : prog A) (f : A → prog B) : (∀ x, throws (f x)) → throws (p ≫= f).
Proof. intros Hf. induction p as [x| | |X c k IH]; simpl; auto. Qed.

Lemma wp_throws F {A} (p : prog A) (Q : outcome E A → trace → Prop) tr :
  throws p → emits F p → (∀ r evs, (∀ x, r ≠ Returned x) → Forall F evs → Q r (tr ++ evs)) → wp p Q tr.
Proof.
  revert tr. induction p as [x|e| |X c k IH]; intros tr Ht Hp HQ; simpl in *; [done| | |].
  - specialize (HQ (Raised e) []). rewrite app_nil_r in HQ. by apply HQ.
  - specialize (HQ Running []). rewrite app_nil_r in HQ. by apply HQ.
  - intros x. destruct (Hp x) as [Hx Hk]. apply IH; [done..|]. intros r evs Hr HF.
    rewrite <- (assoc_L (++)). apply HQ; [done|]. by constructor.
Qed.

(** *** Programs that end, and those that end well *)

(** No loop of the program can use up its fuel. *)
Fixpoint finite {A} (p : prog A) : Prop :=
  match p with Spin => False | Call c k => ∀ x, finite (k x) | _ => True end.
(** Nor does it throw. *)
Fixpoint returns {A} (p : prog A) : Prop :=
  match p with Ret _ => True | Call c k => ∀ x, returns (k x) | _ => False end.

Lemma finite_bind {A B} (p : prog A) (f : A → prog B) : finite p → (∀ x, finite (f x)) → finite (p ≫= f).
Proof. intros Hp Hf. induction p as [x|e| |X c k IH]; simpl in *; [auto..|intros x; by apply IH]. Qed.
Lemma finite_try {A} (p : prog A) h : finite p → (∀ e, finite (h e)) → finite (try_catch p h).
Proof. intros Hp Hf. induction p as [x|e| |X c k IH]; simpl in *; [auto..|intros x; by apply IH]. Qed.
Lemma finite_try_call {F X} (fault : F → E) (c : call (F + X)) : finite (try_call fault c).
Proof. by intros [f|x]. Qed.
Lemma finite_ask {X} (c : call X) : finite (ask c).
Proof. done. Qed.
Lemma finite_each {A} (f : A → prog unit) l : (∀ x, finite (f x)) → finite (each f l).
Proof. intros Hf. induction l; [done|]. by apply finite_bind. Qed.
Lemma returns_bind {A B} (p : prog A) (f : A → prog B) : returns p → (∀ x, returns (f x)) → returns (p ≫= f).
Proof. intros Hp Hf. induction p as [x|e| |X c k IH]; simpl in *; [auto|done..|intros x; by apply IH]. Qed.
Lemma returns_try {A} (p : prog A) h : finite p → (∀ e, returns (h e)) → returns (try_catch p h).
Proof. intros Hp Hf. induction p as [x|e| |X c k IH]; simpl in *; [auto..|intros x; by apply IH]. Qed.

Lemma wp_returns F {A} (p : prog A) (Q : outcome E A → trace → Prop) tr :
  returns p → emits F p → (∀ x evs, Forall F evs → Q (Returned x) (tr ++ evs)) → wp p Q tr.
Proof.
  revert tr. induction p as [x|e| |X c k IH]; intros tr Ht Hp HQ; simpl in *; [|done..|].
  - specialize (HQ x []). rewrite app_nil_r in HQ. by apply HQ.
  - intros x. destruct (Hp x) as [Hx Hk]. apply IH; [done..|]. intros r evs HF.
    rewrite <- (assoc_L (++)). apply HQ. by constructor.
Qed.

(** *** What a program may return *)

Fixpoint yields {A} (R : A → Prop) (p : prog A) : Prop :=
  match p with Ret x => R x | Call c k => ∀ x, yields R (k x) | _ => True end.

Lemma yields_any {A} (p : prog A) : yields (λ _, True) p.
Proof. induction p; simpl; auto. Qed.
Lemma yields_mono {A} (R S : A → Prop) (p : prog A) : (∀ x, R x → S x) → yields R p → yields S p.
Proof. intros HRS. induction p; simpl; eauto. Qed.
Lemma yields_bind {A B} (R : A → Prop) (S : B → Prop) (p : prog A) (f : A → prog B) :
  yields R p → (∀ x, R x → yields S (f x)) → yields S (p ≫= f).
Proof. intros Hp Hf. induction p as [x|e| |X c k IH]; simpl in *; [by apply Hf|done..|]. intros x. by apply IH. Qed.
Lemma yields_then {A B} (S : B → Prop) (p : prog A) (f : A → prog B) : (∀ x, yields S (f x)) → yields S (p ≫= f).
Proof. intros Hf. apply (yields_bind (λ _, True)); [apply yields_any|auto]. Qed.
Lemma yields_try {A} (S : A → Prop) (p : prog A) h : yields S p → (∀ e, yields S (h e)) → yields S (try_catch p h).
Proof. intros Hp Hh. induction p as [x|e| |X c k IH]; simpl in *; auto. Qed.
Lemma yields_ask {X} (c : call X) : yields (λ _, True) (ask c).
Proof. done. Qed.
Lemma yields_mapM {A B} (R : A → B → Prop) (f : A → prog B) l : (∀ x, x ∈ l → yields (R x) (f x)) → yields (Forall2 R l) (mapM f l).
Proof.
  induction l as [|x l IH]; intros Hf; simpl; [by constructor|]. apply (yields_bind (R x)); [apply Hf; by left|]. intros y Hy.
  apply (yields_bind (Forall2 R l)); [apply IH; intros z Hz; apply Hf; by right|]. intros ys Hys. by constructor.
Qed.

Lemma emits_mapM_in F {A B} (f : A → prog B) l : (∀ x, x ∈ l → emits F (f x)) → emits F (mapM f l).
Proof.
  induction l as [|x l IH]; intros Hf; simpl; [done|]. apply emits_bind; [apply Hf; by left|intros y].
  apply emits_bind; [apply IH; intros z Hz; apply Hf; by right|done].
Qed.

Lemma wp_yields {A} F (R : A → Prop) (p : prog A) (Q : outcome E A → trace → Prop) tr : emits F p → yields R p →
  (∀ r evs, Forall F evs → match r with Returned x => R x | _ => True end → Q r (tr ++ evs)) → wp p Q tr.
Proof.
  revert tr. induction p as [x|e| |X c k IH]; intros tr Hp Hy HQ; simpl in *;
    [rewrite <-(app_nil_r tr); by apply HQ..|]. intros x. destruct (Hp x) as [Hx Hk]. apply IH; [done..|]. intros r evs HF Hr.
  rewrite <-(assoc_L (++)). apply HQ; [by constructor|done].
Qed.

(** ** Calls with a precondition

    [guarded G tr]: every call of [tr] was made when [G] held of the calls
    before it. *)
Definition guarded (G : trace → event → Prop) (tr : trace) : Prop :=
  ∀ pre e post, tr = pre ++ e :: post → G pre e.

Lemma guarded_nil G : guarded G [].
Proof. intros [|x pre] e post Heq; discriminate Heq. Qed.

Lemma guarded_snoc G tr e : guarded G tr → G tr e → guarded G (tr ++ [e]).
Proof.
  intros Htr He pre e1 post Heq. induction post as [|e2 post _] using rev_ind.
  - apply app_inj_tail in Heq as [-> ->]. auto.
  - rewrite app_comm_cons, (assoc_L (++)) in Heq. apply app_inj_tail in Heq as [-> _]. by apply (Htr pre e1 post).
Qed.

(** Calls whose precondition holds however the trace goes on. *)
Lemma guarded_app G tr evs : guarded G tr → Forall (λ e, ∀ k, G (tr ++ k) e) evs → guarded G (tr ++ evs).
Proof.
  intros Htr HF. induction evs as [|e evs IH] using rev_ind; [by rewrite app_nil_r|].
  apply Forall_app in HF as [HF He]. rewrite (assoc_L (++)). apply guarded_snoc; [by apply IH|]. by inversion He.
Qed.

Lemma wp_guarded G F {A} (p : prog A) (Q : outcome E A → trace → Prop) tr :
  guarded G tr → emits F p → (∀ e k, F e → G (tr ++ k) e) →
  (∀ r evs, Forall F evs → guarded G (tr ++ evs) → Q r (tr ++ evs)) → wp p Q tr.
Proof.
  intros Htr Hp HFG HQ. apply (wp_emits_weaken F); [done|]. intros r evs HF. apply HQ; [done|]. apply guarded_app; [done|].
  eapply Forall_impl; [exact HF|]. eauto.
Qed.
End program.

Arguments prog : clear implicits.
Arguments event : clear implicits.
Arguments Ret {E call A} x.
Arguments Raise {E call A} e.
Arguments Spin {E call A}.
Arguments Call {E call A X} c k.

Create HintDb prog.
#[export] Hint Resolve emits_ret emits_bind emits_try emits_finally emits_quietly emits_ask emits_try_call emits_each throws_bind : prog.

(** ** Blocks with local variables

    A [try] block assigns variables that its [catch] reads: an exception
    leaves the block with the values they have then. *)
Section locals.
Context {E L : Type} {call : Type → Type}.

(** [p], run while the variables are [l]. *)
Fixpoint leaving {A} (l : L) (p : prog E call A) : prog (E * L) call A :=
  match p with
  | Ret x => Ret x
  | Raise e => Raise (e, l)
  | Spin => Spin
  | Call c k => Call c (λ x, leaving l (k x))
  end.

Fixpoint catch_with {A} (p : prog (E * L) call A) (h : E → L → prog E call A) : prog E call A :=
  match p with
  | Ret x => Ret x
  | Raise (e, l) => h e l
  | Spin => Spin
  | Call c k => Call c (λ x, catch_with (k x) h)
  end.

Lemma wp_leaving {A} l (p : prog E call A) Q tr :
  wp p (λ r tr', Q match r with Returned x => Returned x | Raised e => Raised (e, l) | Running => Running end tr') tr →
  wp (leaving l p) Q tr.
Proof. revert tr. induction p as [x|e| |X c k IH]; intros tr Hp; simpl in *; [done..|intros x; by apply IH]. Qed.

Lemma wp_catch_with {A} (p : prog (E * L) call A) h Q tr :
  wp p (λ r tr', match r with
                 | Returned x => Q (Returned x) tr'
                 | Raised (e, l) => wp (h e l) Q tr'
                 | Running => Q Running tr'
                 end) tr → wp (catch_with p h) Q tr.
Proof. revert tr. induction p as [x|[e l]| |X c k IH]; intros tr Hp; simpl in *; [done..|intros x; by apply IH]. Qed.

Lemma emits_leaving F {A} l (p : prog E call A) : emits F p → emits F (leaving l p).
Proof. intros Hp. induction p as [x|e| |X c k IH]; simpl in *; [done..|]. intros x. destruct (Hp x). split; auto. Qed.

Lemma emits_catch_with F {A} (p : prog (E * L) call A) h : emits F p → (∀ e l, emits F (h e l)) → emits F (catch_with p h).
Proof. intros Hp Hh. induction p as [x|[e l]| |X c k IH]; simpl in *; [done|apply Hh|done|]. intros x. destruct (Hp x). split; auto. Qed.
End locals.

#[export] Hint Resolve emits_leaving emits_catch_with : prog.
