(* ===== verification/Secrets.v ===== *)
(** * Secrets: values stored encrypted

    Models [lib/secrets.ts]: the text that [seal] makes of a value and what
    [open] reads of it. AES-256-GCM under the server's key is a parameter, the
    class [Cipher]; base64url writes it without dots. *)

From S2P Require Import Prelude JsString Effects.
Open Scope Z_scope.

(** AES-256-GCM with one key: [encrypt] gives the ciphertext and its tag, [decrypt] fails unless they are
    what [encrypt] made with that initialisation vector. Both are in base64url. *)
Class Cipher := {
  nonce : Type;
  iv_text : nonce → string;
  encrypt : nonce → string → string;
  decrypt : string → string → option string;
  decrypt_encrypt iv plain : decrypt (iv_text iv) (encrypt iv plain) = Some plain;
  iv_is_text iv : truthy_str (iv_text iv) = true ∧ has_char "." (iv_text iv) = false;
  encrypt_is_text iv plain : truthy_str (encrypt iv plain) = true ∧ has_char "." (encrypt iv plain) = false;
}.

Section secrets.
Context {C : Cipher}.

Definition seal (iv : nonce) (plain : string) : string := "v1." +++ iv_text iv +++ "." +++ encrypt iv plain.

Definition unknown_format : result string := throw 500 "secret_corrupt" "Stored secret has an unknown format".
Definition open (sealed : string) : result string :=
  match split_on "." sealed with
  | v :: ivB64 :: ctB64 :: _ =>
      if negb (bool_decide (v = "v1")) || negb (truthy_str ivB64) || negb (truthy_str ctB64) then unknown_format
      else match decrypt ivB64 ctB64 with
           | Some plain => Ok plain
           | None => throw 500 "secret_corrupt" "Stored secret cannot be decrypted (corrupt or wrong IC_SECRET_KEY)"
           end
  | _ => unknown_format
  end.

(** What was sealed is read back. *)
Theorem open_seal iv plain : open (seal iv plain) = Ok plain.
Proof.
  destruct (iv_is_text iv) as [Hi Hid], (encrypt_is_text iv plain) as [He Hed].
  unfold open, seal. change ("v1." +++ iv_text iv +++ "." +++ encrypt iv plain) with ("v1" +++ String "." (iv_text iv +++ String "." (encrypt iv plain))).
  rewrite split_on_cons by done. rewrite split_on_cons by done. rewrite split_on_no_char by done.
  rewrite bool_decide_eq_true_2 by done. rewrite Hi, He. simpl. by rewrite decrypt_encrypt.
Qed.
End secrets.

(** ** A cipher for examples *)

(** Every byte as two letters. *)
Definition letter (n : Z) : Ascii.ascii := Ascii.ascii_of_N (Z.to_N (97 + n)).
Definition letter_val (c : Ascii.ascii) : Z := Z.of_N (Ascii.N_of_ascii c) - 97.
Fixpoint spell (s : string) : string :=
  match s with
  | EmptyString => "t"
  | String c s => let n := Z.of_N (Ascii.N_of_ascii c) in String (letter (n / 16)) (String (letter (n mod 16)) (spell s))
  end.
Fixpoint unspell (s : string) : option string :=
  match s with
  | String a (String b s) => String (Ascii.ascii_of_N (Z.to_N (16 * letter_val a + letter_val b))) <$> unspell s
  | String _ EmptyString => Some EmptyString
  | EmptyString => None
  end.

Lemma unspell_spell s : unspell (spell s) = Some s.
Proof. induction s as [|c s IH]; [done|]. cbn [spell unspell]. rewrite IH. cbn. f_equal. f_equal. by destruct c as [[] [] [] [] [] [] [] []]. Qed.
Lemma spell_text s : truthy_str (spell s) = true ∧ has_char "." (spell s) = false.
Proof. induction s as [|c s [_ IH]]; [done|]. cbn [spell has_char]. rewrite IH. by destruct c as [[] [] [] [] [] [] [] []]. Qed.

Definition demo_cipher : Cipher.
Proof.
  refine {| nonce := string; iv_text := spell; encrypt _ plain := spell plain; decrypt _ ct := unspell ct |}.
  - intros _ plain. apply unspell_spell.
  - apply spell_text.
  - intros _. apply spell_text.
Defined.
