(* ===== verification/Sessions.v ===== *)
(** * Sessions: the browser's sessions and their tokens

    Models the table [sessions] and [freshSession] of [auth/principal.ts], with
    the sign-in and sign-out of [auth/session.ts] that insert and delete rows,
    as steps of requests in flight: a step is one awaited statement, so
    requests of any replica interleave between them. The advisory lock and the
    transaction are as Postgres has them: whoever waits for the lock reads the
    row only once the transaction before has ended; [Lost] is a transaction
    that is rolled back. Hydra's answers are labels of the steps. *)

From stdpp Require Import gmap.
From S2P Require Import Prelude JsString Effects Secrets.
Open Scope Z_scope.

Record TokenSet := { ts_accessToken : string; ts_refreshToken : option string; ts_idToken : option string; ts_expiresIn : Z }.

(** A row; its refresh token is sealed. *)
Record Session := {
  se_userId : string; se_accessToken : string; se_refreshToken : option string; se_idToken : option string;
  se_expiresAt : Z; se_createdAt : Z; se_lastSeenAt : Z;
}.

Definition SESSION_MAX_AGE_S : Z := 7 * 86400.
Definition REFRESH_BEFORE_MS : Z := 60000.

Section sessions.
Context {C : Cipher} (hashtext : string → Z).

(** Where a request waits; [cur] is the row that it read under the lock. *)
Inductive Phase :=
  | Reading                                   (** the first [select] *)
  | Expiring                                  (** the [delete] of a session that is too old *)
  | Locking                                   (** [pg_advisory_xact_lock] *)
  | ReadingAgain                              (** the [select] under the lock *)
  | Refreshing (cur : Session)                (** Hydra's token endpoint *)
  | SigningOut                                (** the [delete] after a refresh that failed *)
  | Done (row : option Session)
  | Failed.                                   (** the transaction was lost, and with it the request *)
Record Request := { rq_session : string; rq_at : Z; rq_phase : Phase }.

(** [w_presented]: the refresh tokens given to Hydra, the latest last; [w_issued]: those that came from it. *)
Record World := {
  w_now : Z; w_sessions : gmap string Session; w_lock : gmap Z nat; w_requests : list Request;
  w_presented : list string; w_issued : gset string;
}.
Definition started (now : Z) : World :=
  {| w_now := now; w_sessions := ∅; w_lock := ∅; w_requests := []; w_presented := []; w_issued := ∅ |}.

Definition with_sessions (w : World) (m : gmap string Session) : World :=
  {| w_now := w_now w; w_sessions := m; w_lock := w_lock w; w_requests := w_requests w; w_presented := w_presented w; w_issued := w_issued w |}.
Definition with_lock (w : World) (m : gmap Z nat) : World :=
  {| w_now := w_now w; w_sessions := w_sessions w; w_lock := m; w_requests := w_requests w; w_presented := w_presented w; w_issued := w_issued w |}.
Definition with_requests (w : World) (l : list Request) : World :=
  {| w_now := w_now w; w_sessions := w_sessions w; w_lock := w_lock w; w_requests := l; w_presented := w_presented w; w_issued := w_issued w |}.
Definition presents (w : World) (t : string) : World :=
  {| w_now := w_now w; w_sessions := w_sessions w; w_lock := w_lock w; w_requests := w_requests w; w_presented := w_presented w ++ [t]; w_issued := w_issued w |}.
Definition issues (w : World) (set : TokenSet) : World :=
  {| w_now := w_now w; w_sessions := w_sessions w; w_lock := w_lock w; w_requests := w_requests w; w_presented := w_presented w;
     w_issued := match ts_refreshToken set with Some t => ({[t]} ∪ w_issued w) | None => w_issued w end |}.

Definition moves (w : World) (i : nat) (r : Request) (p : Phase) : World :=
  with_requests w (<[i := {| rq_session := rq_session r; rq_at := rq_at r; rq_phase := p |}]> (w_requests w)).
(** The transaction of request [i] ends: its lock is free. *)
Definition commits (w : World) (i : nat) (r : Request) (p : Phase) : World :=
  with_lock (moves w i r p) (delete (hashtext (rq_session r)) (w_lock w)).

Definition too_old (w : World) (row : Session) : bool := SESSION_MAX_AGE_S * 1000 <? w_now w - se_createdAt row.
Definition fresh (w : World) (row : Session) : bool := REFRESH_BEFORE_MS <? se_expiresAt row - w_now w.

(** The statements of [freshSession], each with what follows it up to the next. *)
Definition on_read (w : World) (i : nat) (r : Request) : World :=
  match w_sessions w !! rq_session r with
  | None => moves w i r (Done None)
  | Some row =>
      if too_old w row then moves w i r Expiring
      else if fresh w row then moves w i r (Done (Some row)) else moves w i r Locking
  end.
Definition on_expire (w : World) (i : nat) (r : Request) : World :=
  moves (with_sessions w (delete (rq_session r) (w_sessions w))) i r (Done None).
Definition on_lock (w : World) (i : nat) (r : Request) : option World :=
  match w_lock w !! hashtext (rq_session r) with
  | Some _ => None
  | None => Some (with_lock (moves w i r ReadingAgain) (<[hashtext (rq_session r) := i]> (w_lock w)))
  end.
Definition on_read_again (w : World) (i : nat) (r : Request) : World :=
  match w_sessions w !! rq_session r with
  | None => commits w i r (Done None)
  | Some cur =>
      if fresh w cur then commits w i r (Done (Some cur))
      else
        match se_refreshToken cur with
        | None => moves w i r SigningOut
        | Some sealed =>
            if negb (truthy_str sealed) then moves w i r SigningOut
            else match open sealed with
                 | Throw _ => moves w i r SigningOut
                 | Ok token => presents (moves w i r (Refreshing cur)) token
                 end
        end
  end.

Definition updated (w : World) (iv : nonce) (cur row : Session) (set : TokenSet) : Session :=
  {| se_userId := se_userId row; se_accessToken := ts_accessToken set;
     se_refreshToken := match ts_refreshToken set with
                        | Some t => if truthy_str t then Some (seal iv t) else se_refreshToken cur
                        | None => se_refreshToken cur
                        end;
     se_idToken := match ts_idToken set with Some t => Some t | None => se_idToken cur end;
     se_expiresAt := w_now w + ts_expiresIn set * 1000; se_createdAt := se_createdAt row; se_lastSeenAt := w_now w |}.
(** Hydra answered with [set]: the row, if it is still there, is updated, and the transaction ends. *)
Definition on_refreshed (w : World) (i : nat) (r : Request) (iv : nonce) (cur : Session) (set : TokenSet) : World :=
  let w := issues w set in
  match w_sessions w !! rq_session r with
  | None => commits w i r (Done None)
  | Some row =>
      let row := updated w iv cur row set in
      commits (with_sessions w (<[rq_session r := row]> (w_sessions w))) i r (Done (Some row))
  end.
Definition on_sign_out (w : World) (i : nat) (r : Request) : World :=
  commits (with_sessions w (delete (rq_session r) (w_sessions w))) i r (Done None).

(** The row that a sign-in inserts ([GET /auth/callback]). *)
Definition signed_in (w : World) (iv : nonce) (user : string) (set : TokenSet) : Session :=
  {| se_userId := user; se_accessToken := ts_accessToken set;
     se_refreshToken := match ts_refreshToken set with Some t => if truthy_str t then Some (seal iv t) else None | None => None end;
     se_idToken := ts_idToken set; se_expiresAt := w_now w + ts_expiresIn set * 1000; se_createdAt := w_now w; se_lastSeenAt := w_now w |}.

Definition in_transaction (p : Phase) : bool := match p with ReadingAgain | Refreshing _ | SigningOut => true | _ => false end.

Inductive Label :=
  | Later (t : Z)
  | SignIn (id user : string) (iv : nonce) (set : TokenSet)
  | SignOut (id : string)                     (** [POST /auth/logout], or the user's row is deleted *)
  | Begin (id : string)
  | Step (i : nat)                            (** the statement that request [i] waits for *)
  | Refreshed (i : nat) (iv : nonce) (set : TokenSet)
  | RefreshFailed (i : nat)
  | Lost (i : nat).

(** [None]: not possible now. *)
Definition step (w : World) (l : Label) : option World :=
  match l with
  | Later t =>
      if w_now w <=? t then
        Some {| w_now := t; w_sessions := w_sessions w; w_lock := w_lock w; w_requests := w_requests w; w_presented := w_presented w; w_issued := w_issued w |}
      else None
  | SignIn id user iv set =>
      match w_sessions w !! id with
      | Some _ => None
      | None => Some (with_sessions (issues w set) (<[id := signed_in w iv user set]> (w_sessions w)))
      end
  | SignOut id => Some (with_sessions w (delete id (w_sessions w)))
  | Begin id => Some (with_requests w (w_requests w ++ [{| rq_session := id; rq_at := w_now w; rq_phase := Reading |}]))
  | Step i =>
      r ← w_requests w !! i;
      match rq_phase r with
      | Reading => Some (on_read w i r)
      | Expiring => Some (on_expire w i r)
      | Locking => on_lock w i r
      | ReadingAgain => Some (on_read_again w i r)
      | SigningOut => Some (on_sign_out w i r)
      | _ => None
      end
  | Refreshed i iv set =>
      r ← w_requests w !! i;
      match rq_phase r with Refreshing cur => Some (on_refreshed w i r iv cur set) | _ => None end
  | RefreshFailed i =>
      r ← w_requests w !! i;
      match rq_phase r with Refreshing cur => Some (moves w i r SigningOut) | _ => None end
  | Lost i =>
      r ← w_requests w !! i;
      if in_transaction (rq_phase r) then Some (commits w i r Failed) else None
  end.

Fixpoint exec (w : World) (ls : list Label) : option World :=
  match ls with [] => Some w | l :: ls => w ← step w l; exec w ls end.

(** Runs from the start, whose steps are [allowed]. *)
Inductive runs (allowed : World → Label → Prop) (now : Z) : World → Prop :=
  | runs_start : runs allowed now (started now)
  | runs_step w l w' : runs allowed now w → allowed w l → step w l = Some w' → runs allowed now w'.

(** Hydra rotates refresh tokens: every answer has one that it never gave before, and that is not empty. *)
Definition rotates (w : World) (l : Label) : Prop :=
  match l with
  | SignIn _ _ _ set => match ts_refreshToken set with Some t => (t ∉ w_issued w) ∧ truthy_str t = true | None => True end
  | Refreshed _ _ set => ∃ t, ts_refreshToken set = Some t ∧ (t ∉ w_issued w) ∧ truthy_str t = true
  | _ => True
  end.
Definition kept (l : Label) : Prop := match l with Lost _ => False | _ => True end.
End sessions.
