(* ===== verification/SessionsTheory.v ===== *)
(** * SessionsTheory: no refresh token is used twice

    What holds of the sessions in every interleaving of requests: the lock
    excludes, a refresh token is given to Hydra once, and no request is served
    by a session that has ended. *)

From stdpp Require Import gmap.
From S2P Require Import Prelude JsString Effects Secrets Sessions.
Open Scope Z_scope.

Section theory.
Context {C : Cipher} (hashtext : string → Z).
Abbreviation step := (step hashtext).
Abbreviation runs := (runs hashtext).
Abbreviation commits := (commits hashtext).

(** What a step changes of the requests: the one that steps, to a new phase. *)
Definition at_phase (w : World) (i : nat) (r : Request) (p : Phase) : Prop :=
  w_requests w !! i = Some r ∧ rq_phase r = p.

(** ** The lock *)

Definition holds (w : World) (i : nat) (k : Z) : Prop :=
  ∃ r, w_requests w !! i = Some r ∧ in_transaction (rq_phase r) = true ∧ hashtext (rq_session r) = k.
Definition exclusive (w : World) : Prop := ∀ k i, w_lock w !! k = Some i ↔ holds w i k.

Lemma exclusive_unique w i j k : exclusive w → holds w i k → holds w j k → i = j.
Proof. intros Hw Hi%Hw Hj%Hw. congruence. Qed.

Lemma exclusive_ext w w' : w_lock w' = w_lock w → w_requests w' = w_requests w → exclusive w → exclusive w'.
Proof. unfold exclusive, holds. by intros -> ->. Qed.

Lemma lookup_moves w i r p j : w_requests w !! i = Some r →
  w_requests (moves w i r p) !! j
  = if decide (j = i) then Some {| rq_session := rq_session r; rq_at := rq_at r; rq_phase := p |} else w_requests w !! j.
Proof.
  intros Hi. cbn. destruct (decide (j = i)) as [->|Hj].
  - apply list_lookup_insert_eq. by eapply lookup_lt_Some.
  - by apply list_lookup_insert_ne.
Qed.

(** A request that moves within its transaction, or outside of one. *)
Lemma exclusive_moves w i r p :
  w_requests w !! i = Some r → in_transaction p = in_transaction (rq_phase r) → exclusive w → exclusive (moves w i r p).
Proof.
  intros Hi Hp Hw k j. change (w_lock (moves w i r p)) with (w_lock w). rewrite (Hw k j). unfold holds.
  setoid_rewrite (lookup_moves w i r p j Hi). destruct (decide (j = i)) as [->|]; [|done]. split.
  - intros (r' & Hr & Ht & Hk). simplify_eq. eexists. split; [done|]. cbn. by rewrite Hp.
  - intros (r' & Hr & Ht & Hk). simplify_eq. eexists. split; [done|]. cbn in *. by rewrite <-Hp.
Qed.

Lemma exclusive_commits w i r p :
  w_requests w !! i = Some r → in_transaction (rq_phase r) = true → in_transaction p = false → exclusive w → exclusive (commits w i r p).
Proof.
  intros Hi Ht Hp Hw k j. change (w_lock (commits w i r p)) with (delete (hashtext (rq_session r)) (w_lock w)).
  assert (holds w i (hashtext (rq_session r))) as Hh by (by exists r). unfold holds.
  change (w_requests (commits w i r p)) with (w_requests (moves w i r p)). setoid_rewrite (lookup_moves w i r p j Hi). split.
  - intros [Hne Hl]%lookup_delete_Some. apply Hw in Hl as (r' & Hr & Ht' & Hk). destruct (decide (j = i)) as [->|]; [|by exists r'].
    simplify_eq.
  - intros (r' & Hr & Ht' & Hk). destruct (decide (j = i)) as [->|Hj]; [simplify_eq; cbn in *; congruence|].
    apply lookup_delete_Some. split; [|apply Hw; by exists r']. intros <-. apply Hj, (exclusive_unique w j i (hashtext (rq_session r)) Hw); [by exists r'|done].
Qed.

Lemma exclusive_locks w i r : w_requests w !! i = Some r → in_transaction (rq_phase r) = false →
  w_lock w !! hashtext (rq_session r) = None → exclusive w →
  exclusive (with_lock (moves w i r ReadingAgain) (<[hashtext (rq_session r) := i]> (w_lock w))).
Proof.
  intros Hi Ht Hl Hw k j. cbn [with_lock w_lock]. unfold holds. cbn [with_lock w_requests].
  setoid_rewrite (lookup_moves w i r ReadingAgain j Hi). destruct (decide (j = i)) as [->|Hj]; split.
  - intros [[<- _]|[Hne Hk]]%lookup_insert_Some; [by eexists|]. apply Hw in Hk as (r' & Hr & Ht' & _). simplify_eq. congruence.
  - intros (r' & Hr & _ & <-). simplify_eq. by rewrite lookup_insert_eq.
  - intros [[_ ->]|[Hne Hk]]%lookup_insert_Some; [done|]. by apply Hw.
  - intros Hk. apply (Hw k j) in Hk. rewrite lookup_insert_ne; [done|]. intros <-. congruence.
Qed.

(** Opens a step into its cases: [Hi] the request, [Hp] its phase. *)
Ltac step_cases H :=
  cbn [Sessions.step] in H;
  repeat match type of H with
         | context [w_requests ?w !! ?i] => let r := fresh "r" in destruct (w_requests w !! i) as [r|] eqn:Hi; cbn [mbind option_bind] in H; [|done]
         | context [match rq_phase ?r with Reading => _ | _ => _ end] => let cur := fresh "cur" in destruct (rq_phase r) as [| | | |cur| | |] eqn:Hp; try done
         end.

Lemma step_exclusive w l w' : exclusive w → step w l = Some w' → exclusive w'.
Proof.
  intros Hw H. destruct l as [t|id user iv set|id|id|i|i iv set|i|i]; step_cases H.
  - destruct (_ <=? _); simplify_eq. by apply (exclusive_ext w).
  - destruct (_ !! id); simplify_eq. by apply (exclusive_ext w).
  - simplify_eq. by apply (exclusive_ext w).
  - simplify_eq. intros k j. cbn. rewrite (Hw k j). unfold holds. cbn. split; intros (r & Hr & Ht & Hk).
    + exists r. split; [by apply lookup_app_l_Some|done].
    + apply lookup_snoc_Some in Hr as [[_ Hr]|[_ <-]]; [by exists r|done].
  - simplify_eq. unfold on_read. repeat case_match; by apply exclusive_moves; rewrite ?Hp.
  - simplify_eq. unfold on_expire. apply exclusive_moves; [done|by rewrite Hp|]. by apply (exclusive_ext w).
  - unfold on_lock in H. destruct (w_lock w !! _) eqn:Hl; simplify_eq. apply exclusive_locks; [done|by rewrite Hp|done..].
  - simplify_eq. unfold on_read_again. repeat case_match;
      try (by apply exclusive_moves; rewrite ?Hp); try (by apply exclusive_commits; rewrite ?Hp).
  - simplify_eq. unfold on_sign_out. apply exclusive_commits; [done|by rewrite Hp|done|]. by apply (exclusive_ext w).
  - simplify_eq. unfold on_refreshed. case_match; (apply exclusive_commits; [done|by rewrite Hp|done|by apply (exclusive_ext w)]).
  - simplify_eq. apply exclusive_moves; [done|by rewrite Hp|done].
  - destruct (in_transaction _) eqn:Ht; simplify_eq. by apply exclusive_commits.
Qed.

(** ** Refresh tokens *)

Definition token_of (row : Session) : option string :=
  match se_refreshToken row with
  | Some sealed => match open sealed with Ok t => Some t | Throw _ => None end
  | None => None
  end.
Definition has_token (w : World) (id t : string) : Prop := ∃ row, w_sessions w !! id = Some row ∧ token_of row = Some t.
(** Its session's token has been given to Hydra. *)
Definition spent (p : Phase) : Prop := match p with Refreshing _ | SigningOut => True | _ => False end.
Definition spender (w : World) (id : string) : Prop := ∃ i r, w_requests w !! i = Some r ∧ rq_session r = id ∧ spent (rq_phase r).

Record tokens_ok (w : World) : Prop := {
  tk_issued id t : has_token w id t → t ∈ w_issued w;
  tk_apart id id' t : has_token w id t → has_token w id' t → id = id';
  tk_presented t : t ∈ w_presented w → t ∈ w_issued w;
  tk_once : NoDup (w_presented w);
  tk_spent id t : has_token w id t → t ∈ w_presented w → spender w id;
}.

(** A step after which a session's token is the one it had or a new one, and whose sessions still have
    whoever spent their token. *)
Lemma tokens_step w w' : tokens_ok w →
  (∀ id t, has_token w' id t → has_token w id t ∨ (t ∉ w_issued w) ∧ t ∈ w_issued w' ∧ ∀ id', has_token w' id' t → id' = id) →
  w_issued w ⊆ w_issued w' → w_presented w' = w_presented w →
  (∀ i r t, w_requests w !! i = Some r → spent (rq_phase r) → has_token w (rq_session r) t → has_token w' (rq_session r) t → spender w' (rq_session r)) →
  tokens_ok w'.
Proof.
  intros Hok Htok Hiss Hpre Hsp. split.
  - intros id t [H|(_ & H & _)]%Htok; [|done]. apply Hiss. by apply (tk_issued w Hok id).
  - intros id id' t H H'. destruct (Htok id t H) as [Ho|(_ & _ & Hu)]; [|by symmetry; apply Hu].
    destruct (Htok id' t H') as [Ho'|(Hn & _)]; [by apply (tk_apart w Hok id id' t)|]. by destruct Hn; apply (tk_issued w Hok id).
  - intros t H. rewrite Hpre in H. by apply Hiss, (tk_presented w Hok).
  - rewrite Hpre. apply Hok.
  - intros id t H Hin. rewrite Hpre in Hin. destruct (Htok id t H) as [Ho|(Hn & _)]; [|by destruct Hn; apply (tk_presented w Hok)].
    destruct (tk_spent w Hok id t Ho Hin) as (i & r & Hi & <- & Hr). by apply (Hsp i r t).
Qed.

(** The requests as they are, with one of them moved to another phase. *)
Definition moved (w w' : World) (i : nat) (r : Request) (p : Phase) : Prop := w_requests w' = w_requests (moves w i r p).

Lemma spender_moved w w' i r p j rj : w_requests w !! i = Some r → moved w w' i r p →
  w_requests w !! j = Some rj → spent (rq_phase rj) → (j = i → spent p) → spender w' (rq_session rj).
Proof.
  intros Hi Hm Hj Hs Hji. destruct (decide (j = i)) as [->|Hne].
  - assert (r = rj) as -> by congruence. exists i, {| rq_session := rq_session rj; rq_at := rq_at rj; rq_phase := p |}.
    split; [|split; [done|by apply Hji]]. rewrite Hm, lookup_moves by done. by rewrite decide_True.
  - exists j, rj. split; [|done]. rewrite Hm, lookup_moves by done. by rewrite decide_False.
Qed.

(** A step of a request that leaves the sessions alone or deletes its own. *)
Lemma tokens_moved w w' i r p : tokens_ok w → w_requests w !! i = Some r → moved w w' i r p →
  (∀ id t, has_token w' id t → has_token w id t) → w_issued w' = w_issued w → w_presented w' = w_presented w →
  (spent (rq_phase r) → spent p ∨ w_sessions w' !! rq_session r = None) → tokens_ok w'.
Proof.
  intros Hok Hi Hm Htok Hiss Hpre Hsp. apply (tokens_step w); [done|by left; apply Htok|by rewrite Hiss|done|].
  intros j rj t Hj Hs _ (row & Hrow & _). apply (spender_moved w w' i r p j rj); [done..|]. intros ->. assert (r = rj) as -> by congruence.
  destruct (Hsp Hs); [done|congruence].
Qed.

Lemma has_token_sessions w w' id t : w_sessions w' = w_sessions w → has_token w' id t → has_token w id t.
Proof. unfold has_token. by intros ->. Qed.
Lemma has_token_delete w w' k id t : has_token w' id t → w_sessions w' = delete k (w_sessions w) → has_token w id t.
Proof. unfold has_token. intros H Heq. rewrite Heq in H. destruct H as (row & [_ Hrow]%lookup_delete_Some & Ht). by exists row. Qed.

(** A step that writes a row whose token, if any, is new. *)
Lemma tokens_insert w w' k row : tokens_ok w → w_sessions w' = <[k := row]> (w_sessions w) →
  (∀ t, token_of row = Some t → (t ∉ w_issued w) ∧ t ∈ w_issued w') → w_issued w ⊆ w_issued w' → w_presented w' = w_presented w →
  (∀ i r, w_requests w !! i = Some r → spent (rq_phase r) → rq_session r ≠ k → spender w' (rq_session r)) → tokens_ok w'.
Proof.
  intros Hok Hs Hnew Hiss Hpre Hsp.
  assert (∀ id t, has_token w' id t → id = k ∧ token_of row = Some t ∨ id ≠ k ∧ has_token w id t) as Hcase.
  { intros id t (x & Hx & Ht). rewrite Hs in Hx. apply lookup_insert_Some in Hx as [[<- <-]|[Hne Hx]]; [by left|right; by split; [|exists x]]. }
  apply (tokens_step w); [done| |done..|].
  - intros id t [[-> Ht]|[_ Ht]]%Hcase; [|by left]. right. destruct (Hnew t Ht) as [Hn Hi]. split_and!; [done..|].
    intros id' [[-> _]|[_ Ht']]%Hcase; [done|]. by destruct Hn; apply (tk_issued w Hok id').
  - intros i r t Hi Hspent Hold Hnow. apply (Hsp i r Hi Hspent). intros Hk. apply Hcase in Hnow as [[_ Ht]|[? _]]; [|done].
    destruct (Hnew t Ht) as [Hn _]. by apply Hn, (tk_issued w Hok (rq_session r)).
Qed.

(** A request gives its session's token to Hydra: under the lock, nobody else can have. *)
Lemma tokens_present w i r row sealed t : exclusive w → tokens_ok w →
  at_phase w i r ReadingAgain → w_sessions w !! rq_session r = Some row → se_refreshToken row = Some sealed → open sealed = Ok t →
  tokens_ok (presents (moves w i r (Refreshing row)) t).
Proof.
  intros Hex Hok [Hi Hp] Hrow Hse Ho. assert (has_token w (rq_session r) t) as Hhas.
  { exists row. split; [done|]. unfold token_of. by rewrite Hse, Ho. }
  assert (t ∉ w_presented w) as Hnew.
  { intros Hin. destruct (tk_spent w Hok _ t Hhas Hin) as (j & rj & Hj & Hs & Hpj).
    assert (i = j) as <-; [|simplify_eq; by rewrite Hp in Hpj]. apply (exclusive_unique w i j (hashtext (rq_session r)) Hex).
    - exists r. by rewrite Hp.
    - exists rj. rewrite Hs. split_and!; [done| |done]. by destruct (rq_phase rj). }
  split; cbn.
  - intros id t' H. apply (tk_issued w Hok id). done.
  - intros id id' t' H H'. by apply (tk_apart w Hok id id' t').
  - intros t' [H| ->%list_elem_of_singleton]%elem_of_app; [by apply (tk_presented w Hok)|by apply (tk_issued w Hok (rq_session r))].
  - apply NoDup_app. split_and!; [apply Hok| |apply NoDup_singleton]. intros x Hx ->%list_elem_of_singleton. done.
  - intros id t' H [Hin| ->%list_elem_of_singleton]%elem_of_app.
    + destruct (tk_spent w Hok id t' H Hin) as (j & rj & Hj & <- & Hs).
      apply (spender_moved w _ i r (Refreshing row) j rj Hi); [done..|by intros _].
    + assert (id = rq_session r) as -> by (by apply (tk_apart w Hok id (rq_session r) t)).
      exists i, {| rq_session := rq_session r; rq_at := rq_at r; rq_phase := Refreshing row |}. split; [|done].
      change (w_requests (moves w i r (Refreshing row)) !! i = Some {| rq_session := rq_session r; rq_at := rq_at r; rq_phase := Refreshing row |}).
      rewrite lookup_moves by done. by rewrite decide_True.
Qed.

Lemma token_updated w iv cur row set t : ts_refreshToken set = Some t → truthy_str t = true → token_of (updated w iv cur row set) = Some t.
Proof. intros Ht Hn. unfold token_of, updated. cbn [se_refreshToken]. rewrite Ht, Hn. by rewrite open_seal. Qed.

Lemma issued_grows w set : w_issued w ⊆ w_issued (issues w set).
Proof. cbn. destruct (ts_refreshToken set); [apply union_subseteq_r|done]. Qed.

Lemma step_tokens w l w' : exclusive w → tokens_ok w → rotates w l → kept l → step w l = Some w' → tokens_ok w'.
Proof.
  intros Hex Hok Hrot Hkept H. destruct l as [t|id user iv set|id|id|i|i iv set|i|i]; [..|done]; step_cases H.
  - destruct (_ <=? _); simplify_eq. apply (tokens_step w); [done|by left|done..|]. intros i r t' Hi Hs _ _. by exists i, r.
  - destruct (_ !! id) eqn:Hid; simplify_eq.
    apply (tokens_insert w _ id (signed_in w iv user set)); [done..| | |done|].
    + intros t. unfold token_of, signed_in. cbn [se_refreshToken]. cbn in Hrot. destruct (ts_refreshToken set) as [t'|] eqn:Ht; [|done]. destruct Hrot as [Hn ->].
      rewrite open_seal. intros [= <-]. cbn. rewrite Ht. set_solver.
    + apply issued_grows.
    + intros i r Hi Hs _. by exists i, r.
  - simplify_eq. apply (tokens_step w); [done|intros k x Hx; left; exact (has_token_delete w _ id k x Hx eq_refl)|done..|]. intros i r t' Hi Hs _ _. by exists i, r.
  - simplify_eq. apply (tokens_step w); [done|by left|done..|]. intros i r t' Hi Hs _ _. exists i, r. split; [|done]. by apply lookup_app_l_Some.
  - simplify_eq. unfold on_read. repeat case_match; (eapply (tokens_moved w _ i r _ Hok Hi); [reflexivity|done..|by rewrite Hp]).
  - simplify_eq. unfold on_expire. eapply (tokens_moved w _ i r (Done None) Hok Hi); [reflexivity| |done..|by rewrite Hp].
    intros id t Hx. exact (has_token_delete w _ _ id t Hx eq_refl).
  - unfold on_lock in H. destruct (w_lock w !! _); simplify_eq. eapply (tokens_moved w _ i r ReadingAgain Hok Hi); [reflexivity|done..|by rewrite Hp].
  - simplify_eq. unfold on_read_again. repeat case_match; try (eapply (tokens_moved w _ i r _ Hok Hi); [reflexivity|done..|by rewrite Hp]).
    by eapply tokens_present.
  - simplify_eq. eapply (tokens_moved w _ i r (Done None) Hok Hi); [reflexivity| |done..|by right; apply lookup_delete_eq].
    intros id t Hx. exact (has_token_delete w _ _ id t Hx eq_refl).
  - simplify_eq. destruct Hrot as (t & Ht & Hn & Hne). unfold on_refreshed. destruct (w_sessions (issues w set) !! rq_session r) as [row|] eqn:Hrow.
    + eapply (tokens_insert w _ (rq_session r)); [done|reflexivity| | |done|].
      * intros t'. rewrite (token_updated _ _ _ _ _ t) by done. intros [= <-]. split; [done|]. cbn. rewrite Ht. set_solver.
      * apply issued_grows.
      * intros j rj Hj Hs Hne'. eapply (spender_moved w _ i r _ j rj Hi); [reflexivity|done..|]. intros ->. congruence.
    + apply (tokens_step w); [done|by left| |done|].
      * cbn. rewrite Ht. set_solver.
      * intros j rj t' Hj Hs Hold _. eapply (spender_moved w _ i r (Done None) j rj Hi); [reflexivity|done..|]. intros ->.
        assert (r = rj) as -> by congruence. destruct Hold as (row & Hr & _). cbn in Hrow. congruence.
  - simplify_eq. eapply (tokens_moved w _ i r SigningOut Hok Hi); [reflexivity|done..|by left].
Qed.

(** ** Age *)

Definition young (r : Request) (row : Session) : Prop := rq_at r - se_createdAt row ≤ SESSION_MAX_AGE_S * 1000.
Definition served (w : World) (r : Request) : Prop :=
  rq_at r ≤ w_now w ∧
  match rq_phase r with
  | Locking | ReadingAgain | Refreshing _ | SigningOut => ∀ row, w_sessions w !! rq_session r = Some row → young r row
  | Done (Some row) => young r row
  | _ => True
  end.
Definition all_served (w : World) : Prop := ∀ i r, w_requests w !! i = Some r → served w r.

(** What a step makes of the rows: they were there, as old, or were inserted now. *)
Definition rows_follow (w w' : World) : Prop :=
  w_now w ≤ w_now w' ∧
  ∀ id row, w_sessions w' !! id = Some row →
    (∃ row0, w_sessions w !! id = Some row0 ∧ se_createdAt row0 = se_createdAt row) ∨ w_now w ≤ se_createdAt row.

Lemma served_follow w w' r : rows_follow w w' → served w r → served w' r.
Proof.
  intros [Hnow Hrows] [Hat Hr]. split; [lia|].
  assert ((∀ row, w_sessions w !! rq_session r = Some row → young r row) → ∀ row, w_sessions w' !! rq_session r = Some row → young r row) as Hall.
  { intros H row Hrow. destruct (Hrows _ _ Hrow) as [(row0 & H0 & Heq)|Hn]; unfold young in *; [rewrite <-Heq; by apply H|].
    unfold SESSION_MAX_AGE_S. lia. }
  destruct (rq_phase r); eauto.
Qed.

Lemma rows_follow_same w w' : w_now w ≤ w_now w' → w_sessions w' = w_sessions w → rows_follow w w'.
Proof. intros Hn Hs. split; [done|]. intros id row Hrow. left. exists row. by rewrite <-Hs. Qed.
Lemma rows_follow_delete w w' k : w_now w ≤ w_now w' → w_sessions w' = delete k (w_sessions w) → rows_follow w w'.
Proof. intros Hn Hs. split; [done|]. intros id row Hrow. left. exists row. rewrite Hs in Hrow. by apply lookup_delete_Some in Hrow as [_ ?]. Qed.

(** A request moves to phase [p], in a step that does to the rows what [rows_follow] says. *)
Lemma served_moved w w' i r p : all_served w → rows_follow w w' → w_requests w !! i = Some r → moved w w' i r p →
  match p with
  | Locking | ReadingAgain | Refreshing _ | SigningOut => ∀ row, w_sessions w' !! rq_session r = Some row → young r row
  | Done (Some row) => young r row
  | _ => True
  end → all_served w'.
Proof.
  intros Hall Hf Hi Hm Hp j rj Hj. rewrite Hm, lookup_moves in Hj by done. destruct (decide (j = i)).
  - simplify_eq. pose proof (Hall i r Hi) as [Hat _]. pose proof Hf as [Hn _]. by split; [cbn; lia|].
  - apply (served_follow w); [done|]. by apply (Hall j).
Qed.
Lemma served_moved_same w w' i r p : all_served w → w_now w ≤ w_now w' → w_sessions w' = w_sessions w → w_requests w !! i = Some r → moved w w' i r p →
  match p with
  | Locking | ReadingAgain | Refreshing _ | SigningOut => ∀ row, w_sessions w !! rq_session r = Some row → young r row
  | Done (Some row) => young r row
  | _ => True
  end → all_served w'.
Proof. intros Hall Hn Hs Hi Hm Hp. apply (served_moved w w' i r p); [done|by apply rows_follow_same|done..|]. by rewrite Hs. Qed.

Lemma young_read w r row : rq_at r ≤ w_now w → too_old w row = false → young r row.
Proof. unfold too_old, young. intros Ha Ho%Z.ltb_ge. lia. Qed.

Lemma step_served w l w' : all_served w → step w l = Some w' → all_served w'.
Proof.
  intros Hall H. destruct l as [t|id user iv set|id|id|i|i iv set|i|i]; step_cases H.
  - destruct (_ <=? _) eqn:Ht; simplify_eq. apply Z.leb_le in Ht. intros j rj Hj. apply (served_follow w); [by apply rows_follow_same|]. by apply (Hall j).
  - destruct (_ !! id) eqn:Hid; simplify_eq. intros j rj Hj. apply (served_follow w); [|by apply (Hall j)]. split; [done|].
    cbn. intros k row [[<- <-]|[_ Hk]]%lookup_insert_Some; [by right; reflexivity|left; by exists row].
  - simplify_eq. intros j rj Hj. apply (served_follow w); [by apply (rows_follow_delete _ _ id)|]. by apply (Hall j).
  - simplify_eq. intros j rj Hj. cbn in Hj. apply lookup_snoc_Some in Hj as [[_ Hj]|[_ <-]].
    + apply (served_follow w); [by apply rows_follow_same|]. by apply (Hall j).
    + by split.
  - simplify_eq. pose proof (Hall i r Hi) as [Hat _]. unfold on_read. destruct (w_sessions w !! rq_session r) as [row|] eqn:Hrow.
    2: { by apply (served_moved_same w _ i r (Done None)). }
    destruct (too_old w row) eqn:Ho; [|destruct (fresh w row)]; (eapply (served_moved_same w _ i r); [done..|reflexivity|]).
    + done.
    + by apply (young_read w).
    + cbn. intros row' Hrow'. simplify_eq. by apply (young_read w).
  - simplify_eq. by apply (served_moved w _ i r (Done None)); [|apply (rows_follow_delete _ _ (rq_session r))|..].
  - pose proof (Hall i r Hi) as [_ Hr]. rewrite Hp in Hr. unfold on_lock in H. destruct (w_lock w !! _); simplify_eq.
    by apply (served_moved_same w _ i r ReadingAgain).
  - simplify_eq. pose proof (Hall i r Hi) as [_ Hy]. rewrite Hp in Hy. unfold on_read_again.
    repeat case_match; (eapply (served_moved_same w _ i r); [done..|reflexivity|]); try exact I; try (by apply Hy);
      by intros row Hrow; apply Hy; rewrite <-Hrow.
  - simplify_eq. by apply (served_moved w _ i r (Done None)); [|apply (rows_follow_delete _ _ (rq_session r))|..].
  - simplify_eq. pose proof (Hall i r Hi) as [_ Hy]. rewrite Hp in Hy. unfold on_refreshed.
    destruct (w_sessions (issues w set) !! rq_session r) as [row|] eqn:Hrow; cbn in Hrow; [|by apply (served_moved_same w _ i r (Done None))].
    eapply (served_moved w _ i r); [done| |done|reflexivity|exact (Hy row Hrow)].
    split; [done|]. intros k row' Hk. cbn in Hk. left. apply lookup_insert_Some in Hk as [[<- <-]|[_ Hk]]; [by exists row|by exists row'].
  - simplify_eq. pose proof (Hall i r Hi) as [_ Hy]. rewrite Hp in Hy. by apply (served_moved_same w _ i r SigningOut).
  - destruct (in_transaction _) eqn:Ht; simplify_eq. by apply (served_moved_same w _ i r Failed).
Qed.

(** ** Runs *)

Lemma started_exclusive now : exclusive (started now).
Proof. intros k i. cbn. rewrite lookup_empty. split; [done|]. by intros (r & Hr & _). Qed.
Lemma runs_exclusive allowed now w : runs allowed now w → exclusive w.
Proof. induction 1 as [|w l w' _ IH _ Hs]; [apply started_exclusive|]. by apply (step_exclusive w l). Qed.
Lemma runs_served allowed now w : runs allowed now w → all_served w.
Proof. induction 1 as [|w l w' _ IH _ Hs]; [by intros i r|]. by apply (step_served w l). Qed.

Lemma started_no_token now id t : ¬ has_token (started now) id t.
Proof. intros (row & Hrow & _). cbn in Hrow. by rewrite lookup_empty in Hrow. Qed.
Lemma started_tokens now : tokens_ok (started now).
Proof.
  split.
  - by intros id t ?%started_no_token.
  - by intros id id' t ?%started_no_token.
  - by intros t ?%elem_of_nil.
  - apply NoDup_nil_2.
  - by intros id t ?%started_no_token.
Qed.
Lemma runs_tokens now w : runs (λ w l, rotates w l ∧ kept l) now w → tokens_ok w.
Proof.
  induction 1 as [|w l w' Hr IH [Hrot Hk] Hs]; [apply started_tokens|].
  apply (step_tokens w l); [by eapply runs_exclusive|done..].
Qed.

(** Whoever waits for the lock of a session waits for a request that can go on. *)
Lemma lock_holder_moves allowed now w i r : runs allowed now w → w_requests w !! i = Some r → rq_phase r = Locking →
  (∃ w', step w (Step i) = Some w') ∨ ∃ j w', j ≠ i ∧ (step w (Step j) = Some w' ∨ step w (RefreshFailed j) = Some w').
Proof.
  intros Hruns Hi Hp. destruct (w_lock w !! hashtext (rq_session r)) as [j|] eqn:Hl.
  - right. apply (runs_exclusive _ _ _ Hruns) in Hl as (rj & Hj & Ht & _). exists j.
    assert (j ≠ i) as Hne by (intros ->; assert (r = rj) as -> by congruence; by rewrite Hp in Ht).
    destruct (rq_phase rj) as [| | | |cur| | |] eqn:Hpj; try done; (eexists; split; [done|]).
    + left. cbn. rewrite Hj. cbn. by rewrite Hpj.
    + right. cbn. rewrite Hj. cbn. by rewrite Hpj.
    + left. cbn. rewrite Hj. cbn. by rewrite Hpj.
  - left. eexists. cbn. rewrite Hi. cbn. rewrite Hp. unfold on_lock. by rewrite Hl.
Qed.

(** What a request is answered with: its session's row of that moment, whose access token lasts or has just been refreshed. *)
Definition answered_with (w w' : World) (l : Label) (r : Request) (row : Session) : Prop :=
  w_sessions w' !! rq_session r = Some row
  ∧ (REFRESH_BEFORE_MS < se_expiresAt row - w_now w
     ∨ ∃ i iv set, l = Refreshed i iv set ∧ se_accessToken row = ts_accessToken set ∧ se_expiresAt row = w_now w + ts_expiresIn set * 1000).

Lemma done_elsewhere w w' i r p j rj row : w_requests w !! i = Some r → moved w w' i r p → w_requests w' !! j = Some rj → rq_phase rj = Done (Some row) →
  w_requests w !! j = Some rj ∨ j = i ∧ p = Done (Some row) ∧ rq_session rj = rq_session r.
Proof.
  intros Hi Hm Hj Hd. rewrite Hm, lookup_moves in Hj by done. destruct (decide (j = i)); [right; by simplify_eq|by left].
Qed.

Lemma step_answers w l w' j rj row : step w l = Some w' → w_requests w' !! j = Some rj → rq_phase rj = Done (Some row) →
  w_requests w !! j = Some rj ∨ answered_with w w' l rj row.
Proof.
  intros H Hj Hd. destruct l as [t|id user iv set|id|id|i|i iv set|i|i]; step_cases H.
  - destruct (_ <=? _); simplify_eq. by left.
  - destruct (_ !! id); simplify_eq. by left.
  - simplify_eq. by left.
  - simplify_eq. cbn in Hj. apply lookup_snoc_Some in Hj as [[_ Hj]|[_ <-]]; [by left|done].
  - simplify_eq. unfold on_read in *. destruct (w_sessions w !! rq_session r) as [row'|] eqn:Hrow.
    2: { destruct (done_elsewhere _ _ _ _ (Done None) _ _ _ Hi eq_refl Hj Hd) as [?|(_ & ? & _)]; [by left|done]. }
    destruct (too_old w row'); [|destruct (fresh w row') eqn:Hf];
      (destruct (done_elsewhere _ _ _ _ _ _ _ _ Hi eq_refl Hj Hd) as [?|(_ & ? & Hs)]; [by left|]; simplify_eq).
    right. split; [cbn; by rewrite Hs|]. left. by apply Z.ltb_lt in Hf.
  - simplify_eq. destruct (done_elsewhere _ _ _ _ _ _ _ _ Hi eq_refl Hj Hd) as [?|(_ & ? & _)]; [by left|done].
  - unfold on_lock in H. destruct (w_lock w !! _); simplify_eq.
    destruct (done_elsewhere _ _ _ _ ReadingAgain _ _ _ Hi eq_refl Hj Hd) as [?|(_ & ? & _)]; [by left|done].
  - simplify_eq. unfold on_read_again in *.
    repeat (case_match; simplify_eq; try (destruct (done_elsewhere _ _ _ _ _ _ _ _ Hi eq_refl Hj Hd) as [?|(_ & ? & Hs)]; [by left|]; simplify_eq)).
    right. split; [cbn; by rewrite Hs|]. left. by apply Z.ltb_lt.
  - simplify_eq. destruct (done_elsewhere _ _ _ _ (Done None) _ _ _ Hi eq_refl Hj Hd) as [?|(_ & ? & _)]; [by left|done].
  - simplify_eq. unfold on_refreshed in *. destruct (w_sessions (issues w set) !! rq_session r) as [row'|] eqn:Hrow;
      (destruct (done_elsewhere _ _ _ _ _ _ _ _ Hi eq_refl Hj Hd) as [?|(_ & ? & Hs)]; [by left|]; simplify_eq).
    right. split; [cbn; rewrite Hs; by apply lookup_insert_eq|]. right. by exists i, iv, set.
  - simplify_eq. destruct (done_elsewhere _ _ _ _ SigningOut _ _ _ Hi eq_refl Hj Hd) as [?|(_ & ? & _)]; [by left|done].
  - destruct (in_transaction _); simplify_eq. destruct (done_elsewhere _ _ _ _ Failed _ _ _ Hi eq_refl Hj Hd) as [?|(_ & ? & _)]; [by left|done].
Qed.

(** ** Properties *)

(** C17: in every interleaving of requests, sign-ins and sign-outs on any number of replicas, no refresh token is
    given to Hydra twice, as long as Hydra rotates them and no transaction is lost; and a session whose token has
    been given away is in the hands of the one request that refreshes it or signs it out. *)
Theorem refresh_once now w : runs (λ w l, rotates w l ∧ kept l) now w →
  NoDup (w_presented w)
  ∧ (∀ id t, has_token w id t → t ∈ w_presented w → spender w id)
  ∧ ∀ i j ri rj, w_requests w !! i = Some ri → w_requests w !! j = Some rj →
      in_transaction (rq_phase ri) = true → in_transaction (rq_phase rj) = true → rq_session ri = rq_session rj → i = j.
Proof.
  intros Hruns. destruct (runs_tokens _ _ Hruns). split_and!; [done..|].
  intros i j ri rj Hi Hj Hti Htj Hs. apply (exclusive_unique w i j (hashtext (rq_session ri)) (runs_exclusive _ _ _ Hruns)).
  - by exists ri.
  - exists rj. by rewrite Hs.
Qed.

(** A request is only ever answered with the row its session has at that moment, never with one that was older
    than [SESSION_MAX_AGE_S] when the request came, and with an access token that lasts more than
    [REFRESH_BEFORE_MS] or was refreshed just then; whatever else happens, lost transactions included. *)
Theorem session_served allowed now w l w' j r row : runs allowed now w → step w l = Some w' →
  w_requests w' !! j = Some r → rq_phase r = Done (Some row) → w_requests w !! j ≠ Some r →
  answered_with w w' l r row ∧ young r row.
Proof.
  intros Hruns Hs Hj Hd Hnew. split; [by destruct (step_answers _ _ _ _ _ _ Hs Hj Hd)|].
  pose proof (step_served _ _ _ (runs_served _ _ _ Hruns) Hs j r Hj) as [_ Hr]. by rewrite Hd in Hr.
Qed.

(** Runs as lists of labels. *)
Fixpoint allowed_along (allowed : World → Label → Prop) (w : World) (ls : list Label) : Prop :=
  match ls with [] => True | l :: ls => allowed w l ∧ match step w l with Some w' => allowed_along allowed w' ls | None => False end end.
(** The same, decided. *)
Definition rotatesb (w : World) (l : Label) : bool :=
  let new t := negb (bool_decide (t ∈ w_issued w)) && truthy_str t in
  match l with
  | SignIn _ _ _ set => match ts_refreshToken set with Some t => new t | None => true end
  | Refreshed _ _ set => match ts_refreshToken set with Some t => new t | None => false end
  | Lost _ => false
  | _ => true
  end.
Fixpoint rotates_along (w : World) (ls : list Label) : bool :=
  match ls with [] => true | l :: ls => rotatesb w l && match step w l with Some w' => rotates_along w' ls | None => false end end.
Lemma rotatesb_spec w l : rotatesb w l = true → rotates w l ∧ kept l.
Proof.
  destruct l as [t|id user iv set|id|id|i|i iv set|i|i]; cbn; try done; destruct (ts_refreshToken set) as [t|]; try done;
    intros [Hn%negb_true_iff%bool_decide_eq_false Ht]%andb_true_iff; [done|]. split; [by exists t|done].
Qed.
Lemma rotates_along_spec w ls : rotates_along w ls = true → allowed_along (λ w l, rotates w l ∧ kept l) w ls.
Proof.
  revert w. induction ls as [|l ls IH]; intros w; cbn; [done|]. intros [Hl Hr]%andb_true_iff. split; [by apply rotatesb_spec|].
  destruct (step w l); [by apply IH|done].
Qed.
Fixpoint after (w : World) (ls : list Label) : World :=
  match ls with [] => w | l :: ls => match step w l with Some w' => after w' ls | None => w end end.
Lemma runs_after allowed now w ls : runs allowed now w → allowed_along allowed w ls → runs allowed now (after w ls).
Proof.
  revert w. induction ls as [|l ls IH]; intros w Hr Ha; [done|]. cbn in *. destruct Ha as [Hl Ha].
  destruct (step w l) as [w'|] eqn:Hs; [|done]. apply IH; [|done]. by eapply runs_step.
Qed.
End theory.

(** ** Examples *)

Section examples.
Local Existing Instance demo_cipher.
Abbreviation key := (λ _ : string, 0).
Definition tokens (n : string) (s : Z) : TokenSet :=
  {| ts_accessToken := "a" +++ n; ts_refreshToken := Some ("r" +++ n); ts_idToken := None; ts_expiresIn := s |}.

(** Two requests find the tokens of a session about to expire; one refreshes them, the other reads the result. *)
Definition demo_labels : list Label :=
  [SignIn "s" "ada" "iv" (tokens "0" 30); Begin "s"; Begin "s"; Step 0; Step 1; Step 0; Step 0; Refreshed 0 "iv" (tokens "1" 3600); Step 1; Step 1].
Definition demo_world : World := after key (started 0) demo_labels.

Lemma demo_allowed : allowed_along key (λ w l, rotates w l ∧ kept l) (started 0) demo_labels.
Proof. apply rotates_along_spec. vm_compute. reflexivity. Qed.

Lemma refresh_once_witness :
  runs key (λ w l, rotates w l ∧ kept l) 0 demo_world ∧ w_presented demo_world = ["r0"] ∧ NoDup (w_presented demo_world).
Proof.
  assert (runs key (λ w l, rotates w l ∧ kept l) 0 demo_world) as Hr by exact (runs_after key _ 0 _ _ (runs_start key _ 0) demo_allowed).
  split; [exact Hr|]. split; [vm_compute; reflexivity|]. exact (proj1 (refresh_once key 0 demo_world Hr)).
Defined.

Definition demo_before : World := after key (started 0) (removelast demo_labels).
Lemma demo_before_allowed : allowed_along key (λ _ _, True) (started 0) (removelast demo_labels).
Proof. cbn. repeat split. Qed.
Lemma session_served_witness :
  ∃ w' r row, step key demo_before (Step 1) = Some w' ∧ w_requests w' !! 1%nat = Some r ∧ rq_phase r = Done (Some row)
    ∧ answered_with demo_before w' (Step 1) r row ∧ young r row.
Proof.
  eexists _, _, _. split; [reflexivity|]. split; [reflexivity|]. split; [reflexivity|].
  apply (session_served key (λ _ _, True) 0 demo_before (Step 1) _ 1%nat);
    [exact (runs_after key _ 0 _ _ (runs_start key _ 0) demo_before_allowed)|reflexivity|reflexivity|reflexivity|discriminate].
Defined.

(** When the transaction is lost after Hydra has answered, the row keeps the token that was used, and the next
    request gives it to Hydra again. *)
Theorem lost_update_presents_again :
  w_presented (after key (started 0) [SignIn "s" "ada" "iv" (tokens "0" 30); Begin "s"; Begin "s"; Step 0; Step 1; Step 0; Step 0; Lost 0; Step 1; Step 1])
  = ["r0"; "r0"].
Proof. vm_compute. reflexivity. Qed.
End examples.
