(* ===== verification/Front.v ===== *)
(** * Front: who sends a request, and which part of the server answers it

    Models [auth/principal.ts] (with [auth/verify.ts] as a call), the browser's
    sign-in of [auth/session.ts], [authz/acl-authz.ts], the cookies that
    [auth/oidc-proxy.ts] keeps back and the dispatch of [front.ts]. Handlers
    are programs over the calls below: the database, the ACL, Hydra and the
    clusters answer as they like. Header names are lower case, as Node gives
    them, and every header is one text. *)

From stdpp Require Import gmap.
From S2P Require Import Fleet.
From S2P Require Import Prelude JsString Uri JsNumber Effects Acl Program Secrets Sessions.
Open Scope Z_scope.

(** ** Requests *)

Record Req := { rq_method : string; rq_url : string; rq_headers : js_map string string; rq_ip : string }.
Definition header (rq : Req) (k : string) : option string := map_get (rq_headers rq) k.

(** Whitespace that [Headers] trims from a value. *)
Definition is_http_space (c : Ascii.ascii) : bool :=
  char_is c " " || char_is c "009" || char_is c "010" || char_is c "013".
Fixpoint http_trim_start (s : string) : string :=
  match s with String c r => if is_http_space c then http_trim_start r else s | EmptyString => s end.
Fixpoint http_trim_end (s : string) : string :=
  match s with
  | EmptyString => EmptyString
  | String c s => match http_trim_end s with EmptyString => if is_http_space c then EmptyString else String c EmptyString | r => String c r end
  end.
(** [request.headers.get(k)] *)
Definition fetch_header (h : js_map string string) (k : string) : option string := (λ v, http_trim_end (http_trim_start v)) <$> map_get h k.

Definition is_hex (c : Ascii.ascii) : bool := bool_decide (is_Some (hex_val c)).
Definition isUuid (s : string) : bool :=
  let parts := split_on "-" s in
  bool_decide (String.length <$> parts = [8; 4; 4; 4; 12]%nat) && every (str_forall is_hex) parts.

(** [cookieOf]: the pieces between [/;\s*/]. *)
Definition cookie_pieces (s : string) : list string :=
  match split_on ";" s with h :: t => h :: (trim_start <$> t) | [] => [] end.
Definition cookieOf (h : js_map string string) (name : string) : option string :=
  s ← fetch_header h "cookie";
  c ← js_find (starts_with (name +++ "=")) (cookie_pieces s);
  Some (str_drop (S (String.length name)) c).
Definition SESSION_COOKIE : string := "ic_session".
Definition OAUTH_COOKIE : string := "ic_oauth".

(** ** Calls *)

Record UserRow := { us_id : string; us_email : string; us_name : string; us_disabled : bool; us_role : option string }.
Record ServiceRow := { sa_id : string; sa_name : string; sa_tenantId : option string }.
Record Cluster := { cl_id : string; cl_name : string; cl_status : string; cl_url : string; cl_fingerprint : string; cl_labels : list (string * string) }.

Inductive PrincipalKind := KindUser | KindService.
Record Principal := {
  pn_kind : PrincipalKind; pn_id : string; pn_email : option string; pn_name : string; pn_token : string;
  pn_platformRole : option string; pn_tenantId : option string;
}.

Record GatewayRequest := {
  gr_cluster : string; gr_principal : option Principal; gr_method : string; gr_path : string; gr_status : Z; gr_ip : string; gr_upgrade : bool;
}.
Record FetchCall := { fc_cluster : Cluster; fc_method : string; fc_path : string; fc_token : string; fc_ip : string }.
(** [None]: the body is not JSON. *)
Record Reply := { rp_status : Z; rp_json : option Json }.
Record Server := { sv_at : Z; sv_env : list (string * Json); sv_clustered : bool }.

(** A call that may fail answers with the failure's message instead. *)
Inductive call : Type → Type :=
  | Verify (token : string) : call (option string)                        (** [deps.verify]: the subject *)
  | GetUser (id : string) : call (string + option UserRow)
  | GetService (clientId : string) : call (string + option ServiceRow)     (** those that are not disabled *)
  | FreshSession (id : string) : call (string + option Session)
  | Exchange (code verifier : string) : call (option TokenSet)             (** Hydra's token endpoint *)
  | InsertSession (id userId : string) (set : TokenSet) : call (string + unit)
  | DeleteSession (id : string) : call (string + option Session)
  | AcceptLogout (challenge : string) : call (string + string)
  | GetCluster (name : string) : call (string + option Cluster)            (** through [ClusterCache] *)
  | AllClusters : call (string + list Cluster)
  | CanAccess (user clusterId : string) : call (string + bool)             (** [deps.authz.check] *)
  | Sees (p : Principal) (path : string) : call (string + bool)            (** [deps.acl.sees] *)
  | ReadyProjects (clusterId : string) : call (string + list (string * string))
  | Memory (clusterIds : list string) : call (string + list (string * (Z * Z)))
  | CachedServer (clusterId : string) : call (option Server)               (** the facade's map of servers *)
  | CacheServer (clusterId : string) (s : Server) : call unit
  | Now : call Z
  | Fetch (c : FetchCall) : call (option Reply)                            (** [None]: no answer *)
  | ReadBody : call (string + option string)                               (** [None]: over the limit *)
  | Log (r : GatewayRequest) : call unit.

Inductive failure := Api (e : ApiError) | Fault (message : string).
Abbreviation handler := (prog failure call).
Definition db {A} (c : call (string + A)) : handler A := try_call Fault c.
Definition raise {A} (st : Z) (c m : string) : handler A := Raise (Api {| status := st; code := c; message := m |}).

(** ** Who is calling ([auth/principal.ts]) *)

Section principal.
Context (hashSessionId : string → string) (publicOrigin : string).

Definition SAFE_METHODS : list string := ["GET"; "HEAD"; "OPTIONS"].

Definition userPrincipal (userId token : string) : handler (option Principal) :=
  if negb (isUuid userId) then Ret None
  else
    row ← db (GetUser userId);
    match row with
    | None => Ret None
    | Some u =>
        if us_disabled u then Ret None
        else Ret (Some {| pn_kind := KindUser; pn_id := us_id u; pn_email := Some (us_email u); pn_name := us_name u; pn_token := token;
                          pn_platformRole := us_role u; pn_tenantId := None |})
    end.

Definition service_principal (token : string) (sa : ServiceRow) : Principal :=
  {| pn_kind := KindService; pn_id := sa_id sa; pn_email := None; pn_name := sa_name sa; pn_token := token; pn_platformRole := None;
     pn_tenantId := sa_tenantId sa |}.

Definition bearer (h : js_map string string) : option string :=
  auth ← fetch_header h "authorization";
  if starts_with "bearer " (toLowerCase auth) then Some (trim (str_drop 7 auth)) else None.

Definition by_token (token : string) : handler (option Principal) :=
  sub ← ask (Verify token);
  match sub with
  | None => raise 401 "invalid_token" "The access token is invalid or has expired"
  | Some sub =>
      if isUuid sub then userPrincipal sub token
      else (sa ← db (GetService sub); Ret (option_map (service_principal token) sa))
  end.

Definition cross_origin (method : string) (h : js_map string string) : bool :=
  negb (includes SAFE_METHODS method)
  && match fetch_header h "origin" with Some o => truthy_str o && negb (bool_decide (o = publicOrigin)) | None => false end.

Definition resolvePrincipal (method : string) (h : js_map string string) : handler (option Principal) :=
  match bearer h with
  | Some token => by_token token
  | None =>
      match cookieOf h SESSION_COOKIE with
      | None => Ret None
      | Some sid =>
          if negb (truthy_str sid) then Ret None
          else if cross_origin method h then raise 403 "cross_origin" "Cross-origin requests cannot use the session cookie"
          else
            row ← db (FreshSession (hashSessionId sid));
            match row with
            | None => Ret None
            | Some row => userPrincipal (se_userId row) (se_accessToken row)
            end
      end
  end.

(** ** The browser's sign-in ([auth/session.ts]) *)

Record PendingLogin := { pg_state : string; pg_verifier : string; pg_returnTo : string }.

(** Only same-origin paths: [/^\/(?![/\\])/]. *)
Definition safeReturnTo (p : option string) : string :=
  match p with
  | Some (String a r as p) =>
      if char_is a "/" && negb match r with String b _ => char_is b "/" || char_is b "\" | EmptyString => false end then p else "/"
  | _ => "/"
  end.

(** [random]: the state and the PKCE verifier that are drawn. *)
Definition start_login (random : string * string) (return_to : option string) : PendingLogin :=
  {| pg_state := random.1; pg_verifier := random.2; pg_returnTo := safeReturnTo return_to |}.

Record CallbackQuery := { cq_state : option string; cq_code : option string; cq_error : option string; cq_error_description : option string }.

(** [pending]: what the cookie holds, when it opens and parses; [id]: the random session id. The page to go to. *)
Definition auth_callback (pending : option PendingLogin) (q : CallbackQuery) (id : string) : handler string :=
  match pending with
  | None => raise 400 "invalid_state" "This sign-in has expired. Start again."
  | Some pending =>
      if negb (truthy_opt_str (cq_state q)) || negb (bool_decide (cq_state q = Some (pg_state pending))) then
        raise 400 "invalid_state" "This sign-in has expired. Start again."
      else if truthy_opt_str (cq_error q) then
        raise 403 "sign_in_failed" (default (default EmptyString (cq_error q)) (cq_error_description q))
      else
        set ← ask (Exchange (default EmptyString (cq_code q)) (pg_verifier pending));
        match set with
        | None => raise 400 "invalid_grant" "This sign-in has expired. Start again."
        | Some set =>
            sub ← ask (Verify (ts_accessToken set));
            match sub with
            | None => raise 401 "invalid_token" "The access token is invalid or has expired"
            | Some sub =>
                if negb (isUuid sub) then raise 403 "sign_in_failed" "This sign-in did not identify an IncusCloud user"
                else
                  user ← db (GetUser sub);
                  match user with
                  | Some u =>
                      if us_disabled u then raise 403 "account_disabled" "This account is disabled"
                      else (_ ← db (InsertSession (hashSessionId id) (us_id u) set); Ret (pg_returnTo pending))
                  | None => raise 403 "account_disabled" "This account is disabled"
                  end
            end
        end
  end.

Definition sign_out (h : js_map string string) : handler (option string) :=
  match cookieOf h SESSION_COOKIE with
  | None => Ret None
  | Some id =>
      if negb (truthy_str id) then Ret None
      else (row ← db (DeleteSession (hashSessionId id)); Ret (match row with Some r => se_idToken r | None => None end))
  end.
(** [POST /auth/logout]: the hint for Hydra, the session's ID token. *)
Definition auth_logout (h : js_map string string) : handler (option string) :=
  match fetch_header h "origin" with
  | Some o =>
      if truthy_str o && negb (bool_decide (o = publicOrigin)) then raise 403 "cross_origin" "Sign out from IncusCloud's own pages" else sign_out h
  | None => sign_out h
  end.
End principal.

(** ** Whether a caller may access a cluster ([authz/acl-authz.ts]) *)

Section authz.
Context (s : Snapshot).

Definition who (user : string) : option PrincipalId :=
  if starts_with "user:" user && truthy_str (str_drop 5 user)
  then Some {| p_service := bool_decide (str_drop 5 user ∈ lk_serviceAccounts (ids s)); p_id := str_drop 5 user |} else None.

Definition clusterPath (id : string) : option string :=
  match map_get (clusterNames (ids s)) id with
  | Some name => if truthy_str name then Some ("/clusters/" +++ name) else None
  | None => None
  end.

Definition authz_check (user relation object : string) : bool :=
  match who user, split_on ":" object with
  | Some w, type :: id :: _ =>
      truthy_str id && bool_decide (type +++ "#" +++ relation = "cluster#can_access")
      && match clusterPath id with Some path => sees s w path | None => false end
  | _, _ => false
  end.
End authz.

(** ** Cookies for Hydra ([auth/oidc-proxy.ts]) *)

(** [/^ic_[a-z_]+=/] *)
Definition is_name_char (c : Ascii.ascii) : bool := is_lower c || char_is c "_".
Fixpoint name_then_eq (s : string) : bool :=
  match s with String c r => if char_is c "=" then true else is_name_char c && name_then_eq r | EmptyString => false end.
Definition own_cookie (c : string) : bool :=
  starts_with "ic_" c && match str_drop 3 c with String x r => is_name_char x && name_then_eq r | EmptyString => false end.

Definition kept_cookies (v : string) : list string := js_filter (λ c, truthy_str c && negb (own_cookie c)) (cookie_pieces v).
Definition OIDC_HOP : list string := ["connection"; "keep-alive"; "transfer-encoding"; "upgrade"; "content-length"; "content-encoding"].
Definition CLIENT_IP_HEADER : string := "x-ic-client-ip".

Definition oidc_header (kv : string * string) : list (string * string) :=
  let '(k, v) := kv in
  if bool_decide (k = "host") || bool_decide (k = CLIENT_IP_HEADER) || includes OIDC_HOP k || bool_decide (k = "accept-encoding") then []
  else if bool_decide (k = "cookie") then
    match kept_cookies v with [] => [] | kept => [("cookie", join "; " kept)] end
  else [(k, v)].

(** The headers that the proxy sends to Hydra; [host]: of the request's URL, when it has no such header. *)
Definition oidc_headers (h : js_map string string) (host : string) : js_map string string :=
  let sent := h ≫= oidc_header in
  let sent := map_set sent "x-forwarded-host" (default host (map_get h "host")) in
  let sent := map_set sent "x-forwarded-proto" "https" in
  match map_get h CLIENT_IP_HEADER with
  | Some ip => if truthy_str ip then map_set sent "x-forwarded-for" ip else sent
  | None => sent
  end.
