(* ===== verification/FrontTheory.v ===== *)
(** * FrontTheory: who a request is taken to come from

    What [Front.resolvePrincipal] and the sign-in rely on, and what leaves the
    server for Hydra. *)

From stdpp Require Import gmap.
From S2P Require Import Fleet.
From S2P Require Import Prelude JsString Uri JsNumber Effects Acl Program Secrets Sessions Front.
Open Scope Z_scope.

Section principal.
Context (hashSessionId : string → string) (publicOrigin : string).
Abbreviation resolvePrincipal := (resolvePrincipal hashSessionId publicOrigin).
Abbreviation trace := (list (event call)).

(** The user of the id is in the trace, and not disabled. *)
Inductive is_user (evs : trace) (id token : string) : Principal → Prop :=
  | Is_user u : Ev (GetUser id) (inr (Some u)) ∈ evs → isUuid id = true → us_disabled u = false →
      is_user evs id token {| pn_kind := KindUser; pn_id := us_id u; pn_email := Some (us_email u); pn_name := us_name u; pn_token := token;
                              pn_platformRole := us_role u; pn_tenantId := None |}.

(** How a request identifies its caller: [evs] are the calls made to find out. *)
Inductive identified (evs : trace) (method : string) (h : js_map string string) : Principal → Prop :=
  | By_user_token token sub p : bearer h = Some token → Ev (Verify token) (Some sub) ∈ evs → is_user evs sub token p → identified evs method h p
  | By_service_token token sub sa : bearer h = Some token → Ev (Verify token) (Some sub) ∈ evs → isUuid sub = false →
      Ev (GetService sub) (inr (Some sa)) ∈ evs → identified evs method h (service_principal token sa)
  | By_session sid row p : bearer h = None → cookieOf h SESSION_COOKIE = Some sid → cross_origin publicOrigin method h = false →
      Ev (FreshSession (hashSessionId sid)) (inr (Some row)) ∈ evs → is_user evs (se_userId row) (se_accessToken row) p → identified evs method h p.

Lemma identified_app evs evs' m h p : identified evs m h p → identified (evs' ++ evs) m h p.
Proof.
  assert (∀ id token p, is_user evs id token p → is_user (evs' ++ evs) id token p) as Hu.
  { intros id token q [u Hin Hid Hd]. apply Is_user; [apply elem_of_app; by right|done..]. }
  intros [token sub q Hb Hv Hq|token sub sa Hb Hv Hs Hin|sid row q Hb Hc Ho Hf Hq].
  - apply (By_user_token _ _ _ token sub); [done|apply elem_of_app; by right|by apply Hu].
  - apply (By_service_token _ _ _ token sub); [done|apply elem_of_app; by right|done|apply elem_of_app; by right].
  - apply (By_session _ _ _ sid row); [done..|apply elem_of_app; by right|by apply Hu].
Qed.

(** The calls that are made to find out. *)
Definition asks_who (e : event call) : Prop :=
  match e with Ev (Verify _) _ | Ev (GetUser _) _ | Ev (GetService _) _ | Ev (FreshSession _) _ => True | _ => False end.

(** The calls [evs] that a handler made, and what it ended with. *)
Definition asked {A} (tr : trace) (P : trace → outcome failure A → Prop) (r : outcome failure A) (tr' : trace) : Prop :=
  ∃ evs, tr' = tr ++ evs ∧ Forall asks_who evs ∧ P evs r.
Definition principal_is (P : trace → Principal → Prop) (R : ApiError → Prop) (evs : trace) (r : outcome failure (option Principal)) : Prop :=
  match r with Returned (Some p) => P evs p | Running => False | Raised (Api e) => R e | _ => True end.
(** Why a caller is refused: the token does not verify, or the cookie came from another origin. *)
Definition refusal (method : string) (h : js_map string string) (e : ApiError) : Prop :=
  status e = 401 ∧ bearer h ≠ None ∨ status e = 403 ∧ bearer h = None ∧ cross_origin publicOrigin method h = true.

Lemma asked_one {A} tr (P : trace → outcome failure A → Prop) r e evs : asks_who e → Forall asks_who evs → P (evs ++ [e]) r → asked tr P r ((tr ++ evs) ++ [e]).
Proof. intros He Hevs HP. exists (evs ++ [e]). rewrite (assoc_L (++)). split; [done|]. split; [|done]. apply Forall_app. split; [done|by repeat constructor]. Qed.

Lemma last_in (e : event call) evs : e ∈ evs ++ [e].
Proof. apply elem_of_app. right. by apply list_elem_of_singleton. Qed.
Lemma first_in (e e' : event call) : e ∈ [e] ++ [e'].
Proof. apply elem_of_app. left. by apply list_elem_of_singleton. Qed.
Hint Resolve last_in first_in : core.

Lemma wp_userPrincipal id token tr evs : Forall asks_who evs →
  wp (userPrincipal id token) (asked tr (principal_is (λ evs' p, ∃ e, evs' = evs ++ [e] ∧ is_user evs' id token p) (λ _, False))) (tr ++ evs).
Proof.
  intros Hevs. unfold userPrincipal. destruct (isUuid id) eqn:Hid; simpl; [|by exists evs].
  intros [m|[u|]]; simpl; [by apply asked_one| |by apply asked_one].
  destruct (us_disabled u) eqn:Hd; simpl; apply asked_one; try done. eexists. split; [done|]. by apply Is_user.
Qed.

Lemma wp_resolvePrincipal method h tr :
  wp (resolvePrincipal method h) (asked tr (principal_is (λ evs p, identified evs method h p) (refusal method h))) tr.
Proof.
  unfold Front.resolvePrincipal. destruct (bearer h) as [token|] eqn:Hb.
  - unfold by_token. apply wp_bind, wp_ask. intros [sub|].
    2: { simpl. rewrite <-(app_nil_r tr) at 2. apply asked_one; [done..|]. left. by rewrite Hb. }
    destruct (isUuid sub) eqn:Hs.
    + eapply wp_mono; [apply (wp_userPrincipal sub token tr [_]); by repeat constructor|]. intros r tr' (evs & -> & Hevs & HP).
      exists evs. split; [done|]. split; [done|]. destruct r as [[p|]|[e|m]|]; [|done..]. destruct HP as (e & -> & Hu).
      by apply (By_user_token _ _ _ token sub).
    + simpl. intros [m|[sa|]]; simpl; (apply asked_one; [done|by repeat constructor|]); [done| |done].
      apply (By_service_token _ _ _ token sub); auto.
  - destruct (cookieOf h SESSION_COOKIE) as [sid|] eqn:Hc; [|by exists []; rewrite app_nil_r].
    destruct (negb (truthy_str sid)); [by exists []; rewrite app_nil_r|].
    destruct (cross_origin _ _ _) eqn:Ho; [exists []; rewrite app_nil_r; split; [done|]; split; [done|by right]|].
    apply wp_bind. simpl. intros [m|[row|]]; simpl;
      [rewrite <-(app_nil_r tr) at 2; by apply asked_one| |rewrite <-(app_nil_r tr) at 2; by apply asked_one].
    eapply wp_mono; [apply (wp_userPrincipal (se_userId row) (se_accessToken row) tr [_]); by repeat constructor|].
    intros r tr' (evs & -> & Hevs & HP). exists evs. split; [done|]. split; [done|]. destruct r as [[p|]|[e|m]|]; [|done..].
    destruct HP as (e & -> & Hu). by apply (By_session _ _ _ sid row).
Qed.

(** ** Properties *)

(** Whoever a request is taken to come from is a user that is not disabled, whose id is the subject of the
    bearer token or whose session the cookie names, or the service account of the bearer token's subject; a cookie
    counts only without a bearer token, and not for a change from another origin. The token that is passed on to
    clusters is the caller's own. *)
Theorem caller_identified method h o :
  let r := run o (resolvePrincipal method h) [] in
  match r.1 with
  | Returned (Some p) => identified r.2 method h p
  | Returned None => True
  | Raised (Api e) => refusal method h e
  | Raised (Fault _) => True
  | Running => False
  end.
Proof.
  destruct (wp_run _ _ o _ (wp_resolvePrincipal method h [])) as (evs & Htr & _ & HP).
  destruct (run o _ _) as [r tr]. simpl in *. subst. destruct r as [[p|]|[e|m]|]; done.
Qed.

(** What a session rests on: the browser's own sign-in came back, its code was exchanged for tokens of a user
    that is not disabled. *)
Definition earned (pending : option PendingLogin) (q : CallbackQuery) (tr : trace) (userId : string) (set : TokenSet) : Prop :=
  ∃ p sub u, pending = Some p ∧ cq_state q = Some (pg_state p) ∧ pg_state p ≠ EmptyString ∧ truthy_opt_str (cq_error q) = false
    ∧ Ev (Exchange (default EmptyString (cq_code q)) (pg_verifier p)) (Some set) ∈ tr
    ∧ Ev (Verify (ts_accessToken set)) (Some sub) ∈ tr ∧ isUuid sub = true
    ∧ Ev (GetUser sub) (inr (Some u)) ∈ tr ∧ us_disabled u = false ∧ us_id u = userId.

(** [/] and what neither a slash nor a backslash begins. *)
Definition local_path (p : string) : Prop :=
  match p with
  | String a r => a = "/"%char ∧ match r with String b _ => b ≠ "/"%char ∧ b ≠ "\"%char | EmptyString => True end
  | EmptyString => False
  end.
Lemma safeReturnTo_local p : local_path (safeReturnTo p).
Proof.
  destruct p as [[|a r]|]; [done| |done]. unfold safeReturnTo. destruct (char_is a "/") eqn:Ha; [|done]. apply bool_decide_eq_true in Ha as ->.
  destruct r as [|b r]; [done|]. destruct (char_is b "/" || char_is b "\") eqn:Hb; [done|].
  apply orb_false_iff in Hb as [H1%bool_decide_eq_false H2%bool_decide_eq_false]. done.
Qed.

Definition login_end (pending : option PendingLogin) (q : CallbackQuery) (sid : string) (r : outcome failure string) (tr : trace) : Prop :=
  (∀ id userId set x, Ev (InsertSession id userId set) x ∈ tr → id = hashSessionId sid ∧ earned pending q tr userId set)
  ∧ match r with
    | Returned to => ∃ p userId set, pending = Some p ∧ to = pg_returnTo p ∧ Ev (InsertSession (hashSessionId sid) userId set) (inr tt) ∈ tr
    | Raised (Api e) => status e ∈ [400; 401; 403]
    | Raised (Fault _) => True
    | Running => False
    end.

Definition no_insert (e : event call) : Prop := match e with Ev (InsertSession _ _ _) _ => False | _ => True end.
Lemma no_insert_ends pending q sid r tr : Forall no_insert tr →
  match r with Raised (Api e) => status e ∈ [400; 401; 403] | Raised (Fault _) => True | _ => False end → login_end pending q sid r tr.
Proof.
  intros Hno Hr. split; [|by destruct r]. intros id userId set x Hin. rewrite Forall_forall in Hno. by destruct (Hno _ Hin).
Qed.

(** C18: a session is opened only for the user that is the subject of tokens which the browser's own sign-in was
    exchanged for, and only while that user is not disabled; the browser then goes to the path that the sign-in was
    started from. *)
Theorem session_is_earned pending q sid o :
  let r := run o (auth_callback hashSessionId pending q sid) [] in login_end pending q sid r.1 r.2.
Proof.
  apply (wp_run _ (login_end pending q sid) o). unfold auth_callback, raise. destruct pending as [p|]; [|apply no_insert_ends; [done|set_solver]].
  destruct (negb _ || _) eqn:Hst; [apply no_insert_ends; [done|set_solver]|]. apply orb_false_iff in Hst as [Hst1%negb_false_iff Hst2%negb_false_iff%bool_decide_eq_true].
  destruct (truthy_opt_str (cq_error q)) eqn:Herr; [apply no_insert_ends; [done|set_solver]|].
  apply wp_bind, wp_ask. intros [set|]; [|apply no_insert_ends; [by repeat constructor|set_solver]].
  apply wp_bind, wp_ask. intros [sub|]; [|apply no_insert_ends; [by repeat constructor|set_solver]].
  destruct (isUuid sub) eqn:Hsub; cbn [negb]; [|apply no_insert_ends; [by repeat constructor|set_solver]].
  apply wp_bind. intros [m|[u|]]; simpl; [by apply no_insert_ends; [repeat constructor|]| |apply no_insert_ends; [by repeat constructor|set_solver]].
  destruct (us_disabled u) eqn:Hd; simpl; [apply no_insert_ends; [by repeat constructor|set_solver]|].
  assert (∀ x, (∀ id userId set' y, Ev (InsertSession id userId set') y ∈
     [Ev (Exchange (default "" (cq_code q)) (pg_verifier p)) (Some set); Ev (Verify (ts_accessToken set)) (Some sub); Ev (GetUser sub) (inr (Some u));
      Ev (InsertSession (hashSessionId sid) (us_id u) set) x] → id = hashSessionId sid ∧ earned (Some p) q
     [Ev (Exchange (default "" (cq_code q)) (pg_verifier p)) (Some set); Ev (Verify (ts_accessToken set)) (Some sub); Ev (GetUser sub) (inr (Some u));
      Ev (InsertSession (hashSessionId sid) (us_id u) set) x] userId set')) as Hone.
  { intros x id userId set' y Hin. repeat (apply elem_of_cons in Hin as [Hin|Hin]; [try discriminate Hin|]); [|by apply elem_of_nil in Hin].
    assert (id = hashSessionId sid ∧ userId = us_id u ∧ set' = set) as (-> & -> & ->) by (by injection Hin). split; [done|].
    exists p, sub, u. rewrite Hst2 in Hst1. split_and!; try done; try (by repeat (first [left|right])).
    intros He. rewrite He in Hst1. done. }
  intros [m|[]]; simpl; (split; [apply Hone|]); [done|].
  exists p, (us_id u), set. split; [done|]. split; [done|]. by repeat (first [left|right]).
Qed.
End principal.

(** ** What goes to Hydra *)

Lemma trim_start_idemp s : trim_start (trim_start s) = trim_start s.
Proof. induction s as [|c s IH]; [done|]. simpl. destruct (is_js_space c) eqn:Hc; [done|]. simpl. by rewrite Hc. Qed.

Definition loose (c : string) : Prop := has_char ";" c = false ∧ trim_start c = c.

Lemma cookie_pieces_join c l : has_char ";" c = false → Forall loose l → cookie_pieces (join "; " (c :: l)) = c :: l.
Proof.
  revert c. induction l as [|d l IH]; intros c Hc Hl.
  - unfold cookie_pieces. cbn. by rewrite split_on_no_char.
  - apply Forall_cons in Hl as [[Hd Htd] Hl]. specialize (IH d Hd Hl). unfold cookie_pieces in *.
    change (join "; " (c :: d :: l)) with (c +++ String ";" (String " " (join "; " (d :: l)))). rewrite split_on_cons by done. f_equal.
    change (split_on ";" (String " " (join "; " (d :: l)))) with (match split_on ";" (join "; " (d :: l)) with [] => [" "] | h :: t => String " " h :: t end).
    destruct (split_on ";" (join "; " (d :: l))) as [|h t]; [done|]. injection IH as -> Ht. cbn. rewrite Htd. f_equal. exact Ht.
Qed.

Lemma trim_start_no_char c s : has_char c s = false → has_char c (trim_start s) = false.
Proof. induction s as [|a s IH]; [done|]. simpl. intros [Ha Hs]%orb_false_iff. destruct (is_js_space a); [by apply IH|]. simpl. by rewrite Ha, Hs. Qed.

Lemma cookie_pieces_loose v : ∃ c l, cookie_pieces v = c :: l ∧ has_char ";" c = false ∧ Forall loose l.
Proof.
  unfold cookie_pieces. pose proof (split_on_parts ";" v) as Hp. destruct (split_on ";" v) as [|c l] eqn:Hs; [by destruct (split_on_nonempty ";" v)|].
  apply Forall_cons in Hp as [Hc Hl]. exists c, (trim_start <$> l). split; [done|]. split; [done|]. apply Forall_fmap. eapply Forall_impl; [exact Hl|].
  intros d Hd. split; [by apply trim_start_no_char|apply trim_start_idemp].
Qed.

(** The pieces of the cookie header that is sent are those that were kept. *)
Lemma kept_pieces v : kept_cookies v ≠ [] → cookie_pieces (join "; " (kept_cookies v)) = kept_cookies v.
Proof.
  intros Hne. unfold kept_cookies in *. destruct (cookie_pieces_loose v) as (c & l & Hv & Hc & Hl). rewrite Hv in *. simpl in *.
  assert (∀ p, Forall loose (js_filter p l)) as Hf.
  { intros p. apply Forall_forall. intros x [Hx _]%elem_of_js_filter. rewrite Forall_forall in Hl. by apply Hl. }
  destruct (truthy_str c && negb (own_cookie c)); [by apply cookie_pieces_join|].
  specialize (Hf (λ c, truthy_str c && negb (own_cookie c))). destruct (js_filter _ l) as [|d k]; [done|]. apply Forall_cons in Hf as [[Hd _] Hk]. by apply cookie_pieces_join.
Qed.

Lemma elem_of_oidc h host k v : (k, v) ∈ oidc_headers h host → k ∈ ["x-forwarded-host"; "x-forwarded-proto"; "x-forwarded-for"] ∨ (k, v) ∈ h ≫= oidc_header.
Proof.
  unfold oidc_headers. intros Hin.
  assert (∀ x, (k, v) ∈ map_set (map_set (h ≫= oidc_header) "x-forwarded-host" x) "x-forwarded-proto" "https" →
    k ∈ ["x-forwarded-host"; "x-forwarded-proto"; "x-forwarded-for"] ∨ (k, v) ∈ h ≫= oidc_header) as Hset.
  { intros x [[Hin'|[= -> _]]%elem_of_map_set|[= -> _]]%elem_of_map_set; [by right|left; set_solver|left; set_solver]. }
  destruct (map_get h CLIENT_IP_HEADER) as [ip|]; [|by apply (Hset _ Hin)]. destruct (truthy_str ip); [|by apply (Hset _ Hin)].
  apply elem_of_map_set in Hin as [Hin|[= -> _]]; [by apply (Hset _ Hin)|left; set_solver].
Qed.

(** None of the server's own cookies reaches Hydra, whatever else is in the header, every other cookie does; nor
    does the header in which the server keeps the caller's address. *)
Theorem own_cookies_stay h host :
  (∀ k v, (k, v) ∈ oidc_headers h host → k ≠ CLIENT_IP_HEADER)
  ∧ (∀ v, ("cookie", v) ∈ oidc_headers h host → ∃ v0, ("cookie", v0) ∈ h
        ∧ ∀ c, c ∈ cookie_pieces v ↔ c ∈ cookie_pieces v0 ∧ c ≠ EmptyString ∧ own_cookie c = false).
Proof.
  split.
  - intros k v [Hk|Hin]%elem_of_oidc; [intros ->; set_solver|]. apply list_elem_of_bind in Hin as ([k' v'] & Hin & _).
    unfold oidc_header in Hin. repeat case_match; simplify_eq; try (by apply elem_of_nil in Hin);
      apply list_elem_of_singleton in Hin; simplify_eq; [done|].
    repeat match goal with H : _ || _ = false |- _ => apply orb_false_iff in H as [? ?] end. by bool_prop.
  - intros v [Hk|Hin]%elem_of_oidc; [exfalso; set_solver|]. apply list_elem_of_bind in Hin as ([k' v'] & Hin & Hh).
    unfold oidc_header in Hin. case_match; [by apply elem_of_nil in Hin|]. case_match eqn:Hc.
    + apply bool_decide_eq_true in Hc as ->. destruct (kept_cookies v') as [|c0 l0] eqn:Hk; [by apply elem_of_nil in Hin|].
      apply list_elem_of_singleton in Hin. assert (v = join "; " (kept_cookies v')) as -> by (rewrite Hk; congruence).
      exists v'. split; [done|]. intros c. rewrite kept_pieces by (by rewrite Hk).
      unfold kept_cookies. rewrite elem_of_js_filter, andb_true_iff, negb_true_iff. unfold truthy_str. rewrite negb_true_iff, bool_decide_eq_false. tauto.
    + apply list_elem_of_singleton in Hin. injection Hin as <- _. by rewrite bool_decide_eq_true_2 in Hc.
Qed.

(** The cookies of the server are among them. *)
Lemma session_cookies_own v : own_cookie (SESSION_COOKIE +++ "=" +++ v) = true ∧ own_cookie (OAUTH_COOKIE +++ "=" +++ v) = true.
Proof. done. Qed.

(** ** Where a sign-in may lead *)

(** What a browser makes of a path before it looks at it: tabs and line breaks are dropped. *)
Fixpoint without_tabs (s : string) : string :=
  match s with EmptyString => EmptyString | String c s => if char_is c "009" || char_is c "010" || char_is c "013" then without_tabs s else String c (without_tabs s) end.

(** A tab after the first slash is let through, and a browser then goes to another host. *)
Theorem return_to_other_host :
  let p := String "/" (String "009" "/evil.example") in
  safeReturnTo (Some p) = p ∧ without_tabs p = "//evil.example".
Proof. done. Qed.
