(* ===== verification/Gateway.v ===== *)
(** * Gateway: requests for one cluster

    Models [gateway/route.ts], [gateway/handler.ts], the headers of
    [gateway/relay.ts], [gateway/clusters-cache.ts], [gateway/request-log.ts]
    and the dispatch of [front.ts]: which cluster a request is for, whether it
    is let through, and what is sent. Moving the bytes is not modelled: a
    request ends with what is relayed, or with an error. *)

From stdpp Require Import gmap.
From S2P Require Import Fleet.
From S2P Require Import Prelude JsString Digits Uri Effects Program Sessions Front.
Open Scope Z_scope.

(** ** Routes ([gateway/route.ts]) *)

Definition is_label_char (c : Ascii.ascii) : bool := is_lower c || is_digit c || char_is c "-".
(** [/^[a-z][a-z0-9-]{0,61}[a-z0-9]$/] *)
Fixpoint label_tail (s : string) : bool :=
  match s with
  | EmptyString => false
  | String c EmptyString => is_lower c || is_digit c
  | String c s => is_label_char c && label_tail s
  end.
Definition CLUSTER_NAME (s : string) : bool :=
  match s with String c r => is_lower c && label_tail r && (String.length s <=? 63)%nat | EmptyString => false end.

Inductive Mode := ByHost | ByPath.
Record Route := { rt_name : string; rt_path : string; rt_mode : Mode }.

(** [s.replace(/:\d+$/, "")] *)
Definition strip_port (s : string) : string :=
  match last_index_of ":" s with
  | Some i => if all_digits (str_drop (S i) s) then str_take i s else s
  | None => s
  end.

(** [prefix], then the end, a slash or a query. *)
Definition under (prefix path : string) : bool :=
  starts_with prefix path
  && match str_drop (String.length prefix) path with EmptyString => true | String c _ => char_is c "/" || char_is c "?" end.

Definition CLUSTER_PATHS : list string := ["/1.0"; "/os/1.0"; "/ui"; "/documentation"].
(** [PATH_ROUTE]; URLs hold no line breaks. *)
Definition path_route (url : string) : option (string * string) :=
  if starts_with "/clusters/" url then
    let '(name, rest) := span (λ c, negb (char_is c "/" || char_is c "?" || char_is c "#")) (str_drop 10 url) in
    if truthy_str name && some (λ p, under p rest) CLUSTER_PATHS then Some (name, rest) else None
  else None.

Definition routeRequest (host : option string) (url : string) (clusterDomain : string) : option Route :=
  let host := strip_port (toLowerCase (default EmptyString host)) in
  let suffix := "." +++ toLowerCase clusterDomain in
  if ends_with suffix host then
    let name := str_take (String.length host - String.length suffix) host in
    if CLUSTER_NAME name then Some {| rt_name := name; rt_path := url; rt_mode := ByHost |} else None
  else
    match path_route url with
    | Some (name, path) => if CLUSTER_NAME name then Some {| rt_name := name; rt_path := path; rt_mode := ByPath |} else None
    | None => None
    end.

(** ** Admission ([gateway/handler.ts]) *)

Definition path_only (path : string) : string := default EmptyString (head (split_on "?" path)).

(** Dot segments or encoded separators. *)
Definition ambiguous (path : string) : bool :=
  let p := toLowerCase (path_only path) in
  some (λ s, bool_decide (s = ".") || bool_decide (s = "..")) (split_on "/" p)
  || str_contains "%2e" p || str_contains "%2f" p || str_contains "%5c" p || has_char "\" p.

Definition isAnonymousAllowed (method path : string) : bool :=
  (bool_decide (method = "GET") && (bool_decide (path = "/1.0") || starts_with "/1.0?" path))
  || ((bool_decide (method = "GET") || bool_decide (method = "HEAD")) && under "/documentation" path && negb (ambiguous path)).

(** API clients use host routing with bearer tokens; cookies there are never credentials. *)
Definition authRequest (rq : Req) (route : Route) : js_map string string :=
  js_filter (λ kv, negb (bool_decide (kv.1 = "cookie") && match rt_mode route with ByHost => true | ByPath => false end)) (rq_headers rq).

Inductive Ending :=
  | Fail (status : Z) (message : string) (challenge : bool)   (** [challenge]: with the headers that start an OIDC login *)
  | Ui (route : Route) (cluster : Cluster) (p : option Principal)
  | Relay (upgrade : bool) (cluster : Cluster) (path : string) (token : option string).

Record Entrant := { ad_route : Route; ad_cluster : Cluster; ad_principal : option Principal; ad_isUi : bool }.

Section gateway.
(** [ui]: whether the server has the UI of a cluster. *)
Context (hashSessionId : string → string) (publicOrigin clusterDomain : string) (ui : bool).

Definition refuse (status : Z) (msg : string) : handler (Ending + Entrant) := Ret (inl (Fail status msg (status =? 401))).

(** The principal, or the refusal that [resolvePrincipal] throws. *)
Definition resolved (method : string) (h : js_map string string) : handler (Ending + option Principal) :=
  try_catch (p ← resolvePrincipal hashSessionId publicOrigin method h; Ret (inr p))
    (λ e, match e with Api e => Ret (inl (Fail (status e) (message e) (status e =? 401))) | Fault m => Raise (Fault m) end).

Definition foreign_upgrade (rq : Req) (upgrade : bool) : bool :=
  upgrade && negb (truthy_opt_str (header rq "authorization"))
  && match header rq "origin" with Some o => truthy_str o && negb (bool_decide (o = publicOrigin)) | None => false end.

Definition denied (rq : Req) (c : Cluster) (p : Principal) (path : string) (upgrade : bool) : GatewayRequest :=
  {| gr_cluster := cl_id c; gr_principal := Some p; gr_method := rq_method rq; gr_path := path; gr_status := 403; gr_ip := rq_ip rq; gr_upgrade := upgrade |}.

Definition admit_request (rq : Req) (route : Route) (upgrade : bool) : handler (Ending + Entrant) :=
  cluster ← db (GetCluster (rt_name route));
  match cluster with
  | None => refuse 404 ("Unknown cluster " +++ quoted (rt_name route))
  | Some c =>
      if bool_decide (cl_status c = "disabled") then refuse 503 ("Cluster " +++ quoted (cl_name c) +++ " is disabled")
      else
        p ← resolved (rq_method rq) (authRequest rq route);
        match p with
        | inl e => Ret (inl e)
        | inr p =>
            let isUi := match rt_mode route with ByPath => under "/ui" (rt_path route) | ByHost => false end in
            let admitted := {| ad_route := route; ad_cluster := c; ad_principal := p; ad_isUi := isUi |} in
            match p with
            | None =>
                if negb isUi && (bool_decide (is_Some (header rq "authorization")) || negb (isAnonymousAllowed (rq_method rq) (rt_path route)))
                then refuse 401 "Sign in to IncusCloud first (send an access token)"
                else Ret (inr admitted)
            | Some p =>
                if foreign_upgrade rq upgrade then refuse 403 "Cross-origin requests cannot use the session cookie"
                else
                  ok ← db (CanAccess (pn_id p) (cl_id c));
                  if negb ok then
                    _ ← ask (Log (denied rq c p (rt_path route) upgrade));
                    refuse 403 ("You have no access to cluster " +++ quoted (cl_name c))
                  else Ret (inr admitted)
            end
        end
  end.

Definition ends (upgrade : bool) (a : Entrant) : Ending :=
  if ad_isUi a then (if upgrade || negb ui then Fail 404 "Not found" false else Ui (ad_route a) (ad_cluster a) (ad_principal a))
  else Relay upgrade (ad_cluster a) (rt_path (ad_route a)) (pn_token <$> ad_principal a).

(** [request] and [upgrade]; a failure on the way is answered 500. *)
Definition gateway (rq : Req) (upgrade : bool) : handler Ending :=
  try_catch
    match routeRequest (header rq "host") (rq_url rq) clusterDomain with
    | None => Raise (Fault "no route")
    | Some route => a ← admit_request rq route upgrade; Ret (match a with inl e => e | inr a => ends upgrade a end)
    end
    (λ _, Ret (Fail 500 "Internal error" false)).
End gateway.

(** ** Headers of what is relayed ([gateway/relay.ts]) *)

Definition HOP : list string :=
  ["connection"; "keep-alive"; "transfer-encoding"; "upgrade"; "te"; "trailer"; "proxy-authorization"; "proxy-authenticate"; "proxy-connection"].
Definition PRIVATE (k : string) : bool :=
  includes ["host"; "cookie"; "authorization"; "origin"] k || starts_with "x-ic-" k || starts_with "x-forwarded-" k || bool_decide (k = "forwarded").

Definition forwarded (upgrade : bool) (k : string) : bool :=
  negb (PRIVATE k) && negb (includes HOP k && negb (upgrade && includes ["upgrade"; "connection"] k)).

(** [host]: of the cluster's URL. *)
Definition upstreamHeaders (h : js_map string string) (host : string) (token : option string) (clientIp : string) (upgrade : bool) : js_map string string :=
  let sent := js_filter (λ kv, forwarded upgrade kv.1) h in
  let sent := map_set (map_set (map_set sent "host" host) "x-forwarded-for" clientIp) "x-forwarded-proto" "https" in
  if truthy_opt_str token then map_set sent "authorization" ("Bearer " +++ default EmptyString token) else sent.

Definition downstreamHeaders (h : js_map string string) (path : string) : js_map string string :=
  let sent := map_set (js_filter (λ kv, negb (includes HOP kv.1) && negb (bool_decide (kv.1 = "set-cookie"))) h) "x-content-type-options" "nosniff" in
  if under "/documentation" path then sent else map_set sent "content-security-policy" "sandbox".

(** ** Who answers ([front.ts]) *)

Definition FACADE_PATH (url : string) : bool := under "/1.0" url.
Definition isOidcPath (path : string) : bool :=
  starts_with "/oauth2/" path || includes ["/.well-known/openid-configuration"; "/.well-known/jwks.json"; "/userinfo"] path.
Definition SERVER_PATHS (path : string) : bool :=
  some (λ p, starts_with p path && match str_drop (String.length p) path with EmptyString => true | String c _ => char_is c "/" end) ["/api"; "/auth"]
  || bool_decide (path = "/healthz").
Definition is_web (rq : Req) : bool := includes ["GET"; "HEAD"] (rq_method rq) && negb (SERVER_PATHS (path_only (rq_url rq))).

Inductive Part := ToGateway (route : Route) | ToFacade | ToOidc | ToWeb | ToApp | Dropped.
(** [pathname]: of the URL as it resolves; [oidc], [web]: whether the server has them. *)
Definition front (clusterDomain : string) (pathname : string → string) (oidc web upgrade : bool) (rq : Req) : Part :=
  match routeRequest (header rq "host") (rq_url rq) clusterDomain with
  | Some route => ToGateway route
  | None =>
      if FACADE_PATH (rq_url rq) then ToFacade
      else if upgrade then Dropped
      else if oidc && isOidcPath (pathname (rq_url rq)) then ToOidc
      else if web && is_web rq then ToWeb else ToApp
  end.

(** ** Clusters by name ([gateway/clusters-cache.ts]) *)

Section cache.
Context {L : Locale} (ttlMs : Z).

Record Entry := { en_row : option Cluster; en_at : Z }.
Record Cache := { ca_entries : gmap string Entry; ca_list : option (list Cluster * Z) }.
Definition empty_cache : Cache := {| ca_entries := ∅; ca_list := None |}.

(** What [get] answers without reading the database. *)
Definition cache_get (c : Cache) (now : Z) (name : string) : option (option Cluster) :=
  e ← ca_entries c !! name; if now - en_at e <? ttlMs then Some (en_row e) else None.
(** What it keeps of what it read. *)
Definition cache_fill (c : Cache) (now : Z) (name : string) (row : option Cluster) : Cache :=
  {| ca_entries := <[name := {| en_row := row; en_at := now |}]> (ca_entries c); ca_list := ca_list c |}.

Definition by_cluster_name (a b : Cluster) : comparison := locale_compare (cl_name a) (cl_name b).
Definition cache_all (c : Cache) (now : Z) : option (list Cluster) :=
  l ← ca_list c; if now - l.2 <? ttlMs then Some l.1 else None.
Definition cache_fill_all (c : Cache) (now : Z) (rows : list Cluster) : Cache :=
  {| ca_entries := ca_entries c; ca_list := Some (js_sort by_cluster_name rows, now) |}.

Definition cache_invalidate (c : Cache) (name : option string) : Cache :=
  {| ca_entries := match name with
                   | Some n => if truthy_str n then delete n (ca_entries c) else ∅
                   | None => ∅
                   end; ca_list := None |}.

Inductive CacheOp := Filled (now : Z) (name : string) (row : option Cluster) | FilledAll (now : Z) (rows : list Cluster) | Invalidated (name : option string).
Definition cache_op (c : Cache) (o : CacheOp) : Cache :=
  match o with Filled now name row => cache_fill c now name row | FilledAll now rows => cache_fill_all c now rows | Invalidated name => cache_invalidate c name end.
Definition cache_run (ops : list CacheOp) : Cache := foldl cache_op empty_cache ops.
End cache.

(** ** The log of requests ([gateway/request-log.ts]) *)

Record LogRow := { lr_clusterId : string; lr_actorType : string; lr_actorId : string; lr_method : string; lr_path : string; lr_status : Z; lr_ip : string }.
Definition log_row (r : GatewayRequest) : LogRow :=
  {| lr_clusterId := gr_cluster r;
     lr_actorType := match gr_principal r with Some p => match pn_kind p with KindUser => "user" | KindService => "service" end | None => "anonymous" end;
     lr_actorId := match gr_principal r with Some p => pn_id p | None => EmptyString end;
     lr_method := gr_method r; lr_path := str_take 512 (path_only (gr_path r)); lr_status := gr_status r; lr_ip := gr_ip r |}.
Definition is_read (r : GatewayRequest) : bool := negb (gr_upgrade r) && includes ["GET"; "HEAD"] (gr_method r).

(** [sampled]: the draw for a read. The rows to write, once there are [maxBatch]. *)
Definition record (maxBatch : nat) (batch : list LogRow) (r : GatewayRequest) (sampled : bool) : list LogRow * list LogRow :=
  if is_read r && negb sampled then (batch, [])
  else let batch := batch ++ [log_row r] in if (maxBatch <=? length batch)%nat then ([], batch) else (batch, []).
(** [flush]: the rows to write, whether or not writing them works. *)
Definition flush (batch : list LogRow) : list LogRow * list LogRow := ([], batch).
