(* ===== verification/GatewayTheory.v ===== *)
(** * GatewayTheory: what the gateway lets through

    Routes mean one thing, nobody reaches a cluster they have no access to, and
    what is relayed carries the caller's token and nothing else of theirs. *)

From stdpp Require Import gmap.
From S2P Require Import Fleet.
From S2P Require Import Prelude JsString Digits Uri Effects Program Sessions Front FrontTheory Gateway.
Open Scope Z_scope.

(** ** Routes *)

Lemma str_drop_prefix p s : starts_with p s = true → s = p +++ str_drop (String.length p) s.
Proof.
  unfold starts_with. revert s. induction p as [|a p IH]; intros s; [done|]. destruct s as [|b s]; [done|]. simpl.
  destruct (Ascii.ascii_dec a b) as [->|]; [|done]. intros H. by rewrite <-(IH s H).
Qed.

Lemma path_route_url url name path : path_route url = Some (name, path) →
  url = "/clusters/" +++ name +++ path ∧ ∃ p, p ∈ CLUSTER_PATHS ∧ under p path = true.
Proof.
  unfold path_route. destruct (starts_with "/clusters/" url) eqn:Hu; [|done]. apply str_drop_prefix in Hu.
  change (String.length "/clusters/") with 10%nat in Hu.
  pose proof (span_spec (λ c, negb (char_is c "/" || char_is c "?" || char_is c "#")) (str_drop 10 url)) as Hs.
  destruct (span _ _) as [n r]. destruct Hs as [Hs _]. destruct (truthy_str n && _) eqn:Hn; [|done]. intros [= <- <-].
  apply andb_true_iff in Hn as [_ Hp]. split; [by rewrite Hu, Hs|]. by apply some_spec in Hp.
Qed.

Lemma ends_with_split p s : ends_with p s = true → s = str_take (String.length s - String.length p) s +++ p.
Proof.
  intros (r & ->)%ends_with_inv. rewrite length_append.
  replace (String.length r + String.length p - String.length p)%nat with (String.length r) by lia. by rewrite str_take_append.
Qed.

(** A route names a cluster whose name is a DNS label, and the request is for it: either its host is the
    cluster's, and then the whole URL goes to the cluster, or its path begins with the cluster's, and the rest of it
    is one of the paths that belong to a cluster. *)
Theorem route_exact host url dom r : routeRequest host url dom = Some r →
  CLUSTER_NAME (rt_name r) = true ∧
  match rt_mode r with
  | ByHost => rt_path r = url ∧ strip_port (toLowerCase (default EmptyString host)) = rt_name r +++ "." +++ toLowerCase dom
  | ByPath => url = "/clusters/" +++ rt_name r +++ rt_path r ∧ (∃ p, p ∈ CLUSTER_PATHS ∧ under p (rt_path r) = true)
              ∧ ends_with ("." +++ toLowerCase dom) (strip_port (toLowerCase (default EmptyString host))) = false
  end.
Proof.
  unfold routeRequest. set (h := strip_port _). set (suffix := "." +++ toLowerCase dom). destruct (ends_with suffix h) eqn:He.
  - destruct (CLUSTER_NAME _) eqn:Hn; [|done]. intros [= <-]. simpl. split; [done|]. split; [done|]. by apply (ends_with_split suffix).
  - destruct (path_route url) as [[n p]|] eqn:Hp; [|done]. destruct (CLUSTER_NAME n) eqn:Hn; [|done]. intros [= <-]. simpl.
    apply path_route_url in Hp as [Hu Hp]. done.
Qed.

(** ** Admission *)

Section gateway.
Context (hashSessionId : string → string) (publicOrigin clusterDomain : string) (ui : bool).
Abbreviation trace := (list (event call)).
Abbreviation identified := (identified hashSessionId publicOrigin).
Abbreviation resolved := (resolved hashSessionId publicOrigin).
Abbreviation admit_request := (admit_request hashSessionId publicOrigin).
Abbreviation gateway := (gateway hashSessionId publicOrigin clusterDomain ui).

Lemma identified_mono (evs evs' : trace) m h p : (∀ e, e ∈ evs → e ∈ evs') → identified evs m h p → identified evs' m h p.
Proof.
  intros Hsub. assert (∀ id token p, is_user evs id token p → is_user evs' id token p) as Hu.
  { intros id token q [u Hin Hid Hd]. by apply Is_user; [apply Hsub|..]. }
  intros [token sub q Hb Hv Hq|token sub sa Hb Hv Hs Hin|sid row q Hb Hc Ho Hf Hq].
  - apply (By_user_token _ _ _ _ _ token sub); [done|by apply Hsub|by apply Hu].
  - apply (By_service_token _ _ _ _ _ token sub); [done|by apply Hsub|done|by apply Hsub].
  - apply (By_session _ _ _ _ _ sid row); [done..|by apply Hsub|by apply Hu].
Qed.

(** A caller who may be let through to a cluster, with the token to send there: who has access, or nobody, for
    what anyone may read. *)
Definition may_pass (tr : trace) (method : string) (h : js_map string string) (c : Cluster) (anyone : bool) (token : option string) : Prop :=
  (∃ p, identified tr method h p ∧ Ev (CanAccess (pn_id p) (cl_id c)) (inr true) ∈ tr ∧ token = Some (pn_token p))
  ∨ anyone = true ∧ token = None.

(** What an ending promises of the calls that led to it. *)
Definition justified (rq : Req) (upgrade : bool) (e : Ending) (tr : trace) : Prop :=
  match e with
  | Relay up c path token =>
      up = upgrade ∧ ∃ r, routeRequest (header rq "host") (rq_url rq) clusterDomain = Some r ∧ path = rt_path r
        ∧ Ev (GetCluster (rt_name r)) (inr (Some c)) ∈ tr ∧ cl_status c ≠ "disabled"
        ∧ may_pass tr (rq_method rq) (authRequest rq r) c
            (isAnonymousAllowed (rq_method rq) path && bool_decide (header rq "authorization" = None)) token
        ∧ foreign_upgrade publicOrigin rq (upgrade && bool_decide (is_Some token)) = false
  | Ui r c p =>
      upgrade = false ∧ routeRequest (header rq "host") (rq_url rq) clusterDomain = Some r ∧ under "/ui" (rt_path r) = true
      ∧ Ev (GetCluster (rt_name r)) (inr (Some c)) ∈ tr ∧ cl_status c ≠ "disabled"
      ∧ may_pass tr (rq_method rq) (authRequest rq r) c (bool_decide (p = None)) (pn_token <$> p)
  | Fail status _ challenge => status ∈ [401; 403; 404; 500; 503] ∧ (challenge = true ↔ status = 401)
  end.

Definition refused (e : Ending) : Prop := ∃ status m, e = Fail status m (status =? 401) ∧ status ∈ [401; 403; 404; 503].
Lemma refused_status status m : status ∈ [401; 403; 404; 503] → refused (Fail status m (status =? 401)).
Proof. intros Hs. by exists status, m. Qed.
Ltac refuses := first [apply (refused_status 401)|apply (refused_status 403)|apply (refused_status 404)|apply (refused_status 503)]; set_solver.
Lemma refused_justified rq upgrade e tr : refused e → justified rq upgrade e tr.
Proof.
  intros (status & m & -> & Hs). cbn. rewrite Z.eqb_eq. split; [|done]. set_solver.
Qed.

Lemma wp_resolved method h tr :
  wp (resolved method h) (λ r tr', ∃ evs, tr' = tr ++ evs ∧ Forall asks_who evs ∧
    match r with
    | Returned (inr (Some p)) => identified evs method h p
    | Returned (inr None) => True
    | Returned (inl e) => refused e
    | Raised _ => True
    | Running => False
    end) tr.
Proof.
  unfold Gateway.resolved. apply wp_try, wp_bind. eapply wp_mono; [apply wp_resolvePrincipal|].
  intros r tr' (evs & -> & Hevs & HP). destruct r as [[p|]|[e|m]|]; simpl in *; try (by exists evs).
  exists evs. split; [done|]. split; [done|]. exists (status e), (message e). split; [done|].
  destruct HP as [[-> _]|[-> _]]; set_solver.
Qed.

Lemma wp_admit rq route upgrade tr : routeRequest (header rq "host") (rq_url rq) clusterDomain = Some route →
  wp (admit_request rq route upgrade) (λ r tr',
    match r with
    | Returned (inl e) => refused e
    | Returned (inr a) => justified rq upgrade (ends ui upgrade a) tr'
    | Raised _ => True
    | Running => False
    end) tr.
Proof.
  intros Hroute. unfold Gateway.admit_request, refuse. apply wp_bind. simpl. intros [m|[c|]]; simpl; [done| |by refuses].
  case_bool_decide as Hdis; simpl; [by refuses|]. apply wp_bind.
  eapply wp_mono; [apply wp_resolved|]. intros r tr' (evs & -> & _ & HP). destruct r as [[e|p]|e|]; simpl; [done| |done..].
  assert (Ev (GetCluster (rt_name route)) (inr (Some c)) ∈ ((tr ++ [Ev (GetCluster (rt_name route)) (inr (Some c))]) ++ evs)) as Hc.
  { apply elem_of_app. left. apply elem_of_app. right. by apply list_elem_of_singleton. }
  set (isUi := match rt_mode route with ByPath => under "/ui" (rt_path route) | ByHost => false end).
  assert (isUi = true → under "/ui" (rt_path route) = true) as Hui by (unfold isUi; by destruct (rt_mode route)).
  destruct p as [p|].
  - destruct (foreign_upgrade _ _ _) eqn:Hf; simpl; [by refuses|].
    intros [m|[]]; simpl; [done| |by intros []; refuses].
    set (tr' := _ ++ [Ev (CanAccess _ _) _]).
    assert (∀ anyone, may_pass tr' (rq_method rq) (authRequest rq route) c anyone (Some (pn_token p))) as Hpass.
    { intros anyone. left. exists p. split; [|split; [|done]].
      - eapply identified_mono; [|exact HP]. intros e He. apply elem_of_app. left. apply elem_of_app. by right.
      - apply elem_of_app. right. by apply list_elem_of_singleton. }
    assert (Ev (GetCluster (rt_name route)) (inr (Some c)) ∈ tr') as Hc' by (apply elem_of_app; by left).
    unfold ends. simpl. destruct isUi; simpl; [destruct upgrade, ui; simpl|]; try (split; [set_solver|done]).
    + split_and!; [done|done|by apply Hui|done|done|apply Hpass].
    + split; [done|]. exists route. split_and!; [done..|apply Hpass|]. by rewrite andb_true_r.
  - destruct isUi; simpl.
    + unfold ends. simpl. destruct upgrade, ui; simpl; try (split; [set_solver|done]).
      split_and!; [done|done|by apply Hui|done|done|by right].
    + destruct (bool_decide (is_Some _) || _) eqn:Ha; simpl; [by refuses|].
      apply orb_false_iff in Ha as [Hn%bool_decide_eq_false Ha%negb_false_iff]. split; [done|]. exists route. split_and!; [done..| |].
      * right. rewrite Ha. split; [|done]. simpl. apply bool_decide_eq_true. by apply eq_None_not_Some.
      * unfold foreign_upgrade. by rewrite andb_false_r.
Qed.

(** C16: the gateway relays a request only to the cluster that the request's route names, while it is not disabled: with
    the token of the caller it identified, once that caller was found to have access to the cluster; or without a
    token, and only what anyone may read, of a request that did not ask to authenticate. A caller of a session is
    not let through to a connection from another origin. Whatever fails on the way, the request is answered with an
    error; one to sign in comes with what a client needs to do so. *)
Theorem gateway_admits rq upgrade o :
  let r := run o (gateway rq upgrade) [] in ∃ e, r.1 = Returned e ∧ justified rq upgrade e r.2.
Proof.
  apply (wp_run _ (λ r tr, ∃ e, r = Returned e ∧ justified rq upgrade e tr) o). unfold Gateway.gateway. apply wp_try.
  assert (∀ tr, justified rq upgrade (Fail 500 "Internal error" false) tr) as H500 by (intros tr; split; [set_solver|done]).
  destruct (routeRequest _ _ _) as [route|] eqn:Hroute; [|by eexists].
  apply wp_bind. eapply wp_mono; [by apply wp_admit|]. intros r tr H. destruct r as [[e|a]|e|]; simpl; [| | |done].
  - eexists. split; [done|]. by apply refused_justified.
  - by eexists.
  - by eexists.
Qed.
End gateway.

(** An [Authorization] header that is no bearer token leaves the caller to the cookie, but is taken for a token where
    the origin of a connection is looked at: a caller of a session connects from another origin. *)
Definition basic_rq : Req :=
  {| rq_method := "GET"; rq_url := "/clusters/one/1.0/events"; rq_ip := "1.2.3.4";
     rq_headers := [("host", "cloud.example"); ("origin", "https://evil.cloud.example"); ("cookie", "ic_session=s"); ("authorization", "Basic eDp5")] |}.
Definition demo_cluster : Cluster := {| cl_id := "c1"; cl_name := "one"; cl_status := "ready"; cl_url := "https://one:8443"; cl_fingerprint := "f"; cl_labels := [] |}.
Definition demo_session : Session :=
  {| se_userId := "00000000-0000-0000-0000-000000000001"; se_accessToken := "t"; se_refreshToken := None; se_idToken := None; se_expiresAt := 0; se_createdAt := 0; se_lastSeenAt := 0 |}.
Definition demo_oracle (X : Type) (c : call X) (tr : list (event call)) : X :=
  match c in call X return X with
  | Verify _ => None
  | GetUser id => inr (Some {| us_id := id; us_email := "ada@example"; us_name := "Ada"; us_disabled := false; us_role := None |})
  | GetService _ => inr None
  | FreshSession _ => inr (Some demo_session)
  | Exchange _ _ => None
  | InsertSession _ _ _ => inr tt
  | DeleteSession _ => inr None
  | AcceptLogout _ => inr EmptyString
  | GetCluster _ => inr (Some demo_cluster)
  | AllClusters => inr [demo_cluster]
  | CanAccess _ _ => inr true
  | Sees _ _ => inr true
  | ReadyProjects _ => inr []
  | Memory _ => inr []
  | CachedServer _ => None
  | CacheServer _ _ => tt
  | Now => 0
  | Fetch _ => None
  | ReadBody => inr None
  | Log _ => tt
  end.
Theorem basic_header_skips_origin :
  (run demo_oracle (gateway (λ s, s) "https://cloud.example" "clusters.example" true basic_rq true) []).1
  = Returned (Relay true demo_cluster "/1.0/events" (Some "t"))
  ∧ (run demo_oracle (gateway (λ s, s) "https://cloud.example" "clusters.example" true
       {| rq_method := "GET"; rq_url := rq_url basic_rq; rq_ip := rq_ip basic_rq; rq_headers := take 3 (rq_headers basic_rq) |} true) []).1
  = Returned (Fail 403 "Cross-origin requests cannot use the session cookie" false).
Proof. split; vm_compute; reflexivity. Qed.

(** ** Headers *)

(** The headers that go to a cluster are those of the caller that are neither private nor the connection's, the
    cluster's host, the caller's address and the token the gateway chose; no cookie, origin or credential of the caller's. *)
Theorem relayed_headers h host token ip upgrade k v : (k, v) ∈ upstreamHeaders h host token ip upgrade →
  (k, v) ∈ [("host", host); ("x-forwarded-for", ip); ("x-forwarded-proto", "https")]
  ∨ (∃ t, token = Some t ∧ t ≠ EmptyString ∧ (k, v) = ("authorization", "Bearer " +++ t))
  ∨ (k, v) ∈ h ∧ PRIVATE k = false ∧ (k ∈ HOP → upgrade = true ∧ k ∈ ["upgrade"; "connection"]).
Proof.
  unfold upstreamHeaders. set (sent := map_set _ "x-forwarded-proto" _).
  assert ((k, v) ∈ sent → (k, v) ∈ [("host", host); ("x-forwarded-for", ip); ("x-forwarded-proto", "https")]
    ∨ (k, v) ∈ h ∧ PRIVATE k = false ∧ (k ∈ HOP → upgrade = true ∧ k ∈ ["upgrade"; "connection"])) as Hsent.
  { intros [[[[Hin Hf]%elem_of_js_filter| ->]%elem_of_map_set| ->]%elem_of_map_set| ->]%elem_of_map_set; [right|left; set_solver..].
    unfold forwarded in Hf. cbn [fst] in Hf. apply andb_true_iff in Hf as [Hp%negb_true_iff Hh%negb_true_iff].
    split; [done|]. split; [done|]. intros Hop%includes_spec. rewrite Hop in Hh. simpl in Hh.
    apply negb_false_iff, andb_true_iff in Hh as [? Hi]. split; [done|]. by apply includes_spec in Hi. }
  destruct token as [t|]; simpl; [|intros [?|?]%Hsent; auto]. destruct (truthy_str t) eqn:Ht; [|intros [?|?]%Hsent; auto].
  intros [[?|?]%Hsent|He]%elem_of_map_set; [auto..|]. right. left. exists t. split; [done|]. split; [by intros ->|done].
Qed.

Lemma relayed_headers_witness :
  ("authorization", "Bearer t") ∈ upstreamHeaders [("cookie", "ic_session=s"); ("authorization", "Basic x"); ("accept", "json")] "one:8443" (Some "t") "1.2.3.4" false
  ∧ (∃ t, Some "t" = Some t ∧ t ≠ EmptyString ∧ ("authorization", "Bearer t") = ("authorization", "Bearer " +++ t)).
Proof.
  split; [vm_compute; by repeat (first [left; reflexivity|right])|].
  destruct (relayed_headers [("cookie", "ic_session=s"); ("authorization", "Basic x"); ("accept", "json")] "one:8443" (Some "t") "1.2.3.4" false "authorization" "Bearer t")
    as [H|[H|(_ & H & _)]]; [vm_compute; by repeat (first [left; reflexivity|right])| |exact H|discriminate H].
  repeat (apply elem_of_cons in H as [H|H]; [discriminate H|]). by apply elem_of_nil in H.
Defined.

(** Nothing that a cluster sends back sets a cookie at the platform's origin, and nothing runs as a page there but
    Incus's documentation. *)
Lemma answered_headers h path :
  (∀ v, ("set-cookie", v) ∉ downstreamHeaders h path)
  ∧ ("x-content-type-options", "nosniff") ∈ downstreamHeaders h path
  ∧ (under "/documentation" path = false → ("content-security-policy", "sandbox") ∈ downstreamHeaders h path).
Proof.
  assert (∀ (m : js_map string string) k v, map_get (map_set m k v) k = Some v) as Hget.
  { intros m k v. rewrite map_get_set. by rewrite bool_decide_eq_true_2. }
  unfold downstreamHeaders. set (sent := map_set _ "x-content-type-options" _). split_and!.
  - intros v. destruct (under _ _); [|intros [H|H]%elem_of_map_set; [revert H|discriminate H]];
      (intros [[_ Hf]%elem_of_js_filter|H]%elem_of_map_set; [|discriminate H]); cbn in Hf; rewrite andb_false_r in Hf; done.
  - destruct (under _ _); apply map_get_Some_elem; [apply Hget|]. rewrite map_get_set. rewrite bool_decide_eq_false_2 by done. apply Hget.
  - intros ->. apply map_get_Some_elem, Hget.
Qed.

(** ** The cache of clusters *)

Section cache.
Context {L : Locale} (ttlMs : Z).

(** An operation that leaves what is known of [name] as it is. *)
Definition leaves (name : string) (o : CacheOp) : Prop :=
  match o with
  | Filled _ n _ => n ≠ name
  | FilledAll _ _ => True
  | Invalidated n => ∃ n', n = Some n' ∧ n' ≠ EmptyString ∧ n' ≠ name
  end.

(** A cluster that the cache answers with was read from the database less than [ttlMs] before, since the name was
    last invalidated, and nothing else was read of it since. *)
Theorem cache_is_recent ops now name row : cache_get ttlMs (cache_run ops) now name = Some row →
  ∃ before t after, ops = before ++ Filled t name row :: after ∧ now - t < ttlMs
    ∧ ∀ o, o ∈ after → leaves name o.
Proof.
  unfold cache_get. destruct (ca_entries (cache_run ops) !! name) as [e|] eqn:He; simpl; [|done].
  destruct (now - en_at e <? ttlMs) eqn:Ht; [|done]. intros [= <-]. apply Z.ltb_lt in Ht.
  assert (∃ before after, ops = before ++ Filled (en_at e) name (en_row e) :: after
    ∧ ∀ o, o ∈ after → leaves name o) as (before & after & -> & Hafter); [|by exists before, (en_at e), after].
  clear Ht. induction ops as [|o ops IH] using rev_ind; [cbn in He; by rewrite lookup_empty in He|].
  unfold cache_run in *. rewrite foldl_app in He. cbn [foldl] in He.
  assert (∀ m, ca_entries (foldl cache_op empty_cache ops) !! name = Some e → m = o →
    leaves name m →
    ∃ before after, ops ++ [o] = before ++ Filled (en_at e) name (en_row e) :: after ∧ ∀ o, o ∈ after → leaves name o) as Hkeep.
  { intros m Hm -> Hok. destruct (IH Hm) as (before & after & -> & Hafter). exists before, (after ++ [o]).
    split; [by rewrite <-(assoc_L (++))|]. intros x [Hx| ->%list_elem_of_singleton]%elem_of_app; [by apply Hafter|done]. }
  destruct o as [t n row|t rows|[n|]]; cbn in He.
  - destruct (decide (n = name)) as [->|Hne].
    + rewrite lookup_insert_eq in He. injection He as <-. exists ops, []. split; [done|]. by intros x ?%elem_of_nil.
    + rewrite lookup_insert_ne in He by done. by apply (Hkeep (Filled t n row)).
  - by apply (Hkeep (FilledAll t rows)).
  - destruct (truthy_str n) eqn:Hn; [|by rewrite lookup_empty in He]. apply lookup_delete_Some in He as [Hne He].
    apply (Hkeep (Invalidated (Some n))); [done..|]. exists n. split; [done|]. split; [|done]. by intros ->.
  - by rewrite lookup_empty in He.
Qed.
End cache.

(** ** The log *)

(** Changes and connections are always kept, and no row has what came after a question mark. *)
Lemma changes_are_kept maxBatch batch r sampled : is_read r = false → let w := record maxBatch batch r sampled in w.1 ++ w.2 = batch ++ [log_row r].
Proof. unfold record. intros ->. simpl. destruct (_ <=? _)%nat; [done|]. by rewrite app_nil_r. Qed.

Lemma path_only_no_query path : has_char "?" (path_only path) = false.
Proof.
  unfold path_only. pose proof (split_on_parts "?" path) as Hp. destruct (split_on "?" path) as [|p l]; [done|]. by apply Forall_cons in Hp as [? _].
Qed.

(** ** Examples *)

Lemma route_exact_witness :
  routeRequest (Some "one.clusters.example:8443") "/1.0/instances" "clusters.example" = Some {| rt_name := "one"; rt_path := "/1.0/instances"; rt_mode := ByHost |}
  ∧ CLUSTER_NAME "one" = true.
Proof.
  split; [vm_compute; reflexivity|].
  exact (proj1 (route_exact (Some "one.clusters.example:8443") "/1.0/instances" "clusters.example" {| rt_name := "one"; rt_path := "/1.0/instances"; rt_mode := ByHost |} eq_refl)).
Defined.

Lemma cache_is_recent_witness :
  cache_get 5000 (@cache_run code_unit_locale [Filled 1000 "one" (Some demo_cluster); Invalidated (Some "two")]) 3000 "one" = Some (Some demo_cluster)
  ∧ ∃ before t after, [Filled 1000 "one" (Some demo_cluster); Invalidated (Some "two")] = before ++ Filled t "one" (Some demo_cluster) :: after ∧ 3000 - t < 5000.
Proof.
  split; [vm_compute; reflexivity|].
  destruct (@cache_is_recent code_unit_locale 5000 [Filled 1000 "one" (Some demo_cluster); Invalidated (Some "two")] 3000 "one" (Some demo_cluster) eq_refl)
    as (before & t & after & Heq & Ht & _). exists before, t, after. split; [exact Heq|exact Ht].
Defined.
