(* ===== verification/Facade.v ===== *)
(** * Facade: every cluster as one

    Models [federation/handler.ts] and the views of a standalone server in
    [federation/merge.ts]: what a request to the federated API reads of which
    clusters, and what it ends with: an answer, an error, or what is forwarded
    to one cluster. [Promise.all] is taken one call after the other. Query
    parameters are decoded as [Rewrite.decode] does; bodies are JSON or text. *)

From stdpp Require Import gmap.
From S2P Require Import Fleet.
From S2P Require Import Prelude JsString Digits Uri Effects Program.
From S2P Require Quota.
From S2P Require Import Rewrite Merge Sessions Front Gateway.
Open Scope Z_scope.

(** ** Requests *)

Definition BODY_LIMIT : Z := Z.shiftl 16 20.
Definition SERVER_TTL_MS : Z := 60000.

Definition content_type (rq : Req) : string := toLowerCase (default EmptyString (header rq "content-type")).
(** [/octet-stream|multipart|x-tar|gzip/i] *)
Definition streamed (rq : Req) : bool :=
  some (λ p, str_contains p (content_type rq)) ["octet-stream"; "multipart"; "x-tar"; "gzip"] || ends_with "/files" (path_only (rq_url rq)).

Definition is_word (c : Ascii.ascii) : bool := is_alnum c || char_is c "_".
(** [/\bjson\b/i] on lower case: [before] is whether a word character precedes. *)
Fixpoint word_json (before : bool) (s : string) : bool :=
  (negb before && starts_with "json" s && match str_drop 4 s with String c _ => negb (is_word c) | EmptyString => true end)
  || match s with String c r => word_json (is_word c) r | EmptyString => false end.
Definition isJson (rq : Req) : bool := word_json false (content_type rq).
(** A body that is read as JSON. *)
Definition reads_json (rq : Req) : bool := isJson rq || negb (truthy_opt_str (header rq "content-type")) || str_contains "text/plain" (content_type rq).

(** [new URLSearchParams(qs).get(k)] *)
Definition query_get (pathAndQuery k : string) : option string :=
  (λ p, default EmptyString (p_v p)) <$> js_find (λ p, bool_decide (p_k p = k)) (parse pathAndQuery).2.
Definition is_recursive (pathAndQuery : string) : bool :=
  match query_get pathAndQuery "recursion" with Some r => truthy_str r && negb (bool_decide (r = "0")) | None => false end.

(** [limits.memory] as bytes: [/^(\d+(?:\.\d+)?)\s*([KMGTP]i?B?)?$/i]. *)
Definition unit_power (unit : string) : option (Z * Z) :=
  let base r := match r with EmptyString | "B" => Some 1000 | "I" | "IB" => Some 1024 | _ => None end in
  match unit with
  | EmptyString => Some (1000, 1)   (** [KMGTP.indexOf("")] is 0 *)
  | String "K" r => (λ b, (b, 1)) <$> base r
  | String "M" r => (λ b, (b, 2)) <$> base r
  | String "G" r => (λ b, (b, 3)) <$> base r
  | String "T" r => (λ b, (b, 4)) <$> base r
  | String "P" r => (λ b, (b, 5)) <$> base r
  | _ => None
  end.
Fixpoint toUpperCase (s : string) : string :=
  match s with
  | EmptyString => EmptyString
  | String c s => String (if is_lower c then Ascii.ascii_of_N (Ascii.N_of_ascii c - 32) else c) (toUpperCase s)
  end.
(** [Math.round(n * base ** pow)] for [n] with the decimals [frac]. *)
Definition rounded (int frac : string) (unit : Z) : Z :=
  let d := 10 ^ Z.of_nat (String.length frac) in (2 * (digits_val (int +++ frac) * unit) + d) / (2 * d).
Definition bytes_of (v : string) : Z :=
  let '(int, rest) := span is_digit v in
  if negb (truthy_str int) then 0
  else
    let '(frac, rest) := match rest with
                         | String "." r => let '(f, r') := span is_digit r in if truthy_str f then (f, r') else (EmptyString, rest)
                         | _ => (EmptyString, rest)
                         end in
    match unit_power (toUpperCase (trim_start rest)) with
    | Some (base, pow) => rounded int frac (base ^ pow)
    | None => 0
    end.
Definition memoryOf (body : Json) : Z :=
  match field "config" body ≫= field "limits.memory" with
  | Some (JStr s) => bytes_of s
  | Some (JNum n) => bytes_of (show_Z n)
  | _ => 0
  end.

(** ** A standalone server's cluster ([standaloneView]) *)

Inductive View :=
  | Shown (m : Merged)
  | NeedsResources (show : Json → Merged)   (** [null] when they cannot be read *)
  | NotAView
  | Malformed.                              (** [decodeURIComponent] throws *)

Definition or_zero (v : option Json) : Z := match v with Some (JNum n) => n | _ => 0 end.
Definition machine_state (r : Json) : Merged :=
  let mem := default JNull (field "memory" r) in
  sync (JObj [("sysinfo", JObj [("uptime", JNum 0); ("load_averages", JArr [JNum 0; JNum 0; JNum 0]); ("total_ram", JNum (or_zero (field "total" mem)));
                                ("free_ram", JNum (or_zero (field "total" mem) - or_zero (field "used" mem))); ("shared_ram", JNum 0);
                                ("buffered_ram", JNum 0); ("total_swap", JNum 0); ("free_swap", JNum 0); ("processes", JNum 0);
                                ("logical_cpus", JNum (or_zero (field "cpu" r ≫= field "total")))]);
              ("storage_pools", JObj [])]).

Definition member_json (c : Cluster) (env : list (string * Json)) : Json :=
  JObj [("server_name", JStr (cl_name c)); ("url", JStr (cl_url c)); ("database", JBool false); ("status", JStr "Online");
        ("message", JStr "Fully operational"); ("architecture", match get_key "kernel_architecture" env with Some JNull | None => JStr EmptyString | Some v => v end);
        ("failure_domain", JStr "default"); ("description", JStr EmptyString); ("config", JObj []); ("groups", JArr [JStr "default"]); ("roles", JArr [])].
Definition group_json (c : Cluster) : Json :=
  JObj [("name", JStr "default"); ("description", JStr EmptyString); ("members", JArr [JStr (cl_name c)])].

Definition group_view (c : Cluster) (item : string) : View :=
  match decodeURIComponent item with
  | None => Malformed
  | Some d => Shown (if bool_decide (d = "default") then sync (group_json c) else error 404 "Cluster group not found")
  end.
Definition member_view (c : Cluster) (env : list (string * Json)) (item : string) (state : bool) : View :=
  match decodeURIComponent item with
  | None => Malformed
  | Some d =>
      if negb (bool_decide (d = cl_name c)) then Shown (error 404 "Cluster member not found")
      else if state then NeedsResources machine_state else Shown (sync (member_json c env))
  end.

(** [/^\/1\.0\/cluster(?:\/(members|groups)(?:\/([^/]+)(\/state)?)?)?$/] *)
Definition standaloneView (c : Cluster) (env : list (string * Json)) (method path : string) : View :=
  if negb (bool_decide (method = "GET")) then NotAView
  else
    match split_on "/" (path_only path) with
    | [EmptyString; "1.0"; "cluster"] => Shown (sync (JObj [("server_name", JStr (cl_name c)); ("enabled", JBool true); ("member_config", JArr [])]))
    | [EmptyString; "1.0"; "cluster"; "groups"] => Shown (sync (JArr [if is_recursive path then group_json c else JStr "/1.0/cluster/groups/default"]))
    | [EmptyString; "1.0"; "cluster"; "members"] =>
        Shown (sync (JArr [if is_recursive path then member_json c env else JStr ("/1.0/cluster/members/" +++ cl_name c)]))
    | [EmptyString; "1.0"; "cluster"; "groups"; item] | [EmptyString; "1.0"; "cluster"; "groups"; item; "state"] =>
        if truthy_str item then group_view c item else NotAView
    | [EmptyString; "1.0"; "cluster"; "members"; item] => if truthy_str item then member_view c env item false else NotAView
    | [EmptyString; "1.0"; "cluster"; "members"; item; "state"] => if truthy_str item then member_view c env item true else NotAView
    | _ => NotAView
    end.

(** ** Handling a request *)

Record Admission := { am_principal : Principal; am_reachable : list Cluster; am_known : list string }.

Inductive Body := Streamed | Raw (text : string) | Rewritten (json : Json).
Record EventSource := { es_cluster : Cluster; es_path : string; es_token : string; es_standalone : bool }.
Inductive Result :=
  | Answered (m : Merged)
  | Refused (status : Z) (message : string)
  | Forwarded (c : FetchCall) (body : Body) (standalone : bool)   (** relayed to one cluster, its answer qualified *)
  | Connected (c : Cluster) (path token : string)                  (** an upgrade, relayed to one cluster *)
  | FannedIn (sources : list EventSource).                         (** the events of every cluster *)

Inductive Who := Caller (a : Admission) | Anonymous | Turned (r : Result).

Section facade.
Context {L : Locale} (hashSessionId : string → string) (publicOrigin : string).
(** The parts of a URL, [JSON.parse], and the console's own configuration. *)
Context (pathname url_origin : string → option string) (JSON_parse : string → option Json) (consoleConfig : list (string * Json)).

Fixpoint which {A} (p : A → handler bool) (l : list A) : handler (list A) :=
  match l with
  | [] => Ret []
  | x :: l => b ← p x; rest ← which p l; Ret (if b : bool then x :: rest else rest)
  end.

Definition admit_caller (rq : Req) (upgrade : bool) : handler Who :=
  p ← resolved hashSessionId publicOrigin (rq_method rq) (rq_headers rq);
  match p with
  | inl e => Ret (Turned match e with Fail st m _ => Refused st m | _ => Refused 500 EmptyString end)
  | inr None => Ret Anonymous
  | inr (Some p) =>
      if foreign_upgrade publicOrigin rq upgrade then Ret (Turned (Refused 403 "Cross-origin requests cannot use the session cookie"))
      else
        all ← db AllClusters;
        let all := js_filter (λ c, negb (bool_decide (cl_status c = "disabled"))) all in
        reachable ← which (λ c, db (CanAccess (pn_id p) (cl_id c))) all;
        Ret (Caller {| am_principal := p; am_reachable := reachable; am_known := cl_name <$> all |})
  end.

Section request.
Context (rq : Req) (a : Admission).

Definition fetch_of (c : Cluster) (method path : string) : FetchCall :=
  {| fc_cluster := c; fc_method := method; fc_path := path; fc_token := pn_token (am_principal a); fc_ip := rq_ip rq |}.
Definition get_from (c : Cluster) (path : string) : handler (option Reply) := ask (Fetch (fetch_of c "GET" path)).

Definition truthy_json (v : option Json) : bool :=
  match v with
  | None | Some JNull | Some (JBool false) => false
  | Some (JNum n) => truthy_Z n
  | Some (JStr s) => truthy_str s
  | _ => true
  end.

(** The server, of a trusted answer to [GET /1.0]. *)
Definition server_told (now : Z) (r : option Reply) : option Server :=
  r ← r;
  if negb (rp_status r =? 200) then None
  else
    meta ← rp_json r ≫= field "metadata";
    match field "auth" meta, field "environment" meta with
    | Some (JStr "trusted"), Some env =>
        if truthy_json (Some env) then Some {| sv_at := now; sv_env := spread env; sv_clustered := truthy_json (field "server_clustered" env) |} else None
    | _, _ => None
    end.
Definition unknown_server : Server := {| sv_at := 0; sv_env := []; sv_clustered := true |}.

Definition ask_server (c : Cluster) : handler Server :=
  r ← get_from c "/1.0";
  now ← ask Now;
  match server_told now r with
  | Some s => _ ← ask (CacheServer (cl_id c) s); Ret s
  | None => Ret unknown_server
  end.
Definition serverOf (c : Cluster) : handler Server :=
  hit ← ask (CachedServer (cl_id c));
  match hit with
  | Some s => now ← ask Now; if now - sv_at s <? SERVER_TTL_MS then Ret s else ask_server c
  | None => ask_server c
  end.

(** Whether the cluster is a standalone server, and the answer that is made up for it, if any. *)
Definition synthetic (c : Cluster) (method path : string) : handler (bool * option Merged) :=
  s ← serverOf c;
  if sv_clustered s then Ret (false, None)
  else
    match standaloneView c (sv_env s) method path with
    | Shown m => Ret (true, Some m)
    | NeedsResources show =>
        r ← get_from c "/1.0/resources";
        Ret (true, Some (show (default JNull (match r with Some r => rp_json r ≫= field "metadata" | None => None end))))
    | NotAView => Ret (true, None)
    | Malformed => Raise (Fault "URI malformed")
    end.

(** *** Projects a user holds no relation on in Incus *)

Fixpoint seen (c : Cluster) (rows : list (string * string)) (out : js_map string string) : handler (js_map string string) :=
  match rows with
  | [] => Ret out
  | r :: rows =>
      ok ← db (Sees (am_principal a) ("/clusters/" +++ cl_name c +++ "/projects/" +++ r.1));
      seen c rows (if ok : bool then map_set out r.1 r.2 else out)
  end.
Definition seenProjects (c : Cluster) : handler (js_map string string) := rows ← db (ReadyProjects (cl_id c)); seen c rows [].

Definition projectObject (name slug : string) : Json :=
  JObj [("name", JStr name); ("description", JStr ("IncusCloud tenant " +++ slug)); ("config", JObj []); ("used_by", JArr [])].

Definition decoded (s : string) : handler string := match decodeURIComponent s with Some d => Ret d | None => Raise (Fault "URI malformed") end.

(** The project that a path names: [/^\/1\.0\/projects\/([^/]+)$/]. *)
Definition project_of (path : string) : option string :=
  match split_on "/" (path_only path) with
  | [EmptyString; "1.0"; "projects"; name] => if truthy_str name then Some name else None
  | _ => None
  end.

(** The name of an element of a list of projects. *)
Definition listed_name (x : Json) : handler string :=
  match x with
  | JStr s => decoded (default EmptyString (last (split_on "/" s)))
  | x => Ret (match field "name" x with Some (JStr s) => s | _ => EmptyString end)
  end.

Definition withProjects (c : Cluster) (path : string) (status : Z) (json : Json) : handler (Z * Json) :=
  match project_of path with
  | Some name =>
      if status =? 403 then
        decoded name ≫= λ name : string,
        seenProjects c ≫= λ seen : js_map string string,
        Ret (match map_get seen name with
             | Some slug => if truthy_str slug then (200, mg_body (sync (projectObject name slug))) else (status, json)
             | None => (status, json)
             end)
      else Ret (status, json)
  | None =>
      if bool_decide (path_only path = "/1.0/projects") && (status =? 200) then
        let listed := elements (default JNull (field "metadata" json)) in
        mapM listed_name listed ≫= λ has : list string,
        seenProjects c ≫= λ seen : js_map string string,
        match js_filter (λ kv, negb (includes has kv.1)) seen with
        | [] => Ret (status, json)
        | extra =>
            let more := (λ kv, if is_recursive path then projectObject kv.1 kv.2 else JStr ("/1.0/projects/" +++ encodeURIComponent kv.1)) <$> extra in
            Ret (status, JObj (with_keys (spread json) [("metadata", JArr (listed ++ more))]))
        end
      else Ret (status, json)
  end.

(** *** One cluster ([one]) *)

Definition console_server (standalone : bool) (json : Json) : Json :=
  match json, field "metadata" json with
  | JObj o, Some (JObj meta) =>
      let env := if standalone && truthy_json (get_key "environment" meta)
                 then [("environment", JObj (with_keys (spread (default JNull (get_key "environment" meta))) [("server_clustered", JBool true)]))] else [] in
      let config := if bool_decide (rq_method rq = "GET")
                    then [("config", JObj (with_keys consoleConfig (spread (default JNull (get_key "config" meta)))))] else [] in
      JObj (with_keys o [("metadata", JObj (with_keys meta (env ++ config)))])
  | json, _ => json
  end.
Definition qualified (c : Cluster) (path : string) (standalone : bool) (json : Json) : Json :=
  let out := qualifyResponse path json (cl_name c) standalone in
  if bool_decide (path = "/1.0") then console_server standalone out else out.

(** [/^\/1\.0\/projects(?:\/[^/?]+)?(?:\?|$)/] *)
Definition reads_projects (path : string) : bool :=
  match split_on "/" (path_only path) with
  | [EmptyString; "1.0"; "projects"] => true
  | [EmptyString; "1.0"; "projects"; name] => truthy_str name
  | _ => false
  end.

Definition request_of (c : Cluster) (path : string) (status : Z) : GatewayRequest :=
  {| gr_cluster := cl_id c; gr_principal := Some (am_principal a); gr_method := rq_method rq; gr_path := path; gr_status := status; gr_ip := rq_ip rq;
     gr_upgrade := false |}.

(** A reply that is JSON, or the failure that reading it is. *)
Definition json_reply (r : option Reply) : handler (Z * Json) :=
  match r with
  | Some {| rp_status := st; rp_json := Some j |} => Ret (st, j)
  | _ => Raise (Fault "no answer")
  end.

Definition rewrite_body (c : Cluster) (body : string) : Body :=
  if truthy_str body && reads_json rq then
    match JSON_parse body with Some j => Rewritten (stripBody j (cl_name c)) | None => Raw body end
  else Raw body.

Definition changes : bool := negb (includes ["GET"; "HEAD"] (rq_method rq)).

Definition one (c : Cluster) (body : option string) : handler Result :=
  synthetic c (rq_method rq) (stripRequest (rq_url rq) (cl_name c) false) ≫= λ s : bool * option Merged,
  let path := stripRequest (rq_url rq) (cl_name c) s.1 in
  match s.2 with
  | Some view => Ret (Answered {| mg_status := mg_status view; mg_body := qualified c path s.1 (mg_body view) |})
  | None =>
      if bool_decide (rq_method rq = "GET") && reads_projects path then
        try_catch
          (r ← get_from c path;
           json_reply r ≫= λ got : Z * Json,
           withProjects c path got.1 got.2 ≫= λ got' : Z * Json,
          
           _ ← ask (Log (request_of c path got.1));
           Ret (Answered {| mg_status := got'.1; mg_body := qualified c path s.1 got'.2 |}))
          (λ _, Ret (Refused 502 ("Cluster " +++ quoted (cl_name c) +++ " did not answer")))
      else
        let forward b := Ret (Forwarded (fetch_of c (rq_method rq) path) b s.1) in
        match body with
        | Some b => forward (rewrite_body c b)
        | None =>
            if changes && negb (streamed rq) then
              raw ← db ReadBody;
              match raw with
              | None => Ret (Refused 413 "Request body too large")
              | Some b => forward (rewrite_body c b)
              end
            else forward Streamed
        end
  end.

(** *** Every cluster ([fanOut]) *)

Definition answer_of (url : string) (c : Cluster) : handler (option Answer) :=
  synthetic c "GET" (stripRequest url (cl_name c) false) ≫= λ s : bool * option Merged,
  let path := stripRequest url (cl_name c) s.1 in
  got ← match s.2 with
        | Some view => Ret (Some (mg_status view, mg_body view))
        | None =>
            try_catch
              (r ← get_from c path; json_reply r ≫= λ got : Z * Json, withProjects c path got.1 got.2 ≫= λ got' : Z * Json,
           Ret (Some got'))
              (λ _, Ret None)
        end;
  Ret (option_map (λ g, {| an_cluster := cl_name c; an_status := g.1; an_json := Some (qualifyResponse path g.2 (cl_name c) s.1) |}) got).
Definition fanOut (url : string) (clusters : list Cluster) : handler (list (option Answer)) := mapM (answer_of url) clusters.

(** *** A new instance in a merged project ([place]) *)

Definition candidate (project : string) (mem : list (string * (Z * Z))) (c : Cluster) : Quota.Candidate :=
  let m := snd <$> js_find (λ x, bool_decide (x.1 = cl_id c)) mem in
  {| Quota.clusterId := cl_id c; Quota.clusterName := cl_name c; Quota.project := project; Quota.placementStatus := "ready";
     Quota.clusterStatus := cl_status c; Quota.labels := cl_labels c;
     Quota.memoryTotal := default 0 (fst <$> m); Quota.memoryUsed := default 0 (snd <$> m) |}.

Definition showing (probes : list (option Answer)) : list Cluster :=
  fst <$> js_filter (λ ca, match ca.2 with Some x => an_status x =? 200 | None => false end) (zip (am_reachable a) probes).

Definition place : handler Result :=
  let project := default "default" (query_get (rq_url rq) "project") in
  raw ← db ReadBody;
  match raw with
  | None => Ret (Refused 413 "Request body too large")
  | Some raw =>
      let parsed := default (JObj []) (JSON_parse (if truthy_str raw then raw else "{}")) in
      probes ← fanOut ("/1.0/projects/" +++ encodeURIComponent project) (am_reachable a);
      let has := showing probes in
      mem ← match has with [] => Ret [] | _ => db (Memory (cl_id <$> has)) end;
      match Quota.choose (memoryOf parsed) None None (candidate project mem <$> has) with
      | Quota.Refused reason =>
          Ret (match has with
               | [] => Refused 404 ("Project " +++ quoted project +++ " is on none of your clusters")
               | _ => Refused 409 reason
               end)
      | Quota.Chosen pick =>
          match js_find (λ c, bool_decide (cl_id c = Quota.clusterId pick)) has with
          | Some c => one c (Some raw)
          | None => Raise (Fault "no such cluster")
          end
      end
  end.

(** *** Which ([handle], [upgrade]) *)

Definition scopeOf : option string := match header rq "x-incuscloud-scope" with Some v => if truthy_str v then Some v else None | None => None end.
Definition sameOriginReferer : option string :=
  match header rq "referer" with
  | Some r => if truthy_str r && bool_decide (url_origin r = Some publicOrigin) then Some r else None
  | None => None
  end.

Definition needs_access (name : string) : Result := Refused 403 ("You have no access to cluster " +++ quoted name).
Definition to_one (name : string) (f : Cluster → handler Result) : handler Result :=
  match js_find (λ c, bool_decide (cl_name c = name)) (am_reachable a) with
  | None => Ret (needs_access name)
  | Some c => f c
  end.

Definition handle_caller : handler Result :=
  let path := path_only (rq_url rq) in
  match targetOf pathname (rq_url rq) sameOriginReferer (am_known a) scopeOf with
  | Conflict clusters => Ret (Refused 400 ("The request names several clusters (" +++ join ", " clusters +++ ")"))
  | One name => to_one name (λ c, one c None)
  | Rewrite.AllClusters =>
      if negb changes then
        answers ← fanOut (rq_url rq) (am_reachable a);
        match merge path answers (length (am_reachable a)) (if bool_decide (path = "/1.0") then Some consoleConfig else None) with
        | Some m => Ret (Answered m)
        | None => Raise (Fault "URI malformed")
        end
      else if bool_decide (rq_method rq = "POST") && bool_decide (path = "/1.0/instances") then place
      else Ret (Refused 400 "Choose a cluster: this change names none (open the project on one cluster, as name@cluster)")
  end.

Definition source (c : Cluster) : handler EventSource :=
  synthetic c "GET" "/1.0/none" ≫= λ s : bool * option Merged,
  Ret {| es_cluster := c; es_path := stripRequest (rq_url rq) (cl_name c) s.1; es_token := pn_token (am_principal a); es_standalone := s.1 |}.
Definition upgrade_caller : handler Result :=
  if bool_decide (path_only (rq_url rq) = "/1.0/events") then
    sources ← mapM source (am_reachable a); Ret (FannedIn sources)
  else
    match targetOf pathname (rq_url rq) sameOriginReferer (am_known a) None with
    | One name =>
        to_one name (λ c, synthetic c "GET" "/1.0/none" ≫= λ s : bool * option Merged,
                          Ret (Connected c (stripRequest (rq_url rq) (cl_name c) s.1) (pn_token (am_principal a))))
    | _ => Ret (Refused 400 "Choose a cluster: this connection names none")
    end.
End request.

Definition anonymous (rq : Req) (upgrade : bool) : Result :=
  if negb upgrade && bool_decide (rq_method rq = "GET") && bool_decide (path_only (rq_url rq) = "/1.0") then Answered untrustedServer
  else Refused 401 "Sign in to IncusCloud first".

(** [request] and [upgrade]; a failure on the way is answered 500. *)
Definition facade (rq : Req) (upgrade : bool) : handler Result :=
  try_catch
    (w ← admit_caller rq upgrade;
     match w with
     | Turned r => Ret r
     | Anonymous => Ret (anonymous rq upgrade)
     | Caller a => if upgrade then upgrade_caller rq a else handle_caller rq a
     end)
    (λ _, Ret (Refused 500 "Internal error")).
End facade.
