(* ===== verification/FacadeTheory.v ===== *)
(** * FacadeTheory: the facade widens nobody's access

    Whatever the clusters answer, a request to the federated API reads only
    clusters its caller may reach, as the caller, and changes at most one. *)

From stdpp Require Import gmap.
From S2P Require Import Fleet.
From S2P Require Import Prelude JsString Digits Uri Effects Program.
From S2P Require Quota.
From S2P Require Import Rewrite Merge Sessions Front FrontTheory Gateway GatewayTheory Facade.
Open Scope Z_scope.

Section facade.
Context {L : Locale} (hashSessionId : string → string) (publicOrigin : string).
Context (pathname url_origin : string → option string) (JSON_parse : string → option Json) (consoleConfig : list (string * Json)).
Abbreviation trace := (list (event call)).
Abbreviation facade := (facade hashSessionId publicOrigin pathname url_origin JSON_parse consoleConfig).
Abbreviation handle_caller := (handle_caller publicOrigin pathname url_origin JSON_parse consoleConfig).
Abbreviation upgrade_caller := (upgrade_caller publicOrigin pathname url_origin).
Abbreviation one := (one JSON_parse consoleConfig).
Abbreviation place := (place JSON_parse consoleConfig).

Section request.
Context (rq : Req) (a : Admission).

(** What a request reads of clusters: those its caller may reach, as the caller, and nothing but reads. *)
Definition own_read (e : event call) : Prop :=
  match e with
  | Ev (Fetch fc) _ => fc_method fc = "GET" ∧ fc_cluster fc ∈ am_reachable a ∧ fc_token fc = pn_token (am_principal a)
  | Ev (InsertSession _ _ _) _ | Ev (DeleteSession _) _ | Ev (Exchange _ _) _ => False
  | _ => True
  end.

(** What is passed on to a cluster, or to all of them. *)
Definition own_result (r : Result) : Prop :=
  match r with
  | Forwarded fc _ _ => fc_method fc = rq_method rq ∧ fc_cluster fc ∈ am_reachable a ∧ fc_token fc = pn_token (am_principal a)
  | Connected c _ token => c ∈ am_reachable a ∧ token = pn_token (am_principal a)
  | FannedIn sources => ∀ s, s ∈ sources → es_cluster s ∈ am_reachable a ∧ es_token s = pn_token (am_principal a)
  | _ => True
  end.

Lemma emits_db {A} (c : call (string + A)) : own_read (Ev c (inl EmptyString)) → (∀ x, own_read (Ev c x)) → emits own_read (db c).
Proof. intros _ Hc. by apply emits_try_call. Qed.

Lemma emits_get c path : c ∈ am_reachable a → emits own_read (get_from rq a c path).
Proof. intros Hc. apply emits_ask. intros x. by split. Qed.

Lemma emits_ask_server c : c ∈ am_reachable a → emits own_read (ask_server rq a c).
Proof.
  intros Hc. apply emits_bind; [by apply emits_get|]. intros r. apply emits_bind; [by apply emits_ask|]. intros now.
  destruct (server_told now r); [|done]. apply emits_bind; [by apply emits_ask|done].
Qed.

Lemma emits_synthetic c m path : c ∈ am_reachable a → emits own_read (synthetic rq a c m path).
Proof.
  intros Hc. unfold synthetic. apply emits_bind.
  - unfold serverOf. apply emits_bind; [by apply emits_ask|]. intros [s|]; [|by apply emits_ask_server].
    apply emits_bind; [by apply emits_ask|]. intros now. destruct (_ <? _); [done|by apply emits_ask_server].
  - intros s. destruct (sv_clustered s); [done|]. by destruct (standaloneView _ _ _ _).
Qed.

Lemma emits_seenProjects c : emits own_read (seenProjects a c).
Proof.
  unfold seenProjects. apply emits_bind; [by apply emits_try_call|]. intros rows. generalize (@nil (string * string)).
  induction rows as [|r rows IH]; intros out; [done|]. cbn [seen]. apply emits_bind; [by apply emits_try_call|]. intros ok. apply IH.
Qed.

Lemma emits_decoded s : emits own_read (decoded s).
Proof. unfold decoded. by destruct (decodeURIComponent s). Qed.

Lemma emits_withProjects c path st j : emits own_read (withProjects a c path st j).
Proof.
  unfold withProjects. destruct (project_of path) as [name|].
  - destruct (st =? 403); [|done]. apply emits_bind; [apply emits_decoded|]. intros n. apply emits_bind; [apply emits_seenProjects|done].
  - destruct (_ && _); [|done]. apply emits_bind.
    + apply emits_mapM. intros x. unfold listed_name. destruct x; first [done|apply emits_decoded].
    + intros has. apply emits_bind; [apply emits_seenProjects|]. intros seen. by destruct (js_filter _ seen).
Qed.

Lemma emits_json_reply r : emits own_read (json_reply r).
Proof. destruct r as [[st [j|]]|]; done. Qed.

Lemma emits_read_projects c path {A} (f : Z * Json → Z * Json → handler A) : c ∈ am_reachable a → (∀ g g', emits own_read (f g g')) →
  emits own_read (r ← get_from rq a c path; json_reply r ≫= λ got : Z * Json, withProjects a c path got.1 got.2 ≫= λ got' : Z * Json, f got got').
Proof.
  intros Hc Hf. apply emits_bind; [by apply emits_get|]. intros r. apply emits_bind; [apply emits_json_reply|]. intros got.
  apply emits_bind; [apply emits_withProjects|]. intros got'. apply Hf.
Qed.

Lemma emits_one c body : c ∈ am_reachable a → emits own_read (one rq a c body).
Proof.
  intros Hc. unfold Facade.one. apply emits_bind; [by apply emits_synthetic|]. intros s. destruct s.2; [done|].
  destruct (bool_decide _ && _).
  - apply emits_try; [|done]. apply emits_read_projects; [done|]. intros g g'. apply emits_bind; [by apply emits_ask|done].
  - destruct body; [done|]. destruct (_ && _); [|done]. apply emits_bind; [by apply emits_try_call|]. by intros [raw|].
Qed.

Lemma emits_answer_of url c : c ∈ am_reachable a → emits own_read (answer_of rq a url c).
Proof.
  intros Hc. unfold answer_of. apply emits_bind; [by apply emits_synthetic|]. intros s. apply emits_bind; [|done].
  destruct s.2; [done|]. apply emits_try; [|done]. by apply emits_read_projects.
Qed.

Lemma emits_fanOut url : emits own_read (fanOut rq a url (am_reachable a)).
Proof. apply emits_mapM_in. intros c. apply emits_answer_of. Qed.

Lemma showing_reachable probes c : c ∈ showing a probes → c ∈ am_reachable a.
Proof.
  unfold showing. intros ((c' & p) & -> & [Hin _]%elem_of_js_filter)%list_elem_of_fmap. by apply elem_of_zip_l in Hin.
Qed.

Lemma emits_place : emits own_read (place rq a).
Proof.
  unfold Facade.place. apply emits_bind; [by apply emits_try_call|]. intros [raw|]; [|done]. apply emits_bind; [apply emits_fanOut|]. intros probes.
  apply emits_bind; [by destruct (showing a probes); [|apply emits_try_call]|]. intros mem. destruct (Quota.choose _ _ _ _) as [pick|reason]; [|done].
  destruct (js_find _ _) as [c|] eqn:Hf; [|done]. apply emits_one. apply js_find_some in Hf as [Hin _]. by eapply showing_reachable.
Qed.

Lemma emits_handle_caller : emits own_read (handle_caller rq a).
Proof.
  unfold Facade.handle_caller. destruct (targetOf _ _ _ _ _) as [name| |cs]; [| |done].
  - unfold to_one. destruct (js_find _ _) as [c|] eqn:Hf; [|done]. apply emits_one. by apply js_find_some in Hf as [Hin _].
  - destruct (negb _); [|by destruct (_ && _); [apply emits_place|]]. apply emits_bind; [apply emits_fanOut|]. intros answers. by destruct (merge _ _ _ _).
Qed.

Lemma emits_upgrade_caller : emits own_read (upgrade_caller rq a).
Proof.
  unfold Facade.upgrade_caller. case_bool_decide.
  - apply emits_bind; [|done]. apply emits_mapM_in. intros c Hc. unfold source. apply emits_bind; [by apply emits_synthetic|done].
  - destruct (targetOf _ _ _ _ _) as [name| |cs]; [|done..]. unfold to_one. destruct (js_find _ _) as [c|] eqn:Hf; [|done].
    apply emits_bind; [|done]. apply emits_synthetic. by apply js_find_some in Hf as [Hin _].
Qed.

(** ** What is passed on *)

(** To [c], if anything, and then the request as it is. *)
Definition only_to (c : Cluster) (r : Result) : Prop :=
  match r with
  | Forwarded fc _ _ => fc_cluster fc = c ∧ fc_method fc = rq_method rq ∧ fc_token fc = pn_token (am_principal a)
  | Connected c' _ token => c' = c ∧ token = pn_token (am_principal a)
  | FannedIn _ => False
  | _ => True
  end.

Lemma yields_one c body : yields (only_to c) (one rq a c body).
Proof.
  unfold Facade.one. apply yields_then. intros s. destruct s.2; [done|]. destruct (bool_decide _ && _).
  - apply yields_try; [|done]. apply yields_then. intros r. apply yields_then. intros g. apply yields_then. intros g'. by apply yields_then.
  - destruct body; [done|]. destruct (_ && _); [|done]. apply yields_then. by intros [raw|].
Qed.

Lemma only_to_own c r : c ∈ am_reachable a → only_to c r → own_result r.
Proof. intros Hc. destruct r; simpl; try done; [by intros (-> & ? & ?)|by intros [-> ?]]. Qed.

(** Whom a request without a change names no cluster for: nobody. *)
Definition passes_on (r : Result) : bool := match r with Forwarded _ _ _ | Connected _ _ _ | FannedIn _ => true | _ => false end.

(** A new instance goes to a cluster that shows its project and that the placement rules choose. *)
Definition placed (r : Result) : Prop :=
  passes_on r = true → ∃ c, c ∈ am_reachable a ∧ only_to c r
    ∧ ∃ body probes mem, c ∈ showing a probes
        ∧ ∃ pick, Quota.choose (memoryOf body) None None (candidate (default "default" (query_get (rq_url rq) "project")) mem <$> showing a probes) = Quota.Chosen pick
            ∧ Quota.clusterId pick = cl_id c.

Lemma yields_place : yields placed (place rq a).
Proof.
  unfold Facade.place. apply yields_then. intros [raw|]; [|done]. apply yields_then. intros probes. apply yields_then. intros mem.
  destruct (Quota.choose _ _ _ _) as [pick|reason] eqn:Hch; [|by destruct (showing a probes)].
  destruct (js_find _ _) as [c|] eqn:Hf; [|done]. apply js_find_some in Hf as [Hin Hid%bool_decide_eq_true].
  eapply yields_mono; [|apply yields_one]. intros r Hr _. exists c. split; [by eapply showing_reachable|]. split; [done|].
  eexists _, probes, mem. split; [done|]. by exists pick.
Qed.

(** Where the request of an identified caller goes. *)
Definition goes (t : Target) (r : Result) : Prop :=
  match t with
  | One name => passes_on r = true → ∃ c, c ∈ am_reachable a ∧ cl_name c = name ∧ only_to c r
  | Conflict _ => passes_on r = false
  | Rewrite.AllClusters =>
      passes_on r = true → changes rq = true ∧ rq_method rq = "POST" ∧ path_only (rq_url rq) = "/1.0/instances" ∧ placed r
  end.
Definition target : Target := targetOf pathname (rq_url rq) (sameOriginReferer publicOrigin url_origin rq) (am_known a) (scopeOf rq).

Lemma yields_handle_caller : yields (goes target) (handle_caller rq a).
Proof.
  unfold Facade.handle_caller. change (targetOf _ _ _ _ _) with target. destruct target as [name| |cs]; [| |done].
  - unfold to_one. destruct (js_find _ _) as [c|] eqn:Hf; [|done]. apply js_find_some in Hf as [Hin Hn%bool_decide_eq_true].
    eapply yields_mono; [|apply yields_one]. intros r Hr _. by exists c.
  - destruct (changes rq) eqn:Hch; simpl.
    + destruct (bool_decide (rq_method rq = "POST") && _) eqn:Hp; [|done]. apply andb_true_iff in Hp as [Hm%bool_decide_eq_true Hu%bool_decide_eq_true].
      eapply yields_mono; [|apply yields_place]. intros r Hr Hpass. by split_and!.
    + apply yields_then. intros answers. by destruct (merge _ _ _ _).
Qed.

Lemma goes_own t r : goes t r → own_result r.
Proof.
  intros Hr. destruct (passes_on r) eqn:Hpass; [|by destruct r]. destruct t as [name| |cs]; simpl in Hr; [| |congruence].
  - destruct (Hr Hpass) as (c & Hin & _ & Ho). by apply (only_to_own c).
  - destruct (Hr Hpass) as (_ & _ & _ & Hp). destruct (Hp Hpass) as (c & Hin & Ho & _). by apply (only_to_own c).
Qed.

Lemma yields_upgrade_caller : yields own_result (upgrade_caller rq a).
Proof.
  unfold Facade.upgrade_caller. case_bool_decide.
  - eapply yields_bind; [apply (yields_mapM (λ c s, es_cluster s = c ∧ es_token s = pn_token (am_principal a)))|].
    + intros c Hc. unfold source. by apply yields_then.
    + intros sources Hs s (i & Hi)%list_elem_of_lookup. destruct (Forall2_lookup_r _ _ _ _ _ Hs Hi) as (c & Hc & <- & Ht).
      split; [by eapply list_elem_of_lookup_2|done].
  - destruct (targetOf _ _ _ _ _) as [name| |cs]; [|done..]. unfold to_one. destruct (js_find _ _) as [c|] eqn:Hf; [|done].
    apply js_find_some in Hf as [Hin _]. by apply yields_then.
Qed.
End request.

(** ** It ends *)

Lemma wp_not_running {A} (p : handler A) tr : finite p → wp p (λ r _, r ≠ Running) tr.
Proof. revert tr. induction p as [x|e| |X c k IH]; intros tr Hf; simpl in *; [done..|]. intros x. by apply IH. Qed.
Lemma finite_mapM {A B} (f : A → handler B) l : (∀ x, finite (f x)) → finite (mapM f l).
Proof. intros Hf. induction l as [|x l IH]; [done|]. simpl. apply finite_bind; [apply Hf|intros y]. by apply finite_bind. Qed.

(** Takes a handler apart into its calls. *)
Ltac ending := repeat first [done|apply finite_try_call|apply finite_bind; [|intros ?]|apply finite_try; [|intros ?]|apply finite_mapM; intros ?|assumption|case_match].

Lemma finite_synthetic rq a c m path : finite (synthetic rq a c m path).
Proof. unfold synthetic, serverOf, ask_server, get_from. ending. Qed.
Lemma finite_seen a c rows out : finite (seen a c rows out).
Proof. revert out. induction rows as [|r rows IH]; intros out; [done|]. cbn [seen]. apply finite_bind; [apply finite_try_call|]. intros ok. apply IH. Qed.
Lemma finite_seenProjects a c : finite (seenProjects a c).
Proof. unfold seenProjects. apply finite_bind; [apply finite_try_call|]. intros rows. apply finite_seen. Qed.
Lemma finite_withProjects a c path st j : finite (withProjects a c path st j).
Proof. pose proof (finite_seenProjects a c). unfold withProjects, listed_name, decoded. ending. Qed.
Lemma finite_read {A} rq a c path (f : Z * Json → Z * Json → handler A) : (∀ g g', finite (f g g')) →
  finite (r ← get_from rq a c path; json_reply r ≫= λ got : Z * Json, withProjects a c path got.1 got.2 ≫= λ got' : Z * Json, f got got').
Proof.
  intros Hf. apply finite_bind; [done|]. intros r. apply finite_bind; [unfold json_reply; ending|]. intros g. apply finite_bind; [apply finite_withProjects|]. intros g'. apply Hf.
Qed.
Lemma finite_one rq a c body : finite (one rq a c body).
Proof.
  unfold Facade.one. apply finite_bind; [apply finite_synthetic|]. intros s. destruct s.2; [done|]. destruct (bool_decide _ && _); [|by ending].
  apply finite_try; [|done]. apply finite_read. intros g g'. by ending.
Qed.
Lemma finite_fanOut rq a url l : finite (fanOut rq a url l).
Proof.
  apply finite_mapM. intros c. unfold answer_of. apply finite_bind; [apply finite_synthetic|]. intros s. apply finite_bind; [|done].
  destruct s.2; [done|]. apply finite_try; [|done]. by apply finite_read.
Qed.
Lemma finite_handle_caller rq a : finite (handle_caller rq a).
Proof.
  unfold Facade.handle_caller, to_one, Facade.place. destruct (targetOf _ _ _ _ _); [| |done].
  - destruct (js_find _ _); [apply finite_one|done].
  - destruct (negb _); [apply finite_bind; [apply finite_fanOut|intros ?; by ending]|]. destruct (_ && _); [|done].
    apply finite_bind; [apply finite_try_call|]. intros [raw|]; [|done]. apply finite_bind; [apply finite_fanOut|]. intros probes.
    apply finite_bind; [destruct (showing a probes); [done|apply finite_try_call]|]. intros mem. destruct (Quota.choose _ _ _ _); [|done].
    destruct (js_find _ _); [apply finite_one|done].
Qed.
Lemma finite_upgrade_caller rq a : finite (upgrade_caller rq a).
Proof.
  unfold Facade.upgrade_caller, to_one. case_bool_decide.
  - apply finite_bind; [|done]. apply finite_mapM. intros c. apply finite_bind; [apply finite_synthetic|done].
  - destruct (targetOf _ _ _ _ _); [|done..]. destruct (js_find _ _); [|done]. apply finite_bind; [apply finite_synthetic|done].
Qed.

(** ** Admission *)

(** A caller's admission rests on the calls [tr]: who they are, and that they may access what they reach. *)
Definition admitted (tr : trace) (rq : Req) (a : Admission) : Prop :=
  identified hashSessionId publicOrigin tr (rq_method rq) (rq_headers rq) (am_principal a)
  ∧ ∀ c, c ∈ am_reachable a → cl_status c ≠ "disabled" ∧ Ev (CanAccess (pn_id (am_principal a)) (cl_id c)) (inr true) ∈ tr.

(** A call made to let a caller in. *)
Definition admits (e : event call) : Prop :=
  match e with Ev (Verify _) _ | Ev (GetUser _) _ | Ev (GetService _) _ | Ev (FreshSession _) _ | Ev AllClusters _ | Ev (CanAccess _ _) _ => True | _ => False end.
Lemma asks_admits evs : Forall asks_who evs → Forall admits evs.
Proof. intros H. eapply Forall_impl; [exact H|]. by intros [X []]. Qed.

Lemma wp_which user l tr : wp (which (λ c, db (CanAccess user (cl_id c))) l) (λ r tr', ∃ evs, tr' = tr ++ evs ∧ Forall admits evs ∧
    match r with
    | Returned reach => ∀ c, c ∈ reach → c ∈ l ∧ Ev (CanAccess user (cl_id c)) (inr true) ∈ evs
    | Raised _ => True
    | Running => False
    end) tr.
Proof.
  revert tr. induction l as [|c l IH]; intros tr; [exists []; rewrite app_nil_r; by split_and!; [|constructor|intros c ?%elem_of_nil]|].
  simpl. intros [m|b]; simpl; [eexists [_]; by split_and!; [|repeat constructor|]|]. apply wp_bind. eapply wp_mono; [apply IH|].
  intros r tr' (evs & -> & Hevs & HP). destruct r as [reach|e|]; simpl;
    [|exists (Ev (CanAccess user (cl_id c)) (inr b) :: evs); rewrite <-(assoc_L (++)); by split_and!; [|constructor|]|done].
  exists (Ev (CanAccess user (cl_id c)) (inr b) :: evs). rewrite <-(assoc_L (++)). split; [done|]. split; [by constructor|].
  assert (∀ c', c' ∈ reach → c' ∈ c :: l ∧ Ev (CanAccess user (cl_id c')) (inr true) ∈ Ev (CanAccess user (cl_id c)) (inr b) :: evs) as Hreach.
  { intros c' [Hl He]%HP. split; by right. }
  destruct b; [|exact Hreach]. intros c' [->|Hin]%elem_of_cons; [split; by left|by apply Hreach].
Qed.

Lemma wp_admit_caller rq upgrade tr :
  wp (admit_caller hashSessionId publicOrigin rq upgrade) (λ r tr', ∃ evs, tr' = tr ++ evs ∧ Forall admits evs ∧
    match r with
    | Returned (Caller a) => admitted evs rq a
    | Returned (Turned r) => ∃ st m, r = Refused st m
    | Returned Anonymous | Raised _ => True
    | Running => False
    end) tr.
Proof.
  unfold admit_caller. apply wp_bind. eapply wp_mono; [apply wp_resolved|]. intros r tr' (evs & -> & Hevs%asks_admits & HP).
  destruct r as [[e|[p|]]|e|]; simpl; [|..|done]; try (by exists evs).
  - exists evs. split; [done|]. split; [done|]. destruct HP as (st & m & -> & _). by eexists _, _.
  - destruct (foreign_upgrade _ _ _); simpl; [exists evs; split; [done|]; split; [done|]; by eexists _, _|].
    intros [m|all]; simpl; [exists (evs ++ [Ev AllClusters (inl m)]); rewrite (assoc_L (++)); split_and!; [done|apply Forall_app; split; [done|by repeat constructor]|done]|].
    apply wp_bind. eapply wp_mono; [apply wp_which|]. intros r tr' (evs' & -> & Hevs' & HQ).
    assert (Forall admits (evs ++ [Ev AllClusters (inr all)] ++ evs')) as Hall by (apply Forall_app; split; [done|]; by constructor).
    destruct r as [reach|e|]; simpl; [| |done];
      (exists (evs ++ [Ev AllClusters (inr all)] ++ evs'); rewrite <-!(assoc_L (++)); split; [done|]; split; [done|]); [|done]. split.
    + eapply identified_mono; [|exact HP]. intros e He. apply elem_of_app. by left.
    + intros c Hc. destruct (HQ c Hc) as [Hin He]. split; [|apply elem_of_app; right; by right].
      apply elem_of_js_filter in Hin as [_ Hd]. by apply negb_true_iff, bool_decide_eq_false in Hd.
Qed.

(** ** Properties *)

(** The caller of a request, as the calls [tr] show them, may access [c], and [token] is theirs. *)
Definition entitled (tr : trace) (rq : Req) (c : Cluster) (token : string) : Prop :=
  cl_status c ≠ "disabled" ∧ ∃ p, identified hashSessionId publicOrigin tr (rq_method rq) (rq_headers rq) p
    ∧ Ev (CanAccess (pn_id p) (cl_id c)) (inr true) ∈ tr ∧ token = pn_token p.

Definition within_access (rq : Req) (tr : trace) (r : Result) : Prop :=
  (∀ fc x, Ev (Fetch fc) x ∈ tr → fc_method fc = "GET" ∧ entitled tr rq (fc_cluster fc) (fc_token fc))
  ∧ match r with
    | Forwarded fc _ _ => fc_method fc = rq_method rq ∧ entitled tr rq (fc_cluster fc) (fc_token fc)
    | Connected c _ token => entitled tr rq c token
    | FannedIn sources => ∀ s, s ∈ sources → entitled tr rq (es_cluster s) (es_token s)
    | _ => True
    end.

Lemma admits_no_fetch evs fc x : Forall admits evs → Ev (Fetch fc) x ∉ evs.
Proof. intros H Hin. rewrite Forall_forall in H. by destruct (H _ Hin). Qed.

Lemma admitted_entitled evs tr rq a c : admitted evs rq a → (∀ e, e ∈ evs → e ∈ tr) → c ∈ am_reachable a →
  entitled tr rq c (pn_token (am_principal a)).
Proof.
  intros [Hid Hacc] Hsub Hc. destruct (Hacc c Hc) as [Hd He]. split; [done|]. exists (am_principal a). split; [|split; [by apply Hsub|done]].
  by eapply identified_mono.
Qed.

Lemma caller_within rq a evs evs' r : Forall admits evs → admitted evs rq a → Forall (own_read a) evs' → own_result rq a r → within_access rq (evs ++ evs') r.
Proof.
  intros Hadm Ha Hown Hr. assert (∀ c, c ∈ am_reachable a → entitled (evs ++ evs') rq c (pn_token (am_principal a))) as Hent.
  { intros c. apply (admitted_entitled evs); [done|]. intros e He. apply elem_of_app. by left. }
  split.
  - intros fc x [Hin|Hin]%elem_of_app; [by destruct (admits_no_fetch evs fc x)|]. rewrite Forall_forall in Hown.
    destruct (Hown _ Hin) as (Hm & Hc & ->). split; [done|by apply Hent].
  - destruct r as [m|st m|fc b st|c path token|sources]; simpl in *; try done.
    + destruct Hr as (Hm & Hc & ->). split; [done|by apply Hent].
    + destruct Hr as [Hc ->]. by apply Hent.
    + intros s Hs. destruct (Hr s Hs) as [Hc ->]. by apply Hent.
Qed.

Lemma refused_within rq evs evs' a r : Forall admits evs → admitted evs rq a → Forall (own_read a) evs' →
  match r with Answered _ | Refused _ _ => True | _ => False end → within_access rq (evs ++ evs') r.
Proof. intros Hadm Ha Hown Hr. apply (caller_within rq a); [done..|]. by destruct r. Qed.

(** A caller's part of a request, and the error that a failure on the way is answered with. *)
Lemma wp_caller rq a (p : handler Result) evs : Forall admits evs → admitted evs rq a → emits (own_read a) p → finite p → yields (own_result rq a) p →
  wp p (λ r tr, match r with
                | Raised e => wp (Ret (call:=call) (E:=failure) (Refused 500 "Internal error")) (λ r tr, ∃ res, r = Returned res ∧ within_access rq tr res) tr
                | _ => ∃ res, r = Returned res ∧ within_access rq tr res
                end) evs.
Proof.
  intros Hadm Ha He Hf Hy. assert (wp p (λ r _, r ≠ Running) evs) as Hend by (by apply wp_not_running).
  eapply wp_mono; [apply (wp_and _ _ _ _ Hend (wp_yields _ _ p (λ r tr, ∃ evs', tr = evs ++ evs' ∧ Forall (own_read a) evs'
    ∧ match r with Returned x => own_result rq a x | _ => True end) evs He Hy (λ r evs' HF Hr, ex_intro _ evs' (conj eq_refl (conj HF Hr)))))|].
  intros r tr [Hne (evs' & -> & HF & Hr)]. destruct r as [res|e|]; [| |done].
  - exists res. split; [done|]. by apply (caller_within rq a).
  - exists (Refused 500 "Internal error"). split; [done|]. by apply (refused_within rq evs evs' a).
Qed.

(** C15: whatever the clusters and the database answer, a request to the facade reads only clusters that the caller it
    identified was found to have access to and that are not disabled, with the caller's own token, and never with
    anything but a read; what it passes on goes to such a cluster, as the request is, with that token. It always ends. *)
Theorem facade_keeps_access rq upgrade o :
  let r := run o (facade rq upgrade) [] in ∃ res, r.1 = Returned res ∧ within_access rq r.2 res.
Proof.
  apply (wp_run _ (λ r tr, ∃ res, r = Returned res ∧ within_access rq tr res) o). unfold Facade.facade. apply wp_try, wp_bind.
  assert (∀ evs res, Forall admits evs → match res with Answered _ | Refused _ _ => True | _ => False end → within_access rq evs res) as Hno.
  { intros evs res Hevs Hres. split; [|by destruct res]. intros fc x Hin. by destruct (admits_no_fetch evs fc x). }
  eapply wp_mono; [apply wp_admit_caller|]. intros r tr (evs & -> & Hevs & HP). rewrite app_nil_l.
  destruct r as [[a| |res]|e|]; simpl; [| |eexists; split; [done|]|eexists; split; [done|by apply Hno]|done].
  - apply (wp_caller rq a); [done..| | |]; destruct upgrade; auto using emits_handle_caller, emits_upgrade_caller, finite_handle_caller, finite_upgrade_caller, yields_upgrade_caller.
    eapply yields_mono; [apply goes_own|apply yields_handle_caller].
  - eexists. split; [done|]. apply Hno; [done|]. unfold anonymous. by destruct (_ && _).
  - destruct HP as (st & m & ->). by apply Hno.
Qed.

(** A request that names a cluster, itself or through the page it was made from, is passed on to that cluster or to
    none, and one that names several to none; one that names none is passed on only when it creates an instance, to
    a cluster that shows its project and that the placement rules choose. Never does a change reach two clusters. *)
Theorem change_reaches_one rq a o tr :
  match (run o (handle_caller rq a) tr).1 with
  | Returned res => goes rq a (target rq a) res
  | Raised _ => True
  | Running => False
  end.
Proof.
  apply (wp_run _ (λ r _, match r with Returned res => goes rq a (target rq a) res | Raised _ => True | Running => False end) o).
  assert (wp (handle_caller rq a) (λ r _, r ≠ Running) tr) as Hend by (apply wp_not_running, finite_handle_caller).
  eapply wp_mono; [apply (wp_and _ _ _ _ Hend (wp_yields (λ _, True) _ _ (λ r _, match r with Returned x => goes rq a (target rq a) x | _ => True end) tr
    (emits_any _) (yields_handle_caller rq a) (λ r evs _ Hr, Hr)))|].
  intros r tr' [Hne Hr]. by destruct r.
Qed.
End facade.

(** ** Examples *)

(** An amount without a unit is read as thousands. *)
Theorem memory_without_unit :
  memoryOf (JObj [("config", JObj [("limits.memory", JStr "1073741824")])]) = 1073741824000
  ∧ memoryOf (JObj [("config", JObj [("limits.memory", JStr "1GiB")])]) = 1073741824
  ∧ memoryOf (JObj [("config", JObj [("limits.memory", JStr "1.5MB")])]) = 1500000.
Proof. vm_compute. done. Qed.

Definition two : Cluster := {| cl_id := "c2"; cl_name := "two"; cl_status := "disabled"; cl_url := "https://two:8443"; cl_fingerprint := "g"; cl_labels := [] |}.
Definition two_oracle (may : string → bool) (two_status : string) (X : Type) (c : call X) (tr : list (event call)) : X :=
  match c in call X return X with
  | AllClusters => inr [demo_cluster; {| cl_id := "c2"; cl_name := "two"; cl_status := two_status; cl_url := cl_url two; cl_fingerprint := "g"; cl_labels := [] |}]
  | CanAccess _ id => inr (may id)
  | c => demo_oracle _ c tr
  end.
Definition named_two : Req :=
  {| rq_method := "GET"; rq_url := "/1.0/projects/web@two"; rq_ip := "1.2.3.4"; rq_headers := [("host", "cloud.example"); ("cookie", "ic_session=s")] |}.

(** A name on a cluster that the caller may not access is refused, but one on a disabled cluster is taken for a name on
    none, and every cluster is asked for it. *)
Theorem disabled_cluster_unknown :
  let run_two may st := (run (two_oracle may st) (@facade code_unit_locale (λ s, s) "https://cloud.example" (λ _, None) (λ _, None) (λ _, None) [] named_two false) []).1 in
  run_two (λ id, bool_decide (id = "c1")) "ready" = Returned (needs_access "two")
  ∧ match run_two (λ _, true) "disabled" with Returned (Answered _) => True | _ => False end.
Proof. vm_compute. done. Qed.
