(* ===== verification/K8sModel.v ===== *)
(** * K8sModel: sizes, specifications and versions of Kubernetes clusters

    Models [k8s/model.ts] of the server: what a cluster counts against a
    tenant's quota, which specifications can be used and which version can
    follow which. Memory is an exact rational of GiB where the source computes
    in doubles; whether a text is an IP address ([node:net]) is a parameter. *)

From Stdlib Require Import QArith.QArith_base QArith.Qround Lqa.
From S2P Require Import BalancingModel.
From S2P Require Import Prelude JsString Digits Effects Quota AclPaths MetalLB.
Open Scope Z_scope.

(** Versions with prebuilt images, oldest first. *)
Definition KUBERNETES_VERSIONS : list string := ["v1.34.0"; "v1.35.5"; "v1.36.4"; "v1.37.0"].

Inductive Size := Small | Medium | Large.
Record SizeSpec := { sz_cpu : Z; sz_memoryGiB : Z; sz_flavor : string }.
Definition SIZES (s : Size) : SizeSpec :=
  match s with
  | Small => {| sz_cpu := 2; sz_memoryGiB := 2; sz_flavor := "c2-m2" |}
  | Medium => {| sz_cpu := 2; sz_memoryGiB := 4; sz_flavor := "c2-m4" |}
  | Large => {| sz_cpu := 4; sz_memoryGiB := 8; sz_flavor := "c4-m8" |}
  end.
Definition LB : SizeSpec := {| sz_cpu := 1; sz_memoryGiB := 1; sz_flavor := "c1-m1" |}.
Definition NODE_DISK : Z := 10 * GiB.

Definition CLASS_NAME : string := "incuscloud-v2".
Definition CLASS_NAMESPACE : string := "incuscloud-system".
Definition namespaceOf (slug : string) : string := "ic-" +++ slug.

(** [lb]: [opts.lb !== false]. *)
Definition usageOf (size : Size) (controlPlanes workers : Z) (lb : bool) : Usage :=
  let s := SIZES size in
  let nodes := controlPlanes + workers in
  let lb := if lb then 1 else 0 in
  λ k, match k with
       | Instances => nodes + lb
       | Cpu => nodes * sz_cpu s + lb * sz_cpu LB
       | Memory => (nodes * sz_memoryGiB s + lb * sz_memoryGiB LB) * GiB
       | Disk => (nodes + lb) * NODE_DISK
       end.

(** ** Versions *)

(** [Number(/^v1\.(\d+)\./.exec(v)?.[1] ?? NaN)] *)
Definition minorOf (v : string) : option Z :=
  if starts_with "v1." v then
    let '(d, r) := span is_digit (str_drop 3 v) in
    if truthy_str d && starts_with "." r then Some (digits_val d) else None
  else None.

(** Comparisons with [NaN] are false. *)
Definition upgradeError (from to : string) : option string :=
  if negb (includes KUBERNETES_VERSIONS to) then
    Some (to +++ " is not offered; choose one of " +++ join ", " KUBERNETES_VERSIONS)
  else
    match minorOf from, minorOf to with
    | Some a, Some b =>
        if (b <? a) || (b =? a) && bool_decide (String.compare to from = Lt) then
          Some ("Kubernetes cannot be downgraded (" +++ from +++ " to " +++ to +++ ")")
        else if a + 1 <? b then
          Some ("Upgrade one minor version at a time: " +++ from +++ " can go to v1." +++ show_Z (a + 1) +++ " next")
        else None
    | _, _ => None
    end.

(** ** Specifications *)

Inductive MachineType := Container | VirtualMachine.
Record MachineSpec := { ma_type : MachineType; ma_flavor : string; ma_profiles : list string; ma_target : string }.
Inductive LbKind := Lxc | Oci.
Inductive LbSpec :=
  | LbInstance (kind : LbKind) (flavor : string) (profiles : list string) (target : string)
  | LbKubeVip (host interface : string)
  | LbOvn (host networkName : string).
Record K8sSpec := {
  controlPlane : MachineSpec; worker : MachineSpec; loadBalancer : LbSpec; image : string;
  privileged : bool; flannel : bool; installKubeadm : bool; podCidr : string; serviceCidr : string;
  metallb : option (list string);
}.

Definition DEFAULT_POD_CIDR : string := "10.244.0.0/16".
Definition DEFAULT_SERVICE_CIDR : string := "10.96.0.0/12".
Definition CP_MIN_CPU : Z := 2.
Definition CP_MIN_MEMORY_MIB : Z := 1700.

Record Flavor := { fl_cpu : Z; fl_memoryGiB : Q }.

(** [/^c(\d+)-m(\d+(?:\.\d+)?)$/] *)
Definition parseFlavor (f : string) : option Flavor :=
  match trim f with
  | String c r =>
      let '(cores, r) := span is_digit r in
      if char_is c "c" && truthy_str cores && starts_with "-m" r then
        let '(whole, r) := span is_digit (str_drop 2 r) in
        let '(frac, rest) := fraction r in
        if truthy_str whole && negb (truthy_str rest) then
          let cpu := digits_val cores in
          let units := digits_val (whole +++ frac) in
          if (0 <? cpu) && (0 <? units) then
            Some {| fl_cpu := cpu; fl_memoryGiB := Qmake units (Pos.of_nat (10 ^ String.length frac)) |}
          else None
        else None
      else None
  | EmptyString => None
  end.

Definition specFromSize (size : Size) (member : string) : K8sSpec :=
  let machine := {| ma_type := Container; ma_flavor := sz_flavor (SIZES size); ma_profiles := ["default"]; ma_target := member |} in
  {| controlPlane := machine; worker := machine; loadBalancer := LbInstance Lxc (sz_flavor LB) ["default"] member;
     image := EmptyString; privileged := false; flannel := true; installKubeadm := false;
     podCidr := DEFAULT_POD_CIDR; serviceCidr := DEFAULT_SERVICE_CIDR; metallb := None |}.

(** The flavor of a load balancer that is an instance. *)
Definition lb_flavor (lb : LbSpec) : option string := match lb with LbInstance _ f _ _ => Some f | _ => None end.
Definition lbIsInstance (lb : LbSpec) : bool := match lb with LbInstance _ _ _ _ => true | _ => false end.

Definition flavorOf (f : string) : Flavor := default {| fl_cpu := 0; fl_memoryGiB := 0 |} (parseFlavor f).

(** [Math.round] *)
Definition round_Q (q : Q) : Z := Qfloor (q + (1 # 2))%Q.

Definition usageOfSpec (spec : K8sSpec) (controlPlanes workers : Z) (lb : bool) : Usage :=
  let cp := flavorOf (ma_flavor (controlPlane spec)) in
  let w := flavorOf (ma_flavor (worker spec)) in
  let lb := if lb then flavorOf <$> lb_flavor (loadBalancer spec) else None in
  let instances := controlPlanes + workers + match lb with Some _ => 1 | None => 0 end in
  λ k, match k with
       | Instances => instances
       | Cpu => controlPlanes * fl_cpu cp + workers * fl_cpu w + match lb with Some l => fl_cpu l | None => 0 end
       | Memory => round_Q ((inject_Z controlPlanes * fl_memoryGiB cp + inject_Z workers * fl_memoryGiB w
                             + match lb with Some l => fl_memoryGiB l | None => 0 end) * inject_Z GiB)%Q
       | Disk => instances * NODE_DISK
       end.

(** [(25[0-5]|2[0-4]\d|1?\d?\d)] *)
Definition octet (s : string) : bool :=
  all_digits s && ((String.length s <=? 2)%nat
                   || (String.length s =? 3)%nat && (100 <=? digits_val s) && (digits_val s <=? 255)).
Definition IPV4 (s : string) : bool :=
  match split_on "." s with [a; b; c; d] => every octet [a; b; c; d] | _ => false end.
Definition MEMBER (s : string) : bool := negb (truthy_str s) || NAME s.
Definition TARGET (s : string) : bool :=
  MEMBER s || match s with String c r => char_is c "@" && NAME r | EmptyString => false end.
Definition cidrOk (c : string) : bool :=
  match split_on "/" c with
  | [ip; bits] => IPV4 ip && all_digits bits && (digits_val bits <=? 32)
  | _ => false
  end.

Definition first_error (checks : list (bool * string)) : option string := snd <$> js_find fst checks.

Section specError.
Context (isIP : string → bool).

Definition flavor_checks (s : K8sSpec) : list (bool * string) :=
  (λ rf, (match parseFlavor rf.2 with Some _ => false | None => true end,
          "The " +++ rf.1 +++ " flavor " +++ quoted rf.2 +++ " must be c<cores>-m<GiB>"))
  <$> ([("control plane", ma_flavor (controlPlane s)); ("worker", ma_flavor (worker s))]
       ++ match lb_flavor (loadBalancer s) with Some f => [("load balancer", f)] | None => [] end).

(** What is checked once the flavors parse, in order; the text is that of the first that holds. *)
Definition spec_checks (s : K8sSpec) : list (bool * string) :=
  let cp := flavorOf (ma_flavor (controlPlane s)) in
  let bad := js_find (λ a, match parseRange a with None => true | Some _ => false end) (default [] (metallb s)) in
  [(fl_cpu cp <? CP_MIN_CPU, "A control plane needs at least " +++ show_Z CP_MIN_CPU +++ " CPUs (kubeadm)");
   (negb (Qle_bool (inject_Z CP_MIN_MEMORY_MIB) (fl_memoryGiB cp * inject_Z 1024)%Q),
    "A control plane needs at least " +++ show_Z CP_MIN_MEMORY_MIB +++ " MiB of memory (kubeadm)");
   (negb (cidrOk (podCidr s)), "The pod CIDR " +++ quoted (podCidr s) +++ " is not an IPv4 CIDR");
   (negb (cidrOk (serviceCidr s)), "The service CIDR " +++ quoted (serviceCidr s) +++ " is not an IPv4 CIDR");
   (match loadBalancer s with LbKubeVip host _ => negb (truthy_str (trim host)) | _ => false end, "kube-vip needs its virtual IP address");
   (match loadBalancer s with LbOvn host net => negb (truthy_str (trim host)) || negb (truthy_str (trim net)) | _ => false end,
    "An OVN load balancer needs its address and its OVN network");
   (match metallb s with Some [] => true | _ => false end, "MetalLB needs at least one address range");
   (match bad with Some _ => true | None => false end,
    quoted (default EmptyString bad) +++ " is not an IPv4 range (a.b.c.d-e.f.g.h), CIDR or address");
   (negb (TARGET (ma_target (controlPlane s))), "The control plane target " +++ quoted (ma_target (controlPlane s)) +++ " is not a member or @group");
   (negb (TARGET (ma_target (worker s))), "The worker target " +++ quoted (ma_target (worker s)) +++ " is not a member or @group");
   (match loadBalancer s with LbInstance _ _ _ target => negb (MEMBER target) | _ => false end,
    "The load balancer's target is a member, not " +++ quoted match loadBalancer s with LbInstance _ _ _ t => t | _ => EmptyString end);
   (match loadBalancer s with LbInstance _ _ _ _ => false | LbKubeVip host _ | LbOvn host _ => negb (isIP host) end,
    "The load balancer address " +++ quoted match loadBalancer s with LbKubeVip h _ | LbOvn h _ => h | _ => EmptyString end +++ " is not an IP address");
   (privileged s, "Tenant projects do not allow privileged containers")].

Definition specError (s : K8sSpec) : option string :=
  match first_error (flavor_checks s) with
  | Some e => Some e
  | None => first_error (spec_checks s)
  end.

(** ** What the checks promise *)

Lemma first_error_none l : first_error l = None ↔ ∀ c, c ∈ l → c.1 = false.
Proof.
  unfold first_error. destruct (js_find fst l) as [c|] eqn:Hf; simpl.
  - apply js_find_some in Hf as [Hin Hc]. split; [done|]. intros Hall. rewrite (Hall c Hin) in Hc. done.
  - split; [|done]. intros _. by apply js_find_none.
Qed.
End specError.

Lemma round_Q_inject (q : Q) n : (q == inject_Z n)%Q → round_Q q = n.
Proof.
  intros Hq. unfold round_Q. rewrite Hq. unfold inject_Z, Qfloor, Qplus. simpl.
  rewrite Z.mul_1_r. symmetry. apply (Z.div_unique _ _ _ 1); lia.
Qed.
Lemma round_Q_mono (a b : Q) : (a <= b)%Q → round_Q a ≤ round_Q b.
Proof. intros Hab. unfold round_Q. apply Qfloor_resp_le. by apply Qplus_le_compat, Qle_refl. Qed.

(** A cluster made of a size counts the same as its specification. *)
Theorem usage_of_size size member controlPlanes workers lb k :
  usageOfSpec (specFromSize size member) controlPlanes workers lb k = usageOf size controlPlanes workers lb k.
Proof.
  assert (flavorOf (sz_flavor (SIZES size)) = {| fl_cpu := sz_cpu (SIZES size); fl_memoryGiB := inject_Z (sz_memoryGiB (SIZES size)) |}) as Hs
    by (by destruct size; vm_compute).
  assert (flavorOf (sz_flavor LB) = {| fl_cpu := sz_cpu LB; fl_memoryGiB := inject_Z (sz_memoryGiB LB) |}) as Hl by (by vm_compute).
  unfold usageOfSpec, usageOf. cbn [controlPlane worker loadBalancer specFromSize ma_flavor lb_flavor]. rewrite Hs.
  destruct lb; cbn [fmap option_fmap option_map]; rewrite ?Hl; destruct k; cbn [fl_cpu fl_memoryGiB]; try ring;
    apply round_Q_inject.
  all: unfold Qeq; simpl; rewrite ?Pos.mul_1_r; ring.
Qed.

(** ... and that specification can be used. *)
Theorem size_spec_valid isIP size member : MEMBER member = true → specError isIP (specFromSize size member) = None.
Proof.
  intros Hm. assert (TARGET member = true) as Ht by (unfold TARGET; by rewrite Hm).
  unfold specError, spec_checks. cbn [controlPlane worker loadBalancer specFromSize ma_target]. rewrite Hm, Ht.
  by destruct size; vm_compute.
Qed.

Lemma parseFlavor_pos f fl : parseFlavor f = Some fl → 0 < fl_cpu fl ∧ (0 < fl_memoryGiB fl)%Q.
Proof.
  unfold parseFlavor. intros Hp. repeat case_match; simplify_eq. simpl. bool_prop. split; [lia|]. unfold Qlt. simpl. lia.
Qed.

Lemma specError_ok isIP s : specError isIP s = None →
  (∀ f, f ∈ [ma_flavor (controlPlane s); ma_flavor (worker s)] ++ option_list (lb_flavor (loadBalancer s)) → is_Some (parseFlavor f))
  ∧ ∀ c, c ∈ spec_checks isIP s → c.1 = false.
Proof.
  unfold specError. destruct (first_error (flavor_checks s)) eqn:Hf; [done|]. intros Hc. pose proof (proj1 (first_error_none _) Hc) as Hc'. split; [|exact Hc'].
  pose proof (proj1 (first_error_none _) Hf) as Hf'. intros f Hin.
  assert (∃ role, (role, f) ∈ [("control plane", ma_flavor (controlPlane s)); ("worker", ma_flavor (worker s))]
       ++ match lb_flavor (loadBalancer s) with Some f => [("load balancer", f)] | None => [] end) as [role Hrole].
  { destruct (lb_flavor _); simpl in *; set_solver. }
  specialize (Hf' _ (list_elem_of_fmap_2 _ _ _ Hrole)). simpl in Hf'.
  destruct (parseFlavor f); [by eexists|done].
Qed.

Lemma memory_counts cp w (mcp mw ml : Q) :
  0 ≤ cp → 0 ≤ w → (inject_Z 1700 <= mcp * inject_Z 1024)%Q → (0 <= mw)%Q → (0 <= ml)%Q →
  cp * 1700 * 1024 ^ 2 ≤ round_Q ((inject_Z cp * mcp + inject_Z w * mw + ml) * inject_Z GiB).
Proof.
  intros Hcp Hw Hm Hmw Hml. rewrite Zle_Qle in Hcp, Hw.
  rewrite <-(round_Q_inject (inject_Z (cp * 1700 * 1024 ^ 2)) (cp * 1700 * 1024 ^ 2)) by reflexivity. apply round_Q_mono.
  replace GiB with (1024 * 1024 ^ 2) by reflexivity. rewrite !inject_Z_mult.
  generalize dependent (inject_Z cp). generalize dependent (inject_Z w). intros qw Hqw qc Hqc.
  change (inject_Z (1024 ^ 2)) with (1048576 # 1)%Q. change (inject_Z 1700) with (1700 # 1)%Q in *.
  change (inject_Z 1024) with (1024 # 1)%Q in *. change (inject_Z 0) with 0%Q in *.
  assert (0 <= qw * mw)%Q by (by apply Qmult_le_0_compat).
  assert (0 <= qc * (mcp * (1024 # 1) - (1700 # 1)))%Q by (apply Qmult_le_0_compat; [done|lra]).
  nra.
Qed.

(** A specification that is accepted counts for what it uses: whatever its flavors, every machine counts at least one
    CPU, a control plane two and 1700 MiB, and every machine a disk. *)
Theorem accepted_spec_counts isIP s controlPlanes workers lb :
  specError isIP s = None → 0 ≤ controlPlanes → 0 ≤ workers →
  let machines := controlPlanes + workers + (if lb && lbIsInstance (loadBalancer s) then 1 else 0) in
  let u := usageOfSpec s controlPlanes workers lb in
  u Instances = machines ∧ u Disk = machines * NODE_DISK ∧ machines + controlPlanes ≤ u Cpu
  ∧ controlPlanes * 1700 * 1024 ^ 2 ≤ u Memory.
Proof.
  intros Hs Hcp Hw. destruct (specError_ok isIP s Hs) as [Hf Hc].
  assert (∀ f, f ∈ [ma_flavor (controlPlane s); ma_flavor (worker s)] ++ option_list (lb_flavor (loadBalancer s)) →
    1 ≤ fl_cpu (flavorOf f) ∧ (0 <= fl_memoryGiB (flavorOf f))%Q) as Hpos.
  { intros f [fl Hfl]%Hf. unfold flavorOf. rewrite Hfl. simpl. destruct (parseFlavor_pos f fl Hfl). split; [lia|by apply Qlt_le_weak]. }
  destruct (Hpos (ma_flavor (controlPlane s)) ltac:(set_solver)) as [_ _].
  destruct (Hpos (ma_flavor (worker s)) ltac:(set_solver)) as [Hwc Hwm].
  assert (2 ≤ fl_cpu (flavorOf (ma_flavor (controlPlane s)))) as Hcc.
  { assert (∀ b m, (b, m) ∈ spec_checks isIP s → b = false) as Hc' by (intros b m; apply (Hc (b, m))).
    unfold spec_checks in Hc'. specialize (Hc' _ _ (list_elem_of_here _ _)). apply Z.ltb_ge in Hc'. exact Hc'. }
  assert (inject_Z 1700 <= fl_memoryGiB (flavorOf (ma_flavor (controlPlane s))) * inject_Z 1024)%Q as Hcm.
  { assert (∀ b m, (b, m) ∈ spec_checks isIP s → b = false) as Hc' by (intros b m; apply (Hc (b, m))).
    unfold spec_checks in Hc'. specialize (Hc' _ _ (list_elem_of_further _ _ _ (list_elem_of_here _ _))).
    apply negb_false_iff, Qle_bool_iff in Hc'. exact Hc'. }
  assert (match (if lb then flavorOf <$> lb_flavor (loadBalancer s) else None) with
          | Some l => lb && lbIsInstance (loadBalancer s) = true ∧ 1 ≤ fl_cpu l ∧ (0 <= fl_memoryGiB l)%Q
          | None => lb && lbIsInstance (loadBalancer s) = false end) as Hl.
  { destruct lb, (loadBalancer s) as [kind f ps t| |]; simpl in *; try done. split; [done|]. apply Hpos. set_solver. }
  unfold usageOfSpec.
  destruct (if lb then flavorOf <$> lb_flavor (loadBalancer s) else None) as [l|]; [destruct Hl as (-> & Hlc & Hlm)|rewrite Hl];
    (split; [done|]; split; [done|]; split; [nia|]).
  all: by apply memory_counts.
Qed.

(** A version that may follow is offered, and of the same minor version or the next. *)
Theorem upgrade_within_a_minor from to :
  upgradeError from to = None →
  to ∈ KUBERNETES_VERSIONS ∧ ∀ a b, minorOf from = Some a → minorOf to = Some b → a ≤ b ≤ a + 1.
Proof.
  unfold upgradeError. destruct (includes KUBERNETES_VERSIONS to) eqn:Ht; [|done]. apply includes_spec in Ht. intros Hu.
  split; [done|]. intros a b Ha Hb. simpl in Hu. rewrite Ha, Hb in Hu. repeat case_match; try done. bool_prop. lia.
Qed.

(** Patch releases are compared as text, so one with two digits may be followed by an earlier one. *)
Lemma patch_downgrade_accepted : upgradeError "v1.35.10" "v1.35.5" = None.
Proof. vm_compute. reflexivity. Qed.

Example upgrade_examples :
  upgradeError "v1.34.0" "v1.35.5" = None ∧ upgradeError "v1.36.4" "v1.35.5" = Some "Kubernetes cannot be downgraded (v1.36.4 to v1.35.5)"
  ∧ upgradeError "v1.34.0" "v1.36.4" = Some "Upgrade one minor version at a time: v1.34.0 can go to v1.35 next".
Proof. vm_compute. done. Qed.

Example flavor_examples :
  (λ f, (fl_cpu f, fl_memoryGiB f)) <$> parseFlavor " c2-m1.5 " = Some (2, (15 # 10)%Q)
  ∧ parseFlavor "c2-m1." = None ∧ parseFlavor "c0-m1" = None ∧ parseFlavor "c2m4" = None ∧ parseFlavor "c2-m4x" = None.
Proof. vm_compute. done. Qed.

Lemma upgrade_within_a_minor_witness : "v1.35.5" ∈ KUBERNETES_VERSIONS ∧ ∀ a b, minorOf "v1.34.0" = Some a → minorOf "v1.35.5" = Some b → a ≤ b ≤ a + 1.
Proof. apply (upgrade_within_a_minor "v1.34.0" "v1.35.5"). vm_compute. reflexivity. Defined.

Lemma size_spec_valid_witness : specError (λ _, false) (specFromSize Medium "node-1") = None.
Proof. apply (size_spec_valid (λ _, false) Medium "node-1"). vm_compute. reflexivity. Defined.

Lemma accepted_spec_counts_witness :
  4 + 3 ≤ usageOfSpec (specFromSize Small EmptyString) 3 1 false Cpu.
Proof.
  assert (specError (λ _, false) (specFromSize Small EmptyString) = None) as Hs by (vm_compute; reflexivity).
  apply (accepted_spec_counts (λ _, false) (specFromSize Small EmptyString) 3 1 false Hs ltac:(lia) ltac:(lia)).
Defined.
