(* ===== verification/Services.v ===== *)
(** * Services: what jobs call, and what they read of a cluster

    The calls that jobs on instances make: on clusters ([incus/admin-client.ts]),
    on the database, on object stores and on their own job ([jobs/types.ts]).
    An answer is an exception or a value; what a service answers is the
    oracle's choice. On top of them [mobility/facts.ts] and the helpers that
    [mobility/migrate-job.ts] shares with replication and backups. Reads that
    the code starts together with [Promise.all] are made one after the other. *)

From S2P Require Import Fleet BalancingModel K8sModel Jobs.
From S2P Require Import Prelude JsString Effects Uri Projects Preflight Leases Program.

(** ** Exceptions *)

(** What services fail with. *)
Inductive fault :=
  | Api (e : ApiError)
  | ClusterError (clusterStatus : Z) (message : string)
  | Error (message : string).

(** What the code throws: also the failures that [transfer] sorts by side. *)
Inductive exn :=
  | Fault (f : fault)
  | SourceFailed (reason : string)
  | TargetFailed (reason : string).

Definition exn_message (e : exn) : string :=
  match e with
  | Fault (Api e) => Effects.message e
  | Fault (ClusterError _ m) | Fault (Error m) => m
  | SourceFailed r => "Source: " +++ r
  | TargetFailed r => "Target: " +++ r
  end.
(** The HTTP status of an [ApiError], to which all but plain errors belong. *)
Definition exn_status (e : exn) : option Z :=
  match e with Fault (Api e) => Some (Effects.status e) | Fault (Error _) => None | _ => Some 502%Z end.
Definition is_missing (e : exn) : bool := match e with Fault (ClusterError s _) => Z.eqb s 404 | _ => false end.

Abbreviation answer X := (fault + X)%type.

(** ** What is sent and answered *)

(** An instance, as [GET /1.0/instances/<name>] answers. *)
Record Instance := {
  in_name : string; in_type : Kind; in_status : string; in_architecture : string;
  in_config : config; in_expanded_config : config; in_devices : devices; in_expanded_devices : devices;
  in_profiles : list string;
  in_ephemeral : option bool; in_stateful : option bool; in_description : option string;
}.
Record Server := { sv_extensions : list string; sv_clustered : bool; sv_architectures : option (list string) }.
(** What a rebalance reads of an instance. *)
Record Now := { nw_location : string; nw_status : string; nw_type : string; nw_expanded : config }.
Record OpStatus := { os_status : string; os_err : string; os_metadata : Json }.

(** A port of a network forward, with what Incus adds to it, and a forward. *)
Record Port := {
  pt_description : string; pt_protocol : string; pt_listen_port : string; pt_target_port : string; pt_target_address : string;
  pt_more : config;
}.
Record Forward := { fw_description : string; fw_config : config; fw_ports : list Port }.
(** What is read of the nodes of a Kubernetes cluster: the addresses of each network device. *)
Record Address := { ad_family : string; ad_address : string; ad_scope : string }.
Record NodeInstance := { ni_name : string; ni_location : string; ni_config : config; ni_network : list (string * list Address) }.
Record RunningOp := { ro_id : string; ro_instances : list string }.

(** What a [GET] reads. *)
Inductive doc : Type → Type :=
  | DInstance : doc Instance
  | DServer : doc Server
  | DProject : doc config          (** a project's configuration *)
  | DMembers : doc (list string)   (** the members' architectures *)
  | DNames : doc (list string)     (** URLs *)
  | DDevices : doc devices         (** a profile's devices *)
  | DStatus : doc OpStatus
  | DNow : doc Now
  | DUsage : doc (gmap string Z)   (** a project's state: the usage of each resource *)
  | DCluster : doc (bool * string) (** [server_clustered] and [server_name] *)
  | DInstances : doc (list Fleet.IncusInstance)
  | DPools : doc (list Fleet.IncusPool)
  | DNetworks : doc (list Fleet.IncusNetwork)
  | DMemberList : doc (list Fleet.IncusMember)
  | DResources : doc Fleet.IncusResources
  | DMemberState : doc Fleet.IncusMemberState
  | DPoolSpace : doc (option Z * option Z)
  | DForward : doc Forward
  | DNodes : doc (list NodeInstance)
  | DRunning : doc (list RunningOp).

Abbreviation Secrets := (list (string * string)).

Inductive body :=
  | NoBody
  | StateBody (action : string) (force : bool)
  | InstanceBody (architecture : string) (cfg : config) (devs : devices) (profiles : list string)
      (ephemeral stateful : bool) (description : string)
  | ConfigBody (cfg : config)
  | ProjectBody (name : string) (cfg : config)
  | MigrateBody (live instance_only : bool) (target : option (string * string * Secrets))  (** operation, certificate, secrets *)
  | CreateBody (request : TargetRequest) (refresh live instance_only : bool)
  | BackupBody (name : option string) (instance_only : bool) (s3_path : option string)
  | MoveBody (name : string) (migration live : bool)
  | MemberBody (action : string) (mode : option string)
  | LaunchBody (name type alias server : string) (cfg : config) (devs : devices) (start : bool)
  | ForwardBody (listen_address description : string) (ports : list Port)
  | ForwardChange (description : string) (cfg : config) (ports : list Port)
  | CertificateBody (name certificate : string) (restricted : bool) (projects : list string).

(** The envelope: the operation of an asynchronous answer, its id and its secrets. *)
Record Response := { rs_async : bool; rs_operation : option string; rs_id : string; rs_secrets : option Secrets }.

Record Cluster := { cl_id : string; cl_name : string; cl_url : string; cl_serverCert : string }.

Inductive Transport := Direct | Relay.

(** ** Rows *)

Record Policy := {
  po_id : string; po_tenantId : option string;
  po_sourceClusterId : string; po_sourceProject : string; po_instanceName : string;
  po_targetClusterId : string; po_targetProject : string; po_targetName : string;
  po_active : bool;  (** [state] is active, rather than failed-over *)
}.
Inductive PolicyChange :=
  | Replicated
  | PolicyFailed (lastError : string)
  | FailedOver
  | PolicyQueued (jobId : string).

Record BackupTarget := { bt_id : string; bt_name : string; bt_endpoint : string; bt_region : string; bt_prefix : string; bt_enabled : bool }.
Inductive BackupState := Creating | Ready | Failed.
Record Backup := {
  ba_id : string; ba_policyId : option string; ba_objectKey : string; ba_state : BackupState;
  ba_createdAt : Z; ba_target : BackupTarget;
}.
Record NewBackup := {
  nb_id : string; nb_tenantId : option string; nb_policyId : option string; nb_targetId : string; nb_objectKey : string;
  nb_clusterId : string; nb_project : string; nb_instanceName : string; nb_instanceType : Kind; nb_instanceOnly : bool;
  nb_jobId : string; nb_createdBy : string;
}.
Record BackupPolicy := {
  bp_id : string; bp_tenantId : option string; bp_clusterId : string; bp_project : string; bp_instanceName : string;
  bp_targetId : string; bp_keep : nat; bp_instanceOnly : bool;
}.
Inductive BackupPolicyChange :=
  | BackedUp (warnings : string)
  | BackupFailed (lastError : string)
  | BackupQueued (jobId : string).

(** What a run leaves on a balancing policy; [BalanceEnded] is a success, with the moves that failed. *)
Inductive BalancingChange :=
  | BalanceEnded (jobId lastError : string)
  | BalanceFailed (jobId lastError : string)
  | BalanceQueued (jobId : string).

Inductive K8sStatus := K8sCreating | K8sProvisioning | K8sReady | K8sDegraded | K8sDeleting | K8sError.
Global Instance K8sStatus_eq_dec : EqDecision K8sStatus.
Proof. solve_decision. Defined.
Record K8sRow := {
  kr_id : string; kr_tenantId : string; kr_clusterId : string; kr_name : string; kr_namespace : string; kr_version : string;
  kr_controlPlanes : Z; kr_workers : Z; kr_spec : K8sSpec; kr_endpointHost : string; kr_endpointPort : Z; kr_lbMember : string;
  kr_status : K8sStatus;
}.
Inductive K8sChange :=
  | K8sSet (s : K8sStatus) (message : option string)  (** [None]: the message stays *)
  | K8sFailed (message : string)                      (** unless the row is being deleted *)
  | K8sSeen (s : option (K8sStatus * string)) (nodes nodesReady : nat).
Record K8sTenant := { kt_id : string; kt_slug : string }.
Record Placement := { pl_project : string; pl_status : string; pl_message : string }.

(** ** The management cluster and the workload clusters *)

Record Condition := { cd_type : string; cd_status : string; cd_message : option string }.
(** What is read of an object: its conditions, and [data.value] of a secret, decoded. *)
Record KubeSeen := { ks_conditions : list Condition; ks_value : option string }.
Record KubeObject := { ko_apiVersion : string; ko_kind : string; ko_namespace : option string; ko_name : string; ko_rest : list (string * Json) }.

Inductive kube_op : Type → Type :=
  | KApply (o : KubeObject) : kube_op unit
  | KGet (apiVersion kind : string) (namespace : option string) (name : string) : kube_op (option KubeSeen)
  | KList (apiVersion kind : string) (namespace : option string) (selector : string) : kube_op (list KubeSeen)
  | KDelete (apiVersion kind : string) (namespace : option string) (name : string) : kube_op bool.
Inductive KubeAt := Management | Workload (kubeconfig : string).

(** ** Calls *)

(** Statements on the database. *)
Inductive query : Type → Type :=
  | LeaseOf (k : InstanceKey) : query (option Lease)
  | PutLease (k : InstanceKey) (l : Lease) : query unit
  | CarryOwner (from to : InstanceKey) (move : bool) : query unit
  | RecordOwner (k : InstanceKey) (subject : string) : query unit
  | RefreshInventory (ids : list string) : query unit
  | PolicyById (id : string) : query (option Policy)
  | DuePolicies : query (list Policy)
  | SetPolicy (id : string) (c : PolicyChange) : query unit
  | Enqueue (j : Jobs.NewJob) : query string
  | TargetById (id : string) : query (option BackupTarget)
  | NeedBackupQuota (tenantId : string) : query unit
  | NeedUserQuota (tenantId userId : string) : query unit
  | InsertBackup (b : NewBackup) : query unit
  | BackupReady (id : string) (size : option Z) (t : Transport) : query unit
  | BackupFail (id : string) (error : string) : query unit
  | BackupById (id : string) : query (option Backup)
  | AllBackups : query (list Backup)
  | DeleteBackup (id : string) : query unit
  | BackupPolicyById (id : string) : query (option BackupPolicy)
  | SetBackupPolicy (id : string) (c : BackupPolicyChange) : query unit
  | DueBackups : query (list BackupPolicy)
  | BalancingPolicyOf (c : string) : query (option BalancingModel.Policy)
  | CpuRates (c : string) : query (list (string * string * option Qcanon.Qc))
  | SetBalancing (c : string) (ch : BalancingChange) : query unit
  | DueBalancing : query (list string)  (** the clusters *)
  | SetUsage (tenantId c : string) (u : Quota.Usage) : query unit
  | ReconcileTenant (tenantId : string) : query unit
  | K8sById (id : string) : query (option K8sRow)
  | K8sTenantById (id : string) : query (option K8sTenant)
  | PlacementOf (tenantId c : string) : query (option Placement)
  | SetK8s (id : string) (ch : K8sChange) : query unit
  | RunningCreates (id : string) : query nat     (** the create jobs of a cluster that have not ended *)
  | DeleteK8s (id : string) : query unit         (** with the permission entries on it *)
  | K8sOfTenant (tenantId : string) : query nat
  | K8sToSync : query (list (K8sRow * string))   (** with the project of the placement *)
  | CredentialOf (tenantId c : string) : query (option string)  (** the fingerprint *)
  | InsertCredential (tenantId c fingerprint : string) : query unit
  | DeleteCredential (tenantId c : string) : query unit
  | OtherK8s (tenantId c except : string) : query nat
  | LockCredentials (tenantId c : string) : query unit  (** begins a transaction that holds the lock *)
  | Commit : query unit
  | Rollback : query unit.

(** Operations on the store of a backup target. *)
Inductive store_op : Type → Type :=
  | SPut (key : string) : store_op Z  (** the stream last opened; the size *)
  | SGet (key : string) : store_op unit
  | SDelete (key : string) : store_op unit
  | SStat (key : string) : store_op (option Z).

Inductive call : Type → Type :=
  | Request (c : string) (method path : string) (b : body) : call (answer Response)
  | Get {X : Type} (d : doc X) (c path : string) : call (answer X)
  | Cancel (c op : string) : call (answer unit)  (** [cancel]: an operation already gone is fine *)
  | Websocket (c path : string) : call (answer unit)
  | Pipe (name : string) : call unit  (** the two sockets opened last are joined *)
  | CloseSockets : call unit
  | Download (c method path : string) : call (answer unit)
  | Upload (c path name : string) (pool : option string) : call (answer Response)
  | Aborted : call (option fault)  (** [signal.aborted], with the reason *)
  | Progress (stage : string) (message : option string) : call (answer unit)
  | ClientFor (c : string) : call (answer (string * string * string))  (** the row's URL, certificate and name *)
  | Db {X : Type} (q : query X) : call (answer X)
  | Store {X : Type} (t : BackupTarget) (o : store_op X) : call (answer X)
  | RandomUUID : call string
  | IsoNow : call string  (** [new Date().toISOString()] *)
  | Late : call bool  (** [Date.now() > end] *)
  | Sleep : call (answer unit)  (** cut short by the job's signal *)
  | NewCertificate (name : string) : call (string * string * string)  (** certificate, key and fingerprint *)
  | Kube {X : Type} (w : KubeAt) (o : kube_op X) : call (answer X).

Abbreviation P := (prog exn call).
Abbreviation ev := (event call).

Definition attempt {X} (c : call (answer X)) : P X := try_call Fault c.
Definition raise {A} (st : Z) (c m : string) : P A := Raise (Fault (Api {| Effects.status := st; Effects.code := c; Effects.message := m |})).
Definition clientFor (c : string) : P Cluster :=
  row ← attempt (ClientFor c);
  Ret {| cl_id := c; cl_name := row.2; cl_url := row.1.1; cl_serverCert := row.1.2 |}.
Definition progress (stage : string) : P unit := attempt (Progress stage None).

(** [if (signal.aborted) throw signal.reason] *)
Definition stop_if_aborted : P unit := ask Aborted ≫= λ a, match a with Some f => Raise (Fault f) | None => Ret tt end.

Record Job := { job_id : string; job_tenantId : option string; job_actorType : string; job_actorId : string }.

(** ** Reading a cluster ([facts.ts]) *)

Definition q (project : string) : string := "project=" +++ encodeURIComponent project.
Definition instancePath (project name sub : string) : string :=
  "/1.0/instances/" +++ encodeURIComponent name +++ sub +++ "?project=" +++ encodeURIComponent project.

(** The name at the end of each URL. *)
Definition url_name (u : string) : option string :=
  decodeURIComponent (List.last (split_on "/" (default EmptyString (head (split_on "?" u)))) EmptyString).
Definition names (urls : list string) : P (list string) :=
  match mapM url_name urls with Some l => Ret l | None => Raise (Fault (Error "URI malformed")) end.

Definition readInstance (c project name : string) : P (option Instance) :=
  try_catch (i ← attempt (Get DInstance c (instancePath project name EmptyString)); Ret (Some i))
    (λ e, if is_missing e then Ret None else Raise e).

Definition or_empty {A} (d : A) (p : P A) : P A := try_catch p (λ _, Ret d).

Definition source_of (server : Server) (i : Instance) (snaps : list string) : SourceInstance :=
  {| s_name := in_name i; s_type := in_type i; s_status := in_status i; s_architecture := in_architecture i;
     s_config := in_config i; s_expandedConfig := Some (in_expanded_config i); s_devices := in_devices i;
     s_profiles := in_profiles i; s_expandedDevices := in_expanded_devices i;
     s_snapshots := Z.of_nat (length snaps); s_apiExtensions := sv_extensions server |}.

Definition sourceFacts (c project name : string) : P SourceInstance :=
  server ← attempt (Get DServer c "/1.0");
  inst ← readInstance c project name;
  snaps ← or_empty [] (attempt (Get DNames c (instancePath project name "/snapshots")));
  match inst with
  | None => Raise (Fault (ClusterError 404 ("Source: instance " +++ project +++ "/" +++ name +++ " not found")))
  | Some i => Ret (source_of server i snaps)
  end.

Definition drops_boot_state (cfg : config) : bool :=
  bool_decide (cfg !! "restricted" = Some "true") && negb (bool_decide (cfg !! "restricted.virtual-machines.lowlevel" = Some "allow")).

Definition targetFacts (c project : string) : P TargetFacts :=
  let path := "/1.0/projects/" +++ encodeURIComponent project in
  server ← attempt (Get DServer c "/1.0");
  exists_ ← try_catch (_ ← attempt (Get DProject c path); Ret true) (λ e, if is_missing e then Ret false else Raise e);
  members ← (if sv_clustered server then or_empty [] (attempt (Get DMembers c "/1.0/cluster/members?recursion=1")) else Ret []);
  let architectures := set_of (default [] (sv_architectures server) ++ members) in
  pool_urls ← attempt (Get DNames c "/1.0/storage-pools");
  pools ← names pool_urls;
  if negb exists_ then
    Ret {| t_projectExists := false; t_architectures := architectures; t_pools := pools; t_networks := []; t_profiles := [];
           t_instanceNames := []; t_defaultProfileDevices := []; t_apiExtensions := sv_extensions server; t_dropsBootState := false |}
  else
    row ← attempt (Get DProject c path);
    networks ← attempt (Get DNames c ("/1.0/networks?" +++ q project));
    profiles ← attempt (Get DNames c ("/1.0/profiles?" +++ q project));
    instances ← attempt (Get DNames c ("/1.0/instances?" +++ q project));
    devs ← or_empty [] (attempt (Get DDevices c ("/1.0/profiles/default?" +++ q project)));
    ns ← names networks; ps ← names profiles; is_ ← names instances;
    Ret {| t_projectExists := true; t_architectures := architectures; t_pools := pools; t_networks := ns; t_profiles := ps;
           t_instanceNames := is_; t_defaultProfileDevices := devs; t_apiExtensions := sv_extensions server;
           t_dropsBootState := drops_boot_state row |}.

(** ** Acting on a cluster *)

Definition op_path (op : string) : string := if starts_with "/" op then op else "/1.0/operations/" +++ op.

(** [client.wait] *)
Definition wait (c op : string) : P unit :=
  s ← attempt (Get DStatus c (op_path op +++ "/wait?timeout=600"));
  if bool_decide (os_status s = "Success") then Ret tt
  else raise 502 "operation_failed" ("Cluster operation " +++ os_status s +++ ": " +++ os_err s).

Definition incusDo (c method path : string) (b : body) : P unit :=
  r ← attempt (Request c method path b);
  match rs_operation r with
  | Some op => if rs_async r && truthy_str op then wait c op else Ret tt
  | None => Ret tt
  end.

Inductive Action := Start | Stop.
Definition show_action (a : Action) : string := match a with Start => "start" | Stop => "stop" end.
Definition already (a : Action) : string :=
  "The instance is already " +++ match a with Stop => "stopped" | Start => "running" end.

Definition setState (c project name : string) (a : Action) : P unit :=
  try_catch
    (incusDo c "PUT" (instancePath project name "/state") (StateBody (show_action a) match a with Stop => true | Start => false end))
    (λ e, if str_contains (already a) (exn_message e) then Ret tt else Raise e).

Definition TAG_JOB : string := "user.incuscloud.job".
Definition TAG_MIGRATED_FROM : string := "user.incuscloud.migrated-from".

Definition refreshInventory (ids : list string) : P unit := attempt (Db (RefreshInventory ids)).

Definition with_config (r : TargetRequest) (cfg : config) : TargetRequest :=
  {| rq_name := rq_name r; rq_type := rq_type r; rq_architecture := rq_architecture r; rq_config := cfg;
     rq_devices := rq_devices r; rq_profiles := rq_profiles r |}.

(** ** What helpers call *)

Definition is_get (e : ev) : Prop := match e with Ev (Get _ _ _) _ => True | _ => False end.
(** A request on one path of one cluster. *)
Definition sends (c method path : string) (b : body) (e : ev) : Prop :=
  match e with Ev (Request c' m p b') _ => c' = c ∧ m = method ∧ p = path ∧ b' = b | _ => False end.

Lemma emits_attempt (F : ev → Prop) {X} (c : call (answer X)) : (∀ x, F (Ev c x)) → emits F (attempt c).
Proof. apply emits_try_call. Qed.
#[export] Hint Resolve emits_attempt : prog.

(** The calls of a program, one construct at a time. *)
Ltac emits_step :=
  match goal with
  | |- emits _ (Ret _) => exact I
  | |- emits _ (Raise _) => exact I
  | |- emits _ Spin => exact I
  | |- emits _ (raise _ _ _) => exact I
  | |- emits _ (mbind _ _) => apply emits_bind; [|intros ?]
  | |- emits _ (try_catch _ _) => apply emits_try; [|intros ?]
  | |- emits _ (try_finally _ _) => apply emits_finally
  | |- emits _ (quietly _) => apply emits_quietly
  | |- emits _ (catch_with _ _) => apply emits_catch_with; [|intros ? ?]
  | |- emits _ (leaving _ _) => apply emits_leaving
  | |- emits _ (each _ _) => apply emits_each; intros ?
  | |- emits _ (attempt _) => apply emits_attempt; intros ?
  | |- emits _ (ask _) => apply emits_ask; intros ?
  | |- emits _ (match ?x with _ => _ end) => destruct x
  end.
Ltac emits_all := repeat emits_step.

Lemma readInstance_emits c pr n : emits is_get (readInstance c pr n).
Proof. unfold readInstance. emits_all; exact I. Qed.
Lemma names_emits F l : emits F (names l).
Proof. unfold names. emits_all. Qed.
Lemma or_empty_emits F {A} (d : A) p : emits F p → emits F (or_empty d p).
Proof. intros. unfold or_empty. by emits_all. Qed.
Lemma sourceFacts_emits c pr n : emits is_get (sourceFacts c pr n).
Proof. unfold sourceFacts, or_empty, readInstance. emits_all; exact I. Qed.
Lemma targetFacts_emits c pr : emits is_get (targetFacts c pr).
Proof. unfold targetFacts, or_empty, names. emits_all; exact I. Qed.
Lemma incusDo_emits c m p b : emits (λ e, is_get e ∨ sends c m p b e) (incusDo c m p b).
Proof. unfold incusDo, wait, raise. emits_all; simpl; auto. Qed.
Lemma setState_emits c pr n a :
  emits (λ e, is_get e ∨ sends c "PUT" (instancePath pr n "/state") (StateBody (show_action a) match a with Stop => true | Start => false end) e)
    (setState c pr n a).
Proof. unfold setState. emits_all. apply incusDo_emits. Qed.

Lemma wp_attempt {X} (c : call (answer X)) (Q : outcome exn X → list ev → Prop) tr :
  (∀ f, Q (Raised (Fault f)) (tr ++ [Ev c (inl f)])) → (∀ v, Q (Returned v) (tr ++ [Ev c (inr v)])) → wp (attempt c) Q tr.
Proof. intros Hf Hv [f|v]; [apply Hf|apply Hv]. Qed.

Lemma wp_stop_if_aborted (Q : outcome exn unit → list ev → Prop) tr :
  (∀ f, Q (Raised (Fault f)) (tr ++ [Ev Aborted (Some f)])) → Q (Returned tt) (tr ++ [Ev Aborted None]) → wp stop_if_aborted Q tr.
Proof. intros Hf Hn [f|]; [apply Hf|apply Hn]. Qed.

(** A request comes first; one that returns was accepted. *)
Lemma wp_incusDo c m path b tr :
  wp (incusDo c m path b) (λ r tr', ∃ x evs, tr' = tr ++ Ev (Request c m path b) x :: evs ∧ ∀ u, r = Returned u → ∃ v, x = inr v) tr.
Proof.
  apply wp_bind, wp_attempt; [intros f; by exists (inl f), []|]. intros v.
  apply (wp_emits_weaken (λ _, True)); [apply emits_any|]. intros r evs _. exists (inr v), evs.
  rewrite <- (assoc_L (++)). split; [done|]. eauto.
Qed.
Lemma wp_setState c pr n a tr :
  wp (setState c pr n a) (λ r tr', ∃ x evs, tr' = tr ++ Ev (Request c "PUT" (instancePath pr n "/state")
    (StateBody (show_action a) match a with Stop => true | Start => false end)) x :: evs) tr.
Proof.
  apply wp_try, (wp_mono _ _ _ _ (wp_incusDo _ _ _ _ tr)). intros [u|e|] tr' (x & evs & -> & _); [by exists x, evs| |by exists x, evs].
  destruct (str_contains _ _); by exists x, evs.
Qed.

Lemma finite_attempt {X} (c : call (answer X)) : finite (attempt c).
Proof. apply finite_try_call. Qed.

Ltac finite_step :=
  match goal with
  | |- finite (Ret _) => exact I
  | |- finite (Raise _) => exact I
  | |- finite (raise _ _ _) => exact I
  | |- finite (mbind _ _) => apply finite_bind; [|intros ?]
  | |- finite (try_catch _ _) => apply finite_try; [|intros ?]
  | |- finite (quietly _) => apply finite_try; [|intros ?]
  | |- finite (each _ _) => apply finite_each; intros ?
  | |- finite (attempt _) => apply finite_attempt
  | |- finite (ask _) => apply finite_ask
  | |- finite (match ?x with _ => _ end) => destruct x
  end.
Ltac finite_all := repeat finite_step.

Lemma readInstance_finite c pr n : finite (readInstance c pr n).
Proof. unfold readInstance. finite_all. Qed.
Lemma incusDo_finite c m p b : finite (incusDo c m p b).
Proof. unfold incusDo, wait. finite_all. Qed.
Lemma setState_finite c pr n a : finite (setState c pr n a).
Proof. unfold setState. finite_all. apply incusDo_finite. Qed.

(** ** Schedulers

    What the schedulers of replication, backups and balancing share: each reads
    what is due and asks for a job of each row, and a job that is refused
    because its instance is busy (409) is left for another pass. *)

Definition enqueued (e : ev) : option Jobs.NewJob := match e with Ev (Db (Enqueue j)) _ => Some j | _ => None end.

Section scheduling.
Context {A : Type} (due : query (list A)) (job_of : A → Jobs.NewJob) (mark : A → string → query unit).

Definition schedule_one (x : A) : P unit :=
  try_catch
    (job ← attempt (Db (Enqueue (job_of x)));
     attempt (Db (mark x job)))
    (λ e, if bool_decide (exn_status e = Some 409%Z) then Ret tt else Raise e).
Definition schedule_pass : P unit := l ← attempt (Db due); each schedule_one l.

(** A pass that returns has asked for exactly one job of every row that is due, in order. *)
Definition asks_once (pass : P unit) : Prop :=
  ∀ orc u, (run orc pass []).1 = Returned u →
    ∃ (l : list A) rest, (run orc pass []).2 = Ev (Db due) (inr l) :: rest ∧ omap enqueued rest = job_of <$> l.

Context (Hmark : ∀ x job a, enqueued (Ev (Db (mark x job)) a) = None).

Lemma wp_schedule_one x tr :
  wp (schedule_one x) (λ _ tr', ∃ evs, tr' = tr ++ evs ∧ omap enqueued evs = [job_of x]) tr.
Proof.
  unfold schedule_one. apply wp_try, wp_bind, wp_attempt.
  - intros f. destruct (bool_decide _); eexists [_]; by split.
  - assert (∀ v a, omap enqueued [Ev (Db (Enqueue (job_of x))) (inr v); Ev (Db (mark x v)) a] = [job_of x]) as Hone.
    { intros v a. pose proof (Hmark x v a) as Hm. simpl in *. by rewrite Hm. }
    intros v. apply wp_attempt; [intros f; destruct (bool_decide _)|intros u]; rewrite <- (assoc_L (++)); by eexists [_; _].
Qed.

Lemma schedule_pass_asks_once : asks_once schedule_pass.
Proof.
  assert (∀ l tr, wp (each schedule_one l) (λ r tr', ∀ u, r = Returned u → ∃ evs, tr' = tr ++ evs ∧ omap enqueued evs = job_of <$> l) tr) as Heach.
  { induction l as [|x l IH]; intros tr; [intros v _; exists []; by rewrite app_nil_r|]. cbn [each].
    apply wp_bind, (wp_mono _ _ _ _ (wp_schedule_one x tr)). intros [v|e|] tr' (evs & -> & Henq); [|done..].
    eapply wp_mono; [apply IH|]. intros r tr' Hr v' Hv. destruct (Hr v' Hv) as (evs' & -> & Hevs).
    exists (evs ++ evs'). rewrite (assoc_L (++)). split; [done|]. by rewrite omap_app, Henq, Hevs. }
  intros orc u Hr. refine (wp_run _ (λ r tr, ∀ u, r = Returned u → ∃ (l : list A) rest, tr = Ev (Db due) (inr l) :: rest
                                               ∧ omap enqueued rest = job_of <$> l) orc [] _ u Hr).
  unfold schedule_pass. apply wp_bind, wp_attempt; [done|]. intros l. eapply wp_mono; [apply Heach|].
  intros r tr' Hd v Hv. destruct (Hd v Hv) as (evs & -> & Henq). by exists l, evs.
Qed.
End scheduling.

(** ** Paths tell instances apart *)

Lemma encode_plain c s : unreserved c = false → c ≠ "%"%char → (∀ n, (0 <= n < 16)%Z → char_is (hex_digit n) c = false) →
  has_char c (encodeURIComponent s) = false.
Proof.
  intros Hu Hp Hd. induction s as [|a s IH]; [done|]. simpl. pose proof (code_bounds a).
  destruct (unreserved a) eqn:Ea; simpl.
  - rewrite IH, orb_false_r. apply bool_decide_eq_false. congruence.
  - rewrite IH, !Hd, !orb_false_r; [apply bool_decide_eq_false; congruence|..].
    + apply Z.mod_pos_bound. lia.
    + split; [apply Z.div_pos; lia|apply Z.div_lt_upper_bound; lia].
Qed.

Lemma encode_query s : has_char "?" (encodeURIComponent s) = false.
Proof.
  apply encode_plain; [reflexivity|done|]. intros n Hn.
  assert (n ∈ seqZ 0 16) as Hin by (apply elem_of_seqZ; lia).
  assert (every (λ n, negb (char_is (hex_digit n) "?")) (seqZ 0 16) = true) as Hall by (by vm_compute).
  apply (proj1 (every_spec _ _) Hall) in Hin. by apply negb_true_iff.
Qed.

Lemma encode_inj a b : utf8 a = true → utf8 b = true → encodeURIComponent a = encodeURIComponent b → a = b.
Proof. intros Ha%decode_encode Hb%decode_encode He. rewrite He in Ha. congruence. Qed.

Lemma append_char_inj c a b a' b' : has_char c a = false → has_char c a' = false →
  a +++ String c b = a' +++ String c b' → a = a' ∧ b = b'.
Proof.
  revert a'. induction a as [|x a IH]; intros [|x' a'] Ha Ha' He; simpl in *; simplify_eq; [done|..].
  - unfold char_is in Ha'. by rewrite bool_decide_true in Ha'.
  - unfold char_is in Ha. by rewrite bool_decide_true in Ha.
  - apply orb_false_elim in Ha as [_ Ha], Ha' as [_ Ha']. edestruct IH as [-> ->]; eauto.
Qed.

Lemma instancePath_inj pr n pr' n' sub :
  utf8 n = true → utf8 n' = true → utf8 pr = true → utf8 pr' = true → has_char "?" sub = false →
  instancePath pr n sub = instancePath pr' n' sub → pr = pr' ∧ n = n'.
Proof.
  intros Hn Hn' Hp Hp' Hs He. unfold instancePath in He. apply append_inj_l in He. rewrite <-!append_assoc in He.
  rewrite (append_assoc _ "?project=" (encodeURIComponent pr)), (append_assoc _ "?project=" (encodeURIComponent pr')) in He.
  apply append_char_inj in He as [H1 H2]; [|rewrite has_char_append, Hs, encode_query; done..].
  apply append_inj_r in H1. apply (append_inj_l "project=") in H2. split; by apply encode_inj.
Qed.

(** ** Answers for examples

    Every service fails, nothing is cancelled and time does not pass: examples
    answer some calls and leave the others to this. *)
Definition unavailable {X} (c : call X) : X :=
  match c with
  | Request _ _ _ _ | Get _ _ _ | Cancel _ _ | Websocket _ _ | Download _ _ _ | Upload _ _ _ _ | Progress _ _
  | ClientFor _ | Db _ | Store _ _ | Sleep | Kube _ _ => inl (Error "unavailable")
  | Pipe _ | CloseSockets => tt
  | Aborted => None
  | RandomUUID => "00000000"
  | IsoNow => "2026-01-01T00:00:00.000Z"
  | Late => false
  | NewCertificate n => (n, "key", "fingerprint")
  end.
