(* ===== verification/Transfer.v ===== *)
(** * Transfer: the data of an instance, from one cluster to another

    Models [mobility/transfer.ts]: the source connects to the target, or the
    control plane relays the sockets of the two operations. The loop that waits
    for the target has fuel: [n] polls. Carrying the messages of a socket
    ([forward], [pipe]) is I/O and is one call here. *)

From S2P Require Import Prelude JsString Effects Uri Rewrite Preflight Program Services.

Inductive TransportChoice := Auto | OnlyDirect | OnlyRelay.
Global Instance TransportChoice_eq_dec : EqDecision TransportChoice.
Proof. solve_decision. Defined.

(** The signal and the job whose progress is reported are those of the run;
    [to_stage] is the stage that progress is reported under. *)
Record TransferOptions := {
  to_src : Cluster; to_dst : Cluster; to_srcProject : string; to_dstProject : string; to_name : string;
  to_request : TargetRequest; to_refresh : bool; to_live : bool; to_instanceOnly : bool; to_targetCert : string;
  to_transport : TransportChoice; to_stage : string;
}.


Definition UNREACHABLE (reason : string) : bool :=
  some (λ pat, str_contains pat (toLowerCase reason))
    ["unable to connect"; "dial tcp"; "connection refused"; "no route to host"; "i/o timeout"; "network is unreachable";
     "context deadline exceeded"].

(** [x || y] on strings. *)
Definition str_or (x y : string) : string := if truthy_str x then x else y.

(** Percent and speed are strings, as their type says. *)
Definition progressText (meta : Json) : option string :=
  match meta with
  | JObj m =>
      let field k := match Rewrite.get_key "progress" m with
                     | Some (JObj p) => match Rewrite.get_key k p with Some (JStr s) => if truthy_str s then Some s else None | _ => None end
                     | _ => None
                     end in
      match field "percent" with
      | Some percent => Some (percent +++ "%" +++ match field "speed" with Some s => " (" +++ s +++ ")" | None => EmptyString end)
      | None => head (omap (λ kv, if ends_with "progress" kv.1 then match kv.2 with JStr v => Some v | _ => None end else None) m)
      end
  | _ => None
  end.

Record Op := { op_id : string; op_route : string; op_secrets : Secrets }.
Definition opOf (r : Response) : Op :=
  {| op_id := rs_id r; op_route := default ("/1.0/operations/" +++ rs_id r) (rs_operation r); op_secrets := default [] (rs_secrets r) |}.

Definition is_source_failed (e : exn) : bool := match e with SourceFailed _ => true | _ => false end.
Definition is_target_failed (e : exn) : bool := match e with TargetFailed _ => true | _ => false end.

(** The URL a client was made with, less a slash at its end. *)
Definition client_url (c : Cluster) : string :=
  if ends_with "/" (cl_url c) then str_take (String.length (cl_url c) - 1) (cl_url c) else cl_url c.

Definition unfinished (s : OpStatus) : bool :=
  negb (bool_decide (os_status s = "Success") || bool_decide (os_status s = "Failure") || bool_decide (os_status s = "Cancelled")).
Definition ended_badly (s : OpStatus) : bool := bool_decide (os_status s = "Failure") || bool_decide (os_status s = "Cancelled").

Section transfer.
Context (fuel : nat) (o : TransferOptions).
Abbreviation src := (cl_id (to_src o)).
Abbreviation dst := (cl_id (to_dst o)).

Definition source_path : string := instancePath (to_srcProject o) (to_name o) EmptyString.
Definition create_path : string := "/1.0/instances?project=" +++ encodeURIComponent (to_dstProject o).
Definition wait_path (op : Op) : string := op_route op +++ "/wait?timeout=2".

Definition onProgress (text : string) : P unit := attempt (Progress (to_stage o) (Some text)).

Definition startSource (target : option (string * string * Secrets)) : P Op :=
  try_catch (r ← attempt (Request src "POST" source_path (MigrateBody (to_live o) (to_instanceOnly o) target)); Ret (opOf r))
    (λ e, Raise (SourceFailed (exn_message e))).

Definition startTarget : P Op :=
  try_catch
    (r ← attempt (Request dst "POST" create_path (CreateBody (to_request o) (to_refresh o) (to_live o) (to_instanceOnly o)));
     Ret (opOf r))
    (λ e, Raise (TargetFailed (exn_message e))).

Definition check_source (s : Op) : P unit :=
  st ← attempt (Get DStatus src (op_route s));
  if ended_badly st then Raise (SourceFailed (str_or (os_err st) (os_status st))) else Ret tt.

Fixpoint waitTarget (n : nat) (d : Op) (s : option Op) : P unit :=
  match n with
  | O => Spin
  | S n =>
      _ ← stop_if_aborted;
      _ ← match s with Some s => check_source s | None => Ret tt end;
      st ← attempt (Get DStatus dst (wait_path d));
      if bool_decide (os_status st = "Success") then Ret tt
      else if ended_badly st then Raise (TargetFailed (str_or (os_err st) (os_status st)))
      else
        _ ← match progressText (os_metadata st) with
            | Some text => if truthy_str text then onProgress text else Ret tt
            | None => Ret tt
            end;
        waitTarget n d s
  end.

Definition cancel_source (s : Op) : P unit := quietly (attempt (Cancel src (op_route s))).
(** A target that failed has nothing left to cancel. *)
Definition cancel_target (e : exn) (d : Op) : P unit :=
  if is_target_failed e then Ret tt else quietly (attempt (Cancel dst (op_route d))).

Definition direct : P unit :=
  d ← startTarget;
  catch_with
    (s ← leaving None (startSource (Some (client_url (to_dst o) +++ "/1.0/operations/" +++ op_id d, to_targetCert o, op_secrets d)));
     leaving (Some s) (waitTarget fuel d (Some s)))
    (λ e s,
      _ ← match s with Some s => if is_source_failed e then Ret tt else cancel_source s | None => Ret tt end;
      _ ← cancel_target e d;
      Raise e).

Definition socket_names (s d : Secrets) : list string :=
  js_filter (λ n, truthy_opt_str (map_get s n) && truthy_opt_str (map_get d n))
    ("control" :: js_filter (λ n, negb (bool_decide (n = "control"))) s.*1).
Definition socket_path (op : Op) (n : string) : string :=
  "/1.0/operations/" +++ op_id op +++ "/websocket?secret=" +++ encodeURIComponent (default EmptyString (map_get (op_secrets op) n)).
Definition join_sockets (s d : Op) (n : string) : P unit :=
  _ ← attempt (Websocket src (socket_path s n));
  _ ← attempt (Websocket dst (socket_path d n));
  ask (Pipe n).

Definition relay : P unit :=
  s ← startSource None;
  d ← try_catch startTarget (λ e, _ ← cancel_source s; Raise e);
  try_finally
    (try_catch
      (_ ← each (join_sockets s d) (socket_names (op_secrets s) (op_secrets d));
       waitTarget fuel d None)
      (λ e, _ ← cancel_source s; _ ← cancel_target e d; Raise e))
    (ask CloseSockets).

Definition falls_back (e : exn) : bool := match e with SourceFailed r => UNREACHABLE r | _ => false end.

Definition transfer : P Transport :=
  if bool_decide (to_transport o = OnlyRelay) then _ ← relay; Ret Relay
  else
    try_catch (_ ← direct; Ret Direct)
      (λ e,
        if bool_decide (to_transport o = Auto) then
          aborted ← ask Aborted;
          if negb (bool_decide (is_Some aborted)) && falls_back e then
            _ ← onProgress "The source cannot reach the target; relaying through the control plane";
            _ ← relay;
            Ret Relay
          else Raise e
        else Raise e).
End transfer.

(** ** What a transfer promises *)

(** The target's operation ended well. *)
Definition completes (o : TransferOptions) (e : ev) : Prop :=
  match e with
  | Ev (Get DStatus c _) (inr st) => c = cl_id (to_dst o) ∧ os_status st = "Success"
  | _ => False
  end.

(** A transfer creates the target, starts the source, and otherwise looks, cancels and reports. *)
Definition migration_call (o : TransferOptions) (e : ev) : Prop :=
  match e with
  | Ev (Request c m p b) _ =>
      m = "POST"
      ∧ ((c = cl_id (to_src o) ∧ p = source_path o ∧ ∃ t, b = MigrateBody (to_live o) (to_instanceOnly o) t)
         ∨ (c = cl_id (to_dst o) ∧ p = create_path o ∧ b = CreateBody (to_request o) (to_refresh o) (to_live o) (to_instanceOnly o)))
  | Ev (Get _ _ _) _ | Ev (Cancel _ _) _ | Ev (Websocket _ _) _ | Ev (Pipe _) _ | Ev CloseSockets _ | Ev Aborted _
  | Ev (Progress _ _) _ => True
  | _ => False
  end.

(** What the jobs that move data rely on. *)
Class Transfers (transfer : TransferOptions → P Transport) : Prop := {
  transfer_emits o : emits (migration_call o) (transfer o);
  transfer_done o tr : wp (transfer o) (λ r tr', ∀ t, r = Returned t → ∃ evs, tr' = tr ++ evs ∧ Exists (completes o) evs) tr;
}.

(** *** Operations left behind *)

(** The operation a request started: its cluster and its path. *)
Definition opens (e : ev) : option (string * string) :=
  match e with
  | Ev (Request c _ _ (MigrateBody _ _ _)) (inr r) | Ev (Request c _ _ (CreateBody _ _ _ _)) (inr r) => Some (c, op_route (opOf r))
  | _ => None
  end.
(** An operation is closed by a request to cancel it, or by a report that it ended. *)
Definition closes (e : ev) (op : string * string) : bool :=
  match e with
  | Ev (Cancel c p) _ => bool_decide (op = (c, p))
  | Ev (Get DStatus c p) (inr st) =>
      negb (unfinished st) && bool_decide (op.1 = c)
      && (bool_decide (p = op.2) || bool_decide (p = op.2 +++ "/wait?timeout=2"))
  | _ => false
  end.
Definition open_step (ops : gset (string * string)) (e : ev) : gset (string * string) :=
  match opens e with
  | Some op => {[op]} ∪ ops
  | None => filter (λ op, closes e op = false) ops
  end.
(** The operations that were started and not closed since. *)
Definition open_ops (tr : list ev) : gset (string * string) := foldl open_step ∅ tr.

Lemma open_ops_snoc tr e : open_ops (tr ++ [e]) = open_step (open_ops tr) e.
Proof. unfold open_ops. by rewrite foldl_snoc. Qed.

Lemma open_step_silent ops e : opens e = None → open_step ops e ⊆ ops.
Proof. unfold open_step. intros ->. set_solver. Qed.

Lemma open_ops_silent tr evs : Forall (λ e, opens e = None) evs → open_ops (tr ++ evs) ⊆ open_ops tr.
Proof.
  intros HF. induction evs as [|e evs IH] using rev_ind; [by rewrite app_nil_r|].
  apply Forall_app in HF as [HF He]. rewrite (assoc_L (++)), open_ops_snoc.
  rewrite open_step_silent by (by inversion He). auto.
Qed.

Section transfer_correct.
Context (fuel : nat) (o : TransferOptions).
Abbreviation src := (cl_id (to_src o)).
Abbreviation dst := (cl_id (to_dst o)).

(** *** The calls *)

Lemma startSource_emits t : emits (migration_call o) (startSource o t).
Proof. unfold startSource. emits_all. simpl. naive_solver. Qed.
Lemma startTarget_emits : emits (migration_call o) (startTarget o).
Proof. unfold startTarget. emits_all. simpl. naive_solver. Qed.

Definition waiting_call (e : ev) : Prop :=
  match e with Ev (Get DStatus _ _) _ | Ev Aborted _ | Ev (Progress _ _) _ => True | _ => False end.
Lemma waiting_call_silent e : waiting_call e → migration_call o e ∧ opens e = None.
Proof. destruct e as [X c x]. destruct c; simpl; done. Qed.

Lemma waitTarget_emits n d s : emits waiting_call (waitTarget o n d s).
Proof.
  induction n as [|n IH]; [exact I|]. cbn [waitTarget]. unfold stop_if_aborted, check_source, onProgress.
  emits_all; try exact I; done.
Qed.

Lemma waitTarget_migration n d s : emits (migration_call o) (waitTarget o n d s).
Proof. apply (emits_mono waiting_call), waitTarget_emits. intros e He. by apply waiting_call_silent. Qed.

#[local] Hint Resolve startSource_emits startTarget_emits waitTarget_migration : prog.

Lemma direct_emits : emits (migration_call o) (direct fuel o).
Proof. unfold direct, cancel_source, cancel_target. emits_all; first [exact I | eauto with prog]. Qed.
Lemma relay_emits : emits (migration_call o) (relay fuel o).
Proof. unfold relay, join_sockets, cancel_source, cancel_target. emits_all; first [exact I | eauto with prog]. Qed.

(** *** Success *)

Lemma waitTarget_done n d s tr :
  wp (waitTarget o n d s) (λ r tr', ∀ x, r = Returned x → ∃ evs, tr' = tr ++ evs ∧ Exists (completes o) evs) tr.
Proof.
  revert tr. induction n as [|n IH]; intros tr; [by intros x Hx|]. cbn [waitTarget].
  apply wp_bind. apply (wp_emits_weaken waiting_call); [unfold stop_if_aborted; emits_all; exact I|]. intros [x|e|] ev1 _; [|done..].
  apply wp_bind. apply (wp_emits_weaken waiting_call); [unfold check_source; emits_all; exact I|]. intros [y|e|] ev2 _; [|done..].
  apply wp_bind. apply wp_attempt; [done|]. intros st. case_bool_decide as Hs.
  - intros z _. eexists. split; [by rewrite <-!(assoc_L (++))|]. rewrite !Exists_app. right; right. by left.
  - destruct (ended_badly st); [done|].
    apply wp_bind. apply (wp_emits_weaken waiting_call); [unfold onProgress; emits_all; exact I|]. intros [z|e|] ev3 _; [|done..].
    apply (wp_mono _ _ _ _ (IH _)). intros r tr' Hr v Hv. destruct (Hr v Hv) as (evs & -> & Hex).
    eexists. split; [by rewrite <-!(assoc_L (++))|]. rewrite !Exists_app. tauto.
Qed.

(** A part that only makes calls, then one that completes. *)
Definition completed {A} (tr : list ev) (r : outcome exn A) (tr' : list ev) : Prop :=
  ∀ x, r = Returned x → ∃ evs, tr' = tr ++ evs ∧ Exists (completes o) evs.

Lemma completed_app {A} tr evs (r : outcome exn A) tr' : completed (tr ++ evs) r tr' → completed tr r tr'.
Proof.
  intros Hc x Hx. destruct (Hc x Hx) as (evs' & -> & He). exists (evs ++ evs'). rewrite (assoc_L (++)), Exists_app. auto.
Qed.

Lemma wp_after F {A B} (p : P A) (f : A → P B) tr :
  emits F p → (∀ x evs, wp (f x) (completed (tr ++ evs)) (tr ++ evs)) → wp (p ≫= f) (completed tr) tr.
Proof.
  intros Hp Hf. apply wp_bind, (wp_emits_weaken F); [done|]. intros [x|e|] evs _; [|done..].
  apply (wp_mono _ _ _ _ (Hf x evs)). intros r tr'. apply completed_app.
Qed.

(** A handler that throws completes nothing. *)
Lemma wp_rethrows {A} (p : P A) tr tr0 : throws p → wp p (completed tr0) tr.
Proof. intros Hp. apply (wp_throws (λ _, True)); [done|by apply emits_any|]. intros r evs Hr _ x Hx. by apply Hr in Hx. Qed.

Ltac throws := repeat (apply throws_bind; intros ?); exact I.

Lemma direct_done tr : wp (direct fuel o) (completed tr) tr.
Proof.
  unfold direct. apply (wp_after (migration_call o)); [apply startTarget_emits|]. intros d evs.
  apply wp_catch_with, wp_bind, wp_leaving, (wp_emits_weaken (migration_call o)); [apply startSource_emits|].
  intros [s|e|] evs' _; [|apply wp_rethrows; throws|done].
  apply wp_leaving, (wp_mono _ _ _ _ (waitTarget_done _ _ _ _)).
  intros [x|e|] tr' Hr; [|apply wp_rethrows; throws|done]. refine (completed_app _ evs' _ _ _). exact Hr.
Qed.

Lemma relay_done tr : wp (relay fuel o) (completed tr) tr.
Proof.
  unfold relay. apply (wp_after (migration_call o)); [apply startSource_emits|]. intros s evs.
  apply (wp_after (migration_call o)).
  { unfold cancel_source. emits_all; first [exact I|apply startTarget_emits]. }
  intros d evs'. apply wp_finally, wp_try, wp_bind, (wp_emits_weaken (migration_call o)).
  { unfold join_sockets. emits_all; exact I. }
  intros [x|e|] evs2 _; [| |done].
  - apply (wp_mono _ _ _ _ (waitTarget_done _ _ _ _)). intros [y|e|] tr' Hr; [|apply (wp_throws (λ _, True))|done];
      [|throws|by apply emits_any|].
    + intros u z _. destruct (Hr y eq_refl) as (evs3 & -> & Hex). exists (evs2 ++ evs3 ++ [Ev CloseSockets u]).
      split; [by rewrite !(assoc_L (++))|]. rewrite !Exists_app. tauto.
    + intros [z|e'|] evs3 Hz _; [by destruct (Hz z)| |done]. by intros u v.
  - apply (wp_throws (λ _, True)); [throws|by apply emits_any|].
    intros [z|e'|] evs3 Hz _; [by destruct (Hz z)| |done]. by intros u v.
Qed.

Lemma wp_returning {A B} (p : P A) (x : B) tr : wp p (completed tr) tr → wp (_ ← p; Ret x) (completed tr) tr.
Proof. intros Hp. apply wp_bind, (wp_mono _ _ _ _ Hp). intros [y|e|] tr' Hr; [|done..]. intros z _. by apply (Hr y). Qed.

Lemma transfer_all_emits : emits (migration_call o) (transfer fuel o).
Proof.
  unfold transfer, onProgress. emits_all; first [apply direct_emits|apply relay_emits|exact I].
Qed.

Lemma transfer_completes tr : wp (transfer fuel o) (completed tr) tr.
Proof.
  unfold transfer. case_bool_decide; [apply wp_returning, relay_done|].
  apply wp_try, (wp_mono _ _ _ _ (wp_extends _ _ _ (wp_returning _ Direct _ (direct_done tr)))).
  intros [x|e|] tr' [Hr [evs ->]]; [exact Hr| |done].
  case_bool_decide; [|done]. apply (wp_mono _ (completed (tr ++ evs))); [|intros r tr'; apply completed_app].
  apply (wp_after (migration_call o)); [emits_all; exact I|]. intros a evs'. destruct (_ && _); [|done].
  apply (wp_after (migration_call o)); [unfold onProgress; emits_all; exact I|]. intros [] evs2.
  apply wp_returning, relay_done.
Qed.

(** *** Nothing is left behind *)

Lemma open_closed tr e op : closes e op = true → op ∉ open_ops (tr ++ [e]).
Proof.
  intros He. rewrite open_ops_snoc. unfold open_step.
  assert (opens e = None) as ->; [|rewrite elem_of_filter; intros [Hc _]; congruence].
  destruct e as [X c x]. by destruct c.
Qed.

Lemma open_silent tr e : opens e = None → open_ops (tr ++ [e]) ⊆ open_ops tr.
Proof. intros He. rewrite open_ops_snoc. by apply open_step_silent. Qed.

(** Nothing new is open, and not the side that an exception says has failed. *)
Definition waited (d : Op) (s : option Op) (ops : gset (string * string)) (r : outcome exn unit) (tr : list ev) : Prop :=
  open_ops tr ⊆ ops ∧
  match r with
  | Raised e => (is_target_failed e = true → (dst, op_route d) ∉ open_ops tr)
                ∧ (is_source_failed e = true → ∃ s0, s = Some s0 ∧ (src, op_route s0) ∉ open_ops tr)
  | _ => True
  end.

Lemma waited_mono d s ops ops' r tr : ops ⊆ ops' → waited d s ops r tr → waited d s ops' r tr.
Proof. intros Hsub [H1 H2]. split; [set_solver|done]. Qed.

Lemma waited_fault d s f tr : waited d s (open_ops tr) (Raised (Fault f)) tr.
Proof. by split. Qed.

Lemma check_source_open s d tr :
  wp (check_source o s) (waited d (Some s) (open_ops tr)) tr.
Proof.
  unfold check_source. apply wp_bind, wp_attempt.
  - intros f. eapply waited_mono, waited_fault. by apply open_silent.
  - intros st. destruct (ended_badly st) eqn:Hst; [|split; [by apply open_silent|done]].
    split; [by apply open_silent|]. split; [done|]. intros _. exists s. split; [done|]. apply open_closed.
    unfold closes, unfinished. unfold ended_badly in Hst. rewrite <- orb_assoc, Hst, orb_true_r. simpl.
    rewrite bool_decide_true by reflexivity. by rewrite bool_decide_true by reflexivity.
Qed.

Lemma waitTarget_open n d s tr : wp (waitTarget o n d s) (waited d s (open_ops tr)) tr.
Proof.
  revert tr. induction n as [|n IH]; intros tr; [by split|]. cbn [waitTarget].
  assert (∀ a, open_ops (tr ++ [Ev Aborted a]) ⊆ open_ops tr) as H1 by (intros a; by apply open_silent).
  apply wp_bind, wp_stop_if_aborted; [intros f; by eapply waited_mono, waited_fault|].
  specialize (H1 None). set (tr1 := tr ++ _) in *.
  apply (wp_mono _ (waited d s (open_ops tr1))); [|intros r tr'; by apply waited_mono].
  clearbody tr1. clear H1 tr. apply wp_bind.
  apply (wp_mono _ (waited d s (open_ops tr1))).
  { destruct s; [apply check_source_open|]. split; [reflexivity|exact I]. }
  intros [x|e|] tr2 Hw; [|done..]. apply (wp_mono _ (waited d s (open_ops tr2)));
    [|intros r tr'; apply waited_mono, Hw]. clear Hw x tr1.
  apply wp_bind, wp_attempt; [intros f; eapply waited_mono, waited_fault; by apply open_silent|].
  intros st. set (tr3 := tr2 ++ _). assert (open_ops tr3 ⊆ open_ops tr2) as H3 by by apply open_silent.
  case_bool_decide; [by split|]. destruct (ended_badly st) eqn:Hst.
  { split; [done|]. split; [|done]. intros _. apply open_closed.
    unfold closes, unfinished, wait_path. unfold ended_badly in Hst. rewrite <- orb_assoc, Hst, orb_true_r. simpl.
    rewrite bool_decide_true by reflexivity. 
    rewrite (bool_decide_true (op_route d +++ "/wait?timeout=2" = op_route d +++ "/wait?timeout=2")) by reflexivity.
    apply orb_true_r. }
  apply (wp_mono _ (waited d s (open_ops tr3))); [|intros r tr'; by apply waited_mono]. apply wp_bind.
  apply (wp_mono _ (waited d s (open_ops tr3))).
  { destruct (progressText _) as [text|]; [|by split]. destruct (truthy_str _); [|by split].
    apply wp_attempt; [intros f; eapply waited_mono, waited_fault|intros []; split; [|done]]; by apply open_silent. }
  intros [x|e|] tr4 Hw; [|done..]. apply (wp_mono _ _ _ _ (IH tr4)). intros r tr'. apply waited_mono, Hw.
Qed.

Definition run_only (c p : string) (ops : gset (string * string)) (r : outcome exn unit) (tr : list ev) : Prop :=
  r = Returned tt ∧ open_ops tr ⊆ ops ∧ (c, p) ∉ open_ops tr.

Lemma wp_cancel c p tr : wp (quietly (attempt (Cancel c p))) (run_only c p (open_ops tr)) tr.
Proof.
  assert (∀ x, open_ops (tr ++ [Ev (Cancel c p) x]) ⊆ open_ops tr ∧ (c, p) ∉ open_ops (tr ++ [Ev (Cancel c p) x])) as Hc.
  { intros x. split; [by apply open_silent|]. apply open_closed. by apply bool_decide_true. }
  apply wp_quietly, wp_attempt; [intros f|intros []]; split; auto.
Qed.

Lemma wp_cancel_target e d tr :
  (is_target_failed e = true → (dst, op_route d) ∉ open_ops tr) →
  wp (cancel_target o e d) (run_only dst (op_route d) (open_ops tr)) tr.
Proof. intros He. unfold cancel_target. destruct (is_target_failed e); [split; auto|apply wp_cancel]. Qed.

(** The requests that start the two sides. *)
Definition started (c : string) (ops : gset (string * string)) (failed : exn → bool) (r : outcome exn Op) (tr : list ev) : Prop :=
  match r with
  | Returned s => open_ops tr = {[(c, op_route s)]} ∪ ops
  | Raised e => open_ops tr ⊆ ops ∧ failed e = true
  | Running => False
  end.

Lemma startSource_open t tr : wp (startSource o t) (started src (open_ops tr) is_source_failed) tr.
Proof.
  apply wp_try, wp_bind, wp_attempt.
  - intros f. split; [by apply open_silent|done].
  - intros r. unfold started. simpl. rewrite open_ops_snoc. done.
Qed.
Lemma startTarget_open tr : wp (startTarget o) (started dst (open_ops tr) is_target_failed) tr.
Proof.
  apply wp_try, wp_bind, wp_attempt.
  - intros f. split; [by apply open_silent|done].
  - intros r. unfold started. simpl. rewrite open_ops_snoc. done.
Qed.

(** An attempt that fails leaves nothing open that was not. *)
Definition tidy {A : Type} (ops : gset (string * string)) (r : outcome exn A) (tr : list ev) : Prop :=
  ∀ e, r = Raised e → open_ops tr ⊆ ops.

Lemma within_two (a b : string * string) (X Y ops : gset (string * string)) :
  X ⊆ Y ∖ {[a]} → b ∉ X → Y ⊆ {[a]} ∪ ({[b]} ∪ ops) → X ⊆ ops.
Proof. set_solver. Qed.

Lemma direct_tidy tr : wp (direct fuel o) (tidy (open_ops tr)) tr.
Proof.
  unfold direct. apply wp_bind, (wp_mono _ _ _ _ (startTarget_open tr)). intros [d|e|] tr1 Hd; [|by intros e' [= <-]; apply Hd|done].
  simpl in Hd. apply wp_catch_with, wp_bind, wp_leaving, (wp_mono _ _ _ _ (startSource_open _ tr1)).
  intros [s|e|] tr2 Hs; [| |done].
  - apply wp_leaving, (wp_mono _ _ _ _ (waitTarget_open _ _ _ tr2)). intros [x|e|] tr3 [Hsub Hw]; [done| |done].
    destruct Hw as [Ht Hsrc]. simpl in Hs.
    apply wp_bind, (wp_mono _ (λ r tr', r = Returned tt ∧ open_ops tr' ⊆ open_ops tr3 ∖ {[(src, op_route s)]})).
    { destruct (is_source_failed e).
      - destruct (Hsrc eq_refl) as (s0 & [= <-] & Hn). split; [done|]. set_solver.
      - apply (wp_mono _ _ _ _ (wp_cancel _ _ _)). intros r tr' (-> & ? & ?). split; [done|]. set_solver. }
    intros r tr4 [-> H4]. apply wp_bind, (wp_mono _ _ _ _ (wp_cancel_target e d tr4 ltac:(set_solver))).
    intros r tr5 (-> & H5 & Hn). intros e' [= <-]. eapply (within_two (src, op_route s) (dst, op_route d)); [|exact Hn|].
    { intros x Hx. apply H4, H5, Hx. }
    rewrite Hsub, Hs, Hd. reflexivity.
  - destruct Hs as [Hsub Hf]. apply wp_bind. assert (is_target_failed e = false) as Ht by (by destruct e).
    apply wp_bind, (wp_mono _ _ _ _ (wp_cancel_target e d tr2 ltac:(congruence))).
    intros r tr3 (-> & H3 & Hn) e' [= <-]. set_solver.
Qed.

Lemma sockets_open s d l tr :
  wp (each (join_sockets o s d) l) (λ r tr', open_ops tr' ⊆ open_ops tr ∧ ∀ e, r = Raised e → is_target_failed e = false) tr.
Proof.
  revert tr. induction l as [|n l IH]; intros tr; [by split|]. cbn [each]. apply wp_bind. unfold join_sockets.
  apply wp_bind, wp_attempt; [intros f; split; [by apply open_silent|by intros e [= <-]]|]. intros [].
  apply wp_bind, wp_attempt; [intros f; split; [by rewrite !open_silent|by intros e [= <-]]|]. intros [].
  intros []. apply (wp_mono _ _ _ _ (IH _)). intros r tr' [Hsub He]. split; [|done]. by rewrite Hsub, !open_silent.
Qed.

Lemma relay_tidy tr : wp (relay fuel o) (tidy (open_ops tr)) tr.
Proof.
  unfold relay. apply wp_bind, (wp_mono _ _ _ _ (startSource_open _ tr)). intros [s|e|] tr1 Hs; [|by intros e' [= <-]; apply Hs|done].
  simpl in Hs. apply wp_bind, wp_try, (wp_mono _ _ _ _ (startTarget_open tr1)). intros [d|e|] tr2 Hd; [| |done].
  - simpl in Hd. apply wp_finally, wp_try.
    apply (wp_mono _ (λ r tr', open_ops tr' ⊆ open_ops tr2 ∧ ∀ e, r = Raised e → is_target_failed e = true → (dst, op_route d) ∉ open_ops tr')).
    { apply wp_bind, (wp_mono _ _ _ _ (sockets_open s d _ tr2)). intros [x|e|] tr3 [Hsub He]; [|split; [done|]|done].
      - apply (wp_mono _ _ _ _ (waitTarget_open _ _ _ tr3)). intros r tr4 [H4 Hw]. split; [set_solver|]. intros e ->. apply Hw.
      - intros e' [= <-]. rewrite (He e eq_refl). done. }
    intros [x|e|] tr3 [Hsub He]; [by intros ? ?|..|done].
    apply wp_bind, (wp_mono _ _ _ _ (wp_cancel _ _ _)). intros r tr4 (-> & H4 & Hn4).
    apply wp_bind, (wp_mono _ _ _ _ (wp_cancel_target e d tr4 ltac:(set_solver))). intros r tr5 (-> & H5 & Hn5).
    intros [] e' [= <-]. rewrite open_silent by done. eapply (within_two (src, op_route s) (dst, op_route d)); [|exact Hn5|].
    { intros x Hx. apply elem_of_difference. split; [by apply H4, H5|]. intros ->%elem_of_singleton. by apply Hn4, H5. }
    rewrite Hsub, Hd, Hs. set_solver.
  - apply wp_bind, (wp_mono _ _ _ _ (wp_cancel _ _ _)). intros r tr3 (-> & H3 & Hn) e' [= <-]. destruct Hd. set_solver.
Qed.

Lemma transfer_tidy tr : wp (transfer fuel o) (tidy (open_ops tr)) tr.
Proof.
  assert (∀ (A : Type) (p : P A) (x : Transport) tr0, wp p (tidy (open_ops tr0)) tr0 → wp (_ ← p; Ret x) (tidy (open_ops tr0)) tr0) as Hret.
  { intros A p x tr0 Hp. apply wp_bind, (wp_mono _ _ _ _ Hp). intros [y|e|] tr' Hr; [done| |done]. intros e' [= <-]. exact (Hr e eq_refl). }
  unfold transfer. case_bool_decide; [apply Hret, relay_tidy|].
  apply wp_try, (wp_mono _ _ _ _ (Hret _ _ Direct _ (direct_tidy tr))). intros [x|e|] tr1 H1; [done| |done].
  specialize (H1 e eq_refl). assert (tidy (A := Transport) (open_ops tr) (Raised e) tr1) as Hdone by (intros e' [= <-]; exact H1).
  case_bool_decide; [|exact Hdone]. apply wp_bind, wp_ask. intros a.
  assert (open_ops (tr1 ++ [Ev Aborted a]) ⊆ open_ops tr) as H2 by (rewrite open_silent by done; done).
  destruct (negb (bool_decide (is_Some a)) && falls_back e); [|by intros e' _].
  apply wp_bind, wp_attempt; [intros f e' _; by rewrite open_silent|]. intros [].
  eapply wp_mono; [apply Hret, relay_tidy|]. intros r tr' Hr e' He. rewrite (Hr e' He). by rewrite open_silent.
Qed.
(** *** The wait ends *)

Definition unfinished_poll (e : ev) : bool :=
  match e with Ev (Get DStatus c _) (inr st) => bool_decide (c = dst) && unfinished st | _ => false end.
(** How often the target's operation was reported to go on. *)
Definition polls (tr : list ev) : nat := length (js_filter unfinished_poll tr).

Lemma polls_app tr evs : polls (tr ++ evs) = (polls tr + polls evs)%nat.
Proof. unfold polls. by rewrite js_filter_app, length_app. Qed.

Definition used_up {A : Type} (n : nat) (r : outcome exn A) (tr : list ev) : Prop := r = Running → (n ≤ polls tr)%nat.

Lemma used_up_grow {A B} (p : P A) (f : A → P B) n tr :
  wp p (used_up n) tr → (∀ x evs, wp (f x) (used_up n) (tr ++ evs)) → wp (p ≫= f) (used_up n) tr.
Proof.
  intros Hp Hf. apply wp_bind, (wp_mono _ _ _ _ (wp_extends _ _ _ Hp)).
  intros [x|e|] tr' [Hr [evs ->]]; [apply Hf|done|intros _; by apply Hr].
Qed.

Lemma wp_finite {A} (p : P A) n tr : finite p → wp p (used_up n) tr.
Proof. revert tr. induction p as [x|e| |X c k IH]; intros tr Hp; simpl in *; [done..|]. intros x. by apply IH. Qed.

Lemma waitTarget_polls n d s tr : wp (waitTarget o n d s) (used_up (polls tr + n)) tr.
Proof.
  revert tr. induction n as [|n IH]; intros tr; [intros _; simpl; lia|]. cbn [waitTarget].
  apply wp_bind, wp_stop_if_aborted; [done|]. apply used_up_grow.
  { apply wp_finite. destruct s; [|done]. unfold check_source. apply finite_bind; [apply finite_attempt|]. intros st. by destruct (ended_badly st). }
  intros x evs. apply wp_bind, wp_attempt; [done|]. intros st. case_bool_decide as Hs; [done|].
  destruct (ended_badly st) eqn:Hst; [done|]. apply used_up_grow.
  { apply wp_finite. destruct (progressText _) as [t|]; [|done]. destruct (truthy_str t); [apply finite_attempt|done]. }
  intros y evs'. apply (wp_mono _ _ _ _ (IH _)). intros r tr' Hr Hrun. specialize (Hr Hrun). revert Hr. rewrite !polls_app.
  assert (polls [Ev (Get DStatus dst (wait_path d)) (inr st)] = 1%nat) as ->; [|lia].
  unfold polls, unfinished_poll, unfinished, js_filter. simpl.
  unfold ended_badly in Hst. rewrite bool_decide_true by done. rewrite bool_decide_false by done. simpl. by rewrite Hst.
Qed.

Lemma waiting tr d s : wp (waitTarget o fuel d s) (used_up fuel) tr.
Proof. apply (wp_mono _ _ _ _ (waitTarget_polls fuel d s tr)). intros r tr' Hr Hrun. specialize (Hr Hrun). lia. Qed.

Lemma used_up_try {A} (p : P A) h n tr :
  wp p (used_up n) tr → (∀ e evs, wp (h e) (used_up n) (tr ++ evs)) → wp (try_catch p h) (used_up n) tr.
Proof.
  intros Hp Hf. apply wp_try, (wp_mono _ _ _ _ (wp_extends _ _ _ Hp)).
  intros [x|e|] tr' [Hr [evs ->]]; [done|apply Hf|intros _; by apply Hr].
Qed.

Lemma starting_finite t : finite (startSource o t) ∧ finite (startTarget o).
Proof. split; (apply finite_try; [apply finite_bind; [apply finite_attempt|done]|done]). Qed.
Lemma cancelling_finite c p : finite (quietly (attempt (Cancel c p))).
Proof. apply finite_try; [apply finite_attempt|done]. Qed.
Lemma cancel_target_finite e d : finite (cancel_target o e d).
Proof. unfold cancel_target. destruct (is_target_failed e); [done|apply cancelling_finite]. Qed.

Lemma direct_used_up tr : wp (direct fuel o) (used_up fuel) tr.
Proof.
  unfold direct. apply used_up_grow; [apply wp_finite, (starting_finite None)|]. intros d evs.
  apply wp_catch_with, wp_bind, wp_leaving, (wp_mono _ _ _ _ (wp_finite _ fuel _ (proj1 (starting_finite _)))).
  assert (∀ e s tr0, wp (_ ← match s with Some s => if is_source_failed e then Ret tt else cancel_source o s | None => Ret tt end;
                         _ ← cancel_target o e d; Raise e : P unit) (used_up fuel) tr0) as Hc.
  { intros e s tr0. apply wp_finite, finite_bind; [|intros _; apply finite_bind; [apply cancel_target_finite|done]].
    destruct s; [|done]. destruct (is_source_failed e); [done|apply cancelling_finite]. }
  intros [s|e|] tr1 Hr; [|exact (Hc e None tr1)|intros _; by apply Hr].
  apply wp_leaving, (wp_mono _ _ _ _ (waiting tr1 d (Some s))). intros [x|e|] tr2 Hr2; [done|exact (Hc e (Some s) tr2)|exact Hr2].
Qed.

Lemma relay_used_up tr : wp (relay fuel o) (used_up fuel) tr.
Proof.
  unfold relay. apply used_up_grow; [apply wp_finite, (starting_finite None)|]. intros s evs.
  apply used_up_grow.
  { apply wp_finite, finite_try; [apply (starting_finite None)|]. intros e. apply finite_bind; [apply cancelling_finite|done]. }
  intros d evs'. apply wp_finally, (wp_mono _ (used_up fuel)); [|intros [x|e|] tr' Hr; [by intros u|by intros u|exact Hr]].
  apply used_up_try.
  - apply used_up_grow; [|intros x evs2; apply waiting]. apply wp_finite, finite_each. intros n. unfold join_sockets.
    repeat (apply finite_bind; [apply finite_attempt|intros _]). done.
  - intros e evs2. apply wp_finite. do 2 (apply finite_bind; [first [apply cancelling_finite|apply cancel_target_finite]|intros _]). done.
Qed.

Lemma transfer_used_up tr : wp (transfer fuel o) (used_up fuel) tr.
Proof.
  unfold transfer. case_bool_decide; [apply used_up_grow; [apply relay_used_up|done]|].
  apply used_up_try; [apply used_up_grow; [apply direct_used_up|done]|]. intros e evs.
  case_bool_decide; [|done]. apply wp_bind, wp_ask. intros a. destruct (negb (bool_decide (is_Some a)) && falls_back e); [|done].
  apply used_up_grow; [apply wp_finite, finite_attempt|]. intros x evs'. apply used_up_grow; [apply relay_used_up|done].
Qed.
End transfer_correct.

(** A transfer makes only calls of a migration, and returns only once the target's operation ended well. *)
#[export] Instance transfer_transfers fuel : Transfers (transfer fuel).
Proof. constructor; [apply transfer_all_emits|]. intros o tr. apply transfer_completes. Qed.

(** Whatever the clusters answer, a transfer that fails has closed every operation it started: it was
    reported to have ended, or a cancel of it was sent. *)
Theorem failed_transfer_closes_operations fuel o orc e :
  (run orc (transfer fuel o) []).1 = Raised e → open_ops (run orc (transfer fuel o) []).2 = ∅.
Proof.
  intros He. pose proof (wp_run _ _ orc [] (transfer_tidy fuel o [])) as Ht. specialize (Ht e He).
  change (open_ops []) with (∅ : gset (string * string)) in Ht. set_solver.
Qed.

(** C19: a transfer waits only as long as the target goes on: fuel for [n] polls is used up only if the target's
    operation was reported to go on [n] times. *)
Theorem transfer_ends_with_target fuel o orc :
  (run orc (transfer fuel o) []).1 = Running → (fuel ≤ polls o (run orc (transfer fuel o) []).2)%nat.
Proof. intros Hr. exact (wp_run _ _ orc [] (transfer_used_up fuel o []) Hr). Qed.

(** ** Examples *)

Definition demo_cluster (id : string) : Cluster := {| cl_id := id; cl_name := id; cl_url := "https://" +++ id +++ "/"; cl_serverCert := "PEM" |}.
Definition demo_request : TargetRequest :=
  {| rq_name := "web"; rq_type := "container"; rq_architecture := "x86_64"; rq_config := ∅; rq_devices := []; rq_profiles := ["default"] |}.
Definition demo_options (t : TransportChoice) : TransferOptions :=
  {| to_src := demo_cluster "A"; to_dst := demo_cluster "B"; to_srcProject := "acme"; to_dstProject := "acme"; to_name := "web";
     to_request := demo_request; to_refresh := false; to_live := false; to_instanceOnly := false; to_targetCert := "PEM";
     to_transport := t; to_stage := "transferring" |}.

Definition demo_started (c : string) : Response :=
  {| rs_async := true; rs_operation := Some ("/1.0/operations/" +++ c); rs_id := c; rs_secrets := Some [("control", "s")] |}.
Definition status_is (st : string) : OpStatus := {| os_status := st; os_err := "dial tcp: refused"; os_metadata := JNull |}.

(** Operations start; the source's reads [s], the target's [t]. *)
Definition demo_clusters (s t : string) (X : Type) (c : call X) (tr : list ev) : X :=
  match c with
  | Request c _ _ _ => inr (demo_started c)
  | Get d c _ =>
      match d in doc X return answer X with
      | DStatus => inr (status_is (if bool_decide (c = "A") then s else t))
      | _ => inl (Error "unavailable")
      end
  | Cancel _ _ | Websocket _ _ | Progress _ _ => inr tt
  | c => unavailable c
  end.

Lemma failed_transfer_closes_operations_witness :
  ∃ e, (run (demo_clusters "Running" "Failure") (transfer 3 (demo_options Auto)) []).1 = Raised e
       ∧ open_ops (run (demo_clusters "Running" "Failure") (transfer 3 (demo_options Auto)) []).2 = ∅.
Proof.
  exists (TargetFailed "dial tcp: refused"). split; [vm_compute; reflexivity|].
  apply (failed_transfer_closes_operations 3 (demo_options Auto) _ (TargetFailed "dial tcp: refused")). vm_compute. reflexivity.
Defined.

Lemma transfer_ends_with_target_witness :
  (run (demo_clusters "Running" "Running") (transfer 3 (demo_options OnlyRelay)) []).1 = Running
  ∧ (3 ≤ polls (demo_options OnlyRelay) (run (demo_clusters "Running" "Running") (transfer 3 (demo_options OnlyRelay)) []).2)%nat.
Proof.
  split; [vm_compute; reflexivity|]. apply (transfer_ends_with_target 3 (demo_options OnlyRelay)). vm_compute. reflexivity.
Defined.

(** The source cannot reach the target: the data is relayed. *)
Example unreachable_relayed :
  (run (λ X c tr, if (length tr <? 6)%nat then demo_clusters "Failure" "Running" X c tr else demo_clusters "Running" "Success" X c tr)
     (transfer 9 (demo_options Auto)) []).1 = Returned Relay.
Proof. vm_compute. reflexivity. Qed.
