(* ===== verification/Mobility.v ===== *)
(** * Mobility: copying and moving an instance to another cluster

    Models [mobility/migrate-job.ts]: the job that checks, stops the source,
    transfers, verifies, starts the copy, deletes the source, and undoes its
    part when it fails. What it relies on of the transfer is the interface
    [Transfers] of [Transfer]. *)

From S2P Require Import Prelude JsString Effects Projects Preflight Leases Owners Program Services Transfer.

Record MigratePayload := {
  mp_sourceClusterId : string; mp_sourceProject : string; mp_name : string;
  mp_targetClusterId : string; mp_targetProject : string; mp_targetName : string;
  mp_mode : Mode; mp_live : bool; mp_pool : option string; mp_transport : TransportChoice;
}.

(** The variables that the rollback reads. *)
Record Locals := { stoppedSource : bool; committed : bool }.

(** Locals: a handler's actor, which a copy belongs to. *)
Definition job_actor (j : Job) : option string := actorOf (Some (job_actorType j)) (Some (job_actorId j)).

Section migrate.
Context (JSON_parse : string → option Json) (transfer : TransferOptions → P Transport).
Context (j : Job) (p : MigratePayload).
Abbreviation src := (mp_sourceClusterId p).
Abbreviation dst := (mp_targetClusterId p).

Definition is_move : bool := bool_decide (mp_mode p = Move).
Definition migrated_from : string := mp_sourceClusterId p +++ "/" +++ mp_sourceProject p +++ "/" +++ mp_name p.
Definition from_key : InstanceKey := (mp_sourceClusterId p, mp_sourceProject p, mp_name p).
Definition to_key : InstanceKey := (mp_targetClusterId p, mp_targetProject p, mp_targetName p).

Definition check_of (source : SourceInstance) (target : TargetFacts) : Report :=
  preflight JSON_parse
    {| i_source := source; i_target := target; i_targetName := mp_targetName p; i_mode := mp_mode p;
       i_live := mp_live p; i_pool := mp_pool p |}.
Definition tagged (r : TargetRequest) : TargetRequest :=
  with_config r (<[TAG_MIGRATED_FROM := migrated_from]> (<[TAG_JOB := job_id j]> (rq_config r))).

Definition options (s d : Cluster) (r : TargetRequest) : TransferOptions :=
  {| to_src := s; to_dst := d; to_srcProject := mp_sourceProject p; to_dstProject := mp_targetProject p; to_name := mp_name p;
     to_request := tagged r; to_refresh := false; to_live := mp_live p; to_instanceOnly := false;
     to_targetCert := cl_serverCert d; to_transport := mp_transport p; to_stage := "transferring" |}.

(** A cold move of a running instance stops it first. *)
Definition restarts (source : SourceInstance) : bool := is_move && bool_decide (s_status source = "Running") && negb (mp_live p).

Definition stop_source (source : SourceInstance) : P bool :=
  if restarts source then
    _ ← progress "stopping the source";
    _ ← setState src (mp_sourceProject p) (mp_name p) Stop;
    Ret true
  else Ret false.

Definition missing_copy {A} : P A := raise 502 "migration_failed" "The copy is missing on the target after the transfer".

(** Up to the commit: the transport used, and the lease to carry. *)
Definition copy_over (s d : Cluster) (source : SourceInstance) (r : TargetRequest) : P (Transport * option Lease) :=
  _ ← progress "transferring";
  transport ← transfer (options s d r);
  _ ← progress "verifying";
  copy ← readInstance dst (mp_targetProject p) (mp_targetName p);
  match copy with
  | None => missing_copy
  | Some copy =>
      if negb (bool_decide (in_type copy = s_type source)) then missing_copy
      else
        _ ← (if restarts source && negb (bool_decide (in_status copy = "Running")) then
               _ ← progress "starting the copy";
               setState dst (mp_targetProject p) (mp_targetName p) Start
             else Ret tt);
        if is_move then
          lease ← attempt (Db (LeaseOf from_key));
          _ ← stop_if_aborted;
          Ret (transport, lease)
        else Ret (transport, None)
  end.

Definition delete_source : P unit :=
  _ ← progress "deleting the source";
  left ← readInstance src (mp_sourceProject p) (mp_name p);
  _ ← match left with
      | Some i => if negb (bool_decide (in_status i = "Stopped")) then setState src (mp_sourceProject p) (mp_name p) Stop else Ret tt
      | None => Ret tt
      end;
  incusDo src "DELETE" (instancePath (mp_sourceProject p) (mp_name p) EmptyString) NoBody.

Definition hand_over (lease : option Lease) : P unit :=
  _ ← (if is_move then attempt (Db (CarryOwner from_key to_key true))
       else match job_actor j with
            | Some actor => attempt (Db (RecordOwner to_key actor))
            | None => Ret tt
            end);
  match lease with Some l => attempt (Db (PutLease to_key l)) | None => Ret tt end.

Definition rollback (e : exn) (l : Locals) : P Transport :=
  if committed l then Raise e
  else
    _ ← progress "rolling back";
    copy ← or_empty None (readInstance dst (mp_targetProject p) (mp_targetName p));
    _ ← match copy with
        | Some c =>
            if bool_decide (in_config c !! TAG_JOB = Some (job_id j)) then
              _ ← (if bool_decide (in_status c = "Running") then quietly (setState dst (mp_targetProject p) (mp_targetName p) Stop) else Ret tt);
              quietly (incusDo dst "DELETE" (instancePath (mp_targetProject p) (mp_targetName p) EmptyString) NoBody)
            else Ret tt
        | None => Ret tt
        end;
    _ ← (if stoppedSource l then quietly (setState src (mp_sourceProject p) (mp_name p) Start) else Ret tt);
    Raise e.

Definition migrate_block (s d : Cluster) (source : SourceInstance) (r : TargetRequest) : prog (exn * Locals) call Transport :=
  stopped ← leaving {| stoppedSource := false; committed := false |} (stop_source source);
  tl ← leaving {| stoppedSource := stopped; committed := false |} (copy_over s d source r);
  _ ← leaving {| stoppedSource := stopped; committed := is_move |} (if is_move then delete_source else Ret tt);
  _ ← leaving {| stoppedSource := stopped; committed := is_move |} (hand_over tl.2);
  Ret tl.1.

Definition migrateHandler : P Transport :=
  s ← clientFor src;
  d ← clientFor dst;
  _ ← progress "checking";
  source ← sourceFacts src (mp_sourceProject p) (mp_name p);
  target ← targetFacts dst (mp_targetProject p);
  let check := check_of source target in
  if negb (ok check) then raise 409 "preflight_failed" (join "; " (problems check))
  else
    try_finally (catch_with (migrate_block s d source (request check)) rollback)
      (refreshInventory [src; dst]).
End migrate.
