(* ===== verification/MobilityTheory.v ===== *)
(** * MobilityTheory: a move never loses an instance

    What every run of [Mobility.migrateHandler] does, whatever clusters and the
    database answer: the source goes only once a copy was verified and that
    copy is left alone from then on; a rollback removes only the job's own copy
    and starts what the job stopped. *)

From S2P Require Import Prelude JsString Effects Uri Projects Preflight Leases Program Services Transfer Mobility.

(** ** Calls on an instance *)

Definition deletes (k : InstanceKey) (e : ev) : Prop :=
  match e with
  | Ev (Request c m path _) _ => c = clusterId k ∧ m = "DELETE" ∧ path = instancePath (project k) (name k) EmptyString
  | _ => False
  end.
Definition sets_state (k : InstanceKey) (a : Action) (e : ev) : Prop :=
  match e with
  | Ev (Request c m path (StateBody act _)) _ =>
      c = clusterId k ∧ m = "PUT" ∧ path = instancePath (project k) (name k) "/state" ∧ act = show_action a
  | _ => False
  end.
(** A read that answered an instance of some kind. *)
Definition reads (k : InstanceKey) (Q : Instance → Prop) (e : ev) : Prop :=
  match e with
  | Ev (Get DInstance c path) (inr i) => c = clusterId k ∧ path = instancePath (project k) (name k) EmptyString ∧ Q i
  | _ => False
  end.
(** Anything but a request to delete. *)
Definition calm (e : ev) : Prop := match e with Ev (Request _ m _ _) _ => m ≠ "DELETE" | _ => True end.

Lemma calm_get e : is_get e → calm e.
Proof. destruct e as [X c x]. by destruct c. Qed.
Lemma calm_deletes k e : calm e → ¬ deletes k e.
Proof. destruct e as [X c x]. destruct c; simpl; naive_solver. Qed.
Lemma calm_sets_state k a e : sets_state k a e → calm e.
Proof. destruct e as [X c x]. destruct c; simpl; [|done..]. destruct b; [done| |done..]. by intros (_ & -> & _). Qed.
Lemma calm_migration o e : migration_call o e → calm e.
Proof. destruct e as [X c x]. destruct c; simpl; try done. by intros (-> & _). Qed.
Lemma deletes_same k k' e : deletes k e → deletes k' e →
  clusterId k = clusterId k' ∧ instancePath (project k) (name k) EmptyString = instancePath (project k') (name k') EmptyString.
Proof. destruct e as [X c x]. destruct c; simpl; [|done..]. by intros (-> & _ & ->) (-> & _ & ->). Qed.

Lemma setState_calls k a : emits (λ e, is_get e ∨ sets_state k a e) (setState (clusterId k) (project k) (name k) a).
Proof.
  eapply emits_mono, setState_emits. intros e [He|He]; [by left|right]. destruct e as [X c x]. destruct c; simpl in *; [|done..].
  destruct He as (-> & -> & -> & ->). done.
Qed.
Lemma delete_calls k :
  emits (λ e, is_get e ∨ deletes k e) (incusDo (clusterId k) "DELETE" (instancePath (project k) (name k) EmptyString) NoBody).
Proof.
  eapply emits_mono, incusDo_emits. intros e [He|He]; [by left|right]. destruct e as [X c x]. destruct c; simpl in *; [|done..].
  by destruct He as (-> & -> & -> & _).
Qed.
Lemma setState_calm c pr n a : emits calm (setState c pr n a).
Proof. apply (emits_mono _ _ _ (λ e He, match He with or_introl h => calm_get e h | or_intror h => calm_sets_state _ _ e h end) (setState_calls (c, pr, n) a)). Qed.
Lemma progress_calm st : emits calm (progress st).
Proof. unfold progress. emits_all. exact I. Qed.
Lemma readInstance_calm c pr n : emits calm (readInstance c pr n).
Proof. eapply emits_mono, readInstance_emits. apply calm_get. Qed.
Lemma db_calm {X} (q : query X) : emits calm (attempt (Db q)).
Proof. emits_all. exact I. Qed.
#[export] Hint Resolve setState_calm progress_calm readInstance_calm @db_calm : prog.

Lemma wp_readInstance k (Q : outcome exn (option Instance) → list ev → Prop) tr :
  (∀ i e, reads k (λ i', i' = i) e → Q (Returned (Some i)) (tr ++ [e])) →
  (∀ e, is_get e → Q (Returned None) (tr ++ [e]) ∧ ∀ x, Q (Raised x) (tr ++ [e])) →
  wp (readInstance (clusterId k) (project k) (name k)) Q tr.
Proof.
  intros Hi Hn. apply wp_try, wp_bind, wp_attempt.
  - intros f. destruct (is_missing _); by apply Hn.
  - intros i. apply Hi. by split.
Qed.

Lemma wp_sourceFacts k tr :
  wp (sourceFacts (clusterId k) (project k) (name k))
    (λ r tr', ∃ evs, tr' = tr ++ evs ∧ Forall calm evs
      ∧ ∀ s, r = Returned s → Exists (reads k (λ i, in_type i = s_type s)) evs) tr.
Proof.
  assert (∀ (A : Type) (p : P A) tr0 evs0, emits is_get p → Forall calm evs0 → wp p (λ r tr', ∃ evs, tr' = tr0 ++ evs0 ++ evs ∧ Forall calm (evs0 ++ evs)) (tr0 ++ evs0)) as Hget.
  { intros A p tr0 evs0 Hp H0. apply (wp_emits_weaken is_get); [done|]. intros r evs HF. exists evs.
    rewrite (assoc_L (++)). split; [done|]. apply Forall_app. split; [done|]. eapply Forall_impl; [exact HF|apply calm_get]. }
  unfold sourceFacts. apply wp_bind, wp_attempt; [intros f; exists [Ev (Get DServer (clusterId k) "/1.0") (inl f)]; split; [done|]; split; [by repeat constructor|done]|].
  intros server. set (e1 := Ev _ _). apply wp_bind, wp_readInstance.
  - intros i e Hi. apply wp_bind. rewrite <- (assoc_L (++)).
    eapply wp_mono; [apply (Hget _ _ tr ([e1] ++ [e]))|].
    + unfold or_empty. emits_all; exact I.
    + repeat constructor. destruct e as [X c x]. by destruct c.
    + intros r tr' (evs & -> & HF). destruct r as [snaps|x|].
      * eexists. split; [reflexivity|]. split; [done|]. intros s [= <-]. simpl. right. left.
        destruct e as [X c x]. destruct c; try done. destruct d; try done. destruct x; try done. simpl in *. naive_solver.
      * eexists. split; [reflexivity|]. split; [done|]. done.
      * eexists. split; [reflexivity|]. split; [done|]. done.
  - intros e He. split.
    + apply wp_bind. rewrite <- (assoc_L (++)). eapply wp_mono; [apply (Hget _ _ tr ([e1] ++ [e]))|].
      * unfold or_empty. emits_all; exact I.
      * repeat constructor. by apply calm_get.
      * intros [snaps|x|] tr' (evs & -> & HF); eexists; (split; [reflexivity|]; by split).
    + intros x. exists [e1; e]. rewrite <- (assoc_L (++)). split; [done|]. split; [|done]. repeat constructor. by apply calm_get.
Qed.

(** ** The shape of a run *)

Section migrate.
Context (JSON_parse : string → option Json) (transfer : TransferOptions → P Transport) `{Htr : !Transfers transfer}.
Context (j : Job) (p : MigratePayload).
Abbreviation from := (from_key p).
Abbreviation to := (to_key p).

(** The target's operation ended well. *)
Definition arrived (e : ev) : Prop :=
  match e with Ev (Get DStatus c _) (inr st) => c = clusterId to ∧ os_status st = "Success" | _ => False end.
(** The source was read, the transfer ended well, and then the copy was read, of
    the same type; nothing stopped or deleted it since. *)
Definition verified (tr : list ev) : Prop :=
  ∃ a e b ty, tr = a ++ e :: b ∧ Exists (reads from (λ i, in_type i = ty)) a ∧ Exists arrived a
    ∧ reads to (λ i, in_type i = ty) e ∧ Forall (λ e, ¬ sets_state to Stop e ∧ ¬ deletes to e) b.
(** The copy bears the job's tag. *)
Definition owned (e : ev) : Prop := reads to (λ i, in_config i !! TAG_JOB = Some (job_id j)) e.

(** The calls after the commit, and those of a rollback. *)
Definition after_commit (e : ev) : Prop := calm e ∧ ¬ sets_state to Stop e ∨ deletes from e.
Definition undoing (e : ev) : Prop := calm e ∨ deletes to e.

Definition committed_run (tr : list ev) : Prop :=
  ∃ pre post, tr = pre ++ post ∧ is_move p = true ∧ verified pre ∧ Forall calm pre ∧ Forall after_commit post.
Definition undone_run {A} (r : outcome exn A) (tr : list ev) : Prop :=
  ∃ pre e post, tr = pre ++ e :: post ∧ Forall calm pre ∧ owned e ∧ Forall undoing post ∧ ∀ x, r ≠ Returned x.
Definition shaped {A} (r : outcome exn A) (tr : list ev) : Prop := Forall calm tr ∨ committed_run tr ∨ undone_run r tr.

Context (Hdist : ∀ sub, sub = EmptyString ∨ sub = "/state" →
  (clusterId from, instancePath (project from) (name from) sub) ≠ (clusterId to, instancePath (project to) (name to) sub)).

Lemma from_not_to e : deletes from e → ¬ deletes to e.
Proof. intros H1 H2. destruct (deletes_same _ _ _ H1 H2) as [Hc Hp]. apply (Hdist EmptyString); [by left|exact (f_equal2 pair Hc Hp)]. Qed.

Lemma stop_from_not_to a b e : sets_state from a e → ¬ sets_state to b e.
Proof.
  destruct e as [X c x]. destruct c; simpl; [|done..]. destruct b0; [done| |done..].
  intros (-> & _ & -> & _) (Hc & _ & Hp & _). apply (Hdist "/state"); [by right|]. exact (f_equal2 pair Hc Hp).
Qed.

Lemma stop_source_calm source : emits calm (stop_source p source).
Proof. unfold stop_source. emits_all; eauto with prog; exact I. Qed.

Lemma after_commit_get e : is_get e → after_commit e.
Proof. intros He. left. split; [by apply calm_get|]. destruct e as [X c x]. destruct c; simpl in *; tauto. Qed.

Lemma delete_source_calls : emits after_commit (delete_source p).
Proof.
  unfold delete_source. emits_all.
  - unfold progress. emits_all. left. simpl. tauto.
  - eapply emits_mono, readInstance_emits. apply after_commit_get.
  - eapply emits_mono, (setState_calls from). intros e [He|He]; [by apply after_commit_get|].
    left. split; [by eapply calm_sets_state|by eapply stop_from_not_to].
  - eapply emits_mono, (delete_calls from). intros e [He|He]; [by apply after_commit_get|by right].
Qed.

Lemma hand_over_calls lease : emits after_commit (hand_over j p lease).
Proof. unfold hand_over. emits_all; first [exact I|left; simpl; tauto]. Qed.
Lemma hand_over_calm lease : emits calm (hand_over j p lease).
Proof. unfold hand_over. emits_all; exact I. Qed.

(** *** Up to the commit *)

Lemma wp_copy_over d s source r tr :
  cl_id d = clusterId to → Exists (reads from (λ i, in_type i = s_type source)) tr →
  wp (copy_over transfer j p s d source r)
    (λ res tr', ∃ evs, tr' = tr ++ evs ∧ Forall calm evs ∧ ∀ x, res = Returned x → verified tr') tr.
Proof.
  intros Hd Hs. apply (wp_mono _ (λ res tr', (∀ x, res = Returned x → verified tr') ∧ ∃ evs, tr' = tr ++ evs ∧ Forall calm evs));
    [|naive_solver].
  apply wp_and.
  2: { apply wp_emits. unfold copy_over. emits_all; eauto with prog; try exact I.
       - eapply emits_mono, transfer_emits. apply calm_migration.
       - unfold stop_if_aborted. emits_all; exact I. }
  unfold copy_over. apply wp_bind, (wp_emits_weaken calm); [eauto with prog|]. intros [_u|x|] e1 _; [|done..].
  apply wp_bind, (wp_mono _ _ _ _ (wp_extends _ _ _ (transfer_done _ _))). intros [t|x|] tr' [Hdone [e2 ->]]; [|done..].
  destruct (Hdone t eq_refl) as (evs & Heq & Hex). apply app_inv_head in Heq as ->. clear Hdone.
  apply wp_bind, (wp_emits_weaken calm); [eauto with prog|]. intros [_u'|x|] e3 _; [|done..].
  set (before := _ ++ e3).
  assert (Exists (reads from (λ i, in_type i = s_type source)) before ∧ Exists arrived before) as [Hfrom Harr].
  { unfold before. rewrite !Exists_app. split; [by do 3 left|]. left. right. eapply Exists_impl; [exact Hex|].
    intros [X c x]. unfold completes, arrived. destruct c; simpl; try done. destruct d0; try done. destruct x; [done|]. simpl. by rewrite Hd. }
  clearbody before. clear Hs Hex.
  apply wp_bind, (wp_readInstance to); [|intros e He; by split]. intros i e Hi.
  destruct (bool_decide_reflect (in_type i = s_type source)) as [Hty|]; [|done]. cbn [negb].
  assert (∀ F (b : list ev), (∀ e, F e → ¬ sets_state to Stop e ∧ ¬ deletes to e) → Forall F b → verified ((before ++ [e]) ++ b)) as Hver.
  { intros F b HF Hb. exists before, e, b, (s_type source). rewrite <- (assoc_L (++)). split; [done|]. split; [done|]. split; [done|].
    split; [|by eapply Forall_impl]. destruct e as [X c x]. destruct c; try done. destruct d0; try done. destruct x; [done|].
    simpl in *. naive_solver. }
  apply (wp_emits_weaken (λ e, is_get e ∨ sets_state to Start e ∨ match e with Ev (Progress _ _) _ | Ev (Db _) _ | Ev Aborted _ => True | _ => False end)).
  - unfold progress, stop_if_aborted. emits_all; try exact I; auto.
    eapply emits_mono, (setState_calls to). naive_solver.
  - intros res evs' HF x _. apply (Hver _ _) in HF; [done|]. clear. intros e [He|[He|He]].
    + destruct e as [X c x]. destruct c; simpl in *; tauto.
    + split; [|by eapply calm_deletes, calm_sets_state]. destruct e as [X c x]. destruct c; simpl in *; [|done..].
      destruct b; [done| |done..]. destruct He as (_ & _ & _ & ->). by intros (_ & _ & _ & ?).
    + destruct e as [X c x]. destruct c; simpl in *; tauto.
Qed.

(** *** The block and its rollback *)

Definition block_post (r : outcome (exn * Locals) Transport) (tr : list ev) : Prop :=
  match r with
  | Raised (e, l) => if committed l then committed_run tr else Forall calm tr
  | _ => Forall calm tr ∨ committed_run tr
  end.

Lemma committed_snoc tr evs : committed_run tr → Forall after_commit evs → committed_run (tr ++ evs).
Proof.
  intros (pre & post & -> & ? & ? & ? & ?) Hevs. exists pre, (post ++ evs). rewrite (assoc_L (++)).
  repeat (split; [done|]). by apply Forall_app.
Qed.

Lemma commits tr : verified tr → is_move p = true → Forall calm tr → committed_run tr.
Proof. intros. exists tr, []. rewrite app_nil_r. by repeat (split; [done|]). Qed.

Lemma wp_block s d source r tr :
  cl_id d = clusterId to → Exists (reads from (λ i, in_type i = s_type source)) tr → Forall calm tr →
  wp (migrate_block transfer j p s d source r) block_post tr.
Proof.
  intros Hd Hs Hc. unfold migrate_block.
  apply wp_bind, wp_leaving, (wp_emits_weaken calm); [apply stop_source_calm|].
  intros [stopped|e|] e1 H1; [|by apply Forall_app|by left; apply Forall_app].
  apply wp_bind, wp_leaving. eapply wp_mono; [apply (wp_copy_over d s source r); [done|by apply Exists_app; left]|].
  intros res tr' (e2 & -> & H2 & Hver). assert (Forall calm ((tr ++ e1) ++ e2)) as Hcalm by (by rewrite !Forall_app).
  set (tr2 := _ ++ e2) in *. clearbody tr2. clear Hc Hs H1 H2 e1 e2 tr.
  destruct res as [[t lease]|e|]; [|done|by left]. specialize (Hver _ eq_refl).
  apply wp_bind, wp_leaving. destruct (is_move p) eqn:Hm.
  - eapply (wp_emits_weaken after_commit); [apply delete_source_calls|]. intros [x|e|] e3 H3.
    + apply wp_bind, wp_leaving, (wp_emits_weaken after_commit); [apply hand_over_calls|].
      assert (∀ e4, Forall after_commit e4 → committed_run ((tr2 ++ e3) ++ e4)) as Hrun.
      { intros e4 H4. apply committed_snoc; [|done]. apply committed_snoc; [|done]. by apply commits. }
      intros [y|e|] e4 H4; [right|simpl|right]; by apply Hrun.
    + apply committed_snoc; [|done]. by apply commits.
    + right. apply committed_snoc; [|done]. by apply commits.
  - apply wp_bind, wp_leaving, (wp_emits_weaken calm); [apply hand_over_calm|].
    intros [y|e|] e4 H4; [left| |left]; by apply Forall_app.
Qed.

Lemma wp_rollback e l tr :
  (if committed l then committed_run tr else Forall calm tr) → wp (rollback j p e l) shaped tr.
Proof.
  unfold rollback. destruct (committed l); intros Htr0; [by right; left|].
  apply wp_bind, (wp_emits_weaken calm); [apply progress_calm|]. intros [x|x|] e1 H1; [|by left; apply Forall_app..].
  set (tr1 := tr ++ e1). assert (Forall calm tr1) as Hc by (by apply Forall_app). clearbody tr1. clear Htr0 H1 e1 tr.
  assert (∀ (A : Type) (a : P unit) (x : exn) tr, Forall calm tr → emits calm a → wp (_ ← a; Raise x : P A) shaped tr) as Hcalm.
  { intros A a y tr Ht Ha. apply wp_bind, (wp_emits_weaken calm); [done|]. intros [z|z|] evs H; left; by apply Forall_app. }
  assert (emits calm (if stoppedSource l then quietly (setState (mp_sourceClusterId p) (mp_sourceProject p) (mp_name p) Start) else Ret tt)) as Hstart.
  { emits_all; eauto with prog; exact I. }
  apply wp_bind, wp_try, (wp_readInstance to); [|intros e1 He1; split; [|intros y]].
  - intros i er Hi. cbn [or_empty].
    assert (Forall calm (tr1 ++ [er])) as Hc1.
    { apply Forall_app. split; [done|]. repeat constructor. destruct er as [X c x0]. by destruct c. }
    destruct (bool_decide_reflect (in_config i !! TAG_JOB = Some (job_id j))) as [Htag|].
    + apply (wp_throws undoing).
      * repeat (apply throws_bind; intros ?). exact I.
      * assert (∀ e, calm e → undoing e) as Hu by (by left).
        emits_all; try exact I; try (eapply (emits_mono calm); [done|]; eauto with prog; fail).
        eapply emits_mono, (delete_calls to). intros e2 [He|He]; [left; by apply calm_get|by right].
      * intros r evs Hr HF. right; right. exists tr1, er, evs. rewrite <- (assoc_L (++)). split; [done|]. split; [done|].
        split; [|done]. destruct er as [X c x0]. destruct c; try done. destruct d; try done. destruct x0; [done|]. simpl in *. naive_solver.
    + apply wp_bind. by apply (Hcalm Transport).
  - apply wp_bind. apply (Hcalm Transport); [|done]. apply Forall_app. split; [done|]. repeat constructor. by apply calm_get.
  - apply wp_bind. apply (Hcalm Transport); [|done]. apply Forall_app. split; [done|]. repeat constructor. by apply calm_get.
Qed.

Lemma wp_migrate : wp (migrateHandler JSON_parse transfer j p) shaped [].
Proof.
  unfold migrateHandler.
  apply wp_bind, wp_bind, wp_attempt; [left; by repeat constructor|]. intros rs.
  apply wp_bind, wp_bind, wp_attempt; [left; by repeat constructor|]. intros rd.
  set (tr0 := _ ++ _). assert (Forall calm tr0) as H0 by (by repeat constructor). clearbody tr0.
  apply wp_bind, (wp_emits_weaken calm); [apply progress_calm|]. intros [x|x|] e1 H1; [|left; by apply Forall_app..].
  apply wp_bind, (wp_mono _ _ _ _ (wp_sourceFacts from _)). intros r1 tr' (e2 & -> & H2 & Hs).
  assert (Forall calm ((tr0 ++ e1) ++ e2)) as H3 by (by rewrite !Forall_app). destruct r1 as [source|x0|]; [|by left..].
  specialize (Hs source eq_refl).
  apply wp_bind, (wp_emits_weaken calm); [eapply emits_mono, targetFacts_emits; apply calm_get|].
  intros [target|x0|] e3 H4; [|left; by apply Forall_app..].
  assert (Forall calm (((tr0 ++ e1) ++ e2) ++ e3)) as H5 by (by apply Forall_app).
  destruct (negb _); [by left|]. apply wp_finally, wp_catch_with.
  eapply wp_mono; [apply wp_block; [done|by rewrite !Exists_app; left; right|done]|].
  assert (∀ (r : outcome exn Transport) tr, shaped r tr → wp (refreshInventory [mp_sourceClusterId p; mp_targetClusterId p])
    (λ rf tr'', match rf with Returned _ => shaped r tr'' | Raised e => shaped (Raised e : outcome exn Transport) tr''
                | Running => shaped (Running : outcome exn Transport) tr'' end) tr) as Hfin.
  { intros r tr Hr. apply (wp_emits_weaken (λ e, calm e ∧ after_commit e)).
    { unfold refreshInventory. emits_all. simpl. split; [done|]. left. simpl. tauto. }
    intros rf evs Hevs.
    assert (∀ r', (∀ x, r' ≠ Returned x) ∨ r' = r → shaped r' (tr ++ evs)) as Hall.
    { intros r' Hr'. destruct Hr as [Hr|[Hr|(a & e & b & -> & Ha & He & Hb & Hn)]].
      - left. apply Forall_app. split; [done|]. eapply Forall_impl; [exact Hevs|]. naive_solver.
      - right; left. apply committed_snoc; [done|]. eapply Forall_impl; [exact Hevs|]. naive_solver.
      - right; right. exists a, e, (b ++ evs). rewrite <- (assoc_L (++)). split; [done|]. do 2 (split; [done|]). split.
        + apply Forall_app. split; [done|]. eapply Forall_impl; [exact Hevs|]. intros ? [? _]. by left.
        + destruct Hr' as [Hr'| ->]; done. }
    destruct rf; apply Hall; [by right|by left|by left]. }
  intros [t|[e l]|] tr Hb; [apply Hfin|..]; simpl in Hb.
  - destruct Hb; [by left|by right; left].
  - apply (wp_mono _ _ _ _ (wp_rollback e l tr Hb)). intros [x0|e0|] tr' Hr; [by apply Hfin|by apply Hfin|exact Hr].
  - destruct Hb; [by left|by right; left].
Qed.
End migrate.

(** ** Theorems *)

(** Names are text, and the copy is not the source. *)
Definition named_apart (p : MigratePayload) : bool :=
  utf8 (mp_sourceProject p) && utf8 (mp_name p) && utf8 (mp_targetProject p) && utf8 (mp_targetName p)
  && negb (bool_decide (from_key p = to_key p)).

Lemma named_apart_paths p : named_apart p = true → ∀ sub, sub = EmptyString ∨ sub = "/state" →
  (clusterId (from_key p), instancePath (project (from_key p)) (name (from_key p)) sub)
  ≠ (clusterId (to_key p), instancePath (project (to_key p)) (name (to_key p)) sub).
Proof.
  unfold named_apart. rewrite !andb_true_iff. intros [[[[H1 H2] H3] H4] H5] sub Hsub Heq.
  apply negb_true_iff, bool_decide_eq_false in H5. pose proof (f_equal fst Heq) as Hc. pose proof (f_equal snd Heq) as Hp.
  cbn [fst snd] in Hc, Hp. apply H5.
  apply instancePath_inj in Hp as [Hpr Hn]; [|done..|]; [|by destruct Hsub as [-> | ->]].
  unfold clusterId, project, name, from_key, to_key in *. simpl in *. congruence.
Qed.

Lemma split_at {A} (pre pre' : list A) e post post' : pre ++ e :: post = pre' ++ post' →
  e ∈ pre' ∨ ∃ k, pre = pre' ++ k ∧ post' = k ++ e :: post.
Proof.
  intros Heq. apply app_eq_inv in Heq as [(k & -> & ->)|(k & -> & Hk)]; [right; by exists k|].
  destruct k as [|x k]; simpl in Hk.
  - right. exists []. rewrite !app_nil_r. by split.
  - injection Hk as <- _. left. apply elem_of_app. right. left.
Qed.

Section theorems.
Context (JSON_parse : string → option Json) (transfer : TransferOptions → P Transport) `{!Transfers transfer}.

(** C10: whatever the services answer, a job that deletes its source is a move that had read the source, seen the
    transfer end well and read the copy, of the same type; it neither stops nor deletes the copy after that read. *)
Theorem source_kept_until_copied j p orc pre e post :
  named_apart p = true →
  (run orc (migrateHandler JSON_parse transfer j p) []).2 = pre ++ e :: post → deletes (from_key p) e →
  mp_mode p = Move ∧ verified p pre ∧ Forall (λ e, ¬ deletes (to_key p) e ∧ ¬ sets_state (to_key p) Stop e) post.
Proof.
  intros Hn Htr He. pose proof (wp_run _ _ orc [] (wp_migrate JSON_parse transfer j p (named_apart_paths p Hn))) as Hs.
  rewrite Htr in Hs. destruct Hs as [Hs|[(pre' & post' & Heq & Hm & Hv & Hc & Ha)|(pre' & r & post' & Heq & Hc & Ho & Hu & _)]].
  - exfalso. apply Forall_app in Hs as [_ Hs]. inversion Hs; subst. by eapply calm_deletes.
  - apply split_at in Heq as [Hin|(k & -> & ->)]; [exfalso; eapply Forall_forall in Hc; [|done]; by eapply calm_deletes|].
    apply Forall_app in Ha as [Hk Ha]. inversion Ha as [|? ? _ Hpost]; subst.
    assert (∀ e, after_commit p e → ¬ sets_state (to_key p) Stop e ∧ ¬ deletes (to_key p) e) as Hleft.
    { intros e' [[Hc' Hs']|Hd]; [split; [done|by eapply calm_deletes]|].
      split; [intros Hst%calm_sets_state; by eapply calm_deletes|by eapply (from_not_to p (named_apart_paths p Hn))]. }
    split; [by apply bool_decide_eq_true in Hm|]. split.
    + destruct Hv as (a & r & b & ty & -> & Hf & Har & Hr & Hb). exists a, r, (b ++ k), ty. rewrite <- (assoc_L (++)).
      repeat (split; [done|]). apply Forall_app. split; [done|]. by eapply Forall_impl.
    + eapply Forall_impl; [exact Hpost|]. intros e' He'. by apply and_comm, Hleft.
  - exfalso. rewrite (cons_middle r pre' post'), (assoc_L (++) pre') in Heq. apply split_at in Heq as [Hin|(k & -> & ->)].
    + apply elem_of_app in Hin as [Hin| ->%list_elem_of_singleton]; [eapply Forall_forall in Hc; [|done]; by eapply calm_deletes|].
      destruct r as [X c x]. by destruct c.
    + apply Forall_app in Hu as [_ Hu]. inversion Hu as [|? ? [Hcalm|Hdel] _]; subst; [by eapply calm_deletes|].
      by eapply (from_not_to p (named_apart_paths p Hn)).
Qed.
(** A job deletes at the target only in a rollback, after a read there answered an instance that bears the job's
    tag; it then never deletes its source, and fails. *)
Theorem rollback_only_own_copy j p orc pre e post :
  named_apart p = true →
  (run orc (migrateHandler JSON_parse transfer j p) []).2 = pre ++ e :: post → deletes (to_key p) e →
  Exists (owned j p) pre ∧ Forall (λ e, ¬ deletes (from_key p) e) (pre ++ e :: post)
  ∧ ∀ x, (run orc (migrateHandler JSON_parse transfer j p) []).1 ≠ Returned x.
Proof.
  intros Hn Htr He. pose proof (wp_run _ _ orc [] (wp_migrate JSON_parse transfer j p (named_apart_paths p Hn))) as Hs.
  assert (∀ e, deletes (to_key p) e → deletes (from_key p) e → False) as Hapart.
  { intros e' Ht Hf. by eapply (from_not_to p (named_apart_paths p Hn)). }
  rewrite Htr in Hs. destruct Hs as [Hs|[(pre' & post' & Heq & Hm & Hv & Hc & Ha)|(pre' & r & post' & Heq & Hc & Ho & Hu & Hx)]].
  - exfalso. apply Forall_app in Hs as [_ Hs]. inversion Hs; subst. by eapply calm_deletes.
  - exfalso. apply split_at in Heq as [Hin|(k & -> & ->)]; [eapply Forall_forall in Hc; [|done]; by eapply calm_deletes|].
    apply Forall_app in Ha as [_ Ha]. inversion Ha as [|? ? [[Hcalm _]|Hd] _]; subst; [by eapply calm_deletes|by eapply Hapart].
  - split; [|split; [|done]].
    + rewrite (cons_middle r pre' post'), (assoc_L (++) pre') in Heq. apply split_at in Heq as [Hin|(k & -> & ->)].
      * exfalso. apply elem_of_app in Hin as [Hin| ->%list_elem_of_singleton]; [eapply Forall_forall in Hc; [|done]; by eapply calm_deletes|].
        destruct r as [X c x]. by destruct c.
      * rewrite !Exists_app. left; right. by left.
    + rewrite Heq. apply Forall_app. split; [|constructor].
      * eapply Forall_impl; [exact Hc|]. intros e'. by apply calm_deletes.
      * destruct r as [X c x]. destruct c; simpl in *; tauto.
      * eapply Forall_impl; [exact Hu|]. intros e' [Hcalm|Hd]; [by apply calm_deletes|]. intros Hf. by eapply Hapart.
Qed.
End theorems.

(** ** What a failed move leaves *)

Section restart.
Context (JSON_parse : string → option Json) (transfer : TransferOptions → P Transport) `{Htr : !Transfers transfer}.
Context (j : Job) (p : MigratePayload).
Abbreviation from := (from_key p).
Abbreviation to := (to_key p).
Abbreviation stops := (sets_state from Stop).

Definition at_stage (st : string) (e : ev) : Prop := match e with Ev (Progress st' _) _ => st' = st | _ => False end.
(** The transfer was announced: what came before it, stopping the source included, succeeded. *)
Abbreviation transferring := (at_stage "transferring").
(** The source's delete was announced: the point of no return. *)
Abbreviation deleting := (at_stage "deleting the source").
(** The rollback could not begin: writing its progress failed. *)
Definition rollback_blocked (e : ev) : Prop :=
  match e with Ev (Progress st _) (inl _) => st = "rolling back" | _ => False end.
Definition restarted (e : ev) : Prop := sets_state from Start e ∨ rollback_blocked e.

Definition settled (tr : list ev) : Prop :=
  Forall (λ e, ¬ transferring e) tr ∨ Forall (λ e, ¬ stops e) tr ∨ Exists deleting tr ∨ Exists restarted tr.

Context (Hdist : ∀ sub, sub = EmptyString ∨ sub = "/state" →
  (clusterId from, instancePath (project from) (name from) sub) ≠ (clusterId to, instancePath (project to) (name to) sub)).

(** Neither announces the transfer nor stops the source. *)
Definition idle (e : ev) : Prop := ¬ transferring e ∧ ¬ stops e.

Lemma settled_app tr evs : settled tr → Forall idle evs → settled (tr ++ evs).
Proof.
  intros Hs Hi. unfold settled. rewrite !Forall_app, !Exists_app. destruct Hs as [Hs|[Hs|[Hs|Hs]]]; [left|right; left|tauto..];
    (split; [done|eapply Forall_impl; [exact Hi|]]); by intros e [].
Qed.

Lemma idle_get e : is_get e → idle e.
Proof. destruct e as [X c x]. unfold idle. destruct c; simpl; tauto. Qed.
Lemma idle_start k : emits idle (setState (clusterId k) (project k) (name k) Start).
Proof.
  eapply emits_mono, (setState_calls k). intros e [He|He]; [by apply idle_get|]. destruct e as [X c x].
  unfold idle. destruct c; simpl in *; [|tauto..]. destruct b; [tauto| |tauto..]. destruct He as (_ & _ & _ & ->). split; [tauto|].
  intros (_ & _ & _ & H). discriminate H.
Qed.
Lemma idle_stop_to : emits idle (setState (clusterId to) (project to) (name to) Stop).
Proof.
  eapply emits_mono, (setState_calls to). intros e [He|He]; [by apply idle_get|]. split.
  - destruct e as [X c x]. destruct c; simpl in *; tauto.
  - intros Hs. by eapply (stop_from_not_to p Hdist).
Qed.
Lemma idle_delete k : emits idle (incusDo (clusterId k) "DELETE" (instancePath (project k) (name k) EmptyString) NoBody).
Proof.
  eapply emits_mono, (delete_calls k). intros e [He|He]; [by apply idle_get|]. destruct e as [X c x].
  unfold idle. destruct c; simpl in *; [|tauto..]. split; [tauto|]. destruct He as (_ & -> & _). destruct b; [tauto| |tauto..].
  intros (_ & H & _). discriminate H.
Qed.
Lemma idle_progress st : st ≠ "transferring" → emits idle (progress st).
Proof. intros Hst. unfold progress. emits_all. split; simpl; [congruence|tauto]. Qed.
Lemma idle_db {X} (q : query X) : emits idle (attempt (Db q)).
Proof. emits_all. split; simpl; tauto. Qed.

Lemma stops_migration o e : migration_call o e → ¬ stops e.
Proof. destruct e as [X c x]. destruct c; simpl; try tauto. intros (-> & _). destruct b; [tauto| |tauto..]. intros (_ & H & _). discriminate H. Qed.

Lemma restart_starts (tr : list ev) :
  wp (quietly (setState (clusterId from) (project from) (name from) Start)) (λ r tr', Exists restarted tr') tr.
Proof.
  apply wp_quietly, wp_try, wp_bind, wp_attempt.
  - intros f. destruct (str_contains _ _); apply Exists_app; right; left; by left.
  - intros v. assert (∀ evs, Exists restarted ((tr ++ [Ev (Request (clusterId from) "PUT" (instancePath (project from) (name from) "/state")
      (StateBody (show_action Start) false)) (inr v)]) ++ evs)) as Hall.
    { intros evs. rewrite !Exists_app. left; right; left. by left. }
    apply (wp_emits_weaken (λ _, True)); [apply emits_any|]. intros [x|e|] evs _; [apply Hall| |apply Hall].
    destruct (str_contains _ _); apply Hall.
Qed.

Lemma wp_rollback_settled e l tr :
  (if committed l then Exists deleting tr else stoppedSource l = true ∨ settled tr) →
  wp (rollback j p e l) (λ _, settled) tr.
Proof.
  unfold rollback. destruct (committed l); intros Hl; [by right; right; left|].
  apply wp_bind, wp_attempt; [intros f; right; right; right; apply Exists_app; right; left; by right|].
  intros u. apply wp_bind, (wp_returns idle).
  { apply returns_try; [apply readInstance_finite|done]. }
  { apply emits_try; [|intros ?; exact I]. eapply emits_mono, readInstance_emits. apply idle_get. }
  intros copy e1 H1. apply wp_bind, (wp_returns idle).
  { destruct copy as [c|]; [|exact I]. destruct (bool_decide _); [|exact I]. apply returns_bind; [|intros ?].
    - destruct (bool_decide _); [|exact I]. apply returns_try; [apply setState_finite|done].
    - apply returns_try; [apply incusDo_finite|done]. }
  { destruct copy as [c|]; [|exact I]. destruct (bool_decide _); [|exact I]. apply emits_bind; [|intros ?].
    - destruct (bool_decide _); [|exact I]. apply emits_quietly, idle_stop_to.
    - apply emits_quietly, (idle_delete to). }
  intros u' e2 H2. apply wp_bind. destruct (stoppedSource l).
  - eapply wp_mono; [apply restart_starts|]. intros [x|x|] tr' Hr; by right; right; right.
  - destruct Hl as [[=]|Hl]. apply settled_app; [|done]. apply settled_app; [|done]. apply settled_app; [done|].
    repeat constructor; simpl; [congruence|tauto].
Qed.

Lemma wp_delete_announced tr : wp (delete_source p) (λ _, Exists deleting) tr.
Proof.
  unfold delete_source. apply wp_bind, wp_attempt; [intros f; apply Exists_app; right; by left|]. intros u.
  apply (wp_emits_weaken (λ _, True)); [apply emits_any|]. intros r evs _. rewrite !Exists_app. left; right. by left.
Qed.

Lemma copy_over_stops s d source r : emits (λ e, ¬ stops e) (copy_over transfer j p s d source r).
Proof.
  assert (∀ e, idle e → ¬ stops e) as Hi by (by intros e []).
  unfold copy_over. emits_all; try exact I; try (unfold progress, stop_if_aborted; emits_all; try exact I; simpl; tauto).
  - eapply emits_mono, transfer_emits. intros e. apply stops_migration.
  - eapply emits_mono, readInstance_emits. intros e He. by apply Hi, idle_get.
  - eapply emits_mono, (idle_start to). exact Hi.
Qed.

Definition block_settled (r : outcome (exn * Locals) Transport) (tr : list ev) : Prop :=
  match r with
  | Raised (e, l) => if committed l then Exists deleting tr else stoppedSource l = true ∨ settled tr
  | Returned _ => settled tr
  | Running => True
  end.

Lemma hand_over_idle lease : emits idle (hand_over j p lease).
Proof. unfold hand_over. emits_all; first [exact I|split; simpl; tauto]. Qed.

(** From the commit on. *)
Lemma wp_finish_settled stopped t lease tr :
  (is_move p = false → stopped = false ∧ Forall (λ e, ¬ stops e) tr) →
  wp (_ ← leaving {| stoppedSource := stopped; committed := is_move p |} (if is_move p then delete_source p else Ret tt);
      _ ← leaving {| stoppedSource := stopped; committed := is_move p |} (hand_over j p lease);
      Ret t) block_settled tr.
Proof.
  intros Hcopy. apply wp_bind, wp_leaving. destruct (is_move p) eqn:Hm.
  - eapply wp_mono; [apply wp_delete_announced|]. intros [u|e|] tr' Hd; [|exact Hd|exact I].
    apply wp_bind, wp_leaving, (wp_emits_weaken idle); [apply hand_over_idle|].
    intros [u'|e|] evs _; [right; right; left| |exact I]; apply Exists_app; by left.
  - destruct (Hcopy eq_refl) as [-> Hs]. apply wp_bind, wp_leaving, (wp_emits_weaken idle); [apply hand_over_idle|].
    assert (∀ evs, Forall idle evs → settled (tr ++ evs)) as Hset by (intros evs; apply settled_app; by right; left).
    intros [u'|e|] evs He; [by apply Hset|right; by apply Hset|exact I].
Qed.

Abbreviation stopping :=
  (_ ← progress "stopping the source"; _ ← setState (clusterId from) (project from) (name from) Stop; Ret true).
Lemma stopping_emits tr : wp stopping (λ _ tr', ∃ evs, tr' = tr ++ evs ∧ Forall (λ e, ¬ transferring e) evs) tr.
Proof.
  apply wp_emits. unfold progress. emits_all; [simpl; congruence|]. eapply emits_mono, (setState_calls from). intros e.
  destruct e as [X c v]. destruct c; simpl; tauto.
Qed.
Lemma stopping_returns tr : wp stopping (λ r _, ∀ b, r = Returned b → b = true) tr.
Proof.
  apply wp_bind, (wp_emits_weaken (λ _, True)); [apply emits_any|]. intros [u|e|] e1 _; [|done..].
  apply wp_bind, (wp_emits_weaken (λ _, True)); [apply emits_any|]. intros [v|e|] e2 _; [|done..]. by intros b [= <-].
Qed.

Lemma wp_block_settled s d source r tr :
  Forall idle tr → wp (migrate_block transfer j p s d source r) block_settled tr.
Proof.
  intros Hidle. unfold migrate_block, stop_source. destruct (restarts p source) eqn:Hre.
  - assert (is_move p = true) as Hm by (unfold restarts in Hre; by destruct (is_move p)).
    apply wp_bind, wp_leaving, (wp_mono _ _ _ _ (wp_and _ _ _ _ (stopping_emits tr) (stopping_returns tr))).
    intros [b|e|] tr1 [(e1 & -> & H1) Hb]; [|right; left|exact I].
    + rewrite (Hb b eq_refl). apply wp_bind, wp_leaving, (wp_emits_weaken (λ _, True)); [apply emits_any|].
      intros [[t lease]|e|] e2 _; [|by left|exact I]. apply wp_finish_settled. congruence.
    + apply Forall_app. split; [|done]. eapply Forall_impl; [exact Hidle|]. by intros e' [].
  - apply wp_bind, wp_bind, wp_leaving, (wp_emits_weaken (λ e, ¬ stops e)); [apply copy_over_stops|].
    intros res e1 H1. assert (Forall (λ e, ¬ stops e) (tr ++ e1)) as Hs.
    { apply Forall_app. split; [|done]. eapply Forall_impl; [exact Hidle|]. by intros e' []. }
    destruct res as [[t lease]|e|]; [by apply wp_finish_settled|right; by right; left|exact I].
Qed.

Lemma wp_migrate_settled : wp (migrateHandler JSON_parse transfer j p) (λ r tr, ∀ e, r = Raised e → settled tr) [].
Proof.
  assert (∀ tr, Forall idle tr → settled tr) as Hidle.
  { intros tr Ht. left. eapply Forall_impl; [exact Ht|]. by intros e []. }
  unfold migrateHandler.
  apply wp_bind, wp_bind, wp_attempt; [intros f e _; apply Hidle; repeat constructor; simpl; tauto|]. intros rs.
  apply wp_bind, wp_bind, wp_attempt; [intros f e _; apply Hidle; repeat constructor; simpl; tauto|]. intros rd.
  set (tr0 := _ ++ _). assert (Forall idle tr0) as H0 by (repeat constructor; simpl; tauto). clearbody tr0.
  apply wp_bind, (wp_emits_weaken idle); [by apply idle_progress|]. intros [x|x|] e1 H1; [|intros e _; apply Hidle; by apply Forall_app..].
  apply wp_bind, (wp_emits_weaken idle); [eapply emits_mono, sourceFacts_emits; apply idle_get|].
  intros [source|x0|] e2 H2; [|intros e _; apply Hidle; by rewrite !Forall_app..].
  apply wp_bind, (wp_emits_weaken idle); [eapply emits_mono, targetFacts_emits; apply idle_get|].
  intros [target|x0|] e3 H3; [|intros e _; apply Hidle; by rewrite !Forall_app..].
  assert (Forall idle (((tr0 ++ e1) ++ e2) ++ e3)) as Hpre by (by rewrite !Forall_app).
  destruct (negb _); [intros e _; by apply Hidle|].
  apply wp_finally, wp_catch_with. eapply wp_mono; [by apply wp_block_settled|].
  assert (∀ (r : outcome exn Transport) tr, settled tr → wp (refreshInventory [mp_sourceClusterId p; mp_targetClusterId p])
    (λ rf tr'', match rf with Returned _ => ∀ e, r = Raised e → settled tr'' | Raised e => ∀ e', (Raised e : outcome exn Transport) = Raised e' → settled tr''
                | Running => ∀ e, (Running : outcome exn Transport) = Raised e → settled tr'' end) tr) as Hfin.
  { intros r tr Hs. apply (wp_emits_weaken idle); [apply idle_db|]. intros [u|e|] evs He e' _; by apply settled_app. }
  intros [t|[e l]|] tr Hb; [by apply Hfin| |done].
  eapply wp_mono; [by apply wp_rollback_settled|]. intros [x0|e0|] tr' Hr; [by apply Hfin|by apply Hfin|done].
Qed.
End restart.

(** C14: a move that fails after it stopped its source, once the stop was through (the transfer was announced) and before
    the delete of the source was announced, asks for the source to be started again, unless the database refused the
    progress of the rollback ([restarted]). A stop that Incus accepted but whose wait failed is not covered
    ([accepted_stop_not_undone]), nor is a failure of the delete itself. *)
Theorem failed_move_restarts_source JSON_parse transfer `{!Transfers transfer} j p orc e :
  named_apart p = true →
  (run orc (migrateHandler JSON_parse transfer j p) []).1 = Raised e →
  Exists (sets_state (from_key p) Stop) (run orc (migrateHandler JSON_parse transfer j p) []).2 →
  Exists (at_stage "transferring") (run orc (migrateHandler JSON_parse transfer j p) []).2 →
  ¬ Exists (at_stage "deleting the source") (run orc (migrateHandler JSON_parse transfer j p) []).2 →
  Exists (restarted p) (run orc (migrateHandler JSON_parse transfer j p) []).2.
Proof.
  intros Hn He Hstop Htrans Hdel.
  pose proof (wp_run _ _ orc [] (wp_migrate_settled JSON_parse transfer j p (named_apart_paths p Hn)) e He) as Hs.
  destruct Hs as [Hs|[Hs|[Hs|Hs]]]; [| |done|done]; exfalso;
    [apply Exists_exists in Htrans as (x & Hx & Ht)|apply Exists_exists in Hstop as (x & Hx & Ht)];
    eapply Forall_forall in Hs; eauto.
Qed.

(** ** Examples *)

Definition demo_migration (m : Mode) : MigratePayload :=
  {| mp_sourceClusterId := "A"; mp_sourceProject := "acme"; mp_name := "web"; mp_targetClusterId := "B"; mp_targetProject := "acme";
     mp_targetName := "web"; mp_mode := m; mp_live := false; mp_pool := Some "fast"; mp_transport := Auto |}.
Definition demo_job : Job := {| job_id := "job-1"; job_tenantId := None; job_actorType := "system"; job_actorId := "scheduler" |}.

Definition demo_instance (st : string) (cfg : config) : Instance :=
  {| in_name := "web"; in_type := Container; in_status := st; in_architecture := "x86_64"; in_config := cfg; in_expanded_config := ∅;
     in_devices := []; in_expanded_devices := [("root", demo_root)]; in_profiles := ["default"];
     in_ephemeral := None; in_stateful := None; in_description := None |}.
Definition demo_server : Server := {| sv_extensions := []; sv_clustered := false; sv_architectures := Some ["x86_64"] |}.

Definition demo_copy (st : string) : Instance := demo_instance st {["user.incuscloud.job" := "job-1"]}.

(** Two clusters: "web" runs on A, and [copy] is what a read on B answers. What
    instances and projects are called for otherwise is there; [fails] are the calls that are refused. *)
Definition demo_world (copy : option Instance) (fails : ev → bool) (X : Type) (c : call X) (tr : list ev) : X :=
  let answer X (c : call (answer X)) (x : X) : answer X :=
    if fails (Ev c (inr x)) then inl (Error "refused") else inr x in
  match c in call X return X with
  | Request c m p b =>
      answer _ (Request c m p b)
        (if bool_decide (m = "POST") then demo_started c else {| rs_async := false; rs_operation := None; rs_id := "x"; rs_secrets := None |})
  | Get d c p =>
      match d in doc X return fault + X with
      | DInstance =>
          if bool_decide (c = "A") then inr (demo_instance "Running" ∅)
          else match copy with Some i => inr i | None => inl (ClusterError 404 "not found") end
      | DServer => inr demo_server
      | DProject => inr ∅
      | DMembers => inr []
      | DNames => inr (if ends_with "storage-pools" p then ["/1.0/storage-pools/fast"]
                       else if starts_with "/1.0/profiles" p then ["/1.0/profiles/default"] else [])
      | DDevices => inr [("root", demo_root)]
      | DStatus => answer _ (Get DStatus c p) (status_is (if bool_decide (c = "B") then "Success" else "Running"))
      | _ => inl (Error "unavailable")
      end
  | Cancel c p => inr tt
  | Progress st m => answer _ (Progress st m) tt
  | ClientFor c => inr ("https://" +++ c, "PEM", c)
  | Db q =>
      match q in query X return fault + X with
      | LeaseOf k => inr None
      | PutLease _ _ | CarryOwner _ _ _ | RecordOwner _ _ | RefreshInventory _ => inr tt
      | q => unavailable (Db q)
      end
  | c => unavailable c
  end.

Definition migration_run (m : Mode) (copy : option Instance) (fails : ev → bool) : outcome exn Transport * list ev :=
  run (demo_world copy fails) (migrateHandler (λ _, None) (transfer 3) demo_job (demo_migration m)) [].

(** What was sent: the method, the cluster and the change of state of every request. *)
Definition sent (e : ev) : option string :=
  match e with
  | Ev (Request c m _ (StateBody a _)) _ => Some (m +++ " " +++ c +++ " " +++ a)
  | Ev (Request c m _ _) _ => Some (m +++ " " +++ c)
  | _ => None
  end.

Example demo_move : let r := migration_run Move (Some (demo_copy "Stopped")) (λ _, false) in
  r.1 = Returned Direct
  ∧ omap sent r.2 = ["PUT A stop"; "POST B"; "POST A"; "PUT B start"; "PUT A stop"; "DELETE A"].
Proof. vm_compute. by split. Qed.

(** *** Finding a call in a trace *)

(** The part of a trace before its first event of some kind, and the rest. *)
Fixpoint cut (f : ev → bool) (tr : list ev) : list ev * list ev :=
  match tr with
  | [] => ([], [])
  | e :: tr => if f e then ([], e :: tr) else let '(a, b) := cut f tr in (e :: a, b)
  end.
Lemma cut_found f tr : some f tr = true → ∃ e post, tr = (cut f tr).1 ++ e :: post ∧ f e = true.
Proof.
  induction tr as [|x tr IH]; [done|]. simpl. destruct (f x) eqn:Hx; [intros _; by exists x, tr|]. simpl. intros Ht.
  destruct (IH Ht) as (e & post & Heq & He). exists e, post. split; [|done]. destruct (cut f tr). simpl in *. by f_equal.
Qed.
Lemma Exists_some (Q : ev → Prop) f tr : (∀ e, f e = true → Q e) → some f tr = true → Exists Q tr.
Proof. intros Hf (e & Hin & He)%some_spec. apply Exists_exists. eauto. Qed.

Definition request_is (m c path : string) (act : option string) (e : ev) : bool :=
  match e with
  | Ev (Request c' m' p' b) _ =>
      bool_decide (m' = m) && bool_decide (c' = c) && bool_decide (p' = path)
      && match act with Some a => match b with StateBody a' _ => bool_decide (a' = a) | _ => false end | None => true end
  | _ => false
  end.
Definition deletes_b (k : InstanceKey) : ev → bool :=
  request_is "DELETE" (clusterId k) (instancePath (project k) (name k) EmptyString) None.
Definition sets_state_b (k : InstanceKey) (a : Action) : ev → bool :=
  request_is "PUT" (clusterId k) (instancePath (project k) (name k) "/state") (Some (show_action a)).
Definition at_stage_b (st : string) (e : ev) : bool := match e with Ev (Progress st' _) _ => bool_decide (st' = st) | _ => false end.

Lemma deletes_b_spec k e : deletes_b k e = true → deletes k e.
Proof.
  destruct e as [X c x]. destruct c; try done. simpl. rewrite !andb_true_iff, !bool_decide_eq_true. naive_solver.
Qed.
Lemma sets_state_b_spec k a e : sets_state_b k a e = true → sets_state k a e.
Proof.
  destruct e as [X c x]. destruct c; try done. simpl. rewrite !andb_true_iff, !bool_decide_eq_true.
  destruct b; try naive_solver. rewrite bool_decide_eq_true. naive_solver.
Qed.
Lemma at_stage_b_spec st e : at_stage_b st e = true ↔ at_stage st e.
Proof. destruct e as [X c x]. destruct c; try done. simpl. by rewrite bool_decide_eq_true. Qed.

Abbreviation demo_run := (migration_run Move (Some (demo_copy "Stopped"))).
Abbreviation demo_from := (from_key (demo_migration Move)).
Abbreviation demo_to := (to_key (demo_migration Move)).

Lemma source_kept_until_copied_witness :
  mp_mode (demo_migration Move) = Move
  ∧ verified (demo_migration Move) (cut (deletes_b demo_from) (demo_run (λ _, false)).2).1.
Proof.
  destruct (cut_found (deletes_b demo_from) (demo_run (λ _, false)).2 ltac:(vm_compute; reflexivity)) as (e & post & Hcut & He).
  destruct (source_kept_until_copied (λ _, None) (transfer 3) demo_job (demo_migration Move)
              (demo_world (Some (demo_copy "Stopped")) (λ _, false)) _ e post eq_refl Hcut (deletes_b_spec _ _ He)) as (Hm & Hv & _).
  split; [exact Hm|exact Hv].
Defined.

(** Reading the state of an operation is refused. *)
Definition no_status (e : ev) : bool := match e with Ev (Get DStatus _ _) _ => true | _ => false end.

Lemma rollback_only_own_copy_witness :
  Exists (owned demo_job (demo_migration Move)) (cut (deletes_b demo_to) (demo_run no_status).2).1.
Proof.
  destruct (cut_found (deletes_b demo_to) (demo_run no_status).2 ltac:(vm_compute; reflexivity)) as (e & post & Hcut & He).
  exact (proj1 (rollback_only_own_copy (λ _, None) (transfer 3) demo_job (demo_migration Move)
                  (demo_world (Some (demo_copy "Stopped")) no_status) _ e post eq_refl Hcut (deletes_b_spec _ _ He))).
Defined.

Lemma failed_move_restarts_source_witness : Exists (restarted (demo_migration Move)) (demo_run no_status).2.
Proof.
  apply (failed_move_restarts_source (λ _, None) (transfer 3) demo_job (demo_migration Move)
           (demo_world (Some (demo_copy "Stopped")) no_status) (Fault (Error "refused")) eq_refl).
  - vm_compute. reflexivity.
  - apply (Exists_some _ (sets_state_b demo_from Stop)); [apply sets_state_b_spec|vm_compute; reflexivity].
  - apply (Exists_some _ (at_stage_b "transferring")); [apply at_stage_b_spec|vm_compute; reflexivity].
  - intros Hex. apply Exists_exists in Hex as (e & Hin & He%at_stage_b_spec).
    assert (some (at_stage_b "deleting the source") (demo_run no_status).2 = true) as Hs by (apply some_spec; eauto).
    revert Hs. vm_compute. discriminate.
Defined.

(** The rollback does not begin when its progress cannot be written: the source stays stopped, the half-made copy
    stays. *)
Example rollback_skipped :
  let r := demo_run (λ e, no_status e || at_stage_b "rolling back" e) in
  r.1 = Raised (Fault (Error "refused")) ∧ omap sent r.2 = ["PUT A stop"; "POST B"; "POST A"].
Proof. vm_compute. by split. Qed.

(** A stop that Incus accepts but whose wait fails is not undone. *)
Example accepted_stop_not_undone :
  let world X (c : call X) tr :=
    match c in call X return X with
    | Request c m p b => inr {| rs_async := true; rs_operation := Some "/1.0/operations/stop"; rs_id := "stop"; rs_secrets := None |}
    | c => demo_world None no_status _ c tr
    end in
  let r := run world (migrateHandler (λ _, None) (transfer 3) demo_job (demo_migration Move)) [] in
  r.1 = Raised (Fault (Error "refused")) ∧ omap sent r.2 = ["PUT A stop"].
Proof. vm_compute. by split. Qed.
