(* ===== verification/Replication.v ===== *)
(** * Replication: keeping a copy of an instance on another cluster

    Models [mobility/replication.ts]: a run that copies or refreshes, the
    failover to the replica, and the scheduler that queues runs. *)

From S2P Require Import Jobs.
From S2P Require Import Prelude JsString Effects Projects Preflight Leases Program Services Transfer Mobility MobilityTheory.

Definition TAG_REPLICA_OF : string := "user.incuscloud.replica-of".
Definition TAG_PROMOTED_FROM : string := "user.incuscloud.promoted-from".

Definition policyInstanceKey (p : Policy) : string :=
  po_sourceClusterId p +++ "/" +++ po_sourceProject p +++ "/" +++ po_instanceName p.
Definition source_key (p : Policy) : InstanceKey := (po_sourceClusterId p, po_sourceProject p, po_instanceName p).
Definition replica_key (p : Policy) : InstanceKey := (po_targetClusterId p, po_targetProject p, po_targetName p).

Definition loadPolicy (policyId : string) : P Policy :=
  p ← attempt (Db (PolicyById policyId));
  match p with Some p => Ret p | None => raise 404 "not_found" "The replication policy no longer exists" end.

Definition is_replica (p : Policy) (i : Instance) : bool := bool_decide (in_config i !! TAG_REPLICA_OF = Some (po_id p)).

Section replicate.
Context (JSON_parse : string → option Json) (transfer : TransferOptions → P Transport).
Context (j : Job).

(** The replica's own name is expected on the target once it exists. *)
Definition facts_of (p : Policy) (existing : option Instance) (t : TargetFacts) : TargetFacts :=
  match existing with
  | Some _ =>
      {| t_projectExists := t_projectExists t; t_architectures := t_architectures t; t_pools := t_pools t; t_networks := t_networks t;
         t_profiles := t_profiles t; t_instanceNames := js_filter (λ n, negb (bool_decide (n = po_targetName p))) (t_instanceNames t);
         t_defaultProfileDevices := t_defaultProfileDevices t; t_apiExtensions := t_apiExtensions t; t_dropsBootState := t_dropsBootState t |}
  | None => t
  end.

Definition replica_check (p : Policy) (existing : option Instance) (source : SourceInstance) (target : TargetFacts) : Report :=
  preflight JSON_parse
    {| i_source := source; i_target := facts_of p existing target; i_targetName := po_targetName p; i_mode := Copy;
       i_live := false; i_pool := None |}.

(** The first copy also bears the job's tag. *)
Definition replica_request (p : Policy) (existing : option Instance) (r : TargetRequest) : TargetRequest :=
  let cfg := <[TAG_REPLICA_OF := po_id p]> (rq_config r) in
  with_config r match existing with Some _ => cfg | None => <[TAG_JOB := job_id j]> cfg end.

Definition replica_stage (existing : option Instance) : string :=
  match existing with Some _ => "refreshing" | None => "copying" end.

Definition replica_options (s d : Cluster) (p : Policy) (existing : option Instance) (r : TargetRequest) : TransferOptions :=
  {| to_src := s; to_dst := d; to_srcProject := po_sourceProject p; to_dstProject := po_targetProject p; to_name := po_instanceName p;
     to_request := replica_request p existing r; to_refresh := bool_decide (is_Some existing); to_live := false; to_instanceOnly := false;
     to_targetCert := cl_serverCert d; to_transport := Auto; to_stage := replica_stage existing |}.

(** [existing] is unset until the read answers. *)
Definition find_replica (p : Policy) : P (option Instance) :=
  _ ← progress "checking";
  readInstance (po_targetClusterId p) (po_targetProject p) (po_targetName p).

Definition refresh_replica (s d : Cluster) (p : Policy) (existing : option Instance) : P (Transport * bool) :=
  _ ← match existing with
      | Some i =>
          if is_replica p i then Ret tt
          else raise 409 "conflict" ("A different instance named " +++ quoted (po_targetName p) +++ " exists on the target; it is not overwritten")
      | None => Ret tt
      end;
  source ← sourceFacts (po_sourceClusterId p) (po_sourceProject p) (po_instanceName p);
  target ← targetFacts (po_targetClusterId p) (po_targetProject p);
  let check := replica_check p existing source target in
  if negb (ok check) then raise 409 "preflight_failed" (join "; " (problems check))
  else
    _ ← progress (replica_stage existing);
    transport ← transfer (replica_options s d p existing (request check));
    _ ← attempt (Db (SetPolicy (po_id p) Replicated));
    _ ← match existing with
        | Some _ => Ret tt
        | None => attempt (Db (CarryOwner (source_key p) (replica_key p) false))
        end;
    Ret (transport, bool_decide (is_Some existing)).

(** A first copy this run left behind goes; an existing replica stays as it was. *)
Definition replicate_failed (p : Policy) (e : exn) (existing : option Instance) : P (Transport * bool) :=
  _ ← match existing with
      | Some _ => Ret tt
      | None =>
          left ← or_empty None (readInstance (po_targetClusterId p) (po_targetProject p) (po_targetName p));
          match left with
          | Some i =>
              if bool_decide (in_config i !! TAG_JOB = Some (job_id j)) then
                quietly (incusDo (po_targetClusterId p) "DELETE" (instancePath (po_targetProject p) (po_targetName p) EmptyString) NoBody)
              else Ret tt
          | None => Ret tt
          end
      end;
  _ ← attempt (Db (SetPolicy (po_id p) (PolicyFailed (str_take 1000 (exn_message e)))));
  Raise e.

Definition replicate (p : Policy) : P (Transport * bool) :=
  s ← clientFor (po_sourceClusterId p);
  d ← clientFor (po_targetClusterId p);
  try_finally
    (catch_with
      (existing ← leaving None (find_replica p);
       leaving existing (refresh_replica s d p existing))
      (replicate_failed p))
    (refreshInventory [po_targetClusterId p]).

Definition replicateHandler (policyId : string) : P (Transport * bool) := loadPolicy policyId ≫= replicate.
End replicate.

(** ** Failing over *)

Definition promoted (p : Policy) (i : Instance) : body :=
  InstanceBody (in_architecture i)
    (<[TAG_PROMOTED_FROM := policyInstanceKey p]> (delete TAG_JOB (delete TAG_REPLICA_OF (in_config i))))
    (in_devices i) (in_profiles i) (default false (in_ephemeral i)) (default false (in_stateful i)) (default EmptyString (in_description i)).

Definition failover_source (p : Policy) : P (list string) :=
  _ ← progress "stopping the source";
  try_catch
    (_ ← clientFor (po_sourceClusterId p);
     original ← readInstance (po_sourceClusterId p) (po_sourceProject p) (po_instanceName p);
     _ ← match original with
         | Some i => if bool_decide (in_status i = "Running") then setState (po_sourceClusterId p) (po_sourceProject p) (po_instanceName p) Stop else Ret tt
         | None => Ret tt
         end;
     Ret [])
    (λ e, Ret ["The source could not be stopped: " +++ exn_message e]).

Definition failover (stopSource : bool) (p : Policy) : P (list string) :=
  if negb (po_active p) then raise 409 "conflict" "This policy has already failed over"
  else
    _ ← clientFor (po_targetClusterId p);
    replica ← readInstance (po_targetClusterId p) (po_targetProject p) (po_targetName p);
    match replica with
    | Some i =>
        if is_replica p i then
          warnings ← (if stopSource then failover_source p else Ret []);
          _ ← progress "promoting the replica";
          _ ← incusDo (po_targetClusterId p) "PUT" (instancePath (po_targetProject p) (po_targetName p) EmptyString) (promoted p i);
          _ ← progress "starting the replica";
          _ ← (if negb (bool_decide (in_status i = "Running")) then setState (po_targetClusterId p) (po_targetProject p) (po_targetName p) Start else Ret tt);
          _ ← attempt (Db (SetPolicy (po_id p) FailedOver));
          _ ← refreshInventory [po_sourceClusterId p; po_targetClusterId p];
          Ret warnings
        else raise 409 "conflict" "There is no replica to fail over to"
    | None => raise 409 "conflict" "There is no replica to fail over to"
    end.

Definition failoverHandler (policyId : string) (stopSource : bool) : P (list string) := loadPolicy policyId ≫= failover stopSource.

(** ** Scheduling *)

Definition replicate_job (p : Policy) : Jobs.NewJob :=
  {| Jobs.n_type := "replicate"; Jobs.n_payload := [("policyId", JStr (po_id p))]; Jobs.n_actorType := "system";
     Jobs.n_actorId := "replication"; Jobs.n_tenantId := po_tenantId p;
     Jobs.n_clusterIds := [po_sourceClusterId p; po_targetClusterId p]; Jobs.n_instanceKey := Some (policyInstanceKey p) |}.

(** A policy whose instance is busy (409) is left for another pass. *)
Definition schedule_policy (p : Policy) : P unit :=
  try_catch
    (job ← attempt (Db (Enqueue (replicate_job p)));
     attempt (Db (SetPolicy (po_id p) (PolicyQueued job))))
    (λ e, if bool_decide (exn_status e = Some 409%Z) then Ret tt else Raise e).

Definition scheduleReplication : P unit :=
  due ← attempt (Db DuePolicies);
  each schedule_policy due.

(** ** Theorems: replication touches only its own replica

    What every run of the jobs of [Replication] does, whatever clusters and the
    database answer. *)

(** The read answered that there is no such instance. *)
Definition absent (k : InstanceKey) (e : ev) : Prop :=
  match e with
  | Ev (Get DInstance c path) (inl f) =>
      c = clusterId k ∧ path = instancePath (project k) (name k) EmptyString ∧ is_missing (Fault f) = true
  | _ => False
  end.

Section replicate.
Context (JSON_parse : string → option Json) (transfer : TransferOptions → P Transport) `{Htr : !Transfers transfer}.
Context (j : Job) (p : Policy).
Abbreviation key := (replica_key p).

(** When a request may be made: the target is created after a read found none, refreshed after a read found
    this policy's replica, deleted after a read found what this very job made. *)
Definition allowed (pre : list ev) (e : ev) : Prop :=
  match e with
  | Ev (Request c m path b) _ =>
      match b with
      | CreateBody _ refresh _ _ =>
          c = clusterId key ∧ if refresh then Exists (reads key (λ i, is_replica p i = true)) pre else Exists (absent key) pre
      | MigrateBody _ _ _ => c = po_sourceClusterId p
      | NoBody => deletes key e ∧ Exists (reads key (λ i, in_config i !! TAG_JOB = Some (job_id j))) pre
      | _ => False
      end
  | Ev (Upload _ _ _ _) _ | Ev (Download _ _ _) _ => False
  | _ => True
  end.

(** Calls that are always allowed. *)
Definition free (e : ev) : Prop :=
  match e with Ev (Request _ _ _ _) _ | Ev (Upload _ _ _ _) _ | Ev (Download _ _ _) _ => False | _ => True end.
Lemma free_allowed pre e : free e → allowed pre e.
Proof. destruct e as [X c x]. by destruct c. Qed.
Lemma free_get e : is_get e → free e.
Proof. destruct e as [X c x]. by destruct c. Qed.

Abbreviation ok_trace := (guarded allowed).

Lemma wp_free {A} (q : P A) (Q : outcome exn A → list ev → Prop) tr :
  ok_trace tr → emits free q → (∀ r evs, ok_trace (tr ++ evs) → Q r (tr ++ evs)) → wp q Q tr.
Proof.
  intros Ht Hq HQ. apply (wp_guarded allowed free); [done|done|intros e k; apply free_allowed|]. intros r evs _. apply HQ.
Qed.

Lemma db_free {X} (q : query X) : emits free (attempt (Db q)).
Proof. emits_all. exact I. Qed.
Lemma progress_free st : emits free (progress st).
Proof. unfold progress. emits_all. exact I. Qed.
Lemma gets_free {A} (q : P A) : emits is_get q → emits free q.
Proof. apply emits_mono, free_get. Qed.

(** What the first read found decides whether to create or to refresh. *)
Definition found (existing : option Instance) (tr : list ev) : Prop :=
  match existing with Some i => Exists (reads key (λ i', i' = i)) tr | None => Exists (absent key) tr end.

Lemma found_app existing tr k : found existing tr → found existing (tr ++ k).
Proof. destruct existing; simpl; rewrite Exists_app; auto. Qed.

Lemma wp_find tr :
  ok_trace tr →
  wp (find_replica p) (λ r tr', ok_trace tr' ∧ match r with Returned existing => found existing tr' | _ => True end) tr.
Proof.
  intros Ht. unfold find_replica. apply wp_bind, wp_free; [done|apply progress_free|]. intros [u|e|] evs H; [|done..].
  apply wp_try, wp_bind, wp_attempt.
  - intros f. assert (ok_trace ((tr ++ evs) ++ [Ev (Get DInstance (po_targetClusterId p) (instancePath (po_targetProject p) (po_targetName p) EmptyString)) (inl f)]))
      as H' by (by apply guarded_snoc).
    destruct (is_missing (Fault f)) eqn:Hm; [|by split]. split; [done|]. apply Exists_app. right. left. by repeat split.
  - intros i. split; [by apply guarded_snoc|]. apply Exists_app. right. left. by repeat split.
Qed.

Lemma transfer_allowed s d existing r tr e k :
  cl_id s = po_sourceClusterId p → cl_id d = clusterId key → found existing tr →
  (∀ i, existing = Some i → is_replica p i = true) →
  migration_call (replica_options j s d p existing r) e → allowed (tr ++ k) e.
Proof.
  intros Hs Hd Hf Hi He. destruct e as [X c x]. destruct c; simpl in He; try done.
  destruct He as (-> & [(-> & -> & t & ->)|(-> & -> & ->)]); simpl; [done|]. split; [done|].
  apply (found_app _ _ k) in Hf. destruct existing as [i|]; simpl in *.
  - eapply Exists_impl; [exact Hf|]. intros [X c y]. specialize (Hi i eq_refl). destruct c; try done. destruct d0; try done. destruct y; [done|].
    simpl. naive_solver.
  - exact Hf.
Qed.

Lemma wp_refresh s d existing tr :
  cl_id s = po_sourceClusterId p → cl_id d = clusterId key → ok_trace tr → found existing tr →
  wp (refresh_replica JSON_parse transfer j s d p existing) (λ _, ok_trace) tr.
Proof.
  intros Hs Hd Ht Hf. unfold refresh_replica. apply wp_bind.
  assert (∀ Q : outcome exn unit → list ev → Prop, (∀ e, Q (Raised e) tr) → ((∀ i, existing = Some i → is_replica p i = true) → Q (Returned tt) tr) →
    wp (match existing with
        | Some i => if is_replica p i then Ret tt else raise 409 "conflict" ("A different instance named " +++ quoted (po_targetName p) +++ " exists on the target; it is not overwritten")
        | None => Ret tt end) Q tr) as Hcheck.
  { intros Q Hr Hk. destruct existing as [i|]; [|by apply Hk]. destruct (is_replica p i) eqn:Hi; [|apply Hr]. apply Hk. by intros i' [= <-]. }
  apply Hcheck; [done|]. intros Hi. clear Hcheck.
  apply wp_bind, wp_free; [done|apply gets_free, sourceFacts_emits|]. intros [source|e|] e1 H1; [|done..].
  apply wp_bind, wp_free; [done|apply gets_free, targetFacts_emits|]. intros [target|e|] e2 H2; [|done..].
  destruct (negb _); [done|]. apply wp_bind, wp_free; [done|apply progress_free|]. intros [u|e|] e3 H3; [|done..].
  apply wp_bind. eapply wp_guarded; [exact H3|apply transfer_emits| |].
  { intros e k He. eapply transfer_allowed; [done|done| |done|exact He]. by repeat apply found_app. }
  intros [t|e|] e4 _ H4; [|done..]. apply wp_bind, wp_free; [done|apply db_free|]. intros [u'|e|] e5 H5; [|done..].
  apply wp_bind, wp_free; [done|destruct existing; [exact I|apply db_free]|]. by intros [u''|e|] e6 H6.
Qed.

Lemma wp_failed e existing tr : ok_trace tr → wp (replicate_failed j p e existing) (λ _, ok_trace) tr.
Proof.
  intros Ht. unfold replicate_failed. apply wp_bind.
  apply (wp_mono _ (λ _, ok_trace)).
  2: { intros [u|x|] tr' H; [|done..]. apply wp_bind, wp_free; [done|apply db_free|]. by intros [?|?|] ? ?. }
  destruct existing as [i|]; [done|]. apply wp_bind, wp_try, (wp_readInstance key).
  - intros i er Hi. cbn [or_empty].
    assert (ok_trace (tr ++ [er])) as H1.
    { apply guarded_snoc; [done|]. apply free_allowed. destruct er as [X c x]. by destruct c. }
    destruct (bool_decide_reflect (in_config i !! TAG_JOB = Some (job_id j))) as [Htag|]; [|done].
    apply wp_quietly. eapply wp_guarded; [exact H1|apply incusDo_emits| |by intros [u|x|] evs _ H].
    intros e' k [He|He]; [by apply free_allowed, free_get|].
    assert (Exists (reads key (λ i, in_config i !! TAG_JOB = Some (job_id j))) ((tr ++ [er]) ++ k)) as Hex.
    { rewrite !Exists_app. left; right; left. destruct er as [X c x]. destruct c; try done. destruct d; try done. destruct x; [done|]. simpl in *. naive_solver. }
    destruct e' as [X c x]. destruct c; simpl in He |- *; try done. by destruct He as (-> & -> & -> & ->).
  - intros er He. assert (ok_trace (tr ++ [er])) as H1 by (apply guarded_snoc; [done|]; by apply free_allowed, free_get). by split.
Qed.

Lemma wp_replicate : wp (replicate JSON_parse transfer j p) (λ _, ok_trace) [].
Proof.
  unfold replicate. pose proof (guarded_nil allowed) as H0.
  apply wp_bind, wp_bind, wp_attempt; [intros f; by apply (guarded_snoc _ [])|]. intros rs.
  apply wp_bind, wp_bind, wp_attempt; [intros f; by do 2 (apply guarded_snoc; [|exact I])|]. intros rd.
  set (tr0 := _ ++ _). assert (ok_trace tr0) as Ht by (by do 2 (apply guarded_snoc; [|exact I])). clearbody tr0.
  apply wp_finally, wp_catch_with. apply wp_bind, wp_leaving, (wp_mono _ _ _ _ (wp_find tr0 Ht)).
  assert (∀ tr (Q : outcome exn unit → list ev → Prop), ok_trace tr → (∀ r tr', ok_trace tr' → Q r tr') → wp (refreshInventory [po_targetClusterId p]) Q tr) as Hfin.
  { intros tr Q Htr0 HQ. apply wp_free; [done|apply db_free|]. intros r evs. apply HQ. }
  assert (∀ e existing tr, ok_trace tr → wp (replicate_failed j p e existing)
    (λ r tr', match r with Running => ok_trace tr' | _ => wp (refreshInventory [po_targetClusterId p])
      (λ rf tr'', match rf with Raised _ => ok_trace tr'' | _ => ok_trace tr'' end) tr' end) tr) as Hcatch.
  { intros e existing tr Htr0. apply (wp_mono _ _ _ _ (wp_failed e existing tr Htr0)). intros [x|x|] tr' H; [| |done];
      (apply Hfin; [done|]; by intros [?|?|] ? ?). }
  intros [existing|e|] tr1 [H1 Hf]; [|eapply wp_mono; [by apply Hcatch|]; intros [x|x|] tr' H; exact H|done].
  apply wp_leaving. eapply wp_mono; [by apply wp_refresh|]. intros [x|e|] tr2 H2; [|eapply wp_mono; [by apply Hcatch|]; intros [y|y|] tr' H; exact H|done].
  apply Hfin; [done|]. by intros [?|?|] ? ?.
Qed.
End replicate.

(** Whatever the services answer, a replication run creates its target only after a read found none, refreshes
    it only after a read found this policy's replica, deletes it only after a read found what this very job made,
    and changes nothing else on any cluster. *)
Theorem replication_spares_others JSON_parse transfer `{!Transfers transfer} j p orc pre e post :
  (run orc (replicate JSON_parse transfer j p) []).2 = pre ++ e :: post → allowed j p pre e.
Proof. intros Htr. exact (wp_run _ _ orc [] (wp_replicate JSON_parse transfer j p) _ _ _ Htr). Qed.

(** ** Failing over *)

Section failover.
Context (p : Policy).
Abbreviation key := (replica_key p).

Definition is_promotion (e : ev) : Prop :=
  match e with
  | Ev (Request c m path (InstanceBody _ cfg _ _ _ _ _)) (inr _) =>
      c = clusterId key ∧ m = "PUT" ∧ path = instancePath (project key) (name key) EmptyString ∧ cfg !! TAG_REPLICA_OF = None
  | _ => False
  end.
Definition recorded (e : ev) : Prop := match e with Ev (Db (SetPolicy id FailedOver)) (inr _) => id = po_id p | _ => False end.

(** What a failover that returns has done, in order. *)
Definition failed_over (tr : list ev) : Prop :=
  ∃ a r b e c d k st, tr = a ++ r :: b ++ e :: c ++ d :: k
    ∧ reads key (λ i, is_replica p i = true ∧ in_status i = st) r ∧ is_promotion e
    ∧ (st = "Running" ∨ Exists (sets_state key Start) c) ∧ recorded d.

Lemma promoted_untagged i : match promoted p i with InstanceBody _ cfg _ _ _ _ _ => cfg !! TAG_REPLICA_OF = None | _ => False end.
Proof.
  simpl. rewrite lookup_insert_ne by done. rewrite lookup_delete_ne by done. apply lookup_delete_eq.
Qed.

Lemma wp_promote i (tr : list ev) :
  wp (incusDo (po_targetClusterId p) "PUT" (instancePath (po_targetProject p) (po_targetName p) EmptyString) (promoted p i))
    (λ r tr', ∀ u, r = Returned u → ∃ e evs, tr' = tr ++ e :: evs ∧ is_promotion e) tr.
Proof.
  eapply wp_mono; [apply wp_incusDo|]. intros r tr' (x & evs & -> & Hx) u Hr. destruct (Hx u Hr) as [v ->].
  eexists _, evs. split; [done|]. repeat (split; [done|]). apply (promoted_untagged i).
Qed.

Lemma wp_failover stopSource :
  wp (failover stopSource p) (λ r tr, ∀ ws, r = Returned ws → po_active p = true ∧ failed_over tr) [].
Proof.
  unfold failover. destruct (po_active p); simpl negb; cbn iota; [|done].
  assert (∀ A (a : P A) (Q : outcome exn A → list ev → Prop) tr, (∀ e tr', Q (Raised e) tr') → (∀ tr', Q Running tr') →
    (∀ x evs, Q (Returned x) (tr ++ evs)) → wp a Q tr) as Hany.
  { intros A a Q tr H1 H2 H3. apply (wp_emits_weaken (λ _, True)); [apply emits_any|]. intros [x|e|] evs _; auto. }
  apply wp_bind, Hany; [done..|]. intros d e1. apply wp_bind, (wp_readInstance key); [|done].
  intros i er Hi. destruct (is_replica p i) eqn:Hrep; [|done].
  set (a := [] ++ e1). clearbody a. clear e1.
  apply wp_bind, Hany; [done..|]. intros ws b1. apply wp_bind, Hany; [done..|]. intros u b2.
  apply wp_bind, (wp_mono _ _ _ _ (wp_promote i _)). intros [u'|x|] tr' He; [|done..].
  destruct (He u' eq_refl) as (e & c1 & -> & Hprom). clear He.
  apply wp_bind, Hany; [done..|]. intros u2 c2. apply wp_bind.
  apply (wp_mono _ (λ r tr', ∀ u, r = Returned u → ∃ c3, tr' = ((((a ++ [er]) ++ b1) ++ b2) ++ e :: c1) ++ c2 ++ c3
    ∧ (in_status i = "Running" ∨ Exists (sets_state key Start) c3))).
  { case_bool_decide as Hst; simpl negb; cbn iota.
    - intros u3 _. exists []. rewrite app_nil_r. split; [done|]. by left.
    - eapply wp_mono; [apply wp_setState|]. intros r tr' (y & evs & ->) u3 _. eexists (_ :: evs).
      rewrite (assoc_L (++)). split; [reflexivity|]. right. left. by repeat split. }
  intros [u3|x|] tr' Hc; [|done..]. destruct (Hc u3 eq_refl) as (c3 & -> & Hstart). clear Hc.
  apply wp_bind, wp_attempt; [done|]. intros u4. set (d0 := Ev _ _).
  apply wp_bind, Hany; [done..|]. intros u5 k ws' _. split; [done|].
  exists a, er, (b1 ++ b2), e, (c1 ++ c2 ++ c3), d0, k, (in_status i).
  split; [rewrite <- !(assoc_L (++)); simpl; rewrite <- ?(assoc_L (++)); reflexivity|]. split; [|split; [done|split; [|done]]].
  - destruct er as [X c x]. destruct c; try done. destruct d1; try done. destruct x; [done|]. simpl in *. naive_solver.
  - destruct Hstart; [by left|]. right. rewrite !Exists_app. by right; right.
Qed.
End failover.

(** A failover that returns had an active policy, read its replica, had Incus accept that it is an ordinary
    instance, without the tag, started it if it was not running, and then recorded the failover. *)
Theorem failover_promotes p stopSource orc ws :
  (run orc (failover stopSource p) []).1 = Returned ws →
  po_active p = true ∧ failed_over p (run orc (failover stopSource p) []).2.
Proof. intros Hr. exact (wp_run _ _ orc [] (wp_failover p stopSource) ws Hr). Qed.

(** ** Scheduling *)

Definition due_answer (e : ev) : option (list Policy) := match e with Ev (Db DuePolicies) (inr due) => Some due | _ => None end.

(** A pass of the replication scheduler that returns has asked for exactly one run of every due policy, in order. *)
Theorem schedule_replication_asks_once orc u :
  (run orc scheduleReplication []).1 = Returned u →
  ∃ e due rest, (run orc scheduleReplication []).2 = e :: rest ∧ due_answer e = Some due
                ∧ omap enqueued rest = replicate_job <$> due.
Proof.
  intros Hr. destruct (schedule_pass_asks_once DuePolicies replicate_job (λ p job, SetPolicy (po_id p) (PolicyQueued job)) (λ _ _ _, eq_refl) orc u Hr)
    as (due & rest & Heq & Hj). exists (Ev (Db DuePolicies) (inr due)), due, rest. by split.
Qed.

(** ** Examples *)

Definition demo_policy : Policy :=
  {| po_id := "p1"; po_tenantId := None; po_sourceClusterId := "A"; po_sourceProject := "acme"; po_instanceName := "web";
     po_targetClusterId := "B"; po_targetProject := "acme"; po_targetName := "web"; po_active := true |}.
Definition demo_replica : Instance := demo_instance "Stopped" {["user.incuscloud.replica-of" := "p1"]}.

Definition replica_world (copy : option Instance) (X : Type) (c : call X) (tr : list ev) : X :=
  match c in call X return X with
  | Db q =>
      match q in query X return fault + X with
      | PolicyById _ => inr (Some demo_policy)
      | DuePolicies => inr [demo_policy; demo_policy]
      | Enqueue _ => if bool_decide (length tr = 1%nat) then inr "job-2" else inl (Api {| status := 409; code := "busy"; message := "busy" |})
      | SetPolicy _ _ | CarryOwner _ _ _ | RefreshInventory _ => inr tt
      | _ => inl (Error "unavailable")
      end
  | c => demo_world copy (λ _, false) _ c tr
  end.

Definition replicate_run (copy : option Instance) := run (replica_world copy) (replicate (λ _, None) (transfer 3) demo_job demo_policy) [].

Definition refreshes (e : ev) : bool := match e with Ev (Request _ _ _ (CreateBody _ refresh _ _)) _ => refresh | _ => false end.

(** The replica is refreshed; before that a read found it. *)
Lemma replication_spares_others_witness :
  Exists (reads (replica_key demo_policy) (λ i, is_replica demo_policy i = true)) (cut refreshes (replicate_run (Some demo_replica)).2).1.
Proof.
  destruct (cut_found refreshes (replicate_run (Some demo_replica)).2 ltac:(vm_compute; reflexivity)) as (e & post & Hcut & He).
  pose proof (replication_spares_others (λ _, None) (transfer 3) demo_job demo_policy (replica_world (Some demo_replica)) _ e post Hcut) as Ha.
  destruct e as [X c x]. destruct c; try discriminate He. destruct b; try discriminate He. simpl in He. subst refresh. exact (proj2 Ha).
Defined.

(** An instance of that name that is not the replica is left alone. *)
Example foreign_instance_kept : (replicate_run (Some (demo_copy "Running"))).1
    = Raised (Fault (Api {| status := 409; code := "conflict";
        message := "A different instance named " +++ quoted "web" +++ " exists on the target; it is not overwritten" |}))
  ∧ omap sent (replicate_run (Some (demo_copy "Running"))).2 = [].
Proof. vm_compute. by split. Qed.

Lemma failover_promotes_witness :
  po_active demo_policy = true ∧ failed_over demo_policy (run (replica_world (Some demo_replica)) (failover true demo_policy) []).2.
Proof. apply (failover_promotes demo_policy true (replica_world (Some demo_replica)) []). vm_compute. reflexivity. Defined.

Lemma schedule_replication_asks_once_witness :
  ∃ e due rest, (run (replica_world None) scheduleReplication []).2 = e :: rest ∧ due_answer e = Some due
                ∧ omap enqueued rest = replicate_job <$> due.
Proof. apply (schedule_replication_asks_once (replica_world None) tt). vm_compute. reflexivity. Defined.
