(* ===== verification/Backups.v ===== *)
(** * Backups: backups of instances in object stores

    Models [backups/backup-job.ts], [backups/restore-job.ts] and the keys of
    [backups/store.ts]. The credentials of a target and the bytes of a backup
    are left out: a stream is opened by one call and stored by the next. The
    loops that wait for an operation or for an object have fuel. *)

From S2P Require Import Jobs.
From S2P Require Import Prelude JsString Effects Uri Projects Preflight Leases Program Services Transfer Mobility.

(** ** Keys ([store.ts]) *)

Fixpoint strip_start (s : string) : string :=
  match s with String c s' => if char_is c "/" then strip_start s' else s | EmptyString => EmptyString end.
Fixpoint strip_end (s : string) : string :=
  match s with
  | EmptyString => EmptyString
  | String c s' => match strip_end s' with
                   | EmptyString => if char_is c "/" then EmptyString else String c EmptyString
                   | r => String c r
                   end
  end.

(** [.replace(/\.\d+Z$/, "Z")] *)
Definition drop_fraction (s : string) : string :=
  match last_index_of "." s with
  | Some n =>
      let rest := str_drop (S n) s in
      let digits := str_take (String.length rest - 1) rest in
      if ends_with "Z" rest && all_digits digits then str_take n s +++ "Z" else s
  | None => s
  end.
Fixpoint drop_chars (p : Ascii.ascii → bool) (s : string) : string :=
  match s with EmptyString => EmptyString | String c s => if p c then drop_chars p s else String c (drop_chars p s) end.
Definition stamp (iso : string) : string := drop_chars (λ c, char_is c "-" || char_is c ":") (drop_fraction iso).

Definition objectKey (prefix project instanceName at_ id : string) : string :=
  let prefix := strip_end (strip_start prefix) in
  (if truthy_str prefix then prefix +++ "/" else EmptyString)
  +++ project +++ "/" +++ instanceName +++ "/" +++ stamp at_ +++ "-" +++ str_take 8 id +++ ".tar.gz".

Section jobs.
Context (fuel : nat) (parses : string → bool).  (** [new URL(endpoint)] does not throw *)

(** ** The region Incus signs for *)

(** The host of an endpoint as it is written, after the scheme and what ends
    in the first [@], without a port. *)
Fixpoint take_until (stop : Ascii.ascii → bool) (s : string) : string :=
  match s with EmptyString => EmptyString | String c s => if stop c then EmptyString else String c (take_until stop s) end.
Definition ends_host (c : Ascii.ascii) : bool := char_is c "/" || char_is c "?" || char_is c "#".
Definition drop_port (h : string) : string :=
  match last_index_of ":" h with
  | Some n => if str_forall is_digit (str_drop (S n) h) then str_take n h else h
  | None => h
  end.
Definition host_of (endpoint : string) : string :=
  match index_of ":" endpoint with
  | Some (S n) =>
      let rest := str_drop (S n) endpoint in
      if starts_with "://" rest then
        let authority := take_until ends_host (str_drop 3 rest) in
        drop_port match index_of "@" authority with Some k => str_drop (S k) authority | None => authority end
      else EmptyString
  | _ => EmptyString
  end.

Definition FALLBACK_REGION : string := "us-east-1".
Definition is_s3_label (p : string) : bool := bool_decide (p = "s3") || starts_with "s3-" p.
Fixpoint from_s3 (parts : list string) : option (string * list string) :=
  match parts with
  | [] => None
  | p :: rest => if is_s3_label p then Some (p, rest) else from_s3 rest
  end.
Definition incusUploadRegion (endpoint : string) : string :=
  if negb (parses endpoint) then FALLBACK_REGION
  else
    let host := host_of endpoint in
    if negb (ends_with ".amazonaws.com" host) then FALLBACK_REGION
    else
      let parts := split_on "." (str_take (String.length host - String.length ".amazonaws.com") host) in
      match from_s3 parts with
      | None => FALLBACK_REGION
      | Some (label, rest) =>
          if starts_with "s3-" label && (3 <? String.length label)%nat then str_drop 3 label
          else default FALLBACK_REGION (js_find (λ p, truthy_str p && negb (includes ["dualstack"; "fips"; "accesspoint"] p)) rest)
      end.

(** ** Waiting *)

Fixpoint waitOp (signal : P (option fault)) (n : nat) (c op : string) : P unit :=
  match n with
  | O => Spin
  | S n =>
      aborted ← signal;
      match aborted with
      | Some reason => _ ← quietly (attempt (Cancel c op)); Raise (Fault reason)
      | None =>
          st ← attempt (Get DStatus c (op +++ "/wait?timeout=2"));
          if bool_decide (os_status st = "Success") then Ret tt
          else if ended_badly st then Raise (Fault (ClusterError 502 ("Cluster: " +++ str_or (os_err st) (os_status st))))
          else waitOp signal n c op
      end
  end.

(** ** Retention *)

Definition is_ready (s : BackupState) : bool := match s with Ready => true | _ => false end.
Definition newest_first (a b : Backup) : comparison := Z.compare (ba_createdAt b) (ba_createdAt a).
Definition ready_of (policyId : string) (rows : list Backup) : list Backup :=
  js_sort newest_first (js_filter (λ b, bool_decide (ba_policyId b = Some policyId) && is_ready (ba_state b)) rows).
Definition beyond (policyId : string) (keep : nat) (rows : list Backup) : list Backup := drop keep (ready_of policyId rows).

Definition prune_one (b : Backup) : P (option string) :=
  try_catch
    (_ ← attempt (Store (ba_target b) (SDelete (ba_objectKey b)));
     _ ← attempt (Db (DeleteBackup (ba_id b)));
     Ret None)
    (λ e, Ret (Some (ba_objectKey b +++ ": " +++ exn_message e))).
Fixpoint prune_all (l : list Backup) (pruned : nat) (errors : list string) : P (nat * list string) :=
  match l with
  | [] => Ret (pruned, errors)
  | b :: l => r ← prune_one b; match r with None => prune_all l (S pruned) errors | Some m => prune_all l pruned (errors ++ [m]) end
  end.
Definition pruneBackups (policyId : string) (keep : nat) : P (nat * list string) :=
  rows ← attempt (Db AllBackups);
  prune_all (beyond policyId keep rows) 0 [].

(** ** The backup job *)

Record BackupPayload := {
  bk_clusterId : string; bk_project : string; bk_instanceName : string; bk_targetId : string;
  bk_instanceOnly : bool; bk_transport : TransportChoice; bk_policyId : option string;
}.
Record BackupResult := { br_id : string; br_transport : Transport; br_size : option Z; br_pruned : nat; br_warnings : list string }.

Section backup.
Context (j : Job) (p : BackupPayload) (t : BackupTarget) (id key : string).
Abbreviation c := (bk_clusterId p).

Definition local_name : string := "incuscloud-" +++ str_take 8 (job_id j).
Definition backupsPath (sub : string) : string := instancePath (bk_project p) (bk_instanceName p) ("/backups" +++ sub).
Definition setPolicy (ch : BackupPolicyChange) : P unit :=
  if truthy_opt_str (bk_policyId p) then attempt (Db (SetBackupPolicy (default EmptyString (bk_policyId p)) ch)) else Ret tt.

(** A backup on the cluster, or one that the cluster uploads itself. *)
Definition make (s3 : bool) : P unit :=
  r ← attempt (Request c "POST" (backupsPath EmptyString)
        (BackupBody (if s3 then None else Some local_name) (bk_instanceOnly p) (if s3 then Some key else None)));
  match rs_operation r with Some op => if truthy_str op then waitOp (ask Aborted) fuel c op else Ret tt | None => Ret tt end.

Definition dropLocal : P unit :=
  try_catch (_ ← attempt (Request c "DELETE" (backupsPath ("/" +++ local_name)) NoBody); Ret tt)
    (λ e, if is_missing e then Ret tt else Raise e).

Fixpoint appeared (n : nat) : P Z :=
  match n with
  | O => Spin
  | S n =>
      _ ← stop_if_aborted;
      s ← attempt (Store t (SStat key));
      match s with
      | Some size => Ret size
      | None =>
          late ← ask Late;
          if (late : bool) then raise 502 "target_error" "The cluster reported the upload done, but the object is not in the target"
          else appeared n
      end
  end.

Definition relay_backup (streaming : bool) : P Z :=
  _ ← (if streaming then
         _ ← progress "backing up and uploading";
         attempt (Download c "POST" (backupsPath EmptyString))
       else
         _ ← progress "backing up";
         _ ← make false;
         _ ← progress "uploading";
         attempt (Download c "GET" (backupsPath ("/" +++ local_name +++ "/export"))));
  attempt (Store t (SPut key)).

Definition try_direct : P (option Z) :=
  try_catch
    (_ ← progress "backing up and uploading";
     _ ← make true;
     size ← appeared fuel;
     Ret (Some size))
    (λ e,
      if bool_decide (bk_transport p = OnlyDirect) then Raise e
      else
        aborted ← ask Aborted;
        match aborted with
        | Some _ => Raise e
        | None =>
            _ ← quietly (attempt (Store t (SDelete key)));
            _ ← quietly dropLocal;
            _ ← attempt (Progress "relaying" (Some ("The cluster could not upload it: " +++ exn_message e)));
            Ret None
        end).

Definition no_direct (regionOk : bool) (signs : string) : string :=
  if regionOk then "The cluster cannot upload backups itself (it lacks the backup_s3_upload API extension)"
  else "The cluster cannot upload to this target itself: Incus signs its uploads to this endpoint for region " +++ signs
       +++ ", and the target is in " +++ bt_region t.

(** The object is in the store: its size, and how it got there. *)
Definition upload : P (Z * Transport) :=
  server ← attempt (Get DServer c "/1.0");
  let extensions := sv_extensions server in
  let signs := incusUploadRegion (bt_endpoint t) in
  let regionOk := negb (truthy_str (bt_region t)) || bool_decide (bt_region t = signs) in
  let canDirect := includes extensions "backup_s3_upload" && regionOk in
  if bool_decide (bk_transport p = OnlyDirect) && negb canDirect then raise 409 "conflict" (no_direct regionOk signs)
  else
    sent ← (if negb (bool_decide (bk_transport p = OnlyRelay)) && canDirect then try_direct else Ret None);
    match sent with
    | Some size => Ret (size, Direct)
    | None => size ← relay_backup (includes extensions "direct_backup"); Ret (size, Relay)
    end.

Definition record_ready (size : Z) (tr : Transport) : P BackupResult :=
  _ ← attempt (Db (BackupReady id (Some size) tr));
  if truthy_opt_str (bk_policyId p) then
    policy ← attempt (Db (BackupPolicyById (default EmptyString (bk_policyId p))));
    r ← match policy with Some po => pruneBackups (bp_id po) (bp_keep po) | None => Ret (0%nat, []) end;
    let warnings := (λ e, "Not pruned: " +++ e) <$> r.2 in
    _ ← setPolicy (BackedUp (join "; " warnings));
    Ret {| br_id := id; br_transport := tr; br_size := Some size; br_pruned := r.1; br_warnings := warnings |}
  else Ret {| br_id := id; br_transport := tr; br_size := Some size; br_pruned := 0; br_warnings := [] |}.

Definition backup_row (i : Instance) : NewBackup :=
  {| nb_id := id; nb_tenantId := job_tenantId j; nb_policyId := bk_policyId p; nb_targetId := bt_id t; nb_objectKey := key;
     nb_clusterId := c; nb_project := bk_project p; nb_instanceName := bk_instanceName p; nb_instanceType := in_type i;
     nb_instanceOnly := bk_instanceOnly p; nb_jobId := job_id j; nb_createdBy := job_actorType j +++ ":" +++ job_actorId j |}.

Definition start_row : P unit :=
  inst ← readInstance c (bk_project p) (bk_instanceName p);
  match inst with
  | None => raise 404 "not_found" ("Instance " +++ quoted (bk_instanceName p) +++ " not found in " +++ bk_project p)
  | Some i => attempt (Db (InsertBackup (backup_row i)))
  end.

Definition backup_failed (e : exn) (rowMade : bool) : P BackupResult :=
  let message := str_take 1000 (exn_message e) in
  _ ← quietly (attempt (Store t (SDelete key)));
  _ ← (if rowMade then attempt (Db (BackupFail id message)) else Ret tt);
  _ ← setPolicy (BackupFailed message);
  Raise e.

Definition backup_block : P BackupResult :=
  try_finally
    (catch_with
      (_ ← leaving false start_row;
       leaving true (st ← upload; record_ready st.1 st.2))
      backup_failed)
    (quietly dropLocal).
End backup.

Definition backupHandler (j : Job) (p : BackupPayload) : P BackupResult :=
  target ← attempt (Db (TargetById (bk_targetId p)));
  match target with
  | None => raise 404 "not_found" "The backup target no longer exists"
  | Some t =>
      if negb (bt_enabled t) then raise 409 "conflict" ("The backup target " +++ quoted (bt_name t) +++ " is disabled")
      else
        _ ← match job_tenantId j with
            | Some tenant =>
                if truthy_str tenant then
                  _ ← attempt (Db (NeedBackupQuota tenant));
                  if bool_decide (job_actorType j = "user") && truthy_str (job_actorId j) then attempt (Db (NeedUserQuota tenant (job_actorId j)))
                  else Ret tt
                else Ret tt
            | None => Ret tt
            end;
        _ ← clientFor (bk_clusterId p);
        id ← ask RandomUUID;
        now ← ask IsoNow;
        backup_block j p t id (objectKey (bt_prefix t) (bk_project p) (bk_instanceName p) now id)
  end.

(** ** Scheduling *)

Definition backup_job (p : BackupPolicy) : Jobs.NewJob :=
  {| Jobs.n_type := "backup";
     Jobs.n_payload := [("clusterId", JStr (bp_clusterId p)); ("project", JStr (bp_project p)); ("instanceName", JStr (bp_instanceName p));
                        ("targetId", JStr (bp_targetId p)); ("instanceOnly", JBool (bp_instanceOnly p)); ("transport", JStr "auto");
                        ("policyId", JStr (bp_id p))];
     Jobs.n_actorType := "system"; Jobs.n_actorId := "backups"; Jobs.n_tenantId := bp_tenantId p; Jobs.n_clusterIds := [bp_clusterId p];
     Jobs.n_instanceKey := Some (bp_clusterId p +++ "/" +++ bp_project p +++ "/" +++ bp_instanceName p) |}.

Definition schedule_backup (p : BackupPolicy) : P unit :=
  try_catch
    (job ← attempt (Db (Enqueue (backup_job p)));
     attempt (Db (SetBackupPolicy (bp_id p) (BackupQueued job))))
    (λ e, if bool_decide (exn_status e = Some 409%Z) then Ret tt else Raise e).
Definition scheduleBackups : P unit := due ← attempt (Db DueBackups); each schedule_backup due.
End jobs.
