(* ===== verification/Restore.v ===== *)
(** * Restore: backups back into instances

    Models [backups/restore-job.ts]: an import into the project, or, into a
    restricted one, an import into the staging project and a migration from
    there. *)

From S2P Require Import Prelude JsString Effects Uri Projects Preflight Leases Program Services Transfer Mobility Backups.

Definition TAG_RESTORED_FROM : string := "user.incuscloud.restored-from".
Definition STAGING_PROJECT : string := "incuscloud-restore".

Record RestorePayload := {
  re_backupId : string; re_targetClusterId : string; re_targetProject : string; re_targetName : string;
  re_pool : option string; re_start : bool;
}.

Definition isTrue (v : option string) : bool := includes ["true"; "1"; "yes"; "on"] (toLowerCase (default EmptyString v)).
Definition show_state (s : BackupState) : string := match s with Creating => "creating" | Ready => "ready" | Failed => "failed" end.

Section restore.
Context (fuel : nat) (JSON_parse : string → option Json) (transfer : TransferOptions → P Transport).
Context (j : Job) (p : RestorePayload).
Abbreviation c := (re_targetClusterId p).

Definition project_path (name : string) : string := "/1.0/projects/" +++ encodeURIComponent name.
Definition staging_config : config :=
  list_to_map [("features.images", "false"); ("features.profiles", "false"); ("features.storage.volumes", "false");
               ("features.networks", "false"); ("user.incuscloud.internal", "restore staging")].

Definition ensureStaging : P unit :=
  try_catch (_ ← attempt (Get DProject c (project_path STAGING_PROJECT)); Ret tt)
    (λ e, if is_missing e then _ ← attempt (Request c "POST" "/1.0/projects" (ProjectBody STAGING_PROJECT staging_config)); Ret tt
          else Raise e).

(** The project's configuration. *)
Definition project_config : P config :=
  try_catch (attempt (Get DProject c (project_path (re_targetProject p))))
    (λ e, if is_missing e then raise 409 "conflict" ("Project " +++ quoted (re_targetProject p) +++ " does not exist on the target cluster")
          else Raise e).

Definition open_object (b : Backup) : P unit :=
  try_catch (attempt (Store (ba_target b) (SGet (ba_objectKey b))))
    (λ e, if bool_decide (exn_status e = Some 404%Z)
          then raise 409 "conflict" ("The backup is not in its target any more (" +++ ba_objectKey b +++ ")")
          else Raise e).

Definition import_path (project : string) : string := "/1.0/instances?project=" +++ encodeURIComponent project.
Definition importInto (project name : string) (pool : option string) : P unit :=
  r ← attempt (Upload c (import_path project) name (named pool));
  match rs_operation r with Some op => if truthy_str op then waitOp (ask Aborted) fuel c op else Ret tt | None => Ret tt end.

Definition staged : string := "r-" +++ str_take 8 (job_id j).
Definition target_key : InstanceKey := (re_targetClusterId p, re_targetProject p, re_targetName p).
Definition staged_key : InstanceKey := (re_targetClusterId p, STAGING_PROJECT, staged).

Definition restore_options (cl : Cluster) (r : TargetRequest) : TransferOptions :=
  {| to_src := cl; to_dst := cl; to_srcProject := STAGING_PROJECT; to_dstProject := re_targetProject p; to_name := staged;
     to_request := with_config r (<[TAG_JOB := job_id j]> (<[TAG_RESTORED_FROM := re_backupId p]> (rq_config r)));
     to_refresh := false; to_live := false; to_instanceOnly := false; to_targetCert := cl_serverCert cl; to_transport := Auto;
     to_stage := "moving into the project" |}.

Definition migrate_staged (cl : Cluster) (target : TargetFacts) : P unit :=
  let rootPool := rootOf (t_defaultProfileDevices target) ≫= λ nd, nd.2 !! "pool" in
  _ ← progress "restoring into staging";
  _ ← importInto STAGING_PROJECT staged (match re_pool p with Some pool => Some pool | None => rootPool end);
  source ← sourceFacts c STAGING_PROJECT staged;
  let check := preflight JSON_parse
    {| i_source := source; i_target := target; i_targetName := re_targetName p; i_mode := Copy; i_live := false; i_pool := re_pool p |} in
  if negb (ok check) then raise 409 "preflight_failed" (join "; " (problems check))
  else
    _ ← progress "moving into the project";
    _ ← transfer (restore_options cl (request check));
    Ret tt.

(** A half-made copy this job created goes. *)
Definition migrate_failed (e : exn) : P unit :=
  copy ← or_empty None (readInstance c (re_targetProject p) (re_targetName p));
  _ ← match copy with
      | Some i =>
          if bool_decide (in_config i !! TAG_JOB = Some (job_id j)) then
            quietly (incusDo c "DELETE" (instancePath (re_targetProject p) (re_targetName p) EmptyString) NoBody)
          else Ret tt
      | None => Ret tt
      end;
  Raise e.

Definition restoreViaStaging (cl : Cluster) : P unit :=
  target ← targetFacts c (re_targetProject p);
  _ ← ensureStaging;
  try_finally (try_catch (migrate_staged cl target) migrate_failed)
    (quietly (incusDo c "DELETE" (instancePath STAGING_PROJECT staged EmptyString) NoBody)).

Definition restore_block (cl : Cluster) (cfg : config) : P unit :=
  _ ← (if negb (isTrue (cfg !! "restricted")) then
         _ ← progress "restoring";
         _ ← importInto (re_targetProject p) (re_targetName p) (re_pool p);
         _ ← attempt (Request c "PATCH" (instancePath (re_targetProject p) (re_targetName p) EmptyString)
               (ConfigBody {[TAG_RESTORED_FROM := re_backupId p]}));
         Ret tt
       else restoreViaStaging cl);
  _ ← match job_actor j with Some owner => attempt (Db (RecordOwner target_key owner)) | None => Ret tt end;
  if re_start p then
    _ ← progress "starting";
    setState c (re_targetProject p) (re_targetName p) Start
  else Ret tt.

Definition restoreHandler : P InstanceKey :=
  row ← attempt (Db (BackupById (re_backupId p)));
  match row with
  | None => raise 404 "not_found" "The backup no longer exists"
  | Some b =>
      if negb (is_ready (ba_state b)) then
        raise 409 "conflict" ("Only a ready backup can be restored (this one is " +++ show_state (ba_state b) +++ ")")
      else
        cl ← clientFor c;
        _ ← progress "checking";
        cfg ← project_config;
        existing ← readInstance c (re_targetProject p) (re_targetName p);
        match existing with
        | Some _ => raise 409 "conflict" ("An instance named " +++ quoted (re_targetName p) +++ " already exists in " +++ re_targetProject p +++ " on the target; it is not overwritten")
        | None =>
            _ ← stop_if_aborted;
            _ ← open_object b;
            _ ← try_finally (restore_block cl cfg) (refreshInventory [c]);
            Ret target_key
        end
  end.
End restore.
