(* ===== verification/BackupsTheory.v ===== *)
(** * BackupsTheory: what backups, retention and restores guarantee

    What every run of the jobs of [Backups] and [Restore] does, whatever
    clusters, stores and the database answer. *)

From S2P Require Import Prelude JsString Effects Uri Projects Preflight Leases Program Services Transfer Mobility MobilityTheory Replication Backups Restore.

(** ** Retention *)

Lemma newest_first_le a b : cmp_le newest_first a b ↔ (ba_createdAt b <= ba_createdAt a)%Z.
Proof. reflexivity. Qed.

Global Instance newest_first_comparator : Comparator newest_first.
Proof.
  split; unfold newest_first.
  - intros x y. by rewrite Z.compare_antisym.
  - intros x y z H1 H2. change (ba_createdAt z <= ba_createdAt x)%Z. change (ba_createdAt y <= ba_createdAt x)%Z in H1.
    change (ba_createdAt z <= ba_createdAt y)%Z in H2. lia.
Qed.

(** A ready backup of the policy. *)
Definition kept_by (policyId : string) (b : Backup) : bool := bool_decide (ba_policyId b = Some policyId) && is_ready (ba_state b).
(** How many ready backups of the policy are at least as new as [b]. *)
Definition rank (policyId : string) (rows : list Backup) (b : Backup) : nat :=
  length (js_filter (λ b', kept_by policyId b' && (ba_createdAt b <=? ba_createdAt b')%Z) rows).

Lemma js_filter_perm {A} (f : A → bool) l l' : l ≡ₚ l' → js_filter f l ≡ₚ js_filter f l'.
Proof.
  unfold js_filter. induction 1 as [|x l l' _ IH|x y l|l1 l2 l3 _ IH1 _ IH2]; simpl; [done| | |by rewrite IH1].
  - destruct (f x); [by constructor|done].
  - destruct (f x), (f y); try done. constructor.
Qed.

(** Past the first [keep] of a sorted list, more than [keep] are at least as new. *)
Lemma drop_sorted keep (l : list Backup) b : StronglySorted (cmp_le newest_first) l → b ∈ drop keep l →
  (keep < length (js_filter (λ b', ba_createdAt b <=? ba_createdAt b')%Z l))%nat.
Proof.
  intros Hs. revert keep. induction Hs as [|x l Hs IH Hx]; intros keep Hb; [rewrite drop_nil in Hb; by apply elem_of_nil in Hb|].
  assert (b ∈ l → (ba_createdAt b <=? ba_createdAt x)%Z = true) as Hle.
  { intros Hin. apply Z.leb_le, newest_first_le. by eapply Forall_forall in Hx. }
  destruct keep as [|keep]; simpl in *.
  - apply elem_of_cons in Hb as [-> |Hin].
    + by rewrite Z.leb_refl; simpl; lia.
    + rewrite (Hle Hin). simpl. lia.
  - specialize (IH keep Hb). rewrite Hle; [simpl; lia|]. apply (subseteq_drop keep l), Hb.
Qed.

Lemma beyond_rank policyId keep rows b : b ∈ beyond policyId keep rows →
  b ∈ rows ∧ kept_by policyId b = true ∧ (keep < rank policyId rows b)%nat.
Proof.
  intros Hb. unfold beyond in Hb. assert (b ∈ ready_of policyId rows) as Hin by (by apply (subseteq_drop keep)).
  unfold ready_of in Hin. apply elem_of_js_sort, elem_of_js_filter in Hin as [Hin Hk]. split; [done|]. split; [done|].
  pose proof (drop_sorted keep _ _ (js_sort_sorted newest_first _) Hb) as Hlt.
  erewrite (Permutation_length (js_filter_perm _ _ _ (js_sort_perm newest_first _))) in Hlt.
  rewrite js_filter_filter in Hlt. exact Hlt.
Qed.

Section prune.
Context (policyId : string) (keep : nat).

Definition listed (rows : list Backup) (e : ev) : Prop := match e with Ev (Db AllBackups) (inr r) => r = rows | _ => False end.
Definition object_removed (b : Backup) (e : ev) : Prop :=
  match e with Ev (Store t (SDelete k)) (inr _) => t = ba_target b ∧ k = ba_objectKey b | _ => False end.
(** A backup that the listing gives and that more than [keep] are as new as. *)
Definition surplus (pre : list ev) (b : Backup) : Prop :=
  ∃ rows, Exists (listed rows) pre ∧ b ∈ rows ∧ kept_by policyId b = true ∧ (keep < rank policyId rows b)%nat.

Definition may_prune (pre : list ev) (e : ev) : Prop :=
  match e with
  | Ev (Store t (SDelete k)) _ => ∃ b, surplus pre b ∧ t = ba_target b ∧ k = ba_objectKey b
  | Ev (Db (DeleteBackup id)) _ => ∃ b, surplus pre b ∧ id = ba_id b ∧ Exists (object_removed b) pre
  | Ev (Db AllBackups) _ => True
  | _ => False
  end.

Lemma surplus_app pre b k : surplus pre b → surplus (pre ++ k) b.
Proof. intros (rows & Hl & H). exists rows. rewrite Exists_app. auto. Qed.

Lemma wp_prune_one b tr : guarded may_prune tr → surplus tr b →
  wp (prune_one b) (λ r tr', guarded may_prune tr' ∧ (∃ evs, tr' = tr ++ evs) ∧ ∃ x, r = Returned x) tr.
Proof.
  intros Ht Hb. unfold prune_one. apply wp_try, wp_bind, wp_attempt.
  - intros f. split; [apply guarded_snoc; [done|by exists b]|]. split; [by eexists|by eexists].
  - intros u. assert (guarded may_prune (tr ++ [Ev (Store (ba_target b) (SDelete (ba_objectKey b))) (inr u)])) as H1.
    { apply guarded_snoc; [done|by exists b]. }
    assert (∀ x, guarded may_prune ((tr ++ [Ev (Store (ba_target b) (SDelete (ba_objectKey b))) (inr u)]) ++ [Ev (Db (DeleteBackup (ba_id b))) x])) as H2.
    { intros x. apply guarded_snoc; [done|]. exists b. split; [by apply surplus_app|]. split; [done|].
      apply Exists_app. right. left. by split. }
    apply wp_bind, wp_attempt; [intros f|intros v]; (split; [apply H2|]; split; [rewrite <- (assoc_L (++)); by eexists|by eexists]).
Qed.

Lemma wp_prune_all l n errors tr : guarded may_prune tr → (∀ b, b ∈ l → surplus tr b) →
  wp (prune_all l n errors) (λ r tr', guarded may_prune tr' ∧ ∃ m errs, r = Returned (m, errs) ∧ (m + length errs = n + length errors + length l)%nat) tr.
Proof.
  revert n errors tr. induction l as [|b l IH]; intros n errors tr Ht Hl; cbn [prune_all].
  { split; [done|]. exists n, errors. split; [done|]. simpl. lia. }
  apply wp_bind. eapply wp_mono; [apply (wp_prune_one b tr Ht), Hl; by left|].
  intros r tr' (H1 & (evs & ->) & [m ->]).
  assert (∀ b', b' ∈ l → surplus (tr ++ evs) b') as Hl' by (intros b' Hb'; apply surplus_app, Hl; by right).
  destruct m as [m|]; (eapply wp_mono; [by apply IH|]; intros r' tr'' (Hg & m' & errs & -> & Hlen); split; [done|];
    exists m', errs; split; [done|]); rewrite ?length_app in *; simpl in *; lia.
Qed.

Lemma wp_prune :
  wp (pruneBackups policyId keep) (λ r tr, guarded may_prune tr ∧ ∀ m errs, r = Returned (m, errs) →
    ∃ rows, Exists (listed rows) tr ∧ (m + length errs = length (beyond policyId keep rows))%nat) [].
Proof.
  unfold pruneBackups. apply wp_bind, wp_attempt.
  - intros f. split; [by apply (guarded_snoc _ []); [apply guarded_nil|]|done].
  - intros rows. assert (guarded may_prune ([] ++ [Ev (Db AllBackups) (inr rows)])) as H0 by (by apply guarded_snoc; [apply guarded_nil|]).
    assert (∀ b, b ∈ beyond policyId keep rows → surplus ([] ++ [Ev (Db AllBackups) (inr rows)]) b) as Hb.
    { intros b Hb. exists rows. split; [by left|]. by apply beyond_rank. }
    eapply wp_mono; [apply (wp_extends _ _ _ (wp_prune_all (beyond policyId keep rows) 0 [] _ H0 Hb))|].
    intros r tr' [(Hg & m & errs & -> & Hlen) [evs ->]]. split; [done|]. intros m' errs' [= <- <-].
    exists rows. split; [by left|]. simpl in Hlen. lia.
Qed.
End prune.

(** C30: retention removes only ready backups of the policy that more than [keep] ready ones are at least as new as,
    a row only after its object was removed; and every backup beyond those is counted as pruned or as an error. *)
Theorem prune_keeps_newest policyId keep orc :
  guarded (may_prune policyId keep) (run orc (pruneBackups policyId keep) []).2
  ∧ ∀ m errs, (run orc (pruneBackups policyId keep) []).1 = Returned (m, errs) →
      ∃ rows, Exists (listed rows) (run orc (pruneBackups policyId keep) []).2
              ∧ (m + length errs = length (beyond policyId keep rows))%nat.
Proof. exact (wp_run _ _ orc [] (wp_prune policyId keep)). Qed.

Lemma Exists_grow {A} {Q : A → Prop} {l : list A} k : Exists Q l → Exists Q (l ++ k).
Proof. intros. apply Exists_app. by left. Qed.

(** ** The backup job *)

Section backup.
Context (fuel : nat) (parses : string → bool) (j : Job) (p : BackupPayload) (t : BackupTarget) (id key : string).

(** The object is in the store: it was put there, or seen there. *)
Definition stored (e : ev) : Prop :=
  match e with
  | Ev (Store t' (SPut k)) (inr _) => t' = t ∧ k = key
  | Ev (Store t' (SStat k)) (inr (Some _)) => t' = t ∧ k = key
  | _ => False
  end.
Definition row_inserted (e : ev) : Prop := match e with Ev (Db (InsertBackup b)) (inr _) => nb_id b = id | _ => False end.
Definition object_deleted (e : ev) : Prop := match e with Ev (Store t' (SDelete k)) _ => t' = t ∧ k = key | _ => False end.
Definition row_failed (e : ev) : Prop := match e with Ev (Db (BackupFail i _)) _ => i = id | _ => False end.
Definition row_ready (e : ev) : Prop := match e with Ev (Db (BackupReady i _ _)) (inr _) => i = id | _ => False end.
Definition local_dropped (e : ev) : Prop :=
  match e with
  | Ev (Request c m path NoBody) _ => c = bk_clusterId p ∧ m = "DELETE" ∧ path = backupsPath p ("/" +++ local_name j)
  | _ => False
  end.

(** A row is recorded as ready only once the object is in the store. *)
Definition may_record (pre : list ev) (e : ev) : Prop :=
  match e with Ev (Db (BackupReady _ _ _)) _ => Exists stored pre | _ => True end.
Definition plain (e : ev) : Prop :=
  match e with Ev (Db (BackupReady _ _ _)) _ | Ev (Db (InsertBackup _)) _ => False | _ => True end.

Lemma plain_recordable pre e : plain e → may_record pre e.
Proof. destruct e as [X c x]. destruct c; try done. by destruct q. Qed.

Lemma plain_get e : is_get e → plain e.
Proof. destruct e as [X c x]. by destruct c. Qed.

Lemma waitOp_plain n c op : emits plain (waitOp (ask Aborted) n c op).
Proof. induction n as [|n IH]; [exact I|]. cbn [waitOp]. emits_all; first [exact I|exact IH]. Qed.
Lemma make_plain s3 : emits plain (make fuel j p key s3).
Proof. unfold make. emits_all; first [exact I|apply waitOp_plain]. Qed.
Lemma dropLocal_plain : emits plain (dropLocal j p).
Proof. unfold dropLocal. emits_all; exact I. Qed.
Lemma appeared_plain n : emits plain (appeared t key n).
Proof. induction n as [|n IH]; [exact I|]. cbn [appeared]. unfold stop_if_aborted. emits_all; first [exact I|exact IH]. Qed.
Lemma progress_plain st : emits plain (progress st).
Proof. unfold progress. emits_all. exact I. Qed.

Lemma upload_plain : emits plain (upload fuel parses j p t key).
Proof.
  unfold upload, try_direct, relay_backup.
  emits_all; first [exact I|apply progress_plain|apply make_plain|apply appeared_plain|apply dropLocal_plain].
Qed.

Definition now_stored {A : Type} (r : outcome exn A) (tr : list ev) : Prop := ∀ x, r = Returned x → Exists stored tr.

Lemma stored_after {A B} (a : P A) (f : A → P B) tr :
  (∀ x tr', wp (f x) now_stored tr') → wp (a ≫= f) now_stored tr.
Proof.
  intros Hf. apply wp_bind, (wp_emits_weaken (λ _, True)); [apply emits_any|]. intros [x|e|] evs _; [apply Hf|done..].
Qed.

Lemma appeared_stored n tr : wp (appeared t key n) now_stored tr.
Proof.
  revert tr. induction n as [|n IH]; intros tr; [done|]. cbn [appeared]. apply stored_after. intros _ tr1.
  apply wp_bind, wp_attempt; [done|]. intros [size|].
  - intros x _. apply Exists_app. right. left. by split.
  - apply stored_after. intros [] tr2; [done|apply IH].
Qed.

Lemma relay_stored streaming tr : wp (relay_backup fuel j p t key streaming) now_stored tr.
Proof.
  unfold relay_backup. apply stored_after. intros _ tr1. apply wp_attempt; [done|]. intros size x _.
  apply Exists_app. right. left. by split.
Qed.

Lemma try_direct_stored tr : wp (try_direct fuel j p t key) (λ r tr', ∀ size, r = Returned (Some size) → Exists stored tr') tr.
Proof.
  unfold try_direct. apply wp_try, (wp_mono _ now_stored).
  - do 2 (apply stored_after; intros _ ?). apply wp_bind, (wp_mono _ _ _ _ (appeared_stored _ _)).
    intros [size|e|] tr9 Hs; [|done..]. intros x _. by apply (Hs size).
  - intros [o|e|] tr' Hs; [intros size _; by apply (Hs o)| |done]. destruct (bool_decide _); [done|].
    apply wp_bind, wp_ask. intros [f|]; [done|].
    do 3 (apply wp_bind, (wp_emits_weaken (λ _, True)); [apply emits_any|]; intros [?|?|] ? _; [|done..]). done.
Qed.

Lemma upload_stored tr : wp (upload fuel parses j p t key) now_stored tr.
Proof.
  unfold upload. apply stored_after. intros server tr1. destruct (_ && negb _); [done|]. apply wp_bind.
  apply (wp_mono _ (λ r tr', ∀ size, r = Returned (Some size) → Exists stored tr')).
  { destruct (_ && _); [apply try_direct_stored|done]. }
  intros [[size|]|e|] tr2 Hs; [|..]; try done.
  - intros x _. by apply (Hs size).
  - apply wp_bind, (wp_mono _ _ _ _ (relay_stored _ tr2)). intros [size|e|] tr3 Hr; [|done..]. intros x _. by apply (Hr size).
Qed.

Lemma prune_plain policyId keep : emits plain (pruneBackups policyId keep).
Proof.
  unfold pruneBackups. emits_all; [exact I|]. generalize (beyond policyId keep x) 0%nat (@nil string).
  intros l. induction l as [|b l IH]; intros n errs; [exact I|]. cbn [prune_all]. unfold prune_one.
  emits_all; first [exact I|apply IH].
Qed.
Lemma setPolicy_plain ch : emits plain (setPolicy p ch).
Proof. unfold setPolicy. emits_all; exact I. Qed.

(** *** The block *)

Definition row_made (b : bool) (tr : list ev) : Prop :=
  if b then Exists row_inserted tr else Forall (λ e, ¬ row_inserted e) tr.

Definition block_ok (r : outcome (exn * bool) BackupResult) (tr : list ev) : Prop :=
  guarded may_record tr ∧
  match r with
  | Returned res => Exists row_ready tr ∧ br_id res = id
  | Raised (_, b) => row_made b tr
  | Running => True
  end.

Lemma plain_not_inserted evs : Forall plain evs → Forall (λ e, ¬ row_inserted e) evs.
Proof. intros H. eapply Forall_impl; [exact H|]. intros [X c x]. destruct c; try (simpl; tauto). destruct q; simpl; tauto. Qed.

Lemma wp_plain {A} (q : P A) (Q : outcome exn A → list ev → Prop) tr :
  guarded may_record tr → emits plain q → (∀ r evs, Forall plain evs → guarded may_record (tr ++ evs) → Q r (tr ++ evs)) → wp q Q tr.
Proof. intros Ht Hq HQ. apply (wp_guarded may_record plain); [done..|intros e k; apply plain_recordable|exact HQ]. Qed.

Lemma wp_start_row tr :
  guarded may_record tr → row_made false tr →
  wp (start_row j p t id key) (λ r tr', guarded may_record tr' ∧
    match r with Returned _ => row_made true tr' | _ => row_made false tr' end) tr.
Proof.
  intros Ht Hn. unfold start_row. apply wp_bind, wp_plain; [done|eapply emits_mono, readInstance_emits; apply plain_get|].
  intros r evs He Hg. assert (row_made false (tr ++ evs)) as Hn' by (apply Forall_app; split; [done|by apply plain_not_inserted]).
  destruct r as [[i|]|e|]; try by split. apply wp_attempt.
  - intros f. split; [by apply guarded_snoc|]. apply Forall_app. split; [done|]. repeat constructor. simpl. tauto.
  - intros u. split; [by apply guarded_snoc|]. apply Exists_app. right. by left.
Qed.

Lemma wp_record_ready size tt_ tr :
  guarded may_record tr → row_made true tr → Exists stored tr →
  wp (record_ready p id size tt_) (λ r tr', guarded may_record tr' ∧ row_made true tr' ∧
    ∀ res, r = Returned res → Exists row_ready tr' ∧ br_id res = id) tr.
Proof.
  intros Ht Hr Hs. unfold record_ready.
  assert (∀ tr evs, row_made true tr → row_made true (tr ++ evs)) as Hgrow by (intros tr0 evs H; apply Exists_app; by left).
  apply wp_bind, wp_attempt; [intros f; split; [by apply guarded_snoc|]; split; [by apply Hgrow|done]|].
  intros u. set (tr1 := tr ++ _). assert (guarded may_record tr1) as H1 by (by apply guarded_snoc).
  assert (row_made true tr1 ∧ Exists row_ready tr1) as [Hr1 Hd1] by (split; [by apply Hgrow|apply Exists_app; right; by left]).
  clearbody tr1. assert (∀ evs, row_made true (tr1 ++ evs) ∧ Exists row_ready (tr1 ++ evs)) as Hall.
  { intros evs. split; [by apply Hgrow|]. apply Exists_app. by left. }
  destruct (truthy_opt_str _); [|split; [done|]; split; [done|]; by intros res [= <-]].
  assert (∀ (r : outcome exn BackupResult) evs, guarded may_record (tr1 ++ evs) → (∀ res, r = Returned res → br_id res = id) →
    guarded may_record (tr1 ++ evs) ∧ row_made true (tr1 ++ evs) ∧ ∀ res, r = Returned res → Exists row_ready (tr1 ++ evs) ∧ br_id res = id) as Hend.
  { intros r evs Hg Hid. split; [done|]. split; [apply Hall|]. intros res Hres. split; [apply Hall|by apply Hid]. }
  apply wp_bind, wp_plain; [done|emits_all; exact I|]. intros [po|e|] e1 _ G1; [|by apply (Hend (Raised e))|by apply (Hend Running)].
  apply wp_bind, wp_plain; [done|destruct po; [apply prune_plain|exact I]|].
  intros [r|e|] e2 _ G2; rewrite <- (assoc_L (++)) in *; [|by apply (Hend (Raised e))|by apply (Hend Running)].
  apply wp_bind, wp_plain; [done|apply setPolicy_plain|].
  intros [v|e|] e3 _ G3; rewrite <- (assoc_L (++)) in *; [|by apply (Hend (Raised e))|by apply (Hend Running)].
  apply (Hend (Returned _)); [done|]. by intros res [= <-].
Qed.

Lemma wp_backup_try tr :
  guarded may_record tr → row_made false tr →
  wp (_ ← leaving false (start_row j p t id key);
      leaving true (st ← upload fuel parses j p t key; record_ready p id st.1 st.2)) block_ok tr.
Proof.
  intros Ht Hn. apply wp_bind, wp_leaving, (wp_mono _ _ _ _ (wp_start_row tr Ht Hn)). intros [u|e|] tr1 [H1 Hr]; [|by split..].
  apply wp_leaving, wp_bind.
  assert (wp (upload fuel parses j p t key) (λ _ tr', guarded may_record tr' ∧ row_made true tr') tr1) as Hup.
  { apply wp_plain; [done|apply upload_plain|]. intros r evs _ Hg. split; [done|]. by apply Exists_grow. }
  eapply wp_mono; [exact (wp_and _ _ _ _ (upload_stored tr1) Hup)|].
  intros [[size tk]|e|] tr2 [Hs [H2 Hr2]]; [|by split..].
  eapply wp_mono; [apply wp_record_ready; [done|exact Hr2|by eapply Hs]|].
  intros [res|e|] tr3 (H3 & Hr3 & Hd); (split; [done|]); [by apply Hd|done|done].
Qed.

(** The object is removed, then the row is recorded as failed. *)
Definition undone (tr : list ev) : Prop :=
  ∃ a d b f k, tr = a ++ d :: b ++ f :: k ∧ Exists row_inserted a ∧ object_deleted d ∧ row_failed f.

Lemma undone_app tr k : undone tr → undone (tr ++ k).
Proof.
  intros (a & d & b & f & k' & -> & H). exists a, d, b, f, (k' ++ k). rewrite <- (assoc_L (++)). simpl. by rewrite <- (assoc_L (++)).
Qed.

Lemma not_inserted evs tr : Forall plain evs → (Exists row_inserted tr → undone tr) → Exists row_inserted (tr ++ evs) → undone (tr ++ evs).
Proof.
  intros Hp Hu Hex. apply undone_app, Hu. apply Exists_app in Hex as [Hex|Hex]; [done|].
  apply Exists_exists in Hex as (y & Hy & Hi). apply plain_not_inserted in Hp. by eapply Forall_forall in Hp.
Qed.

Definition failed_ok {A : Type} (r : outcome exn A) (tr : list ev) : Prop :=
  guarded may_record tr ∧ (∀ x, r ≠ Returned x) ∧ (Exists row_inserted tr → undone tr).

Lemma wp_record_failure message b ed tr :
  guarded may_record (tr ++ [ed]) → row_made b tr → plain ed → object_deleted ed →
  wp (if b then attempt (Db (BackupFail id message)) else Ret tt)
    (λ _ tr', guarded may_record tr' ∧ (Exists row_inserted tr' → undone tr')) (tr ++ [ed]).
Proof.
  intros Hg Hb Hp Hd. destruct b; simpl in Hb.
  - assert (∀ y, undone ((tr ++ [ed]) ++ [Ev (Db (BackupFail id message)) y])) as Hu.
    { intros y. exists tr, ed, [], (Ev (Db (BackupFail id message)) y), []. rewrite <- (assoc_L (++)). by repeat split. }
    apply wp_attempt; intros y; (split; [by apply guarded_snoc|]; intros _; apply Hu).
  - split; [done|]. apply not_inserted; [by repeat constructor|]. intros Hex. apply Exists_exists in Hex as (y & Hy & Hi).
    by eapply Forall_forall in Hb.
Qed.

Lemma wp_backup_failed e b tr :
  guarded may_record tr → row_made b tr → wp (backup_failed p t id key e b) failed_ok tr.
Proof.
  intros Ht Hb. unfold backup_failed.
  assert (∀ x, wp (_ ← (if b then attempt (Db (BackupFail id (str_take 1000 (exn_message e)))) else Ret tt);
                   _ ← setPolicy p (BackupFailed (str_take 1000 (exn_message e))); Raise e : P BackupResult)
              failed_ok (tr ++ [Ev (Store t (SDelete key)) x])) as Hrest.
  { intros x. apply wp_bind. eapply wp_mono; [apply wp_record_failure; [by apply guarded_snoc|exact Hb|done|by split]|].
    intros [u|e'|] tr' [Hg Hu]; [|by split|by split]. apply wp_bind, wp_plain; [done|apply setPolicy_plain|].
    intros r evs Hp Hg'. pose proof (not_inserted _ _ Hp Hu) as Hu'. destruct r as [v|e'|]; by split. }
  apply wp_bind, wp_quietly, wp_attempt; [intros f; exact (Hrest (inl f))|intros []; exact (Hrest (inr tt))].
Qed.

Lemma wp_drop_local tr :
  wp (quietly (dropLocal j p)) (λ r tr', (∃ x evs, r = Returned x ∧ tr' = tr ++ evs ∧ Forall plain evs) ∧ Exists local_dropped tr') tr.
Proof.
  apply wp_and.
  { apply (wp_returns plain); [apply returns_try; [unfold dropLocal; finite_all|done]|apply emits_quietly, dropLocal_plain|].
    intros x evs Hp. by exists x, evs. }
  unfold dropLocal. apply wp_quietly, wp_try, wp_bind, wp_attempt.
  - intros f. destruct (is_missing _); apply Exists_app; right; left; by repeat split.
  - intros v. apply Exists_app; right; left; by repeat split.
Qed.

Definition backup_post (r : outcome exn BackupResult) (tr : list ev) : Prop :=
  guarded may_record tr ∧
  match r with
  | Returned res => Exists row_ready tr ∧ br_id res = id ∧ Exists local_dropped tr
  | Raised _ => (Exists row_inserted tr → undone tr) ∧ Exists local_dropped tr
  | Running => True
  end.

Lemma wp_backup : wp (backup_block fuel parses j p t id key) backup_post [].
Proof.
  unfold backup_block. apply wp_finally, wp_catch_with. eapply wp_mono; [apply wp_backup_try; [apply guarded_nil|constructor]|].
  assert (∀ (r : outcome exn BackupResult) tr, guarded may_record tr →
    match r with Returned res => Exists row_ready tr ∧ br_id res = id | Raised _ => Exists row_inserted tr → undone tr | Running => True end →
    wp (quietly (dropLocal j p)) (λ rf tr', match rf with Returned _ => backup_post r tr' | Raised e => backup_post (Raised e) tr' | Running => backup_post Running tr' end) tr) as Hfin.
  { intros r tr Hg Hr. eapply wp_mono; [apply wp_drop_local|]. intros rf tr' [(x & evs & -> & -> & Hp) Hd].
    assert (guarded may_record (tr ++ evs)) as Hg'.
    { apply guarded_app; [done|]. eapply Forall_impl; [exact Hp|]. intros e He k. by apply plain_recordable. }
    assert (backup_post r (tr ++ evs)) as Hpost.
    { split; [done|]. destruct r as [res|e|]; [destruct Hr as [Hr1 Hr2]; split; [by apply Exists_grow|]; split; [exact Hr2|exact Hd]| |done]. split; [|exact Hd].
      by apply not_inserted. }
    exact Hpost. }
  intros [res|[e b]|] tr [Hg Hb]; [by apply Hfin| |by split].
  eapply wp_mono; [by apply wp_backup_failed|]. intros [res|e'|] tr' (Hg' & Hn & Hu); [by destruct (Hn res)|by apply Hfin|by split].
Qed.
End backup.

(** Whatever the services answer, a backup is recorded as ready only once its object is in the store; a job that
    fails after it inserted its row has the object removed and then the row marked as failed; and the cluster's own
    copy is dropped in either case. *)
Theorem backup_outcome fuel parses j p t id key orc :
  guarded (may_record t key) (run orc (backup_block fuel parses j p t id key) []).2 ∧
  match (run orc (backup_block fuel parses j p t id key) []).1 with
  | Returned res => Exists (row_ready id) (run orc (backup_block fuel parses j p t id key) []).2 ∧ br_id res = id
                    ∧ Exists (local_dropped j p) (run orc (backup_block fuel parses j p t id key) []).2
  | Raised _ => (Exists (row_inserted id) (run orc (backup_block fuel parses j p t id key) []).2
                 → undone t id key (run orc (backup_block fuel parses j p t id key) []).2)
                ∧ Exists (local_dropped j p) (run orc (backup_block fuel parses j p t id key) []).2
  | Running => True
  end.
Proof. exact (wp_run _ _ orc [] (wp_backup fuel parses j p t id key)). Qed.

(** *** A complete backup lost to bookkeeping *)

Definition demo_target : BackupTarget :=
  {| bt_id := "t1"; bt_name := "s3"; bt_endpoint := "http://garage:3900"; bt_region := "garage"; bt_prefix := EmptyString; bt_enabled := true |}.
Definition demo_backup (id key : string) (at_ : Z) : Backup :=
  {| ba_id := id; ba_policyId := Some "bp"; ba_objectKey := key; ba_state := Ready; ba_createdAt := at_; ba_target := demo_target |}.
Definition demo_backup_payload : BackupPayload :=
  {| bk_clusterId := "A"; bk_project := "acme"; bk_instanceName := "web"; bk_targetId := "t1"; bk_instanceOnly := false;
     bk_transport := Auto; bk_policyId := Some "bp" |}.

(** The policy keeps one backup; recording the success of a run is refused. *)
Definition backup_world (X : Type) (c : call X) (tr : list ev) : X :=
  match c in call X return X with
  | Db q =>
      match q in query X return fault + X with
      | TargetById _ => inr (Some demo_target)
      | InsertBackup _ | BackupReady _ _ _ | BackupFail _ _ | DeleteBackup _ => inr tt
      | BackupPolicyById _ =>
          inr (Some {| bp_id := "bp"; bp_tenantId := None; bp_clusterId := "A"; bp_project := "acme"; bp_instanceName := "web";
                       bp_targetId := "t1"; bp_keep := 1; bp_instanceOnly := false |})
      | AllBackups => inr [demo_backup "old" "old.tar.gz" 1; demo_backup "00000000" "new.tar.gz" 2]
      | SetBackupPolicy _ (BackedUp _) => inl (Error "the database went away")
      | SetBackupPolicy _ _ => inr tt
      | _ => inl (Error "unavailable")
      end
  | Store t o =>
      match o in store_op X return fault + X with
      | SPut _ => inr 300000%Z
      | SGet _ | SDelete _ => inr tt
      | SStat _ => inr None
      end
  | Request _ _ _ _ => inr {| rs_async := false; rs_operation := None; rs_id := "x"; rs_secrets := None |}
  | Download _ _ _ => inr tt
  | c => demo_world None (λ _, false) _ c tr
  end.

Definition deleted_key (e : ev) : option string := match e with Ev (Store _ (SDelete k)) _ => Some k | _ => None end.

(** The old backup is pruned, and then the new one is removed too: none is left. *)
Example bookkeeping_loses_backups :
  let r := run backup_world (backup_block 3 (λ _, true) demo_job demo_backup_payload demo_target "00000000" "new.tar.gz") [] in
  r.1 = Raised (Fault (Error "the database went away")) ∧ omap deleted_key r.2 = ["old.tar.gz"; "new.tar.gz"].
Proof. vm_compute. by split. Qed.

(** *** Keys and regions *)

Example objectKey_plain :
  objectKey EmptyString "acme" "web" "2026-10-11T09:08:07.123Z" "0123456789abcdef" = "acme/web/20261011T090807Z-01234567.tar.gz"
  ∧ objectKey "/b/" "p" "i" "2026-10-11T09:08:07.000Z" "abcdefgh" = "b/p/i/20261011T090807Z-abcdefgh.tar.gz".
Proof. by vm_compute. Qed.

Example upload_regions :
  incusUploadRegion (λ _, true) <$>
    ["https://s3.eu-central-1.amazonaws.com"; "https://s3-eu-west-1.amazonaws.com"; "https://bk.s3.ap-south-1.amazonaws.com:443";
     "https://s3.dualstack.us-west-2.amazonaws.com"; "https://user:pw@s3.eu-north-1.amazonaws.com/path";
     "https://S3.EU-CENTRAL-1.AMAZONAWS.COM"; "http://garage:3900"]
  = ["eu-central-1"; "eu-west-1"; "ap-south-1"; "us-west-2"; "eu-north-1"; "us-east-1"; "us-east-1"].
Proof. by vm_compute. Qed.

(** ** Restoring *)

Section restore.
Context (fuel : nat) (JSON_parse : string → option Json) (transfer : TransferOptions → P Transport) `{Htr : !Transfers transfer}.
Context (j : Job) (p : RestorePayload).
Abbreviation key := (target_key p).

(** What may be asked of the cluster: everything only after a read found no instance of the target's name; what
    is there of that name is deleted only after a read found that this very job made it. *)
Definition may_restore (pre : list ev) (e : ev) : Prop :=
  match e with
  | Ev (Request c m path b) _ =>
      c = re_targetClusterId p ∧ Exists (absent key) pre
      ∧ (m = "DELETE" → path = instancePath STAGING_PROJECT (staged j) EmptyString
                        ∨ path = instancePath (re_targetProject p) (re_targetName p) EmptyString
                          ∧ Exists (reads key (λ i, in_config i !! TAG_JOB = Some (job_id j))) pre)
      ∧ match b with CreateBody _ refresh _ _ => refresh = false | _ => True end
  | Ev (Upload c _ _ _) _ => c = re_targetClusterId p ∧ Exists (absent key) pre
  | Ev (Download _ _ _) _ => False
  | _ => True
  end.
Definition harmless (e : ev) : Prop :=
  match e with Ev (Request _ _ _ _) _ | Ev (Upload _ _ _ _) _ | Ev (Download _ _ _) _ => False | _ => True end.
(** Requests other than to delete. *)
Definition building (e : ev) : Prop :=
  match e with
  | Ev (Request c m _ b) _ => c = re_targetClusterId p ∧ m ≠ "DELETE" ∧ match b with CreateBody _ refresh _ _ => refresh = false | _ => True end
  | Ev (Upload c _ _ _) _ => c = re_targetClusterId p
  | Ev (Download _ _ _) _ => False
  | _ => True
  end.

Abbreviation found_none tr := (Exists (absent key) tr).
Abbreviation fine := (guarded may_restore).

Lemma harmless_may pre e : harmless e → may_restore pre e.
Proof. destruct e as [X c x]. by destruct c. Qed.
Lemma harmless_get e : is_get e → harmless e.
Proof. destruct e as [X c x]. by destruct c. Qed.
Lemma building_may pre e : found_none pre → building e → may_restore pre e.
Proof. destruct e as [X c x]. intros Hp. destruct c; simpl; try done; try naive_solver. Qed.
Lemma building_harmless e : harmless e → building e.
Proof. destruct e as [X c x]. by destruct c. Qed.

Lemma wp_harmless {A} (q : P A) (Q : outcome exn A → list ev → Prop) tr :
  fine tr → emits harmless q → (∀ r evs, fine (tr ++ evs) → Q r (tr ++ evs)) → wp q Q tr.
Proof. intros Ht Hq HQ. apply (wp_guarded may_restore harmless); [done..|intros e k; apply harmless_may|]. intros r evs _. apply HQ. Qed.

Lemma wp_building {A} (q : P A) (Q : outcome exn A → list ev → Prop) tr :
  fine tr → found_none tr → emits building q → (∀ r evs, fine (tr ++ evs) → found_none (tr ++ evs) → Q r (tr ++ evs)) → wp q Q tr.
Proof.
  intros Ht Hn Hq HQ. apply (wp_guarded may_restore building); [done|done| |].
  - intros e k. apply building_may. by apply Exists_grow.
  - intros r evs _ Hg. apply HQ; [done|by apply Exists_grow].
Qed.

Lemma gets_building {A} (q : P A) : emits is_get q → emits building q.
Proof. apply emits_mono. intros e He. by apply building_harmless, harmless_get. Qed.
Lemma progress_building st : emits building (progress st).
Proof. unfold progress. emits_all. exact I. Qed.
Lemma waitOp_building n c op : emits building (waitOp (ask Aborted) n c op).
Proof. induction n as [|n IH]; [exact I|]. cbn [waitOp]. emits_all; first [exact I|exact IH]. Qed.
Lemma import_building pr n pool : emits building (importInto fuel p pr n pool).
Proof. unfold importInto. emits_all; first [exact I|reflexivity|apply waitOp_building]. Qed.
Lemma setState_building k a : clusterId k = re_targetClusterId p → emits building (setState (clusterId k) (project k) (name k) a).
Proof.
  intros Hk. eapply emits_mono, (setState_calls k). intros e [He|He]; [by apply building_harmless, harmless_get|].
  destruct e as [X c x]. destruct c; simpl in *; [|done..]. destruct b; [done| |done..]. by destruct He as (-> & -> & _).
Qed.
Lemma transfer_building cl r e : cl_id cl = re_targetClusterId p → migration_call (restore_options j p cl r) e → building e.
Proof.
  intros Hc. destruct e as [X c x]. destruct c; simpl; try done. intros (-> & [(-> & _ & t & ->)|(-> & _ & ->)]); by repeat split.
Qed.

Lemma staged_building cl target : cl_id cl = re_targetClusterId p → emits building (migrate_staged fuel JSON_parse transfer j p cl target).
Proof.
  intros Hc. unfold migrate_staged. emits_all;
    first [exact I|apply progress_building|apply import_building|apply gets_building, sourceFacts_emits
          |eapply emits_mono, transfer_emits; intros e; by apply transfer_building].
Qed.
Lemma ensure_building : emits building (ensureStaging p).
Proof. unfold ensureStaging. emits_all; first [exact I|by repeat split]. Qed.

(** Deleting at one of the two places. *)
Lemma wp_delete k (Q : outcome exn unit → list ev → Prop) tr :
  clusterId k = re_targetClusterId p → fine tr → found_none tr →
  (instancePath (project k) (name k) EmptyString = instancePath STAGING_PROJECT (staged j) EmptyString
   ∨ k = key ∧ Exists (reads key (λ i, in_config i !! TAG_JOB = Some (job_id j))) tr) →
  (∀ r evs, fine (tr ++ evs) → found_none (tr ++ evs) → Q r (tr ++ evs)) →
  wp (incusDo (clusterId k) "DELETE" (instancePath (project k) (name k) EmptyString) NoBody) Q tr.
Proof.
  intros Hk Ht Hn Hwhy HQ. eapply wp_guarded; [exact Ht|apply incusDo_emits| |].
  - intros e k' [He|He]; [by apply harmless_may, harmless_get|]. destruct e as [X c x]. destruct c; simpl in He; try done.
    destruct He as (-> & -> & -> & ->). split; [done|]. split; [by apply Exists_grow|]. split; [|done]. intros _.
    destruct Hwhy as [Hst|[-> Ht']]; [by left|right]. split; [done|by apply Exists_grow].
  - intros r evs _ Hg. apply HQ; [done|by apply Exists_grow].
Qed.

Lemma wp_migrate_failed e tr : fine tr → found_none tr → wp (migrate_failed j p e) (λ r tr', fine tr' ∧ found_none tr') tr.
Proof.
  intros Ht Hn. unfold migrate_failed. apply wp_bind, wp_try, (wp_readInstance key).
  - intros i er Hi. cbn [or_empty].
    assert (fine (tr ++ [er])) as H1 by (apply guarded_snoc; [done|apply harmless_may; destruct er as [X c x]; by destruct c]).
    assert (found_none (tr ++ [er])) as H2 by (by apply Exists_grow).
    destruct (bool_decide_reflect (in_config i !! TAG_JOB = Some (job_id j))) as [Htag|]; [|by split].
    apply wp_bind, wp_quietly, (wp_delete key); [done..| |by intros [u|x|] evs ? ?].
    right. split; [done|]. apply Exists_app. right. left.
    destruct er as [X c x]. destruct c; try done. destruct d; try done. destruct x; [done|]. simpl in *. naive_solver.
  - intros er He. assert (fine (tr ++ [er]) ∧ found_none (tr ++ [er])) as H1.
    { split; [apply guarded_snoc; [done|by apply harmless_may, harmless_get]|by apply Exists_grow]. }
    by split.
Qed.

Lemma wp_via_staging cl tr : cl_id cl = re_targetClusterId p → fine tr → found_none tr →
  wp (restoreViaStaging fuel JSON_parse transfer j p cl) (λ r tr', fine tr' ∧ found_none tr') tr.
Proof.
  intros Hc Ht Hn. unfold restoreViaStaging.
  apply wp_bind, wp_building; [done|done|apply gets_building, targetFacts_emits|]. intros [target|e|] e1 H1 N1; [|by split..].
  apply wp_bind, wp_building; [done|done|apply ensure_building|]. intros [u|e|] e2 H2 N2; [|by split..].
  apply wp_finally, (wp_mono _ (λ _ tr', fine tr' ∧ found_none tr')).
  - apply wp_try, wp_building; [done|done|by apply staged_building|]. intros [v|e|] e3 H3 N3; [by split| |by split].
    by apply wp_migrate_failed.
  - intros r tr3 [H3 N3].
    assert (∀ Q : outcome exn unit → list ev → Prop, (∀ r' tr', fine tr' → found_none tr' → Q r' tr') →
      wp (quietly (incusDo (re_targetClusterId p) "DELETE" (instancePath STAGING_PROJECT (staged j) EmptyString) NoBody)) Q tr3) as Hdel.
    { intros Q HQ. apply wp_quietly, (wp_delete (staged_key j p)); [done..|by left|]. intros [?|?|] evs H4 N4; by apply HQ. }
    destruct r as [v|e|]; [apply Hdel; by intros [?|?|] ? ? ?|apply Hdel; by intros [?|?|] ? ? ?|by split].
Qed.

Lemma wp_restore_block cl cfg tr : cl_id cl = re_targetClusterId p → fine tr → found_none tr →
  wp (restore_block fuel JSON_parse transfer j p cl cfg) (λ _, fine) tr.
Proof.
  intros Hc Ht Hn. unfold restore_block. apply wp_bind, (wp_mono _ (λ r tr', fine tr' ∧ found_none tr')).
  - destruct (negb _); [|by apply wp_via_staging].
    apply wp_building; [done|done| |by split].
    emits_all; first [exact I|apply progress_building|apply import_building|by repeat split].
  - intros [u|e|] tr1 [H1 N1]; [|done..].
    apply wp_bind, wp_building; [done|done|emits_all; exact I|]. intros [v|e|] e2 H2 N2; [|done..].
    destruct (re_start p); [|done]. apply wp_building; [done|done| |done].
    emits_all; first [apply progress_building|by apply (setState_building key)].
Qed.

Lemma open_object_harmless b : emits harmless (open_object b).
Proof. unfold open_object. emits_all; exact I. Qed.

Lemma wp_restore : wp (restoreHandler fuel JSON_parse transfer j p) (λ _, fine) [].
Proof.
  unfold restoreHandler. pose proof (guarded_nil may_restore) as H0.
  apply wp_bind, wp_harmless; [done|emits_all; exact I|]. intros [row|e|] e1 H1; [|done..].
  destruct row as [b|]; [|done]. destruct (negb _); [done|].
  apply wp_bind, wp_bind, wp_attempt; [intros f; by apply guarded_snoc|]. intros rc.
  set (tr1 := _ ++ _). assert (fine tr1) as Ht by (by apply guarded_snoc). clearbody tr1.
  apply wp_bind, wp_harmless; [done|unfold progress; emits_all; exact I|]. intros [u|e|] e2 H2; [|done..].
  apply wp_bind, wp_harmless; [done|unfold project_config; emits_all; exact I|]. intros [cfg|e|] e3 H3; [|done..].
  apply wp_bind, wp_try, wp_bind, wp_attempt; [|intros i; by apply guarded_snoc].
  intros f. assert (fine ((((tr1 ++ e2) ++ e3) ++ [Ev (Get DInstance (re_targetClusterId p) (instancePath (re_targetProject p) (re_targetName p) EmptyString)) (inl f)])))
    as H4 by (by apply guarded_snoc).
  destruct (is_missing (Fault f)) eqn:Hm; [|exact H4]. set (tr4 := _ ++ [_]) in *.
  assert (found_none tr4) as N4 by (apply Exists_app; right; left; by repeat split). clearbody tr4.
  apply wp_bind, wp_building; [done|done|unfold stop_if_aborted; emits_all; exact I|]. intros [v|e|] e5 H5 N5; [|done..].
  apply wp_bind, wp_building; [done|done|eapply emits_mono, open_object_harmless; apply building_harmless|].
  intros [w|e|] e6 H6 N6; [|done..].
  apply wp_bind, wp_finally. eapply wp_mono; [by apply wp_restore_block|].
  assert (∀ tr (Q : outcome exn unit → list ev → Prop), fine tr → (∀ r tr', fine tr' → Q r tr') → wp (refreshInventory [re_targetClusterId p]) Q tr) as Hfin.
  { intros tr Q Htr0 HQ. apply wp_harmless; [done|unfold refreshInventory; emits_all; exact I|]. intros r evs. apply HQ. }
  intros [x|e|] tr7 H7; [| |exact H7]; (apply Hfin; [done|]; by intros [?|?|] ? ?).
Qed.
End restore.

(** C31: whatever the services answer, a restore asks a cluster for anything but reads only after a read found no
    instance of the name it restores to; it never refreshes what is there; and it deletes an instance of that name
    only after a read found that this very job made it. *)
Theorem restore_never_overwrites fuel JSON_parse transfer `{!Transfers transfer} j p orc :
  guarded (may_restore j p) (run orc (restoreHandler fuel JSON_parse transfer j p) []).2.
Proof. exact (wp_run _ _ orc [] (wp_restore fuel JSON_parse transfer j p)). Qed.

(** *** The staged copy goes *)

Section staged.
Context (fuel : nat) (JSON_parse : string → option Json) (transfer : TransferOptions → P Transport) `{Htr : !Transfers transfer}.
Context (j : Job) (p : RestorePayload).
Abbreviation staging := (at_stage "restoring into staging").
Abbreviation key := (staged_key j p).

Definition elsewhere (e : ev) : Prop := ¬ staging e.
(** If the staging project was used, the staged copy's delete was sent. *)
Definition cleaned {A : Type} (r : outcome exn A) (tr : list ev) : Prop :=
  r = Running ∨ Forall elsewhere tr ∨ Exists (deletes key) tr.

Lemma elsewhere_get e : is_get e → elsewhere e.
Proof. destruct e as [X c x]. unfold elsewhere. destruct c; simpl; tauto. Qed.
Lemma gets_elsewhere {A} (q : P A) : emits is_get q → emits elsewhere q.
Proof. apply emits_mono, elsewhere_get. Qed.
Lemma incus_elsewhere c m path b : emits elsewhere (incusDo c m path b).
Proof.
  eapply emits_mono, incusDo_emits. intros e [He|He]; [by apply elsewhere_get|]. destruct e as [X c' x]. unfold elsewhere. destruct c'; simpl; tauto.
Qed.
Lemma state_elsewhere c pr n a : emits elsewhere (setState c pr n a).
Proof. unfold setState. emits_all; first [exact I|apply incus_elsewhere]. Qed.
Lemma waitOp_elsewhere n c op : emits elsewhere (waitOp (ask Aborted) n c op).
Proof. unfold elsewhere. induction n as [|n IH]; [exact I|]. cbn [waitOp]. emits_all; first [exact I|exact IH|simpl; tauto]. Qed.
Lemma import_elsewhere pr n pool : emits elsewhere (importInto fuel p pr n pool).
Proof. unfold importInto. emits_all; first [exact I|apply waitOp_elsewhere|unfold elsewhere; simpl; tauto]. Qed.
Lemma progress_elsewhere st : st ≠ "restoring into staging" → emits elsewhere (progress st).
Proof. intros. unfold progress, elsewhere. by emits_all. Qed.
Lemma call_elsewhere {X} (c : call (answer X)) : (∀ x, elsewhere (Ev c x)) → emits elsewhere (attempt c).
Proof. apply emits_attempt. Qed.

Lemma cleaned_grow {A B : Type} (r : outcome exn A) (r' : outcome exn B) tr evs :
  Forall elsewhere evs → (r = Running → r' = Running) → cleaned r tr → cleaned r' (tr ++ evs).
Proof.
  intros He Hr [->|[Ht|Ht]]; [left; by apply Hr|right; left; by apply Forall_app|right; right; by apply Exists_grow].
Qed.

Lemma wp_elsewhere {A} (q : P A) tr : Forall elsewhere tr → emits elsewhere q → wp q cleaned tr.
Proof. intros Ht Hq. apply (wp_emits_weaken elsewhere); [done|]. intros r evs He. right; left. by apply Forall_app. Qed.

(** Steps elsewhere, before and after the staging. *)
Lemma cleaned_before {A B} (a : P A) (f : A → P B) tr :
  Forall elsewhere tr → emits elsewhere a → (∀ x evs, Forall elsewhere (tr ++ evs) → wp (f x) cleaned (tr ++ evs)) → wp (a ≫= f) cleaned tr.
Proof.
  intros Ht Ha Hf. apply wp_bind, (wp_emits_weaken elsewhere); [done|]. intros r evs He.
  assert (Forall elsewhere (tr ++ evs)) as H by (by apply Forall_app). destruct r as [x|e|]; [by apply Hf|by right; left|by left].
Qed.
Lemma cleaned_after {A B} (a : P A) (f : A → P B) tr : wp a cleaned tr → (∀ x, emits elsewhere (f x)) → wp (a ≫= f) cleaned tr.
Proof.
  intros Ha Hf. apply wp_bind, (wp_mono _ _ _ _ Ha). intros [x|e|] tr' Hc; [|destruct Hc as [Hc|Hc]; [discriminate Hc|right; exact Hc]|by left].
  apply (wp_emits_weaken elsewhere); [apply Hf|]. intros r evs He.
  apply (cleaned_grow (Returned x : outcome exn A)); [done|discriminate|exact Hc].
Qed.

Lemma wp_drop_staged {A : Type} (r : outcome exn A) (Q : outcome exn unit → list ev → Prop) tr :
  (∀ x tr', Exists (deletes key) tr' → Q x tr') →
  wp (quietly (incusDo (re_targetClusterId p) "DELETE" (instancePath STAGING_PROJECT (staged j) EmptyString) NoBody)) Q tr.
Proof.
  intros HQ. apply wp_quietly. eapply wp_mono; [apply wp_incusDo|]. intros r' tr' (x & evs & -> & _).
  assert (Exists (deletes key) (tr ++ Ev (Request (re_targetClusterId p) "DELETE" (instancePath STAGING_PROJECT (staged j) EmptyString) NoBody) x :: evs))
    as Hd by (apply Exists_app; right; left; by repeat split).
  destruct r'; by apply HQ.
Qed.

Lemma wp_staging_cleaned cl tr : Forall elsewhere tr → wp (restoreViaStaging fuel JSON_parse transfer j p cl) cleaned tr.
Proof.
  intros Ht. unfold restoreViaStaging.
  apply cleaned_before; [done|apply gets_elsewhere, targetFacts_emits|]. intros target e1 H1.
  apply cleaned_before; [done|unfold ensureStaging; emits_all; first [exact I|unfold elsewhere; simpl; tauto]|]. intros _ e2 H2.
  apply wp_finally, (wp_emits_weaken (λ _, True)); [apply emits_any|].
  intros [x|e|] evs _; [| |by left]; apply (wp_drop_staged (A := unit) Running); intros [?|?|] tr' Hd; first [by right; right|by left].
Qed.

Lemma wp_restore_cleaned : wp (restoreHandler fuel JSON_parse transfer j p) cleaned [].
Proof.
  unfold restoreHandler.
  apply cleaned_before; [constructor|apply call_elsewhere; unfold elsewhere; simpl; tauto|]. intros row e1 H1.
  destruct row as [b|]; [|by right; left]. destruct (negb _); [by right; left|].
  apply cleaned_before; [done|unfold clientFor; emits_all; first [exact I|unfold elsewhere; simpl; tauto]|]. intros cl e2 H2.
  apply cleaned_before; [done|by apply progress_elsewhere|]. intros _ e3 H3.
  apply cleaned_before; [done|unfold project_config; emits_all; first [exact I|unfold elsewhere; simpl; tauto]|]. intros cfg e4 H4.
  apply cleaned_before; [done|apply gets_elsewhere, readInstance_emits|]. intros existing e5 H5.
  destruct existing; [by right; left|].
  apply cleaned_before; [done|unfold stop_if_aborted; emits_all; first [exact I|unfold elsewhere; simpl; tauto]|]. intros _ e6 H6.
  apply cleaned_before; [done|unfold open_object; emits_all; first [exact I|unfold elsewhere; simpl; tauto]|]. intros _ e7 H7.
  apply cleaned_after; [|intros ?; exact I]. apply wp_finally, (wp_mono _ cleaned).
  - unfold restore_block. apply cleaned_after.
    + destruct (negb _); [|by apply wp_staging_cleaned]. apply wp_elsewhere; [done|].
      emits_all; first [exact I|by apply progress_elsewhere|apply import_elsewhere|unfold elsewhere; simpl; tauto].
    + intros _. emits_all; first [exact I|by apply progress_elsewhere|apply state_elsewhere|unfold elsewhere; simpl; tauto].
  - intros r tr Hc. assert (emits elsewhere (refreshInventory [re_targetClusterId p])) as Hr.
    { apply call_elsewhere; unfold elsewhere; simpl; tauto. }
    destruct r as [x|e|]; [| |by left]; 
      (apply (wp_emits_weaken elsewhere); [done|]; intros [?|?|] evs He; (eapply cleaned_grow; [exact He| |exact Hc]); done).
Qed.
End staged.

(** A restore that used the staging project and has ended has sent the delete of the staged copy. *)
Theorem staged_copy_removed fuel JSON_parse transfer j p orc :
  (run orc (restoreHandler fuel JSON_parse transfer j p) []).1 ≠ Running →
  Exists (at_stage "restoring into staging") (run orc (restoreHandler fuel JSON_parse transfer j p) []).2 →
  Exists (deletes (staged_key j p)) (run orc (restoreHandler fuel JSON_parse transfer j p) []).2.
Proof.
  intros Hr Hs. destruct (wp_run _ _ orc [] (wp_restore_cleaned fuel JSON_parse transfer j p)) as [H|[H|H]]; [done| |done].
  exfalso. apply Exists_exists in Hs as (e & Hin & He). eapply Forall_forall in H; [|done]. by apply H.
Qed.

(** *** Examples *)

Definition demo_restore : RestorePayload :=
  {| re_backupId := "00000000"; re_targetClusterId := "B"; re_targetProject := "acme"; re_targetName := "web"; re_pool := Some "fast"; re_start := true |}.

(** The project is restricted; what was imported is there to be read, and nothing else is. *)
Definition restore_world (X : Type) (c : call X) (tr : list ev) : X :=
  match c in call X return X with
  | Db q =>
      match q in query X return fault + X with
      | BackupById _ => inr (Some (demo_backup "00000000" "new.tar.gz" 2))
      | RefreshInventory _ => inr tt
      | _ => inl (Error "unavailable")
      end
  | Store t o => match o in store_op X return fault + X with SGet _ => inr tt | _ => inl (Error "unavailable") end
  | Upload _ _ _ _ => inr {| rs_async := false; rs_operation := None; rs_id := "x"; rs_secrets := None |}
  | Get d c p =>
      match d in doc X return fault + X with
      | DInstance => if bool_decide (p = instancePath "acme" "web" EmptyString) then inl (ClusterError 404 "not found")
                     else inr (demo_instance "Stopped" ∅)
      | DServer => inr demo_server
      | DProject => inr {["restricted" := "true"]}
      | DMembers => inr []
      | DNames => inr (if ends_with "storage-pools" p then ["/1.0/storage-pools/fast"]
                       else if starts_with "/1.0/profiles" p then ["/1.0/profiles/default"] else [])
      | DDevices => inr [("root", demo_root)]
      | DStatus => inr (status_is "Success")
      | _ => inl (Error "unavailable")
      end
  | c => demo_world None (λ _, false) _ c tr
  end.
Definition restore_run := run restore_world (restoreHandler 3 (λ _, None) (transfer 3) demo_job demo_restore) [].

Example demo_restored : restore_run.1 = Returned ("B", "acme", "web")
  ∧ omap sent restore_run.2 = ["POST B"; "POST B"; "DELETE B"; "PUT B start"].
Proof. vm_compute. by split. Qed.

Lemma restore_never_overwrites_witness : guarded (may_restore demo_job demo_restore) restore_run.2.
Proof. apply (restore_never_overwrites 3 (λ _, None) (transfer 3) demo_job demo_restore restore_world). Defined.

Lemma staged_copy_removed_witness : Exists (deletes (staged_key demo_job demo_restore)) restore_run.2.
Proof.
  apply (staged_copy_removed 3 (λ _, None) (transfer 3) demo_job demo_restore restore_world).
  - assert (restore_run.1 = Returned ("B", "acme", "web")) as Hr by (vm_compute; reflexivity). unfold restore_run in Hr. rewrite Hr. discriminate.
  - apply (Exists_some _ (at_stage_b "restoring into staging")); [apply at_stage_b_spec|vm_compute; reflexivity].
Defined.
