(* ===== verification/Rebalance.v ===== *)
(** * Rebalance: the jobs that carry a plan out

    Models [balancing/jobs.ts]: the reads of an inventory pass as the calls
    they are ([fleet/collect.ts]), a plan from a fresh read, the moves one at a
    time, each after another look at its instance, the jobs that evacuate and
    restore a member, and the scheduler. The percentage of progress is left
    out; the wait for a move has fuel. *)

From S2P Require Import Balancing.
From S2P Require Import Jobs.
From S2P Require Import Prelude JsString Effects Fleet BalancingModel Uri Projects Preflight Leases Program Services Transfer Mobility Backups.

(** ** The inventory, call by call *)

Section collect.
Context (c : string).

Definition maybe {X} (d : doc X) (path : string) : P (option X) :=
  or_empty None (x ← attempt (Get d c path); Ret (Some x)).

Definition member_state_path (name : string) : string := "/1.0/cluster/members/" +++ encodeURIComponent name +++ "/state".

Definition read_member (poolList : list IncusPool) (m : IncusMember) : P (MemberSnapshot * list PoolSnapshot) :=
  res ← maybe DResources ("/1.0/resources?target=" +++ encodeURIComponent (ic_server_name m));
  state ← maybe DMemberState (member_state_path (ic_server_name m));
  Ret (memberOf (ic_server_name m) (default EmptyString (ic_url m)) (ic_status m) (default [] (ic_roles m)) (default [] (ic_groups m))
         (default EmptyString (ic_architecture m)) res state,
       poolsOf poolList (ic_server_name m) state).

Definition read_pool (name : string) (p : IncusPool) : P PoolSnapshot :=
  r ← maybe DPoolSpace ("/1.0/storage-pools/" +++ encodeURIComponent (ip_name p) +++ "/resources");
  Ret {| ps_member := name; ps_name := ip_name p; ps_driver := ip_driver p; ps_status := ip_status p;
         ps_spaceTotal := r ≫= fst; ps_spaceUsed := r ≫= snd |}.

Definition read_instances : P (list IncusInstance) :=
  try_catch (attempt (Get DInstances c "/1.0/instances?recursion=2&all-projects=true"))
    (λ e, raise 502 "cluster_error" ("Reading instances: " +++ exn_message e)).

Definition read_members (poolList : list IncusPool) (server : bool * string) : P (list MemberSnapshot * list PoolSnapshot) :=
  if server.1 then
    listed ← maybe DMemberList "/1.0/cluster/members?recursion=1";
    read ← mapM (read_member poolList) (default [] listed);
    Ret (read.*1, mjoin (read.*2))
  else
    res ← maybe DResources "/1.0/resources";
    pools ← mapM (read_pool server.2) poolList;
    Ret ([memberOf server.2 EmptyString "Online" [] ["default"] EmptyString res None], pools).

Definition collect : P Snapshot :=
  server ← attempt (Get DCluster c "/1.0");
  raw ← read_instances;
  poolList ← maybe DPools "/1.0/storage-pools?recursion=1";
  networks ← maybe DNetworks "/1.0/networks?recursion=1&all-projects=true";
  read ← read_members (default [] poolList) server;
  Ret {| s_clustered := server.1; s_members := read.1; s_instances := instanceOf <$> raw;
         s_pools := read.2; s_networks := networkOf <$> js_filter in_managed (default [] networks) |}.
End collect.

(** ** A plan from a fresh read *)

Definition policyOf (c : string) : P BalancingModel.Policy :=
  found ← attempt (Db (BalancingPolicyOf c));
  Ret (default DEFAULT_POLICY found).

(** [new Map(rates.filter(…).map(…))] *)
Definition rates_of (rows : list (string * string * option Qcanon.Qc)) : gmap string Qcanon.Qc :=
  foldl (λ m r, match r.2 with Some q => <[r.1.1 +++ "/" +++ r.1.2 := q]> m | None => m end) ∅ rows.

Definition needs_restart (p : BalancingModel.Policy) (i : InstanceSnapshot) : bool :=
  bool_decide (is_status i = "Running") && negb (is_stateful i) && negb (p_allowRestart p)
  && negb (includes (p_excludeProjects p) (is_project i)).

(** The notes of a plan, and how many running instances could only move with a restart. *)
Inductive PlanNote :=
  | PlanSays (n : Note)
  | RestartOnly (instances : nat).
Record Planned := { pl_plan : Balancing.Plan; pl_notes : list PlanNote; pl_snapshot : Snapshot }.

Section jobs.
Context `{!Locale} (fuel : nat).

Definition planCluster (c : string) (policy : BalancingModel.Policy) : P Planned :=
  snap ← collect c;
  if negb (s_clustered snap) then
    raise 409 "not_a_cluster" "This is a standalone server, not a cluster: there is nothing to balance between"
  else
    rates ← attempt (Db (CpuRates c));
    match Balancing.plan (input_of snap policy (rates_of rates)) with
    | None => Spin
    | Some r =>
        let restartOnly := length (js_filter (needs_restart policy) (s_instances snap)) in
        Ret {| pl_plan := r;
               pl_notes := (PlanSays <$> notes r) ++ (if (restartOnly =? 0)%nat then [] else [RestartOnly restartOnly]);
               pl_snapshot := snap |}
    end.

(** ** One move *)

Inductive MoveEnd := Moved | Skipped (detail : string) | NotMoved (detail : string).

Definition move_path (mv : Balancing.Move) : string :=
  instancePath (mv_project mv) (mv_name mv) EmptyString +++ "&target=" +++ encodeURIComponent (mv_to mv).

(** A move is not cancelled half way. *)
Definition never : P (option fault) := Ret None.

Section move.
Context (c : string) (mv : Balancing.Move).
Abbreviation here := (instancePath (mv_project mv) (mv_name mv) EmptyString).

Definition live_now (now : Now) : bool :=
  bool_decide (nw_status now = "Running") && bool_decide (nw_type now = "virtual-machine")
  && bool_decide (nw_expanded now !! "migration.stateful" = Some "true").
Definition restart_now (now : Now) : bool := bool_decide (nw_status now = "Running") && negb (live_now now).

Definition start_again (now : Now) : P unit :=
  if restart_now now then quietly (setState c (mv_project mv) (mv_name mv) Start) else Ret tt.

Definition move_over (now : Now) : P unit :=
  _ ← (if restart_now now then setState c (mv_project mv) (mv_name mv) Stop else Ret tt);
  r ← attempt (Request c "POST" (move_path mv) (MoveBody (mv_name mv) true (live_now now)));
  match rs_operation r with
  | Some op => if rs_async r && truthy_str op then waitOp never fuel c op else Ret tt
  | None => Ret tt
  end.

(** Why the instance is left where it is. *)
Definition changed_since (now : Now) (wasRunning allowRestart : bool) : option string :=
  let running := bool_decide (nw_status now = "Running") in
  if negb (bool_decide (nw_location now = mv_from mv)) then Some ("now on " +++ nw_location now)
  else if negb (eqb running wasRunning)
          || negb (bool_decide (nw_status now = "Running")) && negb (bool_decide (nw_status now = "Stopped"))
       then Some (toLowerCase (nw_status now) +++ " since planned")
  else if running && negb (live_now now) && negb allowRestart then Some "would need a restart"
  else None.

Definition moveOne (wasRunning allowRestart : bool) : P MoveEnd :=
  now ← attempt (Get DNow c here);
  match changed_since now wasRunning allowRestart with
  | Some why => Ret (Skipped why)
  | None =>
      failed ← try_catch (_ ← move_over now; Ret None) (λ e, Ret (Some (exn_message e)));
      match failed with
      | Some m => _ ← start_again now; Ret (NotMoved m)
      | None =>
          _ ← start_again now;
          after_ ← attempt (Get DNow c here);
          if negb (bool_decide (nw_location after_ = mv_to mv)) then Ret (NotMoved ("still on " +++ nw_location after_))
          else Ret Moved
      end
  end.
End move.

(** ** The rebalance job *)

Record RebalanceResult := {
  rr_before : Qcanon.Qc; rr_after : Qcanon.Qc; rr_moves : list (Balancing.Move * MoveEnd); rr_notes : list PlanNote;
}.

Definition running_of (snap : Snapshot) : gmap string bool :=
  foldl (λ m i, <[rate_key i := bool_decide (is_status i = "Running")]> m) ∅ (s_instances snap).

Definition arrow : string := " → ".
Definition move_text (mv : Balancing.Move) : string := mv_project mv +++ "/" +++ mv_name mv +++ arrow +++ mv_to mv.

Definition failures (ms : list (Balancing.Move * MoveEnd)) : list (string * string) :=
  omap (λ m, match m.2 with NotMoved d => Some (mv_name m.1, d) | _ => None end) ms.
Definition moves_failed (ms : list (Balancing.Move * MoveEnd)) : string :=
  match failures ms with
  | [] => EmptyString
  | f => str_take 1000 (show_Z (Z.of_nat (length f)) +++ " of " +++ show_Z (Z.of_nat (length ms)) +++ " moves failed: "
           +++ join "; " ((λ x, x.1 +++ ": " +++ x.2) <$> f))
  end.

Fixpoint carry_out (c : string) (running : gmap string bool) (allowRestart : bool) (ms : list Balancing.Move)
    (done_ : list (Balancing.Move * MoveEnd)) : P (list (Balancing.Move * MoveEnd)) :=
  match ms with
  | [] => Ret done_
  | mv :: ms =>
      _ ← stop_if_aborted;
      _ ← attempt (Progress "moving" (Some (move_text mv)));
      o ← moveOne c mv (default false (running !! BalancingMoves.mv_key mv)) allowRestart;
      carry_out c running allowRestart ms (done_ ++ [(mv, o)])
  end.

Definition rebalance_block (jobId c : string) : P RebalanceResult :=
  _ ← clientFor c;
  policy ← policyOf c;
  _ ← progress "planning";
  pl ← planCluster c policy;
  ms ← carry_out c (running_of (pl_snapshot pl)) (p_allowRestart policy) (moves (pl_plan pl)) [];
  _ ← match ms with [] => Ret tt | _ => refreshInventory [c] end;
  _ ← attempt (Db (SetBalancing c (BalanceEnded jobId (moves_failed ms))));
  Ret {| rr_before := before (pl_plan pl); rr_after := after (pl_plan pl); rr_moves := ms; rr_notes := pl_notes pl |}.

Definition rebalanceHandler (jobId c : string) : P RebalanceResult :=
  try_catch (rebalance_block jobId c) (λ e,
    aborted ← ask Aborted;
    _ ← match aborted with
        | None => attempt (Db (SetBalancing c (BalanceFailed jobId (str_take 1000 (exn_message e)))))
        | Some _ => Ret tt
        end;
    Raise e).

(** ** Evacuating and restoring a member *)

Inductive MemberAction := Evacuate | Restore.

(** [mode]: of an evacuation, when it is given. *)
Definition memberState (c member : string) (action : MemberAction) (mode : option string) : P unit :=
  _ ← clientFor c;
  _ ← attempt (Progress match action with Evacuate => "evacuating" | Restore => "restoring" end (Some member));
  r ← attempt (Request c "POST" (member_state_path member)
        match action with
        | Evacuate => MemberBody "evacuate" (if truthy_opt_str mode then mode else None)
        | Restore => MemberBody "restore" None
        end);
  _ ← match rs_operation r with
      | Some op => if rs_async r && truthy_str op then waitOp (ask Aborted) fuel c op else Ret tt
      | None => Ret tt
      end;
  refreshInventory [c].
End jobs.

(** ** Scheduling *)

Definition rebalance_job (c : string) : Jobs.NewJob :=
  {| Jobs.n_type := "rebalance"; Jobs.n_payload := [("clusterId", JStr c)]; Jobs.n_actorType := "system";
     Jobs.n_actorId := "balancing"; Jobs.n_tenantId := None; Jobs.n_clusterIds := [c];
     Jobs.n_instanceKey := Some ("rebalance:" +++ c) |}.

Definition schedule_rebalance (c : string) : P unit :=
  try_catch
    (job ← attempt (Db (Enqueue (rebalance_job c)));
     attempt (Db (SetBalancing c (BalanceQueued job))))
    (λ e, if bool_decide (exn_status e = Some 409%Z) then Ret tt else Raise e).

Definition scheduleBalancing : P unit :=
  due ← attempt (Db DueBalancing);
  each schedule_rebalance due.
