(* ===== verification/RebalanceTheory.v ===== *)
(** * RebalanceTheory: a rebalance keeps to its policy

    What every run of [Rebalance.rebalanceHandler] does, whatever the cluster
    and the database answer: a move is asked for only of an instance that the
    policy lets the engine take, right where and as it was planned; what it
    stops it starts again; and the policy's row tells how the run ended. *)

From S2P Require Import Balancing.
From S2P Require Import Jobs.
From S2P Require Import Prelude JsString Effects Fleet BalancingModel Uri Projects Preflight Leases Program Services Transfer Mobility MobilityTheory Replication Backups Rebalance.

(** ** The calls of a rebalance *)

(** Anything but a request to move an instance. *)
Definition still (e : ev) : Prop := match e with Ev (Request _ _ _ (MoveBody _ _ _)) _ => False | _ => True end.

Lemma still_get e : is_get e → still e.
Proof. destruct e as [X c x]. by destruct c. Qed.
Lemma setState_still c pr n a : emits still (setState c pr n a).
Proof.
  eapply emits_mono, setState_emits. intros e [He|He]; [by apply still_get|].
  destruct e as [X c' x]. destruct c'; simpl in *; try done. by destruct He as (_ & _ & _ & ->).
Qed.
Lemma waitOp_still sig n c op : emits still sig → emits still (waitOp sig n c op).
Proof. intros Hs. induction n as [|n IH]; [exact I|]. cbn [waitOp]. emits_all; first [exact I|exact IH|exact Hs]. Qed.

(** An inventory pass only reads. *)
Lemma maybe_emits c {X} (d : doc X) path : emits is_get (maybe c d path).
Proof. unfold maybe, or_empty. emits_all; exact I. Qed.
Lemma collect_emits c : emits is_get (collect c).
Proof.
  unfold collect, read_instances, read_members. emits_all;
    first [exact I|apply maybe_emits|apply emits_mapM; intros y; unfold read_member, read_pool; emits_all; apply maybe_emits].
Qed.

Section rebalance.
Context `{!Locale} (fuel : nat) (jobId c : string).

Definition read_instances_as (raw : list IncusInstance) (e : ev) : Prop :=
  match e with Ev (Get DInstances c' _) (inr l) => c' = c ∧ l = raw | _ => False end.
Definition read_policy_as (p : BalancingModel.Policy) (e : ev) : Prop :=
  match e with Ev (Db (BalancingPolicyOf c')) (inr found) => c' = c ∧ default DEFAULT_POLICY found = p | _ => False end.
(** The instance is read where the move takes it from, as it is. *)
Definition looks (mv : Balancing.Move) (now : Now) (e : ev) : Prop :=
  match e with
  | Ev (Get DNow c' path) (inr now') => c' = c ∧ path = instancePath (mv_project mv) (mv_name mv) EmptyString ∧ now' = now
  | _ => False
  end.

(** What the inventory and the policy read so far say of a move. *)
Definition planned (pre : list ev) (mv : Balancing.Move) (wasRunning allowRestart : bool) : Prop :=
  ∃ raw p, Exists (read_instances_as raw) pre ∧ Exists (read_policy_as p) pre ∧ allowRestart = p_allowRestart p ∧
    (NoDup (rate_key <$> (instanceOf <$> raw)) →
    ∃ i, i ∈ instanceOf <$> raw ∧ is_project i = mv_project mv ∧ is_name i = mv_name mv ∧ is_location i = mv_from mv
      ∧ (is_project i ∉ p_excludeProjects p)
      ∧ (is_status i = "Stopped" ∨ is_status i = "Running" ∧ (is_stateful i = true ∨ p_allowRestart p = true))
      ∧ wasRunning = bool_decide (is_status i = "Running")).

(** A request to move: the policy lets the engine take the instance, and a look at it found it
    where and as it was planned; it moves live if it is a VM that runs and can, and it is stopped
    for it only if the policy allows that. *)
Definition may_move (pre : list ev) (e : ev) : Prop :=
  match e with
  | Ev (Request c' m path (MoveBody n mig live)) _ =>
      c' = c ∧ m = "POST" ∧ mig = true ∧
      ∃ mv now wasRunning allowRestart,
        path = move_path mv ∧ n = mv_name mv ∧ planned pre mv wasRunning allowRestart ∧ Exists (looks mv now) pre
        ∧ nw_location now = mv_from mv
        ∧ nw_status now = (if wasRunning : bool then "Running" else "Stopped")
        ∧ live = live_now now ∧ (restart_now now = true → allowRestart = true)
  | _ => True
  end.

Lemma still_may e k : still e → may_move k e.
Proof. destruct e as [X c' x]. destruct c'; try done. by destruct b. Qed.

Lemma wp_still {A} (q : P A) (Q : outcome exn A → list ev → Prop) tr :
  guarded may_move tr → emits still q → (∀ r evs, Forall still evs → guarded may_move (tr ++ evs) → Q r (tr ++ evs)) → wp q Q tr.
Proof. intros Ht Hq HQ. apply (wp_guarded may_move still); [done..|intros e k; apply still_may|exact HQ]. Qed.

Lemma planned_app pre k mv w a : planned pre mv w a → planned (pre ++ k) mv w a.
Proof. intros (raw & p & H1 & H2 & Hi). exists raw, p. split; [|split; [|done]]; apply Exists_app; by left. Qed.

(** [changed_since] lets a move through only as it was planned. *)
Lemma changed_since_none mv now w a :
  changed_since mv now w a = None →
  nw_location now = mv_from mv ∧ nw_status now = (if w then "Running" else "Stopped") ∧ (restart_now now = true → a = true).
Proof.
  unfold changed_since, restart_now. destruct (bool_decide_reflect (nw_location now = mv_from mv)) as [Hl|]; [|done]. cbn [negb].
  destruct (bool_decide_reflect (nw_status now = "Running")) as [Hr|Hr], w; cbn [eqb negb andb orb]; try done.
  - destruct (live_now now), a; cbn [negb andb]; try done; intros _; repeat split; done.
  - destruct (bool_decide_reflect (nw_status now = "Stopped")); cbn [negb]; [|done]. by intros _.
Qed.

Lemma start_again_still mv now : emits still (start_again c mv now).
Proof. unfold start_again. emits_all. apply setState_still. Qed.

Lemma wp_move_over mv now w a tr :
  guarded may_move tr → planned tr mv w a → Exists (looks mv now) tr → changed_since mv now w a = None →
  wp (move_over fuel c mv now) (λ _, guarded may_move) tr.
Proof.
  intros Hg Hp Hl Hc. destruct (changed_since_none _ _ _ _ Hc) as (Hloc & Hst & Hr).
  apply wp_bind, wp_still; [done|destruct (restart_now now); [apply setState_still|exact I]|].
  intros [u|e|] evs _ Hg1; [|done..].
  assert (∀ x, guarded may_move ((tr ++ evs) ++ [Ev (Request c "POST" (move_path mv) (MoveBody (mv_name mv) true (live_now now))) x])) as Hm.
  { intros x. apply guarded_snoc; [done|]. repeat (split; [done|]). exists mv, now, w, a.
    repeat (split; [done|]). split; [by apply planned_app|]. split; [apply Exists_app; by left|]. tauto. }
  apply wp_bind, wp_attempt; [intros f; apply Hm|]. intros r.
  apply wp_still; [apply Hm| |by auto].
  destruct (rs_operation r); [|exact I]. destruct (_ && _); [|exact I]. by apply waitOp_still.
Qed.

Lemma wp_moveOne mv w a tr :
  guarded may_move tr → planned tr mv w a → wp (moveOne fuel c mv w a) (λ _, guarded may_move) tr.
Proof.
  intros Hg Hp. unfold moveOne. apply wp_bind, wp_attempt; [intros f; by apply guarded_snoc|]. intros now.
  set (tr1 := tr ++ _). assert (guarded may_move tr1) as Hg1 by (by apply guarded_snoc).
  assert (Exists (looks mv now) tr1) as Hl by (apply Exists_app; right; by left).
  assert (planned tr1 mv w a) as Hp1 by (by apply planned_app). clearbody tr1.
  destruct (changed_since mv now w a) eqn:Hc; [done|].
  apply wp_bind, wp_try, wp_bind, (wp_mono _ _ _ _ (wp_move_over _ _ _ _ _ Hg1 Hp1 Hl Hc)).
  intros [u|e|] tr2 Hg2; [| |done]; cbn [wp]; apply wp_bind, wp_still; try done; try apply start_again_still.
  - intros [u'|e|] evs _ Hg3; [|done..]. apply wp_bind, wp_attempt; [intros f; by apply guarded_snoc|].
    intros now'. destruct (negb _); by apply guarded_snoc.
  - intros [u'|e'|] evs _ Hg3; done.
Qed.

Lemma wp_carry_out running a ms done_ tr :
  guarded may_move tr → (∀ mv, mv ∈ ms → planned tr mv (default false (running !! BalancingMoves.mv_key mv)) a) →
  wp (carry_out fuel c running a ms done_) (λ _, guarded may_move) tr.
Proof.
  revert done_ tr. induction ms as [|mv ms IH]; intros done_ tr Hg Hp; [done|]. cbn [carry_out].
  apply wp_bind, wp_stop_if_aborted; [intros f; by apply guarded_snoc|].
  apply wp_bind, wp_attempt; [intros f; by do 2 (apply guarded_snoc; [|done])|]. intros u.
  set (tr1 := _ ++ [_]). assert (guarded may_move tr1) as Hg1 by (by do 2 (apply guarded_snoc; [|done])).
  assert (∀ mv', mv' ∈ mv :: ms → planned tr1 mv' (default false (running !! BalancingMoves.mv_key mv')) a) as Hp1.
  { intros mv' Hin. unfold tr1. do 2 apply planned_app. by apply Hp. }
  clearbody tr1. apply wp_bind. eapply wp_mono.
  { apply wp_extends, wp_moveOne; [done|]. apply Hp1. by left. }
  intros [o|e|] tr2 [Hg2 [evs ->]]; [|done..]. apply IH; [done|]. intros mv' Hin. apply planned_app, Hp1. by right.
Qed.

(** *** The plan *)

Lemma wp_maybe {X} (d : doc X) path (Q : outcome exn (option X) → list ev → Prop) tr :
  (∀ o evs, Forall is_get evs → Q (Returned o) (tr ++ evs)) → wp (maybe c d path) Q tr.
Proof.
  intros HQ. apply wp_try, wp_bind, wp_attempt; intros x; cbn [wp]; apply (HQ _ [_]); by repeat constructor.
Qed.

Lemma wp_collect tr :
  wp (collect c) (λ r tr', ∀ s, r = Returned s →
    ∃ raw, Exists (read_instances_as raw) tr' ∧ s_instances s = instanceOf <$> raw) tr.
Proof.
  unfold collect. apply wp_bind, wp_attempt; [done|]. intros server.
  apply wp_bind, wp_try, wp_attempt; [done|]. intros raw. set (tr1 := _ ++ [_]).
  assert (Exists (read_instances_as raw) tr1) as H1 by (apply Exists_app; right; by left). clearbody tr1.
  do 2 (apply wp_bind, (wp_emits_weaken (λ _, True)); [apply emits_any|]; intros [?|?|] ? _; [|done..]).
  apply wp_bind, (wp_emits_weaken (λ _, True)); [apply emits_any|]; intros [read|?|] ? _; [|done..].
  intros s [= <-]. exists raw. split; [|done]. rewrite <-!(assoc_L (++)). apply Exists_app. by left.
Qed.

Lemma running_of_spec snap i : NoDup (rate_key <$> s_instances snap) → i ∈ s_instances snap →
  running_of snap !! rate_key i = Some (bool_decide (is_status i = "Running")).
Proof.
  unfold running_of. generalize (s_instances snap) as l. clear. intros l. induction l as [|x l IH] using rev_ind; [by intros _ ?%elem_of_nil|].
  rewrite foldl_snoc, fmap_app, NoDup_app. intros (Hnd & Hx & _) [Hi|Hi%list_elem_of_singleton]%elem_of_app.
  - rewrite lookup_insert_ne; [by apply IH|]. intros Heq. apply (Hx (rate_key i)); [by apply list_elem_of_fmap_2|].
    simpl. rewrite Heq. by left.
  - subst. apply lookup_insert_eq.
Qed.

(** The moves of a plan are planned. *)
Definition planned_all (p : BalancingModel.Policy) (pl : Planned) (tr : list ev) : Prop :=
  ∀ mv, mv ∈ moves (pl_plan pl) →
    planned tr mv (default false (running_of (pl_snapshot pl) !! BalancingMoves.mv_key mv)) (p_allowRestart p).

Definition bounded_plan (p : BalancingModel.Policy) (pl : Planned) (tr : list ev) : Prop :=
  ∃ raw, Exists (read_instances_as raw) tr ∧
    (NoDup (rate_key <$> (instanceOf <$> raw)) → (Z.of_nat (length (moves (pl_plan pl))) ≤ Z.max 0 (p_maxMoves p))%Z).

Lemma wp_planCluster p tr : Exists (read_policy_as p) tr →
  wp (planCluster c p) (λ r tr', ∀ pl, r = Returned pl → planned_all p pl tr' ∧ bounded_plan p pl tr') tr.
Proof.
  intros Hp. unfold planCluster. apply wp_bind. eapply wp_mono; [apply wp_extends, wp_collect|].
  intros [snap|e|] tr1 [Hs [evs ->]]; [|done..]. destruct (Hs snap eq_refl) as (raw & Hraw & Hi). clear Hs.
  destruct (negb _); [done|]. apply wp_bind, wp_attempt; [done|]. intros rates.
  destruct (Balancing.plan _) as [r|] eqn:Hplan; [|done]. intros pl [= <-]. cbn [pl_plan pl_snapshot].
  assert (Exists (read_instances_as raw) ((tr ++ evs) ++ [Ev (Db (CpuRates c)) (inr rates)])) as Hraw' by (apply Exists_app; by left).
  assert (∀ (Hnd : NoDup (rate_key <$> (instanceOf <$> raw))),
    (∀ mv, mv ∈ moves r → move_allowed snap p mv) ∧ (Z.of_nat (length (moves r)) ≤ Z.max 0 (p_maxMoves p))%Z) as Hall.
  { rewrite <-Hi. intros Hnd. destruct (planned_moves snap p (rates_of rates) Hnd) as (r' & Heq & Hm & _ & Hlen). naive_solver. }
  split; [|exists raw; split; [done|apply Hall]].
  intros mv Hmv. exists raw, p. split; [done|]. split; [rewrite <-(assoc_L (++)); apply Exists_app; by left|]. split; [done|].
  intros Hnd. destruct (proj1 (Hall Hnd) mv Hmv) as (i & m & Hin & Hpr & Hn & Hloc & Hex & Hst & _).
  rewrite Hi in Hin. exists i. repeat (split; [done|]).
  assert (BalancingMoves.mv_key mv = rate_key i) as -> by (unfold BalancingMoves.mv_key, rate_key; congruence).
  cbn [pl_snapshot]. rewrite (running_of_spec snap i); [done|rewrite Hi; exact Hnd|rewrite Hi; exact Hin].
Qed.

Lemma wp_policyOf tr : wp (policyOf c) (λ r tr', ∀ p, r = Returned p → Exists (read_policy_as p) tr') tr.
Proof.
  apply wp_bind, wp_attempt; [done|]. intros found p [= <-]. apply Exists_app. right. by left.
Qed.

Lemma clientFor_still : emits still (clientFor c).
Proof. unfold clientFor. emits_all. exact I. Qed.
Lemma policyOf_still : emits still (policyOf c).
Proof. unfold policyOf. emits_all. exact I. Qed.
Lemma planCluster_still p : emits still (planCluster c p).
Proof. unfold planCluster. emits_all; first [exact I|eapply emits_mono, collect_emits; apply still_get]. Qed.

Definition carried (p : BalancingModel.Policy) (pl : Planned) : P RebalanceResult :=
  ms ← carry_out fuel c (running_of (pl_snapshot pl)) (p_allowRestart p) (moves (pl_plan pl)) [];
  _ ← match ms with [] => Ret tt | _ => refreshInventory [c] end;
  _ ← attempt (Db (SetBalancing c (BalanceEnded jobId (moves_failed ms))));
  Ret {| rr_before := before (pl_plan pl); rr_after := after (pl_plan pl); rr_moves := ms; rr_notes := pl_notes pl |}.

(** A run plans, asking for no move, and then carries the plan out. *)
Lemma wp_block_plan (Q : outcome exn RebalanceResult → list ev → Prop) :
  (∀ tr r, Forall still tr → (∀ x, r ≠ Returned x) → Q r tr) →
  (∀ tr p pl, Forall still tr → Exists (read_policy_as p) tr → planned_all p pl tr → bounded_plan p pl tr → wp (carried p pl) Q tr) →
  wp (rebalance_block fuel jobId c) Q [].
Proof.
  intros Hend Hgo. unfold rebalance_block.
  apply wp_bind, (wp_emits_weaken still); [apply clientFor_still|]. intros [u|e|] e1 F1; [|by apply Hend..].
  apply wp_bind. eapply wp_mono; [exact (wp_and _ _ _ _ (wp_policyOf _) (wp_emits _ _ ([] ++ e1) policyOf_still))|].
  intros [p|e|] tr2 [Hp (e2 & -> & F2)]; [|apply Hend; [by apply Forall_app|done]..].
  specialize (Hp p eq_refl). assert (Forall still (([] ++ e1) ++ e2)) as F12 by (by apply Forall_app).
  generalize dependent (([] ++ e1) ++ e2). intros tr Hp F. clear e1 e2 F1 F2.
  apply wp_bind, wp_attempt; [intros f|intros v]; [apply Hend; [|done]; apply Forall_app; by repeat constructor|].
  assert (Forall still (tr ++ [Ev (Progress "planning" None) (inr v)])) as F' by (apply Forall_app; by repeat constructor).
  assert (Exists (read_policy_as p) (tr ++ [Ev (Progress "planning" None) (inr v)])) as Hp' by (apply Exists_app; by left).
  generalize dependent (tr ++ [Ev (Progress "planning" None) (inr v)]). clear tr Hp F. intros tr F Hp.
  apply wp_bind. eapply wp_mono; [exact (wp_and _ _ _ _ (wp_planCluster p tr Hp) (wp_emits _ _ tr (planCluster_still p)))|].
  intros [pl|e|] tr3 [Hpl (e3 & -> & F3)]; [|apply Hend; [by apply Forall_app|done]..].
  destruct (Hpl pl eq_refl). apply Hgo; [by apply Forall_app|apply Exists_app; by left|done..].
Qed.

Lemma still_guarded tr : Forall still tr → guarded may_move tr.
Proof. intros F. apply (guarded_app may_move []); [apply guarded_nil|]. eapply Forall_impl; [exact F|]. intros e He k. by apply still_may. Qed.

Lemma wp_block_guarded : wp (rebalance_block fuel jobId c) (λ _, guarded may_move) [].
Proof.
  apply wp_block_plan; [intros tr r F _; by apply still_guarded|]. intros tr p pl F _ Hpl _. unfold carried.
  apply wp_bind. eapply wp_mono; [apply wp_carry_out; [by apply still_guarded|exact Hpl]|].
  intros [ms|e|] tr' Hg; [|done..]. apply (wp_still _ (λ _, guarded may_move)); [done| |done].
  unfold refreshInventory. emits_all; exact I.
Qed.

Definition recording (jobId : string) (e : exn) : P RebalanceResult :=
  aborted ← ask Aborted;
  _ ← match aborted with
      | None => attempt (Db (SetBalancing c (BalanceFailed jobId (str_take 1000 (exn_message e)))))
      | Some _ => Ret tt
      end;
  Raise e.

Lemma recording_still e : emits still (recording jobId e).
Proof. unfold recording. emits_all; exact I. Qed.

Lemma wp_rebalance_guarded : wp (rebalanceHandler fuel jobId c) (λ _, guarded may_move) [].
Proof.
  apply wp_try, (wp_mono _ _ _ _ wp_block_guarded). intros [x|e|] tr Hg; [done| |done].
  apply (wp_still (recording jobId e) (λ _, guarded may_move)); [done|apply recording_still|done].
Qed.

(** *** What is stopped is started again *)

(** The instances stopped and not started since. *)
Definition down_step (down : gset string) (e : ev) : gset string :=
  match e with
  | Ev (Request _ _ path (StateBody act _)) _ => if bool_decide (act = "stop") then {[path]} ∪ down else down ∖ {[path]}
  | _ => down
  end.
Definition left_down (tr : list ev) : gset string := foldl down_step ∅ tr.

Definition neutral (e : ev) : Prop := match e with Ev (Request _ _ _ (StateBody _ _)) _ => False | _ => True end.
Lemma neutral_step down e : neutral e → down_step down e = down.
Proof. destruct e as [X c' x]. destruct c'; try done. by destruct b. Qed.
Lemma neutral_get e : is_get e → neutral e.
Proof. destruct e as [X c' x]. by destruct c'. Qed.
Lemma left_down_neutral tr evs : Forall neutral evs → left_down (tr ++ evs) = left_down tr.
Proof.
  intros F. unfold left_down. rewrite foldl_app. generalize (foldl down_step ∅ tr) as d.
  induction F as [|e evs He _ IH]; intros d; [done|]. simpl. by rewrite neutral_step.
Qed.
Lemma waitOp_neutral sig n c' op : emits neutral sig → emits neutral (waitOp sig n c' op).
Proof. intros Hs. induction n as [|n IH]; [exact I|]. cbn [waitOp]. emits_all; first [exact I|exact IH|exact Hs]. Qed.
Lemma wp_neutral {A} (q : P A) (Q : outcome exn A → list ev → Prop) tr :
  emits neutral q → (∀ r evs, left_down (tr ++ evs) = left_down tr → Q r (tr ++ evs)) → wp q Q tr.
Proof. intros Hq HQ. apply (wp_emits_weaken neutral); [done|]. intros r evs F. by apply HQ, left_down_neutral. Qed.

Abbreviation state_path mv := (instancePath (mv_project mv) (mv_name mv) "/state").

(** Requests on one instance, with the same wish. *)
Lemma down_same m path act force evs d :
  Forall (λ e, is_get e ∨ sends c m path (StateBody act force) e) evs →
  foldl down_step d evs ⊆ (if bool_decide (act = "stop") then {[path]} ∪ d else d).
Proof.
  intros F. revert d. induction F as [|e evs He _ IH]; intros d; simpl; [case_bool_decide; set_solver|].
  etrans; [apply IH|]. destruct He as [He|He]; [by rewrite (neutral_step d e (neutral_get e He))|].
  destruct e as [X c' x]. destruct c'; try done. destruct He as (_ & _ & -> & ->). simpl. case_bool_decide; set_solver.
Qed.

Lemma wp_stopping mv tr : left_down tr = ∅ →
  wp (setState c (mv_project mv) (mv_name mv) Stop) (λ _ tr', left_down tr' ⊆ {[state_path mv]}) tr.
Proof.
  intros Hd. apply (wp_emits_weaken _ _ _ _ (setState_emits _ _ _ _)). intros r evs F.
  unfold left_down in *. rewrite foldl_app, Hd. pose proof (down_same _ _ _ _ _ ∅ F) as Hs.
  rewrite bool_decide_true in Hs by done. set_solver.
Qed.
Lemma wp_starting mv tr : left_down tr ⊆ {[state_path mv]} →
  wp (setState c (mv_project mv) (mv_name mv) Start) (λ _ tr', left_down tr' = ∅) tr.
Proof.
  intros Hd. eapply wp_mono; [exact (wp_and _ _ _ _ (wp_setState _ _ _ _ tr) (wp_emits _ _ tr (setState_emits _ _ _ _)))|].
  intros r tr' [(x & evs & ->) (evs' & Heq & F)]. apply app_inv_head in Heq as <-. inversion F as [|? ? _ F']; subst.
  unfold left_down in *. rewrite foldl_app. cbn [foldl].
  pose proof (down_same _ _ _ _ _ (down_step (foldl down_step ∅ tr) (Ev (Request c "PUT" (state_path mv) (StateBody (show_action Start) false)) x)) F') as Hs.
  rewrite bool_decide_false in Hs by done. simpl in *. set_solver.
Qed.

Definition settled {A : Type} (r : outcome exn A) (tr : list ev) : Prop := r ≠ Running → left_down tr = ∅.

(** What an instance may still be stopped for while it moves. *)
Definition held (mv : Balancing.Move) (now : Now) (tr : list ev) : Prop :=
  left_down tr ⊆ if restart_now now then {[state_path mv]} else ∅.

Lemma wp_start_again mv now tr : held mv now tr → wp (start_again c mv now) settled tr.
Proof.
  unfold held, start_again. intros Hd. destruct (restart_now now); [|intros _; set_solver].
  apply wp_quietly, (wp_mono _ _ _ _ (wp_starting _ _ Hd)). intros [u|e|] tr' H' Hr; done.
Qed.

Lemma wp_move_over_held mv now tr : left_down tr = ∅ → wp (move_over fuel c mv now) (λ _, held mv now) tr.
Proof.
  intros Hd. unfold move_over. apply wp_bind.
  assert (∀ tr', held mv now tr' → wp (r ← attempt (Request c "POST" (move_path mv) (MoveBody (mv_name mv) true (live_now now)));
    match rs_operation r with
    | Some op => if rs_async r && truthy_str op then waitOp never fuel c op else Ret tt
    | None => Ret tt
    end) (λ _, held mv now) tr') as Hrest.
  { intros tr' Hh. apply (wp_neutral _ (λ _, held mv now)); [emits_all; first [exact I|by apply waitOp_neutral]|].
    intros r evs Heq. unfold held. by rewrite Heq. }
  unfold held in *. destruct (restart_now now).
  - apply (wp_mono _ _ _ _ (wp_stopping _ _ Hd)). intros [u|e|] tr' Hh; [by apply Hrest|done..].
  - apply Hrest. set_solver.
Qed.

Lemma wp_moveOne_settled mv w a tr : left_down tr = ∅ → wp (moveOne fuel c mv w a) settled tr.
Proof.
  intros Hd. unfold moveOne.
  assert (∀ Q : outcome exn Now → list ev → Prop, (∀ r tr', left_down tr' = ∅ → Q r tr') → ∀ tr path, left_down tr = ∅ → wp (attempt (Get DNow c path)) Q tr) as Hget.
  { intros Q HQ tr0 path H0. apply wp_neutral; [emits_all; exact I|]. intros r evs Heq. apply HQ. by rewrite Heq. }
  apply wp_bind, Hget; [|done]. intros [now|e|] tr1 H1; [|by intros _..].
  destruct (changed_since mv now w a); [by intros _|].
  apply wp_bind, wp_try, wp_bind, (wp_mono _ _ _ _ (wp_move_over_held mv now tr1 H1)).
  intros [u|e|] tr2 Hh; [| |by intros []]; cbn [wp]; apply wp_bind, (wp_mono _ _ _ _ (wp_start_again _ _ _ Hh)); intros [u'|e'|] tr3 H3;
    try (by intros _; apply H3); try (by intros []).
  apply wp_bind, Hget; [|by apply H3]. intros [now'|e|] tr4 H4; [|by intros _..]. destruct (negb _); by intros _.
Qed.

(** A part that stops and starts nothing. *)
Lemma settled_bind {A B} (q : P A) (f : A → P B) tr :
  emits neutral q → left_down tr = ∅ → (∀ x tr', left_down tr' = ∅ → wp (f x) settled tr') → wp (q ≫= f) settled tr.
Proof.
  intros Hq Hd Hf. apply wp_bind, wp_neutral; [done|]. intros [x|e|] evs Heq; [apply Hf; by rewrite Heq|intros _; by rewrite Heq|by intros []].
Qed.

Lemma wp_carry_out_settled running a ms done_ tr :
  left_down tr = ∅ → wp (carry_out fuel c running a ms done_) settled tr.
Proof.
  revert done_ tr. induction ms as [|mv ms IH]; intros done_ tr Hd; [by intros _|]. cbn [carry_out].
  apply settled_bind; [unfold stop_if_aborted; emits_all; exact I|done|]. intros u tr1 H1.
  apply settled_bind; [emits_all; exact I|done|]. intros u' tr2 H2.
  apply wp_bind, (wp_mono _ _ _ _ (wp_moveOne_settled _ _ _ _ H2)). intros [o|e|] tr3 H3; [|by intros _; apply H3|by intros []].
  apply IH. by apply H3.
Qed.

Lemma wp_rebalance_block_settled : wp (rebalance_block fuel jobId c) settled [].
Proof.
  unfold rebalance_block.
  apply settled_bind; [unfold clientFor; emits_all; exact I|done|]. intros u tr1 H1.
  apply settled_bind; [unfold policyOf; emits_all; exact I|done|]. intros p tr2 H2.
  apply settled_bind; [unfold progress; emits_all; exact I|done|]. intros u' tr3 H3.
  apply settled_bind; [unfold planCluster; emits_all; first [exact I|eapply emits_mono, collect_emits; apply neutral_get]|done|].
  intros pl tr4 H4.
  apply wp_bind, (wp_mono _ _ _ _ (wp_carry_out_settled _ _ _ _ _ H4)). intros [ms|e|] tr5 H5; [|by intros _; apply H5|by intros []].
  apply settled_bind; [unfold refreshInventory; emits_all; exact I|by apply H5|]. intros v tr6 H6.
  apply settled_bind; [emits_all; exact I|done|]. intros v' tr7 H7. by intros _.
Qed.

Lemma wp_rebalance_settled : wp (rebalanceHandler fuel jobId c) settled [].
Proof.
  apply wp_try, (wp_mono _ _ _ _ wp_rebalance_block_settled). intros [x|e|] tr Hs; [done| |done].
  apply (wp_neutral (recording jobId e)); [unfold recording; emits_all; exact I|]. intros r evs Heq _. rewrite Heq. by apply Hs.
Qed.

(** *** No more moves than the policy takes *)

Definition asks_move (e : ev) : bool := match e with Ev (Request _ _ _ (MoveBody _ _ _)) _ => true | _ => false end.
Definition moves_in (tr : list ev) : nat := length (js_filter asks_move tr).

Lemma moves_in_app tr evs : moves_in (tr ++ evs) = (moves_in tr + moves_in evs)%nat.
Proof. unfold moves_in, js_filter. by rewrite List.filter_app, length_app. Qed.
Lemma moves_in_still evs : Forall still evs → moves_in evs = 0%nat.
Proof.
  induction 1 as [|e evs He _ IH]; [done|]. unfold moves_in in *. simpl. destruct (asks_move e) eqn:Ha; [|exact IH].
  destruct e as [X c' x]. destruct c'; try done. by destruct b.
Qed.

(** Programs that ask for [n] moves at most. *)
Definition at_most (n : nat) {A : Type} (q : P A) : Prop := ∀ tr, wp q (λ _ tr', (moves_in tr' ≤ moves_in tr + n)%nat) tr.

Lemma at_most_still {A} (q : P A) : emits still q → at_most 0 q.
Proof. intros Hq tr. apply (wp_emits_weaken still); [done|]. intros r evs F. rewrite moves_in_app, (moves_in_still evs F). lia. Qed.
Lemma at_most_bind n m {A B} (q : P A) (f : A → P B) : at_most n q → (∀ x, at_most m (f x)) → at_most (n + m) (q ≫= f).
Proof.
  intros Hq Hf tr. apply wp_bind, (wp_mono _ _ _ _ (Hq tr)). intros [x|e|] tr' Hle; [|lia..].
  apply (wp_mono _ _ _ _ (Hf x tr')). intros r tr'' Hle'. lia.
Qed.
Lemma at_most_try n {A} (q : P A) h : at_most n q → (∀ e, emits still (h e)) → at_most n (try_catch q h).
Proof.
  intros Hq Hh tr. apply wp_try, (wp_mono _ _ _ _ (Hq tr)). intros [x|e|] tr' Hle; [done| |done].
  apply (wp_mono _ _ _ _ (at_most_still _ (Hh e) tr')). intros r tr'' Hle'. lia.
Qed.
Lemma at_most_ret {A} (x : A) : at_most 0 (Ret x).
Proof. intros tr. simpl. lia. Qed.

Lemma at_most_move_over mv now : at_most 1 (move_over fuel c mv now).
Proof.
  unfold move_over. apply (at_most_bind 0 1); [apply at_most_still; destruct (restart_now now); [apply setState_still|exact I]|].
  intros _. apply (at_most_bind 1 0).
  - intros tr. apply wp_attempt; intros; rewrite moves_in_app; simpl; unfold moves_in; simpl; lia.
  - intros r. apply at_most_still. emits_all; first [exact I|by apply waitOp_still].
Qed.

Lemma at_most_moveOne mv w a : at_most 1 (moveOne fuel c mv w a).
Proof.
  unfold moveOne. apply (at_most_bind 0 1); [apply at_most_still; emits_all; exact I|]. intros now.
  destruct (changed_since mv now w a); [intros tr; simpl; lia|]. apply (at_most_bind 1 0).
  - apply at_most_try; [|intros e; exact I]. apply (at_most_bind 1 0); [apply at_most_move_over|intros _; apply at_most_ret].
  - intros failed. apply at_most_still. emits_all; first [exact I|apply start_again_still].
Qed.

Lemma at_most_carry_out running a ms done_ : at_most (length ms) (carry_out fuel c running a ms done_).
Proof.
  revert done_. induction ms as [|mv ms IH]; intros done_; [apply at_most_ret|]. cbn [carry_out length].
  apply (at_most_bind 0 (S (length ms))); [apply at_most_still; unfold stop_if_aborted; emits_all; exact I|]. intros _.
  apply (at_most_bind 0 (S (length ms))); [apply at_most_still; emits_all; exact I|]. intros _.
  apply (at_most_bind 1 (length ms)); [apply at_most_moveOne|]. intros o. apply IH.
Qed.

Definition within_policy {A : Type} (r : outcome exn A) (tr : list ev) : Prop :=
  moves_in tr = 0%nat ∨ ∃ raw p, Exists (read_instances_as raw) tr ∧ Exists (read_policy_as p) tr ∧
    (NoDup (rate_key <$> (instanceOf <$> raw)) → (Z.of_nat (moves_in tr) ≤ Z.max 0 (p_maxMoves p))%Z).

Lemma wp_block_within : wp (rebalance_block fuel jobId c) within_policy [].
Proof.
  apply wp_block_plan; [intros tr r F _; left; by apply moves_in_still|].
  intros tr p pl F Hp _ (raw & Hraw & Hlen).
  assert (at_most (length (moves (pl_plan pl))) (carried p pl)) as Hm.
  { unfold carried. replace (length _) with (length (moves (pl_plan pl)) + 0)%nat by lia. apply at_most_bind; [apply at_most_carry_out|].
    intros ms. apply at_most_still. unfold refreshInventory. emits_all; exact I. }
  eapply wp_mono; [exact (wp_extends _ _ _ (Hm tr))|]. intros r tr' [Hle [evs ->]]. right. exists raw, p.
  split; [apply Exists_app; by left|]. split; [apply Exists_app; by left|]. intros Hnd. specialize (Hlen Hnd).
  rewrite (moves_in_still tr F) in Hle. lia.
Qed.

Lemma wp_rebalance_within : wp (rebalanceHandler fuel jobId c) within_policy [].
Proof.
  apply wp_try, (wp_mono _ _ _ _ wp_block_within). intros [x|e|] tr Hs; [done| |done].
  apply (wp_emits_weaken still); [apply (recording_still e)|]. intros r evs F. unfold within_policy in *.
  rewrite moves_in_app, (moves_in_still evs F), Nat.add_0_r. destruct Hs as [?|(raw & p & H1 & H2 & Hle)]; [by left|]. right. exists raw, p.
  split; [apply Exists_app; by left|]. split; [apply Exists_app; by left|done].
Qed.

(** *** The policy's row *)

Definition tells (ch : BalancingChange) (e : ev) : Prop := match e with Ev (Db (SetBalancing c' ch')) _ => c' = c ∧ ch' = ch | _ => False end.
Definition accepted (e : ev) : Prop := match e with Ev (Db (SetBalancing _ _)) (inr _) => True | _ => False end.
Definition cancelled (e : ev) : Prop := match e with Ev Aborted (Some _) => True | _ => False end.
Definition told (r : outcome exn RebalanceResult) (tr : list ev) : Prop :=
  match r with
  | Returned res => Exists (λ e, tells (BalanceEnded jobId (moves_failed (rr_moves res))) e ∧ accepted e) tr
  | Raised _ => Exists cancelled tr ∨ ∃ m, Exists (tells (BalanceFailed jobId m)) tr
  | Running => True
  end.

Lemma wp_rebalance_told : wp (rebalanceHandler fuel jobId c) told [].
Proof.
  apply wp_try, (wp_mono _ (λ r tr, match r with Raised _ => True | _ => told r tr end)).
  - unfold rebalance_block.
    do 4 (apply wp_bind, (wp_emits_weaken (λ _, True)); [apply emits_any|]; intros [?|?|] ? _; [|done..]).
    apply wp_bind, (wp_emits_weaken (λ _, True)); [apply emits_any|]; intros [ms|?|] ? _; [|done..].
    apply wp_bind, (wp_emits_weaken (λ _, True)); [apply emits_any|]; intros [?|?|] ? _; [|done..].
    apply wp_bind, wp_attempt; [done|]. intros v. apply Exists_app. right. left. by split.
  - intros [x|e|] tr Hs; [done| |done]. apply wp_bind, wp_ask. intros [f|].
    + left. apply Exists_app. right. by left.
    + apply wp_bind, wp_attempt; intros; right; eexists; apply Exists_app; right; by left.
Qed.
End rebalance.

(** ** Properties *)

(** C20: a rebalance asks for a move only of an instance that the policy lets the engine take, that a
    look just found on the member the plan takes it off and as it was when the plan was made; it
    stops it only where the policy allows restarts; and it asks for no more moves than the policy's
    maximum. (The inventory is one that names every instance once.) *)
Theorem rebalance_keeps_to_policy `{!Locale} fuel jobId c orc :
  let r := run orc (rebalanceHandler fuel jobId c) [] in
  guarded (may_move c) r.2 ∧ within_policy c r.1 r.2.
Proof.
  split; [exact (wp_run _ _ orc [] (wp_rebalance_guarded fuel jobId c))|exact (wp_run _ _ orc [] (wp_rebalance_within fuel jobId c))].
Qed.

(** When a rebalance ends, however it ends, every instance that it stopped was asked to start again. *)
Theorem rebalance_restarts `{!Locale} fuel jobId c orc :
  (run orc (rebalanceHandler fuel jobId c) []).1 ≠ Running → left_down (run orc (rebalanceHandler fuel jobId c) []).2 = ∅.
Proof. exact (wp_run _ _ orc [] (wp_rebalance_settled fuel jobId c)). Qed.

(** How a rebalance ended is told to its policy: one that returns has recorded the moves that failed,
    and one that throws was cancelled or asked for its error to be recorded. *)
Theorem rebalance_told `{!Locale} fuel jobId c orc :
  told jobId c (run orc (rebalanceHandler fuel jobId c) []).1 (run orc (rebalanceHandler fuel jobId c) []).2.
Proof. exact (wp_run _ _ orc [] (wp_rebalance_told fuel jobId c)). Qed.

(** A pass of each scheduler that returns has asked for exactly one job of every replication, backup and
    balancing policy that is due, in order; one whose instance or cluster is busy does not stop the pass. *)
Theorem schedulers_ask_once :
  asks_once DuePolicies replicate_job scheduleReplication
  ∧ asks_once DueBackups backup_job scheduleBackups
  ∧ asks_once DueBalancing rebalance_job scheduleBalancing.
Proof.
  split; [|split].
  - exact (schedule_pass_asks_once DuePolicies replicate_job (λ p job, SetPolicy (po_id p) (PolicyQueued job)) (λ _ _ _, eq_refl)).
  - exact (schedule_pass_asks_once DueBackups backup_job (λ p job, SetBackupPolicy (bp_id p) (BackupQueued job)) (λ _ _ _, eq_refl)).
  - exact (schedule_pass_asks_once DueBalancing rebalance_job (λ c job, SetBalancing c (BalanceQueued job)) (λ _ _ _, eq_refl)).
Qed.

(** ** A cluster *)

Definition demo_ii (name : string) (status : string) : IncusInstance :=
  {| ii_name := name; ii_project := "web"; ii_type := "container"; ii_status := status; ii_location := "n1";
     ii_description := EmptyString; ii_architecture := "x86_64"; ii_created_at := EmptyString;
     ii_expanded_config := {["limits.memory" := "20B"]}; ii_snapshots := []; ii_state := None |}.
Definition demo_ic (name : string) : IncusMember :=
  {| ic_server_name := name; ic_url := None; ic_status := "Online"; ic_roles := None; ic_groups := None; ic_architecture := None |}.
Definition demo_now (location status : string) : Now :=
  {| nw_location := location; nw_status := status; nw_type := "container"; nw_expanded := ∅ |}.
Definition restarting_policy : BalancingModel.Policy :=
  {| p_method := ByMemory; p_mode := Assigned; p_balanciness := Qcanon.Q2Qc (QArith_base.Qmake 5 1); p_maxMoves := 5;
     p_allowRestart := true; p_excludeMembers := []; p_excludeProjects := [] |}.

Definition asked_to_move (path : string) (e : ev) : bool :=
  match e with Ev (Request _ _ p (MoveBody _ _ _)) _ => starts_with path p | _ => false end.

(** Four instances that run on "n1"; "n3" is empty. [gone]: an instance that was deleted since. *)
Definition balance_world (gone : string) (X : Type) (c : call X) (tr : list ev) : X :=
  match c in call X return X with
  | Request _ _ _ _ => inr {| rs_async := true; rs_operation := Some "/1.0/operations/1"; rs_id := "1"; rs_secrets := None |}
  | Get d c p =>
      match d in doc X return fault + X with
      | DCluster => inr (true, "n1")
      | DInstances => inr [demo_ii "a" "Running"; demo_ii "b" "Running"; demo_ii "c" "Running"; demo_ii "d" "Running"]
      | DMemberList => inr [demo_ic "n1"; demo_ic "n3"]
      | DResources => inr {| ir_cpuTotal := Some 8; ir_cpuArchitecture := None; ir_memoryTotal := Some 100; ir_memoryUsed := None |}%Z
      | DStatus => inr {| os_status := "Success"; os_err := EmptyString; os_metadata := JNull |}
      | DNow =>
          if bool_decide (p = instancePath "web" gone EmptyString) then inl (ClusterError 404 "Instance not found")
          else inr (if some (asked_to_move (p +++ "&")) tr then demo_now "n3" "Stopped" else demo_now "n1" "Running")
      | _ => inl (Error "unavailable")
      end
  | Progress _ _ => inr tt
  | ClientFor c => inr ("https://" +++ c, "PEM", c)
  | Db q =>
      match q in query X return fault + X with
      | BalancingPolicyOf _ => inr (Some restarting_policy)
      | CpuRates _ => inr []
      | SetBalancing _ _ | RefreshInventory _ => inr tt
      | q => unavailable (Db q)
      end
  | c => unavailable c
  end.
Definition rebalance_run (gone : string) : outcome exn RebalanceResult * list ev :=
  run (balance_world gone) (@rebalanceHandler code_unit_locale 3 "job-1" "A") [].

(** What a run asked of instances. *)
Definition asked (e : ev) : option string :=
  match e with
  | Ev (Request _ _ p (StateBody act _)) _ => Some (act +++ " " +++ p)
  | Ev (Request _ _ p (MoveBody _ _ _)) _ => Some ("move " +++ p)
  | Ev (Db (RefreshInventory _)) _ => Some "refresh"
  | _ => None
  end.
Definition outcomes (r : outcome exn RebalanceResult) : list (string * MoveEnd) :=
  match r with Returned x => (λ m, (mv_name m.1, m.2)) <$> rr_moves x | _ => [] end.

Example demo_rebalanced :
  outcomes (rebalance_run EmptyString).1 = [("a", Moved); ("b", Moved)]
  ∧ omap asked (rebalance_run EmptyString).2 =
      ["stop /1.0/instances/a/state?project=web"; "move /1.0/instances/a?project=web&target=n3"; "start /1.0/instances/a/state?project=web";
       "stop /1.0/instances/b/state?project=web"; "move /1.0/instances/b?project=web&target=n3"; "start /1.0/instances/b/state?project=web";
       "refresh"].
Proof. vm_compute. by split. Qed.

(** An instance that is gone ends the whole run: the move made before is not reported, and the inventory
    is not read again. *)
Lemma deleted_instance_ends_rebalance :
  (rebalance_run "b").1 = Raised (Fault (ClusterError 404 "Instance not found"))
  ∧ omap asked (rebalance_run "b").2 =
      ["stop /1.0/instances/a/state?project=web"; "move /1.0/instances/a?project=web&target=n3"; "start /1.0/instances/a/state?project=web"].
Proof. vm_compute. by split. Qed.

Lemma rebalance_restarts_witness : left_down (rebalance_run EmptyString).2 = ∅.
Proof. apply (@rebalance_restarts code_unit_locale 3 "job-1" "A" (balance_world EmptyString)). vm_compute. discriminate. Defined.
