(* ===== verification/Create.v ===== *)
(** * Create: the job that creates an instance

    Models [tenants/create-job.ts]: an instance that a tenant asked for is
    created in the tenant's project, on the root disk of its default profile
    and within the cluster groups the project is restricted to; then its owner
    and the project's usage are recorded and the tenant's clusters are asked to
    be reconciled. *)

From S2P Require Import Jobs.
From S2P Require Import Prelude JsString Effects Uri Digits Projects Preflight Leases Program Services Transfer Mobility Backups.
From S2P Require Import Quota.

Record CreatePayload := {
  cp_tenantId : string; cp_clusterId : string; cp_project : string; cp_name : string; cp_image : string; cp_type : string;
  cp_cpu : Z; cp_memory : Z; cp_disk : Z; cp_start : bool;
}.

Definition DEFAULT_IMAGE_SERVER : string := "https://images.linuxcontainers.org".

(** The pool of the root disk of the default profile. *)
Definition root_pool (devs : devices) : option string :=
  match rootOf devs with
  | Some (_, dev) => match dev !! "pool" with Some pool => if truthy_str pool then Some pool else None | None => None end
  | None => None
  end.

(** The cluster groups that a project is restricted to; "default" alone is every member. *)
Definition allowed_groups (cfg : config) : list string :=
  js_filter (λ g, truthy_str g && negb (bool_decide (g = "default")))
    (split_on "," (default EmptyString (cfg !! "restricted.cluster.groups"))).
Definition target_param (groups : list string) : string :=
  match groups with g :: _ => "&target=" +++ encodeURIComponent ("@" +++ g) | [] => EmptyString end.

Section create.
Context (fuel : nat) (server : string) (j : Job) (p : CreatePayload).
Abbreviation c := (cp_clusterId p).

Definition project_query : string := "?project=" +++ encodeURIComponent (cp_project p).
Definition instances_path (groups : list string) : string := "/1.0/instances" +++ project_query +++ target_param groups.
Definition project_path : string := "/1.0/projects/" +++ encodeURIComponent (cp_project p).
Definition profile_path : string := "/1.0/profiles/default" +++ project_query.

Definition launch (pool : string) : body :=
  LaunchBody (cp_name p) (cp_type p) (cp_image p) server
    (list_to_map [("limits.cpu", show_Z (cp_cpu p)); ("limits.memory", show_Z (cp_memory p))])
    [("root", list_to_map [("type", "disk"); ("path", "/"); ("pool", pool); ("size", show_Z (cp_disk p))])]
    (cp_start p).

(** The name must be free. *)
Definition name_free : P unit :=
  try_catch
    (_ ← attempt (Get DInstance c (instancePath (cp_project p) (cp_name p) EmptyString));
     raise 409 "conflict" ("An instance named " +++ quoted (cp_name p) +++ " already exists in " +++ cp_project p))
    (λ e, if is_missing e then Ret tt else Raise e).

Definition usage_of (r : gmap string Z) : Usage := λ k, default 0%Z (r !! key_name k).
Definition project_usage : P (option Usage) :=
  try_catch (r ← attempt (Get DUsage c (project_path +++ "/state")); Ret (Some (usage_of r)))
    (λ e, if is_missing e then Ret None else Raise e).

Definition record_created : P unit :=
  _ ← match job_actor j with
      | Some owner => attempt (Db (RecordOwner (c, cp_project p, cp_name p) owner))
      | None => Ret tt
      end;
  usage ← or_empty None project_usage;
  _ ← match usage with Some u => attempt (Db (SetUsage (cp_tenantId p) c u)) | None => Ret tt end;
  _ ← attempt (Db (ReconcileTenant (cp_tenantId p)));
  refreshInventory [c].

Definition launch_on (groups : list string) (pool : string) : P unit :=
  _ ← attempt (Progress "creating" (Some (cp_name p +++ " from " +++ cp_image p)));
  r ← attempt (Request c "POST" (instances_path groups) (launch pool));
  match rs_operation r with
  | Some op => if rs_async r && truthy_str op then waitOp (ask Aborted) fuel c op else Ret tt
  | None => Ret tt
  end.

Definition createHandler : P InstanceKey :=
  _ ← clientFor c;
  _ ← name_free;
  devs ← attempt (Get DDevices c profile_path);
  match root_pool devs with
  | None => raise 409 "conflict" ("The default profile of " +++ cp_project p +++ " has no root disk to size")
  | Some pool =>
      cfg ← attempt (Get DProject c project_path);
      _ ← launch_on (allowed_groups cfg) pool;
      _ ← record_created;
      Ret (c, cp_project p, cp_name p)
  end.
End create.

(** ** What every run does *)

Section theory.
Context (fuel : nat) (server : string) (j : Job) (p : CreatePayload).
Abbreviation c := (cp_clusterId p).

Definition name_was_free (e : ev) : Prop :=
  match e with
  | Ev (Get DInstance c' path) (inl f) =>
      c' = c ∧ path = instancePath (cp_project p) (cp_name p) EmptyString ∧ is_missing (Fault f) = true
  | _ => False
  end.
Definition profile_says (devs : devices) (e : ev) : Prop :=
  match e with Ev (Get DDevices c' path) (inr d) => c' = c ∧ path = profile_path p ∧ d = devs | _ => False end.
Definition project_says (cfg : config) (e : ev) : Prop :=
  match e with Ev (Get DProject c' path) (inr g) => c' = c ∧ path = project_path p ∧ g = cfg | _ => False end.

(** The one request: to create the instance, once its name was found free, on the root disk's pool of
    the default profile, in the first of the groups that the project is restricted to. *)
Definition may_create (pre : list ev) (e : ev) : Prop :=
  match e with
  | Ev (Request c' m path b) _ =>
      c' = c ∧ m = "POST" ∧ Exists name_was_free pre ∧
      ∃ devs cfg pool, Exists (profile_says devs) pre ∧ Exists (project_says cfg) pre ∧ root_pool devs = Some pool
        ∧ path = instances_path p (allowed_groups cfg) ∧ b = launch server p pool
  | _ => True
  end.
Definition created (e : ev) : Prop := match e with Ev (Request _ "POST" _ (LaunchBody _ _ _ _ _ _ _)) (inr _) => True | _ => False end.
(** The database changes only after Incus accepted the request. *)
Definition may_record_it (pre : list ev) (e : ev) : Prop :=
  match e with Ev (Db _) _ => Exists created pre | _ => True end.
Definition fit (pre : list ev) (e : ev) : Prop := may_create pre e ∧ may_record_it pre e.

Definition harmless (e : ev) : Prop := match e with Ev (Request _ _ _ _) _ | Ev (Db _) _ => False | _ => True end.
Lemma harmless_fit e k : harmless e → fit k e.
Proof. destruct e as [X c' x]. by destruct c'. Qed.
Lemma unrecorded_get e : is_get e → harmless e.
Proof. destruct e as [X c' x]. by destruct c'. Qed.
Lemma waitOp_harmless n c' op : emits harmless (waitOp (ask Aborted) n c' op).
Proof. induction n as [|n IH]; [exact I|]. cbn [waitOp]. emits_all; first [exact I|exact IH]. Qed.

Definition requests_none (e : ev) : Prop := match e with Ev (Request _ _ _ _) _ => False | _ => True end.
Lemma record_created_emits : emits requests_none (record_created j p).
Proof. unfold record_created, project_usage, or_empty, refreshInventory. emits_all; exact I. Qed.

Lemma wp_unrecorded {A} (q : P A) (Q : outcome exn A → list ev → Prop) tr :
  guarded fit tr → emits harmless q → (∀ r evs, guarded fit (tr ++ evs) → Q r (tr ++ evs)) → wp q Q tr.
Proof. intros Ht Hq HQ. apply (wp_guarded fit harmless); [done..|intros e k; apply harmless_fit|auto]. Qed.

Lemma wp_name_free tr : guarded fit tr →
  wp (name_free p) (λ r tr', guarded fit tr' ∧ (r = Returned tt → Exists name_was_free tr')) tr.
Proof.
  intros Hg. apply wp_try, wp_bind, wp_attempt.
  - intros f. destruct (is_missing (Fault f)) eqn:Hm; (split; [by apply guarded_snoc|]); [|done].
    intros _. apply Exists_app. right. by left.
  - intros i. split; [by apply guarded_snoc|done].
Qed.

Definition ready_to_create (groups : list string) (pool : string) (tr : list ev) : Prop :=
  Exists name_was_free tr ∧ ∃ devs cfg, Exists (profile_says devs) tr ∧ Exists (project_says cfg) tr ∧ root_pool devs = Some pool
    ∧ groups = allowed_groups cfg.

Lemma wp_launch_on groups pool tr : guarded fit tr → ready_to_create groups pool tr →
  wp (launch_on fuel server p groups pool) (λ r tr', guarded fit tr' ∧ (r = Returned tt → Exists created tr')) tr.
Proof.
  intros Hg (Hn & devs & cfg & Hd & Hc & Hp & Hgr). unfold launch_on.
  apply wp_bind, wp_attempt; [intros f; split; [by apply guarded_snoc|done]|]. intros u.
  set (tr1 := tr ++ _). assert (guarded fit tr1) as Hg1 by (by apply guarded_snoc).
  assert (∀ x, guarded fit (tr1 ++ [Ev (Request c "POST" (instances_path p groups) (launch server p pool)) x])) as Hg2.
  { intros x. apply guarded_snoc; [done|]. split; [|done]. split; [done|]. split; [done|]. split; [apply Exists_app; by left|].
    exists devs, cfg, pool. rewrite Hgr. repeat (split; [try done; apply Exists_app; by left|]). done. }
  apply wp_bind, wp_attempt; [intros f; split; [apply Hg2|done]|]. intros r.
  apply wp_unrecorded; [apply Hg2|emits_all; first [exact I|apply waitOp_harmless]|].
  intros r' evs Hg3. split; [done|]. intros _. rewrite <-(assoc_L (++)). apply Exists_app. right. by left.
Qed.

Lemma wp_create_fit : wp (createHandler fuel server j p) (λ _, guarded fit) [].
Proof.
  unfold createHandler.
  apply wp_bind, wp_unrecorded; [apply guarded_nil|unfold clientFor; emits_all; exact I|]. intros [u|e|] e1 H1; [|done..].
  apply wp_bind, (wp_mono _ _ _ _ (wp_name_free _ H1)). intros [[]|e|] tr2 [H2 Hn]; [|done..]. specialize (Hn eq_refl).
  apply wp_bind, wp_attempt; [intros f; by apply guarded_snoc|]. intros devs.
  set (tr3 := tr2 ++ _). assert (guarded fit tr3) as H3 by (by apply guarded_snoc).
  assert (Exists name_was_free tr3 ∧ Exists (profile_says devs) tr3) as [Hn3 Hd3].
  { split; apply Exists_app; [by left|right; by left]. }
  clearbody tr3. destruct (root_pool devs) as [pool|] eqn:Hpool; [|done].
  apply wp_bind, wp_attempt; [intros f; by apply guarded_snoc|]. intros cfg.
  set (tr4 := tr3 ++ _). assert (guarded fit tr4) as H4 by (by apply guarded_snoc).
  assert (ready_to_create (allowed_groups cfg) pool tr4) as Hready.
  { split; [apply Exists_app; by left|]. exists devs, cfg. split; [apply Exists_app; by left|].
    split; [apply Exists_app; right; by left|done]. }
  clearbody tr4. apply wp_bind, (wp_mono _ _ _ _ (wp_launch_on _ _ _ H4 Hready)).
  intros [[]|e|] tr5 [H5 Hc]; [|done..]. specialize (Hc eq_refl).
  assert (∀ e k, requests_none e → fit (tr5 ++ k) e) as Hrec.
  { intros [X c' x] k He. destruct c'; try done. split; [done|]. apply Exists_app. by left. }
  apply wp_bind, (wp_emits_weaken requests_none); [apply record_created_emits|]. intros r evs F.
  assert (guarded fit (tr5 ++ evs)) as H6.
  { apply guarded_app; [done|]. eapply Forall_impl; [exact F|]. intros e He k. by apply Hrec. }
  destruct r as [u'|e|]; done.
Qed.

(** *** A creation that returns *)

Definition owner_recorded (e : ev) : Prop :=
  match e with Ev (Db (RecordOwner k s)) (inr _) => k = (c, cp_project p, cp_name p) ∧ job_actor j = Some s | _ => False end.
Definition reconcile_asked (e : ev) : Prop := match e with Ev (Db (ReconcileTenant t)) (inr _) => t = cp_tenantId p | _ => False end.

Definition completed (tr : list ev) : Prop :=
  Exists created tr ∧ (is_Some (job_actor j) → Exists owner_recorded tr) ∧ Exists reconcile_asked tr.

Lemma wp_record_created tr :
  wp (record_created j p) (λ r tr', ∃ evs, tr' = tr ++ evs ∧
    (r = Returned tt → (is_Some (job_actor j) → Exists owner_recorded evs) ∧ Exists reconcile_asked evs)) tr.
Proof.
  unfold record_created. apply wp_bind.
  apply (wp_mono _ (λ r tr', ∃ e1, tr' = tr ++ e1 ∧ (r = Returned tt → is_Some (job_actor j) → Exists owner_recorded e1))).
  { destruct (job_actor j) as [owner|] eqn:Hj; [|exists []; rewrite app_nil_r; split; [done|]; by intros _ []].
    apply wp_attempt; [intros f; by eexists [_]|]. intros v. eexists [_]. split; [done|]. intros _ _. by left. }
  intros [[]|e|] tr1 (e1 & -> & Ho); [|by eexists..]. specialize (Ho eq_refl).
  apply wp_bind, (wp_emits_weaken (λ _, True)); [apply emits_any|]. intros [usage|e|] e2 _; rewrite <-(assoc_L (++)); [|by eexists..].
  apply wp_bind, (wp_emits_weaken (λ _, True)); [apply emits_any|]. intros [v|e|] e3 _; rewrite <-!(assoc_L (++)); [|by eexists..].
  apply wp_bind, wp_attempt; [intros f; rewrite <-!(assoc_L (++)); by eexists|]. intros v'.
  apply (wp_emits_weaken (λ _, True)); [apply emits_any|]. intros r e4 _. rewrite <-!(assoc_L (++)). eexists. split; [reflexivity|].
  intros _. split; [intros Hs; apply Exists_app; left; by apply Ho|]. rewrite !Exists_app. right; right; right; left. by left.
Qed.

Lemma wp_create_completed : wp (createHandler fuel server j p) (λ r tr, ∀ k, r = Returned k → completed tr) [].
Proof.
  unfold createHandler.
  do 3 (apply wp_bind, (wp_emits_weaken (λ _, True)); [apply emits_any|]; intros [?|?|] ? _; [|done..]).
  destruct (root_pool _) as [pool|]; [|done].
  apply wp_bind, (wp_emits_weaken (λ _, True)); [apply emits_any|]; intros [cfg|?|] ? _; [|done..].
  apply wp_bind, (wp_mono _ (λ r tr', r = Returned tt → Exists created tr')).
  { unfold launch_on. apply wp_bind, wp_attempt; [done|]. intros u. apply wp_bind, wp_attempt; [done|]. intros r.
    apply (wp_emits_weaken (λ _, True)); [apply emits_any|]. intros r' e9 _ _. rewrite <-(assoc_L (++)). apply Exists_app. right. by left. }
  intros [[]|e|] tr Hc; [|done..]. specialize (Hc eq_refl).
  apply wp_bind, (wp_mono _ _ _ _ (wp_record_created tr)). intros [[]|e|] tr' (e9 & -> & Hr); [|done..]. destruct (Hr eq_refl) as [Ho Hrc].
  intros k _. split; [apply Exists_app; by left|]. split; [intros Hs; apply Exists_app; right; by apply Ho|]. apply Exists_app. by right.
Qed.
End theory.

(** A creation sends one kind of request, to create the instance it was asked for, and only after a read
    found the name free, on the pool of the default profile's root disk and in the first of the cluster
    groups the project is restricted to; the database changes only once Incus accepted it. One that
    returns has recorded the owner and asked for the tenant's clusters to be reconciled. *)
Theorem create_keeps_to_project fuel server j p orc :
  let r := run orc (createHandler fuel server j p) [] in
  guarded (fit server p) r.2 ∧ ∀ k, r.1 = Returned k → completed j p r.2.
Proof. exact (conj (wp_run _ _ orc [] (wp_create_fit fuel server j p)) (wp_run _ _ orc [] (wp_create_completed fuel server j p))). Qed.

(** ** Examples *)

Definition demo_create : CreatePayload :=
  {| cp_tenantId := "t1"; cp_clusterId := "A"; cp_project := "web"; cp_name := "n"; cp_image := "debian/12"; cp_type := "container";
     cp_cpu := 2; cp_memory := 1073741824; cp_disk := 10737418240; cp_start := true |}.

(** The project is restricted to [groups]; [taken]: an instance of that name is there. *)
Definition create_world (groups : string) (taken : option Instance) (X : Type) (c : call X) (tr : list ev) : X :=
  match c in call X return X with
  | Request _ _ _ _ => inr {| rs_async := true; rs_operation := Some "/1.0/operations/1"; rs_id := "1"; rs_secrets := None |}
  | Get d c p =>
      match d in doc X return fault + X with
      | DInstance => match taken with Some i => inr i | None => inl (ClusterError 404 "Instance not found") end
      | DDevices => inr [("root", list_to_map [("type", "disk"); ("path", "/"); ("pool", "fast")])]
      | DProject => inr {["restricted.cluster.groups" := groups]}
      | DStatus => inr {| os_status := "Success"; os_err := EmptyString; os_metadata := JNull |}
      | _ => inl (Error "unavailable")
      end
  | Progress _ _ => inr tt
  | ClientFor c => inr ("https://" +++ c, "PEM", c)
  | Db q =>
      match q in query X return fault + X with
      | RecordOwner _ _ | SetUsage _ _ _ | ReconcileTenant _ | RefreshInventory _ => inr tt
      | q => unavailable (Db q)
      end
  | c => unavailable c
  end.
Definition create_run (groups : string) (taken : option Instance) :=
  run (create_world groups taken) (createHandler 3 DEFAULT_IMAGE_SERVER {| job_id := "job-1"; job_tenantId := Some "t1"; job_actorType := "user"; job_actorId := "ada" |} demo_create) [].
Definition posted (e : ev) : option string := match e with Ev (Request _ _ path _) _ => Some path | _ => None end.

Example demo_created :
  (create_run "default,gpu,ssd" None).1 = Returned ("A", "web", "n")
  ∧ omap posted (create_run "default,gpu,ssd" None).2 = ["/1.0/instances?project=web&target=%40gpu"]
  ∧ omap posted (create_run "default" None).2 = ["/1.0/instances?project=web"].
Proof. vm_compute. by repeat split. Qed.

Example demo_create_taken :
  omap posted (create_run EmptyString (Some {| in_name := "n"; in_type := Container; in_status := "Stopped"; in_architecture := "x86_64";
    in_config := ∅; in_expanded_config := ∅; in_devices := []; in_expanded_devices := []; in_profiles := [];
    in_ephemeral := None; in_stateful := None; in_description := None |})).2 = [].
Proof. vm_compute. done. Qed.
