(* ===== verification/Endpoint.v ===== *)
(** * Endpoint: where the API of a Kubernetes cluster is reached

    Models [k8s/endpoint.ts]: the member and port of a new cluster, its load
    balancer, the instances a deleted cluster left, and the network forward,
    which clusters of one address share, so that each keeps to its own port.
    Rows of the database are arguments; the host name of a URL is a parameter. *)

From S2P Require Import Fleet K8sModel Jobs.
From S2P Require Import Prelude JsString Digits Effects Uri Projects Preflight Leases Program Services.

(** ** A member and a port *)

Record ClusterRow := { cw_name : string; cw_url : string }.
Record MemberRow := { mb_name : string; mb_url : string; mb_status : string; mb_memoryTotal : Z; mb_memoryUsed : Z }.

(** The online member with the most memory free comes first. *)
Definition roomier `{!Locale} (a b : MemberRow) : comparison :=
  cmp_then (Z.compare (mb_memoryTotal b - mb_memoryUsed b) (mb_memoryTotal a - mb_memoryUsed a)) (locale_compare (mb_name a) (mb_name b)).

(** [.replace(/^\[|\]$/g, "")] *)
Definition unbracket (h : string) : string :=
  let h := match h with String c r => if char_is c "[" then r else h | EmptyString => h end in
  if ends_with "]" h then str_take (String.length h - 1) h else h.

Section pick.
Context `{!Locale} (hostname : string → string).  (** [new URL(url).hostname] *)

Definition hostOf (url : string) : string := unbracket (hostname url).

Definition choose_member (members : list MemberRow) (want : option string) : option MemberRow :=
  match want with
  | Some w => if truthy_str w then js_find (λ m, bool_decide (mb_name m = w)) members
              else head (js_sort roomier (js_filter (λ m, bool_decide (mb_status m = "Online")) members))
  | None => head (js_sort roomier (js_filter (λ m, bool_decide (mb_status m = "Online")) members))
  end.

(** The host and the member. *)
Definition pickMember (c : option ClusterRow) (members : list MemberRow) (want : option string) : result (string * string) :=
  match c with
  | None => throw 404 "not_found" "Cluster not found"
  | Some c =>
      if (1 <? length members)%nat then
        match choose_member members want with
        | None =>
            throw 409 "bad_member"
              (if truthy_opt_str want then cw_name c +++ " has no member " +++ quoted (default EmptyString want)
               else cw_name c +++ " has no online member")
        | Some m =>
            if negb (bool_decide (mb_status m = "Online")) then throw 409 "bad_member" (mb_name m +++ " is " +++ mb_status m)
            else if negb (truthy_str (mb_url m)) then throw 409 "bad_member" ("The address of " +++ mb_name m +++ " is not known yet")
            else Ok (hostOf (mb_url m), mb_name m)
        end
      else Ok (hostOf (cw_url c), EmptyString)
  end.

Record Endpoint := { ep_host : string; ep_port : Z; ep_member : string }.

(** [used]: the ports of the clusters recorded on a host. *)
Definition pickEndpoint (c : option ClusterRow) (members : list MemberRow) (used : string → list Z) (low high : Z) (want : option string) : result Endpoint :=
  hm ← pickMember c members want;
  match js_find (λ port, negb (includes (used hm.1) port)) (seqZ low (high - low + 1)) with
  | Some port => Ok {| ep_host := hm.1; ep_port := port; ep_member := hm.2 |}
  | None => throw 409 "no_port" ("No free port for a Kubernetes API endpoint on " +++ hm.1 +++ " (" +++ show_Z low +++ "-" +++ show_Z high +++ ")")
  end.
End pick.

(** ** The load balancer *)

(** The network the default profile's NIC is attached to. *)
Definition nic_network (devs : devices) : option string :=
  snd <$> js_find (λ kv, truthy_str kv.2)
            (omap (λ kv, if bool_decide (kv.2 !! "type" = Some "nic") then (λ n, (kv.1, n)) <$> kv.2 !! "network" else None) devs).

Definition defaultNetwork (c project : string) : P string :=
  devs ← attempt (Get DDevices c ("/1.0/profiles/default?project=" +++ encodeURIComponent project));
  match nic_network devs with
  | Some n => Ret n
  | None => raise 409 "no_network" ("The default profile of project " +++ project +++ " has no managed network")
  end.

(** The keys CAPN sets on the instances of a cluster. *)
Definition of_cluster (name namespace : string) (i : NodeInstance) : bool :=
  bool_decide (ni_config i !! "user.cluster-name" = Some name) && bool_decide (ni_config i !! "user.cluster-namespace" = Some namespace).
Definition is_lb (name namespace : string) (i : NodeInstance) : bool :=
  of_cluster name namespace i && bool_decide (ni_config i !! "user.cluster-role" = Some "loadbalancer").

Definition global_ipv4 (addresses : list Address) : option string :=
  ad_address <$> js_find (λ a, bool_decide (ad_family a = "inet") && bool_decide (ad_scope a = "global")) addresses.
(** The first address that is not empty, or what the last device gave. *)
Fixpoint lb_address (found : option string) (network : list (string * list Address)) : option string :=
  match network with
  | [] => found
  | (nic, addresses) :: network =>
      if bool_decide (nic = "lo") then lb_address found network
      else let address := global_ipv4 addresses in
           if truthy_opt_str address then address else lb_address address network
  end.

Record LoadBalancer := { lbf_name : string; lbf_member : string; lbf_address : option string }.
Definition find_lb (instances : list NodeInstance) (name namespace : string) : option LoadBalancer :=
  (λ i, {| lbf_name := ni_name i; lbf_member := ni_location i; lbf_address := lb_address None (ni_network i) |})
    <$> js_find (is_lb name namespace) instances.

Definition nodes_path (project : string) (recursion : string) : string :=
  "/1.0/instances?project=" +++ encodeURIComponent project +++ "&recursion=" +++ recursion.
Definition findLb (c project name namespace : string) : P (option LoadBalancer) :=
  is_ ← attempt (Get DNodes c (nodes_path project "2"));
  Ret (find_lb is_ name namespace).

(** ** What a deleted cluster left *)

Section leftovers.
Context (c project name namespace : string).

(** Whether a URL names an instance of the cluster; a malformed one throws. *)
Definition ours (url : string) : P bool :=
  match url_name url with
  | Some n => Ret (starts_with (name +++ "-") n)
  | None => Raise (Fault (Error "URI malformed"))
  end.
Fixpoint some_ours (urls : list string) : P bool :=
  match urls with
  | [] => Ret false
  | u :: urls => o ← ours u; if (o : bool) then Ret true else some_ours urls
  end.

(** Its outcome does not matter, only that it is over. *)
Definition outwait (op : RunningOp) : P unit :=
  o ← some_ours (ro_instances op);
  if (o : bool) then quietly (wait c (ro_id op)) else Ret tt.

Definition node_path (i : NodeInstance) (sub : string) : string :=
  "/1.0/instances/" +++ encodeURIComponent (ni_name i) +++ sub +++ "?project=" +++ encodeURIComponent project.

Definition remove_node (i : NodeInstance) : P unit :=
  stop ← or_empty None (r ← attempt (Request c "PUT" (node_path i "/state") (StateBody "stop" true)); Ret (Some r));
  _ ← match stop ≫= rs_operation with
      | Some op => if truthy_str op then quietly (wait c op) else Ret tt
      | None => Ret tt
      end;
  del ← attempt (Request c "DELETE" (node_path i EmptyString) NoBody);
  match rs_operation del with
  | Some op => if truthy_str op then wait c op else Ret tt
  | None => Ret tt
  end.

Definition removeLeftovers : P (list string) :=
  ops ← attempt (Get DRunning c ("/1.0/operations?project=" +++ encodeURIComponent project +++ "&recursion=1"));
  _ ← each outwait ops;
  is_ ← attempt (Get DNodes c (nodes_path project "1"));
  let left := js_filter (of_cluster name namespace) is_ in
  _ ← each remove_node left;
  Ret (ni_name <$> left).
End leftovers.

(** ** The forward *)

Record ForwardSpec := { fs_network : string; fs_member : string; fs_host : string; fs_port : Z; fs_target : string; fs_id : string }.

Definition FORWARD_DESCRIPTION : string := "IncusCloud Kubernetes endpoints".
Definition portDescription (id : string) : string := "incuscloud k8s " +++ id.
Definition API_PORT : string := "6443".

Definition port_of (f : ForwardSpec) : Port :=
  {| pt_description := portDescription (fs_id f); pt_protocol := "tcp"; pt_listen_port := show_Z (fs_port f);
     pt_target_port := API_PORT; pt_target_address := fs_target f; pt_more := ∅ |}.

(** The fields of ours, whatever Incus adds. *)
Definition same_port (ours p : Port) : bool :=
  bool_decide (pt_description p = pt_description ours) && bool_decide (pt_protocol p = pt_protocol ours)
  && bool_decide (pt_listen_port p = pt_listen_port ours) && bool_decide (pt_target_port p = pt_target_port ours)
  && bool_decide (pt_target_address p = pt_target_address ours).

Inductive Change := Created (f : Forward) | Updated (f : Forward) | Removed | Unchanged.

Definition is_ours (f : ForwardSpec) (p : Port) : bool := bool_decide (pt_description p = portDescription (fs_id f)).

(** [ports.map((p, j) => (j === i ? ours : p))] for the first of ours *)
Fixpoint replace_first (f : ForwardSpec) (ports : list Port) : list Port :=
  match ports with
  | [] => []
  | p :: ports => if is_ours f p then port_of f :: ports else p :: replace_first f ports
  end.

Definition clashes (f : ForwardSpec) (p : Port) : bool :=
  bool_decide (pt_listen_port p = show_Z (fs_port f)) && negb (is_ours f p).

(** What [ensureForward] does to the forward on the address. *)
Definition ensure_change (f : ForwardSpec) (existing : option Forward) : result Change :=
  match existing with
  | None => Ok (Created {| fw_description := FORWARD_DESCRIPTION; fw_config := ∅; fw_ports := [port_of f] |})
  | Some e =>
      match js_find (clashes f) (fw_ports e) with
      | Some clash =>
          throw 409 "port_in_use"
            ("Port " +++ show_Z (fs_port f) +++ " on " +++ fs_host f +++ " is already forwarded ("
             +++ (if truthy_str (pt_description clash) then pt_description clash else "not by IncusCloud") +++ ")")
      | None =>
          match js_find (is_ours f) (fw_ports e) with
          | Some p =>
              if same_port (port_of f) p then Ok Unchanged
              else Ok (Updated {| fw_description := fw_description e; fw_config := fw_config e; fw_ports := replace_first f (fw_ports e) |})
          | None => Ok (Updated {| fw_description := fw_description e; fw_config := fw_config e; fw_ports := fw_ports e ++ [port_of f] |})
          end
      end
  end.

(** What [removeForward] does to it. *)
Definition remove_change (f : ForwardSpec) (existing : option Forward) : Change :=
  match existing with
  | None => Unchanged
  | Some e =>
      let ports := js_filter (λ p, negb (is_ours f p)) (fw_ports e) in
      if (length ports =? length (fw_ports e))%nat then Unchanged
      else if (length ports =? 0)%nat && bool_decide (fw_description e = FORWARD_DESCRIPTION) then Removed
      else Updated {| fw_description := fw_description e; fw_config := fw_config e; fw_ports := ports |}
  end.

Section forward.
Context (c : string) (f : ForwardSpec).

Definition member_query : string := if truthy_str (fs_member f) then "?target=" +++ encodeURIComponent (fs_member f) else EmptyString.
Definition forwardsPath : string := "/1.0/networks/" +++ encodeURIComponent (fs_network f) +++ "/forwards" +++ member_query.
Definition forwardPath : string :=
  "/1.0/networks/" +++ encodeURIComponent (fs_network f) +++ "/forwards"
  +++ (if truthy_str (fs_host f) then "/" +++ encodeURIComponent (fs_host f) else EmptyString) +++ member_query.

Definition getForward : P (option Forward) :=
  try_catch (x ← attempt (Get DForward c forwardPath); Ret (Some x)) (λ e, if is_missing e then Ret None else Raise e).

Definition send_change (ch : Change) : P unit :=
  match ch with
  | Created x => _ ← attempt (Request c "POST" forwardsPath (ForwardBody (fs_host f) (fw_description x) (fw_ports x))); Ret tt
  | Updated x => _ ← attempt (Request c "PUT" forwardPath (ForwardChange (fw_description x) (fw_config x) (fw_ports x))); Ret tt
  | Removed => _ ← attempt (Request c "DELETE" forwardPath NoBody); Ret tt
  | Unchanged => Ret tt
  end.

Definition ensureForward : P Change :=
  existing ← getForward;
  match ensure_change f existing with
  | Throw e => Raise (Fault (Api e))
  | Ok ch => _ ← send_change ch; Ret ch
  end.

Definition removeForward : P unit :=
  existing ← getForward;
  send_change (remove_change f existing).
End forward.

(** ** Theorems: clusters that share an address keep to their ports

    What an endpoint promises: a forward that several clusters share is changed
    in the port of one cluster only; ensuring it settles, removing it undoes
    it; the port of a new cluster is the lowest free one; and what a deleted
    cluster left is all that is removed. *)

(** ** The forward as Incus keeps it *)

Definition apply_change (ch : Change) (s : option Forward) : option Forward :=
  match ch with Created x | Updated x => Some x | Removed => None | Unchanged => s end.
Definition ports (s : option Forward) : list Port := match s with Some e => fw_ports e | None => [] end.
Definition others (f : ForwardSpec) (s : option Forward) : list Port := js_filter (λ p, negb (is_ours f p)) (ports s).

Lemma is_ours_port f : is_ours f (port_of f) = true.
Proof. unfold is_ours. by apply bool_decide_eq_true. Qed.
Lemma same_port_refl p : same_port p p = true.
Proof. unfold same_port. by rewrite !bool_decide_true. Qed.
Lemma clashes_port f : clashes f (port_of f) = false.
Proof. unfold clashes. rewrite is_ours_port. apply andb_false_r. Qed.
Lemma clashes_same f : clashes f (port_of f) = false.
Proof. apply clashes_port. Qed.

Lemma filter_replace f l : js_filter (λ p, negb (is_ours f p)) (replace_first f l) = js_filter (λ p, negb (is_ours f p)) l.
Proof.
  unfold js_filter. induction l as [|p l IH]; [done|]. cbn [replace_first]. destruct (is_ours f p) eqn:Hp; cbn [List.filter];
    rewrite Hp; cbn [negb]; [by rewrite is_ours_port|]. by rewrite IH.
Qed.
Lemma find_replace_first f l p : js_find (is_ours f) l = Some p → js_find (is_ours f) (replace_first f l) = Some (port_of f).
Proof.
  induction l as [|q l IH]; [done|]. unfold js_find in *. cbn [replace_first List.find].
  destruct (is_ours f q) eqn:Hq; cbn [List.find]; [by rewrite is_ours_port|]. rewrite Hq. exact IH.
Qed.
Lemma clash_replace f l : js_find (clashes f) l = None → js_find (clashes f) (replace_first f l) = None.
Proof.
  intros Hc. apply js_find_absent. intros q Hq. assert (∀ x, x ∈ l → clashes f x = false) as Hl by (by apply js_find_none).
  clear Hc. induction l as [|p l IH]; [by apply elem_of_nil in Hq|]. cbn [replace_first] in Hq. destruct (is_ours f p).
  - apply elem_of_cons in Hq as [-> |Hq]; [apply clashes_port|]. apply Hl. by right.
  - apply elem_of_cons in Hq as [-> |Hq]; [apply Hl; by left|]. apply IH; [done|]. intros x Hx. apply Hl. by right.
Qed.

(** Ensuring the forward of a cluster leaves the ports of the others as they are, puts its own there
    with the target it asked for, and is then settled; and it is refused only because the port it
    listens on is another's. *)
Theorem ensure_keeps_others f s :
  match ensure_change f s with
  | Ok ch =>
      others f (apply_change ch s) = others f s
      ∧ (∃ p, p ∈ ports (apply_change ch s) ∧ same_port (port_of f) p = true)
      ∧ ensure_change f (apply_change ch s) = Ok Unchanged
  | Throw e => status e = 409%Z ∧ ∃ p, p ∈ ports s ∧ pt_listen_port p = show_Z (fs_port f) ∧ pt_description p ≠ portDescription (fs_id f)
  end.
Proof.
  destruct s as [e|]; cbn [ensure_change].
  2:{ unfold others. cbn [apply_change ensure_change ports fw_ports]. unfold js_find, js_filter. cbn [List.filter List.find]. rewrite is_ours_port. cbn [negb].
      split; [reflexivity|]. rewrite clashes_port, same_port_refl. split; [|reflexivity].
      exists (port_of f). split; [by left|apply same_port_refl]. }
  destruct (js_find (clashes f) (fw_ports e)) as [q|] eqn:Hc.
  { apply js_find_some in Hc as [Hq Hc]. split; [done|]. exists q. split; [done|]. unfold clashes, is_ours in Hc. bool_prop. done. }
  destruct (js_find (is_ours f) (fw_ports e)) as [p|] eqn:Hp.
  - destruct (same_port (port_of f) p) eqn:Hs.
    + cbn [apply_change ports]. split; [done|]. split; [apply js_find_some in Hp as [Hin _]; by exists p|]. cbn [ensure_change]. by rewrite Hc, Hp, Hs.
    + unfold others. cbn [apply_change ports fw_ports ensure_change]. split; [apply filter_replace|].
      rewrite clash_replace, (find_replace_first f _ p) by done. rewrite same_port_refl. split; [|done].
      exists (port_of f). split; [|apply same_port_refl]. by apply (js_find_some (is_ours f)), (find_replace_first f _ p).
  - unfold others. cbn [apply_change ports fw_ports ensure_change].
    rewrite js_filter_snoc, is_ours_port. cbn [negb]. rewrite app_nil_r. split; [done|].
    rewrite (js_find_snoc (clashes f)), clashes_port, (js_find_snoc (is_ours f)), is_ours_port, same_port_refl by done.
    split; [|done]. exists (port_of f). split; [apply elem_of_app; right; by left|apply same_port_refl].
Qed.

(** Removing it leaves the ports of the others, and only those; the forward itself goes only when it is
    IncusCloud's and nothing is left; and removing it again does nothing. *)
Theorem remove_keeps_others f s :
  let s' := apply_change (remove_change f s) s in
  ports s' = others f s
  ∧ (is_Some s → s' = None → others f s = [] ∧ ∃ e, s = Some e ∧ fw_description e = FORWARD_DESCRIPTION)
  ∧ remove_change f s' = Unchanged.
Proof.
  destruct s as [e|]; cbn [remove_change]; [|split; [done|]; split; [by intros []|done]].
  unfold others. cbn [ports]. set (kept := js_filter _ (fw_ports e)).
  destruct (Nat.eqb_spec (length kept) (length (fw_ports e))) as [Hl|Hl].
  { apply js_filter_length in Hl as Heq. fold kept in Heq. cbn [apply_change ports]. split; [done|]. split; [done|].
    cbn [remove_change]. fold kept. rewrite (proj2 (Nat.eqb_eq _ _) Hl). done. }
  destruct (Nat.eqb_spec (length kept) 0) as [H0|H0]; cbn [andb].
  - apply length_zero_iff_nil in H0. case_bool_decide as Hd; cbn [apply_change ports].
    + split; [done|]. split; [|done]. intros _ _. split; [done|]. by exists e.
    + split; [done|]. split; [done|]. cbn [remove_change fw_ports]. by rewrite H0.
  - cbn [apply_change ports]. split; [done|]. split; [done|]. cbn [remove_change fw_ports].
    assert (js_filter (λ p, negb (is_ours f p)) kept = kept) as ->; [|by rewrite Nat.eqb_refl].
    apply js_filter_all. intros x Hx. by apply elem_of_js_filter in Hx as [_ Hx].
Qed.

(** Removing undoes ensuring: a forward without the cluster's port, or none, is back as it was. (One of
    IncusCloud's without any port is removed instead.) *)
Theorem remove_undoes_ensure f s ch :
  (∀ p, p ∈ ports s → is_ours f p = false) → (∀ e, s = Some e → fw_description e = FORWARD_DESCRIPTION → fw_ports e ≠ []) →
  ensure_change f s = Ok ch → apply_change (remove_change f (apply_change ch s)) (apply_change ch s) = s.
Proof.
  intros Hn Hd. destruct s as [e|]; cbn [ensure_change].
  - destruct (js_find (clashes f) _); [done|]. assert (js_find (is_ours f) (fw_ports e) = None) as -> by (by apply js_find_absent).
    intros [= <-]. cbn [apply_change remove_change fw_ports fw_description].
    rewrite js_filter_snoc, is_ours_port. cbn [negb]. rewrite app_nil_r, js_filter_all; [|intros x Hx; by rewrite Hn].
    assert ((length (fw_ports e) =? length (fw_ports e ++ [port_of f]))%nat = false) as ->.
    { apply Nat.eqb_neq. rewrite length_app. simpl. lia. }
    destruct (Nat.eqb_spec (length (fw_ports e)) 0) as [H0|H0]; cbn [andb].
    + apply length_zero_iff_nil in H0. case_bool_decide as Hf; [by destruct (Hd e eq_refl Hf)|]. cbn [apply_change]. by destruct e.
    + cbn [apply_change]. by destruct e.
  - intros [= <-]. cbn [apply_change remove_change fw_ports fw_description]. unfold js_filter. cbn [List.filter].
    rewrite is_ours_port. cbn [negb length Nat.eqb andb]. rewrite bool_decide_true by reflexivity. reflexivity.
Qed.

(** Reading the forward and writing it are two requests: a cluster that ensures its port between another's
    read and write puts the other's port back that was just removed. *)
Theorem interleaved_removal_undone f g s p ch :
  fs_id f ≠ fs_id g → p ∈ ports s → is_ours g p = true → ensure_change f s = Ok ch → ch ≠ Unchanged →
  p ∈ ports (apply_change ch (apply_change (remove_change g s) s)).
Proof.
  intros Hne Hp Hg He Hch.
  assert (is_ours f p = false) as Hf.
  { unfold is_ours in *. bool_prop. apply bool_decide_eq_false. rewrite Hg. unfold portDescription. intros Heq.
    apply Hne. by apply append_inj_l in Heq. }
  pose proof (ensure_keeps_others f s) as Hk. rewrite He in Hk. destruct Hk as (Ho & _).
  assert (apply_change ch (apply_change (remove_change g s) s) = apply_change ch s) as -> by (by destruct ch).
  assert (p ∈ others f (apply_change ch s)) as Hin.
  { rewrite Ho. apply elem_of_js_filter. by rewrite Hf. }
  by apply elem_of_js_filter in Hin as [Hin _].
Qed.

(** ** A member and a port *)

Section pick.
Context `{!Locale} (hostname : string → string).

#[export] Instance roomier_comparator : Comparator roomier.
Proof.
  apply comparator_then.
  - apply (comparator_flip (λ a b : MemberRow, Z.compare (mb_memoryTotal a - mb_memoryUsed a) (mb_memoryTotal b - mb_memoryUsed b))).
    apply (comparator_on (λ m, (mb_memoryTotal m - mb_memoryUsed m)%Z) Z.compare), _.
  - apply (comparator_on mb_name), _.
Qed.

Definition free_memory (m : MemberRow) : Z := mb_memoryTotal m - mb_memoryUsed m.
Definition is_online (m : MemberRow) : bool := bool_decide (mb_status m = "Online").

(** The member chosen is online; the one asked for, or else one with the most memory free. *)
Lemma choose_member_spec members want m : choose_member members want = Some m →
  m ∈ members ∧ (if truthy_opt_str want then want = Some (mb_name m)
                 else is_online m = true ∧ ∀ x, x ∈ members → is_online x = true → (free_memory x ≤ free_memory m)%Z).
Proof.
  assert (head (js_sort roomier (js_filter is_online members)) = Some m → m ∈ members ∧ is_online m = true
    ∧ ∀ x, x ∈ members → is_online x = true → (free_memory x ≤ free_memory m)%Z) as Hroom.
  { destruct (js_sort roomier _) as [|y l] eqn:E; [done|]. intros [= ->].
    apply js_sort_head_min in E as [Hin Hmin]; [|apply roomier_comparator]. apply elem_of_js_filter in Hin as [Hin Hon].
    split; [done|]. split; [done|]. intros x Hx Hxo. specialize (Hmin x (proj2 (elem_of_js_filter _ _ _) (conj Hx Hxo))).
    unfold cmp_le, roomier, cmp_then in Hmin. unfold free_memory.
    destruct (Z.compare_spec (mb_memoryTotal x - mb_memoryUsed x) (mb_memoryTotal m - mb_memoryUsed m)); [lia..|done]. }
  unfold choose_member. destruct want as [w|]; [|apply Hroom]. simpl. destruct (truthy_str w); [|apply Hroom].
  intros [Hin Hn]%js_find_some. bool_prop. split; [done|]. by subst.
Qed.

(** The first of the numbers from [low] that passes. *)
Lemma first_free (p : Z → bool) low n : 
  match js_find p (seqZ low n) with
  | Some x => p x = true ∧ (low ≤ x < low + n)%Z ∧ ∀ q, (low ≤ q < x)%Z → p q = false
  | None => ∀ q, (low ≤ q < low + n)%Z → p q = false
  end.
Proof.
  destruct (Z.le_gt_cases n 0) as [Hn|Hn]; [rewrite seqZ_nil by done; intros q Hq; lia|].
  replace n with (Z.of_nat (Z.to_nat n)) by lia. generalize (Z.to_nat n). clear n Hn. intros n. revert low.
  induction n as [|n IH]; intros low; [intros q Hq; lia|]. rewrite seqZ_cons by lia. unfold js_find. cbn [List.find].
  destruct (p low) eqn:Hp; [split; [done|]; split; [lia|]; intros q Hq; lia|].
  replace (Z.pred (Z.of_nat (S n))) with (Z.of_nat n) by lia. specialize (IH (Z.succ low)). unfold js_find in IH.
  destruct (List.find p _) as [x|].
  - destruct IH as (Hx & Hr & Hq). split; [done|]. split; [lia|]. intros q Hlq. destruct (Z.eq_dec q low) as [->|]; [done|apply Hq; lia].
  - intros q Hlq. destruct (Z.eq_dec q low) as [->|]; [done|apply IH; lia].
Qed.

(** The endpoint of a new cluster is on the member chosen, at the lowest port of the range that no
    cluster has there; it is refused for want of a port only when every port of the range is taken. *)
Theorem endpoint_lowest_free c members used low high want :
  match pickEndpoint hostname c members used low high want with
  | Ok e =>
      pickMember hostname c members want = Ok (ep_host e, ep_member e)
      ∧ (low ≤ ep_port e ≤ high)%Z ∧ (ep_port e ∉ used (ep_host e))
      ∧ (∀ q, (low ≤ q < ep_port e)%Z → q ∈ used (ep_host e))
      ∧ ((1 < length members)%nat → ∃ m, m ∈ members ∧ mb_name m = ep_member e ∧ is_online m = true
           ∧ (truthy_opt_str want = false → ∀ x, x ∈ members → is_online x = true → (free_memory x ≤ free_memory m)%Z)
           ∧ (truthy_opt_str want = true → want = Some (mb_name m)))
  | Throw e =>
      pickMember hostname c members want = Throw e
      ∨ Effects.code e = "no_port" ∧ ∃ host member, pickMember hostname c members want = Ok (host, member)
                             ∧ ∀ q, (low ≤ q ≤ high)%Z → q ∈ used host
  end.
Proof.
  unfold pickEndpoint. destruct (pickMember hostname c members want) as [[host member]|e] eqn:Hp; simpl; [|by left].
  pose proof (first_free (λ port, negb (includes (used host) port)) low (high - low + 1)) as Hf. cbn [fst] in *.
  destruct (js_find _ _) as [port|]; simpl.
  - destruct Hf as (Hfree & Hr & Hlow). apply negb_true_iff, includes_false in Hfree.
    split; [done|]. split; [lia|]. split; [done|]. split.
    { intros q Hq. specialize (Hlow q Hq). apply negb_false_iff, includes_spec in Hlow. done. }
    intros Hm. unfold pickMember in Hp. destruct c as [c|]; [|done]. rewrite (proj2 (Nat.ltb_lt _ _) Hm) in Hp.
    destruct (choose_member members want) as [m|] eqn:Hc; [|done]. destruct (choose_member_spec _ _ _ Hc) as [Hin Hw].
    destruct (bool_decide (mb_status m = "Online")) eqn:Hon; [|done]. destruct (truthy_str (mb_url m)); [|done].
    injection Hp as <- <-. exists m. split; [done|]. split; [done|]. split; [exact Hon|].
    destruct (truthy_opt_str want); split; intros; try done. by apply Hw.
  - right. split; [done|]. exists host, member. split; [done|]. intros q Hq.
    specialize (Hf q ltac:(lia)). by apply negb_false_iff, includes_spec in Hf.
Qed.
End pick.

(** ** What is removed *)

Section leftovers.
Context (c project name namespace : string).

Definition nodes_listed (l : list NodeInstance) (e : ev) : Prop :=
  match e with Ev (Get DNodes c' path) (inr l') => c' = c ∧ path = nodes_path project "1" ∧ l' = l | _ => False end.
Definition node_deleted (i : NodeInstance) (e : ev) : Prop :=
  match e with Ev (Request c' m path _) (inr _) => c' = c ∧ m = "DELETE" ∧ path = node_path project i EmptyString | _ => False end.
(** A request stops or deletes an instance that bears the keys of the cluster. *)
Definition may_remove (pre : list ev) (e : ev) : Prop :=
  match e with
  | Ev (Request c' m path b) _ =>
      c' = c ∧ ∃ l i, Exists (nodes_listed l) pre ∧ i ∈ l ∧ of_cluster name namespace i = true
        ∧ (m = "PUT" ∧ path = node_path project i "/state" ∧ b = StateBody "stop" true ∨ m = "DELETE" ∧ path = node_path project i EmptyString)
  | _ => True
  end.

Definition listed_node (i : NodeInstance) (tr : list ev) : Prop :=
  ∃ l, Exists (nodes_listed l) tr ∧ i ∈ l ∧ of_cluster name namespace i = true.
Lemma listed_node_app i tr k : listed_node i tr → listed_node i (tr ++ k).
Proof. intros (l & Hl & H). exists l. split; [apply Exists_app; by left|done]. Qed.

Lemma get_may_remove e k : is_get e → may_remove k e.
Proof. destruct e as [X c' x]. by destruct c'. Qed.
Lemma wait_emits c' op : emits is_get (wait c' op).
Proof. unfold wait. emits_all; exact I. Qed.

Lemma wp_reading {A} (q : P A) (Q : outcome exn A → list ev → Prop) tr :
  guarded may_remove tr → emits is_get q → (∀ r evs, guarded may_remove (tr ++ evs) → Q r (tr ++ evs)) → wp q Q tr.
Proof. intros Ht Hq HQ. apply (wp_guarded may_remove is_get); [done..|intros e k; apply get_may_remove|auto]. Qed.

Lemma wp_remove_node i tr : guarded may_remove tr → listed_node i tr →
  wp (remove_node c project i) (λ r tr', guarded may_remove tr' ∧ (r = Returned tt → Exists (node_deleted i) tr')) tr.
Proof.
  intros Hg (l & Hl & Hin & Hof). unfold remove_node.
  assert (∀ k m b x, guarded may_remove (tr ++ k) →
    m = "PUT" ∧ b = (node_path project i "/state", StateBody "stop" true) ∨ m = "DELETE" ∧ b = (node_path project i EmptyString, NoBody) →
    guarded may_remove ((tr ++ k) ++ [Ev (Request c m b.1 b.2) x])) as Hadd.
  { intros k m b x Hk Hm. apply guarded_snoc; [done|]. split; [done|]. exists l, i. split; [apply Exists_app; by left|].
    split; [done|]. split; [done|]. destruct Hm as [[-> ->]|[-> ->]]; [by left|by right]. }
  pose proof (Hadd [] "PUT" (node_path project i "/state", StateBody "stop" true)) as Hstop. rewrite app_nil_r in Hstop. cbn [fst snd] in Hstop.
  apply wp_bind, wp_try, wp_bind, wp_attempt.
  all: intros x; cbn [wp].
  all: set (tr1 := tr ++ [_]); assert (guarded may_remove tr1) as H1 by (apply Hstop; [done|by left]).
  all: assert (∃ k, tr1 = tr ++ k) as [k1 Hk1] by (by eexists).
  all: apply wp_bind, wp_reading; [done|emits_all; first [exact I|apply wait_emits]|].
  all: intros [u|e|] evs H2; [|by split..]; rewrite Hk1, <-(assoc_L (++)) in *.
  all: pose proof (λ x, Hadd (k1 ++ evs) "DELETE" (node_path project i EmptyString, NoBody) x H2 (or_intror (conj eq_refl eq_refl))) as Hdel.
  all: cbn [fst snd] in Hdel; apply wp_bind, wp_attempt; [intros f; split; [apply Hdel|done]|].
  all: intros del; apply wp_reading; [apply Hdel|emits_all; first [exact I|apply wait_emits]|].
  all: intros r evs' H3; split; [done|]; intros _; apply Exists_app; left; apply Exists_app; right; by left.
Qed.

Lemma wp_remove_each l tr : guarded may_remove tr → (∀ i, i ∈ l → listed_node i tr) →
  wp (each (remove_node c project) l) (λ r tr', guarded may_remove tr' ∧ (r = Returned tt → ∀ i, i ∈ l → Exists (node_deleted i) tr')) tr.
Proof.
  revert tr. induction l as [|i l IH]; intros tr Hg Hl; [split; [done|]; by intros _ i ?%elem_of_nil|]. cbn [each].
  apply wp_bind. eapply wp_mono; [apply wp_extends, wp_remove_node; [done|apply Hl; by left]|].
  intros [[]|e|] tr1 [[H1 Hd] [evs ->]]; [|by split..]. specialize (Hd eq_refl).
  eapply wp_mono; [apply wp_extends, IH; [done|intros j Hj; apply listed_node_app, Hl; by right]|].
  intros r tr2 [[H2 Hr] [evs' ->]]. split; [done|]. intros Heq j [-> |Hj]%elem_of_cons; [apply Exists_app; by left|by apply Hr].
Qed.

Lemma outwait_emits op : emits is_get (outwait c name op).
Proof.
  unfold outwait. emits_all; [|apply wait_emits]. generalize (ro_instances op) as urls. intros urls.
  induction urls as [|u urls IH]; [exact I|]. cbn [some_ours]. unfold ours. emits_all. exact IH.
Qed.

Definition removed_all (r : outcome exn (list string)) (tr : list ev) : Prop :=
  ∀ names, r = Returned names → ∃ l, Exists (nodes_listed l) tr
    ∧ names = ni_name <$> js_filter (of_cluster name namespace) l
    ∧ ∀ i, i ∈ l → of_cluster name namespace i = true → Exists (node_deleted i) tr.

Lemma wp_removeLeftovers tr : guarded may_remove tr →
  wp (removeLeftovers c project name namespace) (λ r tr', guarded may_remove tr' ∧ removed_all r tr') tr.
Proof.
  intros Hg. unfold removeLeftovers. apply wp_bind, wp_reading; [done|emits_all; exact I|]. intros [ops|e|] e1 H1; [|by split..].
  apply wp_bind, wp_reading; [done|apply emits_each; intros op; apply outwait_emits|]. intros [u|e|] e2 H2; [|by split..].
  apply wp_bind, wp_attempt; [intros f; split; [by apply guarded_snoc|done]|]. intros l.
  set (tr3 := _ ++ [_]). assert (guarded may_remove tr3) as H3 by (by apply guarded_snoc).
  assert (Exists (nodes_listed l) tr3) as Hl by (apply Exists_app; right; by left). clearbody tr3.
  apply wp_bind. eapply wp_mono.
  { apply wp_extends, wp_remove_each; [done|]. intros i [Hin Hof]%elem_of_js_filter. by exists l. }
  intros [[]|e|] tr4 [[H4 Hr] [evs ->]]; [|by split..]. split; [done|]. intros names [= <-]. exists l.
  split; [apply Exists_app; by left|]. split; [done|]. intros i Hin Hof. apply Hr; [done|]. by apply elem_of_js_filter.
Qed.
End leftovers.

(** Removing what a deleted cluster left stops and deletes only instances that bear its keys in the
    tenant's project; and when it returns, every one that was listed was asked to be deleted and Incus
    accepted it. *)
Theorem leftovers_only_ours c project name namespace orc :
  let r := run orc (removeLeftovers c project name namespace) [] in
  guarded (may_remove c project name namespace) r.2 ∧ removed_all c project name namespace r.1 r.2.
Proof. exact (wp_run _ _ orc [] (wp_removeLeftovers c project name namespace [] (guarded_nil _))). Qed.

(** ** Examples *)

Definition demo_forward (id : string) (port : Z) (target : string) : ForwardSpec :=
  {| fs_network := "incusbr0"; fs_member := "n1"; fs_host := "10.0.0.6"; fs_port := port; fs_target := target; fs_id := id |}.
Definition spec_a : ForwardSpec := demo_forward "a" 16443 "10.1.0.2".
Definition spec_b : ForwardSpec := demo_forward "b" 16444 "10.1.0.3".
Definition ensured (f : ForwardSpec) (s : option Forward) : option Forward :=
  match ensure_change f s with Ok ch => apply_change ch s | Throw _ => s end.
Definition both : option Forward := ensured spec_b (ensured spec_a None).

Example demo_shared :
  pt_listen_port <$> ports both = ["16443"; "16444"]
  ∧ pt_listen_port <$> ports (apply_change (remove_change spec_a both) both) = ["16444"]
  ∧ apply_change (remove_change spec_b (ensured spec_b None)) (ensured spec_b None) = None.
Proof. vm_compute. done. Qed.

(** The port of "b" is back after it was removed, and a later cluster that is given the port is refused. *)
Definition retargeted : ForwardSpec := demo_forward "a" 16443 "10.1.0.9".
Definition after_race : option Forward :=
  match ensure_change retargeted both with Ok ch => apply_change ch (apply_change (remove_change spec_b both) both) | Throw _ => None end.
Lemma port_lost_to_a_removed_cluster :
  ensure_change (demo_forward "c" 16444 "10.1.0.7") after_race
  = throw 409 "port_in_use" "Port 16444 on 10.0.0.6 is already forwarded (incuscloud k8s b)".
Proof. vm_compute. reflexivity. Qed.

Lemma remove_undoes_ensure_witness :
  apply_change (remove_change spec_b both) both = ensured spec_a None.
Proof.
  assert (ensure_change spec_b (ensured spec_a None) = Ok (Updated (default {| fw_description := EmptyString; fw_config := ∅; fw_ports := [] |} both))) as He
    by (vm_compute; reflexivity).
  apply (remove_undoes_ensure spec_b (ensured spec_a None) (Updated (default {| fw_description := EmptyString; fw_config := ∅; fw_ports := [] |} both))).
  - assert (every (λ p, negb (is_ours spec_b p)) (ports (ensured spec_a None)) = true) as Hall by (vm_compute; reflexivity).
    intros p Hp. by apply negb_true_iff, (proj1 (every_spec _ _) Hall).
  - intros e He' _. injection He' as <-. discriminate.
  - exact He.
Defined.

Lemma interleaved_removal_undone_witness :
  port_of spec_b ∈ ports after_race.
Proof.
  apply (interleaved_removal_undone retargeted spec_b both (port_of spec_b) (Updated (default {| fw_description := EmptyString; fw_config := ∅; fw_ports := [] |} (ensured retargeted both)))).
  - discriminate.
  - right. left.
  - vm_compute. reflexivity.
  - vm_compute. reflexivity.
  - discriminate.
Defined.
