(* ===== verification/K8sJobs.v ===== *)
(** * K8sJobs: creating, deleting and watching Kubernetes clusters

    Models [k8s/jobs.ts], [k8s/credentials.ts], [k8s/manifests.ts], the
    installation of [k8s/metallb.ts] and a pass of [k8s/worker.ts]: what the
    jobs and the synchronisation ask of the management cluster, of Incus and of
    the database. The documents of the YAML assets are parameters; the loops
    that wait have fuel. *)

From S2P Require Import Fleet MetalLB K8sModel Jobs.
From S2P Require Import Prelude JsString Effects Uri Projects Preflight Leases Program Services Transfer Mobility Endpoint.

(** ** Manifests ([manifests.ts]) *)

Section manifests.
Context (classDocs : list KubeObject) (flannelYaml : string).

Definition object (api kind : string) (ns : option string) (name : string) (rest : list (string * Json)) : KubeObject :=
  {| ko_apiVersion := api; ko_kind := kind; ko_namespace := ns; ko_name := name; ko_rest := rest |}.
Definition strs (l : list string) : Json := JArr (JStr <$> l).

Definition classBundle : list KubeObject :=
  object "v1" "Namespace" None CLASS_NAMESPACE []
  :: ((λ d, object (ko_apiVersion d) (ko_kind d) (Some CLASS_NAMESPACE) (ko_name d) (ko_rest d)) <$> classDocs).

Definition tenantBundle (slug : string) : list KubeObject :=
  let namespace := namespaceOf slug in
  [object "v1" "Namespace" None namespace [("labels", JObj [("incuscloud.io/tenant", JStr slug)])];
   object "v1" "ConfigMap" (Some namespace) "kube-flannel" [("data", JObj [("cni.yaml", JStr flannelYaml)])];
   object "addons.cluster.x-k8s.io/v1beta2" "ClusterResourceSet" (Some namespace) "kube-flannel"
     [("spec", JObj [("clusterSelector", JObj [("matchLabels", JObj [("capn.cluster.x-k8s.io/deploy-kube-flannel", JStr "true")])]);
                     ("resources", JArr [JObj [("kind", JStr "ConfigMap"); ("name", JStr "kube-flannel")]]);
                     ("strategy", JStr "ApplyOnce")])]].
End manifests.

Definition identitySecret (namespace name server serverCert cert key project : string) : KubeObject :=
  object "v1" "Secret" (Some namespace) name
    [("labels", JObj [("clusterctl.cluster.x-k8s.io/move", JStr "true"); ("incuscloud.io/credentials", JStr "true")]);
     ("type", JStr "Opaque");
     ("stringData", JObj [("server", JStr server); ("server-crt", JStr serverCert); ("client-crt", JStr cert); ("client-key", JStr key);
                          ("project", JStr project)])].

Definition instanceOf (m : MachineSpec) (spec : K8sSpec) : Json :=
  JObj [("type", JStr match ma_type m with K8sModel.Container => "container" | K8sModel.VirtualMachine => "virtual-machine" end);
        ("flavor", JStr (ma_flavor m)); ("profiles", strs (ma_profiles m)); ("devices", JArr []);
        ("image", JStr (image spec)); ("installKubeadm", JBool (installKubeadm spec)); ("target", JStr (ma_target m))].

Definition loadBalancerOf (lb : LbSpec) : Json :=
  match lb with
  | LbKubeVip host interface =>
      JObj [("kube-vip", JObj (("host", JStr host) :: if truthy_str interface then [("interface", JStr interface)] else []))]
  | LbOvn host networkName => JObj [("ovn", JObj [("host", JStr host); ("networkName", JStr networkName)])]
  | LbInstance kind flavor profiles target =>
      let plain := bool_decide (profiles = ["default"]) in
      JObj [(match kind with Lxc => "lxc" | Oci => "oci" end,
             JObj ([("flavor", JStr flavor)]
                   ++ (if negb (bool_decide (profiles = [])) && negb plain then [("profiles", strs profiles)] else [])
                   ++ (if truthy_str target then [("target", JStr target)] else [])))]
  end.

Definition CLUSTER_API : string := "cluster.x-k8s.io/v1beta2".

(** [className]: the cluster's ClusterClass when it already has one. *)
Definition clusterManifest (r : K8sRow) (className : option string) (secretName : string) : KubeObject :=
  let spec := kr_spec r in
  object CLUSTER_API "Cluster" (Some (kr_namespace r)) (kr_name r)
    [("labels", JObj ((if flannel spec then [("capn.cluster.x-k8s.io/deploy-kube-flannel", JStr "true")] else [])
                      ++ [("incuscloud.io/k8s-id", JStr (kr_id r))]));
     ("spec", JObj
       [("clusterNetwork", JObj [("pods", JObj [("cidrBlocks", strs [podCidr spec])]); ("services", JObj [("cidrBlocks", strs [serviceCidr spec])]);
                                 ("serviceDomain", JStr "cluster.local")]);
        ("controlPlaneEndpoint", JObj [("host", JStr (kr_endpointHost r)); ("port", JNum (kr_endpointPort r))]);
        ("topology", JObj
          [("classRef", JObj [("name", JStr (default CLASS_NAME className)); ("namespace", JStr CLASS_NAMESPACE)]);
           ("version", JStr (kr_version r));
           ("controlPlane", JObj [("replicas", JNum (kr_controlPlanes r))]);
           ("variables", JArr
             [JObj [("name", JStr "secretRef"); ("value", JStr secretName)];
              JObj [("name", JStr "privileged"); ("value", JBool (privileged spec))];
              JObj [("name", JStr "loadBalancer"); ("value", loadBalancerOf (loadBalancer spec))];
              JObj [("name", JStr "instance"); ("value", instanceOf (controlPlane spec) spec)];
              JObj [("name", JStr "workerInstance"); ("value", instanceOf (worker spec) spec)]]);
           ("workers", JObj [("machineDeployments", JArr [JObj [("class", JStr "default-worker"); ("name", JStr "md-0");
                                                                ("replicas", JNum (kr_workers r))]])])])])].

(** ** Credentials ([credentials.ts]) *)

Definition secretNameOf (clusterName : string) : string := "incus-" +++ clusterName.

(** A text without the places where [pat] is; [skip] characters are still to leave out. *)
Fixpoint without (pat : string) (skip : nat) (s : string) : string :=
  match s with
  | EmptyString => EmptyString
  | String ch r =>
      match skip with
      | S k => without pat k r
      | O => if starts_with pat s then without pat (String.length pat - 1) r else String ch (without pat 0 r)
      end
  end.
Fixpoint without_space (s : string) : string :=
  match s with EmptyString => EmptyString | String ch r => if is_js_space ch then without_space r else String ch (without_space r) end.
Definition derOf (pem : string) : string :=
  without_space (without "-----END CERTIFICATE-----" 0 (without "-----BEGIN CERTIFICATE-----" 0 pem)).

Section credentials.
Context (tenant : K8sTenant) (cl : Cluster).

Definition untrust (fingerprint : string) : P unit :=
  try_catch (_ ← attempt (Request (cl_id cl) "DELETE" ("/1.0/certificates/" +++ fingerprint) NoBody); Ret tt)
    (λ e, if is_missing e then Ret tt else Raise e).

(** A transaction that holds the lock on one tenant's credentials on one cluster. *)
Definition locked {A} (p : P A) : P A :=
  _ ← attempt (Db (LockCredentials (kt_id tenant) (cl_id cl)));
  r ← try_catch p (λ e, _ ← quietly (attempt (Db Rollback)); Raise e);
  _ ← attempt (Db Commit);
  Ret r.

Definition secret_there : P bool :=
  s ← attempt (Kube Management (KGet "v1" "Secret" (Some (namespaceOf (kt_slug tenant))) (secretNameOf (cl_name cl))));
  Ret match s with Some _ => true | None => false end.

Definition issue_new (project : string) : P string :=
  let name := "incuscloud-k8s-" +++ kt_slug tenant in
  cert ← ask (NewCertificate name);
  let '(pem, key, fingerprint) := cert in
  _ ← attempt (Request (cl_id cl) "POST" "/1.0/certificates" (CertificateBody name (derOf pem) true [project]));
  _ ← try_catch
        (attempt (Kube Management (KApply (identitySecret (namespaceOf (kt_slug tenant)) (secretNameOf (cl_name cl)) (cl_url cl) (cl_serverCert cl) pem key project))))
        (λ e, _ ← untrust fingerprint; Raise e);
  _ ← attempt (Db (InsertCredential (kt_id tenant) (cl_id cl) fingerprint));
  Ret (secretNameOf (cl_name cl)).

Definition issue (project : string) : P string :=
  row ← attempt (Db (CredentialOf (kt_id tenant) (cl_id cl)));
  match row with
  | Some fingerprint =>
      there ← secret_there;
      if (there : bool) then Ret (secretNameOf (cl_name cl))
      else
        _ ← untrust fingerprint;
        _ ← attempt (Db (DeleteCredential (kt_id tenant) (cl_id cl)));
        issue_new project
  | None => issue_new project
  end.
Definition ensureCredentials (project : string) : P string := locked (issue project).

Definition revokeCredentials : P unit :=
  row ← attempt (Db (CredentialOf (kt_id tenant) (cl_id cl)));
  _ ← match row with Some fingerprint => untrust fingerprint | None => Ret tt end;
  _ ← attempt (Kube Management (KDelete "v1" "Secret" (Some (namespaceOf (kt_slug tenant))) (secretNameOf (cl_name cl))));
  attempt (Db (DeleteCredential (kt_id tenant) (cl_id cl))).
Definition revokeUnlessUsed (except : string) : P bool :=
  locked
    (others ← attempt (Db (OtherK8s (kt_id tenant) (cl_id cl) except));
     if (others =? 0)%nat then _ ← revokeCredentials; Ret true else Ret false).
End credentials.

(** ** The jobs ([jobs.ts]) *)

Record Loaded := { ld_row : K8sRow; ld_tenant : K8sTenant; ld_project : string; ld_cluster : Cluster }.

Definition load (k8sId : string) : P Loaded :=
  row ← attempt (Db (K8sById k8sId));
  match row with
  | None => raise 404 "not_found" "Kubernetes cluster not found"
  | Some row =>
      tenant ← attempt (Db (K8sTenantById (kr_tenantId row)));
      placement ← attempt (Db (PlacementOf (kr_tenantId row) (kr_clusterId row)));
      match tenant, placement with
      | Some tenant, Some pl =>
          cl ← clientFor (kr_clusterId row);
          Ret {| ld_row := row; ld_tenant := tenant; ld_project := pl_project pl; ld_cluster := cl |}
      | _, _ => raise 409 "conflict" "The tenant is no longer placed on that cluster"
      end
  end.

Definition bracket (host : string) : string := if has_char ":" host then "[" +++ host +++ "]" else host.
Definition endpointUrl (host : string) (port : Z) : string := "https://" +++ bracket host +++ ":" +++ show_Z port.

Definition condition (o : option KubeSeen) (type : string) : option Condition :=
  o ≫= λ o, js_find (λ c, bool_decide (cd_type c = type)) (ks_conditions o).
Definition is_true (c : option Condition) : bool := match c with Some c => bool_decide (cd_status c = "True") | None => false end.

Section jobs.
Context (fuel : nat) (classDocs : list KubeObject) (flannelYaml : string).

(** Looks until there is a value; what a look without one says is the message of the timeout. *)
Fixpoint wait_for {T} (n : nat) (look : P (T + string)) : P T :=
  match n with
  | O => Spin
  | S n =>
      _ ← stop_if_aborted;
      v ← look;
      match v with
      | inl v => Ret v
      | inr why =>
          late ← ask Late;
          if (late : bool) then raise 504 "timeout" why else _ ← attempt Sleep; wait_for n look
      end
  end.

Definition told (stage message : string) : P unit := attempt (Progress stage (Some message)).

Section one.
Context (l : Loaded).
Abbreviation row := (ld_row l).
Abbreviation c := (kr_clusterId (ld_row l)).

Definition placement_ready : P (unit + string) :=
  pl ← attempt (Db (PlacementOf (kr_tenantId row) c));
  match pl with
  | Some pl =>
      if bool_decide (pl_status pl = "ready") then Ret (inl tt)
      else Ret (inr ("The tenant's project " +++ ld_project l +++ " on " +++ cl_name (ld_cluster l) +++ " is not ready (" +++ pl_status pl
                     +++ (if truthy_str (pl_message pl) then ": " +++ pl_message pl else EmptyString) +++ ")"))
  | None => Ret (inr ("The tenant's project " +++ ld_project l +++ " on " +++ cl_name (ld_cluster l) +++ " is not ready (removed)"))
  end.
Definition await_placement : P unit :=
  ready ← placement_ready;
  match ready with
  | inl _ => Ret tt
  | inr _ => _ ← told "placement" ("waiting for " +++ ld_project l +++ " on " +++ cl_name (ld_cluster l)); wait_for fuel placement_ready
  end.

Definition apply (o : KubeObject) : P unit := attempt (Kube Management (KApply o)).
Definition get_cluster : P (option KubeSeen) := attempt (Kube Management (KGet CLUSTER_API "Cluster" (Some (kr_namespace row)) (kr_name row))).

Definition lb_ready : P (string + string) :=
  found ← findLb c (ld_project l) (kr_name row) (kr_namespace row);
  match found ≫= lbf_address with
  | Some address => if truthy_str address then Ret (inl address)
                    else Ret (inr ("The load balancer of " +++ kr_name row +++ " did not get an address in time"))
  | None => Ret (inr ("The load balancer of " +++ kr_name row +++ " did not get an address in time"))
  end.
Definition forward_of (network target : string) : ForwardSpec :=
  {| fs_network := network; fs_member := kr_lbMember row; fs_host := kr_endpointHost row; fs_port := kr_endpointPort row;
     fs_target := target; fs_id := kr_id row |}.
Definition set_forward : P unit :=
  if lbIsInstance (loadBalancer (kr_spec row)) then
    _ ← told "load-balancer" "waiting for its address";
    address ← wait_for fuel lb_ready;
    _ ← told "forward" (kr_endpointHost row +++ ":" +++ show_Z (kr_endpointPort row) +++ " to " +++ address +++ ":6443");
    network ← defaultNetwork c (ld_project l);
    _ ← ensureForward c (forward_of network address);
    Ret tt
  else Ret tt.

Definition control_plane_ready : P (unit + string) :=
  seen ← get_cluster;
  let cond := condition seen "ControlPlaneAvailable" in
  if is_true cond then Ret (inl tt)
  else
    let why := default EmptyString (cond ≫= cd_message) in
    Ret (inr ("The control plane of " +++ kr_name row +++ " did not become available in time"
              +++ (if truthy_str why then " (" +++ why +++ ")" else EmptyString))).

Definition metallb_job : Jobs.NewJob :=
  {| Jobs.n_type := "k8s-metallb"; Jobs.n_payload := [("k8sId", JStr (kr_id row)); ("name", JStr (kr_name row))];
     Jobs.n_actorType := "system"; Jobs.n_actorId := "k8s-create"; Jobs.n_tenantId := Some (kr_tenantId row);
     Jobs.n_clusterIds := [c]; Jobs.n_instanceKey := None |}.

Definition create_block : P string :=
  _ ← await_placement;
  _ ← told "namespace" (kr_namespace row);
  _ ← each apply (classBundle classDocs ++ tenantBundle flannelYaml (kt_slug (ld_tenant l)));
  _ ← told "credentials" ("a certificate for " +++ ld_project l +++ " on " +++ cl_name (ld_cluster l));
  secretName ← ensureCredentials (ld_tenant l) (ld_cluster l) (ld_project l);
  _ ← told "cluster" (kr_name row +++ " on " +++ endpointUrl (kr_endpointHost row) (kr_endpointPort row));
  _ ← apply (clusterManifest row None secretName);
  _ ← attempt (Db (SetK8s (kr_id row) (K8sSet K8sProvisioning None)));
  _ ← set_forward;
  _ ← told "control-plane" "waiting until it is available";
  _ ← wait_for fuel control_plane_ready;
  _ ← attempt (Db (SetK8s (kr_id row) (K8sSet K8sReady (Some EmptyString))));
  _ ← match metallb (kr_spec row) with Some _ => _ ← attempt (Db (Enqueue metallb_job)); Ret tt | None => Ret tt end;
  Ret (endpointUrl (kr_endpointHost row) (kr_endpointPort row)).

Definition create_loaded : P string :=
  try_catch create_block
    (λ e, _ ← attempt (Db (SetK8s (kr_id row) (K8sFailed (str_take 500 (exn_message e))))); Raise e).

(** *** Deleting *)

Definition no_create_running : P (unit + string) :=
  n ← attempt (Db (RunningCreates (kr_id row)));
  if (n =? 0)%nat then Ret (inl tt) else Ret (inr ("The create of " +++ kr_name row +++ " did not stop in time")).
Definition cluster_gone : P (unit + string) :=
  seen ← get_cluster;
  match seen with Some _ => Ret (inr (kr_name row +++ " was not removed in time")) | None => Ret (inl tt) end.

Definition drop_forward : P unit :=
  if lbIsInstance (loadBalancer (kr_spec row)) then
    _ ← told "forward" (kr_endpointHost row +++ ":" +++ show_Z (kr_endpointPort row));
    network ← defaultNetwork c (ld_project l);
    removeForward c (forward_of network EmptyString)
  else Ret tt.

Definition remove_cluster : P unit :=
  _ ← told "cluster" ("deleting " +++ kr_name row +++ " and its nodes");
  _ ← attempt (Kube Management (KDelete CLUSTER_API "Cluster" (Some (kr_namespace row)) (kr_name row)));
  wait_for fuel cluster_gone.

Definition delete_loaded : P unit :=
  _ ← attempt (Db (SetK8s (kr_id row) (K8sSet K8sDeleting None)));
  _ ← wait_for fuel no_create_running;
  _ ← remove_cluster;
  _ ← told "leftovers" ("instances of " +++ kr_name row +++ " left in " +++ ld_project l);
  _ ← removeLeftovers c (ld_project l) (kr_name row) (kr_namespace row);
  _ ← drop_forward;
  _ ← told "credentials" ("revoking the certificate on " +++ cl_name (ld_cluster l) +++ " if no other cluster uses it");
  _ ← revokeUnlessUsed (ld_tenant l) (ld_cluster l) (kr_id row);
  _ ← attempt (Db (DeleteK8s (kr_id row)));
  left ← attempt (Db (K8sOfTenant (kr_tenantId row)));
  if (left =? 0)%nat then _ ← attempt (Kube Management (KDelete "v1" "Namespace" None (kr_namespace row))); Ret tt else Ret tt.
End one.

Definition k8sCreateHandler (k8sId : string) : P string := load k8sId ≫= create_loaded.
Definition k8sDeleteHandler (k8sId : string) : P unit := load k8sId ≫= delete_loaded.

(** *** MetalLB ([metallb.ts]) *)

Definition controllerAvailable (w : KubeAt) : P bool :=
  d ← attempt (Kube w (KGet "apps/v1" "Deployment" (Some METALLB_NAMESPACE) "controller"));
  Ret (some (λ x, bool_decide (cd_type x = "Available") && bool_decide (cd_status x = "True")) (default [] (ks_conditions <$> d))).

Fixpoint await_controller (n : nat) (w : KubeAt) : P unit :=
  match n with
  | O => Spin
  | S n =>
      up ← controllerAvailable w;
      if (up : bool) then Ret tt
      else
        late ← ask Late;
        if (late : bool) then Raise (Fault (Error "MetalLB's controller did not become available in time"))
        else _ ← attempt Sleep; await_controller n w
  end.

Definition order_of (o : KubeObject) : Z :=
  if bool_decide (ko_kind o = "CustomResourceDefinition") then 0 else if bool_decide (ko_kind o = "Namespace") then 1 else 2.
(** Sorting keeps the manifest's order of equals. *)
Definition metallb_base (docs : list KubeObject) : list KubeObject :=
  js_sort (λ a b, Z.compare (order_of a) (order_of b)) (js_filter (λ d, truthy_str (ko_kind d)) docs).
Definition metallb_pool (addresses : list string) : list KubeObject :=
  [object "metallb.io/v1beta1" "IPAddressPool" (Some METALLB_NAMESPACE) METALLB_POOL
     [("spec", JObj [("addresses", JArr ((λ a, JStr (trim a)) <$> addresses))])];
   object "metallb.io/v1beta1" "L2Advertisement" (Some METALLB_NAMESPACE) METALLB_POOL
     [("spec", JObj [("ipAddressPools", JArr [JStr METALLB_POOL])])]].

Definition apply_to (w : KubeAt) (o : KubeObject) : P unit := attempt (Kube w (KApply o)).
Definition installMetalLB (w : KubeAt) (base pool : list KubeObject) : P unit :=
  _ ← each (apply_to w) base;
  _ ← await_controller fuel w;
  each (apply_to w) pool.

(** [manifest]: the documents fetched. *)
Definition k8sMetallbHandler (manifest : list KubeObject) (k8sId : string) : P (list string) :=
  l ← load k8sId;
  secret ← attempt (Kube Management (KGet "v1" "Secret" (Some (kr_namespace (ld_row l))) (kr_name (ld_row l) +++ "-kubeconfig")));
  match secret ≫= ks_value with
  | None => Raise (Fault (Error ("The kubeconfig of " +++ kr_name (ld_row l) +++ " is not available yet")))
  | Some text =>
      if negb (truthy_str text) then Raise (Fault (Error ("The kubeconfig of " +++ kr_name (ld_row l) +++ " is not available yet")))
      else
        let w := Workload text in
        let addresses := default [] (metallb (kr_spec (ld_row l))) in
        match addresses with
        | [] =>
            _ ← told "pool" "removing the address pool";
            _ ← attempt (Kube w (KDelete "metallb.io/v1beta1" "L2Advertisement" (Some METALLB_NAMESPACE) METALLB_POOL));
            _ ← attempt (Kube w (KDelete "metallb.io/v1beta1" "IPAddressPool" (Some METALLB_NAMESPACE) METALLB_POOL));
            Ret []
        | _ =>
            _ ← told "metallb" ("installing MetalLB with " +++ join ", " addresses);
            _ ← installMetalLB w (metallb_base manifest) (metallb_pool addresses);
            Ret addresses
        end
  end.
End jobs.

(** ** The synchronisation ([worker.ts]) *)

Definition OWNED : list K8sStatus := [K8sReady; K8sDegraded; K8sError].
Record Assessment := { as_status : K8sStatus; as_message : string; as_nodes : nat; as_nodesReady : nat }.

Definition assess (r : K8sRow) (cluster : option KubeSeen) (machines : list KubeSeen) : Assessment :=
  let nodes := length machines in
  let nodesReady := length (js_filter (λ m, is_true (condition (Some m) "Ready")) machines) in
  let seen st msg := {| as_status := st; as_message := msg; as_nodes := nodes; as_nodesReady := nodesReady |} in
  match cluster with
  | None => seen K8sError "Its Cluster is missing from the management cluster"
  | Some _ =>
      let cp := condition cluster "ControlPlaneAvailable" in
      let why := default EmptyString (cp ≫= cd_message) in
      if negb (is_true cp) then
        seen K8sDegraded ("Control plane not available" +++ (if truthy_str why then ": " +++ why else EmptyString))
      else
        let want := (kr_controlPlanes r + kr_workers r)%Z in
        if (Z.of_nat nodesReady <? want)%Z then
          seen K8sDegraded (show_Z (Z.of_nat nodesReady) +++ " of " +++ show_Z want +++ " nodes ready")
        else seen K8sReady EmptyString
  end.

(** What a statement leaves of a row's status and message. *)
Definition told_row (ch : K8sChange) (now : K8sStatus * string) : K8sStatus * string :=
  match ch with
  | K8sSet s message => (s, default now.2 message)
  | K8sFailed message => if bool_decide (now.1 = K8sDeleting) then now else (K8sError, message)
  | K8sSeen seen _ _ => default now seen
  end.

Definition owned (r : K8sRow) : bool := includes OWNED (kr_status r).

Definition retarget (r : K8sRow) (project : string) : P unit :=
  _ ← clientFor (kr_clusterId r);
  found ← findLb (kr_clusterId r) project (kr_name r) (kr_namespace r);
  match found ≫= lbf_address with
  | None => Ret tt
  | Some address =>
      if negb (truthy_str address) then Ret tt
      else
        network ← defaultNetwork (kr_clusterId r) project;
        _ ← ensureForward (kr_clusterId r)
              {| fs_network := network; fs_member := kr_lbMember r; fs_host := kr_endpointHost r; fs_port := kr_endpointPort r;
                 fs_target := address; fs_id := kr_id r |};
        Ret tt
  end.

(** A failure is logged, and the next row is read. *)
Definition sync_row (rp : K8sRow * string) : P unit :=
  quietly
    (let r := rp.1 in
     cluster ← attempt (Kube Management (KGet CLUSTER_API "Cluster" (Some (kr_namespace r)) (kr_name r)));
     machines ← attempt (Kube Management (KList CLUSTER_API "Machine" (Some (kr_namespace r)) ("cluster.x-k8s.io/cluster-name=" +++ kr_name r)));
     let seen := assess r cluster machines in
     _ ← attempt (Db (SetK8s (kr_id r)
           (K8sSeen (if owned r then Some (as_status seen, as_message seen) else None) (as_nodes seen) (as_nodesReady seen))));
     match cluster with
     | Some _ => if owned r && lbIsInstance (loadBalancer (kr_spec r)) then retarget r rp.2 else Ret tt
     | None => Ret tt
     end).

(** A pass, once the lease is held ([Jobs] models leases), until the worker is stopped. *)
Fixpoint sync_rows (rows : list (K8sRow * string)) : P unit :=
  match rows with
  | [] => Ret tt
  | rp :: rows =>
      stopped ← ask Aborted;
      match stopped with Some _ => Ret tt | None => _ ← sync_row rp; sync_rows rows end
  end.
Definition sync_pass : P unit := rows ← attempt (Db K8sToSync); sync_rows rows.
