(* ===== verification/K8sJobsTheory.v ===== *)
(** * K8sJobsTheory: clusters are announced when they are there, and forgotten when they are gone

    What every run of the jobs of [K8sJobs] does, whatever the management
    cluster, Incus and the database answer. *)

From S2P Require Import Fleet MetalLB K8sModel Jobs.
From S2P Require Import Prelude JsString Effects Uri Projects Preflight Leases Program Services Transfer Mobility Endpoint K8sJobs.

(** ** Waiting *)

Lemma wp_wait_for {T} n (look : P (T + string)) (R : T → list ev → Prop) tr :
  (∀ tr, wp look (λ r tr', ∀ v, r = Returned (inl v) → R v tr') tr) →
  wp (wait_for n look) (λ r tr', ∀ v, r = Returned v → R v tr') tr.
Proof.
  intros Hlook. revert tr. induction n as [|n IH]; intros tr; [done|]. cbn [wait_for].
  apply wp_bind, wp_stop_if_aborted; [done|]. apply wp_bind, (wp_mono _ _ _ _ (Hlook _)).
  intros [[v|why]|e|] tr1 Hv; [|..]; try done.
  - intros v' [= <-]. by apply Hv.
  - apply wp_bind, wp_ask. intros [|]; [done|]. apply wp_bind, wp_attempt; [done|]. intros u. apply IH.
Qed.
Lemma emits_wait_for F {T} n (look : P (T + string)) :
  emits F look → (∀ x, F (Ev Aborted x)) → (∀ x, F (Ev Late x)) → (∀ x, F (Ev Sleep x)) → emits F (wait_for n look).
Proof.
  intros Hl Ha Hla Hs. induction n as [|n IH]; [exact I|]. cbn [wait_for]. unfold stop_if_aborted. emits_all; auto.
Qed.

(** ** Credentials *)

Section credentials.
Context (tenant : K8sTenant) (cl : Cluster) (project : string).

(** A certificate is made, with its key and fingerprint; Incus takes one to trust it; the secret with a certificate and
    its key is stored; one is asked to be untrusted; its fingerprint is recorded; the transaction is committed. *)
Definition made (x : string * string * string) (e : ev) : Prop :=
  match e with Ev (NewCertificate _) y => y = x | _ => False end.
Definition trusted (der : string) (e : ev) : Prop :=
  match e with Ev (Request c "POST" _ (CertificateBody _ d _ _)) (inr _) => c = cl_id cl ∧ d = der | _ => False end.
Definition stored (pem key : string) (e : ev) : Prop :=
  match e with
  | Ev (Kube Management (KApply o)) (inr _) =>
      o = identitySecret (namespaceOf (kt_slug tenant)) (secretNameOf (cl_name cl)) (cl_url cl) (cl_serverCert cl) pem key project
  | _ => False
  end.
Definition untrusted (fingerprint : string) (e : ev) : Prop :=
  match e with Ev (Request c "DELETE" path _) _ => c = cl_id cl ∧ path = "/1.0/certificates/" +++ fingerprint | _ => False end.
Definition recorded (fingerprint : string) (e : ev) : Prop :=
  match e with Ev (Db (InsertCredential t c f)) (inr _) => t = kt_id tenant ∧ c = cl_id cl ∧ f = fingerprint | _ => False end.
Definition committed (e : ev) : Prop := match e with Ev (Db Commit) (inr _) => True | _ => False end.

(** A certificate of this run that Incus took is in the secret with its key, or was asked to be untrusted. *)
Definition held (tr : list ev) (der : string) : Prop :=
  ∃ pem key fingerprint, der = derOf pem ∧ Exists (made (pem, key, fingerprint)) tr
    ∧ (Exists (stored pem key) tr ∨ Exists (untrusted fingerprint) tr).
Definition no_orphan (tr : list ev) : Prop := ∀ der, Exists (trusted der) tr → held tr der.
(** And it is in the secret, with its fingerprint recorded. *)
Definition kept (tr : list ev) (der : string) : Prop :=
  ∃ pem key fingerprint, der = derOf pem ∧ Exists (made (pem, key, fingerprint)) tr
    ∧ Exists (stored pem key) tr ∧ Exists (recorded fingerprint) tr.
Definition all_kept (tr : list ev) : Prop := ∀ der, Exists (trusted der) tr → kept tr der.

(** Restricted to the tenant's project. *)
Definition restricted_to_project (pre : list ev) (e : ev) : Prop :=
  match e with Ev (Request _ _ _ (CertificateBody _ _ restricted projects)) _ => restricted = true ∧ projects = [project] | _ => True end.

Definition trusts_none (e : ev) : Prop := match e with Ev (Request _ _ _ (CertificateBody _ _ _ _)) _ => False | _ => True end.
Lemma trusts_none_not e : trusts_none e → ∀ der, ¬ trusted der e.
Proof. intros H der. destruct e as [X c x]. destruct c; try tauto. destruct b; simpl in *; repeat case_match; tauto. Qed.
Lemma untrust_emits fingerprint : emits trusts_none (untrust cl fingerprint).
Proof. unfold untrust. emits_all; exact I. Qed.

Definition none_trusted (tr : list ev) : Prop := Forall (λ e, ∀ der, ¬ trusted der e) tr.
Lemma none_trusted_app tr evs : none_trusted tr → Forall trusts_none evs → none_trusted (tr ++ evs).
Proof. intros Ht He. apply Forall_app. split; [done|]. eapply Forall_impl; [exact He|apply trusts_none_not]. Qed.
Lemma none_trusted_no tr der : none_trusted tr → ¬ Exists (trusted der) tr.
Proof. intros Ht (e & Hin & He)%Exists_exists. unfold none_trusted in Ht. rewrite Forall_forall in Ht. by destruct (Ht e Hin der). Qed.
Lemma none_trusted_held tr : none_trusted tr → no_orphan tr ∧ all_kept tr.
Proof. intros Ht. split; intros der Hd; by destruct (none_trusted_no tr der Ht). Qed.

Lemma trusted_before tr evs der : Forall trusts_none evs → Exists (trusted der) (tr ++ evs) → Exists (trusted der) tr.
Proof.
  intros He [Hex|(e & Hin & Ht)%Exists_exists]%Exists_app; [done|].
  rewrite Forall_forall in He. by destruct (trusts_none_not e (He e Hin) der).
Qed.
Lemma trusted_snoc tr e der : Exists (trusted der) (tr ++ [e]) → trusts_none e → Exists (trusted der) tr.
Proof. intros Hd He. apply (trusted_before tr [e]); [by constructor|done]. Qed.
Lemma no_orphan_app tr evs : no_orphan tr → Forall trusts_none evs → no_orphan (tr ++ evs).
Proof.
  intros Hn He der Hd%(trusted_before _ _ _ He). destruct (Hn der Hd) as (pem & key & fp & ? & ? & [?|?]);
    exists pem, key, fp; rewrite !Exists_app; eauto 10.
Qed.
Lemma all_kept_app tr evs : all_kept tr → Forall trusts_none evs → all_kept (tr ++ evs).
Proof.
  intros Hn He der Hd%(trusted_before _ _ _ He). destruct (Hn der Hd) as (pem & key & fp & ? & ? & ? & ?).
  exists pem, key, fp. rewrite !Exists_app. eauto 10.
Qed.

(** The one certificate that a trace trusts. *)
Lemma trusted_only tr pem (e : ev) der : none_trusted tr → (∀ d, trusted d e → d = derOf pem) →
  Exists (trusted der) (tr ++ [e]) → der = derOf pem.
Proof.
  intros Ht He [Hd|Hd]%Exists_app; [by destruct (none_trusted_no tr der Ht)|].
  apply Exists_cons in Hd as [Hd|Hd]; [by apply He|by apply Exists_nil in Hd].
Qed.

Lemma wp_issue_new tr : none_trusted tr →
  wp (issue_new tenant cl project) (λ r tr', no_orphan tr' ∧ (∀ s, r = Returned s → all_kept tr')) tr.
Proof.
  intros Ht. unfold issue_new. apply wp_bind, wp_ask. intros [[pem key] fp]. cbn [wp].
  set (tr1 := tr ++ [_]). assert (none_trusted tr1) as Ht1 by (apply none_trusted_app; [done|by repeat constructor]).
  assert (Exists (made (pem, key, fp)) tr1) as Hg by (apply Exists_app; right; by left). clearbody tr1.
  apply wp_bind, wp_attempt.
  { intros f. split; [|done]. apply none_trusted_held. apply Forall_app. split; [done|]. apply Forall_singleton. simpl. tauto. }
  intros r. set (tr2 := tr1 ++ [_]). assert (Exists (made (pem, key, fp)) tr2) as Hg2 by (apply Exists_app; by left).
  assert (∀ der, Exists (trusted der) tr2 → der = derOf pem) as Honly.
  { intros der. apply trusted_only; [done|]. intros d. simpl. by intros [_ <-]. }
  clearbody tr2. apply wp_bind, wp_try, wp_attempt.
  - intros f. set (tr3 := tr2 ++ [_]). assert (Exists (made (pem, key, fp)) tr3) as Hg3 by (apply Exists_app; by left).
    assert (∀ der, Exists (trusted der) tr3 → der = derOf pem) as Honly3 by (intros der Hd; apply Honly, (trusted_snoc _ _ _ Hd I)).
    clearbody tr3. apply wp_bind, wp_try, wp_bind, wp_attempt; intros x; cbn [wp]; [destruct (is_missing _); cbn [wp]|];
      (split; [|done]; intros der Hd; exists pem, key, fp; split; [apply Honly3, (trusted_snoc _ _ _ Hd I)|];
       split; [apply Exists_app; by left|right; apply Exists_app; right; by left]).
  - intros u. set (tr3 := tr2 ++ [_]). assert (Exists (made (pem, key, fp)) tr3) as Hg3 by (apply Exists_app; by left).
    assert (∀ der, Exists (trusted der) tr3 → der = derOf pem) as Honly3 by (intros der Hd; apply Honly, (trusted_snoc _ _ _ Hd I)).
    assert (Exists (stored pem key) tr3) as Hs by (apply Exists_app; right; by left). clearbody tr3.
    assert (∀ evs, Forall trusts_none evs → no_orphan (tr3 ++ evs)) as Hheld.
    { intros evs He. apply no_orphan_app; [|done]. intros der Hd. exists pem, key, fp. split; [by apply Honly3|]. split; [done|by left]. }
    apply wp_bind, wp_attempt; intros x; cbn [wp]; (split; [apply Hheld; by repeat constructor|]); [done|].
    intros s _ der Hd. exists pem, key, fp. split; [apply Honly3, (trusted_snoc _ _ _ Hd I)|]. rewrite !Exists_app.
    split; [by left|]. split; [by left|]. right. by left.
Qed.

Lemma wp_issue tr : none_trusted tr →
  wp (issue tenant cl project) (λ r tr', no_orphan tr' ∧ (∀ s, r = Returned s → all_kept tr')) tr.
Proof.
  intros Ht. unfold issue.
  assert (∀ {A} (p : P A) (Q : outcome exn A → list ev → Prop) tr, none_trusted tr → emits trusts_none p →
    (∀ r tr', none_trusted tr' → Q r tr') → wp p Q tr) as Hquiet.
  { intros A p Q tr0 H0 Hp HQ. apply (wp_emits_weaken trusts_none); [done|]. intros r evs He. apply HQ. by apply none_trusted_app. }
  assert (∀ tr (r : outcome exn string), none_trusted tr → no_orphan tr ∧ (∀ s, r = Returned s → all_kept tr)) as Hnone.
  { intros tr0 r Hn. destruct (none_trusted_held _ Hn). auto. }
  apply wp_bind, Hquiet; [done|emits_all; exact I|]. intros [[fp|]|e|] tr1 H1; [|by apply wp_issue_new|by apply Hnone..].
  apply wp_bind, Hquiet; [done|unfold secret_there; emits_all; exact I|]. intros [[|]|e|] tr2 H2; [by apply Hnone| |by apply Hnone..].
  apply wp_bind, Hquiet; [done|apply untrust_emits|]. intros [u|e|] tr3 H3; [|by apply Hnone..].
  apply wp_bind, Hquiet; [done|emits_all; exact I|]. intros [u'|e|] tr4 H4; [by apply wp_issue_new|by apply Hnone..].
Qed.

Lemma issue_restricted : emits (restricted_to_project []) (issue tenant cl project).
Proof. unfold issue, secret_there, issue_new, untrust. emits_all; try exact I; by split. Qed.

Lemma locked_emits F {A} (p : P A) : emits F p → (∀ x, F (Ev (Db (LockCredentials (kt_id tenant) (cl_id cl))) x)) →
  (∀ x, F (Ev (Db Rollback) x)) → (∀ x, F (Ev (Db Commit) x)) → emits F (locked tenant cl p).
Proof. intros Hp H1 H2 H3. unfold locked. emits_all; auto. Qed.

Lemma wp_ensureCredentials :
  wp (ensureCredentials tenant cl project)
    (λ r tr, no_orphan tr ∧ ∀ s, r = Returned s → all_kept tr ∧ Exists committed tr) [].
Proof.
  unfold ensureCredentials, locked. apply wp_bind, wp_attempt; intros x.
  { split; [|done]. apply none_trusted_held. repeat constructor. simpl. tauto. }
  apply wp_bind, wp_try. eapply wp_mono; [apply wp_issue; repeat constructor; simpl; tauto|].
  intros [s|e|] tr [Hn Hk]; [| |done]; cbn [wp].
  - apply wp_bind, wp_attempt; intros y; cbn [wp]; (split; [apply no_orphan_app; [done|by repeat constructor]|]); [done|].
    intros s' _. split; [|apply Exists_app; right; by left]. apply all_kept_app; [by eapply Hk|by repeat constructor].
  - apply wp_bind. apply (wp_emits_weaken trusts_none); [emits_all; exact I|]. intros r evs He.
    assert (no_orphan (tr ++ evs)) by by apply no_orphan_app. by destruct r.
Qed.
End credentials.

(** ** Creating a cluster *)

Section create.
Context (fuel : nat) (classDocs : list KubeObject) (flannelYaml : string) (l : Loaded).
Abbreviation row := (ld_row l).

(** The control plane is seen available; the row is written. *)
Definition available (e : ev) : Prop :=
  match e with
  | Ev (Kube Management (KGet _ kind ns n)) (inr seen) =>
      kind = "Cluster" ∧ ns = Some (kr_namespace row) ∧ n = kr_name row ∧ is_true (condition seen "ControlPlaneAvailable") = true
  | _ => False
  end.
(** The load balancer of the cluster is seen at an address. *)
Definition balanced (address : string) (e : ev) : Prop :=
  match e with
  | Ev (Get DNodes c path) (inr is_) =>
      c = kr_clusterId row ∧ path = nodes_path (ld_project l) "2"
      ∧ (find_lb is_ (kr_name row) (kr_namespace row) ≫= lbf_address) = Some address
  | _ => False
  end.
Definition sets (ch : K8sChange) (e : ev) : Prop := match e with Ev (Db (SetK8s id ch')) _ => id = kr_id row ∧ ch' = ch | _ => False end.
Definition written (e : ev) : Prop := match e with Ev (Db _) (inr _) => True | _ => False end.
Definition ready_change : K8sChange := K8sSet K8sReady (Some EmptyString).

(** The row says ready only once the control plane was seen available, and the forward points where the
    load balancer of the cluster was seen. *)
Definition may_announce (pre : list ev) (e : ev) : Prop :=
  match e with
  | Ev (Db (SetK8s id (K8sSet K8sReady _))) _ => id = kr_id row ∧ Exists available pre
  | Ev (Request _ _ _ (ForwardBody _ _ ps)) _ | Ev (Request _ _ _ (ForwardChange _ _ ps)) _ =>
      ∃ address p, Exists (balanced address) pre ∧ p ∈ ps ∧ pt_target_address p = address ∧ pt_description p = portDescription (kr_id row)
        ∧ pt_listen_port p = show_Z (kr_endpointPort row)
  | _ => True
  end.

Definition modest (e : ev) : Prop :=
  match e with
  | Ev (Db (SetK8s _ (K8sSet K8sReady _))) _ | Ev (Request _ _ _ (ForwardBody _ _ _)) _ | Ev (Request _ _ _ (ForwardChange _ _ _)) _ => False
  | _ => True
  end.
Lemma modest_may e k : modest e → may_announce k e.
Proof. destruct e as [X c x]. destruct c; try done; [by destruct b|]. destruct q; try done. by destruct ch as [[]| |]. Qed.
Lemma wp_modest {A} (q : P A) (Q : outcome exn A → list ev → Prop) tr :
  guarded may_announce tr → emits modest q → (∀ r evs, guarded may_announce (tr ++ evs) → Q r (tr ++ evs)) → wp q Q tr.
Proof. intros Ht Hq HQ. apply (wp_guarded may_announce modest); [done..|intros e k; apply modest_may|auto]. Qed.
Lemma modest_get e : is_get e → modest e.
Proof. destruct e as [X c x]. by destruct c. Qed.

Lemma credentials_modest project : emits modest (ensureCredentials (ld_tenant l) (ld_cluster l) project).
Proof. unfold ensureCredentials, locked, issue, secret_there, issue_new, untrust. emits_all; exact I. Qed.
Lemma findLb_emits c pr n ns : emits is_get (findLb c pr n ns).
Proof. unfold findLb. emits_all; exact I. Qed.

Lemma wp_lb_ready tr : wp (lb_ready l) (λ r tr', ∀ a, r = Returned (inl a) → Exists (balanced a) tr') tr.
Proof.
  unfold lb_ready, findLb. apply wp_bind, wp_bind, wp_attempt; [done|]. intros is_. cbn [wp].
  destruct (find_lb _ _ _ ≫= lbf_address) as [address|] eqn:Hf; [|done]. destruct (truthy_str address); [|done].
  intros a [= <-]. apply Exists_app. right. left. by repeat split.
Qed.

(** The change that is sent has the port as it was asked for. *)
Lemma ensure_has_port f s ch : ensure_change f s = Ok ch → match ch with Created x | Updated x => port_of f ∈ fw_ports x | _ => True end.
Proof.
  destruct s as [e|]; cbn [ensure_change]; [|intros [= <-]; by left].
  destruct (js_find _ _); [done|]. destruct (js_find (is_ours f) _) as [p|] eqn:Hp; [|intros [= <-]; apply elem_of_app; right; by left].
  destruct (same_port _ _); intros [= <-]; [done|]. by apply (js_find_some (is_ours f)), (find_replace_first f _ p).
Qed.

Lemma wp_ensureForward network target tr : guarded may_announce tr → Exists (balanced target) tr →
  wp (ensureForward (kr_clusterId row) (forward_of l network target)) (λ _ tr', guarded may_announce tr') tr.
Proof.
  intros Hg Hb. unfold ensureForward. apply wp_bind, wp_modest; [done|unfold getForward; emits_all; exact I|].
  intros [s|e|] evs H1; [|done..]. destruct (ensure_change _ s) as [ch|e] eqn:Hch; [|done].
  pose proof (ensure_has_port _ _ _ Hch) as Hp.
  assert (∀ (c m path : string) b ps x, match b with ForwardBody _ _ ps' | ForwardChange _ _ ps' => ps' = ps | _ => False end →
    port_of (forward_of l network target) ∈ ps → guarded may_announce ((tr ++ evs) ++ [Ev (Request c m path b) x])) as Hsend.
  { intros c m path b ps x Hps Hin. apply guarded_snoc; [done|].
    assert (∃ address p, Exists (balanced address) (tr ++ evs) ∧ p ∈ ps ∧ pt_target_address p = address
      ∧ pt_description p = portDescription (kr_id row) ∧ pt_listen_port p = show_Z (kr_endpointPort row)) as Hex.
    { exists target, (port_of (forward_of l network target)). split; [apply Exists_app; by left|]. by repeat split. }
    destruct b; try done; simpl in Hps; subst; exact Hex. }
  apply wp_bind. destruct ch as [x|x| |]; cbn [send_change].
  - apply wp_bind, wp_attempt; intros y; cbn [wp]; by apply (Hsend _ _ _ _ (fw_ports x)).
  - apply wp_bind, wp_attempt; intros y; cbn [wp]; by apply (Hsend _ _ _ _ (fw_ports x)).
  - apply wp_modest; [done|emits_all; exact I|]. by intros [u|e|] evs' H2.
  - cbn [wp]. done.
Qed.

Lemma wp_set_forward tr : guarded may_announce tr → wp (set_forward fuel l) (λ _ tr', guarded may_announce tr') tr.
Proof.
  intros Hg. unfold set_forward. destruct (lbIsInstance _); [|done].
  apply wp_bind, wp_modest; [done|unfold told; emits_all; exact I|]. intros [u|e|] e1 H1; [|done..].
  apply wp_bind.
  assert (wp (wait_for fuel (lb_ready l)) (λ _ tr', guarded may_announce tr') (tr ++ e1)) as Hw.
  { apply wp_modest; [done| |done]. apply emits_wait_for; [|done..]. unfold lb_ready.
    emits_all. eapply emits_mono, findLb_emits. apply modest_get. }
  eapply wp_mono; [exact (wp_and _ _ _ _ Hw (wp_wait_for fuel (lb_ready l) (λ a tr', Exists (balanced a) tr') _ wp_lb_ready))|].
  intros [address|e|] tr2 [H2 Hb]; [|done..]. specialize (Hb address eq_refl).
  apply wp_bind, wp_modest; [done|unfold told; emits_all; exact I|]. intros [u'|e|] e3 H3; [|done..].
  apply wp_bind, wp_modest; [done|unfold defaultNetwork; emits_all; exact I|]. intros [network|e|] e4 H4; [|done..].
  apply wp_bind. eapply wp_mono; [apply wp_ensureForward; [done|rewrite <-(assoc_L (++)); apply Exists_app; by left]|].
  by intros [ch|e|] tr5 H5.
Qed.

Lemma wp_control_plane tr : wp (control_plane_ready l) (λ r tr', ∀ u, r = Returned (inl u) → Exists available tr') tr.
Proof.
  unfold control_plane_ready, get_cluster. apply wp_bind, wp_attempt; [done|]. intros seen.
  destruct (is_true _) eqn:Ht; [|done]. intros u _. apply Exists_app. right. left. by repeat split.
Qed.

(** What a creation that returns has done. *)
Definition announced (tr : list ev) : Prop := Exists available tr ∧ Exists (λ e, sets ready_change e ∧ written e) tr.

Definition announcing (r : outcome exn string) (tr : list ev) : Prop := guarded may_announce tr ∧ ∀ x, r = Returned x → announced tr.
Lemma not_announced r tr : guarded may_announce tr → (∀ x, r ≠ Returned x) → announcing r tr.
Proof. intros Hg Hr. split; [done|]. intros x Hx. by destruct (Hr x). Qed.
Lemma announce_seq {A} (p : P A) f tr :
  guarded may_announce tr → emits modest p → (∀ x tr', guarded may_announce tr' → wp (f x) announcing tr') → wp (p ≫= f) announcing tr.
Proof.
  intros Hg Hp Hf. apply wp_bind, wp_modest; [done..|]. intros [x|e|] evs H1; [by apply Hf|by apply not_announced..].
Qed.

Lemma wp_create_block tr : guarded may_announce tr →
  wp (create_block fuel classDocs flannelYaml l) announcing tr.
Proof.
  intros Hg. unfold create_block.
  apply announce_seq; [done| |]. { unfold await_placement, placement_ready, told. emits_all; try exact I. apply emits_wait_for; [|done..]. emits_all; exact I. }
  intros _ tr1 H1. apply announce_seq; [done|unfold told; emits_all; exact I|]. intros _ tr2 H2.
  apply announce_seq; [done|apply emits_each; intros o; unfold apply; emits_all; exact I|]. intros _ tr3 H3.
  apply announce_seq; [done|unfold told; emits_all; exact I|]. intros _ tr4 H4.
  apply announce_seq; [done|apply credentials_modest|]. intros secret tr5 H5.
  apply announce_seq; [done|unfold told; emits_all; exact I|]. intros _ tr6 H6.
  apply announce_seq; [done|unfold apply; emits_all; exact I|]. intros _ tr7 H7.
  apply announce_seq; [done|emits_all; exact I|]. intros _ tr8 H8.
  apply wp_bind, (wp_mono _ _ _ _ (wp_set_forward tr8 H8)). intros [u|e|] tr9 H9; [|by apply not_announced..].
  apply announce_seq; [done|unfold told; emits_all; exact I|]. intros _ tr10 H10.
  assert (wp (wait_for fuel (control_plane_ready l)) (λ _ tr', guarded may_announce tr') tr10) as Hw.
  { apply wp_modest; [done| |done]. apply emits_wait_for; [|done..]. unfold control_plane_ready, get_cluster. emits_all; exact I. }
  apply wp_bind. eapply wp_mono; [exact (wp_and _ _ _ _ Hw (wp_wait_for fuel (control_plane_ready l) (λ _ tr', Exists available tr') _ wp_control_plane))|].
  intros [u'|e|] tr11 [H11 Hav]; [|by apply not_announced..]. specialize (Hav u' eq_refl).
  assert (∀ x, guarded may_announce (tr11 ++ [Ev (Db (SetK8s (kr_id row) (K8sSet K8sReady (Some EmptyString)))) x])) as H12 by (intros x; by apply guarded_snoc).
  apply wp_bind, wp_attempt; [intros f; split; [apply H12|done]|]. intros v.
  apply wp_bind, wp_modest; [apply H12|emits_all; exact I|]. intros r evs H13.
  assert (announced ((tr11 ++ [Ev (Db (SetK8s (kr_id row) (K8sSet K8sReady (Some EmptyString)))) (inr v)]) ++ evs)) as Han.
  { rewrite <-(assoc_L (++)). split; [apply Exists_app; by left|]. apply Exists_app. right. left. by repeat split. }
  by destruct r as [u''|e|].
Qed.

Definition created_or_failed (r : outcome exn string) (tr : list ev) : Prop :=
  match r with
  | Returned _ => announced tr
  | Raised _ => ∃ message, Exists (sets (K8sFailed message)) tr
  | Running => True
  end.

Lemma wp_create_loaded tr : guarded may_announce tr →
  wp (create_loaded fuel classDocs flannelYaml l) (λ r tr', guarded may_announce tr' ∧ created_or_failed r tr') tr.
Proof.
  intros Hg. apply wp_try, (wp_mono _ _ _ _ (wp_create_block tr Hg)). intros [x|e|] tr1 [H1 Han]; [by split; [|apply (Han x)]| |by split].
  apply wp_bind, wp_attempt; intros y; cbn [wp]; (split; [by apply guarded_snoc|]); eexists; apply Exists_app; right; left; by split.
Qed.
End create.


(** ** Deleting a cluster *)

Section delete.
Context (fuel : nat) (l : Loaded).
Abbreviation row := (ld_row l).
Abbreviation c := (kr_clusterId (ld_row l)).

(** No create job of the cluster is left. *)
Definition none_creating (e : ev) : Prop := match e with Ev (Db (RunningCreates id)) (inr n) => id = kr_id row ∧ n = 0%nat | _ => False end.
(** The management cluster has no such Cluster. *)
Definition gone (e : ev) : Prop :=
  match e with
  | Ev (Kube Management (KGet _ kind ns n)) (inr seen) => kind = "Cluster" ∧ ns = Some (kr_namespace row) ∧ n = kr_name row ∧ seen = None
  | _ => False
  end.
Definition none_other (e : ev) : Prop :=
  match e with
  | Ev (Db (OtherK8s t c' id)) (inr n) => t = kt_id (ld_tenant l) ∧ c' = cl_id (ld_cluster l) ∧ id = kr_id row ∧ n = 0%nat
  | _ => False
  end.
Definition forgotten (e : ev) : Prop := match e with Ev (Db (DeleteK8s id)) (inr _) => id = kr_id row | _ => False end.
Definition last_one (e : ev) : Prop := match e with Ev (Db (K8sOfTenant t)) (inr n) => t = kr_tenantId row ∧ n = 0%nat | _ => False end.

(** Every instance of the cluster that was listed was deleted. *)
Definition cleaned (tr : list ev) : Prop :=
  ∃ listed, Exists (nodes_listed c (ld_project l) listed) tr
    ∧ ∀ i, i ∈ listed → of_cluster (kr_name row) (kr_namespace row) i = true → Exists (node_deleted c (ld_project l) i) tr.

Definition is_certificate (path : string) : bool := starts_with "/1.0/certificates/" path.

(** When a deletion may take what away. *)
Definition may_delete (pre : list ev) (e : ev) : Prop :=
  match e with
  | Ev (Kube Management (KDelete _ kind _ _)) _ =>
      kind = "Cluster" ∧ Exists none_creating pre
      ∨ kind = "Secret" ∧ cleaned pre ∧ Exists none_other pre
      ∨ kind = "Namespace" ∧ Exists forgotten pre ∧ Exists last_one pre
  | Ev (Request _ _ path _) _ => Exists gone pre ∧ (is_certificate path = true → cleaned pre ∧ Exists none_other pre)
  | Ev (Db (DeleteCredential _ _)) _ => cleaned pre ∧ Exists none_other pre
  | Ev (Db (DeleteK8s id)) _ => id = kr_id row ∧ Exists gone pre ∧ cleaned pre
  | _ => True
  end.

Definition takes_none (e : ev) : Prop :=
  match e with
  | Ev (Kube _ (KDelete _ _ _ _)) _ | Ev (Request _ _ _ _) _ | Ev (Db (DeleteCredential _ _)) _ | Ev (Db (DeleteK8s _)) _ => False
  | _ => True
  end.
Lemma takes_none_may e k : takes_none e → may_delete k e.
Proof. destruct e as [X cc x]. destruct cc; try done; [by destruct q|by destruct w, o]. Qed.
Lemma get_takes_none e : is_get e → takes_none e.
Proof. destruct e as [X cc x]. by destruct cc. Qed.

(** Requests that are not about certificates. *)
Definition takes_nodes (e : ev) : Prop :=
  match e with Ev (Request _ _ path _) _ => is_certificate path = false | _ => takes_none e end.
Lemma get_takes_nodes e : is_get e → takes_nodes e.
Proof. destruct e as [X cc x]. by destruct cc. Qed.
Lemma takes_nodes_may e k : Exists gone k → takes_nodes e → may_delete k e.
Proof.
  intros Hk. destruct e as [X cc x]. destruct cc; try done.
  - simpl. intros ->. by split.
  - by destruct q.
  - by destruct w, o.
Qed.

Lemma wp_takes_none {A} (q : P A) (Q : outcome exn A → list ev → Prop) tr :
  guarded may_delete tr → emits takes_none q → (∀ r evs, guarded may_delete (tr ++ evs) → Q r (tr ++ evs)) → wp q Q tr.
Proof. intros Ht Hq HQ. apply (wp_guarded may_delete takes_none); [done..|intros e k; apply takes_none_may|auto]. Qed.
Lemma wp_takes_nodes {A} (q : P A) (Q : outcome exn A → list ev → Prop) tr :
  guarded may_delete tr → Exists gone tr → emits takes_nodes q → (∀ r evs, guarded may_delete (tr ++ evs) → Q r (tr ++ evs)) → wp q Q tr.
Proof.
  intros Ht Hg Hq HQ. apply (wp_guarded may_delete takes_nodes); [done..| |auto].
  intros e k. apply takes_nodes_may. apply Exists_app. by left.
Qed.

Lemma wp_no_create_running tr : wp (no_create_running l) (λ r tr', ∀ u, r = Returned (inl u) → Exists none_creating tr') tr.
Proof.
  unfold no_create_running. apply wp_bind, wp_attempt; [done|]. intros n. destruct (n =? 0)%nat eqn:Hn; [|done].
  intros u _. apply Nat.eqb_eq in Hn as ->. apply Exists_app. right. by left.
Qed.
Lemma wp_cluster_gone tr : wp (cluster_gone l) (λ r tr', ∀ u, r = Returned (inl u) → Exists gone tr') tr.
Proof.
  unfold cluster_gone, get_cluster. apply wp_bind, wp_attempt; [done|]. intros [seen|]; [done|].
  intros u _. apply Exists_app. right. left. by repeat split.
Qed.

Lemma path_of_node i sub : is_certificate (node_path (ld_project l) i sub) = false.
Proof. reflexivity. Qed.
Lemma remove_node_emits i : emits takes_nodes (remove_node c (ld_project l) i).
Proof.
  unfold remove_node, or_empty. emits_all; try exact I; try apply path_of_node; (eapply emits_mono; [|apply wait_emits]; apply get_takes_nodes).
Qed.
Lemma removeLeftovers_emits : emits takes_nodes (removeLeftovers c (ld_project l) (kr_name row) (kr_namespace row)).
Proof.
  unfold removeLeftovers. emits_all; try exact I.
  - eapply emits_mono, outwait_emits. apply get_takes_nodes.
  - apply remove_node_emits.
Qed.
Lemma removeForward_emits f : emits takes_nodes (removeForward c f).
Proof. unfold removeForward, getForward, send_change. emits_all; try exact I; reflexivity. Qed.
Lemma drop_forward_emits : emits takes_nodes (drop_forward l).
Proof. unfold drop_forward, told, defaultNetwork, raise. emits_all; try exact I. apply removeForward_emits. Qed.

Lemma cleaned_app tr k : cleaned tr → cleaned (tr ++ k).
Proof.
  intros (listed & Hl & Hd). exists listed. split; [apply Exists_app; by left|]. intros i Hi Ho. apply Exists_app. left. by apply Hd.
Qed.

(** What revoking takes. *)
Definition takes_credentials (e : ev) : Prop :=
  match e with
  | Ev (Request _ _ _ _) _ | Ev (Db (DeleteCredential _ _)) _ => True
  | Ev (Kube Management (KDelete _ kind _ _)) _ => kind = "Secret"
  | _ => takes_none e
  end.
Lemma takes_credentials_may e k : Exists gone k → cleaned k → Exists none_other k → takes_credentials e → may_delete k e.
Proof.
  intros Hg Hc Hn. destruct e as [X cc x]. destruct cc; try done.
  - by destruct q.
  - destruct w, o; try done. simpl. intros ->. right. left. by split.
Qed.
Lemma revokeCredentials_emits : emits takes_credentials (revokeCredentials (ld_tenant l) (ld_cluster l)).
Proof. unfold revokeCredentials, untrust. emits_all; try exact I; reflexivity. Qed.

Lemma wp_revokeUnlessUsed (Q : outcome exn bool → list ev → Prop) tr :
  guarded may_delete tr → Exists gone tr → cleaned tr → (∀ r evs, guarded may_delete (tr ++ evs) → Q r (tr ++ evs)) →
  wp (revokeUnlessUsed (ld_tenant l) (ld_cluster l) (kr_id row)) Q tr.
Proof.
  intros Hg Hgone Hclean HQ. eapply (wp_mono _ (λ r tr', guarded may_delete tr' ∧ ∃ evs, tr' = tr ++ evs)).
  2: { by intros r tr' [H' [evs ->]]; apply HQ. }
  apply wp_extends. unfold revokeUnlessUsed, locked.
  apply wp_bind, wp_attempt; intros x1. { by apply guarded_snoc. }
  set (tr1 := tr ++ _). assert (guarded may_delete tr1) as H1 by (by apply guarded_snoc).
  assert (Exists gone tr1) as Hgone1 by (apply Exists_app; by left). assert (cleaned tr1) as Hc1 by (by apply cleaned_app). clearbody tr1.
  assert (∀ {A} (q : P A) (Q : outcome exn A → list ev → Prop) tr, guarded may_delete tr → emits takes_none q → (∀ r tr', guarded may_delete tr' → Q r tr') → wp q Q tr) as Hquiet.
  { intros A q Q' tr0 H0 Hq H'. apply wp_takes_none; auto. }
  apply wp_bind, wp_try, wp_bind, wp_attempt; intros x2.
  { apply wp_bind, Hquiet; [by apply guarded_snoc|emits_all; exact I|]. by intros [u|e|] tr2 H2. }
  set (tr2 := tr1 ++ _). assert (guarded may_delete tr2) as H2 by (by apply guarded_snoc).
  destruct (x2 =? 0)%nat eqn:Hx2.
  - apply Nat.eqb_eq in Hx2 as ->.
    assert (Exists none_other tr2) as Hno by (apply Exists_app; right; by left).
    assert (Exists gone tr2) as Hgone2 by (apply Exists_app; by left). assert (cleaned tr2) as Hc2 by (by apply cleaned_app). clearbody tr2.
    apply wp_bind, (wp_guarded may_delete takes_credentials); [done|apply revokeCredentials_emits| |].
    { intros e k. apply takes_credentials_may; [apply Exists_app; by left|by apply cleaned_app|apply Exists_app; by left]. }
    intros [u|e|] evs _ H3; cbn [wp]; [| |done]; (apply wp_bind, Hquiet; [done|emits_all; exact I|]; by intros [u'|e'|] tr4 H4).
  - cbn [wp]. apply wp_bind, Hquiet; [done|emits_all; exact I|]. by intros [u'|e'|] tr4 H4.
Qed.

(** Before anything is taken: nothing but the Cluster itself is. *)
Definition early (pre : list ev) (e : ev) : Prop := may_delete pre e ∧ match e with Ev (Request _ _ _ _) _ => False | _ => True end.
Lemma guarded_weaken (G G' : list ev → ev → Prop) (tr : list ev) : (∀ k e, G k e → G' k e) → guarded G tr → guarded G' tr.
Proof. intros HG Hg pre e post Heq. eapply HG, Hg, Heq. Qed.
Lemma wp_early {A} (q : P A) (Q : outcome exn A → list ev → Prop) tr :
  guarded early tr → emits takes_none q → (∀ r tr', guarded early tr' → Q r tr') → wp q Q tr.
Proof.
  intros Ht Hq HQ. apply (wp_guarded early takes_none); [done..| |auto].
  intros e k He. split; [by apply takes_none_may|]. destruct e as [X cc x]. by destruct cc.
Qed.

Lemma wp_remove_cluster tr : guarded early tr → Exists none_creating tr →
  wp (remove_cluster fuel l) (λ r tr', guarded early tr' ∧ (r = Returned tt → Exists gone tr')) tr.
Proof.
  intros Hg Hn. unfold remove_cluster. apply wp_bind. eapply wp_mono; [apply wp_extends, (wp_early _ (λ _, guarded early)); [done|unfold told; emits_all; exact I|done]|].
  intros [u|e|] tr1 [H1 [evs ->]]; [|by split..].
  assert (∀ x, guarded early ((tr ++ evs) ++ [Ev (Kube Management (KDelete CLUSTER_API "Cluster" (Some (kr_namespace row)) (kr_name row))) x])) as H2.
  { intros x. apply guarded_snoc; [done|]. split; [|done]. left. split; [done|]. apply Exists_app. by left. }
  apply wp_bind, wp_attempt; intros x; [by split; [apply H2|]|]. specialize (H2 (inr x)).
  set (tr2 := (tr ++ evs) ++ [_]) in *. clearbody tr2.
  assert (wp (wait_for fuel (cluster_gone l)) (λ _, guarded early) tr2) as Hw.
  { eapply wp_early; [exact H2| |done]. apply emits_wait_for; [|done..]. unfold cluster_gone, get_cluster. emits_all; exact I. }
  eapply wp_mono; [exact (wp_and _ _ _ _ Hw (wp_wait_for fuel (cluster_gone l) (λ _, Exists gone) _ wp_cluster_gone))|].
  intros r tr3 [H3 Hgone]. split; [done|]. intros ->. by apply (Hgone tt).
Qed.

(** What a deletion that returns has done. *)
Definition deleted (r : outcome exn unit) (tr : list ev) : Prop :=
  guarded may_delete tr ∧ (r = Returned tt → Exists gone tr ∧ cleaned tr ∧ Exists forgotten tr).
Lemma not_deleted r tr : guarded may_delete tr → r ≠ Returned tt → deleted r tr.
Proof. by split. Qed.

Lemma wp_leftovers tr : guarded early tr → Exists gone tr →
  wp (removeLeftovers c (ld_project l) (kr_name row) (kr_namespace row))
     (λ r tr', guarded may_delete tr' ∧ Exists gone tr' ∧ (∀ names, r = Returned names → cleaned tr')) tr.
Proof.
  intros Hg Hgone.
  assert (guarded may_delete tr) as H2 by (by eapply guarded_weaken, Hg; intros k e []).
  assert (guarded (may_remove c (ld_project l) (kr_name row) (kr_namespace row)) tr) as H3.
  { eapply guarded_weaken, Hg. intros k [X cc x] [_ He]. by destruct cc. }
  assert (wp (removeLeftovers c (ld_project l) (kr_name row) (kr_namespace row)) (λ _ tr', guarded may_delete tr' ∧ Exists gone tr') tr) as Hw.
  { apply wp_takes_nodes; [done..|apply removeLeftovers_emits|]. intros r evs' H'. split; [done|]. apply Exists_app. by left. }
  eapply wp_mono; [exact (wp_and _ _ _ _ Hw (wp_removeLeftovers c (ld_project l) (kr_name row) (kr_namespace row) tr H3))|].
  intros r tr' [[Hmd Hgn] [_ Hall]]. split; [done|]. split; [done|]. intros names Hr.
  destruct (Hall names Hr) as (listed & Hl & _ & Hd). by exists listed.
Qed.

(** From the credentials on. *)
Lemma wp_delete_end tr : guarded may_delete tr → Exists gone tr → cleaned tr →
  wp (_ ← revokeUnlessUsed (ld_tenant l) (ld_cluster l) (kr_id row);
      _ ← attempt (Db (DeleteK8s (kr_id row)));
      left ← attempt (Db (K8sOfTenant (kr_tenantId row)));
      if (left =? 0)%nat then _ ← attempt (Kube Management (KDelete "v1" "Namespace" None (kr_namespace row))); Ret tt else Ret tt)
     deleted tr.
Proof.
  intros Hg Hgone Hclean. apply wp_bind, wp_revokeUnlessUsed; [done..|]. intros [u|e|] evs H1; [|by apply not_deleted..].
  set (tr1 := tr ++ evs) in *. assert (Exists gone tr1) as Hgone1 by (apply Exists_app; by left). assert (cleaned tr1) as Hc1 by (by apply cleaned_app).
  clearbody tr1. clear Hg Hgone Hclean.
  assert (∀ x, guarded may_delete (tr1 ++ [Ev (Db (DeleteK8s (kr_id row))) x])) as H2 by (intros x; by apply guarded_snoc).
  apply wp_bind, wp_attempt; intros x; [by apply not_deleted; [apply H2|]|]. specialize (H2 (inr x)).
  set (tr2 := tr1 ++ _) in *. assert (Exists forgotten tr2) as Hf by (apply Exists_app; right; by left).
  assert (Exists gone tr2) as Hgone2 by (apply Exists_app; by left). assert (cleaned tr2) as Hc2 by (by apply cleaned_app). clearbody tr2.
  apply wp_bind, wp_attempt; intros n; [by apply not_deleted; [apply guarded_snoc|]|]. set (tr3 := tr2 ++ _).
  assert (guarded may_delete tr3) as H3 by (by apply guarded_snoc).
  assert (∀ k, Exists gone (tr3 ++ k) ∧ cleaned (tr3 ++ k) ∧ Exists forgotten (tr3 ++ k)) as Hk.
  { intros k. unfold tr3. rewrite <-(assoc_L (++)). split; [apply Exists_app; by left|]. split; [by apply cleaned_app|apply Exists_app; by left]. }
  destruct (n =? 0)%nat eqn:Hn; [|split; [done|intros _; rewrite <-(app_nil_r tr3); apply Hk]]. apply Nat.eqb_eq in Hn as ->.
  assert (∀ x, guarded may_delete (tr3 ++ [Ev (Kube Management (KDelete "v1" "Namespace" None (kr_namespace row))) x])) as H4.
  { intros y. apply guarded_snoc; [done|]. right. right. split; [done|]. split; apply Exists_app; [by left|right; by left]. }
  apply wp_bind, wp_attempt; intros y; cbn [wp]; (split; [apply H4|]); intros Hr; [done|apply Hk].
Qed.

Lemma wp_delete_loaded tr : guarded early tr → wp (delete_loaded fuel l) deleted tr.
Proof.
  assert (∀ k e, early k e → may_delete k e) as Hweak by (by intros k e []).
  assert (∀ {A} (q : P A) (f : A → P unit) tr, guarded early tr → emits takes_none q →
    (∀ x tr', guarded early tr' → (∃ k, tr' = tr ++ k) → wp (f x) deleted tr') → wp (q ≫= f) deleted tr) as Hearly.
  { intros A q f tr0 H0 Hq Hf. apply wp_bind. eapply wp_mono; [apply wp_extends, (wp_early _ (λ _, guarded early)); done|].
    intros [x|e|] tr1 [H1 Hk]; [by apply Hf|by apply not_deleted; [eapply guarded_weaken|]..]. }
  intros Hg. unfold delete_loaded. apply Hearly; [done|emits_all; exact I|]. intros _ tr1 H1 _.
  assert (wp (wait_for fuel (no_create_running l)) (λ _, guarded early) tr1) as Hw.
  { apply wp_early; [done| |done]. apply emits_wait_for; [|done..]. unfold no_create_running. emits_all; exact I. }
  apply wp_bind. eapply wp_mono; [exact (wp_and _ _ _ _ Hw (wp_wait_for fuel (no_create_running l) (λ _, Exists none_creating) _ wp_no_create_running))|].
  intros [u|e|] tr2 [H2 Hn]; [|by apply not_deleted; [eapply guarded_weaken|]..]. specialize (Hn u eq_refl).
  apply wp_bind. eapply wp_mono; [by apply wp_remove_cluster|].
  intros [[]|e|] tr3 [H3 Hgone]; [|by apply not_deleted; [eapply guarded_weaken|]..]. specialize (Hgone eq_refl).
  apply Hearly; [done|unfold told; emits_all; exact I|]. intros _ tr4 H4 [k4 Hk4].
  assert (Exists gone tr4) as Hgone4 by (rewrite Hk4; apply Exists_app; by left).
  apply wp_bind. eapply wp_mono; [by apply wp_leftovers|]. intros [names|e|] tr5 (H5 & Hgone5 & Hc); [|by apply not_deleted..].
  specialize (Hc names eq_refl).
  apply wp_bind, wp_takes_nodes; [done..|apply drop_forward_emits|]. intros [u5|e|] e6 H6; [|by apply not_deleted..].
  apply wp_bind, wp_takes_none; [done|unfold told; emits_all; exact I|]. intros [u6|e|] e7 H7; [|by apply not_deleted..].
  apply wp_delete_end; [done| |]; rewrite <-(assoc_L (++)); [apply Exists_app; by left|by apply cleaned_app].
Qed.
End delete.

(** ** Watching *)

(** A row is told ready exactly when its control plane is available and as many machines are ready as it has nodes. *)
Theorem assess_ready r cluster machines :
  as_status (assess r cluster machines) = K8sReady
  ↔ is_true (condition cluster "ControlPlaneAvailable") = true
    ∧ (kr_controlPlanes r + kr_workers r ≤ Z.of_nat (length (js_filter (λ m, is_true (condition (Some m) "Ready")) machines)))%Z.
Proof.
  unfold assess. destruct cluster as [o|]; [|by split; [|intros []]].
  destruct (is_true (condition (Some o) _)); [|by split; [|intros []]]. cbn [negb].
  destruct (Z.of_nat _ <? _)%Z eqn:Hlt; cbn [as_status]; [split; [done|intros [_ ?]; lia]|split; [intros _; split; [done|lia]|done]].
Qed.
Lemma assess_owned r cluster machines : includes OWNED (as_status (assess r cluster machines)) = true.
Proof. unfold assess. by repeat case_match. Qed.

Section sync.
Context (rows : list (K8sRow * string)).

Definition cluster_read (r : K8sRow) (seen : option KubeSeen) (e : ev) : Prop :=
  match e with
  | Ev (Kube Management (KGet _ kind ns n)) (inr o) => kind = "Cluster" ∧ ns = Some (kr_namespace r) ∧ n = kr_name r ∧ o = seen
  | _ => False
  end.
Definition machines_read (r : K8sRow) (machines : list KubeSeen) (e : ev) : Prop :=
  match e with
  | Ev (Kube Management (KList _ kind ns selector)) (inr l) =>
      kind = "Machine" ∧ ns = Some (kr_namespace r) ∧ selector = "cluster.x-k8s.io/cluster-name=" +++ kr_name r ∧ l = machines
  | _ => False
  end.
Definition status_of (r : K8sRow) (cluster : option KubeSeen) (machines : list KubeSeen) : K8sChange :=
  let seen := assess r cluster machines in
  K8sSeen (if owned r then Some (as_status seen, as_message seen) else None) (as_nodes seen) (as_nodesReady seen).

(** A statement writes what was read of that row's cluster; a forward changes only for a row the worker owns. *)
Definition may_sync (pre : list ev) (e : ev) : Prop :=
  match e with
  | Ev (Db (SetK8s id ch)) _ =>
      ∃ rp cluster machines, rp ∈ rows ∧ id = kr_id rp.1 ∧ Exists (cluster_read rp.1 cluster) pre ∧ Exists (machines_read rp.1 machines) pre
        ∧ ch = status_of rp.1 cluster machines
  | Ev (Request c _ _ _) _ =>
      ∃ rp o, rp ∈ rows ∧ c = kr_clusterId rp.1 ∧ owned rp.1 = true ∧ lbIsInstance (loadBalancer (kr_spec rp.1)) = true
        ∧ Exists (cluster_read rp.1 (Some o)) pre
  | Ev (Kube _ (KApply _)) _ | Ev (Kube _ (KDelete _ _ _ _)) _ => False
  | _ => True
  end.

Definition looked (r : K8sRow) (e : ev) : Prop :=
  match e with Ev (Kube Management (KGet _ kind ns n)) _ => kind = "Cluster" ∧ ns = Some (kr_namespace r) ∧ n = kr_name r | _ => False end.
Definition told_to_stop (e : ev) : Prop := match e with Ev Aborted (Some _) => True | _ => False end.

(** The calls of [retarget]. *)
Definition on_cluster (c : string) (e : ev) : Prop :=
  match e with
  | Ev (Request c' _ _ _) _ => c' = c
  | Ev (Db (SetK8s _ _)) _ | Ev (Kube _ (KApply _)) _ | Ev (Kube _ (KDelete _ _ _ _)) _ => False
  | _ => True
  end.
Lemma retarget_emits r project : emits (on_cluster (kr_clusterId r)) (retarget r project).
Proof.
  unfold retarget, clientFor, findLb, defaultNetwork, ensureForward, getForward, send_change, raise.
  emits_all; first [exact I|reflexivity].
Qed.

Lemma wp_sync_row rp tr : guarded may_sync tr → rp ∈ rows →
  wp (sync_row rp) (λ r tr', guarded may_sync tr' ∧ (∀ e, r ≠ Raised e) ∧ Exists (looked rp.1) tr') tr.
Proof.
  intros Hg Hin. apply wp_quietly.
  assert (∀ x, guarded may_sync (tr ++ [Ev (Kube Management (KGet CLUSTER_API "Cluster" (Some (kr_namespace rp.1)) (kr_name rp.1))) x])
    ∧ Exists (looked rp.1) (tr ++ [Ev (Kube Management (KGet CLUSTER_API "Cluster" (Some (kr_namespace rp.1)) (kr_name rp.1))) x])) as H1.
  { intros x. split; [by apply guarded_snoc|]. apply Exists_app. right. left. by repeat split. }
  apply wp_bind, wp_attempt; intros cluster; [by destruct (H1 (inl cluster))|]. destruct (H1 (inr cluster)) as [Hg1 Hl1]. clear H1.
  set (tr1 := tr ++ _) in *. assert (Exists (cluster_read rp.1 cluster) tr1) as Hc1 by (apply Exists_app; right; left; by repeat split). clearbody tr1.
  apply wp_bind, wp_attempt; intros machines; [split; [by apply guarded_snoc|split; [done|apply Exists_app; by left]]|].
  set (tr2 := tr1 ++ _). assert (guarded may_sync tr2) as Hg2 by (by apply guarded_snoc).
  assert (Exists (machines_read rp.1 machines) tr2) as Hm2 by (apply Exists_app; right; left; by repeat split).
  assert (Exists (cluster_read rp.1 cluster) tr2 ∧ Exists (looked rp.1) tr2) as [Hc2 Hl2] by (split; apply Exists_app; by left). clearbody tr2.
  assert (∀ x, guarded may_sync (tr2 ++ [Ev (Db (SetK8s (kr_id rp.1) (status_of rp.1 cluster machines))) x])) as H3.
  { intros x. apply guarded_snoc; [done|]. by exists rp, cluster, machines. }
  apply wp_bind, wp_attempt; intros u; [split; [apply H3|split; [done|apply Exists_app; by left]]|]. specialize (H3 (inr u)).
  set (tr3 := tr2 ++ _) in *. assert (Exists (cluster_read rp.1 cluster) tr3 ∧ Exists (looked rp.1) tr3) as [Hc3 Hl3] by (split; apply Exists_app; by left).
  clearbody tr3. destruct cluster as [o|]; [|done]. destruct (owned rp.1 && _) eqn:How; [|done]. apply andb_true_iff in How as [How Hlb].
  apply (wp_guarded may_sync (on_cluster (kr_clusterId rp.1))); [done|apply retarget_emits| |].
  - intros e k He. destruct e as [X cc x]. destruct cc; try done.
    + simpl in He. subst. exists rp, o. repeat (split; [done|]). apply Exists_app. by left.
    + by destruct q.
  - intros r evs _ Hg4. destruct r as [u'|e|]; [| |]; (split; [done|split; [done|apply Exists_app; by left]]).
Qed.

Definition visited (todo : list (K8sRow * string)) (r : outcome exn unit) (tr : list ev) : Prop :=
  (∀ e, r ≠ Raised e) ∧ (r = Returned tt → Exists told_to_stop tr ∨ ∀ rp, rp ∈ todo → Exists (looked rp.1) tr).

Lemma wp_sync_rows todo tr : guarded may_sync tr → (∀ rp, rp ∈ todo → rp ∈ rows) →
  wp (sync_rows todo) (λ r tr', guarded may_sync tr' ∧ visited todo r tr') tr.
Proof.
  revert tr. induction todo as [|rp todo IH]; intros tr Hg Hin.
  { split; [done|]. split; [done|]. intros _. right. by intros rp ?%elem_of_nil. }
  cbn [sync_rows]. apply wp_bind, wp_ask. intros [f|].
  { split; [by apply guarded_snoc|]. split; [done|]. intros _. left. apply Exists_app. right. by left. }
  assert (guarded may_sync (tr ++ [Ev Aborted None])) as H1 by (by apply guarded_snoc). set (tr1 := tr ++ _) in *. clearbody tr1.
  apply wp_bind. eapply wp_mono; [apply wp_sync_row; [done|apply Hin; by left]|].
  intros [[]|e|] tr2 (H2 & Hr & Hl); [|by destruct (Hr e)|by split].
  eapply wp_mono; [apply wp_extends, IH; [done|intros x Hx; apply Hin; by right]|].
  intros r tr3 [[H3 [Hr3 Hv]] [evs ->]]. split; [done|]. split; [done|]. intros Heq. destruct (Hv Heq) as [Hs|Hall]; [by left|right].
  intros x [-> |Hx]%elem_of_cons; [apply Exists_app; by left|by apply Hall].
Qed.
End sync.

(** ** Properties *)

(** C36: whatever fails while the credentials of a tenant are issued, every certificate that Incus took for it is in the
    stored secret together with its key, or was asked to be untrusted, and is restricted to the tenant's project; and when
    they were issued it is in the secret and its fingerprint is recorded, in a transaction that was committed. (An attempt
    that fails after the secret was stored records nothing: [unrecorded_certificate_stays].) *)
Theorem certificates_are_held tenant cl project orc :
  let r := run orc (ensureCredentials tenant cl project) [] in
  no_orphan tenant cl project r.2
  ∧ (∀ s, r.1 = Returned s → all_kept tenant cl project r.2 ∧ Exists committed r.2)
  ∧ Forall (restricted_to_project project []) r.2.
Proof.
  destruct (wp_run _ _ orc [] (wp_ensureCredentials tenant cl project)) as [Hn Hk]. split; [exact Hn|]. split; [exact Hk|].
  assert (emits (restricted_to_project project []) (ensureCredentials tenant cl project)) as He.
  { apply locked_emits; [apply issue_restricted|done..]. }
  apply (wp_run _ (λ _ tr, Forall (restricted_to_project project []) tr) orc []).
  apply (wp_emits_weaken (restricted_to_project project [])); [done|]. by intros r evs.
Qed.

(** A creation marks the cluster ready only after its control plane was seen available, and points the
    forward only at an address its load balancer was seen at; one that fails has left the row an error. *)
Theorem create_announces fuel classDocs flannelYaml l orc :
  let r := run orc (create_loaded fuel classDocs flannelYaml l) [] in
  guarded (may_announce l) r.2 ∧ created_or_failed l r.1 r.2.
Proof. exact (wp_run _ _ orc [] (wp_create_loaded fuel classDocs flannelYaml l [] (guarded_nil _))). Qed.

(** A deletion takes the Cluster away only when no create job of it is left; instances and the
    forward only when the Cluster is gone; the credentials only when its instances are removed too and no
    other cluster of the tenant uses them; the row last; and the tenant's namespace only when it has no
    other cluster. One that returns has seen the Cluster gone, removed its instances and forgotten the row. *)
Theorem delete_in_order fuel l orc :
  let r := run orc (delete_loaded fuel l) [] in deleted l r.1 r.2.
Proof. exact (wp_run _ _ orc [] (wp_delete_loaded fuel l [] (guarded_nil _))). Qed.

(** A pass of the synchronisation writes only what it has just read of a row's own cluster, changes
    only the forwards of rows it owns, and looks at every row, whatever fails on the others, unless it is
    told to stop. *)
Theorem sync_tells_what_it_saw rows orc :
  let r := run orc (sync_rows rows) [] in guarded (may_sync rows) r.2 ∧ visited rows r.1 r.2.
Proof. exact (wp_run _ _ orc [] (wp_sync_rows rows rows [] (guarded_nil _) (λ _ H, H))). Qed.

(** ** Examples *)

Definition demo_row (st : K8sStatus) : K8sRow :=
  {| kr_id := "k1"; kr_tenantId := "t1"; kr_clusterId := "A"; kr_name := "prod"; kr_namespace := "tenant-acme"; kr_version := "v1.35.0";
     kr_controlPlanes := 1; kr_workers := 2; kr_spec := specFromSize Small "n1"; kr_endpointHost := "10.0.0.6"; kr_endpointPort := 16443;
     kr_lbMember := "n1"; kr_status := st |}.
Definition demo_loaded : Loaded :=
  {| ld_row := demo_row K8sCreating; ld_tenant := {| kt_id := "t1"; kt_slug := "acme" |}; ld_project := "acme-prod";
     ld_cluster := {| cl_id := "A"; cl_name := "alpha"; cl_url := "https://a"; cl_serverCert := "PEM" |} |}.
Definition demo_node (role : string) : NodeInstance :=
  {| ni_name := "prod-" +++ role; ni_location := "n1";
     ni_config := list_to_map [("user.cluster-name", "prod"); ("user.cluster-namespace", "tenant-acme"); ("user.cluster-role", role)];
     ni_network := [("eth0", [{| ad_family := "inet"; ad_address := "10.1.0.2"; ad_scope := "global" |}])] |}.
Definition seen_up : KubeSeen := {| ks_conditions := [{| cd_type := "ControlPlaneAvailable"; cd_status := "True"; cd_message := None |}]; ks_value := None |}.

(** [cluster]: what is read of the Cluster; [others]: the tenant's other clusters; [stores]: whether secrets can be stored. *)
Definition k8s_world (cluster : option KubeSeen) (others : nat) (stores : bool) (X : Type) (c : call X) (tr : list ev) : X :=
  match c in call X return X with
  | Request _ _ _ _ => inr {| rs_async := false; rs_operation := None; rs_id := EmptyString; rs_secrets := None |}
  | Get d _ _ =>
      match d in doc X return fault + X with
      | DNodes => inr [demo_node "loadbalancer"]
      | DDevices => inr [("eth0", list_to_map [("type", "nic"); ("network", "br")])]
      | DForward => inl (ClusterError 404 "Network forward not found")
      | DRunning => inr []
      | _ => inl (Error "unavailable")
      end
  | Progress _ _ | Sleep => inr tt
  | Aborted => None
  | ClientFor c => inr ("https://a", "PEM", "alpha")
  | NewCertificate _ => ("CERT", "KEY", "f1")
  | Db q =>
      match q in query X return fault + X with
      | PlacementOf _ _ => inr (Some {| pl_project := "acme-prod"; pl_status := "ready"; pl_message := EmptyString |})
      | SetK8s _ _ | InsertCredential _ _ _ | DeleteCredential _ _ | LockCredentials _ _ | Commit | Rollback | DeleteK8s _ => inr tt
      | CredentialOf _ _ => inr (match others with O => None | S _ => Some "f0" end)
      | RunningCreates _ => inr 0%nat
      | OtherK8s _ _ _ | K8sOfTenant _ => inr others
      | q => unavailable (Db q)
      end
  | Kube _ o =>
      match o in kube_op X return fault + X with
      | KApply o => if bool_decide (ko_kind o = "Secret") && negb stores then inl (Error "no space") else inr tt
      | KGet _ kind _ _ => inr (if bool_decide (kind = "Cluster") then cluster else Some seen_up)
      | KList _ _ _ _ => inr []
      | KDelete _ _ _ _ => inr true
      end
  | c => unavailable c
  end.

Inductive Did := Asked (method path : string) | Applied (kind : string) | Took (kind : string) | Wrote (ch : K8sChange) | Forgot.
Definition did (e : ev) : option Did :=
  match e with
  | Ev (Request _ m path _) _ => Some (Asked m path)
  | Ev (Kube _ (KApply o)) _ => Some (Applied (ko_kind o))
  | Ev (Kube _ (KDelete _ kind _ _)) _ => Some (Took kind)
  | Ev (Db (SetK8s _ ch)) _ => Some (Wrote ch)
  | Ev (Db (DeleteK8s _)) _ => Some Forgot
  | _ => None
  end.

Example demo_k8s_created :
  let r := run (k8s_world (Some seen_up) 0 true) (create_loaded 3 [] "cni" demo_loaded) [] in
  r.1 = Returned "https://10.0.0.6:16443"
  ∧ omap did r.2 = [Applied "Namespace"; Applied "Namespace"; Applied "ConfigMap"; Applied "ClusterResourceSet";
                    Asked "POST" "/1.0/certificates"; Applied "Secret"; Applied "Cluster"; Wrote (K8sSet K8sProvisioning None);
                    Asked "POST" "/1.0/networks/br/forwards?target=n1"; Wrote (K8sSet K8sReady (Some EmptyString))].
Proof. vm_compute. by split. Qed.

Example demo_k8s_secret_refused :
  let r := run (k8s_world (Some seen_up) 0 false) (create_loaded 3 [] "cni" demo_loaded) [] in
  drop 4 (omap did r.2) = [Asked "POST" "/1.0/certificates"; Applied "Secret"; Asked "DELETE" "/1.0/certificates/f1"; Wrote (K8sFailed "no space")].
Proof. vm_compute. done. Qed.

(** Credentials are issued; and the secret is refused. *)
Lemma certificates_are_held_witness :
  let issued := run (k8s_world None 0 true) (ensureCredentials (ld_tenant demo_loaded) (ld_cluster demo_loaded) "acme-prod") [] in
  let refused := run (k8s_world None 0 false) (ensureCredentials (ld_tenant demo_loaded) (ld_cluster demo_loaded) "acme-prod") [] in
  (Exists (trusted (ld_cluster demo_loaded) "CERT") issued.2 ∧ kept (ld_tenant demo_loaded) (ld_cluster demo_loaded) "acme-prod" issued.2 "CERT")
  ∧ Exists (trusted (ld_cluster demo_loaded) "CERT") refused.2 ∧ held (ld_tenant demo_loaded) (ld_cluster demo_loaded) "acme-prod" refused.2 "CERT".
Proof.
  intros issued refused.
  assert (Exists (trusted (ld_cluster demo_loaded) "CERT") issued.2) as Hi by (vm_compute; repeat (first [left; split; reflexivity|right])).
  assert (Exists (trusted (ld_cluster demo_loaded) "CERT") refused.2) as Hr by (vm_compute; repeat (first [left; split; reflexivity|right])).
  split; (split; [assumption|]).
  - apply (proj1 (proj2 (certificates_are_held (ld_tenant demo_loaded) (ld_cluster demo_loaded) "acme-prod" (k8s_world None 0 true))) "incus-alpha");
      [vm_compute; reflexivity|exact Hi].
  - apply (certificates_are_held (ld_tenant demo_loaded) (ld_cluster demo_loaded) "acme-prod" (k8s_world None 0 false)). exact Hr.
Defined.

Example demo_k8s_deleted :
  omap did (run (k8s_world None 0 true) (delete_loaded 3 demo_loaded) []).2
    = [Wrote (K8sSet K8sDeleting None); Took "Cluster"; Asked "PUT" "/1.0/instances/prod-loadbalancer/state?project=acme-prod";
       Asked "DELETE" "/1.0/instances/prod-loadbalancer?project=acme-prod"; Took "Secret"; Forgot; Took "Namespace"]
  ∧ drop 4 (omap did (run (k8s_world None 1 true) (delete_loaded 3 demo_loaded) []).2) = [Forgot].
Proof. vm_compute. by split. Qed.

(** The synchronisation read the row when it was ready; by the time it writes, a deletion has marked it
    and taken the Cluster: the row is an error then, though it "stays deleting" until it is gone. *)
Theorem deleting_overwritten :
  let written := omap did (run (k8s_world None 0 true) (sync_rows [(demo_row K8sReady, "acme-prod")]) []).2 in
  let left := foldl (λ now d, match d with Wrote ch => told_row ch now | _ => now end) (K8sDeleting, EmptyString) written in
  left = (K8sError, "Its Cluster is missing from the management cluster").
Proof. vm_compute. done. Qed.

(** A failed creation does leave it. *)
Lemma failure_keeps_deleting message text : told_row (K8sFailed message) (K8sDeleting, text) = (K8sDeleting, text).
Proof. done. Qed.

(** The statement that records a certificate fails; the secret is stored already. *)
Definition insert_lost (X : Type) (c : call X) (tr : list ev) : X :=
  match c in call X return X with
  | Db q =>
      match q in query X return fault + X with
      | InsertCredential _ _ _ => inl (Error "connection lost")
      | q => k8s_world None 0 true _ (Db q) tr
      end
  | c => k8s_world None 0 true _ c tr
  end.

(** The next attempt finds no record, issues another certificate over the secret, and the first stays trusted. *)
Theorem unrecorded_certificate_stays :
  let again := ensureCredentials (ld_tenant demo_loaded) (ld_cluster demo_loaded) (ld_project demo_loaded) in
  let first := (run insert_lost again []).2 in
  omap did (run (k8s_world None 0 true) again first).2
    = [Asked "POST" "/1.0/certificates"; Applied "Secret"; Asked "POST" "/1.0/certificates"; Applied "Secret"].
Proof. vm_compute. done. Qed.
