(* ===== verification/TenantCloud.v ===== *)
(** * TenantCloud: what a tenant is let create

    Models [api/tenant-cloud.ts] and the database reads of [tenants/limits.ts]:
    what the jobs that are not finished will use, a user's share of a tenant,
    the candidates for placement, and the request that creates an instance. Its
    transaction takes the tenant's lock, so decisions on one tenant's quota are
    made one at a time (by requests that write the tenant's id alike: see
    [locked_apart] in [TenantCloudTheory]); its statements are one step here, and
    [usage_missed] in [TenantCloudTheory] shows where that matters. The
    snapshot [s] that permissions are decided on may be older than the tables. *)

From Stdlib Require Import QArith.QArith_base.
From S2P Require Acl AclEdit Jobs K8sModel Services Endpoint JsNumber Facade Merge.
From S2P Require Import Prelude JsString Effects Quota.
Open Scope Z_scope.

(** ** The tables *)

Record TenantRow := { tn_id : string; tn_slug : string; tn_quotas : Quotas }.
Record PlacementRow := { pm_tenantId : string; pm_clusterId : string; pm_project : string; pm_status : string; pm_usage : option Usage }.
Record ClusterRow := {
  cr_id : string; cr_name : string; cr_url : string; cr_status : string; cr_labels : js_map string string;
  cr_members : list Endpoint.MemberRow;   (** its rows of [cluster_members] *)
}.
(** An instance with its owner and the tenant its project is placed for. *)
Record OwnedRow := { or_userId : string; or_tenantId : string; or_limitsCpu : string; or_limitsMemory : string }.
Record BackupRow := { bk_tenantId : string; bk_createdBy : string; bk_failed : bool }.

Record Cloud := {
  cd_tenants : list TenantRow;
  cd_placements : list PlacementRow;
  cd_clusters : list ClusterRow;
  cd_instances : list (string * string * string);          (** cluster, project, name *)
  cd_owned : list OwnedRow;
  cd_backups : list BackupRow;
  cd_shares : list (string * string * UserQuotas);         (** tenant, user *)
  cd_jobs : Jobs.table;
  cd_k8s : list (Services.K8sRow * string);                (** with who created it *)
}.
Definition with_jobs (db : Cloud) (tbl : Jobs.table) : Cloud :=
  {| cd_tenants := cd_tenants db; cd_placements := cd_placements db; cd_clusters := cd_clusters db; cd_instances := cd_instances db;
     cd_owned := cd_owned db; cd_backups := cd_backups db; cd_shares := cd_shares db; cd_jobs := tbl; cd_k8s := cd_k8s db |}.
Definition with_placements (db : Cloud) (l : list PlacementRow) : Cloud :=
  {| cd_tenants := cd_tenants db; cd_placements := l; cd_clusters := cd_clusters db; cd_instances := cd_instances db;
     cd_owned := cd_owned db; cd_backups := cd_backups db; cd_shares := cd_shares db; cd_jobs := cd_jobs db; cd_k8s := cd_k8s db |}.
Definition with_k8s (db : Cloud) (l : list (Services.K8sRow * string)) : Cloud :=
  {| cd_tenants := cd_tenants db; cd_placements := cd_placements db; cd_clusters := cd_clusters db; cd_instances := cd_instances db;
     cd_owned := cd_owned db; cd_backups := cd_backups db; cd_shares := cd_shares db; cd_jobs := cd_jobs db; cd_k8s := l |}.

Definition tenant_by_id (db : Cloud) (id : string) : option TenantRow := js_find (λ t, bool_decide (tn_id t = id)) (cd_tenants db).
Definition cluster_by_id (db : Cloud) (id : string) : option ClusterRow := js_find (λ c, bool_decide (cr_id c = id)) (cd_clusters db).

(** ** What is used and promised *)

Definition amount (k : string) (payload : list (string * Json)) : Z :=
  match map_get payload k with Some (JNum n) => n | _ => 0 end.
Definition usage_json (u : Usage) : Json := JObj ((λ k, (key_name k, JNum (u k))) <$> KEYS).
(** A Kubernetes create carries its total; a create its instance's sizes. *)
Definition pending_usage (payload : list (string * Json)) : Usage :=
  match map_get payload "usage" with
  | Some (JObj l) => λ k, amount (key_name k) l
  | _ => λ k, match k with Instances => 1 | Cpu => amount "cpu" payload | Memory => amount "memory" payload | Disk => amount "disk" payload end
  end.
Definition is_pending (tenantId : string) (j : Jobs.Job) : bool :=
  bool_decide (Jobs.j_tenantId j = Some tenantId) && includes ["create"; "k8s-create"] (Jobs.j_type j) && Jobs.is_active (Jobs.j_state j).
Definition pendingOf (tbl : Jobs.table) (tenantId : string) : Usage :=
  sumUsage ((λ j, Some (pending_usage (Jobs.j_payload j))) <$> js_filter (is_pending tenantId) tbl).

(** The usage recorded of each placement of a tenant. *)
Definition usages_of (db : Cloud) (tenantId : string) : list (option Usage) :=
  pm_usage <$> js_filter (λ p, bool_decide (pm_tenantId p = tenantId)) (cd_placements db).

(** [placed]: what was recorded when the placements were read. *)
Definition needPool (q : Quotas) (placed : list (option Usage)) (pending request : Usage) : result unit :=
  match exceeds q (sumUsage (placed ++ [Some pending])) request with
  | [] => Ok ()
  | over => throw 409 "quota_exceeded" ("Over the tenant's quota: " +++ join ", " over)
  end.

(** ** A user's share ([limits.ts]) *)

Definition bytesOf (v : option string) : Z := Facade.bytes_of (default EmptyString v).

Definition userQuotaOf (db : Cloud) (tenantId userId : string) : UserQuotas :=
  match js_find (λ r, bool_decide (r.1 = (tenantId, userId))) (cd_shares db) with
  | Some r => r.2
  | None => {| uq_instances := None; uq_cpu := None; uq_memory := None; uq_backups := None |}
  end.
Definition sum (l : list Z) : Z := foldl Z.add 0 l.
(** [Number(s) || 0]; fractions of a core are not modelled. *)
Definition number_or_zero (s : string) : Z := default 0 (JsNumber.integer_of s).

Definition is_own_create (tenantId userId : string) (j : Jobs.Job) : bool :=
  bool_decide (Jobs.j_type j = "create") && bool_decide (Jobs.j_tenantId j = Some tenantId) && bool_decide (Jobs.j_actorType j = "user")
  && bool_decide (Jobs.j_actorId j = userId) && Jobs.is_active (Jobs.j_state j).
Definition userUsage (db : Cloud) (tenantId userId : string) : UserAmounts :=
  let owned := js_filter (λ o, bool_decide (or_userId o = userId) && bool_decide (or_tenantId o = tenantId)) (cd_owned db) in
  let pending := Jobs.j_payload <$> js_filter (is_own_create tenantId userId) (cd_jobs db) in
  {| ua_instances := Z.of_nat (length owned + length pending);
     ua_cpu := sum ((λ o, number_or_zero (or_limitsCpu o)) <$> owned) + sum (amount "cpu" <$> pending);
     ua_memory := sum ((λ o, bytesOf (Some (or_limitsMemory o))) <$> owned) + sum (amount "memory" <$> pending);
     ua_backups := Z.of_nat (length (js_filter (λ b, bool_decide (bk_tenantId b = tenantId) && bool_decide (bk_createdBy b = "user:" +++ userId)
                                                     && negb (bk_failed b)) (cd_backups db))) |}.
Definition needUserShare (db : Cloud) (tenantId userId : string) (request : UserAmounts) : result unit :=
  needUserQuota (userQuotaOf db tenantId userId) (userUsage db tenantId userId) request.

(** ** Creating an instance *)

Record CreateBody := {
  cb_name : string; cb_image : string; cb_type : option string; cb_cpu : Z; cb_memoryGiB : Q; cb_diskGiB : Z;
  cb_clusterId : option string; cb_labels : option (js_map string string); cb_start : option bool;
}.

Definition request_of (b : CreateBody) : Usage := λ k,
  match k with
  | Instances => 1
  | Cpu => cb_cpu b
  | Memory => K8sModel.round_Q (cb_memoryGiB b * inject_Z 1024)%Q * 1024 ^ 2
  | Disk => cb_diskGiB b * GiB
  end.
Definition chooses (b : CreateBody) : bool := truthy_opt_str (cb_clusterId b) || bool_decide (is_Some (cb_labels b)).

Definition online_sum (f : Endpoint.MemberRow → Z) (c : ClusterRow) : Z :=
  sum (f <$> js_filter (λ m, bool_decide (Endpoint.mb_status m = "Online")) (cr_members c)).
Definition candidatesOf (db : Cloud) (tenantId : string) : list Candidate :=
  js_filter (λ p, bool_decide (pm_tenantId p = tenantId)) (cd_placements db) ≫= λ p,
  match cluster_by_id db (pm_clusterId p) with
  | Some c =>
      [{| clusterId := cr_id c; clusterName := cr_name c; project := pm_project p; placementStatus := pm_status p;
          clusterStatus := cr_status c; labels := cr_labels c;
          memoryTotal := online_sum Endpoint.mb_memoryTotal c; memoryUsed := online_sum Endpoint.mb_memoryUsed c |}]
  | None => []
  end.

Definition create_payload (tenantId : string) (at_ : Candidate) (b : CreateBody) : list (string * Json) :=
  [("tenantId", JStr tenantId); ("clusterId", JStr (clusterId at_)); ("project", JStr (project at_)); ("name", JStr (cb_name b));
   ("image", JStr (cb_image b)); ("type", JStr (default "container" (cb_type b))); ("cpu", JNum (cb_cpu b));
   ("memory", JNum (request_of b Memory)); ("disk", JNum (request_of b Disk)); ("start", JBool (default true (cb_start b)))].
Definition actor_type (p : Acl.PrincipalId) : string := if Acl.p_service p then "service" else "user".
Definition create_job (tenantId : string) (p : Acl.PrincipalId) (at_ : Candidate) (b : CreateBody) : Jobs.NewJob :=
  {| Jobs.n_type := "create"; Jobs.n_payload := create_payload tenantId at_ b; Jobs.n_actorType := actor_type p; Jobs.n_actorId := Acl.p_id p;
     Jobs.n_tenantId := Some tenantId; Jobs.n_clusterIds := [clusterId at_];
     Jobs.n_instanceKey := Some (clusterId at_ +++ "/" +++ project at_ +++ "/" +++ cb_name b) |}.

(** What the transaction of a creation is locked by: the text the request named the tenant with. *)
Definition tenant_lock (tenantId : string) : string := "tenant-create:" +++ tenantId.

Section create.
Context `{!Locale} (s : Acl.Snapshot).

(** [placed]: the usages that the transaction read first. *)
Definition create_tx (placed : list (option Usage)) (db : Cloud) (p : Acl.PrincipalId) (t : TenantRow) (jobId : string) (now : Z) (b : CreateBody) :
    result (Cloud * Jobs.Job) :=
  let request := request_of b in
  needPool (tn_quotas t) placed (pendingOf (cd_jobs db) (tn_id t)) request;;
  needInstanceCaps (tn_quotas t) {| size_cpu := request Cpu; size_memory := request Memory; size_disk := request Disk |};;
  (if Acl.p_service p then Ok ()
   else needUserShare db (tn_id t) (Acl.p_id p) {| ua_instances := 1; ua_cpu := request Cpu; ua_memory := request Memory; ua_backups := 0 |});;
  match choose (request Memory) (cb_clusterId b) (cb_labels b) (candidatesOf db (tn_id t)) with
  | Refused reason => throw 409 "no_placement" reason
  | Chosen pick =>
      if includes (cd_instances db) (clusterId pick, project pick, cb_name b) then
        throw 409 "conflict" ("An instance named " +++ quoted (cb_name b) +++ " already exists in " +++ project pick +++ " on " +++ clusterName pick)
      else
        '(tbl, job) ← Jobs.enqueueJob (cd_jobs db) jobId now (create_job (tn_id t) p pick b);
        Ok (with_jobs db tbl, job)
  end.

Definition createInstance (db : Cloud) (p : Acl.PrincipalId) (tenantId : string) (jobId : string) (now : Z) (b : CreateBody) : result (Cloud * Jobs.Job) :=
  match (if AclEdit.isUuid tenantId then tenant_by_id db (AclEdit.uuid_of tenantId) else None) with
  | None => Throw (AclEdit.notFound "Not found")
  | Some t =>
      let here := "/tenants/" +++ tn_slug t in
      AclEdit.orThrow (Acl.can s p "tenant.view" here None) (AclEdit.notFound "Not found");;
      AclEdit.orThrow (Acl.can s p "instance.create" here None) AclEdit.forbidden;;
      AclEdit.orThrow (negb (chooses b) || Acl.can s p "placement.choose" here None) AclEdit.forbidden;;
      create_tx (usages_of db (tn_id t)) db p t jobId now b
  end.
End create.

(** [GET /tenants/:id/usage]: what is recorded as used, over all placements. *)
Definition usage_shown (db : Cloud) (tenantId : string) : Usage := sumUsage (usages_of db tenantId).
