(* ===== verification/K8sRoutes.v ===== *)
(** * K8sRoutes: what a tenant may ask of its Kubernetes clusters

    Models the requests of [api/kubernetes.ts] that change something: creating
    a cluster, scaling or upgrading it, deleting it, changing its addresses,
    and how its machines are listed. A request is one step: it runs in a
    transaction under the tenant's lock (and, for a new cluster, the lock of
    the Incus cluster's endpoints). What the management cluster answers is an
    argument; a failure there undoes the transaction. *)

From S2P Require Acl AclEdit Jobs Services Endpoint K8sJobs MetalLB.
From S2P Require Import Prelude JsString Effects Quota K8sModel TenantCloud.
Import Services (K8sRow, Build_K8sRow, kr_id, kr_tenantId, kr_clusterId, kr_name, kr_namespace, kr_version, kr_controlPlanes, kr_workers, kr_spec,
  kr_endpointHost, kr_endpointPort, kr_lbMember, kr_status, K8sStatus, K8sStatus_eq_dec, K8sCreating, K8sProvisioning, K8sReady, K8sDegraded, K8sDeleting,
  K8sError, KubeObject).
Open Scope Z_scope.

Definition VIP_PORT : Z := 6443.
Definition BUSY : list K8sStatus := [K8sCreating; K8sProvisioning; K8sDeleting].

(** The member that a specification's load balancer asks for. *)
Definition lbMemberOf (spec : option K8sSpec) : option string :=
  match spec with
  | Some sp => match loadBalancer sp with
               | LbInstance _ _ _ target => if truthy_str target && negb (starts_with "@" target) then Some target else None
               | _ => None
               end
  | None => None
  end.

Definition pin (member : string) (m : MachineSpec) : MachineSpec :=
  if truthy_str (ma_target m) then m
  else {| ma_type := ma_type m; ma_flavor := ma_flavor m; ma_profiles := ma_profiles m; ma_target := member |}.
Definition pin_lb (member : string) (lb : LbSpec) : LbSpec :=
  match lb with
  | LbInstance kind flavor profiles target => LbInstance kind flavor profiles (if truthy_str target then target else member)
  | lb => lb
  end.
Definition pinned (spec : K8sSpec) (member : string) : K8sSpec :=
  if negb (truthy_str member) then spec
  else {| controlPlane := pin member (controlPlane spec); worker := pin member (worker spec); loadBalancer := pin_lb member (loadBalancer spec);
          image := image spec; privileged := privileged spec; flannel := flannel spec; installKubeadm := installKubeadm spec;
          podCidr := podCidr spec; serviceCidr := serviceCidr spec; metallb := metallb spec |}.

(** ** The endpoint of a new cluster *)

Section endpoint.
Context `{!Locale} (hostname : string → string) (low high : Z).

Definition at_endpoint (clusterId host : string) (port : Z) (r : K8sRow * string) : bool :=
  bool_decide (kr_clusterId r.1 = clusterId) && bool_decide (kr_endpointHost r.1 = host) && bool_decide (kr_endpointPort r.1 = port).
Definition row_of (c : ClusterRow) : Endpoint.ClusterRow := {| Endpoint.cw_name := cr_name c; Endpoint.cw_url := cr_url c |}.
Definition members_of (c : option ClusterRow) : list Endpoint.MemberRow := from_option cr_members [] c.
Definition ports_used (db : Cloud) (clusterId host : string) : list Z :=
  (λ r, kr_endpointPort r.1) <$> js_filter (λ r, bool_decide (kr_clusterId r.1 = clusterId) && bool_decide (kr_endpointHost r.1 = host)) (cd_k8s db).

Definition vipEndpoint (db : Cloud) (clusterId host : string) (want : option string) : result Endpoint.Endpoint :=
  if some (at_endpoint clusterId host VIP_PORT) (cd_k8s db) then
    throw 409 "conflict" (host +++ ":" +++ show_Z VIP_PORT +++ " is already a Kubernetes API endpoint")
  else
    let c := cluster_by_id db clusterId in
    hm ← Endpoint.pickMember hostname (row_of <$> c) (members_of c) want;
    Ok {| Endpoint.ep_host := host; Endpoint.ep_port := VIP_PORT; Endpoint.ep_member := hm.2 |}.

Definition endpoint_for (db : Cloud) (clusterId : string) (given : option K8sSpec) (member : option string) : result Endpoint.Endpoint :=
  let picked :=
    let c := cluster_by_id db clusterId in
    Endpoint.pickEndpoint hostname (row_of <$> c) (members_of c) (ports_used db clusterId) low high
      (match lbMemberOf given with Some m => Some m | None => member end) in
  match given with
  | Some sp => match loadBalancer sp with
               | LbInstance _ _ _ _ => picked
               | LbKubeVip host _ | LbOvn host _ => vipEndpoint db clusterId host member
               end
  | None => picked
  end.
End endpoint.

(** ** Creating a cluster *)

Record K8sBody := {
  kb_tenantId : string; kb_clusterId : string; kb_name : string; kb_version : string; kb_controlPlanes : Z; kb_workers : Z;
  kb_size : option Size; kb_spec : option K8sSpec; kb_member : option string;
}.
(** [body.spec ? null : (body.size ?? "medium")], as the specification it is counted by. *)
Definition size_of (b : K8sBody) : Size := default Medium (kb_size b).
Definition spec_of (b : K8sBody) : K8sSpec := default (specFromSize (size_of b) EmptyString) (kb_spec b).

Definition with_flavor (spec : K8sSpec) (f : string) : K8sSpec :=
  {| controlPlane := {| ma_type := ma_type (controlPlane spec); ma_flavor := f; ma_profiles := ma_profiles (controlPlane spec);
                        ma_target := ma_target (controlPlane spec) |};
     worker := worker spec; loadBalancer := loadBalancer spec; image := image spec; privileged := privileged spec; flannel := flannel spec;
     installKubeadm := installKubeadm spec; podCidr := podCidr spec; serviceCidr := serviceCidr spec; metallb := metallb spec |}.
(** One node of a flavor against the maximums per instance. *)
Definition need_node (q : Quotas) (spec : K8sSpec) (f : string) : result unit :=
  let one := usageOfSpec (with_flavor spec f) 1 0 false in
  needInstanceCaps q {| size_cpu := one Cpu; size_memory := one Memory; size_disk := one Disk |}.

(** Where the tenant's project is, or the placement that an operator's request makes. *)
Definition placement_at (db : Cloud) (tenantId clusterId : string) : option (PlacementRow * ClusterRow) :=
  p ← js_find (λ p, bool_decide (pm_tenantId p = tenantId) && bool_decide (pm_clusterId p = clusterId)) (cd_placements db);
  (λ c, (p, c)) <$> cluster_by_id db (pm_clusterId p).
Definition new_placement (t : TenantRow) (clusterId : string) : PlacementRow :=
  {| pm_tenantId := tn_id t; pm_clusterId := clusterId; pm_project := tn_slug t; pm_status := "pending"; pm_usage := None |}.
(** The tables with the placement, and whether it is new. *)
Definition placed_for (db : Cloud) (t : TenantRow) (clusterId : string) (operator : bool) : result (Cloud * bool) :=
  match placement_at db (tn_id t) clusterId with
  | None =>
      if negb operator then throw 409 "not_placed" "The tenant is not placed on that cluster"
      else match cluster_by_id db clusterId with
           | None => Throw (AclEdit.notFound "No such cluster")
           | Some c =>
               if negb (bool_decide (cr_status c = "ready")) then throw 409 "cluster_not_ready" (cr_name c +++ " is not ready")
               else Ok (with_placements db (cd_placements db ++ [new_placement t clusterId]), true)
           end
  | Some (p, c) =>
      if negb (bool_decide (pm_status p = "ready")) && negb operator then
        throw 409 "not_ready" ("The tenant's project on " +++ cr_name c +++ " is not ready yet")
      else Ok (db, false)
  end.

Definition is_named (tenantId name : string) (r : K8sRow * string) : bool :=
  bool_decide (kr_tenantId r.1 = tenantId) && bool_decide (kr_name r.1 = name).
Definition k8s_count (db : Cloud) (tenantId : string) : Z :=
  Z.of_nat (length (js_filter (λ r : K8sRow * string, bool_decide (kr_tenantId r.1 = tenantId)) (cd_k8s db))).

Definition k8s_row (id : string) (t : TenantRow) (b : K8sBody) (ep : Endpoint.Endpoint) : K8sRow :=
  {| kr_id := id; kr_tenantId := tn_id t; kr_clusterId := AclEdit.uuid_of (kb_clusterId b); kr_name := kb_name b; kr_namespace := namespaceOf (tn_slug t);
     kr_version := kb_version b; kr_controlPlanes := kb_controlPlanes b; kr_workers := kb_workers b;
     kr_spec := match kb_spec b with
                | Some sp => pinned sp (Endpoint.ep_member ep)
                | None => specFromSize (size_of b) (Endpoint.ep_member ep)
                end;
     kr_endpointHost := Endpoint.ep_host ep; kr_endpointPort := Endpoint.ep_port ep; kr_lbMember := Endpoint.ep_member ep;
     kr_status := K8sCreating |}.
Definition k8s_job (type : string) (payload : list (string * Json)) (p : Acl.PrincipalId) (tenantId clusterId : string) : Jobs.NewJob :=
  {| Jobs.n_type := type; Jobs.n_payload := payload; Jobs.n_actorType := actor_type p; Jobs.n_actorId := Acl.p_id p;
     Jobs.n_tenantId := Some tenantId; Jobs.n_clusterIds := [clusterId]; Jobs.n_instanceKey := None |}.

(** [mk_placed]: the caller then asks for a reconciliation of the cluster. *)
Record Made := { mk_db : Cloud; mk_row : K8sRow; mk_job : Jobs.Job; mk_placed : bool }.

Section routes.
Context `{!Locale} (hostname : string → string) (low high : Z) (isIP : string → bool) (s : Acl.Snapshot).

Definition create_tx (db : Cloud) (p : Acl.PrincipalId) (b : K8sBody) (operator : bool) (rowId jobId : string) (now : Z) : result Made :=
  match tenant_by_id db (AclEdit.uuid_of (kb_tenantId b)) with
  | None => Throw (AclEdit.notFound "Not found")
  | Some t =>
      let spec := spec_of b in
      let clusterId := AclEdit.uuid_of (kb_clusterId b) in
      let request := usageOfSpec spec (kb_controlPlanes b) (kb_workers b) true in
      needKubernetesQuota (tn_quotas t) (k8s_count db (tn_id t));;
      need_node (tn_quotas t) spec (ma_flavor (controlPlane spec));;
      need_node (tn_quotas t) spec (ma_flavor (worker spec));;
      '(db, placedNow) ← placed_for db t clusterId operator;
      AclEdit.orThrow (negb (some (is_named (tn_id t) (kb_name b)) (cd_k8s db)))
        {| status := 409; code := "conflict"; message := "A Kubernetes cluster named " +++ quoted (kb_name b) +++ " already exists in " +++ tn_slug t |};;
      needPool (tn_quotas t) (usages_of db (tn_id t)) (pendingOf (cd_jobs db) (tn_id t)) request;;
      ep ← endpoint_for hostname low high db clusterId (kb_spec b) (kb_member b);
      let row := k8s_row rowId t b ep in
      '(tbl, job) ← Jobs.enqueueJob (cd_jobs db) jobId now
                      (k8s_job "k8s-create" [("k8sId", JStr rowId); ("name", JStr (kb_name b)); ("clusterId", JStr clusterId); ("usage", usage_json request)]
                         p (tn_id t) (kb_clusterId b));
      Ok {| mk_db := with_k8s (with_jobs db tbl) (cd_k8s db ++ [(row, Acl.subjectOf p)]); mk_row := row; mk_job := job; mk_placed := placedNow |}
  end.

Definition createK8s (db : Cloud) (p : Acl.PrincipalId) (b : K8sBody) (rowId jobId : string) (now : Z) : result Made :=
  match map_get (Acl.tenantSlugs (Acl.ids s)) (kb_tenantId b) with
  | None => Throw (AclEdit.notFound "Not found")
  | Some slug =>
      let here := "/tenants/" +++ slug in
      AclEdit.orThrow (truthy_str slug && Acl.can s p "tenant.view" here None) (AclEdit.notFound "Not found");;
      AclEdit.orThrow (Acl.can s p "k8s.provision" here None) AclEdit.forbidden;;
      AclEdit.orThrow (negb (bool_decide (is_Some (kb_size b)) && bool_decide (is_Some (kb_spec b))))
        (AclEdit.bad "invalid_request" "Give a size or a spec, not both");;
      match kb_spec b ≫= specError isIP with
      | Some why => throw 400 "invalid_request" why
      | None =>
          let at_ := "/clusters/" +++ default EmptyString (map_get (Acl.clusterNames (Acl.ids s)) (kb_clusterId b)) in
          create_tx db p b (Acl.can s p "cluster.configure" at_ None) rowId jobId now
      end
  end.

(** ** One cluster *)

Definition may (p : Acl.PrincipalId) (privilege : string) (slug : string) (r : K8sRow * string) : bool :=
  Acl.can s p privilege ("/tenants/" +++ slug +++ "/kubernetes/" +++ kr_name r.1) (Some r.2).
Definition row_by_id (db : Cloud) (id : string) : option (K8sRow * string) := js_find (λ r, bool_decide (kr_id r.1 = id)) (cd_k8s db).
(** The row, for whoever may see it, with its tenant and its Incus cluster. *)
Definition load (db : Cloud) (p : Acl.PrincipalId) (id : string) : result ((K8sRow * string) * TenantRow * ClusterRow) :=
  let gone := AclEdit.notFound "Kubernetes cluster not found" in
  match (if AclEdit.isUuid id then row_by_id db (AclEdit.uuid_of id) else None) with
  | None => Throw gone
  | Some r =>
      match tenant_by_id db (kr_tenantId r.1), cluster_by_id db (kr_clusterId r.1) with
      | Some t, Some c => AclEdit.orThrow (may p "k8s.view" (tn_slug t) r) gone;; Ok (r, t, c)
      | _, _ => Throw gone
      end
  end.

Record K8sPatch := { kp_version : option string; kp_controlPlanes : option Z; kp_workers : option Z }.
Definition patched (b : K8sPatch) (r : K8sRow) : K8sRow :=
  {| kr_id := kr_id r; kr_tenantId := kr_tenantId r; kr_clusterId := kr_clusterId r; kr_name := kr_name r; kr_namespace := kr_namespace r;
     kr_version := default (kr_version r) (kp_version b); kr_controlPlanes := default (kr_controlPlanes r) (kp_controlPlanes b);
     kr_workers := default (kr_workers r) (kp_workers b); kr_spec := kr_spec r; kr_endpointHost := kr_endpointHost r;
     kr_endpointPort := kr_endpointPort r; kr_lbMember := kr_lbMember r; kr_status := kr_status r |}.
(** Only what grows. *)
Definition growth (r next : K8sRow) : Usage := λ k,
  Z.max 0 (usageOfSpec (kr_spec r) (kr_controlPlanes next) (kr_workers next) false k - usageOfSpec (kr_spec r) (kr_controlPlanes r) (kr_workers r) false k).
Definition update_k8s (id : string) (f : K8sRow → K8sRow) (l : list (K8sRow * string)) : list (K8sRow * string) :=
  (λ r, if bool_decide (kr_id r.1 = id) then (f r.1, r.2) else r) <$> l.

Definition patch_row (db : Cloud) (id : string) (b : K8sPatch) : result (Cloud * K8sRow) :=
  match row_by_id db id with
  | None => Throw (AclEdit.notFound "Kubernetes cluster not found")
  | Some (cur, _) =>
      if includes BUSY (kr_status cur) then throw 409 "busy" (kr_name cur +++ " is being created or deleted; try again when it is ready")
      else
        let next := patched b cur in
        match (if bool_decide (kr_version next = kr_version cur) then None else upgradeError (kr_version cur) (kr_version next)) with
        | Some why => throw 409 "bad_upgrade" why
        | None =>
            let grow := growth cur next in
            (if 0 <? grow Instances then
               match tenant_by_id db (kr_tenantId cur) with
               | Some t => needPool (tn_quotas t) (usages_of db (kr_tenantId cur)) (pendingOf (cd_jobs db) (kr_tenantId cur)) grow
               | None => throw 500 "internal" "Internal error"
               end
             else Ok ());;
            Ok (with_k8s db (update_k8s id (patched b) (cd_k8s db)), next)
        end
  end.

(** [existing]: the class of the cluster as the management cluster has it, once it took the class bundle; [applied]: whether it
    took the manifest. *)
Definition patchK8s (db : Cloud) (p : Acl.PrincipalId) (id : string) (b : K8sPatch) (existing : result (option string))
    (applied : KubeObject → result unit) : result (Cloud * K8sRow) :=
  '(r, t, c) ← load db p id;
  AclEdit.orThrow (may p "k8s.provision" (tn_slug t) r) AclEdit.forbidden;;
  '(db, saved) ← patch_row db (kr_id r.1) b;
  className ← existing;
  applied (K8sJobs.clusterManifest saved className (K8sJobs.secretNameOf (cr_name c)));;
  Ok (db, saved).

Definition is_k8s_job (type id : string) (st : Jobs.JobState) (j : Jobs.Job) : bool :=
  bool_decide (Jobs.j_type j = type) && bool_decide (Jobs.j_state j = st) && match map_get (Jobs.j_payload j) "k8sId" with Some (JStr x) => bool_decide (x = id) | _ => false end.
Definition set_status (st : K8sStatus) (r : K8sRow) : K8sRow :=
  {| kr_id := kr_id r; kr_tenantId := kr_tenantId r; kr_clusterId := kr_clusterId r; kr_name := kr_name r; kr_namespace := kr_namespace r;
     kr_version := kr_version r; kr_controlPlanes := kr_controlPlanes r; kr_workers := kr_workers r; kr_spec := kr_spec r;
     kr_endpointHost := kr_endpointHost r; kr_endpointPort := kr_endpointPort r; kr_lbMember := kr_lbMember r; kr_status := st |}.

(** A creation still running stops: its job is cancelled, or told to. *)
Definition stop_create (tbl : Jobs.table) (id : string) (now : Z) : Jobs.table :=
  Jobs.update (Jobs.update tbl (is_k8s_job "k8s-create" id Jobs.Queued) (Jobs.cancel_queued_change now))
    (is_k8s_job "k8s-create" id Jobs.Running) Jobs.cancel_running_change.
Definition deleteK8s (db : Cloud) (p : Acl.PrincipalId) (id jobId : string) (now : Z) : result (Cloud * Jobs.Job) :=
  '(r, t, _) ← load db p id;
  AclEdit.orThrow (may p "k8s.delete" (tn_slug t) r) AclEdit.forbidden;;
  AclEdit.orThrow (negb (some (λ j, is_k8s_job "k8s-delete" (kr_id r.1) Jobs.Queued j || is_k8s_job "k8s-delete" (kr_id r.1) Jobs.Running j) (cd_jobs db)))
    {| status := 409; code := "conflict"; message := kr_name r.1 +++ " is already being deleted" |};;
  '(tbl, job) ← Jobs.enqueueJob (stop_create (cd_jobs db) (kr_id r.1) now) jobId now
                  (k8s_job "k8s-delete" [("k8sId", JStr (kr_id r.1)); ("name", JStr (kr_name r.1)); ("clusterId", JStr (kr_clusterId r.1))]
                     p (kr_tenantId r.1) (kr_clusterId r.1));
  Ok (with_k8s (with_jobs db tbl) (update_k8s (kr_id r.1) (set_status K8sDeleting) (cd_k8s db)), job).

Definition with_addresses (addresses : list string) (r : K8sRow) : K8sRow :=
  let sp := kr_spec r in
  {| kr_id := kr_id r; kr_tenantId := kr_tenantId r; kr_clusterId := kr_clusterId r; kr_name := kr_name r; kr_namespace := kr_namespace r;
     kr_version := kr_version r; kr_controlPlanes := kr_controlPlanes r; kr_workers := kr_workers r;
     kr_spec := {| controlPlane := controlPlane sp; worker := worker sp; loadBalancer := loadBalancer sp; image := image sp; privileged := privileged sp;
                   flannel := flannel sp; installKubeadm := installKubeadm sp; podCidr := podCidr sp; serviceCidr := serviceCidr sp;
                   metallb := match addresses with [] => None | _ => Some addresses end |};
     kr_endpointHost := kr_endpointHost r; kr_endpointPort := kr_endpointPort r; kr_lbMember := kr_lbMember r; kr_status := kr_status r |}.
Definition putAddresses (db : Cloud) (p : Acl.PrincipalId) (id jobId : string) (now : Z) (addresses : list string) : result (Cloud * Jobs.Job) :=
  '(r, t, _) ← load db p id;
  AclEdit.orThrow (may p "k8s.provision" (tn_slug t) r) AclEdit.forbidden;;
  let addresses := trim <$> addresses in
  match js_find (λ x, bool_decide (MetalLB.parseRange x = None)) addresses with
  | Some bad => throw 400 "invalid_request" (quoted bad +++ " is not an IPv4 range (a.b.c.d-e.f.g.h), CIDR or address")
  | None =>
      '(tbl, job) ← Jobs.enqueueJob (cd_jobs db) jobId now
                      (k8s_job "k8s-metallb" [("k8sId", JStr (kr_id r.1)); ("name", JStr (kr_name r.1))] p (kr_tenantId r.1) (kr_clusterId r.1));
      Ok (with_k8s (with_jobs db tbl) (update_k8s (kr_id r.1) (with_addresses addresses) (cd_k8s db)), job)
  end.
End routes.

(** ** The machines of a cluster ([nodeOf]) *)

Record Machine := {
  mc_name : string; mc_labels : js_map string string; mc_version : option string; mc_infrastructure : option string;
  mc_phase : option string; mc_nodeRef : option string; mc_conditions : list (string * string);
}.
Record Node := { nd_name : string; nd_controlPlane : bool; nd_instance : string; nd_phase : string; nd_version : string; nd_ready : bool }.
Definition nodeOf (m : Machine) : Node :=
  {| nd_name := mc_name m; nd_controlPlane := bool_decide (is_Some (map_get (mc_labels m) "cluster.x-k8s.io/control-plane"));
     nd_instance := default (default EmptyString (mc_nodeRef m)) (mc_infrastructure m); nd_phase := default "Pending" (mc_phase m);
     nd_version := default EmptyString (mc_version m);
     nd_ready := bool_decide (snd <$> js_find (λ c, bool_decide (c.1 = "Ready")) (mc_conditions m) = Some "True") |}.
(** The control plane first, then by name. *)
Definition node_order `{!Locale} (a b : Node) : comparison :=
  if Bool.eqb (nd_controlPlane a) (nd_controlPlane b) then locale_compare (nd_name a) (nd_name b) else if nd_controlPlane a then Lt else Gt.
Definition nodes `{!Locale} (machines : list Machine) : list Node := js_sort node_order (nodeOf <$> machines).
