(* ===== verification/TenantCloudTheory.v ===== *)
(** * TenantCloudTheory: a tenant's pool is not promised twice

    What the requests of [TenantCloud] and [K8sRoutes] keep, one after the
    other and with everything else in between: what a tenant was promised stays
    within its pool as long as what was made is recorded before the next
    request is decided, and the clusters of a tenant keep apart. *)

From Stdlib Require Import QArith.QArith_base.
From S2P Require Acl AclEdit AclEditTheory Jobs JobsTheory Services Endpoint K8sJobs.
From S2P Require Import Prelude JsString Effects Quota K8sModel TenantCloud K8sRoutes.
Import Services (K8sRow, Build_K8sRow, kr_id, kr_tenantId, kr_clusterId, kr_name, kr_endpointHost, kr_endpointPort, kr_spec, kr_controlPlanes,
  kr_workers, kr_status).
Open Scope Z_scope.

(** ** What pending jobs will use *)

Definition pend (t : string) (k : Key) (j : Jobs.Job) : Z := if is_pending t j then pending_usage (Jobs.j_payload j) k else 0.
Fixpoint total {A} (f : A → Z) (l : list A) : Z := match l with [] => 0 | x :: l => f x + total f l end.

Lemma sum_app {A} (f : A → Z) l l' : total f (l ++ l') = total f l + total f l'.
Proof. induction l as [|x l IH]; simpl; [done|]. rewrite IH. lia. Qed.
Lemma sum_insert {A} (f : A → Z) l i x y : l !! i = Some x → total f (<[i := y]> l) = total f l - f x + f y.
Proof. revert i. induction l as [|z l IH]; intros [|i] H; simplify_eq/=; [lia|]. rewrite (IH i) by done. lia. Qed.
Lemma sum_le {A} (f : A → Z) (g : A → A) l : (∀ x, x ∈ l → f (g x) ≤ f x) → total f (g <$> l) ≤ total f l.
Proof.
  induction l as [|x l IH]; intros H; [done|]. rewrite fmap_cons. cbn [total]. pose proof (H x ltac:(set_solver)).
  specialize (IH (λ y Hy, H y (list_elem_of_further _ _ _ Hy))). lia.
Qed.
Lemma sum_delete_le {A} (f : A → Z) l i : (∀ x, x ∈ l → 0 ≤ f x) → total f (delete i l) ≤ total f l.
Proof.
  revert i. induction l as [|z l IH]; intros [|i] H; [done|done| |]; pose proof (H z ltac:(set_solver)) as Hz.
  - change (total f l ≤ f z + total f l). lia.
  - change (f z + total f (delete i l) ≤ f z + total f l). specialize (IH i (λ y Hy, H y (list_elem_of_further _ _ _ Hy))). lia.
Qed.

Lemma sumUsage_total us k : sumUsage us k = total (λ u, default ZERO u k) us.
Proof. induction us as [|u us IH]; [done|]. by rewrite sumUsage_cons, IH. Qed.
Lemma pendingOf_total tbl t k : pendingOf tbl t k = total (pend t k) tbl.
Proof.
  unfold pendingOf. rewrite sumUsage_total. induction tbl as [|j tbl IH]; [done|]. cbn [total]. rewrite <-IH. unfold pend.
  change (js_filter (is_pending t) (j :: tbl)) with (if is_pending t j then j :: js_filter (is_pending t) tbl else js_filter (is_pending t) tbl).
  by destruct (is_pending t j).
Qed.

(** ** A tenant's cloud over time *)

(** [wd_made]: what was made for each tenant by what ended, and still exists. *)
Record World := { wd_cloud : Cloud; wd_made : list (string * Usage) }.
Definition made_for (t : string) (k : Key) (m : string * Usage) : Z := if bool_decide (m.1 = t) then m.2 k else 0.
Definition made (w : World) (t : string) (k : Key) : Z := total (made_for t k) (wd_made w).
Definition promised (w : World) (t : string) (k : Key) : Z := made w t k + pendingOf (cd_jobs (wd_cloud w)) t k.
(** What was made is in the usages that are recorded. *)
Definition accounted (w : World) (t : string) : Prop := ∀ k, made w t k ≤ usage_shown (wd_cloud w) t k.

Definition job_in (st : Jobs.JobState) (j : Jobs.Job) : Jobs.Job :=
  Jobs.changed {| Jobs.c_state := Some st; Jobs.c_error := None; Jobs.c_result := None; Jobs.c_finishedAt := None; Jobs.c_startedAt := None;
                  Jobs.c_heartbeatAt := None; Jobs.c_holder := None; Jobs.c_cancel := false; Jobs.c_progress := None |} j.
(** What a job leaves behind when it ends: what it was to make, or nothing. *)
Definition left_by (j : Jobs.Job) (st : Jobs.JobState) (kept : bool) : list (string * Usage) :=
  match Jobs.j_tenantId j with
  | Some t => if kept && is_pending t j && negb (Jobs.is_active st) then [(t, pending_usage (Jobs.j_payload j))] else []
  | None => []
  end.

(** What keeps clusters apart: where their APIs are, and their names in a tenant. *)
Definition endpoint_of (r : K8sRow * string) : string * string * Z := (kr_clusterId r.1, kr_endpointHost r.1, kr_endpointPort r.1).
Definition name_of (r : K8sRow * string) : string * string := (kr_tenantId r.1, kr_name r.1).
Definition keys (r : K8sRow * string) : (string * string * Z) * (string * string) := (endpoint_of r, name_of r).
Definition apart (db : Cloud) : Prop := NoDup (endpoint_of <$> cd_k8s db) ∧ NoDup (name_of <$> cd_k8s db).

Section cloud.
Context {L : Locale} (hostname : string → string) (low high : Z) (isIP : string → bool).
Abbreviation createK8s := (createK8s hostname low high isIP).

Inductive turn : World → World → Prop :=
  | turn_create w s p t jobId now b db' job :
      (∀ k, 0 ≤ request_of b k) →
      createInstance s (wd_cloud w) p t jobId now b = Ok (db', job) →
      accounted w (AclEdit.uuid_of t) →
      turn w {| wd_cloud := db'; wd_made := wd_made w |}
  | turn_k8s w s p b rowId jobId now m :
      (∀ k, 0 ≤ usageOfSpec (spec_of b) (kb_controlPlanes b) (kb_workers b) true k) →
      createK8s s (wd_cloud w) p b rowId jobId now = Ok m →
      accounted w (AclEdit.uuid_of (kb_tenantId b)) →
      turn w {| wd_cloud := mk_db m; wd_made := wd_made w |}
  | turn_patch w s p id b existing applied db' row cur by_ :
      patchK8s s (wd_cloud w) p id b existing applied = Ok (db', row) →
      row_by_id (wd_cloud w) (AclEdit.uuid_of id) = Some (cur, by_) →
      accounted w (kr_tenantId cur) →
      (* Machines are not traded for larger ones. *)
      (0 < growth cur row Instances ∨ ∀ k, growth cur row k = 0) →
      turn w {| wd_cloud := db'; wd_made := wd_made w ++ [(kr_tenantId cur, growth cur row)] |}
  | turn_delete w s p id jobId now db' job :
      deleteK8s s (wd_cloud w) p id jobId now = Ok (db', job) →
      turn w {| wd_cloud := db'; wd_made := wd_made w |}
  | turn_addresses w s p id jobId now addresses db' job :
      putAddresses s (wd_cloud w) p id jobId now addresses = Ok (db', job) →
      turn w {| wd_cloud := db'; wd_made := wd_made w |}
  | turn_job w i j st kept :
      cd_jobs (wd_cloud w) !! i = Some j →
      (Jobs.is_active st = true → Jobs.is_active (Jobs.j_state j) = true) →
      turn w {| wd_cloud := with_jobs (wd_cloud w) (<[i := job_in st j]> (cd_jobs (wd_cloud w))); wd_made := wd_made w ++ left_by j st kept |}
  | turn_gone w i :
      turn w {| wd_cloud := wd_cloud w; wd_made := delete i (wd_made w) |}
  (* Usages are recorded, clusters go, inventories are read. *)
  | turn_elsewhere w db' :
      cd_tenants db' = cd_tenants (wd_cloud w) → cd_jobs db' = cd_jobs (wd_cloud w) →
      (keys <$> cd_k8s db') `sublist_of` (keys <$> cd_k8s (wd_cloud w)) →
      turn w {| wd_cloud := db'; wd_made := wd_made w |}.

(** Nothing pending takes less than nothing, nor does anything made. *)
Definition sound (w : World) : Prop :=
  (∀ j t k, j ∈ cd_jobs (wd_cloud w) → 0 ≤ pend t k j) ∧ ∀ m k, m ∈ wd_made w → 0 ≤ m.2 k.
Definition within (w : World) : Prop := ∀ t row k n,
  tenant_by_id (wd_cloud w) t = Some row → quotaBytes (tn_quotas row) k = Some n → promised w t k ≤ n.

Inductive runs (w0 : World) : World → Prop :=
  | runs_start : runs w0 w0
  | runs_turn w w' : runs w0 w → turn w w' → runs w0 w'.
End cloud.

(** ** What a request that is let through did *)

Lemma needPool_Ok q placed pending request : needPool q placed pending request = Ok () →
  ∀ k n, quotaBytes q k = Some n → request k ≠ 0 → sumUsage placed k + pending k + request k ≤ n.
Proof.
  unfold needPool. destruct (exceeds _ _ _) eqn:E; [|done]. intros _ k n Hq Hr.
  pose proof (proj1 (exceeds_nil _ _ _) E k n Hq Hr) as H. rewrite sumUsage_app, sumUsage_cons in H. change (sumUsage [] k) with 0 in H. simpl in H. lia.
Qed.

(** The checks of a request, one by one. *)
Ltac passes H :=
  repeat match type of H with @mbind _ _ unit _ _ _ = Ok _ => apply result_bind_Ok in H as ([] & ? & H) end.

Lemma enqueue_Ok tbl id now n tbl' j : Jobs.enqueueJob tbl id now n = Ok (tbl', j) →
  tbl' = tbl ++ [j] ∧ Jobs.j_tenantId j = Jobs.n_tenantId n ∧ Jobs.j_type j = Jobs.n_type n ∧ Jobs.j_payload j = Jobs.n_payload n ∧ Jobs.j_state j = Jobs.Queued.
Proof. unfold Jobs.enqueueJob. destruct (Jobs.busy _ _); [done|]. intros [= <- <-]. done. Qed.

Lemma pend_new t k j n : Jobs.j_tenantId j = Some t → Jobs.j_type j = n → Jobs.j_state j = Jobs.Queued → ∀ t',
  pend t' k j = if bool_decide (t' = t) && includes ["create"; "k8s-create"] n then pending_usage (Jobs.j_payload j) k else 0.
Proof.
  intros Ht Hty Hs t'. unfold pend, is_pending. rewrite Ht, Hty, Hs. cbn [Jobs.is_active]. rewrite andb_true_r.
  by rewrite (bool_decide_ext (Some t = Some t') (t' = t)) by (split; congruence).
Qed.
Lemma create_payload_usage t at_ b k : pending_usage (create_payload t at_ b) k = request_of b k.
Proof. by destruct k. Qed.
Lemma usage_json_usage id name c u k : pending_usage [("k8sId", JStr id); ("name", JStr name); ("clusterId", JStr c); ("usage", usage_json u)] k = u k.
Proof. by destruct k. Qed.

(** *** Creating an instance, a cluster *)

Section requests.
Context {L : Locale} (hostname : string → string) (low high : Z) (isIP : string → bool).

(** What a request adds: one job, and what it will use fits the pool. *)
Definition admitted (db db' : Cloud) (t : string) (request : Usage) (job : Jobs.Job) : Prop :=
  cd_tenants db' = cd_tenants db ∧ cd_jobs db' = cd_jobs db ++ [job] ∧ (∀ t' k, pend t' k job = if bool_decide (t' = t) then request k else 0)
  ∧ ∃ row, tenant_by_id db t = Some row ∧ ∀ k n, quotaBytes (tn_quotas row) k = Some n → request k ≠ 0 →
      usage_shown db t k + pendingOf (cd_jobs db) t k + request k ≤ n.

Lemma tenant_by_id_id db t row : tenant_by_id db t = Some row → tn_id row = t.
Proof. intros H%js_find_some. destruct H as [_ H]. by apply bool_decide_eq_true in H. Qed.

Lemma createInstance_Ok s db p t jobId now b db' job : createInstance s db p t jobId now b = Ok (db', job) →
  admitted db db' (AclEdit.uuid_of t) (request_of b) job ∧ cd_k8s db' = cd_k8s db.
Proof.
  unfold createInstance. destruct (AclEdit.isUuid t); [|done]. destruct (tenant_by_id db (AclEdit.uuid_of t)) as [row|] eqn:Ht; [|done].
  pose proof (tenant_by_id_id _ _ _ Ht) as Hid. rewrite <-Hid in Ht |- *. clear Hid. intros H. passes H. unfold TenantCloud.create_tx in H. passes H.
  destruct (choose _ _ _ _) as [pick|]; [|done]. destruct (includes _ _); [done|].
  apply result_bind_Ok in H as ([tbl j] & Hj & H). simplify_eq. apply enqueue_Ok in Hj as (-> & Hjt & Hjy & Hjp & Hjs).
  split; [|done]. split_and!; try done.
  - intros t' k. rewrite (pend_new _ _ _ _ Hjt Hjy Hjs). cbn. rewrite andb_true_r, Hjp. done.
  - exists row. split; [done|]. by apply (needPool_Ok (tn_quotas row)).
Qed.

Lemma endpoint_free db c given member ep : endpoint_for hostname low high db c given member = Ok ep →
  (c, Endpoint.ep_host ep, Endpoint.ep_port ep) ∉ endpoint_of <$> cd_k8s db.
Proof.
  assert (∀ host port, port ∉ ports_used db c host → (c, host, port) ∉ endpoint_of <$> cd_k8s db) as Hused.
  { intros host port Hn (r & Hr & Hin)%list_elem_of_fmap. apply Hn. unfold endpoint_of in Hr. simplify_eq. apply list_elem_of_fmap.
    exists r. split; [done|]. apply elem_of_js_filter. split; [done|]. by rewrite !bool_decide_eq_true_2. }
  unfold endpoint_for.
  assert (∀ want, Endpoint.pickEndpoint hostname (row_of <$> cluster_by_id db c) (members_of (cluster_by_id db c)) (ports_used db c) low high want = Ok ep →
    (c, Endpoint.ep_host ep, Endpoint.ep_port ep) ∉ endpoint_of <$> cd_k8s db) as Hpick.
  { intros want H. unfold Endpoint.pickEndpoint in H. apply result_bind_Ok in H as ([host member'] & _ & H).
    destruct (js_find _ _) as [port|] eqn:Hf; [|done]. simplify_eq. cbn. apply js_find_some in Hf as [_ Hf%negb_true_iff%includes_false]. by apply Hused. }
  assert (∀ host, vipEndpoint hostname db c host member = Ok ep → (c, Endpoint.ep_host ep, Endpoint.ep_port ep) ∉ endpoint_of <$> cd_k8s db) as Hvip.
  { intros host H. unfold vipEndpoint in H. destruct (some _ _) eqn:Hs; [done|]. apply result_bind_Ok in H as (hm & _ & H). simplify_eq. cbn.
    intros (r & Hr & Hin)%list_elem_of_fmap. pose proof (proj1 (some_false _ _) Hs r Hin) as Hn. unfold at_endpoint in Hn. unfold endpoint_of in Hr.
    simplify_eq. by rewrite !bool_decide_eq_true_2 in Hn. }
  destruct given as [sp|]; [|by apply Hpick]. destruct (loadBalancer sp); eauto.
Qed.

Lemma placed_for_same db t c op db' b : placed_for db t c op = Ok (db', b) →
  cd_tenants db' = cd_tenants db ∧ cd_jobs db' = cd_jobs db ∧ cd_k8s db' = cd_k8s db ∧ ∀ k, usage_shown db' (tn_id t) k = usage_shown db (tn_id t) k.
Proof.
  unfold placed_for. destruct (placement_at _ _ _) as [[pl cl]|]; [destruct (_ && _); [done|]; intros [= <- <-]; done|].
  destruct op; [|done]. simpl. destruct (cluster_by_id _ _) as [cl|]; [|done]. destruct (negb _); [done|]. intros [= <- <-]. split_and!; [done..|].
  intros k. unfold usage_shown, usages_of. cbn. rewrite js_filter_snoc. cbn. rewrite bool_decide_eq_true_2 by done.
  rewrite fmap_app, sumUsage_app. cbn. unfold ZERO. lia.
Qed.

Lemma createK8s_Ok s db p b rowId jobId now m : createK8s hostname low high isIP s db p b rowId jobId now = Ok m →
  admitted db (mk_db m) (AclEdit.uuid_of (kb_tenantId b)) (usageOfSpec (spec_of b) (kb_controlPlanes b) (kb_workers b) true) (mk_job m)
  ∧ ∃ by_ : string, cd_k8s (mk_db m) = cd_k8s db ++ [(mk_row m, by_)]
      ∧ (endpoint_of (mk_row m, by_) ∉ endpoint_of <$> cd_k8s db) ∧ (name_of (mk_row m, by_) ∉ name_of <$> cd_k8s db).
Proof.
  unfold K8sRoutes.createK8s. destruct (map_get _ _) as [slug|]; [|done]. intros H. passes H. destruct (kb_spec b ≫= specError isIP); [done|].
  unfold K8sRoutes.create_tx in H. destruct (tenant_by_id db (AclEdit.uuid_of (kb_tenantId b))) as [t|] eqn:Ht; [|done]. pose proof (tenant_by_id_id _ _ _ Ht) as Hid.
  passes H. apply result_bind_Ok in H as ([db1 placedNow] & Hp & H). apply placed_for_same in Hp as (Hpt & Hpj & Hpk & Hpu).
  apply result_bind_Ok in H as ([] & Hn & H). apply AclEditTheory.orThrow_Ok, negb_true_iff in Hn. apply result_bind_Ok in H as ([] & Hq & H).
  apply result_bind_Ok in H as (ep & Hep & H). apply result_bind_Ok in H as ([tbl j] & Hj & H). simplify_eq. cbn.
  apply enqueue_Ok in Hj as (-> & Hjt & Hjy & Hjp & Hjs). rewrite Hpk in *. rewrite Hpj in *. split; [split_and!; cbn; try done|].
  - intros t' k. rewrite (pend_new _ _ _ _ Hjt Hjy Hjs). cbn [includes k8s_job Jobs.n_type]. rewrite Hjp. cbn [k8s_job Jobs.n_payload].
    rewrite usage_json_usage, Hid. by rewrite andb_true_r.
  - exists t. split; [done|]. intros k n Hqk Hr. rewrite <-Hid, <-Hpu.
    by apply (needPool_Ok _ _ _ _ Hq k n Hqk Hr).
  - exists (Acl.subjectOf p). split; [done|]. split.
    + apply endpoint_free in Hep. by rewrite Hpk in Hep.
    + intros (r & Hr & Hin)%list_elem_of_fmap. pose proof (proj1 (some_false _ _) Hn r Hin) as Hno. unfold is_named in Hno. unfold name_of in Hr.
      cbn in Hr. injection Hr as Hr1 Hr2. rewrite <-Hr1, <-Hr2 in Hno. by rewrite !bool_decide_eq_true_2 in Hno.
Qed.
End requests.

(** *** Changing and deleting a cluster *)

Lemma keys_update id f l : (∀ r by_, keys (f r, by_) = keys (r, by_)) → keys <$> update_k8s id f l = keys <$> l.
Proof.
  intros Hf. unfold update_k8s. rewrite <-list_fmap_compose. apply list_fmap_ext. intros i [r by_] _. cbn.
  destruct (bool_decide _); [apply Hf|done].
Qed.

Lemma load_Ok s db p id r t c : load s db p id = Ok (r, t, c) → row_by_id db (AclEdit.uuid_of id) = Some r ∧ kr_id r.1 = AclEdit.uuid_of id ∧ tenant_by_id db (kr_tenantId r.1) = Some t.
Proof.
  unfold load. destruct (AclEdit.isUuid id); [|done]. destruct (row_by_id db (AclEdit.uuid_of id)) as [r'|] eqn:Hr; [|done].
  destruct (tenant_by_id db (kr_tenantId r'.1)) as [t'|] eqn:Ht; [|done]. destruct (cluster_by_id _ _); [|done].
  intros ([] & _ & H)%result_bind_Ok. simplify_eq. split; [done|]. split; [|done].
  apply js_find_some in Hr as [_ Hr]. by apply bool_decide_eq_true in Hr.
Qed.

Lemma patchK8s_Ok s db p id b existing applied db' row cur by_ :
  patchK8s s db p id b existing applied = Ok (db', row) → row_by_id db (AclEdit.uuid_of id) = Some (cur, by_) →
  cd_tenants db' = cd_tenants db ∧ cd_jobs db' = cd_jobs db ∧ keys <$> cd_k8s db' = keys <$> cd_k8s db
  ∧ (0 < growth cur row Instances → ∀ t k n, tenant_by_id db (kr_tenantId cur) = Some t → quotaBytes (tn_quotas t) k = Some n → growth cur row k ≠ 0 →
       usage_shown db (kr_tenantId cur) k + pendingOf (cd_jobs db) (kr_tenantId cur) k + growth cur row k ≤ n).
Proof.
  intros H Hcur. unfold patchK8s in H. apply result_bind_Ok in H as ([[r t] c] & Hl & H). apply load_Ok in Hl as (Hr & Hid & Ht). passes H.
  apply result_bind_Ok in H as ([db1 saved] & Hp & H). apply result_bind_Ok in H as (cn & _ & H). passes H. simplify_eq.
  unfold patch_row in Hp. rewrite Hid, Hr in Hp. cbn in Hp. destruct (includes _ _); [done|].
  destruct (if bool_decide _ then _ else _); [done|]. apply result_bind_Ok in Hp as ([] & Hq & Hp). simplify_eq. split_and!; [done..| |].
  - by apply keys_update.
  - intros Hg t' k n Ht' Hk Hne. cbn in Ht, Hq. rewrite (proj2 (Z.ltb_lt _ _) Hg), Ht in Hq. simplify_eq.
    by apply (needPool_Ok _ _ _ _ Hq).
Qed.

Lemma pend_changed t k c j : (∀ st, Jobs.c_state c = Some st → Jobs.is_active st = true → Jobs.is_active (Jobs.j_state j) = true) →
  0 ≤ pend t k j → 0 ≤ pend t k (Jobs.changed c j) ≤ pend t k j.
Proof.
  intros Hc. unfold pend, is_pending. cbn. destruct (Jobs.c_state c) as [st|] eqn:E; cbn; [|lia]. specialize (Hc st eq_refl).
  destruct (_ && includes _ _); cbn; [|lia]. destruct (Jobs.is_active st); cbn; [rewrite Hc by done; lia|]. destruct (Jobs.is_active _); lia.
Qed.

Lemma stop_create_le tbl id now : (∀ j t k, j ∈ tbl → 0 ≤ pend t k j) →
  (∀ j t k, j ∈ stop_create tbl id now → 0 ≤ pend t k j) ∧ ∀ t k, total (pend t k) (stop_create tbl id now) ≤ total (pend t k) tbl.
Proof.
  assert (∀ p c tbl, Jobs.c_state c = None ∨ Jobs.c_state c = Some Jobs.Cancelled → (∀ j t k, j ∈ tbl → 0 ≤ pend t k j) →
    (∀ j t k, j ∈ Jobs.update tbl p c → 0 ≤ pend t k j) ∧ ∀ t k, total (pend t k) (Jobs.update tbl p c) ≤ total (pend t k) tbl) as Hone.
  { clear. intros p c tbl Hc Htbl.
    assert (∀ j t k, j ∈ tbl → 0 ≤ pend t k (if p j then Jobs.changed c j else j) ≤ pend t k j) as Hj.
    { intros j t k Hj. specialize (Htbl j t k Hj). destruct (p j); [|lia]. apply pend_changed; [|done]. intros st Hst. destruct Hc; by simplify_eq. }
    split; [|intros t k; apply sum_le; intros j Hin; apply Hj, Hin].
    intros j t k (j' & -> & Hin)%list_elem_of_fmap. by apply Hj. }
  intros Htbl. unfold stop_create. destruct (Hone (is_k8s_job "k8s-create" id Jobs.Queued) (Jobs.cancel_queued_change now) tbl) as [H1 H2]; [by right|done|].
  destruct (Hone (is_k8s_job "k8s-create" id Jobs.Running) Jobs.cancel_running_change _ (or_introl eq_refl) H1) as [H3 H4].
  split; [done|]. intros t k. specialize (H2 t k). specialize (H4 t k). lia.
Qed.

(** What a request that makes nothing does to jobs: nothing more is pending. *)
Definition no_more (tbl tbl' : Jobs.table) : Prop := (∀ j t k, j ∈ tbl → 0 ≤ pend t k j) →
  (∀ j t k, j ∈ tbl' → 0 ≤ pend t k j) ∧ ∀ t k, total (pend t k) tbl' ≤ total (pend t k) tbl.
Lemma no_more_snoc tbl tbl' j : no_more tbl tbl' → (∀ t k, pend t k j = 0) → no_more tbl (tbl' ++ [j]).
Proof.
  intros H Hj Htbl. destruct (H Htbl) as [H1 H2]. split.
  - intros j' t k [Hin| ->%list_elem_of_singleton]%elem_of_app; [by apply H1|by rewrite Hj].
  - intros t k. rewrite sum_app. cbn. rewrite Hj. specialize (H2 t k). lia.
Qed.
Lemma no_more_refl tbl : no_more tbl tbl.
Proof. intros Htbl. split; [done|]. intros. lia. Qed.

Lemma deleteK8s_Ok s db p id jobId now db' job : deleteK8s s db p id jobId now = Ok (db', job) →
  cd_tenants db' = cd_tenants db ∧ no_more (cd_jobs db) (cd_jobs db') ∧ keys <$> cd_k8s db' = keys <$> cd_k8s db.
Proof.
  unfold deleteK8s. intros H. apply result_bind_Ok in H as ([[r t] c] & _ & H). passes H. apply result_bind_Ok in H as ([tbl j] & Hj & H). simplify_eq.
  apply enqueue_Ok in Hj as (-> & Hjt & Hjy & Hjp & Hjs). split_and!; [done| |by apply keys_update].
  apply no_more_snoc; [intros ?; by apply stop_create_le|]. intros t' k. rewrite (pend_new _ _ _ _ Hjt Hjy Hjs). cbn. by rewrite andb_false_r.
Qed.

Lemma putAddresses_Ok s db p id jobId now addresses db' job : putAddresses s db p id jobId now addresses = Ok (db', job) →
  cd_tenants db' = cd_tenants db ∧ no_more (cd_jobs db) (cd_jobs db') ∧ keys <$> cd_k8s db' = keys <$> cd_k8s db.
Proof.
  unfold putAddresses. intros H. apply result_bind_Ok in H as ([[r t] c] & _ & H). passes H. destruct (js_find _ _); [done|].
  apply result_bind_Ok in H as ([tbl j] & Hj & H). simplify_eq.
  apply enqueue_Ok in Hj as (-> & Hjt & Hjy & Hjp & Hjs). split_and!; [done| |by apply keys_update].
  apply no_more_snoc; [apply no_more_refl|]. intros t' k. rewrite (pend_new _ _ _ _ Hjt Hjy Hjs). cbn. by rewrite andb_false_r.
Qed.

(** ** What is kept *)

Section kept.
Context {L : Locale} (hostname : string → string) (low high : Z) (isIP : string → bool).
Abbreviation turn := (turn hostname low high isIP).
Abbreviation runs := (runs hostname low high isIP).

Lemma promised_total w t k : promised w t k = total (made_for t k) (wd_made w) + total (pend t k) (cd_jobs (wd_cloud w)).
Proof. unfold promised, made. by rewrite pendingOf_total. Qed.

(** Nothing more is promised. *)
Lemma within_le w w' : cd_tenants (wd_cloud w') = cd_tenants (wd_cloud w) → (∀ t k, promised w' t k ≤ promised w t k) → within w → within w'.
Proof.
  intros Ht Hp Hw t row k n Hr Hq. specialize (Hp t k). unfold tenant_by_id in Hr. rewrite Ht in Hr. specialize (Hw t row k n Hr Hq). lia.
Qed.

(** One tenant is promised [request] more, which fits. *)
Lemma within_more w w' t request : within w → accounted w t → cd_tenants (wd_cloud w') = cd_tenants (wd_cloud w) →
  (∀ t' k, promised w' t' k = promised w t' k + if bool_decide (t' = t) then request k else 0) →
  (∀ row k n, tenant_by_id (wd_cloud w) t = Some row → quotaBytes (tn_quotas row) k = Some n → request k ≠ 0 →
     usage_shown (wd_cloud w) t k + pendingOf (cd_jobs (wd_cloud w)) t k + request k ≤ n) → within w'.
Proof.
  intros Hw Ha Ht Hp Hfit t' row k n Hr Hq. rewrite Hp. unfold tenant_by_id in Hr. rewrite Ht in Hr.
  destruct (decide (t' = t)) as [->|Hne].
  - rewrite bool_decide_eq_true_2 by done. destruct (decide (request k = 0)) as [->|Hne]; [rewrite Z.add_0_r; by eapply Hw|].
    specialize (Hfit row k n Hr Hq Hne). specialize (Ha k). unfold promised. lia.
  - rewrite bool_decide_eq_false_2, Z.add_0_r by done. by eapply Hw.
Qed.

Lemma sound_jobs w db' tbl' : sound w → no_more (cd_jobs (wd_cloud w)) tbl' → cd_jobs db' = tbl' →
  sound {| wd_cloud := db'; wd_made := wd_made w |} ∧ ∀ t k, promised {| wd_cloud := db'; wd_made := wd_made w |} t k ≤ promised w t k.
Proof.
  intros [Hj Hm] Hno <-. destruct (Hno Hj) as [H1 H2]. split; [done|]. intros t k. rewrite !promised_total. cbn. specialize (H2 t k). lia.
Qed.

Lemma admitted_kept w db' t request job : sound w → within w → accounted w t → (∀ k, 0 ≤ request k) → admitted (wd_cloud w) db' t request job →
  sound {| wd_cloud := db'; wd_made := wd_made w |} ∧ within {| wd_cloud := db'; wd_made := wd_made w |}.
Proof.
  intros [Hj Hm] Hw Ha Hpos (Ht & Hjobs & Hpend & row & Hrow & Hfit). split; [split; [|done]|].
  - intros j t' k. cbn. rewrite Hjobs. intros [Hin| ->%list_elem_of_singleton]%elem_of_app; [by apply Hj|].
    rewrite Hpend. specialize (Hpos k). case_bool_decide; lia.
  - eapply (within_more w _ t request); [done..| |].
    + intros t' k. rewrite !promised_total. cbn. rewrite Hjobs, sum_app. cbn. rewrite Hpend. lia.
    + intros row' k n Hr. simplify_eq. apply Hfit.
Qed.

Lemma left_by_le j st kept t k : (Jobs.is_active st = true → Jobs.is_active (Jobs.j_state j) = true) → 0 ≤ pend t k j →
  total (made_for t k) (left_by j st kept) + pend t k (job_in st j) ≤ pend t k j.
Proof.
  intros Hst Hpos. pose proof (pend_changed t k {| Jobs.c_state := Some st; Jobs.c_error := None; Jobs.c_result := None; Jobs.c_finishedAt := None;
    Jobs.c_startedAt := None; Jobs.c_heartbeatAt := None; Jobs.c_holder := None; Jobs.c_cancel := false; Jobs.c_progress := None |} j) as Hle.
  cbn in Hle. specialize (Hle ltac:(intros ? [= ->]; done) Hpos). fold (job_in st j) in Hle.
  unfold left_by. destruct (Jobs.j_tenantId j) as [t'|] eqn:Ht; [|cbn; lia].
  destruct (kept && is_pending t' j && negb (Jobs.is_active st)) eqn:E; [|cbn; lia].
  apply andb_true_iff in E as [[_ E]%andb_true_iff Hna%negb_true_iff]. cbn. unfold made_for. cbn.
  assert (pend t k (job_in st j) = 0) as -> by (unfold pend, is_pending, job_in; cbn; by rewrite Hna, andb_false_r).
  case_bool_decide as Heq; [subst t'; unfold pend; rewrite E; lia|lia].
Qed.
Lemma left_by_pos j st kept m k : (∀ t, 0 ≤ pend t k j) → m ∈ left_by j st kept → 0 ≤ m.2 k.
Proof.
  unfold left_by. destruct (Jobs.j_tenantId j) as [t|]; [|by intros _ ?%not_elem_of_nil].
  destruct (kept && is_pending t j && negb _) eqn:E; [|by intros _ ?%not_elem_of_nil]. intros Hp ->%list_elem_of_singleton. cbn.
  specialize (Hp t). unfold pend in Hp. apply andb_true_iff in E as [[_ E]%andb_true_iff _]. by rewrite E in Hp.
Qed.

Lemma turn_kept w w' : sound w → within w → turn w w' → sound w' ∧ within w'.
Proof.
  intros Hs Hw Ht. destruct Ht as [w s p t jobId now b db' job Hpos H Ha|w s p b rowId jobId now m Hpos H Ha
    |w s p id b existing applied db' row cur by_ H Hcur Ha Hg|w s p id jobId now db' job H|w s p id jobId now addresses db' job H|w i j st kept Hj Hst|w i|w db' Htn Hj Hk].
  - apply createInstance_Ok in H as [H _]. by eapply admitted_kept.
  - apply createK8s_Ok in H as [H _]. by eapply admitted_kept.
  - apply (patchK8s_Ok _ _ _ _ _ _ _ _ _ _ _ H) in Hcur as (Htn & Hjobs & _ & Hfit). destruct Hs as [Hsj Hsm]. split; [split|].
    + intros j t k. cbn. rewrite Hjobs. apply Hsj.
    + intros m' k [Hin| ->%list_elem_of_singleton]%elem_of_app; [by apply Hsm|]. cbn. unfold growth. lia.
    + eapply (within_more w _ (kr_tenantId cur) (growth cur row)); [done..| |].
      * intros t' k. rewrite !promised_total. cbn. rewrite Hjobs, sum_app. cbn. unfold made_for at 2. cbn.
        rewrite (bool_decide_ext (kr_tenantId cur = t') (t' = kr_tenantId cur)) by done. lia.
      * intros trow k n Ht Hq Hne. destruct Hg as [Hg|Hg]; [by eapply Hfit|]. by rewrite Hg in Hne.
  - apply deleteK8s_Ok in H as (Htn & Hno & _). destruct (sound_jobs w db' _ Hs Hno eq_refl). split; [done|]. by apply (within_le w).
  - apply putAddresses_Ok in H as (Htn & Hno & _). destruct (sound_jobs w db' _ Hs Hno eq_refl). split; [done|]. by apply (within_le w).
  - destruct Hs as [Hsj Hsm]. assert (j ∈ cd_jobs (wd_cloud w)) as Hin by by eapply list_elem_of_lookup_2. split; [split; cbn [wd_cloud wd_made with_jobs cd_jobs]|].
    + intros j' t k (i' & Hi')%list_elem_of_lookup. apply list_lookup_insert_Some in Hi' as [(_ & <- & _)|[_ Hi']].
      * apply pend_changed; [|by apply Hsj]. intros st' Hst'. cbn in Hst'. by simplify_eq.
      * by eapply Hsj, list_elem_of_lookup_2.
    + intros m' k [Hm|Hm]%elem_of_app; [by apply Hsm|]. eapply left_by_pos; [|done]. intros t. by apply Hsj.
    + apply (within_le w); [done| |done]. intros t k. rewrite !promised_total. cbn [wd_cloud wd_made with_jobs cd_jobs]. rewrite (sum_insert _ _ _ j) by done. rewrite sum_app.
      pose proof (left_by_le j st kept t k Hst (Hsj j t k Hin)). lia.
  - destruct Hs as [Hsj Hsm]. split; [split; [done|]|].
    + intros m' k. cbn [wd_made]. intros Hin. apply Hsm. by eapply elem_of_sublist, sublist_delete.
    + apply (within_le w); [done| |done]. intros t k. rewrite !promised_total. cbn [wd_cloud wd_made].
      apply Z.add_le_mono_r, sum_delete_le. intros m' Hin. unfold made_for. case_bool_decide; [by apply Hsm|done].
  - destruct Hs as [Hsj Hsm]. split; [split; [|done]|].
    + intros j t k. cbn. rewrite Hj. apply Hsj.
    + apply (within_le w); [done| |done]. intros t k. rewrite !promised_total. cbn. by rewrite Hj.
Qed.

Lemma runs_kept w0 w : runs w0 w → sound w0 → within w0 → sound w ∧ within w.
Proof. induction 1 as [|w w' _ IH Ht]; [done|]. intros Hs Hw. destruct (IH Hs Hw). by eapply turn_kept. Qed.

Lemma apart_sublist db db' : (keys <$> cd_k8s db') `sublist_of` (keys <$> cd_k8s db) → apart db → apart db'.
Proof.
  intros Hk [H1 H2]. split.
  - apply (sublist_of_fmap fst) in Hk. rewrite <-!list_fmap_compose in Hk. by eapply sublist_NoDup.
  - apply (sublist_of_fmap snd) in Hk. rewrite <-!list_fmap_compose in Hk. by eapply sublist_NoDup.
Qed.
Lemma turn_apart w w' : apart (wd_cloud w) → turn w w' → apart (wd_cloud w').
Proof.
  intros Ha Ht. destruct Ht as [w s p t jobId now b db' job Hpos H _|w s p b rowId jobId now m Hpos H _
    |w s p id b existing applied db' row cur by_ H Hcur _ Hg|w s p id jobId now db' job H|w s p id jobId now addresses db' job H|w i j st kept Hj Hst|w i|w db' Htn Hj Hk]; cbn in *.
  - apply createInstance_Ok in H as [_ H]. by unfold apart; rewrite H.
  - apply createK8s_Ok in H as [_ (by_ & H & He & Hn)]. destruct Ha as [H1 H2]. unfold apart. rewrite H, !fmap_app.
    split; (apply NoDup_app; split_and!; [done| |apply NoDup_singleton]; intros x Hx ->%list_elem_of_singleton; done).
  - apply (patchK8s_Ok _ _ _ _ _ _ _ _ _ _ _ H) in Hcur as (_ & _ & Hk & _). by apply (apart_sublist (wd_cloud w)); [rewrite Hk|].
  - apply deleteK8s_Ok in H as (_ & _ & Hk). by apply (apart_sublist (wd_cloud w)); [rewrite Hk|].
  - apply putAddresses_Ok in H as (_ & _ & Hk). by apply (apart_sublist (wd_cloud w)); [rewrite Hk|].
  - done.
  - done.
  - by apply (apart_sublist (wd_cloud w)).
Qed.
Lemma runs_apart w0 w : runs w0 w → apart (wd_cloud w0) → apart (wd_cloud w).
Proof. induction 1 as [|w w' _ IH Ht]; [done|]. intros Ha. eapply turn_apart; [by apply IH|done]. Qed.

(** ** Properties *)

(** C21: however requests to create instances and clusters, to scale, upgrade and delete them follow each other, and
    whatever jobs, clusters and inventories do in between, what a tenant was promised (what was made for it and is
    still there, and what is on its way) stays within its pool; as long as what was made for it is in the recorded
    usage whenever more is asked for, and machines are not traded for larger ones. *)
Theorem pool_never_overpromised w0 w : sound w0 → within w0 → runs w0 w →
  ∀ t row k n, tenant_by_id (wd_cloud w) t = Some row → quotaBytes (tn_quotas row) k = Some n → promised w t k ≤ n.
Proof. intros Hs Hw Hr. by destruct (runs_kept _ _ Hr Hs Hw). Qed.

(** C22: two Kubernetes clusters never have the same endpoint, nor two of a tenant the same name, whatever requests
    follow each other: the unique indices of the table are never what refuses a request. *)
Theorem clusters_apart w0 w : apart (wd_cloud w0) → runs w0 w →
  NoDup (endpoint_of <$> cd_k8s (wd_cloud w)) ∧ NoDup (name_of <$> cd_k8s (wd_cloud w)).
Proof. intros Ha Hr. by apply (runs_apart w0 w). Qed.

(** Every node of a new cluster keeps to the tenant's maximums for one instance. *)
Theorem nodes_within_caps s db p b rowId jobId now m t f : createK8s hostname low high isIP s db p b rowId jobId now = Ok m →
  tenant_by_id db (AclEdit.uuid_of (kb_tenantId b)) = Some t → f ∈ [ma_flavor (controlPlane (spec_of b)); ma_flavor (worker (spec_of b))] →
  (∀ c, maxInstanceCpu (tn_quotas t) = Some c → fl_cpu (flavorOf f) ≤ c)
  ∧ (∀ c, maxInstanceDisk (tn_quotas t) = Some c → NODE_DISK ≤ c * GiB).
Proof.
  unfold K8sRoutes.createK8s. destruct (map_get _ _) as [slug|]; [|done]. intros H Ht Hf. passes H. destruct (kb_spec b ≫= specError isIP); [done|].
  unfold K8sRoutes.create_tx in H. rewrite Ht in H. apply result_bind_Ok in H as ([] & _ & H). apply result_bind_Ok in H as ([] & Hcp & H). apply result_bind_Ok in H as ([] & Hwk & _).
  assert (need_node (tn_quotas t) (spec_of b) f = Ok ()) as Hn by (apply elem_of_cons in Hf as [->|Hf]; [done|by apply list_elem_of_singleton in Hf as ->]).
  unfold need_node in Hn. apply (proj1 (proj1 (caps_exact _ _ None 0 0))) in Hn as (Hc & _ & Hd). split.
  - intros c Hq. specialize (Hc c Hq). cbn [size_cpu] in Hc. unfold usageOfSpec in Hc. cbn [with_flavor controlPlane ma_flavor] in Hc. lia.
  - intros c Hq. specialize (Hd c Hq). cbn [size_disk] in Hd. unfold usageOfSpec in Hd. lia.
Qed.
End kept.

(** ** Examples *)

Definition uuid_t : string := "00000000-0000-0000-0000-00000000000a".
Definition uuid_u : string := "00000000-0000-0000-0000-00000000000b".
Definition uuid_k : string := "00000000-0000-0000-0000-00000000000c".
Definition demo_p : Acl.PrincipalId := {| Acl.p_service := false; Acl.p_id := uuid_u |}.
Definition demo_s : Acl.Snapshot := Acl.load 0
  {| Acl.r_explicit := [{| Acl.ae_id := "e"; Acl.ae_path := "/"; Acl.ae_role := "administrator"; Acl.ae_propagate := true; Acl.ae_userId := Some uuid_u;
       Acl.ae_serviceAccountId := None; Acl.ae_groupId := None; Acl.ae_tenantGroupId := None; Acl.ae_createdBy := None |}];
     Acl.r_roles := []; Acl.r_members := []; Acl.r_accounts := []; Acl.r_people := [{| Acl.u_id := uuid_u; Acl.u_disabled := false |}];
     Acl.r_places := [{| Acl.pl_cluster := "one"; Acl.pl_project := "acme"; Acl.pl_slug := "acme" |}]; Acl.r_tenants := [(uuid_t, "acme")];
     Acl.r_clusters := [("c1", "one")]; Acl.r_owned := []; Acl.r_k8s := []; Acl.r_inventoried := []; Acl.r_grouped := []; Acl.r_memberGroups := [];
     Acl.r_located := [] |}.

(** A tenant with a pool of CPUs only, one cluster, nothing made yet. *)
Definition cpus (n : Z) (max : option Z) : Quotas :=
  {| pool := λ k, match k with Cpu => Some n | _ => None end; maxInstanceCpu := max; maxInstanceMemory := None; maxInstanceDisk := None;
     q_snapshots := None; q_backups := None; q_backupGiB := None; q_kubernetes := None |}.
Definition demo_cloud (q : Quotas) (used : Z) : Cloud :=
  {| cd_tenants := [{| tn_id := uuid_t; tn_slug := "acme"; tn_quotas := q |}];
     cd_placements := [{| pm_tenantId := uuid_t; pm_clusterId := "c1"; pm_project := "acme"; pm_status := "ready";
                          pm_usage := Some (λ k, match k with Cpu => used | _ => 100 * GiB end) |}];
     cd_clusters := [{| cr_id := "c1"; cr_name := "one"; cr_url := "https://one:8443"; cr_status := "ready"; cr_labels := [];
                        cr_members := [{| Endpoint.mb_name := "m1"; Endpoint.mb_url := "https://m1:8443"; Endpoint.mb_status := "Online";
                                          Endpoint.mb_memoryTotal := 64 * GiB; Endpoint.mb_memoryUsed := 0 |}] |}];
     cd_instances := []; cd_owned := []; cd_backups := []; cd_shares := []; cd_jobs := []; cd_k8s := [] |}.
Definition demo_body (name : string) (cpu : Z) : CreateBody :=
  {| cb_name := name; cb_image := "debian/12"; cb_type := None; cb_cpu := cpu; cb_memoryGiB := 1; cb_diskGiB := 10; cb_clusterId := None;
     cb_labels := None; cb_start := None |}.
Abbreviation demo_create := (@createInstance code_unit_locale demo_s).
Abbreviation demo_k8s := (@createK8s code_unit_locale (λ _, "one") 16443 16999 (λ _, true) demo_s).
Definition db_of {A} (r : result (Cloud * A)) : Cloud := match r with Ok (db, _) => db | Throw _ => demo_cloud (cpus 0 None) 0 end.
Lemma db_of_Ok {A} (r : result (Cloud * A)) : is_ok r = true → ∃ x, r = Ok (db_of r, x).
Proof. destruct r as [[db x]|]; [|done]. by exists x. Qed.

(** Two instances of two CPUs each, the second once the first was made and recorded. *)
Definition w0 : World := {| wd_cloud := demo_cloud (cpus 4 None) 0; wd_made := [] |}.
Definition db1 : Cloud := db_of (demo_create (wd_cloud w0) demo_p uuid_t "j1" 0 (demo_body "a" 2)).
Definition w2 : World :=
  let j := hd_error (cd_jobs db1) in
  {| wd_cloud := with_jobs db1 (from_option (λ j, <[0%nat := job_in Jobs.Succeeded j]> (cd_jobs db1)) [] j);
     wd_made := [] ++ from_option (λ j, left_by j Jobs.Succeeded true) [] j |}.
Definition db3 : Cloud := with_placements (wd_cloud w2) (cd_placements (demo_cloud (cpus 4 None) 2)).
Definition db4 : Cloud := db_of (demo_create db3 demo_p uuid_t "j2" 0 (demo_body "b" 2)).
Definition w4 : World := {| wd_cloud := db4; wd_made := wd_made w2 |}.

Lemma demo_create_turn db db' id b made : db' = db_of (demo_create db demo_p uuid_t id 0 b) →
  is_ok (demo_create db demo_p uuid_t id 0 b) = true → (∀ k, 0 ≤ request_of b k) → accounted {| wd_cloud := db; wd_made := made |} uuid_t →
  @turn code_unit_locale (λ _, "one") 16443 16999 (λ _, true) {| wd_cloud := db; wd_made := made |} {| wd_cloud := db'; wd_made := made |}.
Proof. intros -> [j Hj]%db_of_Ok Hpos Ha. by apply (turn_create _ _ _ _ {| wd_cloud := db; wd_made := made |} demo_s demo_p uuid_t id 0 b _ j). Qed.
Lemma demo_runs : @runs code_unit_locale (λ _, "one") 16443 16999 (λ _, true) w0 w4.
Proof.
  assert (∀ n, ∀ k, 0 ≤ request_of (demo_body n 2) k) as Hpos by (intros n []; vm_compute; done).
  apply (runs_turn _ _ _ _ _ {| wd_cloud := db3; wd_made := wd_made w2 |});
    [apply (runs_turn _ _ _ _ _ w2); [apply (runs_turn _ _ _ _ _ {| wd_cloud := db1; wd_made := [] |});
      [apply (runs_turn _ _ _ _ _ w0); [apply runs_start|]|]|]|].
  - apply (demo_create_turn (wd_cloud w0) db1 "j1" (demo_body "a" 2) []); [done|vm_compute; done|apply Hpos|intros []; vm_compute; done].
  - destruct (cd_jobs db1) as [|j l] eqn:E; [by vm_compute in E|].
    replace w2 with {| wd_cloud := with_jobs db1 (<[0%nat := job_in Jobs.Succeeded j]> (cd_jobs db1)); wd_made := [] ++ left_by j Jobs.Succeeded true |}
      by (unfold w2; by rewrite E).
    apply (turn_job _ _ _ _ {| wd_cloud := db1; wd_made := [] |} 0%nat j Jobs.Succeeded true); cbn; [by rewrite E|done].
  - apply (turn_elsewhere _ _ _ _ w2 db3); [done|done|]. by vm_compute.
  - apply (demo_create_turn db3 db4 "j2" (demo_body "b" 2) (wd_made w2)); [done|vm_compute; done|apply Hpos|intros []; vm_compute; done].
Qed.
Lemma demo_sound : sound w0 ∧ within w0.
Proof.
  split; [split; [by intros j t k ?%not_elem_of_nil|by intros m k ?%not_elem_of_nil]|]. intros t row k n Ht Hq.
  assert (tn_quotas row = cpus 4 None) as Hr by (unfold tenant_by_id in Ht; cbn in Ht; case_bool_decide; by simplify_eq).
  rewrite Hr in Hq. destruct k; simplify_eq. by vm_compute in Hq; simplify_eq.
Qed.

Lemma pool_never_overpromised_witness : promised w4 uuid_t Cpu = 4 ∧ promised w4 uuid_t Cpu ≤ 4.
Proof.
  split; [vm_compute; reflexivity|]. destruct demo_sound as [Hs Hw].
  apply (@pool_never_overpromised code_unit_locale (λ _, "one") 16443 16999 (λ _, true) w0 w4 Hs Hw demo_runs uuid_t
           {| tn_id := uuid_t; tn_slug := "acme"; tn_quotas := cpus 4 None |} Cpu 4); vm_compute; reflexivity.
Defined.

Definition k8s_body (name : string) (controlPlanes workers : Z) (spec : option K8sSpec) : K8sBody :=
  {| kb_tenantId := uuid_t; kb_clusterId := "c1"; kb_name := name; kb_version := "v1.35.5"; kb_controlPlanes := controlPlanes; kb_workers := workers;
     kb_size := None; kb_spec := spec; kb_member := None |}.
Definition made_k8s (q : Quotas) (b : K8sBody) : Cloud :=
  match demo_k8s (demo_cloud q 0) demo_p b uuid_k "j1" 0 with Ok m => mk_db m | Throw _ => demo_cloud q 0 end.
Lemma made_k8s_Ok q b : is_ok (demo_k8s (demo_cloud q 0) demo_p b uuid_k "j1" 0) = true →
  ∃ m, demo_k8s (demo_cloud q 0) demo_p b uuid_k "j1" 0 = Ok m ∧ made_k8s q b = mk_db m.
Proof. unfold made_k8s. destruct (demo_k8s _ _ _ _ _ _) as [m|]; [|done]. exists m. split; reflexivity. Qed.
(** The tables once the first job succeeded; and once its cluster is seen ready. *)
Definition first_done (db : Cloud) : Cloud :=
  with_jobs db match cd_jobs db with j :: l => job_in Jobs.Succeeded j :: l | [] => [] end.
Definition all_ready (db : Cloud) : Cloud := with_k8s db (update_k8s uuid_k (set_status Services.K8sReady) (cd_k8s db)).
Definition two_endpoints (r : K8sRow * string) : string * Z := (kr_endpointHost r.1, kr_endpointPort r.1).

Lemma clusters_apart_witness : NoDup (endpoint_of <$> cd_k8s (made_k8s (cpus 9 None) (k8s_body "web" 1 1 None)))
  ∧ (two_endpoints <$> cd_k8s (made_k8s (cpus 9 None) (k8s_body "web" 1 1 None))) = [("one", 16443)].
Proof.
  split; [|vm_compute; reflexivity].
  destruct (made_k8s_Ok (cpus 9 None) (k8s_body "web" 1 1 None)) as (m & Hm & ->); [vm_compute; reflexivity|].
  pose (w := {| wd_cloud := demo_cloud (cpus 9 None) 0; wd_made := [] |}).
  assert (@turn code_unit_locale (λ _, "one") 16443 16999 (λ _, true) w {| wd_cloud := mk_db m; wd_made := [] |}) as Hturn.
  { apply (turn_k8s _ _ _ _ w demo_s demo_p (k8s_body "web" 1 1 None) uuid_k "j1" 0 m); [intros []; vm_compute; done|exact Hm|intros []; vm_compute; done]. }
  apply (@clusters_apart code_unit_locale (λ _, "one") 16443 16999 (λ _, true) w {| wd_cloud := mk_db m; wd_made := [] |}).
  - split; apply NoDup_nil_2.
  - apply (runs_turn _ _ _ _ w w); [apply runs_start|done].
Defined.

(** The job that makes a Kubernetes cluster does not record what it made, so that until a reconciliation reads it the
    next request is let through although the pool is used up. *)
Theorem k8s_create_forgotten :
  let db := first_done (made_k8s (cpus 9 None) (k8s_body "web" 1 1 None)) in
  (∃ j, cd_jobs (made_k8s (cpus 9 None) (k8s_body "web" 1 1 None)) = [j] ∧ pending_usage (Jobs.j_payload j) Cpu = 5)
  ∧ is_ok (demo_create (made_k8s (cpus 9 None) (k8s_body "web" 1 1 None)) demo_p uuid_t "j2" 0 (demo_body "a" 5)) = false
  ∧ is_ok (demo_create db demo_p uuid_t "j2" 0 (demo_body "a" 5)) = true.
Proof. cbv zeta. split; [eexists; split; vm_compute; reflexivity|]. split; vm_compute; reflexivity. Qed.

(** What a cluster grows by counts only for the request itself: each of two requests fits the pool, together they do not. *)
Theorem growth_counts_once :
  let db := all_ready (first_done (made_k8s (cpus 9 None) (k8s_body "web" 1 1 None))) in
  let more n := {| kp_version := None; kp_controlPlanes := None; kp_workers := Some n |} in
  let patch db n := @patch_row db uuid_k (more n) in
  is_ok (patch db 4) = true ∧ is_ok (patch db 8) = false ∧ is_ok (patch (db_of (patch db 4)) 8) = true.
Proof. vm_compute. done. Qed.

(** Trading workers for as many control planes of a larger flavor is not checked at all. *)
Theorem trade_unchecked :
  let machine f := {| ma_type := Container; ma_flavor := f; ma_profiles := ["default"]; ma_target := EmptyString |} in
  let sp := {| controlPlane := machine "c8-m8"; worker := machine "c1-m2"; loadBalancer := LbOvn "10.0.0.9" "net"; image := EmptyString; privileged := false;
               flannel := true; installKubeadm := false; podCidr := DEFAULT_POD_CIDR; serviceCidr := DEFAULT_SERVICE_CIDR; metallb := None |} in
  let db := all_ready (first_done (made_k8s (cpus 10 None) (k8s_body "web" 1 2 (Some sp)))) in
  (two_endpoints <$> cd_k8s db) = [("10.0.0.9", 6443)]
  ∧ match patch_row db uuid_k {| kp_version := None; kp_controlPlanes := Some 3; kp_workers := Some 0 |} with
    | Ok (_, row) => usageOfSpec (kr_spec row) (kr_controlPlanes row) (kr_workers row) false Cpu = 24
    | Throw _ => False
    end.
Proof. vm_compute. done. Qed.

(** The maximums for one instance are not applied to the load balancer. *)
Theorem load_balancer_above_caps :
  let machine := {| ma_type := Container; ma_flavor := "c2-m4"; ma_profiles := ["default"]; ma_target := EmptyString |} in
  let sp f := {| controlPlane := machine; worker := machine; loadBalancer := LbInstance Lxc f ["default"] EmptyString; image := EmptyString; privileged := false;
                 flannel := true; installKubeadm := false; podCidr := DEFAULT_POD_CIDR; serviceCidr := DEFAULT_SERVICE_CIDR; metallb := None |} in
  is_ok (demo_k8s (demo_cloud (cpus 99 (Some 2)) 0) demo_p (k8s_body "web" 1 1 (Some (sp "c64-m64"))) uuid_k "j1" 0) = true.
Proof. vm_compute. done. Qed.

(** An instance made here is given its memory in bytes without a unit, which a user's share counts a thousand times. *)
Theorem own_instance_counts_thousandfold :
  let b := demo_body "a" 2 in
  let owned := {| or_userId := uuid_u; or_tenantId := uuid_t; or_limitsCpu := show_Z (cb_cpu b); or_limitsMemory := show_Z (request_of b Memory) |} in
  let db := {| cd_tenants := []; cd_placements := []; cd_clusters := []; cd_instances := []; cd_owned := [owned]; cd_backups := []; cd_shares :=
               [((uuid_t, uuid_u), {| uq_instances := None; uq_cpu := None; uq_memory := Some 100; uq_backups := None |})]; cd_jobs := []; cd_k8s := [] |} in
  ua_memory (userUsage db uuid_t uuid_u) = 1000 * GiB
  ∧ is_ok (needUserShare db uuid_t uuid_u {| ua_instances := 1; ua_cpu := 1; ua_memory := GiB; ua_backups := 0 |}) = false.
Proof. vm_compute. done. Qed.

(** A transaction that read the usages before a job recorded what it made, and the jobs once it had ended, counts it nowhere. *)
Theorem usage_missed :
  let t := {| tn_id := uuid_t; tn_slug := "acme"; tn_quotas := cpus 4 None |} in
  let before := usages_of (wd_cloud w0) uuid_t in
  let tx placed := @TenantCloud.create_tx code_unit_locale placed db3 demo_p t "j2" 0 (demo_body "b" 4) in
  is_ok (tx before) = true ∧ is_ok (tx (usages_of db3 uuid_t)) = false.
Proof. vm_compute. done. Qed.

(** The database finds the tenant by its id in either case, but its lock is by the text: two requests that write the id
    differently are decided on the same tables at the same time, and both are let through where the second would not be. *)
Theorem locked_apart :
  let upper := "00000000-0000-0000-0000-00000000000A" in
  let create db id name := demo_create db demo_p id name 0 (demo_body name 3) in
  tenant_lock upper ≠ tenant_lock uuid_t
  ∧ is_ok (create (wd_cloud w0) uuid_t "a") = true ∧ is_ok (create (wd_cloud w0) upper "b") = true
  ∧ is_ok (create (db_of (create (wd_cloud w0) uuid_t "a")) upper "b") = false.
Proof. vm_compute. done. Qed.
