(* ===== verification/Members.v ===== *)
(** * Members: tenants, their members and users' shares

    Models the requests of [api/tenants.ts] that change something: creating,
    changing and deleting a tenant, setting and removing its members, and a
    user's quota inside it. The rows are those of [Acl.Rows]; a request decides
    on a snapshot [s], and one that changes members is split where it first
    writes, since its checks are not part of its transaction. With the rows it
    leaves comes whether it asks for the tenant's clusters to be reconciled. The
    Hydra clients of a deleted tenant's service accounts are left out. Ids are
    compared by the database as it writes them ([uuid_of]); who is outranked is
    looked up by the text that was sent. *)

From S2P Require Quota.
From S2P Require Import Prelude JsString AclPaths AclCatalog AclResolve Acl Effects AclEdit AclEditTheory Owners.
Open Scope Z_scope.

Record Tenancy := {
  ty_rows : Rows;
  ty_emails : js_map string string;                                (** of users, to their ids *)
  ty_quotas : js_map string Quota.Quotas;                          (** by tenant *)
  ty_shares : list (string * string * Quota.UserQuotas);           (** tenant, user *)
}.
Definition with_rows (db : Tenancy) (r : Rows) : Tenancy :=
  {| ty_rows := r; ty_emails := ty_emails db; ty_quotas := ty_quotas db; ty_shares := ty_shares db |}.
Definition with_shares (db : Tenancy) (l : list (string * string * Quota.UserQuotas)) : Tenancy :=
  {| ty_rows := ty_rows db; ty_emails := ty_emails db; ty_quotas := ty_quotas db; ty_shares := l |}.
Definition with_members (r : Rows) (l : list TenantMemberRow) : Rows := {|
  r_explicit := r_explicit r; r_roles := r_roles r; r_members := l; r_accounts := r_accounts r; r_people := r_people r;
  r_places := r_places r; r_tenants := r_tenants r; r_clusters := r_clusters r; r_owned := r_owned r; r_k8s := r_k8s r;
  r_inventoried := r_inventoried r; r_grouped := r_grouped r; r_memberGroups := r_memberGroups r; r_located := r_located r |}.

Definition RESERVED : list string := ["default"; "incuscloud"; "admin"; "system"].

Section members.
Context (s : Snapshot).

Definition load_tenant (r : Rows) (p : PrincipalId) (id privilege : string) : result string :=
  needTenant s r p id privilege;;
  match map_get (r_tenants r) (uuid_of id) with Some slug => Ok slug | None => Throw (notFound "Not found") end.

Definition member_is (tenantId userId : string) (m : TenantMemberRow) : bool :=
  bool_decide (tm_tenantId m = tenantId) && bool_decide (tm_userId m = userId).
Definition owner_in (tenantId : string) (m : TenantMemberRow) : bool :=
  bool_decide (tm_tenantId m = tenantId) && bool_decide (tm_role m = "owner").
Definition ownerCount (r : Rows) (tenantId : string) : nat := length (js_filter (owner_in tenantId) (r_members r)).
(** Owners are managed by owners and platform administrators only. *)
Definition has_owner_power (r : Rows) (p : PrincipalId) (tenantId : string) : bool :=
  negb (p_service p) && some (λ m, member_is tenantId (p_id p) m && bool_decide (tm_role m = "owner")) (r_members r)
  || can s p "platform.users" "/" None.
Definition needOwnerPower (r : Rows) (p : PrincipalId) (tenantId : string) : result () := orThrow (has_owner_power r p tenantId) forbidden.

Definition last_owner : ApiError := {| status := 409; code := "last_owner"; message := "A tenant needs at least one owner" |}.

(** What [setMember] goes on to write, and the platform role that the tenant role replaces. *)
Record Change := { ch_tenantId : string; ch_userId : string; ch_role : string; ch_slug : string; ch_cur : option TenantMemberRow; ch_replaces : option string }.

Definition setMember_check (r : Rows) (p : PrincipalId) (tenantId userId role : string) : result Change :=
  let tid := uuid_of tenantId in
  let uid := uuid_of userId in
  if negb (some (λ u, bool_decide (u_id u = uid)) (r_people r)) then Throw (notFound "No such user")
  else match map_get (r_tenants r) tid with
  | None => throw 500 "internal" "Internal error"
  | Some slug =>
      let cur := js_find (member_is tid uid) (r_members r) in
      let was_owner := bool_decide (tm_role <$> cur = Some "owner") in
      (if bool_decide (role = "owner") || was_owner then needOwnerPower r p tid else Ok ());;
      needOutrank s p ("/tenants/" +++ slug) ["user:" +++ userId];;
      orThrow (negb (was_owner && negb (bool_decide (role = "owner")) && (ownerCount r tid <=? 1)%nat)) last_owner;;
      Ok {| ch_tenantId := tid; ch_userId := uid; ch_role := role; ch_slug := slug; ch_cur := cur;
            ch_replaces := pr_role <$> js_find (λ x, bool_decide (pr_userId x = uid)) (r_roles r) |}
  end.
(** The row is inserted, or takes the role; nothing is written when it has it. *)
Definition setMember_write (r : Rows) (c : Change) : Rows :=
  if bool_decide (tm_role <$> ch_cur c = Some (ch_role c)) then r
  else with_members r
    (if some (member_is (ch_tenantId c) (ch_userId c)) (r_members r) then
       (λ m, if member_is (ch_tenantId c) (ch_userId c) m then
               {| tm_tenantId := tm_tenantId m; tm_userId := tm_userId m; tm_role := ch_role c; tm_slug := tm_slug m |} else m) <$> r_members r
     else r_members r ++ [{| tm_tenantId := ch_tenantId c; tm_userId := ch_userId c; tm_role := ch_role c; tm_slug := ch_slug c |}]).

(** [PUT /tenants/:id/members/:userId], [POST /tenants/:id/members] by email. *)
Definition putMember_check (db : Tenancy) (p : PrincipalId) (id userId role : string) : result Change :=
  load_tenant (ty_rows db) p id "tenant.members";;
  orThrow (isUuid userId) (notFound "No such user");;
  setMember_check (ty_rows db) p id userId role.
Definition member_set (db : Tenancy) (c : Change) : Tenancy * bool :=
  (with_rows db (setMember_write (ty_rows db) c), negb (bool_decide (tm_role <$> ch_cur c = Some (ch_role c)))).
Definition putMember (db : Tenancy) (p : PrincipalId) (id userId role : string) : result (Tenancy * bool) :=
  c ← putMember_check db p id userId role; Ok (member_set db c).
Definition postMember (db : Tenancy) (p : PrincipalId) (id email role : string) : result (Tenancy * bool) :=
  load_tenant (ty_rows db) p id "tenant.members";;
  match map_get (ty_emails db) email with
  | None => Throw (notFound "No user with this email; ask a platform administrator to create the account")
  | Some userId => c ← setMember_check (ty_rows db) p id userId role; Ok (member_set db c)
  end.

Definition removeMember_check (db : Tenancy) (p : PrincipalId) (id userId : string) : result (string * string) :=
  let r := ty_rows db in
  let tid := uuid_of id in
  let uid := uuid_of userId in
  slug ← load_tenant r p id "tenant.members";
  orThrow (isUuid userId) (notFound "Not found");;
  match js_find (member_is tid uid) (r_members r) with
  | None => Throw (notFound "Not a member")
  | Some cur =>
      needOutrank s p ("/tenants/" +++ slug) ["user:" +++ tm_userId cur];;
      (if bool_decide (tm_role cur = "owner") then
         needOwnerPower r p tid;; orThrow (negb (ownerCount r tid <=? 1)%nat) last_owner
       else Ok ());;
      Ok (tid, uid)
  end.
Definition removeMember_write (r : Rows) (k : string * string) : Rows :=
  with_members r (js_filter (λ m, negb (member_is k.1 k.2 m)) (r_members r)).
Definition removeMember (db : Tenancy) (p : PrincipalId) (id userId : string) : result (Tenancy * bool) :=
  k ← removeMember_check db p id userId; Ok (with_rows db (removeMember_write (ty_rows db) k), true).

(** ** Tenants *)

Definition add_tenant (r : Rows) (id slug : string) (owner : option string) : Rows := {|
  r_explicit := r_explicit r; r_roles := r_roles r;
  r_members := r_members r ++ match owner with
                              | Some u => if truthy_str u then [{| tm_tenantId := id; tm_userId := uuid_of u; tm_role := "owner"; tm_slug := slug |}] else []
                              | None => []
                              end;
  r_accounts := r_accounts r; r_people := r_people r; r_places := r_places r; r_tenants := r_tenants r ++ [(id, slug)];
  r_clusters := r_clusters r; r_owned := r_owned r; r_k8s := r_k8s r; r_inventoried := r_inventoried r; r_grouped := r_grouped r;
  r_memberGroups := r_memberGroups r; r_located := r_located r |}.
(** [id]: the fresh key the database makes. *)
Definition createTenant (db : Tenancy) (p : PrincipalId) (id slug : string) (quotas : Quota.Quotas) (owner : option string) : result Tenancy :=
  let r := ty_rows db in
  orThrow (can s p "tenant.manage" "/" None) forbidden;;
  orThrow (negb (includes RESERVED slug)) (bad "invalid_request" (quoted slug +++ " is reserved"));;
  orThrow (negb (includes (snd <$> r_tenants r) slug)) {| status := 409; code := "slug_taken"; message := "A tenant with this slug already exists" |};;
  (match owner with
   | Some u => if truthy_str u then orThrow (isUuid u && some (λ x, bool_decide (u_id x = uuid_of u)) (r_people r)) (notFound "No such user") else Ok ()
   | None => Ok ()
   end);;
  Ok {| ty_rows := add_tenant r id slug owner; ty_emails := ty_emails db; ty_quotas := ty_quotas db ++ [(id, quotas)]; ty_shares := ty_shares db |}.

(** The rows that go with a tenant: its entries, its members, its service accounts and what refers to them. *)
Definition drop_tenant (r : Rows) (id slug : string) : Rows :=
  let accounts := sa_id <$> js_filter (λ a, bool_decide (sa_tenantId a = Some id)) (r_accounts r) in
  let of_account o := match o with Some a => includes accounts a | None => false end in
  {| r_explicit := js_filter (λ e, negb (under ("/tenants/" +++ slug) (ae_path e) || col_is (ae_tenantGroupId e) id || of_account (ae_serviceAccountId e)))
                     (r_explicit r);
     r_roles := r_roles r; r_members := js_filter (λ m, negb (bool_decide (tm_tenantId m = id))) (r_members r);
     r_accounts := js_filter (λ a, negb (bool_decide (sa_tenantId a = Some id))) (r_accounts r); r_people := r_people r; r_places := r_places r;
     r_tenants := js_filter (λ t, negb (bool_decide (t.1 = id))) (r_tenants r); r_clusters := r_clusters r;
     r_owned := (λ o, {| ow_cluster := ow_cluster o; ow_project := ow_project o; ow_name := ow_name o; ow_userId := ow_userId o;
                         ow_serviceAccountId := if of_account (ow_serviceAccountId o) then None else ow_serviceAccountId o |}) <$> r_owned r;
     r_k8s := r_k8s r; r_inventoried := r_inventoried r; r_grouped := js_filter (λ g, negb (of_account (gm_serviceAccountId g))) (r_grouped r);
     r_memberGroups := r_memberGroups r; r_located := r_located r |}.
Definition deleteTenant (db : Tenancy) (p : PrincipalId) (id : string) : result Tenancy :=
  let r := ty_rows db in
  slug ← load_tenant r p id "tenant.view";
  let tid := uuid_of id in
  needOwnerPower r p tid;;
  orThrow (negb (some (λ x, bool_decide (pl_slug x = slug)) (r_places r)))
    {| status := 409; code := "tenant_placed"; message := "Remove this tenant from its clusters first" |};;
  Ok {| ty_rows := drop_tenant r tid slug; ty_emails := ty_emails db; ty_quotas := js_filter (λ q, negb (bool_decide (q.1 = tid))) (ty_quotas db);
        ty_shares := js_filter (λ x, negb (bool_decide (x.1.1 = tid))) (ty_shares db) |}.

(** [PATCH /tenants/:id]: names are the tenant's business, the quota is the platform's limit on it. *)
Definition patchTenant (db : Tenancy) (p : PrincipalId) (id : string) (name : option string) (quotas : option Quota.Quotas) : result (Tenancy * bool) :=
  slug ← load_tenant (ty_rows db) p id "tenant.view";
  orThrow (bool_decide (name = None) || can s p "tenant.manage" ("/tenants/" +++ slug) None) forbidden;;
  orThrow (negb (bool_decide (is_Some quotas)) || can s p "tenant.quota" "/" None) forbidden;;
  (** An update that sets no column is an error of the query builder. *)
  orThrow (bool_decide (is_Some name) || bool_decide (is_Some quotas)) {| status := 500; code := "internal"; message := "Internal error" |};;
  Ok ({| ty_rows := ty_rows db; ty_emails := ty_emails db;
         ty_quotas := match quotas with Some q => (λ x, if bool_decide (x.1 = uuid_of id) then (x.1, q) else x) <$> ty_quotas db | None => ty_quotas db end;
         ty_shares := ty_shares db |}, bool_decide (is_Some quotas)).

(** ** A user's quota inside a tenant *)

Definition above (share cap : option Z) : option Z :=
  match share, cap with Some x, Some c => if c <? x then Some c else None | _, _ => None end.
(** What is above the tenant's, with the tenant's. *)
Definition first_above (q : Quota.Quotas) (u : Quota.UserQuotas) : option (string * Z) :=
  head (omap (λ x : string * option Z, pair x.1 <$> x.2)
    [("instances", above (Quota.uq_instances u) (Quota.pool q Quota.Instances)); ("cpu", above (Quota.uq_cpu u) (Quota.pool q Quota.Cpu));
     ("memory", above (Quota.uq_memory u) (Quota.pool q Quota.Memory)); ("backups", above (Quota.uq_backups u) (Quota.q_backups q))]).
Definition share_is (tenantId userId : string) (x : string * string * Quota.UserQuotas) : bool := bool_decide (x.1 = (tenantId, userId)).
Definition is_empty (u : Quota.UserQuotas) : bool :=
  bool_decide (Quota.uq_instances u = None) && bool_decide (Quota.uq_cpu u = None) && bool_decide (Quota.uq_memory u = None) && bool_decide (Quota.uq_backups u = None).
Definition putShare (db : Tenancy) (p : PrincipalId) (id userId : string) (u : Quota.UserQuotas) : result Tenancy :=
  let tid := uuid_of id in
  let uid := uuid_of userId in
  load_tenant (ty_rows db) p id "tenant.quota";;
  orThrow (isUuid userId) (notFound "No such user");;
  orThrow (some (λ x, bool_decide (u_id x = uid)) (r_people (ty_rows db))) (notFound "No such user");;
  match map_get (ty_quotas db) tid with
  | None => Throw (notFound "Not found")
  | Some q =>
      match first_above q u with
      | Some (what, c) => throw 400 "invalid_request" ("A user's " +++ what +++ " cannot be above the tenant's (" +++ show_Z c +++ ")")
      | None =>
          let others := js_filter (λ x, negb (share_is tid uid x)) (ty_shares db) in
          Ok (with_shares db (if is_empty u then others else others ++ [((tid, uid), u)]))
      end
  end.
End members.

(** ** Theorems: who may change a tenant's members, and that owners stay *)

(** A user's role in a tenant. *)
Definition role_of (r : Rows) (t u : string) : option string := tm_role <$> js_find (member_is t u) (r_members r).
Definition has_owner (r : Rows) (t : string) : Prop := ∃ m, m ∈ r_members r ∧ owner_in t m = true.
Definition member_key (m : TenantMemberRow) : string * string := (tm_tenantId m, tm_userId m).
Definition members_wf (r : Rows) : Prop := NoDup (member_key <$> r_members r).

Lemma member_is_key t u m : member_is t u m = true ↔ member_key m = (t, u).
Proof. unfold member_is, member_key. rewrite andb_true_iff, !bool_decide_eq_true. split; [by intros [-> ->]|by intros [= -> ->]]. Qed.

(** ** Finding a member *)

Lemma find_other t u t' u' l (f : TenantMemberRow → TenantMemberRow) : (t', u') ≠ (t, u) → (∀ m, member_key (f m) = member_key m) →
  js_find (member_is t' u') ((λ m, if member_is t u m then f m else m) <$> l) = js_find (member_is t' u') l.
Proof.
  intros Hne Hf. induction l as [|m l IH]; [done|]. cbn. fold (js_find (member_is t' u')). destruct (member_is t u m) eqn:E.
  - apply member_is_key in E. assert (∀ m', member_key m' = (t, u) → member_is t' u' m' = false) as Hno.
    { intros m' Hm. apply not_true_iff_false. intros H%member_is_key. congruence. }
    rewrite (Hno (f m)), (Hno m) by (rewrite ?Hf; done). apply IH.
  - destruct (member_is t' u' m); [done|]. apply IH.
Qed.
Lemma find_same t u l (f : TenantMemberRow → TenantMemberRow) : (∀ m, member_key (f m) = member_key m) →
  js_find (member_is t u) ((λ m, if member_is t u m then f m else m) <$> l) = f <$> js_find (member_is t u) l.
Proof.
  intros Hf. induction l as [|m l IH]; [done|]. cbn. fold (js_find (member_is t u)). destruct (member_is t u m) eqn:E.
  - assert (member_is t u (f m) = true) as -> by (apply member_is_key; rewrite Hf; by apply member_is_key). done.
  - rewrite E. apply IH.
Qed.

Definition set_role (role : string) (m : TenantMemberRow) : TenantMemberRow :=
  {| tm_tenantId := tm_tenantId m; tm_userId := tm_userId m; tm_role := role; tm_slug := tm_slug m |}.

Lemma some_find {A} (p : A → bool) l : some p l = bool_decide (is_Some (js_find p l)).
Proof.
  destruct (js_find p l) as [x|] eqn:E.
  - rewrite bool_decide_eq_true_2 by eauto. apply some_spec. exists x. by apply js_find_some.
  - rewrite bool_decide_eq_false_2 by (by intros []). apply some_false. by apply js_find_none.
Qed.

(** ** Writing *)

Lemma role_set r c t u : ch_cur c = js_find (member_is (ch_tenantId c) (ch_userId c)) (r_members r) →
  role_of (setMember_write r c) t u = if bool_decide ((t, u) = (ch_tenantId c, ch_userId c)) then Some (ch_role c) else role_of r t u.
Proof.
  intros Hcur. unfold setMember_write, role_of. rewrite Hcur. destruct (bool_decide (tm_role <$> _ = _)) eqn:Hsame.
  { apply bool_decide_eq_true in Hsame. case_bool_decide as Heq; [|done]. by injection Heq as -> ->. }
  clear Hsame. cbn [r_members with_members]. rewrite some_find. destruct (js_find (member_is (ch_tenantId c) (ch_userId c)) (r_members r)) as [m|] eqn:Hf.
  - rewrite bool_decide_eq_true_2 by eauto. case_bool_decide as Heq.
    + injection Heq as -> ->. change (λ m0, if member_is _ _ m0 then _ else m0) with (λ m0, if member_is (ch_tenantId c) (ch_userId c) m0 then set_role (ch_role c) m0 else m0).
      by rewrite find_same, Hf.
    + change (λ m0, if member_is _ _ m0 then _ else m0) with (λ m0, if member_is (ch_tenantId c) (ch_userId c) m0 then set_role (ch_role c) m0 else m0).
      by rewrite find_other.
  - rewrite bool_decide_eq_false_2 by (by intros []). case_bool_decide as Heq.
    + injection Heq as -> ->. rewrite js_find_snoc by done. unfold member_is. cbn. by rewrite !bool_decide_eq_true_2.
    + destruct (js_find (member_is t u) (r_members r)) as [m|] eqn:Ho.
      * assert (∀ l l', js_find (member_is t u) l = Some m → js_find (member_is t u) (l ++ l') = Some m) as Happ.
        { clear. induction l as [|x l IH]; [done|]. cbn. fold (js_find (member_is t u)). intros l'. destruct (member_is t u x); [done|apply IH]. }
        by rewrite (Happ _ _ Ho).
      * rewrite js_find_snoc by done. destruct (member_is t u _) eqn:E; [|done]. apply member_is_key in E. unfold member_key in E. cbn in E. congruence.
Qed.

Lemma role_removed r t u t' u' : role_of (removeMember_write r (t, u)) t' u' = if bool_decide ((t', u') = (t, u)) then None else role_of r t' u'.
Proof.
  unfold role_of, removeMember_write. cbn. induction (r_members r) as [|m l IH]; [by case_bool_decide|].
  change (js_filter _ (m :: l)) with (if negb (member_is t u m) then m :: js_filter (λ m, negb (member_is t u m)) l else js_filter (λ m, negb (member_is t u m)) l).
  destruct (member_is t u m) eqn:E; cbn [negb].
  - rewrite IH. case_bool_decide as Heq; [done|]. cbn. fold (js_find (member_is t' u')). destruct (member_is t' u' m) eqn:E'; [|done].
    apply member_is_key in E, E'. congruence.
  - cbn. fold (js_find (member_is t' u')). destruct (member_is t' u' m) eqn:E'; [|done]. case_bool_decide as Heq; [|done].
    injection Heq as -> ->. by rewrite E in E'.
Qed.

Lemma keys_set r c : setMember_write r c = r ∨ member_key <$> r_members (setMember_write r c) = member_key <$> r_members r
  ∨ ((ch_tenantId c, ch_userId c) ∉ member_key <$> r_members r) ∧ member_key <$> r_members (setMember_write r c) = (member_key <$> r_members r) ++ [(ch_tenantId c, ch_userId c)].
Proof.
  unfold setMember_write. destruct (bool_decide _); [by left|]. right. cbn. destruct (some _ _) eqn:Hs; [left|right].
  - rewrite <-list_fmap_compose. apply list_fmap_ext. intros i m _. cbn. by destruct (member_is _ _ m).
  - rewrite fmap_app. split; [|done]. intros (m & Hk & Hm)%list_elem_of_fmap. pose proof (proj1 (some_false _ _) Hs m Hm) as Hn.
    apply not_true_iff_false in Hn. apply Hn. by apply member_is_key.
Qed.

(** ** Owners *)

(** With two owners, one is someone else. *)
Lemma other_owner r t u : members_wf r → (2 ≤ ownerCount r t)%nat → ∃ m, m ∈ r_members r ∧ owner_in t m = true ∧ member_is t u m = false.
Proof.
  unfold members_wf, ownerCount. intros Hwf Hc.
  assert (NoDup (member_key <$> js_filter (owner_in t) (r_members r))) as Hnd.
  { by eapply sublist_NoDup, sublist_of_fmap, js_filter_sublist. }
  assert (∀ m, m ∈ js_filter (owner_in t) (r_members r) → m ∈ r_members r ∧ owner_in t m = true) as Hin by (by intros m ?%elem_of_js_filter).
  destruct (js_filter (owner_in t) (r_members r)) as [|a [|b l]]; cbn in Hc; [lia|lia|]. rewrite !fmap_cons in Hnd.
  apply NoDup_cons in Hnd as [Hn _]. destruct (member_is t u a) eqn:Ea.
  - exists b. destruct (Hin b) as [H1 H2]; [set_solver|]. split_and!; [done..|]. apply not_true_iff_false. intros Hb%member_is_key.
    apply Hn. apply member_is_key in Ea. rewrite Ea, <-Hb. by left.
  - exists a. destruct (Hin a); [set_solver|]. by split_and!.
Qed.

Lemma owner_after_set s r p t u role c t' : members_wf r → setMember_check s r p t u role = Ok c → has_owner r t' → has_owner (setMember_write r c) t'.
Proof.
  intros Hwf H (m & Hm & Ho). unfold setMember_check in H. cbv zeta in H. revert H. generalize (uuid_of t) as tid, (uuid_of u) as uid. intros tid uid H. destruct (negb (some _ _)); [done|]. destruct (map_get _ _) as [slug|]; [|done].
  apply unit_bind in H as [_ H]. apply unit_bind in H as [_ H]. apply orThrow_bind in H as [Hl H]. simplify_eq.
  apply negb_true_iff in Hl. set (cur := js_find (member_is tid uid) (r_members r)) in *. unfold setMember_write. cbn.
  destruct (bool_decide (tm_role <$> cur = Some role)); [by exists m|]. rewrite some_find. fold cur. destruct cur as [cm|] eqn:Hcur.
  2: { rewrite bool_decide_eq_false_2 by (by intros []). exists m. split; [|done]. cbn. apply elem_of_app. by left. }
  rewrite bool_decide_eq_true_2 by eauto. cbn in Hl.
  assert (∀ x, x ∈ r_members r → (if member_is tid uid x then set_role role x else x) ∈ r_members (with_members r ((λ m, if member_is tid uid m then set_role role m else m) <$> r_members r))) as Hin.
  { intros x Hx. cbn. apply list_elem_of_fmap. eauto. }
  destruct (member_is tid uid m) eqn:Em; [|exists m; split; [specialize (Hin m Hm); by rewrite Em in Hin|done]].
  apply member_is_key in Em as Hkm. injection Hkm as Htm Hum. unfold owner_in in Ho. apply andb_true_iff in Ho as [Ht%bool_decide_eq_true Hro%bool_decide_eq_true].
  destruct (decide (role = "owner")) as [->|Hro'].
  - exists (set_role "owner" m). split; [specialize (Hin m Hm); by rewrite Em in Hin|]. unfold owner_in. cbn. by rewrite !bool_decide_eq_true_2.
  - (* The member was an owner and no longer is: there is another. *)
    assert (cm = m) as ->.
    { apply js_find_some in Hcur as [Hc1 Hc2]. apply member_is_key in Hc2. apply list_elem_of_lookup in Hm as [i Hi], Hc1 as [j Hj].
      assert (i = j) as ->; [|congruence]. eapply (NoDup_lookup (member_key <$> r_members r)); [done|rewrite list_lookup_fmap, Hi; done|].
      rewrite list_lookup_fmap, Hj. cbn. unfold member_key in Hc2 |- *. congruence. }
    rewrite Hro, bool_decide_eq_true_2, bool_decide_eq_false_2 in Hl by done. cbn in Hl. apply Nat.leb_gt in Hl.
    destruct (other_owner r tid uid Hwf Hl) as (x & Hx & Hox & Hnx). exists x. split; [specialize (Hin x Hx); by rewrite Hnx in Hin|congruence].
Qed.

Lemma owner_after_remove s db p t u k t' : members_wf (ty_rows db) → removeMember_check s db p t u = Ok k → has_owner (ty_rows db) t' →
  has_owner (removeMember_write (ty_rows db) k) t'.
Proof.
  intros Hwf H (m & Hm & Ho). unfold removeMember_check in H. cbv zeta in H. revert H. generalize (uuid_of t) as tid, (uuid_of u) as uid. intros tid uid H. apply result_bind_Ok in H as (slug & _ & H). apply orThrow_bind in H as [_ H].
  destruct (js_find _ _) as [cur|] eqn:Hcur; [|done]. apply unit_bind in H as [_ H]. apply unit_bind in H as [Hown H]. simplify_eq.
  assert (∀ x, x ∈ r_members (ty_rows db) → member_is tid uid x = false → x ∈ r_members (removeMember_write (ty_rows db) (tid, uid))) as Hin.
  { intros x Hx Hn. cbn. apply elem_of_js_filter. split; [done|]. by rewrite Hn. }
  destruct (member_is tid uid m) eqn:Em; [|exists m; split; [by apply Hin|done]].
  apply member_is_key in Em as Hkm. injection Hkm as Htm Hum. unfold owner_in in Ho. apply andb_true_iff in Ho as [Ht%bool_decide_eq_true Hro%bool_decide_eq_true].
  assert (cur = m) as ->.
  { apply js_find_some in Hcur as [Hc1 Hc2]. apply member_is_key in Hc2. apply list_elem_of_lookup in Hm as [i Hi], Hc1 as [j Hj].
    assert (i = j) as ->; [|congruence]. eapply (NoDup_lookup (member_key <$> r_members (ty_rows db))); [done|rewrite list_lookup_fmap, Hi; done|].
    rewrite list_lookup_fmap, Hj. cbn. unfold member_key in Hc2 |- *. congruence. }
  rewrite Hro, bool_decide_eq_true_2 in Hown by done. apply unit_bind in Hown as [_ Hl%orThrow_Ok%negb_true_iff%Nat.leb_gt].
  destruct (other_owner _ tid uid Hwf Hl) as (x & Hx & Hox & Hnx). exists x. split; [by apply Hin|congruence].
Qed.

(** ** Requests, one after the other: any snapshot may decide *)

Inductive request : Tenancy → Tenancy → Prop :=
  | rq_put s db p t u role db' b : putMember s db p t u role = Ok (db', b) → request db db'
  | rq_post s db p t email role db' b : postMember s db p t email role = Ok (db', b) → request db db'
  | rq_remove s db p t u db' b : removeMember s db p t u = Ok (db', b) → request db db'
  | rq_create s db p t slug q owner db' : t ∉ (r_members (ty_rows db) ≫= λ m, [tm_tenantId m]) → createTenant s db p t slug q owner = Ok db' → request db db'
  | rq_delete s db p t db' : deleteTenant s db p t = Ok db' → request db db'
  | rq_patch s db p t name q db' b : patchTenant s db p t name q = Ok (db', b) → request db db'
  | rq_share s db p t u x db' : putShare s db p t u x = Ok db' → request db db'.
(** Requests while a tenant is there. *)
Definition request_at (t : string) (db db' : Tenancy) : Prop := request db db' ∧ is_Some (map_get (r_tenants (ty_rows db')) t).

Lemma putMember_Ok s db p t u role db' b : putMember s db p t u role = Ok (db', b) →
  ∃ c, setMember_check s (ty_rows db) p t u role = Ok c ∧ ty_rows db' = setMember_write (ty_rows db) c.
Proof.
  unfold putMember. intros (c & Hc & H)%result_bind_Ok. unfold putMember_check in Hc. apply result_bind_Ok in Hc as (slug & _ & Hc).
  apply orThrow_bind in Hc as [_ Hc]. exists c. split; [done|]. unfold member_set in H. by simplify_eq.
Qed.
Lemma postMember_Ok s db p t email role db' b : postMember s db p t email role = Ok (db', b) →
  ∃ u c, map_get (ty_emails db) email = Some u ∧ setMember_check s (ty_rows db) p t u role = Ok c ∧ ty_rows db' = setMember_write (ty_rows db) c.
Proof.
  unfold postMember. intros (slug & _ & H)%result_bind_Ok. destruct (map_get _ email) as [u|]; [|done].
  apply result_bind_Ok in H as (c & Hc & H). exists u, c. split; [done|]. unfold member_set in H. by simplify_eq.
Qed.
Lemma removeMember_Ok s db p t u db' b : removeMember s db p t u = Ok (db', b) →
  removeMember_check s db p t u = Ok (uuid_of t, uuid_of u) ∧ ty_rows db' = removeMember_write (ty_rows db) (uuid_of t, uuid_of u).
Proof.
  unfold removeMember. intros (k & Hc & H)%result_bind_Ok. assert (k = (uuid_of t, uuid_of u)) as ->.
  { unfold removeMember_check in Hc. apply result_bind_Ok in Hc as (slug & _ & Hc). apply orThrow_bind in Hc as [_ Hc].
    destruct (js_find _ _); [|done]. apply unit_bind in Hc as [_ Hc]. apply unit_bind in Hc as [_ Hc]. by simplify_eq. }
  split; [done|]. by simplify_eq.
Qed.
Lemma deleteTenant_Ok s db p t db' : deleteTenant s db p t = Ok db' → ∃ slug, ty_rows db' = drop_tenant (ty_rows db) (uuid_of t) slug.
Proof. unfold deleteTenant. intros (slug & _ & H)%result_bind_Ok. apply unit_bind in H as [_ H]. apply orThrow_bind in H as [_ H]. simplify_eq. by exists slug. Qed.

Lemma map_get_filter_out {V} (l : list (string * V)) t : map_get (js_filter (λ x, negb (bool_decide (x.1 = t))) l) t = None.
Proof.
  induction l as [|[k v] l IH]; [done|]. cbn. fold (js_filter (λ x : string * V, negb (bool_decide (x.1 = t)))).
  destruct (decide (k = t)) as [->|Hne]; [by rewrite bool_decide_eq_true_2|]. rewrite bool_decide_eq_false_2 by done. cbn [negb map_get].
  by rewrite (bool_decide_eq_false_2 (t = k)) by done.
Qed.

Lemma wf_set r c : members_wf r → members_wf (setMember_write r c).
Proof.
  unfold members_wf. intros Hwf. destruct (keys_set r c) as [-> |[-> |[Hn ->]]]; [done..|]. apply NoDup_app. split_and!; [done| |apply NoDup_singleton].
  by intros k Hk ->%list_elem_of_singleton.
Qed.

Lemma request_wf db db' : members_wf (ty_rows db) → request db db' → members_wf (ty_rows db').
Proof.
  intros Hwf Hr. destruct Hr as [s db p t u role db' b H|s db p t email role db' b H|s db p t u db' b H|s db p t slug q owner db' Hnew H|s db p t db' H|s db p t name q db' b H|s db p t u x db' H].
  - apply putMember_Ok in H as (c & _ & ->). by apply wf_set.
  - apply postMember_Ok in H as (u & c & _ & _ & ->). by apply wf_set.
  - apply removeMember_Ok in H as [_ ->]. unfold members_wf. by eapply sublist_NoDup, sublist_of_fmap, js_filter_sublist.
  - unfold createTenant in H. do 3 apply orThrow_bind in H as [_ H]. apply unit_bind in H as [_ H]. simplify_eq. unfold members_wf. cbn.
    destruct owner as [u|]; [destruct (truthy_str u)|]; rewrite ?app_nil_r; [|done..]. rewrite fmap_app. apply NoDup_app.
    split_and!; [done| |apply NoDup_singleton]. intros k (m & Hkm & Hm)%list_elem_of_fmap Hk%list_elem_of_singleton. apply Hnew.
    apply list_elem_of_bind. exists m. split; [|done]. unfold member_key in Hkm, Hk. cbn in Hk. apply list_elem_of_singleton. congruence.
  - apply deleteTenant_Ok in H as [slug ->]. unfold members_wf. cbn. by eapply sublist_NoDup, sublist_of_fmap, js_filter_sublist.
  - unfold patchTenant in H. apply result_bind_Ok in H as (slug & _ & H). do 3 apply orThrow_bind in H as [_ H]. by simplify_eq.
  - unfold putShare in H. apply result_bind_Ok in H as (slug & _ & H). do 2 apply orThrow_bind in H as [_ H].
    destruct (map_get _ (uuid_of t)) as [q|]; [|done]. destruct (first_above q x) as [[]|]; by simplify_eq.
Qed.

Lemma request_owner t db db' : members_wf (ty_rows db) → request_at t db db' → has_owner (ty_rows db) t → has_owner (ty_rows db') t.
Proof.
  intros Hwf [Hr Ht] Ho. destruct Hr as [s db p t' u role db' b H|s db p t' email role db' b H|s db p t' u db' b H|s db p t' slug q owner db' Hnew H|s db p t' db' H|s db p t' name q db' b H|s db p t' u x db' H].
  - apply putMember_Ok in H as (c & Hc & ->). by eapply owner_after_set.
  - apply postMember_Ok in H as (u & c & _ & Hc & ->). by eapply owner_after_set.
  - apply removeMember_Ok in H as [Hc ->]. by eapply owner_after_remove.
  - unfold createTenant in H. do 3 apply orThrow_bind in H as [_ H]. apply unit_bind in H as [_ H]. simplify_eq. destruct Ho as (m & Hm & Ho).
    exists m. split; [|done]. cbn. apply elem_of_app. by left.
  - apply deleteTenant_Ok in H as [slug Hdb]. rewrite Hdb in Ht |- *. destruct Ho as (m & Hm & Ho). exists m. split; [|done]. cbn in Ht |- *.
    apply elem_of_js_filter. split; [done|]. unfold owner_in in Ho. apply andb_true_iff in Ho as [<-%bool_decide_eq_true _].
    rewrite bool_decide_eq_false_2; [done|]. intros E. rewrite E, map_get_filter_out in Ht. by destruct Ht.
  - unfold patchTenant in H. apply result_bind_Ok in H as (slug & _ & H). do 3 apply orThrow_bind in H as [_ H]. by simplify_eq.
  - unfold putShare in H. apply result_bind_Ok in H as (slug & _ & H). do 2 apply orThrow_bind in H as [_ H].
    destruct (map_get _ (uuid_of t')) as [q|]; [|done]. destruct (first_above q x) as [[]|]; by simplify_eq.
Qed.

(** ** Properties *)

(** C23: a tenant that has an owner keeps one for as long as it is there, whatever requests about tenants, members and
    quotas follow each other, one at a time, whoever makes them and on whatever snapshot they are decided. Deleting a
    user is not such a request, and can take the last owner away ([last_owner_deleted]). *)
Theorem an_owner_stays t db db' : members_wf (ty_rows db) → has_owner (ty_rows db) t → rtc (request_at t) db db' → has_owner (ty_rows db') t.
Proof.
  intros Hwf Ho Hr. induction Hr as [|db1 db2 db3 Hr _ IH]; [done|]. apply IH; [|by eapply request_owner].
  by eapply request_wf, (proj1 Hr).
Qed.

(** A request about one member of a tenant; [written]: it names the member as the database writes the id, or by email. *)
Inductive about_member (s : Snapshot) (p : PrincipalId) (t : string) (db db' : Tenancy) : bool → Prop :=
  | am_put u role b : putMember s db p t u role = Ok (db', b) → about_member s p t db db' (bool_decide (uuid_of u = u))
  | am_post email role b : postMember s db p t email role = Ok (db', b) → about_member s p t db db' true
  | am_remove u b : removeMember s db p t u = Ok (db', b) → about_member s p t db db' true.
(** The ids of users are what the database made them. *)
Definition emails_wf (db : Tenancy) : Prop := ∀ email u, map_get (ty_emails db) email = Some u → uuid_of u = u.

(** The caller has all the rights that the user has in the tenant, or is that user. *)
Definition outranks (s : Snapshot) (r : Rows) (p : PrincipalId) (t u : string) : Prop :=
  ∃ slug, map_get (r_tenants r) t = Some slug
    ∧ ("user:" +++ u ≠ subjectOf p → reach s ("user:" +++ u) ("/tenants/" +++ slug) ⊆ privileges_on s p ("/tenants/" +++ slug) None).

Lemma set_checked s r p t u role c : setMember_check s r p t u role = Ok c →
  (uuid_of u = u → outranks s r p (uuid_of t) u)
  ∧ (role = "owner" ∨ role_of r (uuid_of t) (uuid_of u) = Some "owner" → has_owner_power s r p (uuid_of t) = true)
  ∧ ch_tenantId c = uuid_of t ∧ ch_userId c = uuid_of u ∧ ch_role c = role
  ∧ ch_cur c = js_find (member_is (uuid_of t) (uuid_of u)) (r_members r).
Proof.
  unfold setMember_check. cbv zeta. destruct (negb (some _ _)); [done|]. destruct (map_get _ _) as [slug|] eqn:Hslug; [|done]. intros H.
  apply unit_bind in H as [Hp H]. apply unit_bind in H as [Hr H]. apply orThrow_bind in H as [_ H]. simplify_eq. split_and!; try done.
  - intros _. exists slug. split; [done|]. intros Hne. eapply needOutrank_Ok; [exact Hr|by left|done].
  - intros Ho. unfold role_of in Ho. destruct (bool_decide (role = "owner") || _) eqn:E; [by apply orThrow_Ok in Hp|].
    apply orb_false_elim in E as [E1%bool_decide_eq_false E2%bool_decide_eq_false]. by destruct Ho.
Qed.

Lemma remove_checked s db p t u k : removeMember_check s db p t u = Ok k →
  outranks s (ty_rows db) p (uuid_of t) (uuid_of u)
  ∧ (role_of (ty_rows db) (uuid_of t) (uuid_of u) = Some "owner" → has_owner_power s (ty_rows db) p (uuid_of t) = true).
Proof.
  unfold removeMember_check. cbv zeta. intros (slug & Hl & Hc)%result_bind_Ok. apply orThrow_bind in Hc as [_ Hc].
  destruct (js_find _ _) as [cur|] eqn:Hcur; [|done]. apply unit_bind in Hc as [Hout Hc]. apply unit_bind in Hc as [Hown _].
  pose proof (js_find_some _ _ _ Hcur) as [_ Hk%member_is_key]. injection Hk as Hk1 Hk2. rewrite Hk2 in Hout. split.
  - exists slug. unfold load_tenant in Hl. apply result_bind_Ok in Hl as (x & _ & Hl). destruct (map_get _ _); [|done]. simplify_eq. split; [done|].
    intros Hne'. eapply needOutrank_Ok; [exact Hout|by left|done].
  - unfold role_of. rewrite Hcur. intros [= Ho]. rewrite Ho in Hown. by apply unit_bind in Hown as [Hown%orThrow_Ok _].
Qed.

(** C24: a request about a member changes at most that member's role in that tenant; who becomes an owner or was one is
    only changed by an owner of the tenant or a user administrator; and a member only by a caller who has all the rights
    that the member has there, or is that member, as long as the request names the member as the database writes the id
    (see [upper_case_demotes]). *)
Theorem members_changed_by s p t db db' written t' u : emails_wf db → about_member s p t db db' written →
  role_of (ty_rows db') t' u ≠ role_of (ty_rows db) t' u →
  t' = uuid_of t
  ∧ (role_of (ty_rows db') t' u = Some "owner" ∨ role_of (ty_rows db) t' u = Some "owner" → has_owner_power s (ty_rows db) p t' = true)
  ∧ (written = true → outranks s (ty_rows db) p t' u).
Proof.
  intros Hemails.
  assert (∀ u0 role c, setMember_check s (ty_rows db) p t u0 role = Ok c → ty_rows db' = setMember_write (ty_rows db) c →
    role_of (ty_rows db') t' u ≠ role_of (ty_rows db) t' u →
    t' = uuid_of t ∧ u = uuid_of u0
    ∧ (role_of (ty_rows db') t' u = Some "owner" ∨ role_of (ty_rows db) t' u = Some "owner" → has_owner_power s (ty_rows db) p t' = true)
    ∧ (uuid_of u0 = u0 → outranks s (ty_rows db) p t' u)) as Hset.
  { intros u0 role c Hc -> Hne. apply set_checked in Hc as (Hout & Hown & Ht & Hu & Hro & Hcur). rewrite <-Ht, <-Hu in Hcur.
    rewrite role_set in Hne |- * by done. rewrite Ht, Hu, Hro in Hne |- *.
    destruct (decide ((t', u) = (uuid_of t, uuid_of u0))) as [Heq|Heq]; [|by rewrite bool_decide_eq_false_2 in Hne].
    rewrite bool_decide_eq_true_2 by done. injection Heq as -> ->. split_and!; [done..| |].
    - intros [[= ->]|Ho]; apply Hown; auto.
    - intros Hw. rewrite Hw. by apply Hout. }
  intros [u0 role b H|email role b H|u0 b H] Hne.
  - apply putMember_Ok in H as (c & Hc & Hdb). destruct (Hset u0 role c Hc Hdb Hne) as (? & ? & ? & Hout). split_and!; [done..|].
    intros Hw%bool_decide_eq_true. by apply Hout.
  - apply postMember_Ok in H as (u0 & c & Hmail & Hc & Hdb). destruct (Hset u0 role c Hc Hdb Hne) as (? & ? & ? & Hout).
    split_and!; [done..|]. intros _. by eapply Hout, Hemails.
  - apply removeMember_Ok in H as [Hc Hdb]. rewrite Hdb in Hne |- *. rewrite role_removed in Hne |- *.
    destruct (decide ((t', u) = (uuid_of t, uuid_of u0))) as [Heq|Heq]; [|by rewrite bool_decide_eq_false_2 in Hne].
    rewrite bool_decide_eq_true_2 by done. injection Heq as -> ->. apply remove_checked in Hc as [Hout Hown]. split_and!; [done| |done]. intros [?|Ho]; [done|by apply Hown].
Qed.

(** ** Examples *)

Definition tenant_a : string := "00000000-0000-0000-0000-0000000000a0".
Definition user_b : string := "00000000-0000-0000-0000-0000000000b0".
Definition user_c : string := "00000000-0000-0000-0000-0000000000c0".
Definition is_member (u role : string) : TenantMemberRow := {| tm_tenantId := tenant_a; tm_userId := u; tm_role := role; tm_slug := "acme" |}.
Definition demo_tenancy (entries : list AclEntryRow) (members : list TenantMemberRow) (q : Quota.Quotas) : Tenancy := {|
  ty_rows := {|
    r_explicit := entries; r_roles := []; r_members := members; r_accounts := [];
    r_people := [{| u_id := user_b; u_disabled := false |}; {| u_id := user_c; u_disabled := false |}];
    r_places := []; r_tenants := [(tenant_a, "acme")]; r_clusters := []; r_owned := []; r_k8s := []; r_inventoried := []; r_grouped := [];
    r_memberGroups := []; r_located := [] |};
  ty_emails := [("carl@example", user_c)]; ty_quotas := [(tenant_a, q)]; ty_shares := [] |}.
Definition no_quotas : Quota.Quotas :=
  {| Quota.pool := λ _, None; Quota.maxInstanceCpu := None; Quota.maxInstanceMemory := None; Quota.maxInstanceDisk := None; Quota.q_snapshots := None;
     Quota.q_backups := None; Quota.q_backupGiB := None; Quota.q_kubernetes := None |}.
Definition user (u : string) : PrincipalId := {| p_service := false; p_id := u |}.
Definition two_owners : Tenancy := demo_tenancy [] [is_member user_b "owner"; is_member user_c "owner"] no_quotas.
Definition now_of (db : Tenancy) : Snapshot := load 0 (ty_rows db).
Definition then_ {A} (db : Tenancy) (r : result (Tenancy * A)) : Tenancy := match r with Ok (db', _) => db' | Throw _ => db end.
Lemma then_Ok {A} db (r : result (Tenancy * A)) : is_ok r = true → ∃ x, r = Ok (then_ db r, x).
Proof. destruct r as [[db' x]|]; [|done]. by exists x. Qed.

(** An owner removes the other; then the last one stays. *)
Definition one_owner : Tenancy := then_ two_owners (removeMember (now_of two_owners) two_owners (user user_b) tenant_a user_c).
Lemma demo_removes : ∃ b, removeMember (now_of two_owners) two_owners (user user_b) tenant_a user_c = Ok (one_owner, b).
Proof. apply then_Ok. vm_compute. done. Qed.
Lemma an_owner_stays_witness : has_owner (ty_rows one_owner) tenant_a
  ∧ removeMember (now_of one_owner) one_owner (user user_b) tenant_a user_b = Throw last_owner.
Proof.
  split; [|vm_compute; reflexivity]. destruct demo_removes as [b Hb]. apply (an_owner_stays tenant_a two_owners one_owner).
  - apply (bool_decide_eq_true (NoDup _)). vm_compute. reflexivity.
  - exists (is_member user_b "owner"). split; [left|reflexivity].
  - apply rtc_once. split; [by eapply rq_remove|]. vm_compute. by eexists.
Defined.

Lemma two_owners_emails : emails_wf two_owners.
Proof.
  intros email u. change (ty_emails two_owners) with [("carl@example", user_c)]. simpl.
  destruct (bool_decide _); intros H; [|discriminate H]. injection H as <-. reflexivity.
Qed.
Lemma members_changed_by_witness :
  role_of (ty_rows one_owner) tenant_a user_c = None ∧ has_owner_power (now_of two_owners) (ty_rows two_owners) (user user_b) tenant_a = true.
Proof.
  split; [vm_compute; reflexivity|]. destruct demo_removes as [b Hb].
  destruct (members_changed_by (now_of two_owners) (user user_b) tenant_a two_owners one_owner true tenant_a user_c) as (_ & Hp & _).
  - exact two_owners_emails.
  - by eapply am_remove.
  - vm_compute. discriminate.
  - apply Hp. right. vm_compute. reflexivity.
Defined.

(** The owner of a tenant may not narrow a platform administrator who is a member of it, but does with the
    administrator's id in upper case: the role that is stored is the most specific one, and takes their rights there. *)
Definition upper_user_b : string := "00000000-0000-0000-0000-0000000000B0".
Definition with_administrator : Tenancy :=
  demo_tenancy [user_entry "e" "/" user_b "administrator"] [is_member user_c "owner"] no_quotas.
Theorem upper_case_demotes :
  let narrow id := putMember (now_of with_administrator) with_administrator (user user_c) tenant_a id "viewer" in
  is_ok (narrow user_b) = false
  ∧ match narrow upper_user_b with
    | Ok (db', _) => role_of (ty_rows db') tenant_a user_b = Some "viewer"
        ∧ can (now_of with_administrator) (user user_b) "tenant.members" "/tenants/acme" None = true
        ∧ can (now_of db') (user user_b) "tenant.members" "/tenants/acme" None = false
    | Throw _ => False
    end.
Proof. split_and!; vm_compute; repeat split; reflexivity. Qed.

(** The checks are not part of the transaction: two owners who remove each other at the same time both pass them, and the
    tenant is left without an owner. *)
Theorem last_owners_race :
  let s := now_of two_owners in
  let a := removeMember_check s two_owners (user user_b) tenant_a user_c in
  let b := removeMember_check s two_owners (user user_c) tenant_a user_b in
  a = Ok (tenant_a, user_c) ∧ b = Ok (tenant_a, user_b)
  ∧ ownerCount (removeMember_write (removeMember_write (ty_rows two_owners) (tenant_a, user_c)) (tenant_a, user_b)) tenant_a = 0%nat.
Proof. split_and!; vm_compute; reflexivity. Qed.

(** A user administrator deletes the account of a tenant's last owner without a word about the tenant. *)
Definition administered : Tenancy := demo_tenancy [user_entry "e" "/" user_b "administrator"] [is_member user_c "owner"] no_quotas.
Theorem last_owner_deleted :
  let db := {| rows := ty_rows administered; groupIds := []; k8sAt := [] |} in
  ownerCount (rows db) tenant_a = 1%nat
  ∧ match deleteUser (now_of administered) db (user user_b) user_c (Ok tt) with
    | Ok db' => ownerCount (rows db') tenant_a = 0%nat ∧ map_get (r_tenants (rows db')) tenant_a = Some "acme"
    | Throw _ => False
    end.
Proof. vm_compute. done. Qed.

(** A share that was within the tenant's quota stays when the quota is lowered. *)
Theorem share_above_tenant :
  let share := {| Quota.uq_instances := None; Quota.uq_cpu := Some 8; Quota.uq_memory := None; Quota.uq_backups := None |} in
  let cpu n := {| Quota.pool := λ k, match k with Quota.Cpu => Some n | _ => None end; Quota.maxInstanceCpu := None; Quota.maxInstanceMemory := None;
                  Quota.maxInstanceDisk := None; Quota.q_snapshots := None; Quota.q_backups := None; Quota.q_backupGiB := None; Quota.q_kubernetes := None |} in
  let db := demo_tenancy [user_entry "e" "/" user_b "administrator"] [is_member user_c "owner"] (cpu 16) in
  match putShare (now_of db) db (user user_b) tenant_a user_c share with
  | Ok db1 => match patchTenant (now_of db) db1 (user user_b) tenant_a None (Some (cpu 4)) with
              | Ok (db2, _) => (snd <$> ty_shares db2) = [share]
                  ∧ is_ok (putShare (now_of db) db2 (user user_b) tenant_a user_c share) = false
              | Throw _ => False
              end
  | Throw _ => False
  end.
Proof. vm_compute. done. Qed.
