(* ===== verification/Inventory.v ===== *)
(** * Inventory: what a pass over a cluster stores

    Models [fleet/store.ts] and which clusters [fleet/worker.ts] visits: the
    rows of a cluster's instances with their rates since the pass before, its
    members, pools and networks, and the samples of its metrics. The whole of
    [applySnapshot] is one transaction. An instance's columns are its snapshot;
    rates, doubles in the code, are exact rationals. *)

From Stdlib Require Import QArith.QArith_base QArith.Qreduction QArith.Qcanon.
From S2P Require Import Prelude JsString Effects Fleet.
Open Scope Z_scope.

Definition quot (n d : Z) : Qc := Q2Qc (Qmake n (Z.to_pos d)).
(** Per second since the pass before, [ms] milliseconds ago. *)
Definition rate (now prev : option Z) (ms scale : Z) : option Qc :=
  match now, prev with
  | Some n, Some p => if (ms <=? 0) || (n <? p) then None else Some (quot ((n - p) * 1000) (ms * scale))
  | _, _ => None
  end.

Definition searchText (clusterName : string) (i : InstanceSnapshot) : string :=
  toLowerCase (join " " (js_filter truthy_str
    ([is_name i; is_project i; clusterName; is_location i; is_description i; is_imageOs i; is_imageRelease i; is_type i; is_status i] ++ is_addresses i))).

Definition Key : Type := string * string * string.  (** cluster, project, name *)
Record Row := {
  rw_id : string; rw_clusterId : string; rw_snap : InstanceSnapshot;
  rw_cpuCores : option Qc; rw_netRxBps : option Qc; rw_netTxBps : option Qc; rw_search : string; rw_seenAt : Z;
}.
Definition key_of (r : Row) : Key := (rw_clusterId r, is_project (rw_snap r), is_name (rw_snap r)).

Inductive SampleOf := OfInstance (id : string) | OfMember (name : string).
Record Sample := {
  sm_at : Z; sm_clusterId : string; sm_of : SampleOf; sm_cpuCores : option Qc; sm_memoryUsed : option Z;
  sm_netRxBps : option Qc; sm_netTxBps : option Qc; sm_load1 : option Qc;
}.
Record ClusterRow := { cl_id : string; cl_name : string; cl_disabled : bool; cl_inventoryAt : option Z; cl_inventoryError : string }.
Record Inventory := {
  iv_rows : list Row;
  iv_members : list (string * Z * MemberSnapshot);
  iv_pools : list (string * PoolSnapshot);
  iv_networks : list (string * NetworkSnapshot);
  iv_samples : list Sample;
  iv_clusters : list ClusterRow;
}.

(** The rows before, found by the project and the name joined with a slash; of two the later one is found. *)
Definition ref_of (i : InstanceSnapshot) : string := is_project i +++ "/" +++ is_name i.
Definition prev_row (prev : list Row) (i : InstanceSnapshot) : option Row :=
  js_find (λ r, bool_decide (ref_of (rw_snap r) = ref_of i)) (rev prev).
(** A row to insert; the key of the table is made by the database. *)
Definition stored (prev : list Row) (clusterId clusterName : string) (now : Z) (i : InstanceSnapshot) : string → Row := λ id,
  let p := prev_row prev i in
  let ms := match p with Some p => now - rw_seenAt p | None => 0 end in
  {| rw_id := id; rw_clusterId := clusterId; rw_snap := i;
     rw_cpuCores := rate (is_cpuNs i) (p ≫= λ r, is_cpuNs (rw_snap r)) ms 1000000000;
     rw_netRxBps := rate (is_netRx i) (p ≫= λ r, is_netRx (rw_snap r)) ms 1; rw_netTxBps := rate (is_netTx i) (p ≫= λ r, is_netTx (rw_snap r)) ms 1;
     rw_search := searchText clusterName i; rw_seenAt := now |}.

(** [INSERT ... ON CONFLICT (cluster, project, name) DO UPDATE] of one row: what is stored, and the row it returns. *)
Definition upsert (new_id : list Row → string) (rows : list Row) (new : string → Row) : list Row * Row :=
  match js_find (λ r, bool_decide (key_of r = key_of (new EmptyString))) rows with
  | Some old => let row := new (rw_id old) in ((λ r, if bool_decide (key_of r = key_of row) then row else r) <$> rows, row)
  | None => let row := new (new_id rows) in (rows ++ [row], row)
  end.
Fixpoint upserts (new_id : list Row → string) (rows : list Row) (news : list (string → Row)) : list Row * list Row :=
  match news with
  | [] => (rows, [])
  | n :: news => let '(rows, r) := upsert new_id rows n in let '(rows, rs) := upserts new_id rows news in (rows, r :: rs)
  end.
(** One statement: it refuses to touch a row twice. *)
Definition insert_chunk (new_id : list Row → string) (rows : list Row) (chunk : list (string → Row)) : result (list Row * list Row) :=
  if bool_decide (NoDup ((λ n : string → Row, key_of (n EmptyString)) <$> chunk)) then Ok (upserts new_id rows chunk)
  else throw 500 "internal" "ON CONFLICT DO UPDATE command cannot affect row a second time".

Definition CHUNK : nat := 500.
(** [for (let n = 0; n < rows.length; n += size)]; [fuel]: the length is enough. *)
Fixpoint chunks {A} (fuel size : nat) (l : list A) : list (list A) :=
  match fuel, l with
  | S fuel, _ :: _ => take size l :: chunks fuel size (drop size l)
  | _, _ => []
  end.
Fixpoint insert_chunks (new_id : list Row → string) (rows : list Row) (l : list (list (string → Row))) : result (list Row * list Row) :=
  match l with
  | [] => Ok (rows, [])
  | c :: l => '(rows, kept) ← insert_chunk new_id rows c; '(rows, more) ← insert_chunks new_id rows l; Ok (rows, kept ++ more)
  end.

(** What is gone is removed: rows of the cluster that were not kept. *)
Definition remaining (clusterId : string) (kept : list Row) (rows : list Row) : list Row :=
  js_filter (λ r, negb (bool_decide (rw_clusterId r = clusterId)) || includes (rw_id <$> kept) (rw_id r)) rows.

Definition instance_sample (clusterId : string) (now : Z) (r : Row) : Sample :=
  {| sm_at := now; sm_clusterId := clusterId; sm_of := OfInstance (rw_id r); sm_cpuCores := rw_cpuCores r; sm_memoryUsed := is_memoryUsed (rw_snap r);
     sm_netRxBps := rw_netRxBps r; sm_netTxBps := rw_netTxBps r; sm_load1 := None |}.
Definition member_sample (clusterId : string) (now : Z) (m : MemberSnapshot) : Sample :=
  {| sm_at := now; sm_clusterId := clusterId; sm_of := OfMember (ms_name m); sm_cpuCores := None; sm_memoryUsed := Some (ms_memoryUsed m);
     sm_netRxBps := None; sm_netTxBps := None; sm_load1 := ms_load1 m |}.
Definition samples_of (clusterId : string) (now : Z) (kept : list Row) (members : list MemberSnapshot) : list Sample :=
  (instance_sample clusterId now <$> js_filter (λ r, bool_decide (is_status (rw_snap r) = "Running")) kept) ++ (member_sample clusterId now <$> members).

Definition replace_of {A} (clusterId : string) (cluster_of : A → string) (new : list A) (l : list A) : list A :=
  js_filter (λ x, negb (bool_decide (cluster_of x = clusterId))) l ++ new.
(** The tables of members, pools and networks have a key: a statement with one twice is refused. *)
Definition no_twice {K} `{EqDecision K} (keys : list K) : result unit :=
  if bool_decide (NoDup keys) then Ok tt else throw 500 "internal" "duplicate key value violates unique constraint".
Definition on_row (clusterId : string) (f : ClusterRow → ClusterRow) (l : list ClusterRow) : list ClusterRow :=
  (λ c, if bool_decide (cl_id c = clusterId) then f c else c) <$> l.
Definition inventoried (now : Z) (error : string) (c : ClusterRow) : ClusterRow :=
  {| cl_id := cl_id c; cl_name := cl_name c; cl_disabled := cl_disabled c; cl_inventoryAt := Some now; cl_inventoryError := error |}.

Definition prev_of (db : Inventory) (clusterId : string) : list Row := js_filter (λ r, bool_decide (rw_clusterId r = clusterId)) (iv_rows db).

Section store.
Context (new_id : list Row → string) (clusterId clusterName : string) (snap : Snapshot) (now retentionMs : Z).

Definition applySnapshot (db : Inventory) : result (Inventory * nat) :=
  let rows := stored (prev_of db clusterId) clusterId clusterName now <$> s_instances snap in
  '(all, kept) ← insert_chunks new_id (iv_rows db) (chunks (length rows) CHUNK rows);
  _ ← no_twice (ms_name <$> s_members snap);
  _ ← no_twice ((λ p, (ps_member p, ps_name p)) <$> s_pools snap);
  _ ← no_twice ((λ x, (ns_project x, ns_name x)) <$> s_networks snap);
  Ok ({| iv_rows := remaining clusterId kept all;
         iv_members := replace_of clusterId (λ m, m.1.1) ((λ m, (clusterId, now, m)) <$> s_members snap) (iv_members db);
         iv_pools := replace_of clusterId fst ((λ p, (clusterId, p)) <$> s_pools snap) (iv_pools db);
         iv_networks := replace_of clusterId fst ((λ x, (clusterId, x)) <$> s_networks snap) (iv_networks db);
         iv_samples := js_filter (λ s, negb (sm_at s <? now - retentionMs)) (iv_samples db ++ samples_of clusterId now kept (s_members snap));
         iv_clusters := on_row clusterId (inventoried now EmptyString) (iv_clusters db) |}, length kept).
End store.

(** ** Which clusters are visited ([worker.ts]) *)

Definition is_due (staleBefore : Z) (c : ClusterRow) : bool :=
  negb (cl_disabled c) && match cl_inventoryAt c with None => true | Some t => t <? staleBefore end.
Definition due `{!Locale} (intervalMs now : Z) (db : Inventory) : list ClusterRow :=
  js_sort (λ a b, locale_compare (cl_name a) (cl_name b)) (js_filter (is_due (now - intervalMs)) (iv_clusters db)).
(** What a cluster was found to hold is stored; [after]: what the sweep of owners and entries that follows threw.
    When any of it fails the last stored inventory stays, and the next attempt waits for the interval. *)
Definition failed (c : ClusterRow) (at_ : Z) (message : string) (db : Inventory) : Inventory :=
  {| iv_rows := iv_rows db; iv_members := iv_members db; iv_pools := iv_pools db; iv_networks := iv_networks db; iv_samples := iv_samples db;
     iv_clusters := on_row (cl_id c) (inventoried at_ (str_take 500 message)) (iv_clusters db) |}.
Definition visit (new_id : list Row → string) (retentionMs : Z) (db : Inventory) (c : ClusterRow) (collected : Snapshot + string)
    (now at_ : Z) (after : option string) : Inventory :=
  match collected with
  | inl snap => match applySnapshot new_id (cl_id c) (cl_name c) snap now retentionMs db with
                | Ok (db', _) => match after with None => db' | Some m => failed c at_ m db' end
                | Throw e => failed c at_ (message e) db
                end
  | inr m => failed c at_ m db
  end.

(** ** Theorems: a pass leaves what the cluster holds *)

(** ** Statements in chunks *)

Lemma chunks_concat {A} fuel size (l : list A) : (length l ≤ fuel)%nat → (0 < size)%nat → mjoin (chunks fuel size l) = l.
Proof.
  revert l. induction fuel as [|fuel IH]; intros [|x l] Hl Hs; [done|cbn in Hl; lia|done|].
  change (take size (x :: l) ++ mjoin (chunks fuel size (drop size (x :: l))) = x :: l).
  rewrite IH; [by rewrite take_drop|rewrite length_drop; cbn in *; lia|done].
Qed.

Lemma filter_cons_if {A} (p : A → bool) x l : js_filter p (x :: l) = if p x then x :: js_filter p l else js_filter p l.
Proof. done. Qed.

Definition key_new (n : string → Row) : Key := key_of (n EmptyString).

Section upserts.
Context (new_id : list Row → string).

Lemma upserts_app rows a b :
  upserts new_id rows (a ++ b) = let '(rows, x) := upserts new_id rows a in let '(rows, y) := upserts new_id rows b in (rows, x ++ y).
Proof.
  revert rows. induction a as [|n a IH]; intros rows; cbn; [by destruct (upserts _ _ b)|].
  destruct (upsert new_id rows n) as [rows1 r]. rewrite IH. destruct (upserts new_id rows1 a) as [rows2 x]. by destruct (upserts new_id rows2 b).
Qed.
(** Chunks of rows that differ are stored as one statement would store them all. *)
Lemma insert_chunks_all rows l : NoDup (key_new <$> mjoin l) → insert_chunks new_id rows l = Ok (upserts new_id rows (mjoin l)).
Proof.
  revert rows. induction l as [|c l IH]; intros rows Hnd; [done|]. change (mjoin (c :: l)) with (c ++ mjoin l) in *.
  rewrite fmap_app in Hnd. apply NoDup_app in Hnd as (Hc & _ & Hl). cbn. unfold insert_chunk.
  rewrite bool_decide_eq_true_2 by done. cbn. rewrite upserts_app. destruct (upserts new_id rows c) as [rows1 x].
  rewrite IH by done. cbn. by destruct (upserts new_id rows1 (mjoin l)).
Qed.

(** ** One row *)

Definition rows_wf (rows : list Row) : Prop := NoDup (key_of <$> rows) ∧ NoDup (rw_id <$> rows).
(** A row to insert is what it is whatever its id. *)
Definition plain (n : string → Row) : Prop := ∀ id, key_of (n id) = key_new n ∧ rw_id (n id) = id.

Lemma find_key rows k old : js_find (λ r, bool_decide (key_of r = k)) rows = Some old → old ∈ rows ∧ key_of old = k.
Proof. intros [H1 H2%bool_decide_eq_true]%js_find_some. done. Qed.
Lemma same_key rows a b : rows_wf rows → a ∈ rows → b ∈ rows → key_of a = key_of b → a = b.
Proof.
  intros [Hk _] [i Hi]%list_elem_of_lookup [j Hj]%list_elem_of_lookup He. assert (i = j) as ->; [|congruence].
  eapply (NoDup_lookup (key_of <$> rows)); [done|by rewrite list_lookup_fmap, Hi|]. rewrite list_lookup_fmap, Hj. cbn. congruence.
Qed.
Lemma same_id rows a b : rows_wf rows → a ∈ rows → b ∈ rows → rw_id a = rw_id b → a = b.
Proof.
  intros [_ Hk] [i Hi]%list_elem_of_lookup [j Hj]%list_elem_of_lookup He. assert (i = j) as ->; [|congruence].
  eapply (NoDup_lookup (rw_id <$> rows)); [done|by rewrite list_lookup_fmap, Hi|]. rewrite list_lookup_fmap, Hj. cbn. congruence.
Qed.

Lemma replaced_id row old (rows : list Row) : rw_id row = rw_id old → (∀ r, r ∈ rows → key_of r = key_of row → r = old) →
  rw_id <$> ((λ r, if bool_decide (key_of r = key_of row) then row else r) <$> rows) = rw_id <$> rows.
Proof.
  intros Hid Hold. rewrite <-list_fmap_compose. apply list_fmap_ext. intros i r Hr%list_elem_of_lookup_2. cbn.
  case_bool_decide as Hk; [|done]. by rewrite (Hold r Hr Hk).
Qed.
Lemma replaced_key row (rows : list Row) : key_of <$> ((λ r, if bool_decide (key_of r = key_of row) then row else r) <$> rows) = key_of <$> rows.
Proof. rewrite <-list_fmap_compose. apply list_fmap_ext. intros i r _. cbn. case_bool_decide; [done|done]. Qed.

Context (Hnew : ∀ rows, new_id rows ∉ rw_id <$> rows).

Lemma upsert_spec rows n rows' r : rows_wf rows → plain n → upsert new_id rows n = (rows', r) →
  rows_wf rows' ∧ r = n (rw_id r) ∧ (∀ x, x ∈ rows' ↔ x = r ∨ x ∈ rows ∧ key_of x ≠ key_of r)
  ∧ (∀ old, old ∈ rows → key_of old = key_of r → rw_id old = rw_id r)
  ∧ js_filter (λ x, negb (bool_decide (rw_clusterId x = rw_clusterId r))) rows' = js_filter (λ x, negb (bool_decide (rw_clusterId x = rw_clusterId r))) rows.
Proof.
  intros Hwf Hn H. unfold upsert in H. destruct (js_find _ rows) as [old|] eqn:Hf; simplify_eq.
  - apply find_key in Hf as [Hin Hk]. set (row := n (rw_id old)) in *. destruct (Hn (rw_id old)) as [Hkr Hir]. fold row in Hkr, Hir.
    assert (∀ x, x ∈ rows → key_of x = key_of row → x = old) as Hold by (intros x Hx He; eapply same_key; [done..|]; unfold key_new in Hkr; congruence).
    split_and!.
    + destruct Hwf as [H1 H2]. split; [by rewrite replaced_key|by rewrite (replaced_id row old)].
    + by rewrite Hir.
    + intros x. rewrite list_elem_of_fmap. split.
      * intros (y & -> & Hy). case_bool_decide; [by left|by right].
      * intros [-> |[Hx Hne]]; [exists old; rewrite bool_decide_eq_true_2; [done|unfold key_new in Hkr; congruence]|].
        exists x. by rewrite bool_decide_eq_false_2.
    + intros x Hx He. rewrite (Hold x Hx He). done.
    + assert (∀ x, rw_clusterId x = rw_clusterId row ∨ key_of x ≠ key_of row) as Hd.
      { intros x. destruct (decide (key_of x = key_of row)) as [He|]; [left|by right]. unfold key_of in He. congruence. }
      clear -Hd. induction rows as [|x rows IH]; [done|]. rewrite fmap_cons, !filter_cons_if, IH. destruct (Hd x) as [He|Hne].
      * assert (rw_clusterId (if bool_decide (key_of x = key_of row) then row else x) = rw_clusterId row) as -> by by destruct (bool_decide _).
        by rewrite (bool_decide_eq_true_2 (rw_clusterId row = _)), (bool_decide_eq_true_2 (rw_clusterId x = _)).
      * by rewrite (bool_decide_eq_false_2 (key_of x = _)).
  - destruct (Hn (new_id rows)) as [Hk Hi]. set (r := n (new_id rows)) in *.
    assert (key_of r ∉ key_of <$> rows) as Hno.
    { intros (x & Hkx & Hx)%list_elem_of_fmap. pose proof (js_find_none _ _ Hf x Hx) as Hb. apply bool_decide_eq_false in Hb. unfold key_new in Hk. congruence. }
    assert (∀ x, x ∈ rows → key_of x ≠ key_of r) as Hno' by (intros x Hx He; apply Hno; rewrite <-He; apply list_elem_of_fmap; eauto).
    split_and!.
    + destruct Hwf as [H1 H2]. split; rewrite fmap_app; (apply NoDup_app; split_and!; [done| |apply NoDup_singleton]; intros y Hy ->%list_elem_of_singleton).
      * by apply Hno.
      * rewrite Hi in Hy. by destruct (Hnew rows).
    + by rewrite Hi.
    + intros x. rewrite elem_of_app, list_elem_of_singleton. split; [intros [Hx| ->]; [right; auto|by left]|intros [-> |[Hx _]]; [by right|by left]].
    + intros x Hx He. by destruct (Hno' x Hx).
    + rewrite js_filter_snoc, bool_decide_eq_true_2 by done. cbn. by rewrite app_nil_r.
Qed.

(** ** All of them *)

Lemma upserts_spec c rows news rows' kept : rows_wf rows → Forall plain news → Forall (λ n, ∀ id, rw_clusterId (n id) = c) news → NoDup (key_new <$> news) →
  upserts new_id rows news = (rows', kept) →
  rows_wf rows' ∧ (∀ x, x ∈ rows' ↔ x ∈ kept ∨ x ∈ rows ∧ key_of x ∉ key_new <$> news)
  ∧ Forall2 (λ n r, r = n (rw_id r) ∧ ∀ old, old ∈ rows → key_of old = key_of r → rw_id old = rw_id r) news kept
  ∧ js_filter (λ x, negb (bool_decide (rw_clusterId x = c))) rows' = js_filter (λ x, negb (bool_decide (rw_clusterId x = c))) rows.
Proof.
  revert rows kept. induction news as [|n news IH]; intros rows kept Hwf Hp Hc Hnd H; cbn in H.
  { simplify_eq. split_and!; [done| |constructor|done]. intros x. rewrite elem_of_nil. split; [intros Hx; right; split; [done|apply not_elem_of_nil]|intros [[]|[Hx _]]; done]. }
  destruct (upsert new_id rows n) as [rows1 r] eqn:Hu. destruct (upserts new_id rows1 news) as [rows2 rs] eqn:Hus. simplify_eq.
  apply Forall_cons in Hp as [Hpn Hp], Hc as [Hcn Hc]. rewrite fmap_cons in Hnd. apply NoDup_cons in Hnd as [Hnn Hnd].
  destruct (upsert_spec rows n rows1 r Hwf Hpn Hu) as (Hwf1 & Hr & Hin1 & Hid1 & Ho1).
  destruct (IH rows1 rs Hwf1 Hp Hc Hnd Hus) as (Hwf2 & Hin2 & Hf2 & Ho2).
  assert (key_of r = key_new n) as Hkr by (rewrite Hr; apply Hpn).
  assert (rw_clusterId r = c) as Hcr by (rewrite Hr; apply Hcn). rewrite Hcr in Ho1.
  split_and!; [done| | |by rewrite Ho2].
  - intros x. rewrite Hin2, Hin1, fmap_cons, !not_elem_of_cons, elem_of_cons, <-Hkr. split.
    + intros [Hx|[[-> |[Hx Hne]] Hnx]]; [by left; right|by left; left|right; done].
    + intros [[-> |Hx]|(Hx & Hne & Hnx)]; [right; split; [by left|by rewrite Hkr]|by left|right; split; [by right|done]].
  - constructor; [done|]. eapply Forall2_impl; [exact Hf2|]. intros n' r' [Hr' Hid']. split; [done|]. intros old Hold He.
    destruct (decide (key_of old = key_of r)) as [Heq|Hne]; [|by apply Hid'; [apply Hin1; right|]].
    rewrite (Hid1 old Hold Heq). apply Hid'; [apply Hin1; by left|congruence].
Qed.
End upserts.

(** ** A pass *)

Section pass.
Context (new_id : list Row → string) (Hnew : ∀ rows, new_id rows ∉ rw_id <$> rows).
Context (clusterId clusterName : string) (snap : Snapshot) (now retentionMs : Z).
Abbreviation apply := (applySnapshot new_id clusterId clusterName snap now retentionMs).

Definition snap_key (i : InstanceSnapshot) : string * string := (is_project i, is_name i).
Lemma stored_key prev i id : key_of (stored prev clusterId clusterName now i id) = (clusterId, is_project i, is_name i).
Proof. done. Qed.
Lemma stored_keys prev (l : list InstanceSnapshot) : key_new <$> (stored prev clusterId clusterName now <$> l) = (λ k, (clusterId, k.1, k.2)) <$> (snap_key <$> l).
Proof. rewrite <-!list_fmap_compose. by apply list_fmap_ext. Qed.
Lemma stored_nodup prev (l : list InstanceSnapshot) : NoDup (snap_key <$> l) → NoDup (key_new <$> (stored prev clusterId clusterName now <$> l)).
Proof. intros H. rewrite stored_keys. apply NoDup_fmap_2; [|done]. by intros [a b] [c d] [= -> ->]. Qed.

(** What was read has nothing twice. *)
Definition read_once : Prop :=
  NoDup (snap_key <$> s_instances snap) ∧ NoDup (ms_name <$> s_members snap)
  ∧ NoDup ((λ p, (ps_member p, ps_name p)) <$> s_pools snap) ∧ NoDup ((λ x, (ns_project x, ns_name x)) <$> s_networks snap).
(** What a pass did: the rows it kept, and what it left. *)
Definition passed (db db' : Inventory) (all kept : list Row) : Prop :=
  rows_wf all ∧ iv_rows db' = remaining clusterId kept all
  ∧ (∀ x, x ∈ all ↔ x ∈ kept ∨ x ∈ iv_rows db ∧ key_of x ∉ (λ k, (clusterId, k.1, k.2)) <$> (snap_key <$> s_instances snap))
  ∧ Forall2 (λ i r, r = stored (prev_of db clusterId) clusterId clusterName now i (rw_id r) ∧ ∀ old, old ∈ iv_rows db → key_of old = key_of r → rw_id old = rw_id r)
      (s_instances snap) kept
  ∧ js_filter (λ x, negb (bool_decide (rw_clusterId x = clusterId))) all = js_filter (λ x, negb (bool_decide (rw_clusterId x = clusterId))) (iv_rows db)
  ∧ iv_samples db' = js_filter (λ s, negb (sm_at s <? now - retentionMs)) (iv_samples db ++ samples_of clusterId now kept (s_members snap)).
Lemma apply_passed db : rows_wf (iv_rows db) → read_once →
  ∃ db' all kept, apply db = Ok (db', length (s_instances snap)) ∧ passed db db' all kept.
Proof.
  intros Hwf (Hnd & Hm & Hpl & Hn). unfold applySnapshot, no_twice. rewrite !bool_decide_eq_true_2 by done. set (prev := prev_of db clusterId). set (rows := stored prev clusterId clusterName now <$> s_instances snap).
  pose proof (stored_nodup prev _ Hnd) as Hndk. fold rows in Hndk.
  pose proof (chunks_concat (length rows) CHUNK rows (le_n _) ltac:(unfold CHUNK; lia)) as Hcc.
  rewrite insert_chunks_all, Hcc by (by rewrite Hcc). destruct (upserts new_id (iv_rows db) rows) as [all kept] eqn:Hu.
  destruct (upserts_spec new_id Hnew clusterId (iv_rows db) rows all kept) as (Hwf' & Hin & Hf & Ho); [done| | |done|done|].
  { apply Forall_fmap, Forall_forall. by intros i _ id. }
  { apply Forall_fmap, Forall_forall. by intros i _ id. }
  unfold rows in Hf. apply Forall2_fmap_l in Hf. eexists _, all, kept. cbn. split; [by rewrite (Forall2_length _ _ _ Hf)|].
  split_and!; [done|done| |done|done|done]. intros x. rewrite Hin. unfold rows. by rewrite stored_keys.
Qed.

Lemma kept_of db db' all kept r : passed db db' all kept → r ∈ kept → ∃ i, i ∈ s_instances snap ∧ r = stored (prev_of db clusterId) clusterId clusterName now i (rw_id r)
  ∧ ∀ old, old ∈ iv_rows db → key_of old = key_of r → rw_id old = rw_id r.
Proof.
  intros (_ & _ & _ & Hf & _) [j Hj]%list_elem_of_lookup. destruct (Forall2_lookup_r _ _ _ _ _ Hf Hj) as (i & Hi & Hr & Hid).
  exists i. split; [by eapply list_elem_of_lookup_2|done].
Qed.
(** The rows of the cluster are those that were kept. *)
Lemma left_is_kept db db' all kept r : passed db db' all kept → rw_clusterId r = clusterId → r ∈ iv_rows db' ↔ r ∈ kept.
Proof.
  intros (Hwf & Hdb & Hin & _) Hc. rewrite Hdb. unfold remaining. rewrite elem_of_js_filter, (bool_decide_eq_true_2 (rw_clusterId r = clusterId)) by done.
  cbn. rewrite includes_spec, list_elem_of_fmap. split.
  - intros [Hall (k & Hid & Hk)]. assert (r = k) as ->; [|done]. eapply same_id; [exact Hwf|done| |done]. apply Hin. by left.
  - intros Hk. split; [apply Hin; by left|eauto].
Qed.

Lemma remaining_sublist kept rows : remaining clusterId kept rows `sublist_of` rows.
Proof. apply js_filter_sublist. Qed.

(** C25: after a pass the cluster's rows are exactly the instances that were read, one row each; an instance that was
    there before keeps its id, and with it its samples; rows of other clusters stay as they are, and no two rows have
    one key or one id. Instances that differ in project or name are always stored, however many there are. *)
Theorem inventory_is_snapshot db : rows_wf (iv_rows db) → read_once →
  ∃ db', apply db = Ok (db', length (s_instances snap)) ∧ rows_wf (iv_rows db')
  ∧ (∀ i, i ∈ s_instances snap ↔ ∃ r, r ∈ iv_rows db' ∧ rw_clusterId r = clusterId ∧ rw_snap r = i)
  ∧ (∀ r r', r ∈ iv_rows db → r' ∈ iv_rows db' → key_of r = key_of r' → rw_id r = rw_id r')
  ∧ js_filter (λ x, negb (bool_decide (rw_clusterId x = clusterId))) (iv_rows db') = js_filter (λ x, negb (bool_decide (rw_clusterId x = clusterId))) (iv_rows db).
Proof.
  intros Hwf Hnd. destruct (apply_passed db Hwf Hnd) as (db' & all & kept & Ha & Hp). exists db'. pose proof Hp as (Hwfa & Hdb & Hin & Hf & Ho & _).
  split_and!; [done| | | |].
  - rewrite Hdb. destruct Hwfa as [H1 H2]. split; (eapply sublist_NoDup; [|apply sublist_of_fmap, remaining_sublist]; done).
  - intros i. split.
    + intros [j Hj]%list_elem_of_lookup. destruct (Forall2_lookup_l _ _ _ _ _ Hf Hj) as (r & Hr & Hs & _). exists r.
      assert (rw_clusterId r = clusterId) as Hc by by rewrite Hs. split_and!; [|done|by rewrite Hs].
      apply (left_is_kept db db' all kept r Hp Hc). by eapply list_elem_of_lookup_2.
    + intros (r & Hr & Hc & <-). apply (left_is_kept _ _ _ _ _ Hp Hc) in Hr. destruct (kept_of _ _ _ _ _ Hp Hr) as (i & Hi & Hs & _). by rewrite Hs.
  - intros r r' Hr Hr' He. rewrite Hdb in Hr'. apply elem_of_js_filter in Hr' as [Hr' _]. apply Hin in Hr' as [Hk|[Hk _]].
    + destruct (kept_of _ _ _ _ _ Hp Hk) as (i & _ & _ & Hid). by apply Hid.
    + by rewrite (same_key _ r r' Hwf Hr Hk He).
  - rewrite Hdb, <-Ho. unfold remaining. rewrite js_filter_filter. apply js_filter_ext. intros x _. by destruct (negb _), (includes _ _).
Qed.

(** The rate of a counter is that since the row before, never negative; there is none for what is new or was restarted. *)
Theorem rates_since_last db db' n r' : rows_wf (iv_rows db) → read_once → apply db = Ok (db', n) →
  r' ∈ iv_rows db' → rw_clusterId r' = clusterId →
  match prev_row (prev_of db clusterId) (rw_snap r') with
  | None => rw_cpuCores r' = None ∧ rw_netRxBps r' = None ∧ rw_netTxBps r' = None
  | Some r => rw_cpuCores r' = rate (is_cpuNs (rw_snap r')) (is_cpuNs (rw_snap r)) (now - rw_seenAt r) 1000000000
      ∧ rw_netRxBps r' = rate (is_netRx (rw_snap r')) (is_netRx (rw_snap r)) (now - rw_seenAt r) 1
      ∧ rw_netTxBps r' = rate (is_netTx (rw_snap r')) (is_netTx (rw_snap r)) (now - rw_seenAt r) 1
  end.
Proof.
  intros Hwf Hnd Ha Hr Hc. destruct (apply_passed db Hwf Hnd) as (db1 & all & kept & Ha' & Hp). rewrite Ha in Ha'. simplify_eq.
  apply (left_is_kept _ _ _ _ _ Hp Hc) in Hr. destruct (kept_of _ _ _ _ _ Hp Hr) as (i & _ & -> & _).
  cbn. destruct (prev_row _ _) as [r|]; [done|].
  split_and!; [by destruct (is_cpuNs i)|by destruct (is_netRx i)|by destruct (is_netTx i)].
Qed.
Lemma rate_pos a b ms scale q : 0 < scale → rate a b ms scale = Some q → (0 <= q)%Qc.
Proof.
  unfold rate. intros Hs. destruct a as [n|], b as [p|]; [|done..]. destruct (_ || _) eqn:E; [done|]. intros [= <-].
  apply orb_false_iff in E as [H1%Z.leb_gt H2%Z.ltb_ge]. unfold quot, Qcle. cbn [this Q2Qc]. rewrite !Qred_correct.
  unfold Qle. cbn [Qnum Qden]. lia.
Qed.

(** No sample is older than the retention, and every running instance and every member has one of now. *)
Theorem samples_kept db db' n : rows_wf (iv_rows db) → read_once → 0 ≤ retentionMs → apply db = Ok (db', n) →
  (∀ s, s ∈ iv_samples db' → now - retentionMs ≤ sm_at s)
  ∧ (∀ r, r ∈ iv_rows db' → rw_clusterId r = clusterId → is_status (rw_snap r) = "Running" → instance_sample clusterId now r ∈ iv_samples db')
  ∧ ∀ m, m ∈ s_members snap → member_sample clusterId now m ∈ iv_samples db'.
Proof.
  intros Hwf Hnd Hret Ha. destruct (apply_passed db Hwf Hnd) as (db1 & all & kept & Ha' & Hp). rewrite Ha in Ha'. simplify_eq.
  pose proof Hp as (_ & _ & _ & _ & _ & Hs). rewrite Hs. split_and!.
  - intros s [_ Hb%negb_true_iff%Z.ltb_ge]%elem_of_js_filter. lia.
  - intros r Hr Hc Hrun. apply (left_is_kept _ _ _ _ _ Hp Hc) in Hr. apply elem_of_js_filter. split; [|cbn; apply negb_true_iff, Z.ltb_ge; lia].
    apply elem_of_app. right. apply elem_of_app. left. apply list_elem_of_fmap. exists r. split; [done|]. apply elem_of_js_filter.
    by rewrite bool_decide_eq_true_2.
  - intros m Hm. apply elem_of_js_filter. split; [|cbn; apply negb_true_iff, Z.ltb_ge; lia]. apply elem_of_app. right. apply elem_of_app. right.
    apply list_elem_of_fmap. eauto.
Qed.
End pass.

(** ** Visits *)

Lemma on_row_in id f l c : c ∈ on_row id f l → ∃ c', c' ∈ l ∧ c = if bool_decide (cl_id c' = id) then f c' else c'.
Proof. unfold on_row. intros (c' & -> & H)%list_elem_of_fmap. eauto. Qed.
Lemma visit_clusters new_id ret db c collected now at_ after x : x ∈ iv_clusters (visit new_id ret db c collected now at_ after) → cl_id x = cl_id c →
  is_Some (cl_inventoryAt x) ∧ (now ≤ at_ → ∀ t, cl_inventoryAt x = Some t → now ≤ t).
Proof.
  intros Hx Hid. assert (∀ l t m, x ∈ on_row (cl_id c) (inventoried t m) l → cl_inventoryAt x = Some t) as Hrow.
  { intros l t m (c' & _ & Hc')%on_row_in. case_bool_decide; subst x; done. }
  assert (cl_inventoryAt x = Some now ∨ cl_inventoryAt x = Some at_) as Hor; [|destruct Hor as [-> | ->]; (split; [eauto|intros ? ? [= <-]; lia])].
  unfold visit in Hx. destruct collected as [snap|m]; [|right; exact (Hrow _ _ _ Hx)].
  destruct (applySnapshot _ _ _ _ _ _ _) as [[db' n]|e] eqn:Ha; [|right; exact (Hrow _ _ _ Hx)].
  destruct after as [m|]; [right; exact (Hrow _ _ _ Hx)|left]. unfold applySnapshot in Ha.
  destruct (insert_chunks _ _ _) as [[all kept]|]; [|done]. cbn in Ha. unfold mbind, result_bind in Ha.
  do 3 (case_match; [|discriminate Ha]; cbn in Ha). simplify_eq. exact (Hrow _ _ _ Hx).
Qed.
(** Whatever a visit comes to, its cluster waits for the interval: until then it is not due. *)
Theorem visited_waits new_id ret db c collected now at_ after interval later x :
  x ∈ iv_clusters (visit new_id ret db c collected now at_ after) → cl_id x = cl_id c → now ≤ at_ → later - interval ≤ now → is_due (later - interval) x = false.
Proof.
  intros Hx Hid Hle Hl. destruct (visit_clusters _ _ _ _ _ _ _ _ _ Hx Hid) as [[t Ht] Hn]. specialize (Hn Hle t Ht).
  unfold is_due. rewrite Ht. apply andb_false_iff. right. apply Z.ltb_ge. lia.
Qed.
(** A cluster that could not be read keeps all it was last found to hold. *)
Lemma failed_keeps new_id ret db c m now at_ after : let db' := visit new_id ret db c (inr m) now at_ after in
  iv_rows db' = iv_rows db ∧ iv_members db' = iv_members db ∧ iv_pools db' = iv_pools db ∧ iv_networks db' = iv_networks db ∧ iv_samples db' = iv_samples db.
Proof. done. Qed.

(** ** Witness *)

Definition demo_instance (name : string) (cpu : Z) : InstanceSnapshot :=
  {| is_project := "default"; is_name := name; is_type := "container"; is_status := "Running"; is_location := "n1";
     is_description := ""; is_architecture := ""; is_createdAt := ""; is_imageOs := ""; is_imageRelease := ""; is_limitsCpu := ""; is_limitsMemory := "";
     is_cpuNs := Some cpu; is_memoryUsed := None; is_memoryTotal := None; is_diskUsed := None; is_netRx := None; is_netTx := None;
     is_addresses := []; is_hints := hintsOf ∅; is_stateful := false; is_snapshots := 0 |}.
Definition demo_row (cluster name id : string) (cpu : Z) : Row :=
  {| rw_id := id; rw_clusterId := cluster; rw_snap := demo_instance name cpu; rw_cpuCores := None; rw_netRxBps := None; rw_netTxBps := None;
     rw_search := ""; rw_seenAt := 0 |}.
Definition demo_inventory : Inventory :=
  {| iv_rows := [demo_row "c1" "web" "r1" 0; demo_row "c1" "gone" "r2" 0; demo_row "c2" "web" "r3" 0]; iv_members := []; iv_pools := []; iv_networks := [];
     iv_samples := []; iv_clusters := [] |}.
Definition demo_snapshot : Snapshot :=
  {| s_clustered := false; s_members := []; s_instances := [demo_instance "new" 7; demo_instance "web" 5000000000]; s_pools := []; s_networks := [] |}.
Definition demo_new_id (rows : list Row) : string := fresh (rw_id <$> rows).
Lemma demo_new_id_fresh rows : demo_new_id rows ∉ rw_id <$> rows.
Proof. unfold demo_new_id. apply infinite_is_fresh. Qed.

Lemma inventory_is_snapshot_witness : (rows_wf (iv_rows demo_inventory) ∧ read_once demo_snapshot)
  ∧ ∃ db', applySnapshot demo_new_id "c1" "cl" demo_snapshot 10000 1000 demo_inventory = Ok (db', 2%nat) ∧ rows_wf (iv_rows db')
  ∧ (∀ i, i ∈ s_instances demo_snapshot ↔ ∃ r, r ∈ iv_rows db' ∧ rw_clusterId r = "c1" ∧ rw_snap r = i)
  ∧ (∀ r r', r ∈ iv_rows demo_inventory → r' ∈ iv_rows db' → key_of r = key_of r' → rw_id r = rw_id r')
  ∧ js_filter (λ x, negb (bool_decide (rw_clusterId x = "c1"))) (iv_rows db') = [demo_row "c2" "web" "r3" 0].
Proof.
  assert (rows_wf (iv_rows demo_inventory)) as H1 by (split; apply (bool_decide_eq_true_1 (NoDup _)); vm_compute; reflexivity).
  assert (read_once demo_snapshot) as H2 by (split_and!; apply (bool_decide_eq_true_1 (NoDup _)); vm_compute; reflexivity).
  split; [by split|]. exact (inventory_is_snapshot demo_new_id demo_new_id_fresh "c1" "cl" demo_snapshot 10000 1000 demo_inventory H1 H2).
Defined.
Lemma demo_rates : match applySnapshot demo_new_id "c1" "cl" demo_snapshot 10000 1000 demo_inventory with
  | Ok (db, _) => (λ r, (is_name (rw_snap r), this <$> rw_cpuCores r)) <$> iv_rows db = [("web", Some (1#2)%Q); ("web", None); ("new", None)]
  | Throw _ => False end.
Proof. vm_compute. reflexivity. Qed.
