(* ===== verification/FleetRoutes.v ===== *)
(** * FleetRoutes: searching and reading the inventory

    Models [api/fleet.ts] over the tables that [Inventory] writes: the list of
    instances a caller may see, its search and its pages, the summary, the
    metrics, and the requests on the lease of an instance. A condition of SQL is
    a test on the joined rows; [LIKE] is matched as Postgres does, by bytes. The
    filter of what the caller sees is [Acl.visibility]. *)

From Stdlib Require Import QArith.Qcanon.
From S2P Require AclEdit AclEditTheory AclPaths Leases TenantCloud.
From S2P Require Import Prelude JsString Effects Fleet Inventory Acl AclTheory.
Open Scope Z_scope.

(** ** Searching *)

(** Backslash, percent and underscore match themselves. *)
Definition is_special (c : Ascii.ascii) : bool := char_is c "\" || char_is c "%" || char_is c "_".
Fixpoint likeEscape (s : string) : string :=
  match s with
  | EmptyString => EmptyString
  | String c s => if is_special c then String "\"%char (String c (likeEscape s)) else String c (likeEscape s)
  end.
(** [s LIKE pat ESCAPE '\']. *)
Fixpoint like (pat s : string) : bool :=
  match pat with
  | EmptyString => negb (truthy_str s)
  | String c pat' =>
      if char_is c "%" then (fix any (s : string) : bool := like pat' s || match s with EmptyString => false | String _ s => any s end) s
      else if char_is c "\" then
        match pat', s with
        | String c' pat'', String d s => Ascii.eqb c' d && like pat'' s
        | _, _ => false
        end
      else match s with
           | String d s => (char_is c "_" || Ascii.eqb c d) && like pat' s
           | EmptyString => false
           end
  end.

(** [.split(/\s+/).filter(Boolean)] *)
Fixpoint split_spaces (s : string) : list string :=
  match s with
  | EmptyString => [EmptyString]
  | String c s =>
      if is_js_space c then EmptyString :: split_spaces s
      else match split_spaces s with
           | w :: l => String c w :: l
           | [] => [String c EmptyString]
           end
  end.
Definition terms (q : string) : list string := js_filter truthy_str (split_spaces (toLowerCase q)).

(** ** The joined rows *)

Record Fleet := {
  fl_inventory : Inventory;
  fl_placements : list TenantCloud.PlacementRow;
  fl_policies : list Leases.Tenant;
  fl_leases : Leases.table;
}.
Record Item := { it_row : Row; it_cluster : ClusterRow; it_tenantId : option string }.
Definition cluster_of (db : Fleet) (id : string) : option ClusterRow := js_find (λ c, bool_decide (cl_id c = id)) (iv_clusters (fl_inventory db)).
(** A left join: a row for every placement of the project, or one without a tenant. *)
Definition tenants_of (db : Fleet) (r : Row) : list (option string) :=
  match js_filter (λ pl, bool_decide (TenantCloud.pm_clusterId pl = rw_clusterId r) && bool_decide (TenantCloud.pm_project pl = is_project (rw_snap r))) (fl_placements db) with
  | [] => [None]
  | l => (λ pl, Some (TenantCloud.pm_tenantId pl)) <$> l
  end.
Definition joined (db : Fleet) : list Item :=
  iv_rows (fl_inventory db) ≫= λ r,
    match cluster_of db (rw_clusterId r) with
    | Some c => (λ t, {| it_row := r; it_cluster := c; it_tenantId := t |}) <$> tenants_of db r
    | None => []
    end.

Record Query := {
  qu_q : option string; qu_cluster : option string; qu_tenant : option string; qu_status : option string; qu_type : option string;
  qu_limit : option nat; qu_offset : option nat;
}.
(** [if (query.x) where.push(...)] *)
Definition given (o : option string) (test : string → bool) : bool :=
  match o with Some x => negb (truthy_str x) || test x | None => true end.
Definition valid_uuid (o : option string) : result unit :=
  AclEdit.orThrow (given o AclEdit.isUuid) (AclEdit.notFound "Not found").
Definition asked (q : Query) (x : Item) : bool :=
  given (qu_cluster q) (λ id, bool_decide (rw_clusterId (it_row x) = toLowerCase id))
  && given (qu_tenant q) (λ id, bool_decide (it_tenantId x = Some (toLowerCase id)))
  && given (qu_status q) (λ st, bool_decide (is_status (rw_snap (it_row x)) = st))
  && given (qu_type q) (λ ty, bool_decide (is_type (rw_snap (it_row x)) = ty))
  && every (λ t, like ("%" +++ likeEscape t +++ "%") (rw_search (it_row x))) (terms (default EmptyString (qu_q q))).

Section routes.
Context `{!Locale} (s : Snapshot) (p : PrincipalId).

Definition item_order (a b : Item) : comparison :=
  cmp_then (locale_compare (cl_name (it_cluster a)) (cl_name (it_cluster b)))
    (cmp_then (locale_compare (is_project (rw_snap (it_row a))) (is_project (rw_snap (it_row b))))
       (locale_compare (is_name (rw_snap (it_row a))) (is_name (rw_snap (it_row b))))).

(** What the caller may see; [None] when that is nothing. *)
Definition seen_by (privilege : string) : option (Item → bool) :=
  let sc := instanceScope s p privilege in
  match sc_projects sc, sc_include sc with
  | [], [] => None
  | _, _ => Some (λ x, visibility sc (cl_name (it_cluster x)) (is_project (rw_snap (it_row x))) (is_name (rw_snap (it_row x))))
  end.
Definition matching (db : Fleet) (q : Query) (seen : Item → bool) : list Item := js_sort item_order (js_filter (λ x, seen x && asked q x) (joined db)).
(** A page, and how many there are in all. *)
Definition listInstances (db : Fleet) (q : Query) : result (list Item * nat) :=
  match seen_by "instance.view" with
  | None => Ok ([], 0%nat)
  | Some seen =>
      valid_uuid (qu_cluster q);;
      valid_uuid (qu_tenant q);;
      let l := matching db q seen in
      Ok (take (default 100%nat (qu_limit q)) (drop (default 0%nat (qu_offset q)) l), length l)
  end.

Definition visibleInstance (db : Fleet) (id : string) : result Item :=
  match seen_by "instance.view" with
  | None => Throw (AclEdit.notFound "Instance not found")
  | Some seen =>
      AclEdit.orThrow (AclEdit.isUuid id) (AclEdit.notFound "Instance not found");;
      match js_find (λ x, bool_decide (rw_id (it_row x) = toLowerCase id) && seen x) (joined db) with
      | Some x => Ok x
      | None => Throw (AclEdit.notFound "Instance not found")
      end
  end.

(** ** Leases *)

Definition lease_key (x : Item) : Leases.InstanceKey := (rw_clusterId (it_row x), is_project (rw_snap (it_row x)), is_name (rw_snap (it_row x))).
Definition no_leases : ApiError := {| status := 404; code := "not_found"; message := "This instance's tenant has no leases" |}.
Definition policy_for (db : Fleet) (x : Item) : option Leases.LeasePolicy := it_tenantId x ≫= Leases.policy_of (fl_policies db).
Definition with_leases (db : Fleet) (t : Leases.table) : Fleet :=
  {| fl_inventory := fl_inventory db; fl_placements := fl_placements db; fl_policies := fl_policies db; fl_leases := t |}.

Definition extendInstanceLease (db : Fleet) (id : string) (now : Z) : result (Fleet * option Leases.LeaseView) :=
  x ← visibleInstance db id;
  let '(c, pr, n) := lease_key x in
  AclEdit.orThrow (match instancePath s c pr n with Some path => can s p "instance.configure" path None | None => false end) AclEdit.forbidden;;
  match policy_for db x with
  | None => Throw no_leases
  | Some po => '(t, l) ← Leases.extendLease (fl_leases db) (lease_key x) po now; Ok (with_leases db t, Leases.leaseView (Some l) (Some po))
  end.
(** [time]: the date of a text, or none ([NaN]). *)
Definition setInstanceLease (time : string → option Z) (db : Fleet) (id : string) (expiresAt : option string) (now : Z) : result (Fleet * option Leases.LeaseView) :=
  x ← visibleInstance db id;
  AclEdit.orThrow (can s p "tenant.quota" "/" None) AclEdit.forbidden;;
  match policy_for db x, it_tenantId x with
  | Some po, Some t =>
      e ← match expiresAt with
          | None => Ok None
          | Some text => match time text with Some e => Ok (Some e) | None => throw 400 "invalid_request" "expiresAt is not a date" end
          end;
      let '(tbl, l) := Leases.setLease (fl_leases db) (lease_key x) t e now in
      Ok (with_leases db tbl, Leases.leaseView (Some l) (Some po))
  | _, _ => Throw no_leases
  end.

(** ** Clusters, metrics and the summary *)

Definition viewCluster (db : Fleet) (id : string) : result ClusterRow :=
  AclEdit.orThrow (AclEdit.isUuid id) (AclEdit.notFound "Cluster not found");;
  match cluster_of db (toLowerCase id) with
  | None => Throw (AclEdit.notFound "Cluster not found")
  | Some c =>
      AclEdit.orThrow (sees s p ("/clusters/" +++ cl_name c)) (AclEdit.notFound "Cluster not found");;
      AclEdit.orThrow (can s p "cluster.view" ("/clusters/" +++ cl_name c) None) AclEdit.forbidden;;
      Ok c
  end.
Definition HOUR : Z := 3600000.
Definition since (hours : option Z) (now : Z) : Z := now - default 24 hours * HOUR.
Definition by_time (a b : Sample) : comparison := sm_at a ?= sm_at b.
Definition is_sample_of (test : SampleOf → bool) (from : Z) (x : Sample) : bool := test (sm_of x) && (from <=? sm_at x).
Definition instanceMetrics (db : Fleet) (id : string) (hours : option Z) (now : Z) : result (list Sample) :=
  x ← visibleInstance db id;
  Ok (js_sort by_time (js_filter (is_sample_of (λ o, match o with OfInstance i => bool_decide (i = rw_id (it_row x)) | OfMember _ => false end) (since hours now))
        (iv_samples (fl_inventory db)))).
(** [(members[ref] ??= []).push(...)] *)
Fixpoint push_sample (ref : string) (x : Sample) (l : list (string * list Sample)) : list (string * list Sample) :=
  match l with
  | [] => [(ref, [x])]
  | (r, xs) :: l => if bool_decide (r = ref) then (r, xs ++ [x]) :: l else (r, xs) :: push_sample ref x l
  end.
Definition group_members (l : list Sample) : list (string * list Sample) :=
  foldl (λ out x, match sm_of x with OfMember ref => push_sample ref x out | OfInstance _ => out end) [] l.
Definition clusterMetrics (db : Fleet) (id : string) (hours : option Z) (now : Z) : result (list (string * list Sample)) :=
  c ← viewCluster db id;
  Ok (group_members (js_sort by_time
    (js_filter (λ x, bool_decide (sm_clusterId x = cl_id c) && is_sample_of (λ o, match o with OfMember _ => true | OfInstance _ => false end) (since hours now) x)
       (iv_samples (fl_inventory db))))).

(** Instances without their tenants: what is counted. *)
Definition counted (db : Fleet) (seen : Item → bool) : list Row :=
  js_filter (λ r, match cluster_of db (rw_clusterId r) with Some c => seen {| it_row := r; it_cluster := c; it_tenantId := None |} | None => false end)
    (iv_rows (fl_inventory db)).
Fixpoint count_in (st : string) (l : list (string * nat)) : list (string * nat) :=
  match l with
  | [] => [(st, 1%nat)]
  | (x, n) :: l => if bool_decide (x = st) then (x, S n) :: l else (x, n) :: count_in st l
  end.
Definition byStatus (l : list Row) : list (string * nat) := foldl (λ out r, count_in (is_status (rw_snap r)) out) [] l.
Definition summaryInstances (db : Fleet) : nat * list (string * nat) :=
  match seen_by "instance.view" with
  | None => (0%nat, [])
  | Some seen => let counts := byStatus (counted db seen) in (foldl (λ n x, n + x.2)%nat 0%nat counts, counts)
  end.
Record Capacity := {
  ca_id : string; ca_name : string; ca_instances : nat; ca_running : nat; ca_cpuThreads : Z; ca_memoryTotal : Z; ca_memoryUsed : Z;
  ca_storageTotal : Z; ca_storageUsed : Z;
}.
Definition total (l : list Z) : Z := foldl Z.add 0 l.
Definition capacity (db : Fleet) (c : ClusterRow) : Capacity :=
  let iv := fl_inventory db in
  let rows := js_filter (λ r, bool_decide (rw_clusterId r = cl_id c)) (iv_rows iv) in
  let members := snd <$> js_filter (λ m, bool_decide (m.1.1 = cl_id c)) (iv_members iv) in
  let pools := snd <$> js_filter (λ x, bool_decide (x.1 = cl_id c)) (iv_pools iv) in
  {| ca_id := cl_id c; ca_name := cl_name c; ca_instances := length rows;
     ca_running := length (js_filter (λ r, bool_decide (is_status (rw_snap r) = "Running")) rows);
     ca_cpuThreads := total (ms_cpuThreads <$> members); ca_memoryTotal := total (ms_memoryTotal <$> members); ca_memoryUsed := total (ms_memoryUsed <$> members);
     ca_storageTotal := total ((λ x, default 0 (ps_spaceTotal x)) <$> pools); ca_storageUsed := total ((λ x, default 0 (ps_spaceUsed x)) <$> pools) |}.
Definition summaryClusters (db : Fleet) : option (list Capacity) :=
  if can s p "cluster.view" "/" None
  then Some (capacity db <$> js_sort (λ a b, locale_compare (cl_name a) (cl_name b)) (iv_clusters (fl_inventory db)))
  else None.
End routes.

(** ** A term is found where it is written *)

Lemma like_percent pat s : like (String "%" pat) s = like pat s || match s with EmptyString => false | String _ s => like (String "%" pat) s end.
Proof. by destruct s. Qed.
Lemma like_all s : like "%" s = true.
Proof. induction s as [|c s IH]; [done|]. rewrite like_percent, IH. by rewrite orb_true_r. Qed.
Lemma starts_with_cons c d t s : starts_with (String c t) (String d s) = Ascii.eqb c d && starts_with t s.
Proof. unfold starts_with. cbn. destruct (Ascii.ascii_dec c d) as [->|Hne]; [by rewrite Ascii.eqb_refl|]. by apply Ascii.eqb_neq in Hne as ->. Qed.
Lemma like_escaped t s : like (likeEscape t +++ "%") s = starts_with t s.
Proof.
  revert s. induction t as [|c t IH]; intros s; [rewrite like_all; by destruct s|]. cbn [likeEscape]. destruct (is_special c) eqn:Hc.
  - change (like (String "\" (String c (likeEscape t +++ "%"))) s = starts_with (String c t) s). destruct s as [|d s]; [done|].
    change (Ascii.eqb c d && like (likeEscape t +++ "%") s = starts_with (String c t) (String d s)). by rewrite IH, starts_with_cons.
  - apply orb_false_iff in Hc as [[Hb Hp]%orb_false_iff Hu]. change (like (String c (likeEscape t +++ "%")) s = starts_with (String c t) s).
    cbn [like]. rewrite Hb, Hp, Hu. destruct s as [|d s]; [done|]. cbn [orb]. by rewrite IH, starts_with_cons.
Qed.
(** Whatever a term is made of, also wildcards: it is looked for as it is. *)
Theorem term_is_literal t s : like ("%" +++ likeEscape t +++ "%") s = str_contains t s.
Proof.
  change (like (String "%" (likeEscape t +++ "%")) s = str_contains t s). induction s as [|c s IH]; rewrite like_percent, like_escaped; [done|].
  cbn [str_contains]. by rewrite IH.
Qed.

(** ** The list *)

Section listing.
Context `{!Locale}.

Lemma item_comparator : Comparator item_order.
Proof. unfold item_order. apply comparator_then; [apply (comparator_on (λ x, cl_name (it_cluster x)))|apply comparator_then; [apply (comparator_on (λ x, is_project (rw_snap (it_row x))))|apply (comparator_on (λ x, is_name (rw_snap (it_row x))))]]; apply locale_comparator. Qed.
End listing.

(** What is asked for, with the terms taken as they are. *)
Definition found (q : Query) (x : Item) : bool :=
  given (qu_cluster q) (λ id, bool_decide (rw_clusterId (it_row x) = toLowerCase id))
  && given (qu_tenant q) (λ id, bool_decide (it_tenantId x = Some (toLowerCase id)))
  && given (qu_status q) (λ st, bool_decide (is_status (rw_snap (it_row x)) = st))
  && given (qu_type q) (λ ty, bool_decide (is_type (rw_snap (it_row x)) = ty))
  && every (λ t, str_contains t (rw_search (it_row x))) (terms (default EmptyString (qu_q q))).
Lemma asked_found q x : asked q x = found q x.
Proof.
  unfold asked, found. f_equal. apply eq_true_iff_eq. rewrite !every_spec. apply forall_proper. intros t. by rewrite term_is_literal.
Qed.
Definition page (q : Query) (offset limit : nat) : Query :=
  {| qu_q := qu_q q; qu_cluster := qu_cluster q; qu_tenant := qu_tenant q; qu_status := qu_status q; qu_type := qu_type q;
     qu_limit := Some limit; qu_offset := Some offset |}.
Definition path_of (x : Item) : string := instance_path (cl_name (it_cluster x)) (is_project (rw_snap (it_row x))) (is_name (rw_snap (it_row x))).
(** The instance has a name a path can have, its project is known, and what is set on the project counts below it. *)
Definition decidable_item (t : Z) (r : Rows) (p : PrincipalId) (x : Item) : Prop :=
  let c := cl_name (it_cluster x) in let pr := is_project (rw_snap (it_row x)) in
  AclPaths.NAME c = true ∧ AclPaths.NAME pr = true ∧ AclPaths.NAME (is_name (rw_snap (it_row x))) = true
  ∧ project_path c pr ∈ projects (load t r) ∧ project_entries_propagate (load t r) p c pr.

Lemma hidden_sees_none s p privilege : seen_by s p privilege = None → ∀ c pr i, visibility (instanceScope s p privilege) c pr i = false.
Proof.
  unfold seen_by, visibility. destruct (instanceScope s p privilege) as [ps ex inc]. cbn. destruct ps, inc; [|done..]. intros _ c pr i.
  assert (∀ x : string, includes [] x = false) as H by (intros x; apply includes_false, not_elem_of_nil). by rewrite !H.
Qed.
Lemma seen_by_Some s p privilege f x : seen_by s p privilege = Some f →
  f x = visibility (instanceScope s p privilege) (cl_name (it_cluster x)) (is_project (rw_snap (it_row x))) (is_name (rw_snap (it_row x))).
Proof. unfold seen_by. generalize (instanceScope s p privilege). intros [ps ex inc]. cbn. destruct ps, inc; [done|by intros [= <-]..]. Qed.

Lemma pages_take {A} (l : list A) n m : mjoin ((λ k, take n (drop (k * n) l)) <$> seq 0 m) = take (m * n) l.
Proof.
  induction m as [|m IH]; [done|]. rewrite seq_S, fmap_app, join_app, IH. cbn [fmap list_fmap mjoin list_join]. rewrite app_nil_r.
  rewrite Nat.add_0_l, take_take_drop. f_equal. lia.
Qed.
Lemma pages_all {A} (l : list A) n m : (length l ≤ m * n)%nat → mjoin ((λ k, take n (drop (k * n) l)) <$> seq 0 m) = l.
Proof. intros Hl. by rewrite pages_take, take_ge. Qed.

(** C28: as long as the entries on the projects of the instances propagate ([decidable_item]; otherwise the list may show
    more, [AclTheory.instanceScope_wider_than_can]), the list of instances has exactly those that the caller is decided
    to see and that match what is asked, its terms taken as they are written: the pages follow each other in one order,
    leave nothing out and repeat nothing, and the total counts them. *)
Theorem fleet_lists_exactly `{!Locale} t r p db q : rows_wf r → (∀ x, x ∈ joined db → decidable_item t r p x) →
  valid_uuid (qu_cluster q) = Ok tt → valid_uuid (qu_tenant q) = Ok tt →
  ∃ l, l ≡ₚ js_filter (λ x, can (load t r) p "instance.view" (path_of x) None && found q x) (joined db)
  ∧ StronglySorted (λ a b, item_order a b ≠ Gt) l
  ∧ (∀ k n, listInstances (load t r) p db (page q (k * n) n) = Ok (take n (drop (k * n) l), length l))
  ∧ ∀ n m, (length l ≤ m * n)%nat → mjoin ((λ k, take n (drop (k * n) l)) <$> seq 0 m) = l.
Proof.
  intros Hr Hx Hc Ht. assert (∀ x, x ∈ joined db → visibility (instanceScope (load t r) p "instance.view") (cl_name (it_cluster x)) (is_project (rw_snap (it_row x))) (is_name (rw_snap (it_row x)))
    = can (load t r) p "instance.view" (path_of x) None) as Hv.
  { intros x Hin. destruct (Hx x Hin) as (H1 & H2 & H3 & H4 & H5). by apply instanceScope_exact. }
  unfold listInstances. cbn [page qu_cluster qu_tenant qu_limit qu_offset]. destruct (seen_by (load t r) p "instance.view") as [f|] eqn:Hs.
  - exists (matching db q f). unfold matching. split_and!.
    + rewrite js_sort_perm. erewrite js_filter_ext; [done|]. intros x Hin. cbn. by rewrite (seen_by_Some _ _ _ _ x Hs), Hv, asked_found.
    + apply (@js_sort_sorted _ item_order item_comparator).
    + intros k n. rewrite Hc, Ht. done.
    + intros n m Hl. by apply pages_all.
  - exists []. split_and!; [|constructor|intros k n; by rewrite drop_nil, take_nil|].
    + rewrite (proj2 (js_filter_nil _ _)); [done|]. intros x Hin. by rewrite <-Hv, (hidden_sees_none _ _ _ Hs).
    + intros n m Hl. by apply pages_all.
Qed.

(** ** One instance *)

Lemma visible_Ok s p db id x : visibleInstance s p db id = Ok x → x ∈ joined db
  ∧ visibility (instanceScope s p "instance.view") (cl_name (it_cluster x)) (is_project (rw_snap (it_row x))) (is_name (rw_snap (it_row x))) = true.
Proof.
  unfold visibleInstance. destruct (seen_by s p "instance.view") as [f|] eqn:Hs; [|done]. intros [_ H]%AclEditTheory.orThrow_bind.
  destruct (js_find _ _) as [y|] eqn:Hf; [|done]. simplify_eq. apply js_find_some in Hf as [Hin [_ Hv]%andb_true_iff]. split; [done|].
  by rewrite <-(seen_by_Some _ _ _ _ x Hs).
Qed.
(** A lease is extended by someone who sees the instance and may configure it, within the tenant's policy; its end is set
    outright only by the platform. *)
Theorem lease_changed_by s p db id now db' v : extendInstanceLease s p db id now = Ok (db', v) →
  ∃ x path po old l, x ∈ joined db ∧ instancePath s (rw_clusterId (it_row x)) (is_project (rw_snap (it_row x))) (is_name (rw_snap (it_row x))) = Some path
  ∧ can s p "instance.configure" path None = true ∧ policy_for db x = Some po ∧ fl_leases db !! lease_key x = Some old
  ∧ Leases.extensions old < Leases.maxExtensions po ∧ Leases.extensions l = Leases.extensions old + 1 ∧ fl_leases db' = <[lease_key x := l]> (fl_leases db).
Proof.
  unfold extendInstanceLease. intros H. apply result_bind_Ok in H as (x & [Hx _]%visible_Ok & H). cbn [lease_key] in H.
  apply AclEditTheory.orThrow_bind in H as [Hcan H]. destruct (instancePath _ _ _ _) as [path|] eqn:Hp; [|done].
  destruct (policy_for db x) as [po|] eqn:Hpo; [|done]. apply result_bind_Ok in H as ([t l] & Hl & H). simplify_eq.
  unfold Leases.extendLease, Leases.leaseOf in Hl. apply result_bind_Ok in Hl as ([read e] & Hc & Hw). unfold Leases.extend_check in Hc.
  change (rw_clusterId (it_row x), is_project (rw_snap (it_row x)), is_name (rw_snap (it_row x))) with (lease_key x) in *.
  destruct (fl_leases db !! lease_key x) as [old|] eqn:Ho; [|done]. destruct (Leases.expiresAt old) as [e0|]; [|done].
  destruct (Z.leb_spec (Leases.maxExtensions po) (Leases.extensions old)); [done|]. injection Hc as <- <-. unfold Leases.extend_write in Hw. cbn [fst snd] in Hw.
  rewrite Ho, Z.eqb_refl in Hw. simplify_eq. exists x, path, po, old. eexists. split_and!; [done..|lia| |]; cycle 1; [reflexivity|done].
Qed.
Theorem lease_set_by s p time db id e now db' v : setInstanceLease s p time db id e now = Ok (db', v) →
  can s p "tenant.quota" "/" None = true ∧ ∃ x l, x ∈ joined db ∧ is_Some (policy_for db x) ∧ fl_leases db' = <[lease_key x := l]> (fl_leases db).
Proof.
  unfold setInstanceLease. intros H. apply result_bind_Ok in H as (x & [Hx _]%visible_Ok & H). apply AclEditTheory.orThrow_bind in H as [Hcan H].
  split; [done|]. destruct (policy_for db x) as [po|] eqn:Hpo; [|done]. destruct (it_tenantId x) as [t|]; [|done].
  apply result_bind_Ok in H as (o & _ & H). cbn in H. simplify_eq. eexists x, _. split_and!; [done|done|reflexivity].
Qed.

(** ** The summary *)

Lemma status_sum_from (l : list (string * nat)) n : foldl (λ n x, n + x.2)%nat n l = (n + foldl (λ n x, n + x.2) 0 l)%nat.
Proof. revert n. induction l as [|[x k] l IH]; intros n; cbn; [lia|]. rewrite IH, (IH k). lia. Qed.
Lemma count_in_sum st l : foldl (λ n x, n + x.2)%nat 0%nat (count_in st l) = S (foldl (λ n x, n + x.2) 0 l)%nat.
Proof. induction l as [|[x k] l IH]; [done|]. cbn. case_bool_decide; cbn; rewrite status_sum_from, (status_sum_from l k); [done|]. rewrite IH. lia. Qed.
(** The counts by status add up to the instances that are seen. *)
Theorem summary_adds_up `{!Locale} s p db f : seen_by s p "instance.view" = Some f → (summaryInstances s p db).1 = length (counted db f).
Proof.
  intros Hs. unfold summaryInstances. rewrite Hs. cbn [fst]. unfold byStatus. generalize (counted db f). intros l.
  assert (∀ acc, foldl (λ n x, n + x.2) 0 (foldl (λ out r, count_in (is_status (rw_snap r)) out) acc l) = foldl (λ n x, n + x.2) 0 acc + length l)%nat as Hsum.
  { induction l as [|r l IH]; intros acc; cbn; [lia|]. rewrite IH, count_in_sum. lia. }
  by rewrite Hsum.
Qed.

(** ** Witness *)

Definition demo_item (name : string) : Row :=
  {| rw_id := name; rw_clusterId := "c";
     rw_snap := {| is_project := "p1"; is_name := name; is_type := "container"; is_status := "Running"; is_location := "m1";
       is_description := ""; is_architecture := ""; is_createdAt := ""; is_imageOs := ""; is_imageRelease := ""; is_limitsCpu := ""; is_limitsMemory := "";
       is_cpuNs := None; is_memoryUsed := None; is_memoryTotal := None; is_diskUsed := None; is_netRx := None; is_netTx := None;
       is_addresses := []; is_hints := hintsOf ∅; is_stateful := false; is_snapshots := 0 |};
     rw_cpuCores := None; rw_netRxBps := None; rw_netTxBps := None; rw_search := name +++ " p1 100%"; rw_seenAt := 0 |}.
Definition demo_fleet : Fleet :=
  {| fl_inventory := {| iv_rows := [demo_item "other"; demo_item "mine"]; iv_members := []; iv_pools := []; iv_networks := []; iv_samples := [];
       iv_clusters := [{| cl_id := "c"; cl_name := "c1"; cl_disabled := false; cl_inventoryAt := None; cl_inventoryError := "" |}] |};
     fl_placements := []; fl_policies := []; fl_leases := ∅ |}.
Definition demo_query : Query :=
  {| qu_q := Some "P1  0%"; qu_cluster := None; qu_tenant := None; qu_status := None; qu_type := None; qu_limit := None; qu_offset := None |}.
Definition demo_auditor : Rows := demo_rows "auditor" "/clusters/c1/projects/p1" true.
Lemma demo_decidable x : x ∈ joined demo_fleet → decidable_item 0 demo_auditor demo_user x.
Proof.
  intros Hx. assert (cl_name (it_cluster x) = "c1" ∧ is_project (rw_snap (it_row x)) = "p1" ∧ AclPaths.NAME (is_name (rw_snap (it_row x))) = true) as (H1 & H2 & H3).
  { apply elem_of_cons in Hx as [->|Hx]; [done|]. apply elem_of_cons in Hx as [->|Hx]; [done|]. by apply not_elem_of_nil in Hx. }
  unfold decidable_item. rewrite H1, H2. split_and!; [done|done|done|vm_compute; left|].
  intros e He _ _. vm_compute in He. by apply list_elem_of_singleton in He as ->.
Qed.
Lemma fleet_lists_exactly_witness : ∃ l, l ≡ₚ js_filter (λ x, can (load 0 demo_auditor) demo_user "instance.view" (path_of x) None && found demo_query x) (joined demo_fleet)
  ∧ (rw_id ∘ it_row <$> @matching code_unit_locale demo_fleet demo_query (λ _, true)) = ["mine"; "other"]
  ∧ @listInstances code_unit_locale (load 0 demo_auditor) demo_user demo_fleet (page demo_query 1 1) = Ok (take 1 (drop 1 l), length l).
Proof.
  destruct (@fleet_lists_exactly code_unit_locale 0 demo_auditor demo_user demo_fleet demo_query (demo_rows_wf _ _ _) demo_decidable eq_refl eq_refl) as (l & Hp & _ & Hl & _).
  exists l. split; [exact Hp|]. split; [vm_compute; reflexivity|exact (Hl 1%nat 1%nat)].
Defined.
