(* ===== verification/Requests.v ===== *)
(** * Requests: what callers ask to be done with an instance

    Models [api/mobility.ts], [api/replication.ts] and [api/backups.ts]: the
    requests that migrate, replicate, back up and restore instances, the
    policies and the targets of backups. The work itself is done by the jobs
    they queue ([Mobility], [Replication], [Backups], [Restore]). The tables
    are those of [TenantCloud.Cloud] and the five here; what clusters and
    stores answer is an argument. A key in a request may be written in either
    case; the tables have theirs in lower case. *)

From S2P Require Acl AclEdit AclEditTheory Fleet Jobs Quota TenantCloud Preflight Transfer Mobility Services Backups Restore Replication.
From S2P Require Import Prelude JsString Effects.
Import TenantCloud.
Open Scope Z_scope.

(** ** The tables *)

Record InstanceRow := { ir_id : string; ir_clusterId : string; ir_project : string; ir_name : string }.
Record ReplicationRow := {
  rp_policy : Services.Policy; rp_intervalS : Z; rp_enabled : bool; rp_lastRun : option (Z * string); rp_createdBy : string; rp_createdAt : Z;
}.
Record TargetRow := {
  tg_id : string; tg_name : string; tg_endpoint : string; tg_region : string; tg_bucket : string; tg_prefix : string;
  tg_accessKeyId : string; tg_secretKeyEnc : string; tg_enabled : bool;
}.
Record BackupRow := {
  br_id : string; br_tenantId : option string; br_policyId : option string; br_targetId : string; br_objectKey : string;
  br_clusterId : option string; br_project : string; br_instanceName : string; br_state : Services.BackupState;
  br_sizeBytes : option Z; br_createdBy : string; br_createdAt : Z;
}.
Record PolicyRow := {
  py_id : string; py_tenantId : option string; py_clusterId : string; py_project : string; py_instanceName : string; py_targetId : string;
  py_intervalS : Z; py_keep : Z; py_instanceOnly : bool; py_enabled : bool; py_lastRun : option (Z * string); py_createdBy : string; py_createdAt : Z;
}.
Record Tables := {
  tb_cloud : Cloud;
  tb_instances : list InstanceRow;
  tb_replication : list ReplicationRow;
  tb_targets : list TargetRow;
  tb_backups : list BackupRow;
  tb_policies : list PolicyRow;
}.
Definition with_tbl (db : Tables) (tbl : Jobs.table) : Tables :=
  {| tb_cloud := with_jobs (tb_cloud db) tbl; tb_instances := tb_instances db; tb_replication := tb_replication db;
     tb_targets := tb_targets db; tb_backups := tb_backups db; tb_policies := tb_policies db |}.
Definition with_replication (db : Tables) (l : list ReplicationRow) : Tables :=
  {| tb_cloud := tb_cloud db; tb_instances := tb_instances db; tb_replication := l;
     tb_targets := tb_targets db; tb_backups := tb_backups db; tb_policies := tb_policies db |}.
Definition with_targets (db : Tables) (l : list TargetRow) : Tables :=
  {| tb_cloud := tb_cloud db; tb_instances := tb_instances db; tb_replication := tb_replication db;
     tb_targets := l; tb_backups := tb_backups db; tb_policies := tb_policies db |}.
Definition with_backups (db : Tables) (l : list BackupRow) : Tables :=
  {| tb_cloud := tb_cloud db; tb_instances := tb_instances db; tb_replication := tb_replication db;
     tb_targets := tb_targets db; tb_backups := l; tb_policies := tb_policies db |}.
Definition with_policies (db : Tables) (l : list PolicyRow) : Tables :=
  {| tb_cloud := tb_cloud db; tb_instances := tb_instances db; tb_replication := tb_replication db;
     tb_targets := tb_targets db; tb_backups := tb_backups db; tb_policies := l |}.

(** [uuidParam], then the row whose key it is. *)
Definition by_uuid {A} (key : A → string) (id what : string) (l : list A) : result A :=
  AclEdit.orThrow (AclEdit.isUuid id) (AclEdit.notFound what);;
  match js_find (λ x, bool_decide (key x = toLowerCase id)) l with
  | Some x => Ok x
  | None => Throw (AclEdit.notFound what)
  end.
Definition on_id {A} (key : A → string) (id : string) (f : A → A) (l : list A) : list A :=
  (λ x, if bool_decide (key x = id) then f x else x) <$> l.
Definition without {A} (key : A → string) (id : string) (l : list A) : list A := js_filter (λ x, negb (bool_decide (key x = id))) l.

Definition tenant_placement (db : Cloud) (tenantId : option string) (clusterId : string) : option PlacementRow :=
  t ← tenantId; js_find (λ p, bool_decide (pm_tenantId p = t) && bool_decide (pm_clusterId p = clusterId)) (cd_placements db).
Definition cluster_path (c : string) : string := "/clusters/" +++ c.
Definition operators_only (what : string) : ApiError := {| status := 403; code := "forbidden"; message := "Only platform operators choose the " +++ what |}.

Section requests.
Context `{!Locale} (JSON_parse : string → option Json) (s : Acl.Snapshot) (p : Acl.PrincipalId).
Abbreviation can privilege path := (Acl.can s p privilege path None).

(** ** The instance *)

Record Seen := { sn_row : InstanceRow; sn_cluster : ClusterRow; sn_tenantId : option string; sn_path : string }.
Definition visibleInventoryInstance (db : Tables) (id : string) : result Seen :=
  r ← by_uuid ir_id id "Instance not found" (tb_instances db);
  match cluster_by_id (tb_cloud db) (ir_clusterId r) with
  | None => Throw (AclEdit.notFound "Instance not found")
  | Some c =>
      let path := Acl.instance_path (cr_name c) (ir_project r) (ir_name r) in
      AclEdit.orThrow (can "instance.view" path) (AclEdit.notFound "Instance not found");;
      Ok {| sn_row := r; sn_cluster := c;
            sn_tenantId := pm_tenantId <$> js_find (λ p, bool_decide (pm_clusterId p = ir_clusterId r) && bool_decide (pm_project p = ir_project r)) (cd_placements (tb_cloud db));
            sn_path := path |}
  end.
Definition instance_key (clusterId project name : string) : string := clusterId +++ "/" +++ project +++ "/" +++ name.

(** ** Where it may be sent ([resolveTarget]) *)

Record SendBody := { sb_targetClusterId : string; sb_targetProject : option string; sb_pool : option string; sb_transport : option Transfer.TransportChoice }.
Record Where := { wh_cluster : ClusterRow; wh_project : string; wh_pool : option string; wh_transport : Transfer.TransportChoice }.
Definition not_placed : ApiError := {| status := 403; code := "forbidden"; message := "The tenant is not placed on that cluster" |}.
Definition usable_cluster (db : Tables) (id : string) : result ClusterRow :=
  c ← by_uuid cr_id id "Target cluster not found" (cd_clusters (tb_cloud db));
  AclEdit.orThrow (negb (bool_decide (cr_status c = "disabled"))) (AclEdit.bad "invalid_request" "The target cluster is disabled");;
  Ok c.
Definition ready_placement (pl : option PlacementRow) : result PlacementRow :=
  match pl with
  | Some pl => if bool_decide (pm_status pl = "ready") then Ok pl else Throw not_placed
  | None => Throw not_placed
  end.
Definition names_other (asked : option string) (project : string) : bool :=
  match asked with Some x => truthy_str x && negb (bool_decide (x = project)) | None => false end.

Definition resolveTarget (db : Tables) (i : Seen) (b : SendBody) (privilege : string) : result Where :=
  AclEdit.orThrow (can privilege (sn_path i)) AclEdit.forbidden;;
  AclEdit.orThrow (AclEdit.isUuid (sb_targetClusterId b)) (AclEdit.notFound "Target cluster not found");;
  AclEdit.orThrow (negb (bool_decide (sb_targetClusterId b = ir_clusterId (sn_row i)))) (AclEdit.bad "invalid_request" "The instance is already on that cluster");;
  c ← usable_cluster db (sb_targetClusterId b);
  let pl := tenant_placement (tb_cloud db) (sn_tenantId i) (cr_id c) in
  if can "instance.create" (cluster_path (cr_name c)) then
    Ok {| wh_cluster := c; wh_project := default (default (ir_project (sn_row i)) (pm_project <$> pl)) (sb_targetProject b);
          wh_pool := sb_pool b; wh_transport := default Transfer.Auto (sb_transport b) |}
  else
    pl ← ready_placement pl;
    AclEdit.orThrow (can "instance.create" (Acl.project_path (cr_name c) (pm_project pl))) AclEdit.forbidden;;
    AclEdit.orThrow (negb (names_other (sb_targetProject b) (pm_project pl))) AclEdit.forbidden;;
    Ok {| wh_cluster := c; wh_project := pm_project pl; wh_pool := None; wh_transport := Transfer.Auto |}.

(** ** Migrations *)

(** What is read of both clusters. *)
Context (inspect : ClusterRow → ClusterRow → string → string → string → result (Preflight.SourceInstance * Preflight.TargetFacts)).

Record MigrateBody := { mb_send : SendBody; mb_mode : Preflight.Mode; mb_live : option bool; mb_targetName : option string }.
Record Plan := { pn_seen : Seen; pn_where : Where; pn_targetName : string; pn_check : Preflight.Report }.
Definition plan (db : Tables) (id : string) (b : MigrateBody) : result Plan :=
  i ← visibleInventoryInstance db id;
  w ← resolveTarget db i (mb_send b) "instance.relocate";
  let targetName := default (ir_name (sn_row i)) (mb_targetName b) in
  facts ← inspect (sn_cluster i) (wh_cluster w) (ir_project (sn_row i)) (ir_name (sn_row i)) (wh_project w);
  Ok {| pn_seen := i; pn_where := w; pn_targetName := targetName;
        pn_check := Preflight.preflight JSON_parse
          {| Preflight.i_source := facts.1; Preflight.i_target := facts.2; Preflight.i_targetName := targetName; Preflight.i_mode := mb_mode b;
             Preflight.i_live := default false (mb_live b); Preflight.i_pool := wh_pool w |} |}.
Definition migrate_payload (n : Plan) (b : MigrateBody) : Mobility.MigratePayload :=
  let r := sn_row (pn_seen n) in
  {| Mobility.mp_sourceClusterId := ir_clusterId r; Mobility.mp_sourceProject := ir_project r; Mobility.mp_name := ir_name r;
     Mobility.mp_targetClusterId := cr_id (wh_cluster (pn_where n)); Mobility.mp_targetProject := wh_project (pn_where n); Mobility.mp_targetName := pn_targetName n;
     Mobility.mp_mode := mb_mode b; Mobility.mp_live := default false (mb_live b);
     Mobility.mp_pool := if truthy_opt_str (wh_pool (pn_where n)) then wh_pool (pn_where n) else None; Mobility.mp_transport := wh_transport (pn_where n) |}.

Definition show_transport (t : Transfer.TransportChoice) : string :=
  match t with Transfer.Auto => "auto" | Transfer.OnlyDirect => "direct" | Transfer.OnlyRelay => "relay" end.
Definition pool_json (pool : option string) : list (string * Json) := match pool with Some x => [("pool", JStr x)] | None => [] end.
Definition migrate_json (m : Mobility.MigratePayload) : list (string * Json) :=
  [("sourceClusterId", JStr (Mobility.mp_sourceClusterId m)); ("sourceProject", JStr (Mobility.mp_sourceProject m)); ("name", JStr (Mobility.mp_name m));
   ("targetClusterId", JStr (Mobility.mp_targetClusterId m)); ("targetProject", JStr (Mobility.mp_targetProject m)); ("targetName", JStr (Mobility.mp_targetName m));
   ("mode", JStr (match Mobility.mp_mode m with Preflight.Copy => "copy" | Preflight.Move => "move" end)); ("live", JBool (Mobility.mp_live m))]
  ++ pool_json (Mobility.mp_pool m) ++ [("transport", JStr (show_transport (Mobility.mp_transport m)))].

Definition request_job (type : string) (payload : list (string * Json)) (tenantId : option string) (clusterIds : list string) (key : option string) : Jobs.NewJob :=
  {| Jobs.n_type := type; Jobs.n_payload := payload; Jobs.n_actorType := actor_type p; Jobs.n_actorId := Acl.p_id p;
     Jobs.n_tenantId := tenantId; Jobs.n_clusterIds := clusterIds; Jobs.n_instanceKey := key |}.
Definition queue (db : Tables) (jobId : string) (now : Z) (j : Jobs.NewJob) : result (Tables * Jobs.Job) :=
  '(tbl, job) ← Jobs.enqueueJob (cd_jobs (tb_cloud db)) jobId now j; Ok (with_tbl db tbl, job).

Definition migrate (db : Tables) (id : string) (b : MigrateBody) (jobId : string) (now : Z) : result (Tables * Jobs.Job * Mobility.MigratePayload) :=
  n ← plan db id b;
  AclEdit.orThrow (Preflight.ok (pn_check n))
    {| status := 409; code := "preflight_failed"; message := "Pre-flight failed: " +++ join "; " (Preflight.problems (pn_check n)) |};;
  let r := sn_row (pn_seen n) in
  let m := migrate_payload n b in
  '(db, job) ← queue db jobId now
    (request_job "migrate" (migrate_json m) (sn_tenantId (pn_seen n)) [ir_clusterId r; cr_id (wh_cluster (pn_where n))]
       (Some (instance_key (ir_clusterId r) (ir_project r) (ir_name r))));
  Ok (db, job, m).

(** ** Replication policies *)

Definition on_instance (clusterId : option string) (tenantId : option string) (project name : string) (createdBy : option string) : Acl.OnInstance :=
  {| Acl.oi_clusterId := clusterId; Acl.oi_project := project; Acl.oi_name := name; Acl.oi_tenantId := tenantId; Acl.oi_createdBy := createdBy |}.
Definition may_replication (privilege : string) (r : ReplicationRow) : bool :=
  let po := rp_policy r in
  Acl.canOnInstance s p privilege
    (on_instance (Some (Services.po_sourceClusterId po)) (Services.po_tenantId po) (Services.po_sourceProject po) (Services.po_instanceName po) (Some (rp_createdBy r))).
Definition rp_id (r : ReplicationRow) : string := Services.po_id (rp_policy r).
Definition load_replication (db : Tables) (id : string) : result ReplicationRow :=
  r ← by_uuid rp_id id "Policy not found" (tb_replication db);
  AclEdit.orThrow (may_replication "replication.view" r) (AclEdit.notFound "Policy not found");; Ok r.
Definition manage_replication (db : Tables) (id : string) : result ReplicationRow :=
  r ← load_replication db id; AclEdit.orThrow (may_replication "replication.manage" r) AclEdit.forbidden;; Ok r.

(** Columns that no two policies share. *)
Definition replication_key (po : Services.Policy) : string * string * string * string :=
  (Services.po_sourceClusterId po, Services.po_sourceProject po, Services.po_instanceName po, Services.po_targetClusterId po).
Record ReplicateBody := { rb_instanceId : string; rb_targetClusterId : string; rb_targetName : option string; rb_targetProject : option string; rb_intervalS : option Z }.
Definition createReplication (db : Tables) (b : ReplicateBody) (rowId : string) (now : Z) : result (Tables * ReplicationRow) :=
  i ← visibleInventoryInstance db (rb_instanceId b);
  w ← resolveTarget db i {| sb_targetClusterId := rb_targetClusterId b; sb_targetProject := rb_targetProject b; sb_pool := None; sb_transport := None |} "replication.manage";
  let po := {| Services.po_id := rowId; Services.po_tenantId := sn_tenantId i; Services.po_sourceClusterId := ir_clusterId (sn_row i);
               Services.po_sourceProject := ir_project (sn_row i); Services.po_instanceName := ir_name (sn_row i);
               Services.po_targetClusterId := cr_id (wh_cluster w); Services.po_targetProject := wh_project w;
               Services.po_targetName := default (ir_name (sn_row i)) (rb_targetName b); Services.po_active := true |} in
  if includes ((λ r, replication_key (rp_policy r)) <$> tb_replication db) (replication_key po) then
    throw 409 "conflict" "This instance already replicates to that cluster"
  else
    let row := {| rp_policy := po; rp_intervalS := default 3600 (rb_intervalS b); rp_enabled := true; rp_lastRun := None;
                  rp_createdBy := Acl.subjectOf p; rp_createdAt := now |} in
    Ok (with_replication db (tb_replication db ++ [row]), row).
Definition patched_replication (enabled : option bool) (intervalS : option Z) (r : ReplicationRow) : ReplicationRow :=
  {| rp_policy := rp_policy r; rp_intervalS := default (rp_intervalS r) intervalS; rp_enabled := default (rp_enabled r) enabled;
     rp_lastRun := rp_lastRun r; rp_createdBy := rp_createdBy r; rp_createdAt := rp_createdAt r |}.
(** An update that sets no column is an error of the query builder. *)
Definition no_values : ApiError := {| status := 500; code := "internal"; message := "Internal error" |}.
Definition patchReplication (db : Tables) (id : string) (enabled : option bool) (intervalS : option Z) : result Tables :=
  r ← manage_replication db id;
  AclEdit.orThrow (bool_decide (is_Some enabled) || bool_decide (is_Some intervalS)) no_values;;
  Ok (with_replication db (on_id rp_id (rp_id r) (patched_replication enabled intervalS) (tb_replication db))).
(** The replica stays. *)
Definition deleteReplication (db : Tables) (id : string) : result Tables :=
  r ← manage_replication db id; Ok (with_replication db (without rp_id (rp_id r) (tb_replication db))).
Definition replicated_at (now : Z) (jobId : string) (r : ReplicationRow) : ReplicationRow :=
  {| rp_policy := rp_policy r; rp_intervalS := rp_intervalS r; rp_enabled := rp_enabled r; rp_lastRun := Some (now, jobId);
     rp_createdBy := rp_createdBy r; rp_createdAt := rp_createdAt r |}.
Definition runReplication (db : Tables) (id jobId : string) (now : Z) : result (Tables * Jobs.Job) :=
  r ← manage_replication db id;
  let po := rp_policy r in
  AclEdit.orThrow (Services.po_active po) {| status := 409; code := "conflict"; message := "This policy has failed over" |};;
  '(db, job) ← queue db jobId now
    (request_job "replicate" [("policyId", JStr (rp_id r))] (Services.po_tenantId po) [Services.po_sourceClusterId po; Services.po_targetClusterId po]
       (Some (Replication.policyInstanceKey po)));
  Ok (with_replication db (on_id rp_id (rp_id r) (replicated_at now jobId) (tb_replication db)), job).
(** Not keyed on the instance: a run that hangs on a lost source does not hold it up. *)
Definition failover (db : Tables) (id : string) (stopSource : bool) (jobId : string) (now : Z) : result (Tables * Jobs.Job) :=
  r ← manage_replication db id;
  let po := rp_policy r in
  AclEdit.orThrow (Services.po_active po) {| status := 409; code := "conflict"; message := "This policy has already failed over" |};;
  queue db jobId now
    (request_job "failover" [("policyId", JStr (rp_id r)); ("stopSource", JBool stopSource)] (Services.po_tenantId po)
       [Services.po_sourceClusterId po; Services.po_targetClusterId po] None).
Definition newest_replication (a b : ReplicationRow) : comparison := Z.compare (rp_createdAt b) (rp_createdAt a).
Definition listReplication (db : Tables) : list ReplicationRow := js_filter (may_replication "replication.view") (js_sort newest_replication (tb_replication db)).

(** ** Targets of backups *)

Context (seal : string → string).

Definition requireAdmin : result unit := AclEdit.orThrow (can "platform.settings" "/") AclEdit.forbidden.
Definition loadTarget (db : Tables) (id : string) : result TargetRow := by_uuid tg_id id "Target not found" (tb_targets db).
Definition usableTarget (db : Tables) (id : string) : result TargetRow :=
  t ← loadTarget db id;
  AclEdit.orThrow (tg_enabled t) {| status := 409; code := "conflict"; message := "The backup target " +++ quoted (tg_name t) +++ " is disabled" |};;
  Ok t.
Record TargetBody := {
  tb_name : string; tb_endpoint : string; tb_region : option string; tb_bucket : string; tb_prefix : option string;
  tb_accessKeyId : string; tb_secretKey : string; tb_enabled : option bool;
}.
Definition createTarget (db : Tables) (b : TargetBody) (rowId : string) : result (Tables * TargetRow) :=
  requireAdmin;;
  if includes (tg_name <$> tb_targets db) (tb_name b) then throw 409 "conflict" ("A target named " +++ quoted (tb_name b) +++ " already exists")
  else
    let row := {| tg_id := rowId; tg_name := tb_name b; tg_endpoint := tb_endpoint b; tg_region := default EmptyString (tb_region b); tg_bucket := tb_bucket b;
                  tg_prefix := default EmptyString (tb_prefix b); tg_accessKeyId := tb_accessKeyId b; tg_secretKeyEnc := seal (tb_secretKey b);
                  tg_enabled := default true (tb_enabled b) |} in
    Ok (with_targets db (tb_targets db ++ [row]), row).
Record TargetPatch := {
  tp_endpoint : option string; tp_region : option string; tp_bucket : option string; tp_prefix : option string;
  tp_accessKeyId : option string; tp_secretKey : option string; tp_enabled : option bool;
}.
Definition patched_target (b : TargetPatch) (t : TargetRow) : TargetRow :=
  {| tg_id := tg_id t; tg_name := tg_name t; tg_endpoint := default (tg_endpoint t) (tp_endpoint b); tg_region := default (tg_region t) (tp_region b);
     tg_bucket := default (tg_bucket t) (tp_bucket b); tg_prefix := default (tg_prefix t) (tp_prefix b);
     tg_accessKeyId := default (tg_accessKeyId t) (tp_accessKeyId b);
     tg_secretKeyEnc := if truthy_opt_str (tp_secretKey b) then seal (default EmptyString (tp_secretKey b)) else tg_secretKeyEnc t;
     tg_enabled := default (tg_enabled t) (tp_enabled b) |}.
Definition patchTarget (db : Tables) (id : string) (b : TargetPatch) : result Tables :=
  requireAdmin;;
  t ← loadTarget db id;
  AclEdit.orThrow (bool_decide (is_Some (tp_endpoint b)) || bool_decide (is_Some (tp_region b)) || bool_decide (is_Some (tp_bucket b))
    || bool_decide (is_Some (tp_prefix b)) || bool_decide (is_Some (tp_accessKeyId b)) || truthy_opt_str (tp_secretKey b)
    || bool_decide (is_Some (tp_enabled b))) no_values;;
  Ok (with_targets db (on_id tg_id (tg_id t) (patched_target b) (tb_targets db))).
(** The foreign keys of backups and policies restrict. *)
Definition deleteTarget (db : Tables) (id : string) : result Tables :=
  requireAdmin;;
  t ← loadTarget db id;
  if some (λ b, bool_decide (br_targetId b = tg_id t)) (tb_backups db) || some (λ y, bool_decide (py_targetId y = tg_id t)) (tb_policies db) then
    throw 409 "conflict" "Backups or policies still use this target"
  else Ok (with_targets db (without tg_id (tg_id t) (tb_targets db))).

(** ** Backups *)

Definition may_backup (privilege : string) (b : BackupRow) : bool :=
  Acl.canOnInstance s p privilege (on_instance (br_clusterId b) (br_tenantId b) (br_project b) (br_instanceName b) (Some (br_createdBy b))).
Definition loadBackup (db : Tables) (id : string) : result BackupRow :=
  b ← by_uuid br_id id "Backup not found" (tb_backups db);
  AclEdit.orThrow (may_backup "backup.view" b) (AclEdit.notFound "Backup not found");; Ok b.

Definition backup_json (b : Backups.BackupPayload) : list (string * Json) :=
  [("clusterId", JStr (Backups.bk_clusterId b)); ("project", JStr (Backups.bk_project b)); ("instanceName", JStr (Backups.bk_instanceName b));
   ("targetId", JStr (Backups.bk_targetId b)); ("instanceOnly", JBool (Backups.bk_instanceOnly b)); ("transport", JStr (show_transport (Backups.bk_transport b)))]
  ++ match Backups.bk_policyId b with Some x => [("policyId", JStr x)] | None => [] end.
Definition queueBackup (db : Tables) (tenantId : option string) (b : Backups.BackupPayload) (jobId : string) (now : Z) : result (Tables * Jobs.Job) :=
  queue db jobId now
    (request_job "backup" (backup_json b) tenantId [Backups.bk_clusterId b]
       (Some (instance_key (Backups.bk_clusterId b) (Backups.bk_project b) (Backups.bk_instanceName b)))).

(** What a tenant's backups that did not fail count, for its quota and for a user's share. *)
Definition standing (b : BackupRow) : bool := match br_state b with Services.Failed => false | _ => true end.
Definition backups_of (db : Tables) (tenantId : string) : list BackupRow :=
  js_filter (λ b, bool_decide (br_tenantId b = Some tenantId) && standing b) (tb_backups db).
Definition counted (db : Tables) : Cloud :=
  let c := tb_cloud db in
  {| cd_tenants := cd_tenants c; cd_placements := cd_placements c; cd_clusters := cd_clusters c; cd_instances := cd_instances c; cd_owned := cd_owned c;
     cd_backups := (λ b, {| bk_tenantId := default EmptyString (br_tenantId b); bk_createdBy := br_createdBy b; bk_failed := negb (standing b) |}) <$>
                     js_filter (λ b, bool_decide (is_Some (br_tenantId b))) (tb_backups db);
     cd_shares := cd_shares c; cd_jobs := cd_jobs c; cd_k8s := cd_k8s c |}.
Definition need_backup_room (db : Tables) (tenantId : option string) : result unit :=
  match tenantId with
  | Some t =>
      match tenant_by_id (tb_cloud db) t with
      | Some row => Quota.needBackupQuota tenantId (tn_quotas row) (Z.of_nat (length (backups_of db t)))
                      (sum ((λ b, default 0 (br_sizeBytes b)) <$> backups_of db t))
      | None => Ok tt
      end;;
      (if Acl.p_service p then Ok tt
       else needUserShare (counted db) t (Acl.p_id p) {| Quota.ua_instances := 0; Quota.ua_cpu := 0; Quota.ua_memory := 0; Quota.ua_backups := 1 |})
  | None => Ok tt
  end.

Record BackupBody := { bb_targetId : string; bb_instanceOnly : option bool; bb_transport : option Transfer.TransportChoice }.
Definition createBackup (db : Tables) (id : string) (b : BackupBody) (jobId : string) (now : Z) : result (Tables * Jobs.Job * Backups.BackupPayload) :=
  i ← visibleInventoryInstance db id;
  AclEdit.orThrow (can "backup.create" (sn_path i)) AclEdit.forbidden;;
  AclEdit.orThrow (bool_decide (default Transfer.Auto (bb_transport b) = Transfer.Auto) || can "cluster.configure" (cluster_path (cr_name (sn_cluster i))))
    (operators_only "transport");;
  t ← usableTarget db (bb_targetId b);
  need_backup_room db (sn_tenantId i);;
  let payload := {| Backups.bk_clusterId := ir_clusterId (sn_row i); Backups.bk_project := ir_project (sn_row i); Backups.bk_instanceName := ir_name (sn_row i);
                    Backups.bk_targetId := tg_id t; Backups.bk_instanceOnly := default false (bb_instanceOnly b);
                    Backups.bk_transport := default Transfer.Auto (bb_transport b); Backups.bk_policyId := None |} in
  '(db, job) ← queueBackup db (sn_tenantId i) payload jobId now; Ok (db, job, payload).

(** The object first, by [erase]: an object without its row is lost space. *)
Definition deleteBackup (erase : TargetRow → string → result unit) (db : Tables) (id : string) : result Tables :=
  b ← loadBackup db id;
  AclEdit.orThrow (may_backup "backup.delete" b) AclEdit.forbidden;;
  AclEdit.orThrow (match br_state b with Services.Creating => false | _ => true end) {| status := 409; code := "conflict"; message := "This backup is still being made" |};;
  t ← loadTarget db (br_targetId b);
  erase t (br_objectKey b);;
  Ok (with_backups db (without br_id (br_id b) (tb_backups db))).

(** [restoreTarget] *)
Record RestoreBody := {
  re_targetClusterId : string; re_targetName : option string; re_targetProject : option string; re_pool : option string; re_start : option bool;
}.
Definition restoreTarget (db : Tables) (k : BackupRow) (b : RestoreBody) : result Where :=
  c ← usable_cluster db (re_targetClusterId b);
  let pl := tenant_placement (tb_cloud db) (br_tenantId k) (cr_id c) in
  if can "instance.create" (cluster_path (cr_name c)) then
    Ok {| wh_cluster := c; wh_project := default (default (br_project k) (pm_project <$> pl)) (re_targetProject b);
          wh_pool := re_pool b; wh_transport := Transfer.Auto |}
  else
    AclEdit.orThrow (negb (truthy_opt_str (re_pool b))) (operators_only "storage pool");;
    pl ← ready_placement pl;
    AclEdit.orThrow (negb (names_other (re_targetProject b) (pm_project pl))) AclEdit.forbidden;;
    AclEdit.orThrow (can "instance.create" (Acl.project_path (cr_name c) (pm_project pl))) AclEdit.forbidden;;
    Ok {| wh_cluster := c; wh_project := pm_project pl; wh_pool := None; wh_transport := Transfer.Auto |}.
Definition restore_payload (k : BackupRow) (w : Where) (b : RestoreBody) : Restore.RestorePayload :=
  {| Restore.re_backupId := br_id k; Restore.re_targetClusterId := cr_id (wh_cluster w); Restore.re_targetProject := wh_project w;
     Restore.re_targetName := default (br_instanceName k) (re_targetName b);
     Restore.re_pool := if truthy_opt_str (wh_pool w) then wh_pool w else None; Restore.re_start := default false (re_start b) |}.
Definition restore_json (m : Restore.RestorePayload) : list (string * Json) :=
  [("backupId", JStr (Restore.re_backupId m)); ("targetClusterId", JStr (Restore.re_targetClusterId m)); ("targetProject", JStr (Restore.re_targetProject m));
   ("targetName", JStr (Restore.re_targetName m)); ("start", JBool (Restore.re_start m))] ++ pool_json (Restore.re_pool m).
Definition restoreBackup (db : Tables) (id : string) (b : RestoreBody) (jobId : string) (now : Z) : result (Tables * Jobs.Job * Restore.RestorePayload) :=
  k ← loadBackup db id;
  AclEdit.orThrow (may_backup "backup.restore" k) AclEdit.forbidden;;
  AclEdit.orThrow (Backups.is_ready (br_state k))
    {| status := 409; code := "conflict"; message := "Only a ready backup can be restored (this one is " +++ Restore.show_state (br_state k) +++ ")" |};;
  w ← restoreTarget db k b;
  let m := restore_payload k w b in
  '(db, job) ← queue db jobId now (request_job "restore" (restore_json m) (br_tenantId k) [cr_id (wh_cluster w)] None);
  Ok (db, job, m).

Record BackupQuery := { bq_instance : option string; bq_tenant : option string; bq_policy : option string }.
Definition asked_uuid (o : option string) (what : string) : result (option string) :=
  match o with
  | Some id => if truthy_str id then AclEdit.orThrow (AclEdit.isUuid id) (AclEdit.notFound what);; Ok (Some (toLowerCase id)) else Ok None
  | None => Ok None
  end.
Definition is_asked (asked : option string) (col : option string) : bool := match asked with Some x => bool_decide (col = Some x) | None => true end.
Definition of_instance (i : option Seen) (b : BackupRow) : bool :=
  match i with
  | Some i => bool_decide (br_clusterId b = Some (ir_clusterId (sn_row i))) && bool_decide (br_project b = ir_project (sn_row i)) && bool_decide (br_instanceName b = ir_name (sn_row i))
  | None => true
  end.
Definition newest_backup (a b : BackupRow) : comparison := Z.compare (br_createdAt b) (br_createdAt a).
Definition listBackups (db : Tables) (q : BackupQuery) : result (list BackupRow) :=
  i ← match bq_instance q with
      | Some id => if truthy_str id then i ← visibleInventoryInstance db id; Ok (Some i) else Ok None
      | None => Ok None
      end;
  t ← asked_uuid (bq_tenant q) "Tenant not found";
  y ← asked_uuid (bq_policy q) "Policy not found";
  let rows := js_filter (λ b, of_instance i b && is_asked t (br_tenantId b) && is_asked y (br_policyId b)) (tb_backups db) in
  Ok (take 500 (js_filter (may_backup "backup.view") (js_sort newest_backup rows))).

(** ** Policies of backups *)

Definition may_policy (privilege : string) (y : PolicyRow) : bool :=
  Acl.canOnInstance s p privilege (on_instance (Some (py_clusterId y)) (py_tenantId y) (py_project y) (py_instanceName y) (Some (py_createdBy y))).
Definition loadPolicy (db : Tables) (id : string) : result PolicyRow :=
  y ← by_uuid py_id id "Policy not found" (tb_policies db);
  AclEdit.orThrow (may_policy "backup.view" y) (AclEdit.notFound "Policy not found");; Ok y.
Definition managedPolicy (db : Tables) (id : string) : result PolicyRow :=
  y ← loadPolicy db id; AclEdit.orThrow (may_policy "backup.schedule" y) AclEdit.forbidden;; Ok y.
(** Columns that no two policies share. *)
Definition policy_key (y : PolicyRow) : string * string * string * string := (py_clusterId y, py_project y, py_instanceName y, py_targetId y).
Record PolicyBody := { pb_instanceId : string; pb_targetId : string; pb_intervalS : option Z; pb_keep : option Z; pb_instanceOnly : option bool }.
Definition createPolicy (db : Tables) (b : PolicyBody) (rowId : string) (now : Z) : result (Tables * PolicyRow) :=
  i ← visibleInventoryInstance db (pb_instanceId b);
  AclEdit.orThrow (can "backup.schedule" (sn_path i)) AclEdit.forbidden;;
  t ← usableTarget db (pb_targetId b);
  let row := {| py_id := rowId; py_tenantId := sn_tenantId i; py_clusterId := ir_clusterId (sn_row i); py_project := ir_project (sn_row i);
                py_instanceName := ir_name (sn_row i); py_targetId := tg_id t; py_intervalS := default 86400 (pb_intervalS b);
                py_keep := default 7 (pb_keep b); py_instanceOnly := default false (pb_instanceOnly b); py_enabled := true; py_lastRun := None;
                py_createdBy := Acl.subjectOf p; py_createdAt := now |} in
  if includes (policy_key <$> tb_policies db) (policy_key row) then throw 409 "conflict" "This instance already has a policy for that target"
  else Ok (with_policies db (tb_policies db ++ [row]), row).
Record PolicyPatch := {
  pp_enabled : option bool; pp_intervalS : option Z; pp_keep : option Z; pp_instanceOnly : option bool; pp_targetId : option string;
}.
(** The database writes keys in lower case. *)
Definition patched_policy (b : PolicyPatch) (y : PolicyRow) : PolicyRow :=
  {| py_id := py_id y; py_tenantId := py_tenantId y; py_clusterId := py_clusterId y; py_project := py_project y; py_instanceName := py_instanceName y;
     py_targetId := default (py_targetId y) (toLowerCase <$> pp_targetId b); py_intervalS := default (py_intervalS y) (pp_intervalS b);
     py_keep := default (py_keep y) (pp_keep b); py_instanceOnly := default (py_instanceOnly y) (pp_instanceOnly b);
     py_enabled := default (py_enabled y) (pp_enabled b); py_lastRun := py_lastRun y; py_createdBy := py_createdBy y; py_createdAt := py_createdAt y |}.
(** What the database refuses, an empty key or the unique index, is not caught here. *)
Definition patchPolicy (db : Tables) (id : string) (b : PolicyPatch) : result Tables :=
  y ← managedPolicy db id;
  (if truthy_opt_str (pp_targetId b) then _ ← usableTarget db (default EmptyString (pp_targetId b)); Ok tt else Ok tt);;
  AclEdit.orThrow (bool_decide (is_Some (pp_enabled b)) || bool_decide (is_Some (pp_intervalS b)) || bool_decide (is_Some (pp_keep b))
    || bool_decide (is_Some (pp_instanceOnly b)) || bool_decide (is_Some (pp_targetId b))) no_values;;
  if bool_decide (pp_targetId b = Some EmptyString) || includes (policy_key <$> without py_id (py_id y) (tb_policies db)) (policy_key (patched_policy b y)) then throw 500 "internal" "Internal error"
  else Ok (with_policies db (on_id py_id (py_id y) (patched_policy b) (tb_policies db))).
(** Its backups stay, as manual ones. *)
Definition unscheduled (b : BackupRow) : BackupRow :=
  {| br_id := br_id b; br_tenantId := br_tenantId b; br_policyId := None; br_targetId := br_targetId b; br_objectKey := br_objectKey b;
     br_clusterId := br_clusterId b; br_project := br_project b; br_instanceName := br_instanceName b; br_state := br_state b;
     br_sizeBytes := br_sizeBytes b; br_createdBy := br_createdBy b; br_createdAt := br_createdAt b |}.
Definition deletePolicy (db : Tables) (id : string) : result Tables :=
  y ← managedPolicy db id;
  let db := with_backups db ((λ b, if bool_decide (br_policyId b = Some (py_id y)) then unscheduled b else b) <$> tb_backups db) in
  Ok (with_policies db (without py_id (py_id y) (tb_policies db))).
Definition ran_at (now : Z) (jobId : string) (y : PolicyRow) : PolicyRow :=
  {| py_id := py_id y; py_tenantId := py_tenantId y; py_clusterId := py_clusterId y; py_project := py_project y; py_instanceName := py_instanceName y;
     py_targetId := py_targetId y; py_intervalS := py_intervalS y; py_keep := py_keep y; py_instanceOnly := py_instanceOnly y; py_enabled := py_enabled y;
     py_lastRun := Some (now, jobId); py_createdBy := py_createdBy y; py_createdAt := py_createdAt y |}.
Definition runPolicy (db : Tables) (id jobId : string) (now : Z) : result (Tables * Jobs.Job * Backups.BackupPayload) :=
  y ← managedPolicy db id;
  _ ← usableTarget db (py_targetId y);
  let payload := {| Backups.bk_clusterId := py_clusterId y; Backups.bk_project := py_project y; Backups.bk_instanceName := py_instanceName y;
                    Backups.bk_targetId := py_targetId y; Backups.bk_instanceOnly := py_instanceOnly y; Backups.bk_transport := Transfer.Auto;
                    Backups.bk_policyId := Some (py_id y) |} in
  '(db, job) ← queueBackup db (py_tenantId y) payload jobId now;
  Ok (with_policies db (on_id py_id (py_id y) (ran_at now jobId) (tb_policies db)), job, payload).
Definition newest_policy (a b : PolicyRow) : comparison := Z.compare (py_createdAt b) (py_createdAt a).
Definition listPolicies (db : Tables) : list PolicyRow := js_filter (may_policy "backup.view") (js_sort newest_policy (tb_policies db)).
End requests.

(** ** What is looked up *)

Ltac goes H :=
  repeat match type of H with
  | AclEdit.orThrow _ _ ≫= _ = Ok _ => apply AclEditTheory.orThrow_bind in H as [? H]
  | _ ≫= _ = Ok _ => apply result_bind_Ok in H as (? & ? & H)
  end.

Lemma by_uuid_Ok {A} (key : A → string) id what l x : by_uuid key id what l = Ok x → x ∈ l ∧ key x = toLowerCase id ∧ AclEdit.isUuid id = true.
Proof.
  unfold by_uuid. intros [Hu H]%AclEditTheory.orThrow_bind. destruct (js_find _ l) as [y|] eqn:Hf; [|done]. simplify_eq.
  apply js_find_some in Hf as [Hin Hk%bool_decide_eq_true]. done.
Qed.
Lemma cluster_by_id_Some db id c : cluster_by_id db id = Some c → c ∈ cd_clusters db ∧ cr_id c = id.
Proof. unfold cluster_by_id. intros [Hin Hk%bool_decide_eq_true]%js_find_some. done. Qed.
Lemma tenant_placement_Some db t c pl : tenant_placement db t c = Some pl → pl ∈ cd_placements db ∧ t = Some (pm_tenantId pl) ∧ pm_clusterId pl = c.
Proof.
  unfold tenant_placement. destruct t as [t|]; [|done]. cbn. intros [Hin [Ht%bool_decide_eq_true Hc%bool_decide_eq_true]%andb_true_iff]%js_find_some.
  subst. done.
Qed.
Lemma ready_placement_Ok pl x : ready_placement pl = Ok x → pl = Some x ∧ pm_status x = "ready".
Proof. unfold ready_placement. destruct pl as [y|]; [|done]. case_bool_decide; [|done]. intros [= ->]. done. Qed.
Lemma usable_cluster_Ok db id c : usable_cluster db id = Ok c → c ∈ cd_clusters (tb_cloud db) ∧ cr_id c = toLowerCase id ∧ cr_status c ≠ "disabled".
Proof.
  unfold usable_cluster. intros H. apply result_bind_Ok in H as (c' & Hc & H). apply AclEditTheory.orThrow_bind in H as [Hd H]. simplify_eq.
  apply by_uuid_Ok in Hc as (Hin & Hk & _). apply negb_true_iff, bool_decide_eq_false in Hd. done.
Qed.

Section sending.
Context (JSON_parse : string → option Json) (s : Acl.Snapshot) (p : Acl.PrincipalId).
Context (inspect : ClusterRow → ClusterRow → string → string → string → result (Preflight.SourceInstance * Preflight.TargetFacts)).
Abbreviation can privilege path := (Acl.can s p privilege path None = true).

(** Whoever may create instances anywhere on a cluster chooses freely there; others have their tenant's ready placement,
    if they may create instances in it, and no choice. *)
Definition may_send (db : Tables) (tenantId : option string) (clusterId project : string) (pool : option string) (transport : Transfer.TransportChoice) : Prop :=
  ∃ c, c ∈ cd_clusters (tb_cloud db) ∧ cr_id c = clusterId ∧ cr_status c ≠ "disabled"
  ∧ (can "instance.create" (cluster_path (cr_name c))
     ∨ pool = None ∧ transport = Transfer.Auto
       ∧ ∃ pl, pl ∈ cd_placements (tb_cloud db) ∧ Some (pm_tenantId pl) = tenantId ∧ pm_clusterId pl = clusterId ∧ pm_status pl = "ready"
           ∧ pm_project pl = project ∧ can "instance.create" (Acl.project_path (cr_name c) project)).
(** The instance is in the inventory and the caller sees it. *)
Definition sees_instance (db : Tables) (r : InstanceRow) (path : string) : Prop :=
  r ∈ tb_instances db ∧ can "instance.view" path
  ∧ ∃ c, c ∈ cd_clusters (tb_cloud db) ∧ cr_id c = ir_clusterId r ∧ path = Acl.instance_path (cr_name c) (ir_project r) (ir_name r).

Lemma seen_Ok db id i : visibleInventoryInstance s p db id = Ok i → sees_instance db (sn_row i) (sn_path i).
Proof.
  unfold visibleInventoryInstance. intros H. apply result_bind_Ok in H as (r & Hr & H). destruct (cluster_by_id _ _) as [c|] eqn:Hc; [|done].
  apply AclEditTheory.orThrow_bind in H as [Hv H]. simplify_eq. apply by_uuid_Ok in Hr as (Hr & _). apply cluster_by_id_Some in Hc as [Hc Hk].
  cbn. split; [done|]. split; [done|]. eauto.
Qed.
Lemma resolved db i b privilege w : resolveTarget s p db i b privilege = Ok w →
  can privilege (sn_path i) ∧ may_send db (sn_tenantId i) (cr_id (wh_cluster w)) (wh_project w) (wh_pool w) (wh_transport w).
Proof.
  unfold resolveTarget. intros H. apply AclEditTheory.orThrow_bind in H as [Hp H]. split; [done|]. do 2 apply AclEditTheory.orThrow_bind in H as [_ H].
  apply result_bind_Ok in H as (c & Hc & H). apply usable_cluster_Ok in Hc as (Hc & _ & Hd). exists c.
  destruct (Acl.can s p "instance.create" (cluster_path _) None) eqn:Hcan; [simplify_eq; auto|].
  apply result_bind_Ok in H as (pl & [Hpl Hst]%ready_placement_Ok & H). do 2 apply AclEditTheory.orThrow_bind in H as [? H]. simplify_eq.
  apply tenant_placement_Some in Hpl as (Hin & Ht & Hpc). cbn. split_and!; [done..|]. right. split_and!; [done..|]. exists pl. done.
Qed.
Lemma restored db k b w : restoreTarget s p db k b = Ok w → may_send db (br_tenantId k) (cr_id (wh_cluster w)) (wh_project w) (wh_pool w) (wh_transport w).
Proof.
  unfold restoreTarget. intros H. apply result_bind_Ok in H as (c & Hc & H). apply usable_cluster_Ok in Hc as (Hc & _ & Hd). exists c.
  destruct (Acl.can s p "instance.create" (cluster_path _) None) eqn:Hcan; [simplify_eq; auto|].
  apply AclEditTheory.orThrow_bind in H as [_ H].
  apply result_bind_Ok in H as (pl & [Hpl Hst]%ready_placement_Ok & H). do 2 apply AclEditTheory.orThrow_bind in H as [? H]. simplify_eq.
  apply tenant_placement_Some in Hpl as (Hin & Ht & Hpc). cbn. split_and!; [done..|]. right. split_and!; [done..|]. exists pl. done.
Qed.
End sending.

(** ** Rows that are changed or removed *)

Lemma on_id_fmap {A B} (key : A → string) (g : A → B) id f (l : list A) : (∀ x, g (f x) = g x) → g <$> on_id key id f l = g <$> l.
Proof. intros H. unfold on_id. rewrite <-list_fmap_compose. apply list_fmap_ext. intros i x _. cbn. case_bool_decide; [apply H|done]. Qed.
Lemma without_sublist {A} (key : A → string) id (l : list A) : without key id l `sublist_of` l.
Proof. apply js_filter_sublist. Qed.
Lemma without_NoDup {A B} (key : A → string) (g : A → B) id (l : list A) : NoDup (g <$> l) → NoDup (g <$> without key id l).
Proof. intros H. by eapply sublist_NoDup, sublist_of_fmap, without_sublist. Qed.
Lemma elem_of_without {A} (key : A → string) id (l : list A) x : x ∈ without key id l ↔ x ∈ l ∧ key x ≠ id.
Proof. unfold without. rewrite elem_of_js_filter, negb_true_iff, bool_decide_eq_false. tauto. Qed.
Lemma elem_of_on_id {A} (key : A → string) id f (l : list A) x : x ∈ on_id key id f l → x ∈ l ∧ key x ≠ id ∨ ∃ y, y ∈ l ∧ key y = id ∧ x = f y.
Proof. unfold on_id. intros (y & -> & Hy)%list_elem_of_fmap. case_bool_decide; [right|left]; eauto. Qed.
Lemma on_id_NoDup {A B} (key : A → string) (g : A → B) f (l : list A) y : NoDup (key <$> l) → NoDup (g <$> l) → y ∈ l →
  g (f y) ∉ g <$> without key (key y) l → NoDup (g <$> on_id key (key y) f l).
Proof.
  induction l as [|x l IH]; intros Hk Hg Hy Hn; [by apply not_elem_of_nil in Hy|].
  rewrite fmap_cons in Hk. rewrite fmap_cons in Hg. apply NoDup_cons in Hk as [Hkx Hk], Hg as [Hgx Hg].
  change (on_id key (key y) f (x :: l)) with ((if bool_decide (key x = key y) then f x else x) :: on_id key (key y) f l).
  rewrite fmap_cons. apply elem_of_cons in Hy as [->|Hy].
  - rewrite bool_decide_eq_true_2 by done. assert (∀ z, z ∈ l → key z ≠ key x) as Ho by (intros z Hz He; apply Hkx; rewrite <-He; apply list_elem_of_fmap; eauto).
    assert (without key (key x) (x :: l) = l) as Hw.
    { unfold without. cbn. rewrite bool_decide_eq_true_2 by done. cbn. apply js_filter_all. intros z Hz. apply negb_true_iff, bool_decide_eq_false, Ho, Hz. }
    rewrite Hw in Hn. assert (g <$> on_id key (key x) f l = g <$> l) as ->.
    { unfold on_id. rewrite <-list_fmap_compose. apply list_fmap_ext. intros i z Hz%list_elem_of_lookup_2. cbn. by rewrite bool_decide_eq_false_2 by by apply Ho. }
    by apply NoDup_cons.
  - assert (key x ≠ key y) as Hne by (intros He; apply Hkx; rewrite He; apply list_elem_of_fmap; eauto).
    rewrite bool_decide_eq_false_2 by done. assert (without key (key y) (x :: l) = x :: without key (key y) l) as Hw.
    { unfold without. cbn. by rewrite bool_decide_eq_false_2. }
    rewrite Hw, fmap_cons, not_elem_of_cons in Hn. destruct Hn as [Hnx Hn]. apply NoDup_cons. split; [|by apply IH].
    intros (z & He & [[Hz _]|(u & Hu & Hku & ->)]%elem_of_on_id)%list_elem_of_fmap; [apply Hgx; rewrite He; apply list_elem_of_fmap; eauto|].
    assert (u = y) as ->; [|done]. apply list_elem_of_lookup in Hu as [i Hi], Hy as [j Hj]. assert (i = j) as ->; [|congruence].
    eapply (NoDup_lookup (key <$> l)); [done|by rewrite list_lookup_fmap, Hi|]. rewrite list_lookup_fmap, Hj. cbn. congruence.
Qed.

(** ** The tables stay in order *)

Definition named_targets (db : Tables) : Prop :=
  (∀ y, y ∈ tb_policies db → py_targetId y ∈ tg_id <$> tb_targets db) ∧ (∀ b, b ∈ tb_backups db → br_targetId b ∈ tg_id <$> tb_targets db).
Definition tables_wf (db : Tables) : Prop :=
  NoDup (tg_name <$> tb_targets db) ∧ NoDup (py_id <$> tb_policies db) ∧ NoDup (policy_key <$> tb_policies db)
  ∧ NoDup ((λ r, replication_key (rp_policy r)) <$> tb_replication db) ∧ named_targets db.
Definition same_rows (db db' : Tables) : Prop :=
  tb_targets db' = tb_targets db ∧ tb_policies db' = tb_policies db ∧ tb_replication db' = tb_replication db ∧ tb_backups db' = tb_backups db.

Lemma queue_rows db id now j db' job : queue db id now j = Ok (db', job) → same_rows db db' ∧ Jobs.enqueueJob (cd_jobs (tb_cloud db)) id now j = Ok (cd_jobs (tb_cloud db'), job).
Proof.
  unfold queue. intros H. apply result_bind_Ok in H as ([tbl j'] & Hq & H). simplify_eq. done.
Qed.
Lemma same_rows_wf db db' : same_rows db db' → tables_wf db → tables_wf db'.
Proof. intros (H1 & H2 & H3 & H4). unfold tables_wf, named_targets. by rewrite H1, H2, H3, H4. Qed.

(** A request that is answered, or a job that goes about its backups: it makes rows for targets that exist, changes
    them where they stand and prunes them. *)
Inductive turn (db : Tables) : Tables → Prop :=
  | did_migrate JSON_parse s p inspect id b jobId now db' job m : migrate JSON_parse s p inspect db id b jobId now = Ok (db', job, m) → turn db db'
  | did_replicate s p b rowId now db' r : createReplication s p db b rowId now = Ok (db', r) → turn db db'
  | did_patch_replication s p id e i db' : patchReplication s p db id e i = Ok db' → turn db db'
  | did_delete_replication s p id db' : deleteReplication s p db id = Ok db' → turn db db'
  | did_run_replication s p id jobId now db' job : runReplication s p db id jobId now = Ok (db', job) → turn db db'
  | did_failover s p id stop jobId now db' job : failover s p db id stop jobId now = Ok (db', job) → turn db db'
  | did_create_target s p seal b rowId db' t : createTarget s p seal db b rowId = Ok (db', t) → turn db db'
  | did_patch_target s p seal id b db' : patchTarget s p seal db id b = Ok db' → turn db db'
  | did_delete_target s p id db' : deleteTarget s p db id = Ok db' → turn db db'
  | did_backup s p id b jobId now db' job m : createBackup s p db id b jobId now = Ok (db', job, m) → turn db db'
  | did_delete_backup s p erase id db' : deleteBackup s p erase db id = Ok db' → turn db db'
  | did_restore s p id b jobId now db' job m : restoreBackup s p db id b jobId now = Ok (db', job, m) → turn db db'
  | did_create_policy s p b rowId now db' y : rowId ∉ py_id <$> tb_policies db → createPolicy s p db b rowId now = Ok (db', y) → turn db db'
  | did_patch_policy s p id b db' : patchPolicy s p db id b = Ok db' → turn db db'
  | did_delete_policy s p id db' : deletePolicy s p db id = Ok db' → turn db db'
  | did_run_policy s p id jobId now db' job m : runPolicy s p db id jobId now = Ok (db', job, m) → turn db db'
  | did_job rows : (∀ b, b ∈ rows → br_targetId b ∈ tg_id <$> tb_targets db) → turn db (with_backups db rows).

Lemma NoDup_app_one {A} (l : list A) x : NoDup l → x ∉ l → NoDup (l ++ [x]).
Proof. intros H Hx. apply NoDup_app. split_and!; [done| |apply NoDup_singleton]. intros y Hy ->%list_elem_of_singleton. done. Qed.

Lemma replication_wf db l : tables_wf db → NoDup ((λ r, replication_key (rp_policy r)) <$> l) → tables_wf (with_replication db l).
Proof. intros (H1 & H2 & H3 & _ & H5) H4. done. Qed.
Lemma backups_wf db l : tables_wf db → (∀ b, b ∈ l → br_targetId b ∈ tg_id <$> tb_targets db) → tables_wf (with_backups db l).
Proof. intros (H1 & H2 & H3 & H4 & H5 & _) H. done. Qed.
Lemma policies_wf db l : tables_wf db → NoDup (py_id <$> l) → NoDup (policy_key <$> l) → (∀ y, y ∈ l → py_targetId y ∈ tg_id <$> tb_targets db) → tables_wf (with_policies db l).
Proof. intros (H1 & _ & _ & H4 & _ & H5) H2 H3 H. done. Qed.
Lemma targets_wf db l : tables_wf db → NoDup (tg_name <$> l) → (∀ t, t ∈ tg_id <$> tb_targets db → (t ∈ py_targetId <$> tb_policies db ∨ t ∈ br_targetId <$> tb_backups db) → t ∈ tg_id <$> l) →
  tables_wf (with_targets db l).
Proof.
  intros (_ & H2 & H3 & H4 & H5 & H6) H1 H. split_and!; [done..|]. split; cbn.
  - intros y Hy. apply H; [by apply H5|left; apply list_elem_of_fmap; eauto].
  - intros b Hb. apply H; [by apply H6|right; apply list_elem_of_fmap; eauto].
Qed.
Lemma usableTarget_Ok db id t : usableTarget db id = Ok t → t ∈ tb_targets db ∧ tg_id t = toLowerCase id ∧ tg_enabled t = true.
Proof.
  unfold usableTarget, loadTarget. intros H. apply result_bind_Ok in H as (t' & (Hin & Hk & _)%by_uuid_Ok & H). apply AclEditTheory.orThrow_bind in H as [He H].
  by simplify_eq.
Qed.
Lemma managedPolicy_Ok s p db id y : managedPolicy s p db id = Ok y → y ∈ tb_policies db.
Proof.
  unfold managedPolicy, loadPolicy. intros H. apply result_bind_Ok in H as (y' & H' & [_ H]%AclEditTheory.orThrow_bind). simplify_eq.
  apply result_bind_Ok in H' as (y' & (Hin & _)%by_uuid_Ok & [_ H]%AclEditTheory.orThrow_bind). by simplify_eq.
Qed.

(** ** What each request does to the rows *)

Lemma migrate_wf JSON_parse s p inspect db id b jobId now db' job m : migrate JSON_parse s p inspect db id b jobId now = Ok (db', job, m) → tables_wf db → tables_wf db'.
Proof.
  unfold migrate. intros H. apply result_bind_Ok in H as (n & _ & H). apply AclEditTheory.orThrow_bind in H as [_ H].
  apply result_bind_Ok in H as ([db1 j1] & [Hq _]%queue_rows & H). simplify_eq. by apply same_rows_wf.
Qed.
Lemma backup_wf s p db id b jobId now db' job m : createBackup s p db id b jobId now = Ok (db', job, m) → tables_wf db → tables_wf db'.
Proof.
  unfold createBackup, queueBackup. intros H. apply result_bind_Ok in H as (n & _ & H). do 2 apply AclEditTheory.orThrow_bind in H as [_ H].
  apply result_bind_Ok in H as (t & _ & H). apply result_bind_Ok in H as ([] & _ & H).
  apply result_bind_Ok in H as ([db1 j1] & [Hq _]%queue_rows & H). simplify_eq. by apply same_rows_wf.
Qed.
Lemma restore_wf s p db id b jobId now db' job m : restoreBackup s p db id b jobId now = Ok (db', job, m) → tables_wf db → tables_wf db'.
Proof.
  unfold restoreBackup. intros H. apply result_bind_Ok in H as (n & _ & H). do 2 apply AclEditTheory.orThrow_bind in H as [_ H].
  apply result_bind_Ok in H as (t & _ & H). apply result_bind_Ok in H as ([db1 j1] & [Hq _]%queue_rows & H). simplify_eq. by apply same_rows_wf.
Qed.
Lemma run_replication_wf s p db id jobId now db' job : runReplication s p db id jobId now = Ok (db', job) → tables_wf db → tables_wf db'.
Proof.
  unfold runReplication. intros H Hwf. apply result_bind_Ok in H as (n & _ & H). apply AclEditTheory.orThrow_bind in H as [_ H].
  apply result_bind_Ok in H as ([db1 j1] & [Hq _]%queue_rows & H). simplify_eq. apply (same_rows_wf db db1) in Hwf; [|done].
  apply replication_wf; [done|]. rewrite on_id_fmap; [by apply Hwf|done].
Qed.
Lemma run_policy_wf s p db id jobId now db' job m : runPolicy s p db id jobId now = Ok (db', job, m) → tables_wf db → tables_wf db'.
Proof.
  unfold runPolicy, queueBackup. intros H Hwf. apply result_bind_Ok in H as (y & _ & H). apply result_bind_Ok in H as (t & _ & H).
  apply result_bind_Ok in H as ([db1 j1] & [Hq _]%queue_rows & H). simplify_eq. apply (same_rows_wf db db1) in Hwf; [|done].
  pose proof Hwf as (_ & H2 & H3 & _ & H5 & _). apply policies_wf; [done|by rewrite on_id_fmap..|].
  intros z [[Hz _]|(u & Hu & _ & ->)]%elem_of_on_id; [by apply H5|by apply (H5 u)].
Qed.
Lemma failover_wf s p db id stop jobId now db' job : failover s p db id stop jobId now = Ok (db', job) → tables_wf db → tables_wf db'.
Proof.
  unfold failover. intros H. apply result_bind_Ok in H as (n & _ & H). apply AclEditTheory.orThrow_bind in H as [_ [Hq _]%queue_rows]. by apply same_rows_wf.
Qed.
Lemma replicate_wf s p db b rowId now db' r : createReplication s p db b rowId now = Ok (db', r) → tables_wf db → tables_wf db'.
Proof.
  unfold createReplication. intros H Hwf. do 2 apply result_bind_Ok in H as (? & _ & H). destruct (includes _ _) eqn:Hi; [done|]. simplify_eq.
  apply replication_wf; [done|]. rewrite fmap_app. apply NoDup_app_one; [apply Hwf|]. by apply includes_false in Hi.
Qed.
Lemma create_target_wf s p seal db b rowId db' t : createTarget s p seal db b rowId = Ok (db', t) → tables_wf db → tables_wf db'.
Proof.
  unfold createTarget. intros H Hwf. apply result_bind_Ok in H as (? & _ & H). destruct (includes _ _) eqn:Hi; [done|]. simplify_eq.
  apply targets_wf; [done|rewrite fmap_app; apply NoDup_app_one; [apply Hwf|by apply includes_false in Hi]|].
  intros t Ht _. rewrite fmap_app. apply elem_of_app. by left.
Qed.
Lemma patch_target_wf s p seal db id b db' : patchTarget s p seal db id b = Ok db' → tables_wf db → tables_wf db'.
Proof.
  unfold patchTarget. intros H Hwf. do 2 apply result_bind_Ok in H as (? & _ & H). apply AclEditTheory.orThrow_bind in H as [_ H]. simplify_eq.
  apply targets_wf; [done|rewrite on_id_fmap by done; apply Hwf|]. intros t Ht _. by rewrite on_id_fmap.
Qed.
Lemma delete_target_wf s p db id db' : deleteTarget s p db id = Ok db' → tables_wf db → tables_wf db'.
Proof.
  unfold deleteTarget. intros H Hwf. apply result_bind_Ok in H as ([] & _ & H). apply result_bind_Ok in H as (t & _ & H).
  destruct (_ || _) eqn:Hu; [done|]. simplify_eq. apply orb_false_iff in Hu as [Hb Hy]. rewrite some_false in Hb. rewrite some_false in Hy.
  apply targets_wf; [done|apply without_NoDup, Hwf|]. intros t' (x & -> & Hx)%list_elem_of_fmap Hor. apply list_elem_of_fmap. exists x. split; [done|].
  apply elem_of_without. split; [done|]. intros He. destruct Hor as [(y & Hk & Hin)%list_elem_of_fmap|(k & Hk & Hin)%list_elem_of_fmap].
  - specialize (Hy y Hin). apply bool_decide_eq_false in Hy. congruence.
  - specialize (Hb k Hin). apply bool_decide_eq_false in Hb. congruence.
Qed.
Lemma create_policy_wf s p db b rowId now db' y : rowId ∉ py_id <$> tb_policies db → createPolicy s p db b rowId now = Ok (db', y) → tables_wf db → tables_wf db'.
Proof.
  unfold createPolicy. intros Hid H Hwf. apply result_bind_Ok in H as (i & _ & H). apply AclEditTheory.orThrow_bind in H as [_ H].
  apply result_bind_Ok in H as (t & (Ht & _ & _)%usableTarget_Ok & H). destruct (includes _ _) eqn:Hi; [done|]. simplify_eq.
  pose proof Hwf as (_ & H2 & H3 & _ & H5 & _).
  apply policies_wf; [done|rewrite fmap_app; by apply NoDup_app_one|rewrite fmap_app; apply NoDup_app_one; [done|by apply includes_false in Hi]|].
  intros z [Hz|Hz]%elem_of_app; [by apply H5|]. apply list_elem_of_singleton in Hz as ->. apply list_elem_of_fmap. eauto.
Qed.
Lemma patch_policy_wf s p db id b db' : patchPolicy s p db id b = Ok db' → tables_wf db → tables_wf db'.
Proof.
  unfold patchPolicy. intros H Hwf. apply result_bind_Ok in H as (y & Hy%managedPolicy_Ok & H). apply result_bind_Ok in H as ([] & Ht & H).
  apply AclEditTheory.orThrow_bind in H as [_ H].
  destruct (_ || _) eqn:Hu; [done|]. simplify_eq. apply orb_false_iff in Hu as [He Hi]. apply bool_decide_eq_false in He. apply includes_false in Hi.
  pose proof Hwf as (_ & H2 & H3 & _ & H5 & _). apply policies_wf; [done|by rewrite on_id_fmap|by apply on_id_NoDup|].
  intros z [[Hz _]|(u & Hu & _ & ->)]%elem_of_on_id; [by apply H5|]. cbn. destruct (pp_targetId b) as [x|] eqn:Hx; [|by apply (H5 u)]. cbn in *.
  destruct (truthy_str x) eqn:Htr; [|unfold truthy_str in Htr; apply negb_false_iff, bool_decide_eq_true in Htr; congruence].
  apply result_bind_Ok in Ht as (t & (Ht & <- & _)%usableTarget_Ok & _). apply list_elem_of_fmap. eauto.
Qed.
Lemma delete_policy_wf s p db id db' : deletePolicy s p db id = Ok db' → tables_wf db → tables_wf db'.
Proof.
  unfold deletePolicy. intros H Hwf. apply result_bind_Ok in H as (y & _ & H). simplify_eq. pose proof Hwf as (_ & H2 & H3 & _ & H5 & H6).
  apply policies_wf; [apply backups_wf; [done|]|by apply without_NoDup..|].
  - intros k (z & -> & Hz)%list_elem_of_fmap. case_bool_decide; by apply (H6 z).
  - intros z [Hz _]%elem_of_without. by apply H5.
Qed.

Lemma turn_keeps_tables db db' : turn db db' → tables_wf db → tables_wf db'.
Proof.
  intros Ht Hwf. destruct Ht as [* H|* H|* H|* H|* H|* H|* H|* H|* H|* H|* H|* H|* Hid H|* H|* H|* H|rows H].
  - by eapply migrate_wf.
  - by eapply replicate_wf.
  - unfold patchReplication in H. apply result_bind_Ok in H as (r & _ & H). apply AclEditTheory.orThrow_bind in H as [_ H]. simplify_eq. apply replication_wf; [done|]. rewrite on_id_fmap; [apply Hwf|done].
  - unfold deleteReplication in H. apply result_bind_Ok in H as (r & _ & H). simplify_eq. apply replication_wf; [done|]. apply without_NoDup, Hwf.
  - by eapply run_replication_wf.
  - by eapply failover_wf.
  - by eapply create_target_wf.
  - by eapply patch_target_wf.
  - by eapply delete_target_wf.
  - by eapply backup_wf.
  - unfold deleteBackup in H. apply result_bind_Ok in H as (b & _ & H). do 2 apply AclEditTheory.orThrow_bind in H as [_ H].
    apply result_bind_Ok in H as (t & _ & H). apply result_bind_Ok in H as ([] & _ & H). simplify_eq. apply backups_wf; [done|].
    intros z [Hz _]%elem_of_without. by apply Hwf.
  - by eapply restore_wf.
  - by eapply create_policy_wf.
  - by eapply patch_policy_wf.
  - by eapply delete_policy_wf.
  - by eapply run_policy_wf.
  - by apply backups_wf.
Qed.

(** C27: whatever requests follow each other, no two policies keep one instance at one target, nor two replicate it to one
    cluster, and every backup and every policy has its target. *)
Theorem requests_keep_tables db db' : tables_wf db → rtc turn db db' → tables_wf db'.
Proof. intros Hwf Hr. by eapply (rtc_preserves turn tables_wf); [intros x y Hx Hy; eapply turn_keeps_tables|..]. Qed.

(** C26: an instance is only sent, by a migration, a replication or a restore, by someone who may do that to it, and only
    where the caller may create instances: anywhere on a cluster where that is theirs everywhere, else into their
    tenant's ready placement there, with no choice of pool or transport. A migration passed its preflight, and a backup
    that is restored is ready. *)
Theorem sent_where_allowed JSON_parse s p inspect db :
  (∀ id b jobId now db' job m, migrate JSON_parse s p inspect db id b jobId now = Ok (db', job, m) →
     ∃ i facts, sees_instance s p db (sn_row i) (sn_path i) ∧ Acl.can s p "instance.relocate" (sn_path i) None = true
     ∧ (Mobility.mp_sourceClusterId m, Mobility.mp_sourceProject m, Mobility.mp_name m) = (ir_clusterId (sn_row i), ir_project (sn_row i), ir_name (sn_row i))
     ∧ may_send s p db (sn_tenantId i) (Mobility.mp_targetClusterId m) (Mobility.mp_targetProject m) (Mobility.mp_pool m) (Mobility.mp_transport m)
     ∧ Preflight.problems (Preflight.preflight JSON_parse facts) = [] ∧ Preflight.i_targetName facts = Mobility.mp_targetName m ∧ Preflight.i_mode facts = Mobility.mp_mode m)
  ∧ (∀ b rowId now db' r, createReplication s p db b rowId now = Ok (db', r) →
     ∃ i, sees_instance s p db (sn_row i) (sn_path i) ∧ Acl.can s p "replication.manage" (sn_path i) None = true
     ∧ replication_key (rp_policy r) = (ir_clusterId (sn_row i), ir_project (sn_row i), ir_name (sn_row i), Services.po_targetClusterId (rp_policy r))
     ∧ may_send s p db (sn_tenantId i) (Services.po_targetClusterId (rp_policy r)) (Services.po_targetProject (rp_policy r)) None Transfer.Auto)
  ∧ (∀ id b jobId now db' job m, restoreBackup s p db id b jobId now = Ok (db', job, m) →
     ∃ k, k ∈ tb_backups db ∧ br_id k = Restore.re_backupId m ∧ may_backup s p "backup.restore" k = true ∧ br_state k = Services.Ready
     ∧ may_send s p db (br_tenantId k) (Restore.re_targetClusterId m) (Restore.re_targetProject m) (Restore.re_pool m) Transfer.Auto).
Proof.
  split_and!.
  - intros id b jobId now db' job m H. unfold migrate in H. apply result_bind_Ok in H as (n & Hn & H). apply AclEditTheory.orThrow_bind in H as [Hok H].
    apply result_bind_Ok in H as ([db1 j1] & _ & H). simplify_eq. unfold plan in Hn. apply result_bind_Ok in Hn as (i & Hi%seen_Ok & Hn).
    apply result_bind_Ok in Hn as (w & [Hp Hw]%resolved & Hn). apply result_bind_Ok in Hn as (facts & _ & Hn). simplify_eq.
    eexists i, _. split_and!; [done..| |exact (proj1 (bool_decide_eq_true _) Hok)|done|done].
    destruct Hw as (c & Hc & Hid & Hd & [Hcan|(Hpool & Htr & Hpl)]); exists c; (split_and!; [done..|]); [by left|right]. cbn in *. by rewrite Hpool.
  - intros b rowId now db' r H. unfold createReplication in H. apply result_bind_Ok in H as (i & Hi%seen_Ok & H).
    apply result_bind_Ok in H as (w & [Hp Hw]%resolved & H). destruct (includes _ _); [done|]. simplify_eq. exists i. split_and!; [done..|].
    destruct Hw as (c & Hc & Hid & Hd & [Hcan|(Hpool & Htr & Hpl)]); exists c; (split_and!; [done..|]); [by left|by right].
  - intros id b jobId now db' job m H. unfold restoreBackup in H. apply result_bind_Ok in H as (k & Hk & H).
    apply AclEditTheory.orThrow_bind in H as [Hr H]. apply AclEditTheory.orThrow_bind in H as [Hst H]. apply result_bind_Ok in H as (w & Hw%restored & H).
    apply result_bind_Ok in H as ([db1 j1] & _ & H). simplify_eq. unfold loadBackup in Hk. apply result_bind_Ok in Hk as (k' & (Hin & _)%by_uuid_Ok & [_ Hk]%AclEditTheory.orThrow_bind).
    simplify_eq. exists k. split_and!; [done|done|done|by destruct (br_state k)|].
    destruct Hw as (c & Hc & Hid & Hd & [Hcan|(Hpool & Htr & Hpl)]); exists c; (split_and!; [done..|]); [by left|right]. cbn in *. by rewrite Hpool.
Qed.

(** A row goes only once its object is gone, and no other row goes with it. *)
Theorem row_outlives_object s p erase db id db' : deleteBackup s p erase db id = Ok db' →
  ∃ b t, b ∈ tb_backups db ∧ may_backup s p "backup.delete" b = true ∧ br_state b ≠ Services.Creating
  ∧ t ∈ tb_targets db ∧ erase t (br_objectKey b) = Ok tt ∧ tb_backups db' = without br_id (br_id b) (tb_backups db).
Proof.
  unfold deleteBackup. intros H. apply result_bind_Ok in H as (b & Hb & H). apply AclEditTheory.orThrow_bind in H as [Hd H].
  apply AclEditTheory.orThrow_bind in H as [Hst H]. apply result_bind_Ok in H as (t & (Ht & _ & _)%by_uuid_Ok & H). apply result_bind_Ok in H as ([] & He & H). simplify_eq.
  unfold loadBackup in Hb. apply result_bind_Ok in Hb as (b' & (Hin & _)%by_uuid_Ok & [_ Hb]%AclEditTheory.orThrow_bind). simplify_eq.
  exists b, t. split_and!; [done..| |done|done|done]. by destruct (br_state b).
Qed.

(** ** Examples *)

Definition uuid_i : string := "00000000-0000-0000-0000-0000000000c1".
Definition uuid_c : string := "00000000-0000-0000-0000-0000000000aa".
Definition uuid_t1 : string := "00000000-0000-0000-0000-0000000000d1".
Definition uuid_t2 : string := "00000000-0000-0000-0000-0000000000d2".
Definition uuid_y (n : string) : string := "00000000-0000-0000-0000-0000000000e" +++ n.
Definition demo_p : Acl.PrincipalId := {| Acl.p_service := false; Acl.p_id := "u1" |}.
Definition demo_s : Acl.Snapshot := Acl.load 0
  {| Acl.r_explicit := [{| Acl.ae_id := "e"; Acl.ae_path := "/"; Acl.ae_role := "administrator"; Acl.ae_propagate := true; Acl.ae_userId := Some "u1";
       Acl.ae_serviceAccountId := None; Acl.ae_groupId := None; Acl.ae_tenantGroupId := None; Acl.ae_createdBy := None |}];
     Acl.r_roles := []; Acl.r_members := []; Acl.r_accounts := []; Acl.r_people := [{| Acl.u_id := "u1"; Acl.u_disabled := false |}];
     Acl.r_places := []; Acl.r_tenants := []; Acl.r_clusters := [(uuid_c, "one")]; Acl.r_owned := []; Acl.r_k8s := []; Acl.r_inventoried := [];
     Acl.r_grouped := []; Acl.r_memberGroups := []; Acl.r_located := [] |}.
Definition demo_target (id name : string) : TargetRow :=
  {| tg_id := id; tg_name := name; tg_endpoint := "https://s3"; tg_region := ""; tg_bucket := "b"; tg_prefix := ""; tg_accessKeyId := "k";
     tg_secretKeyEnc := "x"; tg_enabled := true |}.
Definition demo_tables : Tables :=
  {| tb_cloud := {| cd_tenants := []; cd_placements := [];
       cd_clusters := [{| cr_id := uuid_c; cr_name := "one"; cr_url := "https://one:8443"; cr_status := "ready"; cr_labels := []; cr_members := [] |}];
       cd_instances := []; cd_owned := []; cd_backups := []; cd_shares := []; cd_jobs := []; cd_k8s := [] |};
     tb_instances := [{| ir_id := uuid_i; ir_clusterId := uuid_c; ir_project := "default"; ir_name := "web" |}]; tb_replication := [];
     tb_targets := [demo_target uuid_t1 "first"; demo_target uuid_t2 "second"]; tb_backups := []; tb_policies := [] |}.
Definition demo_policy (target : string) : PolicyBody := {| pb_instanceId := uuid_i; pb_targetId := target; pb_intervalS := None; pb_keep := None; pb_instanceOnly := None |}.
Definition after {A} (r : result (Tables * A)) : Tables := match r with Ok (db, _) => db | Throw _ => demo_tables end.
Definition one_policy : Tables := after (createPolicy demo_s demo_p demo_tables (demo_policy uuid_t1) (uuid_y "1") 0).
Definition two_policies : Tables := after (createPolicy demo_s demo_p one_policy (demo_policy uuid_t2) (uuid_y "2") 0).

Lemma policy_made db b id : is_ok (createPolicy demo_s demo_p db b id 0) = true → id ∉ py_id <$> tb_policies db → turn db (after (createPolicy demo_s demo_p db b id 0)).
Proof. destruct (createPolicy _ _ _ _ _ _) as [[db' y]|] eqn:H; [|done]. intros _ Hid. by eapply did_create_policy. Qed.
Lemma requests_keep_tables_witness : tables_wf demo_tables ∧ rtc turn demo_tables two_policies ∧ tables_wf two_policies ∧ length (tb_policies two_policies) = 2%nat.
Proof.
  assert (tables_wf demo_tables) as Hwf.
  { split_and!; [apply (bool_decide_eq_true_1 (NoDup _)); vm_compute; reflexivity|apply NoDup_nil_2..|]. split; intros x Hx; by apply not_elem_of_nil in Hx. }
  assert (rtc turn demo_tables two_policies) as Hr.
  { eapply rtc_l; [|eapply rtc_l; [|apply rtc_refl]]; apply policy_made; [vm_compute; reflexivity|apply not_elem_of_nil|vm_compute; reflexivity|].
    apply (bool_decide_eq_true_1 (uuid_y "2" ∉ _)). vm_compute. reflexivity. }
  split_and!; [done|done|exact (requests_keep_tables demo_tables two_policies Hwf Hr)|vm_compute; reflexivity].
Defined.

(** Moving a policy to a target that another policy of the instance has is refused by the database alone, as an
    internal error, where creating such a policy is told to conflict. *)
Theorem moved_policy_internal_error :
  createPolicy demo_s demo_p two_policies (demo_policy uuid_t2) (uuid_y "3") 0 = throw 409 "conflict" "This instance already has a policy for that target"
  ∧ patchPolicy demo_s demo_p two_policies (uuid_y "1")
      {| pp_enabled := None; pp_intervalS := None; pp_keep := None; pp_instanceOnly := None; pp_targetId := Some uuid_t2 |} = throw 500 "internal" "Internal error".
Proof. vm_compute. done. Qed.

(** A body that changes nothing is answered with an internal error. *)
Theorem empty_patch_internal_error :
  patchPolicy demo_s demo_p two_policies (uuid_y "1")
    {| pp_enabled := None; pp_intervalS := None; pp_keep := None; pp_instanceOnly := None; pp_targetId := None |} = throw 500 "internal" "Internal error".
Proof. vm_compute. done. Qed.

(** The cluster of an instance is compared with the target as it is written, so that in upper case the instance may be
    sent to the cluster it is on. *)
Theorem sent_to_its_own_cluster :
  let to id := {| sb_targetClusterId := id; sb_targetProject := Some "other"; sb_pool := None; sb_transport := None |} in
  let target id := i ← visibleInventoryInstance demo_s demo_p demo_tables uuid_i; w ← resolveTarget demo_s demo_p demo_tables i (to id) "instance.relocate"; Ok (cr_id (wh_cluster w)) in
  target uuid_c = throw 400 "invalid_request" "The instance is already on that cluster"
  ∧ target "00000000-0000-0000-0000-0000000000AA" = Ok uuid_c.
Proof. vm_compute. done. Qed.

Definition ready_backup : BackupRow :=
  {| br_id := uuid_y "9"; br_tenantId := None; br_policyId := None; br_targetId := uuid_t1; br_objectKey := "web/1.tar.gz"; br_clusterId := Some uuid_c;
     br_project := "default"; br_instanceName := "web"; br_state := Services.Ready; br_sizeBytes := None; br_createdBy := "user:u1"; br_createdAt := 0 |}.
Definition demo_restore : result (Tables * Jobs.Job * Restore.RestorePayload) :=
  restoreBackup demo_s demo_p (with_backups demo_tables [ready_backup]) (uuid_y "9")
    {| re_targetClusterId := uuid_c; re_targetName := Some "web2"; re_targetProject := None; re_pool := Some "fast"; re_start := None |} "j1" 0.
Lemma is_ok_Ok {A} (r : result A) : is_ok r = true → ∃ x, r = Ok x.
Proof. destruct r; [eauto|done]. Qed.
Lemma sent_where_allowed_witness : is_ok demo_restore = true ∧ ∃ db' job m, demo_restore = Ok (db', job, m)
  ∧ may_send demo_s demo_p (with_backups demo_tables [ready_backup]) None (Restore.re_targetClusterId m) (Restore.re_targetProject m) (Restore.re_pool m) Transfer.Auto.
Proof.
  assert (is_ok demo_restore = true) as Hok by (vm_compute; reflexivity). split; [done|].
  destruct (is_ok_Ok _ Hok) as ([[db' job] m] & E). exists db', job, m. split; [done|].
  destruct (sent_where_allowed (λ _, None) demo_s demo_p (λ _ _ _ _ _, throw 500 "" "") (with_backups demo_tables [ready_backup])) as (_ & _ & H).
  clear Hok. destruct (H _ _ _ _ _ _ _ E) as (k & Hk & _ & _ & _ & Hm). cbn [tb_backups with_backups] in Hk.
  apply list_elem_of_singleton in Hk. rewrite Hk in Hm. exact Hm.
Defined.
