(* ===== verification/Suggest.v ===== *)
(** * Suggest: moves between a tenant's clusters

    Models [balancing/suggest.ts]. Percentages are exact rationals where the
    source has doubles. *)

From S2P Require Import Prelude JsString Digits.
From Stdlib Require Import QArith.QArith QArith.Qround Lqa.
Open Scope Q_scope.

Record Cluster := { k_id : string; k_name : string; k_memoryTotal : Z; k_memoryUsed : Z }.
Record Placement := { p_tenantId : string; p_tenantSlug : string; p_clusterId : string; p_project : string }.
Record Instance_ := { n_id : string; n_clusterId : string; n_project : string; n_name : string; n_status : string; n_memoryUsed : option Z }.

Record SuggestInput := {
  threshold : Q; clusters : list Cluster; placements : list Placement; instances : list Instance_;
}.

Record Suggestion := {
  g_tenantId : string; g_tenantSlug : string; g_instanceId : string; g_project : string; g_name : string; g_memoryBytes : Z;
  g_fromClusterId : string; g_fromClusterName : string; g_toClusterId : string; g_toClusterName : string;
  g_toProject : string; g_reason : string;
}.

Definition PER_TENANT : nat := 5.
Global Arguments PER_TENANT : simpl never.
Global Arguments Nat.leb : simpl nomatch.

Definition pct (used total : Z) : Q := inject_Z (used * 100) / inject_Z total.

(** [Math.abs] and [Math.round] *)
Definition abs (x : Q) : Q := if Qle_bool 0 x then x else - x.
Definition round (x : Q) : Z := Qfloor (x + (1 # 2)).

(** Clusters with memory, by id; a later one of the same id wins. *)
Definition by_id (cs : list Cluster) : js_map string Cluster :=
  foldl (λ m c, map_set m (k_id c) c) [] (js_filter (λ c, Z.ltb 0 (k_memoryTotal c)) cs).

Definition by_tenant (known : js_map string Cluster) (ps : list Placement) : js_map string (list Placement) :=
  foldl (λ m p, if map_has known (p_clusterId p) then map_set m (p_tenantId p) (default [] (map_get m (p_tenantId p)) ++ [p]) else m) [] ps.

Section suggest.
Context `{Locale}.

Definition load (c : Cluster) : Q := pct (k_memoryUsed c) (k_memoryTotal c).
Definition by_load (known : js_map string Cluster) (a b : Placement) : comparison :=
  let l p := default 0 (load <$> map_get known (p_clusterId p)) in
  cmp_then (l b ?= l a) (locale_compare (p_clusterId a) (p_clusterId b)).

Definition memory (i : Instance_) : Z := default 0%Z (n_memoryUsed i).
Definition by_memory (a b : Instance_) : comparison :=
  cmp_then (memory b ?= memory a)%Z (locale_compare (n_name a) (n_name b)).

Definition candidates (l : list Instance_) (hot : Cluster) (project : string) : list Instance_ :=
  js_sort by_memory
    (js_filter (λ i, bool_decide (n_clusterId i = k_id hot) && bool_decide (n_project i = project)
                     && bool_decide (n_status i = "Running") && Z.ltb 0 (memory i)) l).

(** The loop over the candidates: which are suggested. *)
Definition gap (hot cool : Cluster) (hotUsed coolUsed : Z) : Q :=
  pct hotUsed (k_memoryTotal hot) - pct coolUsed (k_memoryTotal cool).

Fixpoint pick (thr : Q) (hot cool : Cluster) (hotUsed coolUsed : Z) (n : nat) (l : list Instance_) : list Instance_ :=
  match l with
  | [] => []
  | i :: l =>
      let before := abs (gap hot cool hotUsed coolUsed) in
      if (PER_TENANT <=? n)%nat || Qle_bool before thr then []
      else
        let m := memory i in
        if Qle_bool before (abs (gap hot cool (hotUsed - m) (coolUsed + m))) then pick thr hot cool hotUsed coolUsed n l
        else i :: pick thr hot cool (hotUsed - m) (coolUsed + m) (S n) l
  end.

Definition suggestion (hotP coolP : Placement) (hot cool : Cluster) (tenantId : string) (i : Instance_) : Suggestion :=
  {| g_tenantId := tenantId; g_tenantSlug := p_tenantSlug hotP; g_instanceId := n_id i; g_project := n_project i; g_name := n_name i;
     g_memoryBytes := memory i; g_fromClusterId := k_id hot; g_fromClusterName := k_name hot; g_toClusterId := k_id cool;
     g_toClusterName := k_name cool; g_toProject := p_project coolP;
     g_reason := k_name hot +++ " is at " +++ show_Z (round (load hot)) +++ "% memory, " +++ k_name cool +++ " at "
                 +++ show_Z (round (load cool)) +++ "%" |}.

Definition for_tenant (input : SuggestInput) (known : js_map string Cluster) (tp : string * list Placement) : list Suggestion :=
  let '(tenantId, places) := tp in
  if (length places <? 2)%nat then []
  else
    let ranked := js_sort (by_load known) places in
    match head ranked, last ranked with
    | Some hotP, Some coolP =>
        match map_get known (p_clusterId hotP), map_get known (p_clusterId coolP) with
        | Some hot, Some cool =>
            if Qle_bool (gap hot cool (k_memoryUsed hot) (k_memoryUsed cool)) (threshold input) then []
            else
              suggestion hotP coolP hot cool tenantId
              <$> pick (threshold input) hot cool (k_memoryUsed hot) (k_memoryUsed cool) 0 (candidates (instances input) hot (p_project hotP))
        | _, _ => []
        end
    | _, _ => []
    end.

Definition suggest (input : SuggestInput) : list Suggestion :=
  let known := by_id (clusters input) in
  js_sort (λ a b, locale_compare a.1 b.1) (by_tenant known (placements input)) ≫= for_tenant input known.
End suggest.

(** ** Each suggestion narrows the gap *)

Lemma abs_cases x : (0 <= x /\ abs x == x) \/ (x <= 0 /\ abs x == - x).
Proof.
  unfold abs. destruct (Qle_bool 0 x) eqn:E.
  - left. apply Qle_bool_iff in E. split; [done|reflexivity].
  - right. split; [|reflexivity]. destruct (Qlt_le_dec 0 x) as [Hl|]; [|done].
    apply Qlt_le_weak, Qle_bool_iff in Hl. congruence.
Qed.

Lemma Qle_bool_false a b : Qle_bool a b = false ↔ b < a.
Proof.
  split.
  - intros Hf. apply Qnot_le_lt. intros Hl. apply Qle_bool_iff in Hl. congruence.
  - intros Hl. destruct (Qle_bool a b) eqn:E; [|done]. apply Qle_bool_iff in E. exfalso. by apply (Qlt_not_le _ _ Hl).
Qed.

(** What a move of [m] bytes takes off the difference. *)
Definition step (hot cool : Cluster) (m : Z) : Q := pct m (k_memoryTotal hot) + pct m (k_memoryTotal cool).

Lemma pct_add a b t : (0 < t)%Z → pct (a + b) t == pct a t + pct b t.
Proof.
  intros Ht. unfold pct. rewrite Z.mul_add_distr_r, inject_Z_plus. field.
  intros Heq. apply (inject_Z_injective t 0) in Heq. lia.
Qed.

Lemma pct_pos m t : (0 < t)%Z → (0 < m)%Z → 0 < pct m t.
Proof.
  intros Ht Hm. unfold pct. apply Qlt_shift_div_l.
  - change 0 with (inject_Z 0). by rewrite <-Zlt_Qlt.
  - rewrite Qmult_0_l. change 0 with (inject_Z 0). rewrite <-Zlt_Qlt. lia.
Qed.

Lemma pct_opp m t : (0 < t)%Z → pct (- m) t == - pct m t.
Proof.
  intros Ht. unfold pct. rewrite Z.mul_opp_l, inject_Z_opp. field.
  intros Heq. apply (inject_Z_injective t 0) in Heq. lia.
Qed.

Lemma gap_move hot cool hu cu m : (0 < k_memoryTotal hot)%Z → (0 < k_memoryTotal cool)%Z →
  gap hot cool (hu - m) (cu + m) == gap hot cool hu cu - step hot cool m.
Proof.
  intros Hh Hc. unfold gap, step. unfold Z.sub. rewrite !pct_add, pct_opp by done. ring.
Qed.

(** The suggestions made from a difference on: every one is asked for by the threshold and narrows it. *)
Fixpoint narrows (thr : Q) (hot cool : Cluster) (hu cu : Z) (l : list Instance_) : Prop :=
  match l with
  | [] => True
  | i :: l =>
      let '(hu', cu') := (hu - memory i, cu + memory i)%Z in
      thr < abs (gap hot cool hu cu) ∧ abs (gap hot cool hu' cu') < abs (gap hot cool hu cu)
      ∧ narrows thr hot cool hu' cu' l
  end.

Definition moved (l : list Instance_) : Z := foldr (λ i acc, memory i + acc)%Z 0%Z l.

Section theory.
Context (thr : Q) (hot cool : Cluster).
Context (Hhot : (0 < k_memoryTotal hot)%Z) (Hcool : (0 < k_memoryTotal cool)%Z).

Abbreviation gap := (gap hot cool).

Lemma step_pos m : (0 < m)%Z → 0 < step hot cool m.
Proof using Hhot Hcool.
  intros Hm. unfold step. pose proof (pct_pos m _ Hhot Hm). pose proof (pct_pos m _ Hcool Hm). lra.
Qed.

(** A move that does not narrow a difference does not narrow what other moves left of it. *)
Definition useless (i : Instance_) (hu cu : Z) : Prop := abs (gap hu cu) <= abs (gap (hu - memory i) (cu + memory i)).

Lemma useless_later i hu cu hu' cu' :
  (0 < memory i)%Z → useless i hu cu → gap hu' cu' <= gap hu cu → useless i hu' cu'.
Proof using Hhot Hcool.
  unfold useless. intros Hi Hu Hle.
  pose proof (gap_move hot cool hu cu (memory i) Hhot Hcool) as E1.
  pose proof (gap_move hot cool hu' cu' (memory i) Hhot Hcool) as E2.
  pose proof (step_pos _ Hi) as Hs.
  revert Hu Hle E1 E2 Hs. generalize (gap hu cu), (gap (hu - memory i) (cu + memory i)), (gap hu' cu'),
    (gap (hu' - memory i) (cu' + memory i)), (step hot cool (memory i)). intros a b c d e Hu Hle E1 E2 Hs.
  destruct (abs_cases a) as [[??]|[??]], (abs_cases b) as [[??]|[??]], (abs_cases c) as [[??]|[??]], (abs_cases d) as [[??]|[??]]; lra.
Qed.

Lemma pick_sublist hu cu n l : pick thr hot cool hu cu n l `sublist_of` l.
Proof.
  revert hu cu n. induction l as [|i l IH]; intros hu cu n; simpl; [done|].
  destruct (_ || _); [apply sublist_nil_l|]. destruct (Qle_bool _ _); constructor; apply IH.
Qed.

Lemma pick_length hu cu n l : (length (pick thr hot cool hu cu n l) ≤ PER_TENANT - n)%nat.
Proof.
  revert hu cu n. induction l as [|i l IH]; intros hu cu n; simpl; [lia|].
  destruct (PER_TENANT <=? n)%nat eqn:E; simpl; [lia|]. apply Nat.leb_gt in E.
  destruct (Qle_bool _ thr); simpl; [lia|]. destruct (Qle_bool _ _); simpl; [apply IH|].
  specialize (IH (hu - memory i)%Z (cu + memory i)%Z (S n)). lia.
Qed.

Lemma pick_narrows hu cu n l : narrows thr hot cool hu cu (pick thr hot cool hu cu n l).
Proof.
  revert hu cu n. induction l as [|i l IH]; intros hu cu n; simpl; [done|].
  destruct (PER_TENANT <=? n)%nat; simpl; [done|].
  destruct (Qle_bool _ thr) eqn:Et; simpl; [done|]. destruct (Qle_bool (abs (gap hu cu)) (abs _)) eqn:Eu; [apply IH|].
  apply Qle_bool_false in Et, Eu. simpl. split_and!; [done|done|apply IH].
Qed.

(** Where the loop stops nothing is left that would help. *)
Lemma pick_complete l : (∀ i, i ∈ l → (0 < memory i)%Z) → ∀ hu cu n,
  let out := pick thr hot cool hu cu n l in
  let '(hu', cu') := (hu - moved out, cu + moved out)%Z in
  gap hu' cu' <= gap hu cu
  ∧ ((n + length out)%nat = PER_TENANT ∨ (PER_TENANT ≤ n)%nat ∨ abs (gap hu' cu') <= thr
     ∨ ∀ i, i ∈ l → i ∈ out ∨ useless i hu' cu').
Proof using Hhot Hcool.
  induction l as [|i l IH]; intros Hl hu cu n; simpl.
  - rewrite Z.sub_0_r, Z.add_0_r. split; [apply Qle_refl|]. right; right; right. intros i Hi. by apply elem_of_nil in Hi.
  - assert (∀ j, j ∈ l → (0 < memory j)%Z) as Hl' by (intros; apply Hl; by right).
    destruct (PER_TENANT <=? n)%nat eqn:En; simpl.
    { rewrite Z.sub_0_r, Z.add_0_r. split; [apply Qle_refl|]. right; left. by apply Nat.leb_le. }
    destruct (Qle_bool _ thr) eqn:Et; simpl.
    { rewrite Z.sub_0_r, Z.add_0_r. split; [apply Qle_refl|]. right; right; left. by apply Qle_bool_iff. }
    destruct (Qle_bool (abs (gap hu cu)) (abs _)) eqn:Eu.
    + destruct (IH Hl' hu cu n) as [Hle Hstop]. split; [done|].
      destruct Hstop as [?|[?|[?|Hall]]]; [by left|by right; left|by right; right; left|right; right; right].
      intros j [->|Hj]%elem_of_cons; [|by apply Hall]. right. apply Qle_bool_iff in Eu.
      apply (useless_later _ hu cu); [apply Hl; by left|done|done].
    + apply Qle_bool_false in Eu. set (m := memory i) in *.
      destruct (IH Hl' (hu - m)%Z (cu + m)%Z (S n)) as [Hle Hstop]. simpl.
      fold m. set (out := pick thr hot cool (hu - m) (cu + m) (S n) l) in *.
      replace (hu - (m + moved out))%Z with (hu - m - moved out)%Z by lia.
      replace (cu + (m + moved out))%Z with (cu + m + moved out)%Z by lia. split.
      { eapply Qle_trans; [exact Hle|]. pose proof (gap_move hot cool hu cu m Hhot Hcool).
        assert (0 < step hot cool m) by (apply step_pos, Hl; by left). lra. }
      destruct Hstop as [?|[?|[?|Hall]]]; [left; lia| |by right; right; left|].
      * apply Nat.leb_gt in En. left. pose proof (pick_length (hu - m) (cu + m) (S n) l). fold out in H0. lia.
      * right; right; right. intros j [->|Hj]%elem_of_cons; [left; by left|].
        destruct (Hall j Hj) as [?|?]; [left; by right|by right].
Qed.
End theory.

(** ** What a tenant is suggested *)

Section tenant.
Context `{Locale}.

Lemma comparator_Q : Comparator Qcompare.
Proof.
  split.
  - intros x y. symmetry. apply Qcompare_antisym.
  - intros x y z Hxy Hyz. apply Qle_alt in Hxy, Hyz. apply Qle_alt. by eapply Qle_trans.
Qed.

Lemma comparator_by_load known : Comparator (by_load known).
Proof.
  apply comparator_then.
  - apply (comparator_on (λ p, default 0 (load <$> map_get known (p_clusterId p))) (λ a b, Qcompare b a)).
    apply comparator_flip, comparator_Q.
  - apply (comparator_on p_clusterId locale_compare). apply locale_comparator.
Qed.

Lemma by_load_le known a b : by_load known a b ≠ Gt →
  default 0 (load <$> map_get known (p_clusterId b)) <= default 0 (load <$> map_get known (p_clusterId a)).
Proof.
  unfold by_load, cmp_then. intros Hab. apply Qle_alt. by destruct (_ ?= _).
Qed.

Lemma sorted_last {A} (R : A → A → Prop) l z x : StronglySorted R l → last l = Some z → x ∈ l → x = z ∨ R x z.
Proof.
  induction 1 as [|y l Hs IH Hy]; [done|]. intros Hl Hx. destruct l as [|y' l].
  - injection Hl as <-. apply list_elem_of_singleton in Hx. by left.
  - change (last (y' :: l) = Some z) in Hl. apply elem_of_cons in Hx as [->|Hx]; [|by apply IH].
    right. rewrite Forall_forall in Hy. apply Hy. apply last_Some in Hl as [l' ->]. apply elem_of_app. right. by left.
Qed.

Lemma by_id_memory cs k c : map_get (by_id cs) k = Some c → (0 < k_memoryTotal c)%Z.
Proof.
  unfold by_id. intros Hg.
  assert (∀ k c, map_get (foldl (λ m c, map_set m (k_id c) c) [] (js_filter (λ c, Z.ltb 0 (k_memoryTotal c)) cs)) k = Some c
                 → (0 < k_memoryTotal c)%Z) as Hall; [|by eapply Hall].
  apply (foldl_inv (λ m, ∀ k c, map_get m k = Some c → (0 < k_memoryTotal c)%Z)); [done|].
  intros m x Hx Hm k' c'. rewrite map_get_set. case_bool_decide; [|apply Hm]. intros [= <-].
  apply elem_of_js_filter in Hx as [_ Hx]. by apply Z.ltb_lt.
Qed.

(** The candidates are the running instances of the tenant's project there that use memory. *)
Lemma elem_of_candidates l hot project i :
  i ∈ candidates l hot project ↔
  i ∈ l ∧ n_clusterId i = k_id hot ∧ n_project i = project ∧ n_status i = "Running" ∧ (0 < memory i)%Z.
Proof.
  unfold candidates. rewrite elem_of_js_sort, elem_of_js_filter, !andb_true_iff, !bool_decide_eq_true, Z.ltb_lt. tauto.
Qed.

(** A tenant gets suggestions only when the memory use of its fullest cluster exceeds that of its emptiest by
    more than the threshold. They are at most five running instances of the tenant on the first, for the second;
    each was asked for by the threshold and narrows the difference; and after them five were made, or the
    difference is within the threshold, or no other candidate would narrow it. *)
Theorem suggest_narrows input tenant places :
  let known := by_id (clusters input) in
  for_tenant input known (tenant, places) ≠ [] →
  ∃ hotP coolP hot cool out,
    hotP ∈ places ∧ coolP ∈ places ∧ map_get known (p_clusterId hotP) = Some hot ∧ map_get known (p_clusterId coolP) = Some cool
    ∧ (∀ p c, p ∈ places → map_get known (p_clusterId p) = Some c → load cool <= load c ∧ load c <= load hot)
    ∧ threshold input < load hot - load cool
    ∧ for_tenant input known (tenant, places) = suggestion hotP coolP hot cool tenant <$> out
    ∧ (length out ≤ PER_TENANT)%nat
    ∧ (∀ i, i ∈ out → i ∈ candidates (instances input) hot (p_project hotP))
    ∧ narrows (threshold input) hot cool (k_memoryUsed hot) (k_memoryUsed cool) out
    ∧ (let '(hu, cu) := (k_memoryUsed hot - moved out, k_memoryUsed cool + moved out)%Z in
       length out = PER_TENANT ∨ abs (gap hot cool hu cu) <= threshold input
       ∨ ∀ i, i ∈ candidates (instances input) hot (p_project hotP) → i ∈ out ∨ useless hot cool i hu cu).
Proof.
  intros known. unfold for_tenant. destruct (length places <? 2)%nat; [done|].
  pose proof (comparator_by_load known) as Hcmp.
  pose proof (js_sort_sorted (by_load known) places) as Hsorted.
  destruct (head (js_sort (by_load known) places)) as [hotP|] eqn:Eh; [|done].
  destruct (last (js_sort (by_load known) places)) as [coolP|] eqn:El; [|done].
  destruct (map_get known (p_clusterId hotP)) as [hot|] eqn:Ehot; [|done].
  destruct (map_get known (p_clusterId coolP)) as [cool|] eqn:Ecool; [|done].
  destruct (Qle_bool (gap hot cool _ _) _) eqn:Eg; [done|]. apply Qle_bool_false in Eg. intros _.
  assert (∀ p, p ∈ js_sort (by_load known) places → by_load known hotP p ≠ Gt) as Hmax.
  { destruct (js_sort (by_load known) places) as [|x r] eqn:E; [done|]. injection Eh as ->.
    intros p Hp. pose proof (js_sort_head_min (by_load known) places hotP r E) as [_ Hmin].
    apply Hmin. apply (elem_of_js_sort (by_load known)). by rewrite E. }
  assert (∀ p, p ∈ js_sort (by_load known) places → p = coolP ∨ by_load known p coolP ≠ Gt) as Hmin.
  { intros p Hp. by apply (sorted_last _ _ _ _ Hsorted El). }
  pose proof (by_id_memory _ _ _ Ehot) as Hhm. pose proof (by_id_memory _ _ _ Ecool) as Hcm.
  set (out := pick (threshold input) hot cool (k_memoryUsed hot) (k_memoryUsed cool) 0 (candidates (instances input) hot (p_project hotP))).
  exists hotP, coolP, hot, cool, out.
  split. { apply (elem_of_js_sort (by_load known)). destruct (js_sort _ places); [done|]. injection Eh as ->. by left. }
  split. { apply (elem_of_js_sort (by_load known)). apply last_Some in El as [l' ->]. apply elem_of_app. right. by left. }
  split; [done|]. split; [done|]. split.
  { intros p c Hp Hc. apply (elem_of_js_sort (by_load known)) in Hp. split.
    - destruct (Hmin p Hp) as [->|Hle]; [assert (c = cool) as -> by congruence; apply Qle_refl|].
      apply by_load_le in Hle. by rewrite Hc, Ecool in Hle.
    - specialize (Hmax p Hp). apply by_load_le in Hmax. by rewrite Hc, Ehot in Hmax. }
  split; [exact Eg|]. split; [done|]. split; [etrans; [apply pick_length|lia]|].
  split. { intros i Hi. eapply elem_of_sublist; [exact Hi|apply pick_sublist]. }
  split; [apply pick_narrows|].
  destruct (pick_complete (threshold input) hot cool Hhm Hcm (candidates (instances input) hot (p_project hotP))
              ltac:(intros i Hi; by apply elem_of_candidates in Hi as (_ & _ & _ & _ & Hm)) (k_memoryUsed hot) (k_memoryUsed cool) 0) as [_ Hstop].
  fold out in Hstop. destruct Hstop as [?|[Hz|[?|?]]]; [by left| |by right; left|by right; right].
  exfalso. unfold PER_TENANT in Hz. lia.
Qed.
End tenant.

(** ** A concrete input *)

Definition demo_input : SuggestInput :=
  {| threshold := 10;
     clusters := [{| k_id := "1"; k_name := "a"; k_memoryTotal := 100; k_memoryUsed := 90 |}; {| k_id := "2"; k_name := "b"; k_memoryTotal := 100; k_memoryUsed := 10 |}];
     placements := [{| p_tenantId := "t"; p_tenantSlug := "acme"; p_clusterId := "1"; p_project := "acme" |};
                    {| p_tenantId := "t"; p_tenantSlug := "acme"; p_clusterId := "2"; p_project := "acme" |}];
     instances := [{| n_id := "i"; n_clusterId := "1"; n_project := "acme"; n_name := "web"; n_status := "Running"; n_memoryUsed := Some 30%Z |};
                   {| n_id := "j"; n_clusterId := "1"; n_project := "acme"; n_name := "db"; n_status := "Stopped"; n_memoryUsed := Some 20%Z |}] |}.

Example demo_suggest : (g_name <$> @suggest code_unit_locale demo_input) = ["web"].
Proof. by vm_compute. Qed.

Lemma suggest_narrows_witness :
  ∃ out : list Instance_, length (@for_tenant code_unit_locale demo_input (by_id (clusters demo_input)) ("t", placements demo_input)) = length out
  ∧ (length out ≤ PER_TENANT)%nat.
Proof.
  destruct (@suggest_narrows code_unit_locale demo_input "t" (placements demo_input)) as (hotP & coolP & hot & cool & out & Hout).
  { vm_compute. discriminate. }
  destruct Hout as (_ & _ & _ & _ & _ & _ & Heq & Hlen & _). exists out. split; [|exact Hlen].
  etransitivity; [exact (f_equal length Heq)|apply length_fmap].
Defined.
