(* ===== verification/Upgrade.v ===== *)
(** * Upgrade: day-2 edits of a workload cluster

    Models [lib/upgrade.ts], [lib/scale.ts] and [lib/cluster-patch.ts] of the
    Kubernetes agent: which version changes are allowed, and the JSON patch an
    edit of the topology becomes. What the API server does with a patch is the
    interface [JsonPatch]. *)

From S2P Require Import Prelude JsString Digits Effects.
Open Scope Z_scope.

(** ** Versions *)

Record K8sVersion := { major : Z; minor : Z; patch : Z }.

(** [K8S_VERSION_PATTERN.exec] *)
Definition version_groups (version : string) : option (string * string * string) :=
  match version with
  | String v r =>
      if char_is v "v" then
        match split_on "." r with
        | [a; b; c] => if every all_digits [a; b; c] then Some (a, b, c) else None
        | _ => None
        end
      else None
  | EmptyString => None
  end.

Definition parseK8sVersion (version : string) : option K8sVersion :=
  (λ '(a, b, c), {| major := digits_val a; minor := digits_val b; patch := digits_val c |})
    <$> version_groups (trim version).

(** [x || y] on numbers. *)
Definition or_Z (x y : Z) : Z := if truthy_Z x then x else y.

Definition compareK8sVersions (a b : K8sVersion) : Z :=
  or_Z (or_Z (major a - major b) (minor a - minor b)) (patch a - patch b).

(** The text of the arrow in the messages. *)
Definition arrow : string := " → ".

Definition upgradeError (current target : string) : option string :=
  match parseK8sVersion target, parseK8sVersion current with
  | None, _ => Some ("invalid Kubernetes version '" +++ target +++ "' (expected vX.Y.Z)")
  | Some _, None => Some ("the cluster's current version '" +++ current +++ "' is not a vX.Y.Z version")
  | Some to, Some from =>
      let order := compareK8sVersions to from in
      if order =? 0 then Some ("the cluster already runs " +++ current)
      else if order <? 0 then Some ("downgrades are not supported (" +++ current +++ arrow +++ target +++ ")")
      else if negb (major to =? major from) then
        Some ("major version upgrades are not supported (" +++ current +++ arrow +++ target +++ ")")
      else if 1 <? minor to - minor from then
        Some ("upgrade one minor version at a time: v" +++ show_Z (major from) +++ "." +++ show_Z (minor from + 1)
              +++ ".x is next after " +++ current)
      else None
  end.

(** [variables?.KEY] of a create request. *)
Definition variable (variables : option (js_map string string)) (key : string) : option string :=
  variables ≫= λ m, map_get m key.

Definition customImageError (variables : option (js_map string string)) : option string :=
  match trim <$> variable variables "LXC_IMAGE_NAME" with
  | Some image =>
      if truthy_str image then
        if bool_decide (variable variables "INSTALL_KUBEADM" = Some "true") then None
        else Some ("the cluster uses the custom node image '" +++ image
                   +++ "', which does not change with the Kubernetes version; recreate the cluster to move to a new version")
      else None
  | None => None
  end.

(** ** The topology *)

Record MachineDeployment := { md_name : option string; md_replicas : option Z }.

Record Topology := {
  version : option string;
  controlPlane_replicas : option Z;
  machineDeployments : option (list MachineDeployment);
}.

(** [cluster.spec?.topology] *)
Record ClusterObject := { topology : option Topology }.

Record DesiredCounts := { desired_controlPlane : option Z; desired_workers : option Z }.

Definition desiredCounts (cluster : ClusterObject) : DesiredCounts :=
  {| desired_controlPlane := topology cluster ≫= controlPlane_replicas;
     desired_workers :=
       foldl (λ sum g, sum + default 0 (md_replicas g)) 0 <$> (topology cluster ≫= machineDeployments) |}.

(** ** Requests *)

Record ClusterPatchRequest := {
  controlPlaneCount : option Z;
  workerCount : option Z;
  kubernetesVersion : option string;
}.

Definition within (lo hi n : Z) : bool := (lo <=? n) && (n <=? hi).

(** [scaleFields]: what the schema takes for each count. *)
Definition controlPlaneCount_ok (n : Z) : bool := within 1 9 n && (n mod 2 =? 1).
Definition workerCount_ok (n : Z) : bool := within 0 100 n.

Definition optional {A} (p : A → bool) (o : option A) : bool :=
  match o with Some x => p x | None => true end.

Definition defined {A} (o : option A) : bool := match o with Some _ => true | None => false end.

Definition ScaleBody (b : ClusterPatchRequest) : bool :=
  optional controlPlaneCount_ok (controlPlaneCount b) && optional workerCount_ok (workerCount b)
  && (defined (controlPlaneCount b) || defined (workerCount b)).

Definition ClusterPatchBody (b : ClusterPatchRequest) : bool :=
  optional controlPlaneCount_ok (controlPlaneCount b) && optional workerCount_ok (workerCount b)
  && optional (λ v, defined (version_groups v)) (kubernetesVersion b)
  && (defined (controlPlaneCount b) || defined (workerCount b) || defined (kubernetesVersion b)).

(** ** Patches *)

Inductive PatchValue := VNum (n : Z) | VStr (s : string).

Inductive JsonPatchOp :=
  | OpAdd (path : string) (v : PatchValue)
  | OpReplace (path : string) (v : PatchValue)
  | OpTest (path : string) (v : PatchValue).

#[global] Instance PatchValue_eq_dec : EqDecision PatchValue.
Proof. solve_decision. Defined.

(** [PatchRejected] is the caller's fault (HTTP 400), any other [Error] is not. *)
Inductive PatchError := PatchRejected (m : string) | OtherError (m : string).

(** Operations, or what is thrown. *)
Definition patched : Type := PatchError + list JsonPatchOp.

Definition version_path : string := "/spec/topology/version".
Definition controlPlane_path : string := "/spec/topology/controlPlane/replicas".
Definition group_path : string := "/spec/topology/workers/machineDeployments/0/name".
Definition workers_path : string := "/spec/topology/workers/machineDeployments/0/replicas".

(** [machineDeployments?.[0]?.name] when it is truthy. *)
Definition worker_group (cluster : ClusterObject) : option string :=
  match ((topology cluster ≫= machineDeployments) ≫= head) ≫= md_name with
  | Some name => if truthy_str name then Some name else None
  | None => None
  end.

Definition buildScalePatch (cluster : ClusterObject) (cp workers : option Z) : patched :=
  let ops := match cp with Some n => [OpAdd controlPlane_path (VNum n)] | None => [] end in
  match workers with
  | None => inr ops
  | Some n =>
      match worker_group cluster with
      | None => inl (OtherError "cluster has no worker group (machineDeployment) to scale")
      | Some name => inr (ops ++ [OpTest group_path (VStr name); OpAdd workers_path (VNum n)])
      end
  end.

Definition version_ops (cluster : ClusterObject) (target : string) : patched :=
  match topology cluster ≫= version with
  | Some current =>
      if truthy_str current then
        match upgradeError current target with
        | Some error => inl (PatchRejected error)
        | None => inr [OpTest version_path (VStr current); OpReplace version_path (VStr target)]
        end
      else inl (PatchRejected "cluster has no topology version to upgrade")
  | None => inl (PatchRejected "cluster has no topology version to upgrade")
  end.

Definition buildClusterPatch (cluster : ClusterObject) (request : ClusterPatchRequest) : patched :=
  match match kubernetesVersion request with Some v => version_ops cluster v | None => inr [] end with
  | inl e => inl e
  | inr ops =>
      if defined (controlPlaneCount request) || defined (workerCount request) then
        match buildScalePatch cluster (controlPlaneCount request) (workerCount request) with
        | inl e => inl e
        | inr more => inr (ops ++ more)
        end
      else inr ops
  end.

(** ** The API server's side *)

(** The members a patch of this module names. *)
Definition members : list string := [version_path; controlPlane_path; group_path; workers_path].

(** RFC 6902, as far as these patches use it: operations apply in order and
    all or none; [test] compares, [add] and [replace] set one member and leave
    the others alone. *)
Class JsonPatch (Doc : Type) := {
  read : Doc → string → option PatchValue;
  apply_patch : Doc → list JsonPatchOp → option Doc;
  apply_nil d : apply_patch d [] = Some d;
  apply_test d p v ops :
    apply_patch d (OpTest p v :: ops) = if decide (read d p = Some v) then apply_patch d ops else None;
  apply_set d p v ops d' o (Ho : o = OpAdd p v ∨ o = OpReplace p v) (Hp : p ∈ members)
    (Happ : apply_patch d (o :: ops) = Some d') :
    ∃ d1, apply_patch d1 ops = Some d' ∧ read d1 p = Some v ∧ ∀ q, q ∈ members → q ≠ p → read d1 q = read d q;
}.

(** A document that is a map from paths to values satisfies the interface. *)
Fixpoint apply_flat (d : js_map string PatchValue) (ops : list JsonPatchOp) : option (js_map string PatchValue) :=
  match ops with
  | [] => Some d
  | OpTest p v :: ops => if decide (map_get d p = Some v) then apply_flat d ops else None
  | OpAdd p v :: ops => apply_flat (map_set d p v) ops
  | OpReplace p v :: ops => if map_has d p then apply_flat (map_set d p v) ops else None
  end.

#[global] Instance flat_patch : JsonPatch (js_map string PatchValue).
Proof.
  refine {| read := map_get; apply_patch := apply_flat |}; [done|done|].
  intros d p v ops d' o Ho _ Happ. exists (map_set d p v).
  assert (apply_flat (map_set d p v) ops = Some d') by (destruct Ho as [->| ->]; simpl in Happ; by repeat case_match).
  split_and!; [done| |intros q _ Hq]; rewrite map_get_set; by case_decide.
Defined.

(** ** Upgrades *)

(** A step kubeadm supports: a patch release, or the next minor version. *)
Definition upgrade_step (from to : K8sVersion) : Prop :=
  major to = major from ∧ (minor to = minor from ∧ patch from < patch to ∨ minor to = minor from + 1).

Lemma compare_sign a b : major a = major b →
  (0 < compareK8sVersions a b ↔ minor b < minor a ∨ minor a = minor b ∧ patch b < patch a).
Proof.
  intros Hm. unfold compareK8sVersions, or_Z, truthy_Z. rewrite Hm, Z.sub_diag. simpl.
  destruct (Z.eqb_spec (minor a - minor b) 0); simpl; [|].
  - replace (minor a - minor b =? 0) with true by (symmetry; by apply Z.eqb_eq). simpl. lia.
  - destruct (Z.eqb_spec (minor a - minor b) 0); [lia|]. simpl. lia.
Qed.

Lemma upgradeError_ok current target :
  upgradeError current target = None ↔
  ∃ from to, parseK8sVersion current = Some from ∧ parseK8sVersion target = Some to ∧ upgrade_step from to.
Proof.
  unfold upgradeError. destruct (parseK8sVersion target) as [to|]; [|naive_solver].
  destruct (parseK8sVersion current) as [from|]; [|naive_solver].
  transitivity (upgrade_step from to); [|naive_solver]. unfold upgrade_step.
  destruct (Z.eqb_spec (major to) (major from)) as [Hm|Hm]; simpl.
  - pose proof (compare_sign to from Hm).
    repeat case_match; split; (done || lia).
  - split; [|lia]. by repeat case_match.
Qed.

(** An upgrade is let through exactly when both versions read as [vX.Y.Z]
    and the target is a later patch release or the next minor version of the
    same major version; the versions allowed from a given one are therefore
    never two minor versions ahead and never behind. *)
Theorem upgradeError_exact current target :
  (upgradeError current target = None ↔
   ∃ from to, parseK8sVersion current = Some from ∧ parseK8sVersion target = Some to ∧ upgrade_step from to)
  ∧ upgradeError current current ≠ None.
Proof.
  split; [apply upgradeError_ok|]. intros (from & to & Hf & Ht & Hs)%upgradeError_ok.
  unfold upgrade_step in Hs. simplify_eq. lia.
Qed.

(** ** Patches *)

(** A path is one of the members, and differs from another. *)
Ltac member := first [done | discriminate | by refine (bool_decide_unpack _ _); vm_compute].

Section patch.
Context `{!JsonPatch Doc}.

Lemma apply_set_inv (d : Doc) p v o ops d' : o = OpAdd p v ∨ o = OpReplace p v → p ∈ members →
  apply_patch d (o :: ops) = Some d' →
  ∃ d1, apply_patch d1 ops = Some d' ∧ read d1 p = Some v ∧ ∀ q, q ∈ members → q ≠ p → read d1 q = read d q.
Proof. apply apply_set. Qed.

(** What one part of a request asks of the members it names. *)
Definition count_set (path : string) (n : option Z) (d d' : Doc) : Prop :=
  read d' path = match n with Some n => Some (VNum n) | None => read d path end.

(** The first operations of a scaling: the control plane count, if asked for. *)
Lemma apply_count cp tl (d d' : Doc) :
  apply_patch d (match cp with Some n => [OpAdd controlPlane_path (VNum n)] | None => [] end ++ tl) = Some d' →
  ∃ d1, apply_patch d1 tl = Some d' ∧ count_set controlPlane_path cp d d1
        ∧ ∀ q, q ∈ members → q ≠ controlPlane_path → read d1 q = read d q.
Proof.
  destruct cp as [n|]; simpl; intros Ha; [|by exists d].
  apply (apply_set_inv _ controlPlane_path (VNum n)) in Ha; [done|by left|by member].
Qed.

(** The last ones: the worker group is the one that was read. *)
Lemma apply_group n name (d d' : Doc) :
  apply_patch d [OpTest group_path (VStr name); OpAdd workers_path (VNum n)] = Some d' →
  read d group_path = Some (VStr name) ∧ read d' workers_path = Some (VNum n)
  ∧ ∀ q, q ∈ members → q ≠ workers_path → read d' q = read d q.
Proof.
  rewrite apply_test. case_decide as Ht; [|done]. intros Ha. split; [done|].
  apply (apply_set_inv _ workers_path (VNum n)) in Ha as (d2 & Hd & Hr & Hf); [|by left|by member].
  rewrite apply_nil in Hd. by simplify_eq.
Qed.

Definition group_tested (cluster : ClusterObject) (w : option Z) (d : Doc) : Prop :=
  w ≠ None → ∃ name, worker_group cluster = Some name ∧ read d group_path = Some (VStr name).

Lemma scale_ops_apply cluster cp w ops (d d' : Doc) :
  buildScalePatch cluster cp w = inr ops → apply_patch d ops = Some d' →
  count_set controlPlane_path cp d d' ∧ count_set workers_path w d d' ∧ group_tested cluster w d
  ∧ read d' version_path = read d version_path.
Proof.
  unfold buildScalePatch, group_tested. intros Hb Ha. destruct w as [n|].
  - destruct (worker_group cluster) as [name|]; [|done]. simplify_eq.
    apply apply_count in Ha as (d1 & Ha & Hc & Hf). apply apply_group in Ha as (Ht & Hr & Hf').
    rewrite Hf in Ht by member. unfold count_set in *.
    rewrite Hr, (Hf' controlPlane_path), (Hf' version_path), (Hf version_path) by member. split_and!; eauto.
  - simplify_eq. rewrite <-(app_nil_r (match cp with Some _ => _ | None => _ end)) in Ha.
    apply apply_count in Ha as (d1 & Ha & Hc & Hf). rewrite apply_nil in Ha. simplify_eq.
    unfold count_set in *. rewrite (Hf version_path), (Hf workers_path) by member. by split_and!.
Qed.

(** Whatever the cluster has become since it was read, a patch that the API
    server accepts upgrades from the very version that was checked, by a step
    kubeadm supports, and leaves the version alone when no upgrade was asked
    for; it sets exactly the counts asked for, the worker count on the group
    that was read. *)
Theorem patch_guarded cluster request ops (d d' : Doc) :
  buildClusterPatch cluster request = inr ops → apply_patch d ops = Some d' →
  match kubernetesVersion request with
  | Some target => ∃ current from to,
      topology cluster ≫= version = Some current ∧ read d version_path = Some (VStr current)
      ∧ parseK8sVersion current = Some from ∧ parseK8sVersion target = Some to ∧ upgrade_step from to
      ∧ read d' version_path = Some (VStr target)
  | None => read d' version_path = read d version_path
  end
  ∧ count_set controlPlane_path (controlPlaneCount request) d d'
  ∧ count_set workers_path (workerCount request) d d'
  ∧ group_tested cluster (workerCount request) d.
Proof.
  unfold buildClusterPatch. intros Hb Ha.
  assert (∃ ops1 ops2,
    match kubernetesVersion request with Some v => version_ops cluster v | None => inr [] end = inr ops1
    ∧ ops = ops1 ++ ops2 ∧ buildScalePatch cluster (controlPlaneCount request) (workerCount request) = inr ops2)
    as (ops1 & ops2 & Hv & -> & Hs).
  { destruct (match kubernetesVersion request with Some _ => _ | None => _ end) as [|ops1]; [done|].
    destruct (buildScalePatch _ _ _) as [|ops2] eqn:Hs.
    - unfold buildScalePatch in Hs. destruct (controlPlaneCount request), (workerCount request); done.
    - exists ops1, ops2. split_and!; [done| |done]. unfold buildScalePatch in Hs.
      destruct (controlPlaneCount request), (workerCount request); simplify_eq/=; by rewrite ?app_nil_r. }
  destruct (kubernetesVersion request) as [target|]; simplify_eq/=.
  - unfold version_ops in Hv. destruct (topology cluster ≫= version) as [current|]; [|done].
    destruct (truthy_str current); [|done]. destruct (upgradeError current target) eqn:Hu; [done|]. simplify_eq/=.
    rewrite apply_test in Ha. case_decide as Ht; [|done].
    apply (apply_set_inv _ version_path (VStr target)) in Ha as (d1 & Ha & Hr & Hf); [|by right|by member].
    apply (scale_ops_apply _ _ _ _ _ _ Hs) in Ha as (Hc & Hw & Hg & Hv).
    apply upgradeError_ok in Hu as (from & to & ? & ? & ?).
    unfold count_set, group_tested in *. rewrite (Hf controlPlane_path) in Hc by member. rewrite (Hf workers_path) in Hw by member.
    rewrite (Hf group_path) in Hg by member.
    split_and!; [|done..]. exists current, from, to. split_and!; congruence.
  - by apply (scale_ops_apply _ _ _ _ _ _ Hs) in Ha as (Hc & Hw & Hg & Hv).
Qed.
End patch.

Definition sample_cluster : ClusterObject := {| topology := Some {|
  version := Some "v1.36.4"; controlPlane_replicas := Some 1;
  machineDeployments := Some [{| md_name := Some "md-0"; md_replicas := Some 1 |}] |} |}.

Definition sample_doc : js_map string PatchValue :=
  [(version_path, VStr "v1.36.4"); (controlPlane_path, VNum 1); (group_path, VStr "md-0"); (workers_path, VNum 1)].

Lemma patch_guarded_witness :
  let request := {| controlPlaneCount := None; workerCount := Some 3; kubernetesVersion := Some "v1.37.0" |} in
  ∃ ops d', buildClusterPatch sample_cluster request = inr ops ∧ apply_patch sample_doc ops = Some d'
    ∧ read d' workers_path = Some (VNum 3) ∧ read d' controlPlane_path = Some (VNum 1).
Proof.
  intros request.
  destruct (buildClusterPatch sample_cluster request) as [|ops] eqn:Hb; [vm_compute in Hb; discriminate|].
  destruct (apply_patch sample_doc ops) as [d'|] eqn:Ha;
    [|vm_compute in Hb; injection Hb as <-; vm_compute in Ha; discriminate].
  exists ops, d'. split; [reflexivity|]. split; [exact Ha|].
  destruct (patch_guarded sample_cluster request ops sample_doc d' Hb Ha) as (_ & Hc & Hw & _).
  split; [exact Hw|exact Hc].
Defined.

(** An edit is refused as the caller's fault exactly when it asks for a
    version the current one rules out; scaling the workers of a cluster without
    a worker group is the only other refusal, and comes out as another error. *)
Theorem patch_refusals cluster request :
  match buildClusterPatch cluster request with
  | inl (PatchRejected _) => ∃ target, kubernetesVersion request = Some target
      ∧ ∀ current, topology cluster ≫= version = Some current → truthy_str current = true →
          upgradeError current target ≠ None
  | inl (OtherError _) => defined (workerCount request) = true ∧ worker_group cluster = None
      ∧ ∀ target, kubernetesVersion request = Some target →
          ∃ current, topology cluster ≫= version = Some current ∧ upgradeError current target = None
  | inr _ => (defined (workerCount request) = true → worker_group cluster ≠ None)
      ∧ ∀ target, kubernetesVersion request = Some target →
          ∃ current, topology cluster ≫= version = Some current ∧ upgradeError current target = None
  end.
Proof.
  unfold buildClusterPatch, version_ops, buildScalePatch.
  destruct (kubernetesVersion request) as [target|] eqn:Hk; simpl.
  - destruct (topology cluster ≫= version) as [current|] eqn:Hc; simpl; [|exists target; by split].
    destruct (truthy_str current) eqn:Ht; [|exists target; split; [done|congruence]].
    destruct (upgradeError current target) eqn:Hu; [exists target; split; [done|congruence]|].
    assert (∀ target', Some target = Some target' →
      ∃ current', Some current = Some current' ∧ upgradeError current' target' = None) by (intros ? [= <-]; by exists current).
    by destruct (controlPlaneCount request), (workerCount request), (worker_group cluster).
  - by destruct (controlPlaneCount request), (workerCount request), (worker_group cluster).
Qed.
