(* ===== verification/CapiStatus.v ===== *)
(** * CapiStatus: live status of the workload clusters

    Models [lib/capi-status.ts] and [lib/lifecycle.ts] of the Kubernetes
    agent: the projection of Cluster API objects to the status shown, and the
    cached status that follows from it. *)

From S2P Require Import Prelude JsString Effects Upgrade.
Open Scope Z_scope.

(** ** Objects read *)

Record CapiCondition := {
  c_type : option string; c_status : option string; c_reason : option string; c_message : option string }.

Record MachineAddress := { a_type : option string; a_address : option string }.

(** [K8sObject], its optional sub-objects flattened: an absent sub-object reads
    as the absence of every field in it. *)
Record K8sObject := {
  o_name : option string;
  o_labels : option (js_map string string);
  o_version : option string;
  o_host : option string;
  o_port : option Z;
  o_topology : option Topology;
  o_variables : option (list (option string * Json));
  o_phase : option string;
  o_conditions : option (list CapiCondition);
  o_nodeRef : option string;
  o_addresses : option (list MachineAddress);
}.

Definition CLUSTER_LABEL : string := "cluster.x-k8s.io/cluster-name".
Definition CONTROL_PLANE_LABEL : string := "cluster.x-k8s.io/control-plane".

Definition condition (obj : K8sObject) (type : string) : option CapiCondition :=
  o_conditions obj ≫= js_find (λ c, bool_decide (c_type c = Some type)).

Definition nonEmpty (value : option string) : option string :=
  match trim <$> value with
  | Some t => if truthy_str t then Some t else None
  | None => None
  end.

Definition isTrue (obj : K8sObject) (type : string) : bool :=
  bool_decide ((condition obj type ≫= c_status) = Some "True").

(** ** Machines *)

Inductive MachineRole := control_plane | worker.
#[global] Instance MachineRole_eq_dec : EqDecision MachineRole.
Proof. solve_decision. Defined.

Record MachineStatus := {
  m_name : string; m_role : MachineRole; m_phase : string; m_ready : bool;
  m_nodeName : option string; m_version : option string; m_address : option string; m_message : option string }.

(** [x ?? y] on values that may both be absent. *)
Definition or_else {A} (x y : option A) : option A := match x with Some _ => x | None => y end.

Definition toMachine (m : K8sObject) : MachineStatus :=
  let isReady := isTrue m "Ready" in
  {| m_name := default EmptyString (o_name m);
     m_role := if map_has (default [] (o_labels m)) CONTROL_PLANE_LABEL then control_plane else worker;
     m_phase := default "Unknown" (o_phase m);
     m_ready := isReady;
     m_nodeName := o_nodeRef m;
     m_version := o_version m;
     m_address := or_else ((o_addresses m ≫= js_find (λ a, bool_decide (a_type a = Some "InternalIP"))) ≫= a_address)
                          ((o_addresses m ≫= head) ≫= a_address);
     m_message := if isReady then None else nonEmpty (condition m "Ready" ≫= c_message) |}.

(** ** Rollouts *)

Inductive Rollout := upgrading | scaling.

Definition TRANSITIONAL_PHASES : list string := ["Pending"; "Provisioning"; "Provisioned"; "Deleting"].

Definition is_role (r : MachineRole) (m : MachineStatus) : bool := bool_decide (m_role m = r).

Definition len {A} (l : list A) : Z := Z.of_nat (length l).

(** A desired count that differs from what there is. *)
Definition off (desired : option Z) (n : Z) : bool :=
  match desired with Some d => negb (n =? d) | None => false end.

Definition outdated (target : string) (m : MachineStatus) : bool :=
  match m_version m with Some v => truthy_str v && negb (bool_decide (v = target)) | None => false end.

Definition detectRollout (cluster : K8sObject) (machines : list MachineStatus) : option Rollout :=
  if match o_topology cluster ≫= version with
     | Some target => truthy_str target && some (outdated target) machines
     | None => false
     end
  then Some upgrading
  else if isTrue cluster "ScalingUp" || isTrue cluster "ScalingDown" then Some scaling
  else
    let desired := desiredCounts {| topology := o_topology cluster |} in
    let controlPlane := len (js_filter (is_role control_plane) machines) in
    let workers := len machines - controlPlane in
    if off (desired_controlPlane desired) controlPlane then Some scaling
    else if off (desired_workers desired) workers then Some scaling
    else if some (λ m, includes TRANSITIONAL_PHASES (m_phase m)) machines then Some scaling
    else None.

(** ** Clusters *)

Definition loadBalancerKind (cluster : K8sObject) : option string :=
  match (λ v, v.2) <$> (o_variables cluster ≫= js_find (λ v, bool_decide (v.1 = Some "loadBalancer"))) with
  | Some (JObj l) => fst <$> head l
  | Some (JArr (_ :: _)) => Some "0"
  | _ => None
  end.

Record LiveStatus := {
  l_phase : string; l_available : bool; l_controlPlaneReady : Z; l_workerReady : Z;
  l_controlPlaneDesired : option Z; l_workerDesired : option Z; l_message : option string;
  l_endpoint : option string; l_loadBalancer : option string; l_version : option string;
  l_rollout : option Rollout; l_conditions : list CapiCondition; l_machines : list MachineStatus }.

Definition endpoint_url (c : K8sObject) : option string :=
  match o_host c with
  | Some host =>
      if truthy_str host then
        Some ("https://" +++ (if has_char ":" host then "[" +++ host +++ "]" else host)
              +++ ":" +++ show_Z (default 6443 (o_port c)))
      else None
  | None => None
  end.

Section summarize.
Context `{!Locale}.

Definition by_machine_name (a b : MachineStatus) : comparison := locale_compare (m_name a) (m_name b).

(** The cluster a machine belongs to. *)
Definition cluster_of (m : K8sObject) : option string :=
  match o_labels m ≫= λ l, map_get l CLUSTER_LABEL with
  | Some c => if truthy_str c then Some c else None
  | None => None
  end.

Definition group_machine (byCluster : js_map string (list MachineStatus)) (m : K8sObject) :
    js_map string (list MachineStatus) :=
  match cluster_of m with
  | Some c => map_set byCluster c (default [] (map_get byCluster c) ++ [toMachine m])
  | None => byCluster
  end.

Definition live_of (c : K8sObject) (list : list MachineStatus) : LiveStatus :=
  let isAvailable := isTrue c "Available" in
  let desired := desiredCounts {| topology := o_topology c |} in
  {| l_phase := default "Unknown" (o_phase c);
     l_available := isAvailable;
     l_controlPlaneReady := len (js_filter (λ m, is_role control_plane m && m_ready m) list);
     l_workerReady := len (js_filter (λ m, is_role worker m && m_ready m) list);
     l_controlPlaneDesired := desired_controlPlane desired;
     l_workerDesired := desired_workers desired;
     l_message := if isAvailable then None else nonEmpty (condition c "Available" ≫= c_message);
     l_endpoint := endpoint_url c;
     l_loadBalancer := loadBalancerKind c;
     l_version := o_topology c ≫= version;
     l_rollout := detectRollout c list;
     l_conditions := default [] (o_conditions c);
     l_machines := list |}.

Definition add_cluster (byCluster : js_map string (list MachineStatus)) (out : js_map string LiveStatus) (c : K8sObject) :
    js_map string LiveStatus :=
  match o_name c with
  | Some name =>
      if truthy_str name
      then map_set out name (live_of c (js_sort by_machine_name (default [] (map_get byCluster name))))
      else out
  | None => out
  end.

Definition summarizeLive (clusters machines : list K8sObject) : js_map string LiveStatus :=
  let byCluster := foldl group_machine [] machines in
  foldl (add_cluster byCluster) [] clusters.
End summarize.

(** ** The cached status *)

Inductive ClusterStatus := s_pending | s_provisioning | s_ready | s_scaling | s_upgrading | s_error.
#[global] Instance ClusterStatus_eq_dec : EqDecision ClusterStatus.
Proof. solve_decision. Defined.

Definition BRINGING_UP : list ClusterStatus := [s_pending; s_provisioning].

Definition status_of_rollout (r : Rollout) : ClusterStatus :=
  match r with upgrading => s_upgrading | scaling => s_scaling end.

Definition nextStatus (prev : ClusterStatus) (live : LiveStatus) : ClusterStatus :=
  if bool_decide (l_phase live = "Failed") then s_error
  else if includes BRINGING_UP prev then (if l_available live then s_ready else s_provisioning)
  else match l_rollout live with
       | Some r => status_of_rollout r
       | None => if l_available live then s_ready else s_provisioning
       end.

(** ** What a summary holds *)

Section summarize_theory.
Context `{!Locale}.

#[global] Instance comparator_machine_name : Comparator by_machine_name.
Proof. exact (comparator_on m_name locale_compare locale_comparator). Qed.

(** The machines of a cluster, in the order listed. *)
Definition machines_of (name : string) (machines : list K8sObject) : list MachineStatus :=
  toMachine <$> filter (λ m, cluster_of m = Some name) machines.

Lemma group_machine_get name machines acc :
  default [] (map_get (foldl group_machine acc machines) name)
  = default [] (map_get acc name) ++ machines_of name machines.
Proof.
  revert acc. induction machines as [|m machines IH]; intros acc; simpl; [by rewrite app_nil_r|].
  rewrite IH. unfold group_machine, machines_of. rewrite filter_cons.
  destruct (cluster_of m) as [c|] eqn:Hc; [|case_decide; [done|done]].
  rewrite map_get_set. destruct (decide (name = c)) as [<-|Hn].
  - rewrite bool_decide_eq_true_2, decide_True by done. simpl. by rewrite <-app_assoc.
  - by rewrite bool_decide_eq_false_2, decide_False by congruence.
Qed.

(** The last cluster object of a name. *)
Definition cluster_named (name : string) (clusters : list K8sObject) : option K8sObject :=
  last (filter (λ c, o_name c = Some name) clusters).

Lemma add_cluster_get name byCluster clusters acc : truthy_str name = true →
  map_get (foldl (add_cluster byCluster) acc clusters) name =
  match cluster_named name clusters with
  | Some c => Some (live_of c (js_sort by_machine_name (default [] (map_get byCluster name))))
  | None => map_get acc name
  end.
Proof.
  intros Ht. revert acc. unfold cluster_named. induction clusters as [|c clusters IH]; intros acc; simpl; [done|].
  rewrite IH, filter_cons. unfold add_cluster.
  destruct (decide (o_name c = Some name)) as [Hn|Hn].
  - rewrite Hn, Ht, map_get_set, bool_decide_eq_true_2 by done.
    rewrite last_cons. by destruct (last (filter _ _)).
  - destruct (last (filter _ _)); [done|]. destruct (o_name c) as [n|]; [|done].
    destruct (truthy_str n); [|done]. rewrite map_get_set, bool_decide_eq_false_2 by congruence. done.
Qed.

Lemma add_cluster_empty byCluster clusters acc : map_get acc EmptyString = None →
  map_get (foldl (add_cluster byCluster) acc clusters) EmptyString = None.
Proof.
  revert acc. induction clusters as [|c clusters IH]; intros acc Hacc; simpl; [done|]. apply IH.
  unfold add_cluster. destruct (o_name c) as [n|]; [|done]. destruct (truthy_str n) eqn:Ht; [|done].
  rewrite map_get_set, bool_decide_eq_false_2; [done|]. by intros <-.
Qed.

Lemma summarize_get name clusters machines :
  map_get (summarizeLive clusters machines) name =
  if truthy_str name
  then (λ c, live_of c (js_sort by_machine_name (machines_of name machines))) <$> cluster_named name clusters
  else None.
Proof.
  unfold summarizeLive. destruct (truthy_str name) eqn:Ht.
  - rewrite add_cluster_get by done. rewrite group_machine_get. by destruct (cluster_named name clusters).
  - assert (name = EmptyString) as -> by (unfold truthy_str in Ht; by bool_prop).
    by apply add_cluster_empty.
Qed.

(** The summary has exactly the named clusters that were listed, each with
    the machines labelled with its name and no others, sorted by name; every
    ready machine is counted once, under its role. *)
Theorem summarize_exact clusters machines name live :
  map_get (summarizeLive clusters machines) name = Some live ↔
  truthy_str name = true ∧ ∃ c, cluster_named name clusters = Some c
    ∧ live = live_of c (js_sort by_machine_name (machines_of name machines))
    ∧ l_machines live ≡ₚ machines_of name machines
    ∧ StronglySorted (λ a b, by_machine_name a b ≠ Gt) (l_machines live)
    ∧ l_controlPlaneReady live + l_workerReady live = len (js_filter m_ready (l_machines live)).
Proof.
  rewrite summarize_get. destruct (truthy_str name); [|naive_solver].
  assert (∀ c l, l_controlPlaneReady (live_of c l) + l_workerReady (live_of c l) = len (js_filter m_ready l)) as Hcount.
  { intros c l. simpl. unfold len. induction l as [|m l IH]; [done|]. simpl.
    destruct (m_ready m), (m_role m) eqn:Hr; unfold is_role in *; rewrite Hr; simpl; lia. }
  destruct (cluster_named name clusters) as [c|]; simpl; [|naive_solver]. split.
  - intros [= <-]. split; [done|]. exists c. split; [done|]. split; [done|].
    split; [apply js_sort_perm|]. split; [exact (js_sort_sorted by_machine_name _)|apply Hcount].
  - intros (_ & c' & [= <-] & -> & _). done.
Qed.
End summarize_theory.

(** Every machine has one of the two roles. *)
Lemma roles_partition machines :
  len machines - len (js_filter (is_role control_plane) machines) = len (js_filter (is_role worker) machines).
Proof.
  unfold len. induction machines as [|m l IH]; [done|]. simpl.
  unfold is_role in *. destruct (m_role m); simpl; lia.
Qed.

Lemma off_false desired n : off desired n = false ↔ ∀ d, desired = Some d → n = d.
Proof.
  destruct desired as [d|]; simpl; [|naive_solver]. rewrite negb_false_iff, Z.eqb_eq. naive_solver.
Qed.

(** A cluster with no rollout in progress has settled: no machine runs
    another version than the one asked for, the control plane and the workers
    number what was asked for, no machine is on its way in or out, and Cluster
    API reports no scaling; anything else is reported as a rollout. *)
Theorem detectRollout_settled cluster machines :
  detectRollout cluster machines = None ↔
  (∀ target m v, o_topology cluster ≫= version = Some target → target ≠ EmptyString →
     m ∈ machines → m_version m = Some v → v = EmptyString ∨ v = target)
  ∧ isTrue cluster "ScalingUp" = false ∧ isTrue cluster "ScalingDown" = false
  ∧ (∀ n, o_topology cluster ≫= controlPlane_replicas = Some n → len (js_filter (is_role control_plane) machines) = n)
  ∧ (∀ groups, o_topology cluster ≫= machineDeployments = Some groups →
       len (js_filter (is_role worker) machines) = foldl (λ sum g, sum + default 0 (md_replicas g)) 0 groups)
  ∧ ∀ m, m ∈ machines → m_phase m ∉ TRANSITIONAL_PHASES.
Proof.
  unfold detectRollout, desiredCounts. simpl.
  assert (Hver : (match o_topology cluster ≫= version with
     | Some target => truthy_str target && some (outdated target) machines | None => false end) = false ↔
    ∀ target m v, o_topology cluster ≫= version = Some target → target ≠ EmptyString →
      m ∈ machines → m_version m = Some v → v = EmptyString ∨ v = target).
  { destruct (o_topology cluster ≫= version) as [target|]; [|split; [by intros|done]].
    rewrite andb_false_iff, some_false. unfold outdated, truthy_str. split.
    - intros Hv ? m v [= <-] Ht Hm Hmv. destruct Hv as [Hv|Hv]; [by bool_prop|].
      specialize (Hv m Hm). rewrite Hmv in Hv. destruct (decide (v = target)); [by right|].
      left. apply andb_false_iff in Hv as [Hv|Hv]; by bool_prop.
    - intros Hv. destruct (decide (target = EmptyString)) as [->|Ht]; [by left|]. right. intros m Hm.
      destruct (m_version m) as [v|] eqn:Hmv; [|done]. destruct (Hv target m v) as [->| ->]; [done..|].
      by rewrite (bool_decide_eq_true_2 (target = target)), andb_false_r. }
  rewrite <-Hver. destruct (match o_topology cluster ≫= version with Some _ => _ | None => _ end); [naive_solver|].
  destruct (isTrue cluster "ScalingUp"); [naive_solver|]. destruct (isTrue cluster "ScalingDown"); [naive_solver|].
  simpl. rewrite (roles_partition machines).
  transitivity (off (o_topology cluster ≫= controlPlane_replicas) (len (js_filter (is_role control_plane) machines)) = false
    ∧ off (foldl (λ sum g, sum + default 0 (md_replicas g)) 0 <$> (o_topology cluster ≫= machineDeployments))
          (len (js_filter (is_role worker) machines)) = false
    ∧ some (λ m, includes TRANSITIONAL_PHASES (m_phase m)) machines = false).
  - repeat case_match; naive_solver.
  - rewrite !off_false, some_false.
    assert ((∀ m, m ∈ machines → includes TRANSITIONAL_PHASES (m_phase m) = false)
      ↔ ∀ m, m ∈ machines → m_phase m ∉ TRANSITIONAL_PHASES) as ->
      by (split; intros Hp m Hm; apply includes_false; auto).
    split; [intros (Hc & Hw & Hp)|intros (_ & _ & _ & Hc & Hw & Hp)]; split_and!; try done.
    + intros groups Hg. rewrite Hg in Hw. by apply Hw.
    + intros n Hn. apply fmap_Some in Hn as (groups & Hg & ->). by apply Hw.
Qed.

(** ** The cached status over a history of reads *)

Definition history (s : ClusterStatus) (lives : list LiveStatus) : ClusterStatus := foldl nextStatus s lives.

Definition failed (l : LiveStatus) : Prop := l_phase l = "Failed".

(** A read of a cluster that has not come up yet. *)
Definition coming_up (l : LiveStatus) : Prop := ¬ failed l ∧ l_available l = false.

(** A read of a cluster that is up, or being changed. *)
Definition established (l : LiveStatus) : Prop := ¬ failed l ∧ (l_available l = true ∨ l_rollout l ≠ None).

Lemma nextStatus_bringing_up s l : s ∈ BRINGING_UP → ¬ failed l →
  nextStatus s l = if l_available l then s_ready else s_provisioning.
Proof.
  intros Hs Hf. unfold nextStatus. rewrite bool_decide_eq_false_2 by done.
  apply includes_spec in Hs. by rewrite Hs.
Qed.

Lemma nextStatus_up s l : s ∉ BRINGING_UP → ¬ failed l →
  nextStatus s l = match l_rollout l with
                   | Some r => status_of_rollout r
                   | None => if l_available l then s_ready else s_provisioning
                   end.
Proof.
  intros Hs Hf. unfold nextStatus. rewrite bool_decide_eq_false_2 by done.
  apply includes_false in Hs. by rewrite Hs.
Qed.

Lemma rollout_not_bringing_up r : status_of_rollout r ∉ BRINGING_UP.
Proof. apply includes_false. by destruct r. Qed.

Lemma ready_not_bringing_up : s_ready ∉ BRINGING_UP.
Proof. by apply includes_false. Qed.

Lemma established_up s l : s ∉ BRINGING_UP → established l → nextStatus s l ∉ BRINGING_UP.
Proof.
  intros Hs [Hf Hl]. rewrite nextStatus_up by done. destruct (l_rollout l) as [r|].
  - apply rollout_not_bringing_up.
  - destruct Hl as [->|]; [apply ready_not_bringing_up|done].
Qed.

Lemma history_coming_up s lives : s ∈ BRINGING_UP → Forall coming_up lives → history s lives ∈ BRINGING_UP.
Proof.
  intros Hs Hl. revert s Hs. induction Hl as [|l lives [Hf Ha] _ IH]; intros s Hs; [done|].
  apply IH. rewrite nextStatus_bringing_up by done. rewrite Ha. by apply includes_spec.
Qed.

Lemma history_established s lives : s ∉ BRINGING_UP → Forall established lives → history s lives ∉ BRINGING_UP.
Proof.
  intros Hs Hl. revert s Hs. induction Hl as [|l lives Hl _ IH]; intros s Hs; [done|].
  apply IH. by apply established_up.
Qed.

(** A cluster that is coming up shows as provisioning whatever its machines
    are doing, turns ready with the first read that finds it available, and
    from then on, as long as every read finds it available or being changed,
    shows what the last read found: the change in progress, or ready. *)
Theorem lifecycle_phases bring up day2 now :
  Forall coming_up bring → ¬ failed up → l_available up = true → Forall established (day2 ++ [now]) →
  history s_pending bring ∈ BRINGING_UP
  ∧ history s_pending (bring ++ [up]) = s_ready
  ∧ history s_pending (bring ++ [up] ++ day2 ++ [now]) =
      match l_rollout now with Some r => status_of_rollout r | None => s_ready end.
Proof.
  intros Hb Hf Ha [Hd [[Hn Hl] _]%Forall_cons]%Forall_app.
  assert (history s_pending bring ∈ BRINGING_UP) as Hs by (apply history_coming_up; [by left|done]).
  assert (nextStatus (history s_pending bring) up = s_ready) as Hup by (by rewrite nextStatus_bringing_up, Ha).
  unfold history in *. rewrite !foldl_app. simpl. rewrite Hup. split_and!; [done|done|].
  rewrite nextStatus_up by (done || by apply (history_established s_ready); [apply ready_not_bringing_up|]).
  destruct (l_rollout now); [done|]. by destruct Hl as [->|].
Qed.

Definition sample_live (phase : string) (available : bool) (rollout : option Rollout) : LiveStatus :=
  {| l_phase := phase; l_available := available; l_controlPlaneReady := 0; l_workerReady := 0;
     l_controlPlaneDesired := None; l_workerDesired := None; l_message := None; l_endpoint := None;
     l_loadBalancer := None; l_version := None; l_rollout := rollout; l_conditions := []; l_machines := [] |}.

Lemma lifecycle_phases_witness :
  history s_pending [sample_live "Provisioning" false (Some scaling); sample_live "Provisioned" true None;
                     sample_live "Provisioned" true (Some upgrading)] = s_upgrading.
Proof.
  refine (proj2 (proj2 (lifecycle_phases [sample_live "Provisioning" false (Some scaling)]
    (sample_live "Provisioned" true None) [] (sample_live "Provisioned" true (Some upgrading)) _ _ _ _))).
  - constructor; [by split|constructor].
  - discriminate.
  - reflexivity.
  - constructor; [split; [discriminate|by left]|constructor].
Defined.

(** The cached status does not remember whether a cluster has been ready. A
    first bring-up that a read found failed is shown as a day-2 change
    afterwards although the cluster was never available, and a ready cluster
    that one read found unavailable is shown as provisioning during the change
    that follows. *)
Theorem lifecycle_forgets lost joining up out change r :
  failed lost → ¬ failed joining → l_rollout joining = Some r →
  ¬ failed up → l_available up = true → coming_up out → l_rollout out = None → coming_up change →
  history s_pending [lost; joining] = status_of_rollout r
  ∧ history s_pending [up; out; change] = s_provisioning.
Proof.
  intros Hl Hj Hr Hu Ha [Ho Hoa] Hor [Hc Hca]. unfold history. simpl. split.
  - assert (nextStatus s_pending lost = s_error) as -> by (unfold nextStatus; by rewrite bool_decide_eq_true_2).
    rewrite nextStatus_up, Hr; [done|by apply includes_false|done].
  - rewrite (nextStatus_bringing_up s_pending up), Ha by (done || by left).
    rewrite (nextStatus_up s_ready out), Hor, Hoa by (done || apply ready_not_bringing_up).
    rewrite nextStatus_bringing_up, Hca; [done| |done]. right. by left.
Qed.

Lemma lifecycle_forgets_witness :
  history s_pending [sample_live "Failed" false None; sample_live "Provisioning" false (Some scaling)] = s_scaling.
Proof.
  refine (proj1 (lifecycle_forgets (sample_live "Failed" false None) (sample_live "Provisioning" false (Some scaling))
    (sample_live "Provisioned" true None) (sample_live "Provisioned" false None)
    (sample_live "Provisioned" false (Some scaling)) scaling _ _ _ _ _ _ _ _)); try discriminate; try reflexivity;
    by split.
Defined.
