(* ===== verification/AgentProjects.v ===== *)
(** * AgentProjects: the Incus projects of the Kubernetes agent

    Models [lib/projects.ts] and the part of [routes/clusters.ts] that
    provisions a cluster and takes a failed one back. A computation is a
    program that sends requests to Incus and may throw; what Incus answers may
    depend on everything sent before. *)

From S2P Require Import Prelude JsString Uri Effects.
Open Scope Z_scope.

(** ** Requests *)

Inductive HttpMethod := GET | POST | PUT | DELETE.
Record Request := { rq_method : HttpMethod; rq_path : string; rq_body : option Json }.
#[global] Instance HttpMethod_eq_dec : EqDecision HttpMethod.
Proof. solve_decision. Defined.

(** What has been sent so far. *)
Abbreviation Trace := (list Request) (only parsing).

(** A program: it returns or throws, and has sent more by then. *)
Definition M (A : Type) : Type := Trace → result A * Trace.

#[global] Instance M_ret : MRet M := λ A x tr, (Ok x, tr).
#[global] Instance M_bind : MBind M := λ A B f m tr,
  match m tr with (Ok x, tr) => f x tr | (Throw e, tr) => (Throw e, tr) end.

Definition fail {A} (e : ApiError) : M A := λ tr, (Throw e, tr).
(** [try { m } catch (e) { h(e) }] *)
Definition catch {A} (m : M A) (h : ApiError → M A) : M A := λ tr,
  match m tr with (Throw e, tr) => h e tr | r => r end.

Definition mforM_ {A} (l : list A) (f : A → M unit) : M unit := foldr (λ x k, f x ≫= λ _, k) (mret ()) l.

(** [x?.key] *)
Definition jget (key : string) (j : Json) : option Json :=
  match j with JObj l => map_get l key | _ => None end.
Definition jstr (j : option Json) : option string := match j with Some (JStr s) => Some s | _ => None end.
(** [data?.metadata ?? []], a list of strings or of objects. *)
Definition metadata_list (data : Json) : list Json :=
  match jget "metadata" data with Some (JArr l) => l | _ => [] end.
Definition metadata_strings (data : Json) : list string := omap (λ j, jstr (Some j)) (metadata_list data).

(** ** Metadata *)

Inductive Role := management | workload.
Definition role_text (r : Role) : string := match r with management => "management" | workload => "workload" end.

Record ProjectMetadata := {
  pm_role : Role; pm_cluster : string; pm_k8sVersion : option string; pm_operator : option string }.

Definition KEY_managed : string := "user.incendio.managed".
Definition KEY_role : string := "user.incendio.role".
Definition KEY_cluster : string := "user.incendio.cluster".
Definition KEY_k8sVersion : string := "user.incendio.k8s-version".
Definition KEY_operator : string := "user.incendio.operator".

Record IncusProject := { ip_name : string; ip_config : option (js_map string string) }.

(** [if (value) config[key] = value] *)
Definition set_truthy (key : string) (value : option string) (config : js_map string string) : js_map string string :=
  match value with Some v => if truthy_str v then map_set config key v else config | None => config end.

Definition buildProjectConfig (meta : ProjectMetadata) : js_map string string :=
  set_truthy KEY_operator (pm_operator meta)
    (set_truthy KEY_k8sVersion (pm_k8sVersion meta)
       [(KEY_managed, "true"); (KEY_role, role_text (pm_role meta)); (KEY_cluster, pm_cluster meta)]).

Definition isManaged (p : IncusProject) : bool :=
  bool_decide ((ip_config p ≫= λ c, map_get c KEY_managed) = Some "true").

Definition readMetadata (p : IncusProject) : option ProjectMetadata :=
  if isManaged p then
    let config := default [] (ip_config p) in
    match map_get config KEY_role with
    | Some role =>
        if bool_decide (role = "management") || bool_decide (role = "workload") then
          Some {| pm_role := if bool_decide (role = "management") then management else workload;
                  pm_cluster := default EmptyString (map_get config KEY_cluster);
                  pm_k8sVersion := map_get config KEY_k8sVersion;
                  pm_operator := map_get config KEY_operator |}
        else None
    | None => None
    end
  else None.

(** [listManagedProjects], on the projects Incus lists. *)
Definition managedProjects (role : option Role) (projects : list IncusProject) : list IncusProject :=
  js_filter (λ p, isManaged p
    && match role with
       | Some r => bool_decide ((ip_config p ≫= λ c, map_get c KEY_role) = Some (role_text r))
       | None => true
       end) projects.

Section incus.
(** What Incus answers a request after all that was sent before it. *)
Context (ans : Trace → Request → result Json).

Definition send (m : HttpMethod) (path : string) (body : option Json) : M Json := λ tr,
  let r := {| rq_method := m; rq_path := path; rq_body := body |} in (ans tr r, tr ++ [r]).

(** ** Projects *)

Definition getProject (name : string) : M (option Json) :=
  catch (data ← send GET ("/1.0/projects/" +++ encodeURIComponent name) None;
         mret (match jget "metadata" data with Some JNull => None | x => x end))
        (λ e, if status e =? 404 then mret None else fail e).

Definition json_config (c : js_map string string) : Json := JObj ((λ kv, (kv.1, JStr kv.2)) <$> c).

Definition createProject (name : string) (meta : ProjectMetadata) : M unit :=
  found ← getProject name;
  match found with
  | Some _ => mret ()
  | None =>
      _ ← send POST "/1.0/projects"
            (Some (JObj [("name", JStr name);
                         ("description", JStr ("Incendio-managed " +++ role_text (pm_role meta) +++ " project"
                            +++ (if truthy_str (pm_cluster meta) then " for cluster " +++ pm_cluster meta else EmptyString)));
                         ("config", json_config (buildProjectConfig meta))]));
      mret ()
  end.

Definition ensureWorkloadProfile (project pool network : string) : M unit :=
  _ ← send PUT ("/1.0/profiles/default?project=" +++ encodeURIComponent project)
        (Some (JObj [("description", JStr "Incendio workload default profile (root disk + NIC for CAPN)");
                     ("config", JObj []);
                     ("devices", JObj [("root", JObj [("type", JStr "disk"); ("path", JStr "/"); ("pool", JStr pool)]);
                                       ("eth0", JObj [("type", JStr "nic"); ("network", JStr network)])])]));
  mret ().

Definition ensureLoadBalancerProfile (project name network address : string) : M unit :=
  let rest := [("description", JStr ("Incendio: control plane load balancer at " +++ address)); ("config", JObj []);
               ("devices", JObj [("eth0", JObj [("type", JStr "nic"); ("network", JStr network); ("ipv4.address", JStr address)])])] in
  let query := "project=" +++ encodeURIComponent project in
  catch (_ ← send POST ("/1.0/profiles?" +++ query) (Some (JObj (("name", JStr name) :: rest))); mret ())
        (λ e, if status e =? 409
              then _ ← send PUT ("/1.0/profiles/" +++ encodeURIComponent name +++ "?" +++ query) (Some (JObj rest)); mret ()
              else fail e).

Definition other_error (m : string) : ApiError := {| status := 0; code := EmptyString; message := m |}.

(** The first pool that was created, or the first. *)
Definition choose_pool (pools : list Json) : option string :=
  match js_find (λ p, bool_decide (jstr (jget "status" p) = Some "Created")) pools with
  | Some p => jstr (jget "name" p)
  | None => head pools ≫= λ p, jstr (jget "name" p)
  end.

Definition usable_network (n : Json) : bool :=
  match jget "managed" n with Some (JBool true) => true | _ => false end
  && (bool_decide (jstr (jget "type" n) = Some "bridge") || bool_decide (jstr (jget "type" n) = Some "ovn"))
  && match jstr (jget "config" n ≫= jget "ipv4.address") with
     | Some a => truthy_str a && negb (bool_decide (a = "none"))
     | None => false
     end.

Definition choose_network (networks : list Json) : option string :=
  js_find usable_network networks ≫= λ n, jstr (jget "name" n).

(** A setting, when it is not empty, or what is found. *)
Definition or_find (setting : option string) (path problem : string) (choose : list Json → option string) : M string :=
  match setting with
  | Some s => if truthy_str s then mret s
              else data ← send GET path None;
                   match choose (metadata_list data) with Some x => mret x | None => fail (other_error problem) end
  | None => data ← send GET path None;
            match choose (metadata_list data) with Some x => mret x | None => fail (other_error problem) end
  end.

Definition resolveWorkloadResources (env_pool env_network : option string) : M (string * string) :=
  pool ← or_find env_pool "/1.0/storage-pools?recursion=1" "no Incus storage pool available for workload instances" choose_pool;
  network ← or_find env_network "/1.0/networks?recursion=1" "no managed Incus network available for workload instances" choose_network;
  mret (pool, network).

(** ** Teardown *)

Definition waitForOp (data : Json) : M unit :=
  match jstr (jget "type" data), jstr (jget "operation" data) with
  | Some t, Some op => if bool_decide (t = "async") then _ ← send GET (op +++ "/wait?timeout=60") None; mret () else mret ()
  | _, _ => mret ()
  end.

Definition lastPathSegment (url : string) : string := default EmptyString (last (js_filter truthy_str (split_on "/" url))).

Definition delete_and_wait (path : string) : M unit := data ← send DELETE path None; waitForOp data.

Definition stop_body : Json := JObj [("action", JStr "stop"); ("timeout", JNum 30); ("force", JBool true)].

Definition empty_instances (project : string) : M unit :=
  data ← send GET ("/1.0/instances?project=" +++ project) None;
  mforM_ (metadata_strings data) (λ url,
    let inst := lastPathSegment url in
    _ ← catch (stop ← send PUT ("/1.0/instances/" +++ inst +++ "/state?project=" +++ project) (Some stop_body); waitForOp stop)
              (λ _, mret ());
    delete_and_wait ("/1.0/instances/" +++ inst +++ "?project=" +++ project)).

Definition empty_images (project : string) : M unit :=
  data ← send GET ("/1.0/images?project=" +++ project) None;
  mforM_ (metadata_strings data) (λ url,
    delete_and_wait ("/1.0/images/" +++ lastPathSegment url +++ "?project=" +++ project)).

Definition uri_error : ApiError := other_error "URI malformed".

Definition empty_profiles (project : string) : M unit :=
  data ← send GET ("/1.0/profiles?project=" +++ project) None;
  mforM_ (metadata_strings data) (λ url,
    match decodeURIComponent (default EmptyString (head (split_on "?" (lastPathSegment url)))) with
    | None => fail uri_error
    | Some profile =>
        if bool_decide (profile = "default") || negb (truthy_str profile) then mret ()
        else _ ← send DELETE ("/1.0/profiles/" +++ encodeURIComponent profile +++ "?project=" +++ project) None; mret ()
    end).

Definition emptyProject (name : string) : M unit :=
  let project := encodeURIComponent name in
  _ ← empty_instances project; _ ← empty_images project; empty_profiles project.

Definition deleteProject (name : string) : M unit :=
  found ← getProject name;
  match found with
  | None => mret ()
  | Some _ =>
      _ ← emptyProject name;
      catch (_ ← send DELETE ("/1.0/projects/" +++ encodeURIComponent name) None; mret ())
            (λ e, if status e =? 404 then mret () else fail e)
  end.

(** ** Provisioning *)

(** The [try] of the create handler. [apply_manifest] is what comes after the
    project is there: the identity secret, the manifest and [kubectl apply]. *)
Definition create_on_incus (env_pool env_network : option string) (project : string) (meta : ProjectMetadata)
    (apply_manifest : string → M (option string)) : M (option string) :=
  _ ← createProject project meta;
  res ← resolveWorkloadResources env_pool env_network;
  _ ← ensureWorkloadProfile project res.1 res.2;
  apply_manifest res.2.

(** And its [catch], which takes back what a failed creation left: [delete_crd]
    removes the Cluster. *)
Definition provision (env_pool env_network : option string) (project : string) (meta : ProjectMetadata)
    (apply_manifest : string → M (option string)) (delete_crd : M unit) : M (ApiError + option string) :=
  catch
    (host ← create_on_incus env_pool env_network project meta apply_manifest; mret (inr host))
    (λ e,
      _ ← catch delete_crd (λ _, mret ());
      _ ← catch (deleteProject project) (λ _, mret ());
      mret (inl e)).
End incus.

(** ** Metadata *)

Lemma map_get_truthy key value config k :
  map_get (set_truthy key value config) k =
  match value with
  | Some v => if truthy_str v && bool_decide (k = key) then Some v else map_get config k
  | None => map_get config k
  end.
Proof.
  unfold set_truthy. destruct value as [v|]; [|done]. destruct (truthy_str v); [|done].
  rewrite map_get_set. by case_bool_decide.
Qed.

(** A value that is stamped only when it is not empty. *)
Definition stamped (v : option string) : option string := v ≫= λ s, if truthy_str s then Some s else None.

(** The project a cluster is created in is recognised afterwards, with the
    metadata it was stamped with; a project that was not stamped as managed has
    none, whatever its name and its other keys. *)
Theorem metadata_roundtrip name meta config :
  isManaged {| ip_name := name; ip_config := Some (buildProjectConfig meta) |} = true
  ∧ readMetadata {| ip_name := name; ip_config := Some (buildProjectConfig meta) |} =
      Some {| pm_role := pm_role meta; pm_cluster := pm_cluster meta;
              pm_k8sVersion := stamped (pm_k8sVersion meta); pm_operator := stamped (pm_operator meta) |}
  ∧ (map_get config KEY_managed ≠ Some "true" → readMetadata {| ip_name := name; ip_config := Some config |} = None).
Proof.
  assert (Hget : ∀ k, map_get (buildProjectConfig meta) k =
    if bool_decide (k = KEY_operator) && bool_decide (stamped (pm_operator meta) ≠ None) then stamped (pm_operator meta)
    else if bool_decide (k = KEY_k8sVersion) && bool_decide (stamped (pm_k8sVersion meta) ≠ None) then stamped (pm_k8sVersion meta)
    else map_get [(KEY_managed, "true"); (KEY_role, role_text (pm_role meta)); (KEY_cluster, pm_cluster meta)] k).
  { intros k. unfold buildProjectConfig. rewrite !map_get_truthy. unfold stamped.
    destruct (pm_operator meta) as [o|], (pm_k8sVersion meta) as [v|]; simpl;
      try destruct (truthy_str o); try destruct (truthy_str v); simpl; rewrite ?andb_false_r, ?andb_true_r; done. }
  assert (isManaged {| ip_name := name; ip_config := Some (buildProjectConfig meta) |} = true) as Hm.
  { unfold isManaged. cbn [ip_config option_bind mbind]. by rewrite Hget. }
  split; [done|]. split.
  - unfold readMetadata. rewrite Hm. simpl (default [] _). rewrite !Hget.
    cbn -[stamped]. destruct meta as [[] c v o]; cbn -[stamped];
      destruct (stamped v) eqn:Hv, (stamped o) eqn:Ho; done.
  - intros Hc. unfold readMetadata, isManaged. simpl. by rewrite bool_decide_eq_false_2.
Qed.

(** ** What a failed creation takes with it *)

(** A program that returns a value with [P], whatever was sent before, and has
    sent the requests [R] by then. *)
Definition does {A} (m : M A) (P : A → Prop) (R : list Request) : Prop :=
  ∀ tr, ∃ x more, m tr = (Ok x, tr ++ more) ∧ P x ∧ ∀ r, r ∈ R → r ∈ more.

Lemma does_ret {A} (x : A) (P : A → Prop) : P x → does (mret x) P [].
Proof. intros Hx tr. exists x, []. rewrite app_nil_r. split_and!; [done|done|]. intros r Hr. by apply elem_of_nil in Hr. Qed.

Lemma does_unit : does (mret ()) (λ _, True) [].
Proof. by apply does_ret. Qed.

Lemma does_bind {A B} (m : M A) (f : A → M B) P Q R1 R2 :
  does m P R1 → (∀ x, P x → does (f x) Q R2) → does (m ≫= f) Q (R1 ++ R2).
Proof.
  intros Hm Hf tr. destruct (Hm tr) as (x & m1 & E1 & Hx & H1). destruct (Hf x Hx (tr ++ m1)) as (y & m2 & E2 & Hy & H2).
  exists y, (m1 ++ m2). unfold mbind, M_bind. rewrite E1, E2, app_assoc. split_and!; [done|done|].
  intros r [Hr|Hr]%elem_of_app; apply elem_of_app; auto.
Qed.

Lemma does_catch {A} (m : M A) h P R : does m P R → does (catch m h) P R.
Proof. intros Hm tr. destruct (Hm tr) as (x & more & E & Hx & H1). exists x, more. unfold catch. by rewrite E. Qed.

Lemma does_weaken {A} (m : M A) (P Q : A → Prop) R R' :
  does m P R → (∀ x, P x → Q x) → (∀ r, r ∈ R' → r ∈ R) → does m Q R'.
Proof. intros Hm HP HR tr. destruct (Hm tr) as (x & more & E & Hx & H1). exists x, more. split_and!; auto. Qed.

(** The requests of a loop: what each turn sends. *)
Lemma does_for {A} (l : list A) f (g : A → Request) : (∀ x, x ∈ l → does (f x) (λ _, True) [g x]) →
  does (mforM_ l f) (λ _, True) (g <$> l).
Proof.
  induction l as [|x l IH]; intros Hf; [apply does_unit|].
  change (g <$> x :: l) with ([g x] ++ (g <$> l)). eapply does_bind; [apply Hf; by left|].
  intros [] _. apply IH. intros y Hy. apply Hf. by right.
Qed.

(** A loop whose turns all return. *)
Lemma does_loop {A} (l : list A) f : (∀ x, x ∈ l → does (f x) (λ _, True) []) → does (mforM_ l f) (λ _, True) [].
Proof.
  induction l as [|x l IH]; intros Hf; [apply does_unit|].
  change (@nil Request) with (@nil Request ++ []). eapply does_bind; [apply Hf; by left|].
  intros [] _. apply IH. intros y Hy. apply Hf. by right.
Qed.

Definition request (m : HttpMethod) (path : string) : Request := {| rq_method := m; rq_path := path; rq_body := None |}.

Section answered.
Context (ans : list Request → Request → result Json).
(** Incus answers everything. *)
Context (Hans : ∀ tr r, is_ok (ans tr r) = true).

Lemma does_send m p : does (send ans m p None) (λ data, ∃ tr, ans tr (request m p) = Ok data) [request m p].
Proof.
  intros tr. unfold send. specialize (Hans tr (request m p)) as Ha. unfold request in *.
  destruct (ans tr _) as [data|] eqn:E; [|done]. exists data, [{| rq_method := m; rq_path := p; rq_body := None |}].
  split_and!; [done|by exists tr|done].
Qed.

Lemma does_send_body m p b : does (send ans m p (Some b)) (λ _, True) [].
Proof.
  intros tr. unfold send. specialize (Hans tr {| rq_method := m; rq_path := p; rq_body := Some b |}) as Ha.
  destruct (ans tr _) as [data|] eqn:E; [|done]. exists data, [{| rq_method := m; rq_path := p; rq_body := Some b |}].
  split_and!; [done|done|]. intros r Hr. by apply elem_of_nil in Hr.
Qed.

Lemma does_wait data : does (waitForOp ans data) (λ _, True) [].
Proof.
  unfold waitForOp. destruct (jstr (jget "type" data)), (jstr (jget "operation" data)); try apply does_unit.
  case_bool_decide; [|apply does_unit]. eapply does_weaken; [eapply does_bind; [apply does_send|]|done|].
  - intros x _. apply does_unit.
  - intros r Hr. by apply elem_of_nil in Hr.
Qed.

Lemma does_delete_and_wait p : does (delete_and_wait ans p) (λ _, True) [request DELETE p].
Proof.
  unfold delete_and_wait. eapply does_weaken; [eapply does_bind; [apply does_send|]|done|].
  - intros x _. apply does_wait.
  - intros r Hr. by rewrite app_nil_r.
Qed.

(** The request that removes an instance. *)
Definition delete_instance (project url : string) : Request :=
  request DELETE ("/1.0/instances/" +++ lastPathSegment url +++ "?project=" +++ project).

Lemma does_empty_instances project urls :
  (∀ tr data, ans tr (request GET ("/1.0/instances?project=" +++ project)) = Ok data → metadata_strings data = urls) →
  does (empty_instances ans project) (λ _, True) (delete_instance project <$> urls).
Proof.
  intros Hurls. unfold empty_instances. eapply does_weaken; [eapply does_bind; [apply does_send|]|done|].
  - intros data [tr Hdata]. cbn beta. rewrite (Hurls tr data Hdata).
    apply (does_for urls _ (delete_instance project)). intros url _.
    change [delete_instance project url] with ([] ++ [delete_instance project url]).
    eapply does_bind; [apply does_catch; eapply does_weaken; [eapply does_bind; [apply does_send_body|]|done|]|].
    + intros stop _. apply does_wait.
    + intros r Hr. by apply elem_of_nil in Hr.
    + intros x _. apply does_delete_and_wait.
  - intros r Hr. apply elem_of_app. by right.
Qed.

Lemma does_empty_images project : does (empty_images ans project) (λ _, True) [].
Proof.
  unfold empty_images. eapply does_weaken; [eapply does_bind; [apply does_send|]|done|].
  - intros data _. apply does_loop. intros url _. eapply does_weaken; [apply does_delete_and_wait|done|].
    intros r Hr. by apply elem_of_nil in Hr.
  - intros r Hr. by apply elem_of_nil in Hr.
Qed.

(** The profile a listed address names. *)
Definition profile_of (url : string) : option string :=
  decodeURIComponent (default EmptyString (head (split_on "?" (lastPathSegment url)))).

Lemma does_empty_profiles project :
  (∀ tr data url, ans tr (request GET ("/1.0/profiles?project=" +++ project)) = Ok data →
     url ∈ metadata_strings data → profile_of url ≠ None) →
  does (empty_profiles ans project) (λ _, True) [].
Proof.
  intros Hp. unfold empty_profiles. eapply does_weaken; [eapply does_bind; [apply does_send|]|done|].
  - intros data [tr Hdata]. apply does_loop. intros url Hurl. specialize (Hp tr data url Hdata Hurl).
    fold (profile_of url). destruct (profile_of url) as [profile|]; [|done].
    destruct (_ || _); [apply does_unit|]. eapply does_weaken; [eapply does_bind; [apply does_send|]|done|].
    + intros x _. apply does_unit.
    + intros r Hr. by apply elem_of_nil in Hr.
  - intros r Hr. by apply elem_of_nil in Hr.
Qed.

Lemma does_deleteProject name urls :
  (∀ tr data, ans tr (request GET ("/1.0/projects/" +++ encodeURIComponent name)) = Ok data →
     ∃ p, jget "metadata" data = Some p ∧ p ≠ JNull) →
  (∀ tr data, ans tr (request GET ("/1.0/instances?project=" +++ encodeURIComponent name)) = Ok data → metadata_strings data = urls) →
  (∀ tr data url, ans tr (request GET ("/1.0/profiles?project=" +++ encodeURIComponent name)) = Ok data →
     url ∈ metadata_strings data → profile_of url ≠ None) →
  does (deleteProject ans name) (λ _, True)
    ((delete_instance (encodeURIComponent name) <$> urls) ++ [request DELETE ("/1.0/projects/" +++ encodeURIComponent name)]).
Proof.
  intros Hproj Hinst Hprof. unfold deleteProject.
  change ((delete_instance _ <$> urls) ++ ?l) with ([] ++ ((delete_instance (encodeURIComponent name) <$> urls) ++ l)).
  eapply (does_bind _ _ (λ found, ∃ p, found = Some p)).
  - unfold getProject. apply does_catch. eapply does_weaken; [eapply does_bind; [apply does_send|]|intros x Hx; exact Hx|].
    + intros data [tr Hdata]. destruct (Hproj tr data Hdata) as (p & Hp & Hn). rewrite Hp.
      apply does_ret. exists p. by destruct p.
    + intros r Hr. by apply elem_of_nil in Hr.
  - intros found [p ->]. unfold emptyProject.
    eapply does_bind.
    + eapply does_weaken; [eapply does_bind; [by apply does_empty_instances|]|done|].
      * intros x _. eapply does_bind; [apply does_empty_images|]. intros y _. by apply does_empty_profiles.
      * intros r Hr. apply elem_of_app. by left.
    + intros x _. apply does_catch. eapply does_weaken; [eapply does_bind; [apply does_send|]|done|].
      * intros y _. apply does_unit.
      * intros r Hr. by rewrite app_nil_r.
Qed.
End answered.

(** A creation that fails takes the project with it even when it was there
    before and is not the agent's: creating a project that exists does nothing
    without looking at whose it is, and the rollback then force-stops and
    deletes every instance in it and the project itself. *)
Theorem failed_create_deletes_existing_project ans env_pool env_network project meta apply_manifest delete_crd urls e tr tr' :
  (∀ tr r, is_ok (ans tr r) = true) →
  (∀ tr data, ans tr (request GET ("/1.0/projects/" +++ encodeURIComponent project)) = Ok data →
     ∃ p, jget "metadata" data = Some p ∧ p ≠ JNull) →
  (∀ tr data, ans tr (request GET ("/1.0/instances?project=" +++ encodeURIComponent project)) = Ok data → metadata_strings data = urls) →
  (∀ tr data url, ans tr (request GET ("/1.0/profiles?project=" +++ encodeURIComponent project)) = Ok data →
     url ∈ metadata_strings data → profile_of url ≠ None) →
  provision ans env_pool env_network project meta apply_manifest delete_crd tr = (Ok (inl e), tr') →
  (∀ url, url ∈ urls → delete_instance (encodeURIComponent project) url ∈ tr')
  ∧ request DELETE ("/1.0/projects/" +++ encodeURIComponent project) ∈ tr'.
Proof.
  intros Hans Hproj Hinst Hprof.
  pose proof (does_deleteProject ans Hans project urls Hproj Hinst Hprof) as Hdel.
  unfold provision, catch at 1, mbind, M_bind.
  destruct (create_on_incus _ _ _ _ _ _ tr) as [[host|e1] tr1]; [done|].
  assert (∃ tr2, catch delete_crd (λ _, mret ()) tr1 = (Ok (), tr2)) as [tr2 ->].
  { unfold catch. destruct (delete_crd tr1) as [[[]|] t]; by eexists. }
  destruct (does_catch _ (λ _, mret ()) _ _ Hdel tr2) as (x & more & -> & _ & Hmore).
  intros [= _ <-]. split; [intros url Hurl|]; apply elem_of_app; right; apply Hmore, elem_of_app; [left|right; by left].
  apply list_elem_of_fmap. by exists url.
Qed.

(** An Incus with one storage pool, no managed network, and a project of
    somebody else's with a running instance. *)
Definition demo_answer (tr : list Request) (r : Request) : result Json :=
  let data l := Ok (JObj [("metadata", l)]) in
  if bool_decide (rq_path r = "/1.0/projects/shop") then data (JObj [("name", JStr "shop"); ("config", JObj [])])
  else if bool_decide (rq_path r = "/1.0/instances?project=shop") then data (JArr [JStr "/1.0/instances/db"])
  else if bool_decide (rq_path r = "/1.0/storage-pools?recursion=1") then data (JArr [JObj [("name", JStr "local"); ("status", JStr "Created")]])
  else data (JArr []).

Definition demo_meta : ProjectMetadata :=
  {| pm_role := workload; pm_cluster := "c1"; pm_k8sVersion := Some "v1.37.0"; pm_operator := None |}.

Definition demo_provision : result (ApiError + option string) * list Request :=
  provision demo_answer None None "shop" demo_meta (λ _, mret None) (mret ()) [].

Lemma failed_create_deletes_existing_project_witness :
  ∃ e tr', demo_provision = (Ok (inl e), tr') ∧ request DELETE "/1.0/instances/db?project=shop" ∈ tr'.
Proof.
  destruct demo_provision as [[[e|]|] tr'] eqn:E; [|vm_compute in E; discriminate..].
  exists e, tr'. split; [reflexivity|].
  refine (proj1 (failed_create_deletes_existing_project demo_answer None None "shop" demo_meta (λ _, mret None) (mret ())
    ["/1.0/instances/db"] e [] tr' _ _ _ _ E) "/1.0/instances/db" _).
  - intros tr r. unfold demo_answer. by repeat case_bool_decide.
  - intros tr data Hd. vm_compute in Hd. injection Hd as <-. eexists. split; [reflexivity|discriminate].
  - intros tr data Hd. vm_compute in Hd. by injection Hd as <-.
  - intros tr data url Hd Hu. vm_compute in Hd. injection Hd as <-. vm_compute in Hu. by apply elem_of_nil in Hu.
  - by left.
Defined.
