(* ===== verification/EndpointPin.v ===== *)
(** * EndpointPin: a fixed API endpoint for a workload cluster

    Models [lib/endpoint-pin.ts] of the Kubernetes agent: the ClusterClass
    variable and patch that carry the address, the manifest with the endpoint
    pinned, and the diagnosis of clusters that were not. Documents are JSON
    values; an optional chain reads as absence. *)

From S2P Require Import Prelude JsString Effects Upgrade CapiStatus AgentProjects.

Definition ENDPOINT_VARIABLE : string := "incendioControlPlaneHost".
Definition ENDPOINT_PATCH : string := "incendioControlPlaneEndpoint".
Definition LB_PROFILE : string := "incendio-lb".
Definition DEFAULT_INFRA_API : string := "infrastructure.cluster.x-k8s.io/v1alpha2".

(** ** JSON objects *)

Definition jlist (j : option Json) : option (list Json) := match j with Some (JArr l) => Some l | _ => None end.
(** [x?.name === name] *)
Definition is_named (name : string) (j : Json) : bool := bool_decide (jstr (jget "name" j) = Some name).
(** [{ ...x, key: v }] *)
Definition jset (key : string) (v j : Json) : Json :=
  match j with JObj l => JObj (map_set l key v) | _ => JObj [(key, v)] end.

(** ** The ClusterClass *)

Definition endpoint_variable : Json :=
  JObj [("name", JStr ENDPOINT_VARIABLE); ("required", JBool false);
        ("schema", JObj [("openAPIV3Schema", JObj [("type", JStr "string");
           ("description", JStr "IPv4 address of the control plane endpoint, pinned on the lxc/oci load balancer by the Incendio agent")])])].

Definition newline : string := String (Ascii.ascii_of_nat 10) EmptyString.

Definition endpoint_patch (templateRef : option Json) : Json :=
  JObj [("name", JStr ENDPOINT_PATCH); ("description", JStr "Control plane endpoint pinned by the Incendio agent");
        ("enabledIf", JStr ("{{ if ." +++ ENDPOINT_VARIABLE +++ " }}true{{ end }}"));
        ("definitions", JArr [JObj
          [("selector", JObj [("apiVersion", JStr (default DEFAULT_INFRA_API (jstr (templateRef ≫= jget "apiVersion"))));
                              ("kind", JStr (default "LXCClusterTemplate" (jstr (templateRef ≫= jget "kind"))));
                              ("matchResources", JObj [("infrastructureCluster", JBool true)])]);
           ("jsonPatches", JArr [JObj [("op", JStr "add"); ("path", JStr "/spec/template/spec/controlPlaneEndpoint");
              ("valueFrom", JObj [("template", JStr ("host: {{ ." +++ ENDPOINT_VARIABLE +++ " | quote }}" +++ newline +++ "port: 6443"))])]])]])].

(** An [add] operation: the path and the value. *)
Record AddOp := { add_path : string; add_value : Json }.

(** Appends to a list of the class, or makes it. *)
Definition append_op (list_ : option (list Json)) (key : string) (v : Json) : AddOp :=
  match list_ with
  | Some _ => {| add_path := "/spec/" +++ key +++ "/-"; add_value := v |}
  | None => {| add_path := "/spec/" +++ key; add_value := JArr [v] |}
  end.

Definition class_list (cc : Json) (key : string) : option (list Json) := jlist (jget "spec" cc ≫= jget key).

Definition has_named (name : string) (l : option (list Json)) : bool := match l with Some l => some (is_named name) l | None => false end.

Definition classEndpointPatch (cc : Json) : list AddOp :=
  let templateRef := (jget "spec" cc ≫= jget "infrastructure") ≫= jget "templateRef" in
  (if has_named ENDPOINT_VARIABLE (class_list cc "variables") then []
   else [append_op (class_list cc "variables") "variables" endpoint_variable])
  ++ (if has_named ENDPOINT_PATCH (class_list cc "patches") then []
      else [append_op (class_list cc "patches") "patches" (endpoint_patch templateRef)]).

Definition apply_add (spec : Json) (op : AddOp) : Json :=
  let parts := split_on "/" (add_path op) in
  match parts !! 2%nat with
  | Some key =>
      if truthy_str key then
        let l := default [] (jlist (jget key spec)) in
        jset key (if bool_decide (parts !! 3%nat = Some "-") then JArr (l ++ [add_value op]) else add_value op) spec
      else spec
  | None => spec
  end.

Definition applyClassPatch (doc : Json) (ops : list AddOp) : Json :=
  jset "spec" (foldl apply_add (default (JObj []) (jget "spec" doc)) ops) doc.

(** ** The manifest *)

Definition is_cluster (d : Json) : bool := bool_decide (jstr (jget "kind" d) = Some "Cluster").
Definition clusterDoc (docs : list Json) : option Json := js_find is_cluster docs.

Definition topology_of (d : Json) : option Json := jget "spec" d ≫= jget "topology".

Definition clusterClassName (docs : list Json) : option string :=
  jstr (((clusterDoc docs ≫= topology_of) ≫= jget "classRef") ≫= jget "name").

Inductive LbKind := lxc | oci.
Definition kind_text (k : LbKind) : string := match k with lxc => "lxc" | oci => "oci" end.

Definition haproxyLoadBalancer (docs : list Json) : option (LbKind * Json) :=
  let lb := (jlist ((clusterDoc docs ≫= topology_of) ≫= jget "variables") ≫= js_find (is_named "loadBalancer")) ≫= jget "value" in
  let pick k := lb ≫= λ j, (λ spec, (k, match spec with JNull => JObj [] | s => s end)) <$> jget (kind_text k) j in
  match pick lxc with Some r => Some r | None => pick oci end.

(** [spec.profiles], or the default profile when there is none. *)
Definition lb_profiles (spec : Json) : list string :=
  match jlist (jget "profiles" spec) with
  | Some ((_ :: _) as l) => omap (λ j, jstr (Some j)) l
  | _ => ["default"]
  end.

Definition with_profile (spec : Json) (profile : string) : Json :=
  let profiles := lb_profiles spec in
  jset "profiles" (JArr (JStr <$> (if includes profiles profile then profiles else profiles ++ [profile]))) spec.

Definition pinned_variables (kind : LbKind) (spec : Json) (host profile : string) (variables : list Json) : list Json :=
  let loadBalancer := JObj [(kind_text kind, with_profile spec profile)] in
  ((λ v, if is_named "loadBalancer" v then jset "value" loadBalancer v else v)
     <$> js_filter (λ v, negb (is_named ENDPOINT_VARIABLE v)) variables)
  ++ [JObj [("name", JStr ENDPOINT_VARIABLE); ("value", JStr host)]].

(** The cluster document is replaced where it is. *)
Fixpoint replace_cluster (pinned : Json) (docs : list Json) : list Json :=
  match docs with
  | [] => []
  | d :: docs => if is_cluster d then pinned :: docs else d :: replace_cluster pinned docs
  end.

Definition pinEndpoint (docs : list Json) (host profile : string) : option (list Json) :=
  match haproxyLoadBalancer docs, clusterDoc docs, clusterDoc docs ≫= topology_of with
  | Some (kind, spec), Some cluster, Some topology =>
      let variables := pinned_variables kind spec host profile (default [] (jlist (jget "variables" topology))) in
      let pinned := jset "spec" (jset "topology" (jset "variables" (JArr variables) topology)
                                   (default (JObj []) (jget "spec" cluster))) cluster in
      Some (replace_cluster pinned docs)
  | _, _, _ => None
  end.

(** [JSON.stringify] of this value. *)
Definition manifestList (docs : list Json) : Json :=
  JObj [("apiVersion", JStr "v1"); ("kind", JStr "List"); ("items", JArr docs)].

(** ** Detection *)

(** The longest prefix of characters with [p], when it is not empty. *)
Definition span1 (p : Ascii.ascii → bool) (s : string) : option string :=
  let '(a, _) := Digits.span p s in if truthy_str a then Some a else None.

(** [\[\[^\]\]+\]] at the front: the brackets and what is between them. *)
Definition bracketed (s : string) : option string :=
  match s with
  | String c r =>
      if char_is c "[" then
        match Digits.span (λ c, negb (char_is c "]")) r with
        | (inner, String _ _) => if truthy_str inner then Some ("[" +++ inner +++ "]") else None
        | _ => None
        end
      else None
  | EmptyString => None
  end.

(** [s.replace(/^\[|\]$/g, "")] *)
Definition unbracket (s : string) : string :=
  let s := match s with String c r => if char_is c "[" then r else s | EmptyString => s end in
  if ends_with "]" s then str_take (String.length s - 1)%nat s else s.

Definition endpointHost (endpoint : option string) : option string :=
  match endpoint with
  | Some e =>
      let rest := if starts_with "https://" e then Some (str_drop 8 e)
                  else if starts_with "http://" e then Some (str_drop 7 e) else None in
      rest ≫= λ r, unbracket <$> or_else (bracketed r) (span1 (λ c, negb (char_is c "/") && negb (char_is c ":")) r)
  | None => None
  end.

Definition endpointProblem (endpoint : option string) (available haproxy : bool) : option string :=
  match endpointHost endpoint with
  | Some host =>
      if available || negb haproxy || negb (has_char ":" host) then None
      else Some ("The API endpoint " +++ host +++ " is an IPv6 address, but the cluster's haproxy load balancer "
                 +++ "only listens on IPv4, so the control plane cannot come up. The load balancer got its "
                 +++ "IPv6 address before its IPv4 one. Delete the cluster and create it again: the agent "
                 +++ "now pins an IPv4 endpoint for new clusters.")
  | None => None
  end.

(** ** The ClusterClass is taught once *)

Lemma jget_jset k v j k' : jget k' (jset k v j) = if bool_decide (k' = k) then Some v else
  match j with JObj _ => jget k' j | _ => None end.
Proof.
  destruct j; simpl; try (unfold map_get; by case_bool_decide). apply map_get_set.
Qed.

Lemma jget_jset_same k v j : jget k (jset k v j) = Some v.
Proof. rewrite jget_jset. by rewrite bool_decide_eq_true_2. Qed.

Lemma jget_jset_other k v j k' : k' ≠ k → jget k' (jset k v j) = jget k' j.
Proof. intros Hk. rewrite jget_jset, bool_decide_eq_false_2 by done. by destruct j. Qed.

(** The specification part of a class, an object or absent. *)
Definition class_spec (cc : Json) : Json := default (JObj []) (jget "spec" cc).

Lemma class_list_spec cc key : class_list cc key = jlist (jget key (class_spec cc)).
Proof. unfold class_list, class_spec. by destruct (jget "spec" cc). Qed.

Lemma class_spec_set cc j : class_spec (jset "spec" j cc) = j.
Proof. unfold class_spec. by rewrite jget_jset_same. Qed.

Lemma class_paths key : key ∈ ["variables"; "patches"] →
  truthy_str key = true ∧ split_on "/" ("/spec/" +++ key +++ "/-") = [EmptyString; "spec"; key; "-"]
  ∧ split_on "/" ("/spec/" +++ key) = [EmptyString; "spec"; key].
Proof. intros [->| ->%list_elem_of_singleton]%elem_of_cons; split_and!; reflexivity. Qed.

(** Appending to a list of the class leaves it with one element more, and the rest alone. *)
Lemma apply_append l key v spec : key ∈ ["variables"; "patches"] → l = jlist (jget key spec) →
  apply_add spec (append_op l key v) = jset key (JArr (default [] l ++ [v])) spec.
Proof.
  intros (Ht & H1 & H2)%class_paths ->. unfold append_op, apply_add.
  destruct (jlist (jget key spec)) as [l|] eqn:E; cbn [add_path add_value];
    [rewrite H1|rewrite H2]; cbn [lookup list_lookup]; rewrite Ht, ?E.
  - by rewrite bool_decide_eq_true_2.
  - by rewrite bool_decide_eq_false_2.
Qed.

Definition with_element (key : string) (name : string) (v : Json) (spec : Json) : Json :=
  if has_named name (jlist (jget key spec)) then spec else jset key (JArr (default [] (jlist (jget key spec)) ++ [v])) spec.

Lemma with_element_get key name v spec : is_named name v = true →
  has_named name (jlist (jget key (with_element key name v spec))) = true
  ∧ default [] (jlist (jget key spec)) `prefix_of` default [] (jlist (jget key (with_element key name v spec)))
  ∧ ∀ k, k ≠ key → jget k (with_element key name v spec) = jget k spec.
Proof.
  intros Hv. unfold with_element. destruct (has_named name (jlist (jget key spec))) eqn:E; [by split_and!|].
  rewrite jget_jset_same. simpl. split_and!.
  - apply some_spec. exists v. split; [|done]. apply elem_of_app. right. by left.
  - by eexists.
  - intros k Hk. by apply jget_jset_other.
Qed.

Lemma class_patch_spec cc :
  class_spec (applyClassPatch cc (classEndpointPatch cc)) =
  with_element "patches" ENDPOINT_PATCH (endpoint_patch ((jget "spec" cc ≫= jget "infrastructure") ≫= jget "templateRef"))
    (with_element "variables" ENDPOINT_VARIABLE endpoint_variable (class_spec cc)).
Proof.
  unfold applyClassPatch. rewrite class_spec_set. fold (class_spec cc). unfold classEndpointPatch, with_element.
  rewrite foldl_app, !class_list_spec.
  destruct (has_named ENDPOINT_VARIABLE (jlist (jget "variables" (class_spec cc)))) eqn:Ev; simpl foldl at 2.
  - destruct (has_named ENDPOINT_PATCH _) eqn:Ep; [done|]. cbn [foldl]. by rewrite apply_append by (done || right; left).
  - rewrite (apply_append _ "variables") by (done || left).
    rewrite jget_jset_other by done.
    destruct (has_named ENDPOINT_PATCH _) eqn:Ep; [done|]. cbn [foldl].
    rewrite apply_append; [|by right; left|by rewrite jget_jset_other]. done.
Qed.

(** Teaching a class the endpoint is additive and happens once: the class
    gets the variable and the patch, its own variables and patches stay in
    front of them in their order and everything else stays as it was, and
    afterwards there is nothing left to teach. *)
Theorem class_taught_once cc :
  let cc' := applyClassPatch cc (classEndpointPatch cc) in
  classEndpointPatch cc' = []
  ∧ has_named ENDPOINT_VARIABLE (class_list cc' "variables") = true
  ∧ has_named ENDPOINT_PATCH (class_list cc' "patches") = true
  ∧ default [] (class_list cc "variables") `prefix_of` default [] (class_list cc' "variables")
  ∧ default [] (class_list cc "patches") `prefix_of` default [] (class_list cc' "patches")
  ∧ ∀ key, key ∉ ["variables"; "patches"] → jget key (class_spec cc') = jget key (class_spec cc).
Proof.
  intros cc'. rewrite !class_list_spec.
  pose proof (with_element_get "variables" ENDPOINT_VARIABLE endpoint_variable (class_spec cc) eq_refl) as (Hv1 & Hv2 & Hv3).
  pose proof (with_element_get "patches" ENDPOINT_PATCH (endpoint_patch ((jget "spec" cc ≫= jget "infrastructure") ≫= jget "templateRef"))
    (with_element "variables" ENDPOINT_VARIABLE endpoint_variable (class_spec cc)) eq_refl) as (Hp1 & Hp2 & Hp3).
  rewrite <-class_patch_spec in Hp1, Hp2, Hp3. fold cc' in Hp1, Hp2, Hp3.
  rewrite (Hv3 "patches") in Hp2 by done. rewrite <-(Hp3 "variables") in Hv1, Hv2 by done.
  split_and!; try done.
  - unfold classEndpointPatch. by rewrite !class_list_spec, Hv1, Hp1.
  - intros key Hk. rewrite not_elem_of_cons, not_elem_of_cons in Hk. destruct Hk as (Hk1 & Hk2 & _).
    by rewrite Hp3, Hv3.
Qed.

(** ** The pinned manifest *)

Lemma map_set_overwrite (m : js_map string Json) k v w : map_set (map_set m k v) k w = map_set m k w.
Proof.
  induction m as [|[x y] m IH]; simpl; [by rewrite bool_decide_eq_true_2|].
  case_bool_decide as E; simpl; [by rewrite bool_decide_eq_true_2|by rewrite bool_decide_eq_false_2, IH].
Qed.

Lemma jset_overwrite k v w j : jset k w (jset k v j) = jset k w j.
Proof. destruct j; simpl; try (by rewrite bool_decide_eq_true_2). by rewrite map_set_overwrite. Qed.

Lemma is_named_jset name k v j : k ≠ "name" → is_named name (jset k v j) = is_named name j.
Proof. intros Hk. unfold is_named. by rewrite jget_jset_other. Qed.

Lemma omap_strings (l : list string) : omap (λ j, jstr (Some j)) (JStr <$> l : list Json) = l.
Proof. induction l as [|x l IH]; [done|]. change (x :: omap (λ j, jstr (Some j)) (JStr <$> l : list Json) = x :: l). by rewrite IH. Qed.

Lemma lb_profiles_with spec profile :
  lb_profiles (with_profile spec profile)
  = if includes (lb_profiles spec) profile then lb_profiles spec else lb_profiles spec ++ [profile].
Proof.
  unfold with_profile. set (l := if includes _ _ then _ else _). unfold lb_profiles at 1. rewrite jget_jset_same. simpl.
  destruct l as [|x l'] eqn:E; csimpl; [|by rewrite omap_strings].
  unfold l in E. destruct (includes _ _) eqn:Hi; [|by apply app_eq_nil in E as [_ ?]].
  apply includes_spec in Hi. rewrite E in Hi. by apply elem_of_nil in Hi.
Qed.

Lemma with_profile_twice spec profile : with_profile (with_profile spec profile) profile = with_profile spec profile.
Proof.
  unfold with_profile at 1. rewrite lb_profiles_with. unfold with_profile.
  assert (includes (if includes (lb_profiles spec) profile then lb_profiles spec else lb_profiles spec ++ [profile]) profile = true) as ->.
  { destruct (includes (lb_profiles spec) profile) eqn:E; [done|]. apply includes_spec, elem_of_app. right. by left. }
  by rewrite jset_overwrite.
Qed.

Section pin_loadBalancer.
Context (loadBalancer : Json).

(** The variables with the load balancer's value replaced, the endpoint's left out. *)
Definition set_lb (v : Json) : Json := if is_named "loadBalancer" v then jset "value" loadBalancer v else v.

Lemma set_lb_named name v : is_named name (set_lb v) = is_named name v.
Proof. unfold set_lb. destruct (is_named "loadBalancer" v); [by apply is_named_jset|done]. Qed.

Lemma set_lb_twice v : set_lb (set_lb v) = set_lb v.
Proof.
  unfold set_lb at 1. rewrite set_lb_named. unfold set_lb. destruct (is_named "loadBalancer" v); [|done]. apply jset_overwrite.
Qed.

Lemma filter_set_lb l : js_filter (λ v, negb (is_named ENDPOINT_VARIABLE v)) (set_lb <$> l)
  = set_lb <$> js_filter (λ v, negb (is_named ENDPOINT_VARIABLE v)) l.
Proof.
  induction l as [|v l IH]; csimpl; [done|]. rewrite set_lb_named. destruct (negb _); csimpl; by rewrite IH.
Qed.

Lemma find_set_lb l : js_find (is_named "loadBalancer") (set_lb <$> js_filter (λ v, negb (is_named ENDPOINT_VARIABLE v)) l)
  = set_lb <$> js_find (is_named "loadBalancer") l.
Proof.
  unfold js_find. induction l as [|v l IH]; csimpl; [done|].
  destruct (is_named "loadBalancer" v) eqn:E.
  - assert (is_named ENDPOINT_VARIABLE v = false) as ->.
    { unfold is_named in *. bool_prop. rewrite E. by apply bool_decide_eq_false_2. }
    csimpl. by rewrite set_lb_named, E.
  - destruct (negb _); csimpl; rewrite ?set_lb_named, ?E; apply IH.
Qed.
End pin_loadBalancer.

Lemma pinned_variables_eq kind spec host profile l :
  pinned_variables kind spec host profile l =
  (set_lb (JObj [(kind_text kind, with_profile spec profile)]) <$> js_filter (λ v, negb (is_named ENDPOINT_VARIABLE v)) l)
  ++ [JObj [("name", JStr ENDPOINT_VARIABLE); ("value", JStr host)]].
Proof. done. Qed.

Lemma filter_app_endpoint l host :
  js_filter (λ v, negb (is_named ENDPOINT_VARIABLE v)) (l ++ [JObj [("name", JStr ENDPOINT_VARIABLE); ("value", JStr host)]])
  = js_filter (λ v, negb (is_named ENDPOINT_VARIABLE v)) l.
Proof. unfold js_filter. rewrite List.filter_app. simpl. by rewrite app_nil_r. Qed.

Lemma pinned_variables_twice kind spec host host' profile l :
  pinned_variables kind (with_profile spec profile) host' profile (pinned_variables kind spec host profile l)
  = pinned_variables kind spec host' profile l.
Proof.
  rewrite !pinned_variables_eq, filter_app_endpoint, with_profile_twice, filter_set_lb. f_equal.
  rewrite js_filter_filter, <-list_fmap_compose.
  assert (js_filter (λ x, negb (is_named ENDPOINT_VARIABLE x) && negb (is_named ENDPOINT_VARIABLE x)) l
          = js_filter (λ v, negb (is_named ENDPOINT_VARIABLE v)) l) as ->
    by (apply js_filter_ext; intros x _; by destruct (negb _)).
  apply list_fmap_ext. intros i v _. apply set_lb_twice.
Qed.

Lemma find_replace pinned docs : is_cluster pinned = true →
  clusterDoc (replace_cluster pinned docs) = (λ _, pinned) <$> clusterDoc docs.
Proof.
  intros Hp. unfold clusterDoc, js_find. induction docs as [|d docs IH]; csimpl; [done|].
  destruct (is_cluster d) eqn:E; simpl; [by rewrite Hp|by rewrite E].
Qed.

Lemma replace_twice p p' docs : is_cluster p = true → replace_cluster p' (replace_cluster p docs) = replace_cluster p' docs.
Proof.
  intros Hp. induction docs as [|d docs IH]; csimpl; [done|].
  destruct (is_cluster d) eqn:E; simpl; [by rewrite Hp|by rewrite E, IH].
Qed.

Lemma replace_others pinned docs i d : docs !! i = Some d → is_cluster d = false →
  replace_cluster pinned docs !! i = Some d.
Proof.
  revert i. induction docs as [|d' docs IH]; intros [|i] Hi Hd; simplify_eq/=; [by rewrite Hd|].
  destruct (is_cluster d'); [done|]. by apply IH.
Qed.

(** The cluster document with other variables. *)
Definition set_variables (variables : list Json) (cluster topology : Json) : Json :=
  jset "spec" (jset "topology" (jset "variables" (JArr variables) topology) (default (JObj []) (jget "spec" cluster))) cluster.

Lemma set_variables_cluster l cluster topology : is_cluster (set_variables l cluster topology) = is_cluster cluster.
Proof. unfold is_cluster, set_variables. by rewrite jget_jset_other. Qed.

Lemma set_variables_topology l cluster topology :
  topology_of (set_variables l cluster topology) = Some (jset "variables" (JArr l) topology).
Proof. unfold topology_of, set_variables. rewrite jget_jset_same. simpl. by rewrite jget_jset_same. Qed.

Lemma set_variables_twice l l' cluster topology :
  set_variables l' (set_variables l cluster topology) (jset "variables" (JArr l) topology) = set_variables l' cluster topology.
Proof. unfold set_variables. rewrite jget_jset_same. simpl. by rewrite !jset_overwrite. Qed.

(** What pinning finds in a manifest and makes of it. *)
Lemma pin_inv docs host profile docs' : pinEndpoint docs host profile = Some docs' →
  ∃ kind spec cluster topology l,
    haproxyLoadBalancer docs = Some (kind, spec) ∧ clusterDoc docs = Some cluster ∧ topology_of cluster = Some topology
    ∧ l = default [] (jlist (jget "variables" topology))
    ∧ docs' = replace_cluster (set_variables (pinned_variables kind spec host profile l) cluster topology) docs.
Proof.
  unfold pinEndpoint. destruct (haproxyLoadBalancer docs) as [[kind spec]|] eqn:Hh; [|done].
  destruct (clusterDoc docs) as [cluster|] eqn:Hc; [|done]. simpl.
  destruct (topology_of cluster) as [topology|] eqn:Ht; [|done]. intros [= <-]. by repeat eexists.
Qed.

Lemma haproxy_inv docs kind spec cluster topology :
  haproxyLoadBalancer docs = Some (kind, spec) → clusterDoc docs = Some cluster → topology_of cluster = Some topology →
  ∃ v j, js_find (is_named "loadBalancer") (default [] (jlist (jget "variables" topology))) = Some v
    ∧ jget "value" v = Some j.
Proof.
  intros Hh Hc Ht. unfold haproxyLoadBalancer in Hh. rewrite Hc in Hh. simpl in Hh. rewrite Ht in Hh. simpl in Hh.
  destruct (jlist (jget "variables" topology)) as [l|]; [|done]. simpl in *.
  destruct (js_find _ l) as [v|]; [|done]. simpl in *. destruct (jget "value" v) as [j|] eqn:Ej; [|done]. by exists v, j.
Qed.

Lemma haproxy_pinned docs kind spec host profile cluster topology :
  haproxyLoadBalancer docs = Some (kind, spec) → clusterDoc docs = Some cluster → topology_of cluster = Some topology →
  haproxyLoadBalancer (replace_cluster (set_variables (pinned_variables kind spec host profile
     (default [] (jlist (jget "variables" topology)))) cluster topology) docs) = Some (kind, with_profile spec profile).
Proof.
  intros Hh Hc Ht. destruct (haproxy_inv _ _ _ _ _ Hh Hc Ht) as (v & j & Hv & Hj).
  assert (is_cluster cluster = true) as Hic by (by apply js_find_some in Hc as [_ ?]).
  unfold haproxyLoadBalancer. rewrite find_replace by (by rewrite set_variables_cluster). rewrite Hc. cbn [fmap option_fmap option_map mbind option_bind].
  rewrite set_variables_topology. cbn [mbind option_bind]. rewrite jget_jset_same. cbn [jlist mbind option_bind].
  rewrite pinned_variables_eq.
  assert (∀ a b, js_find (is_named "loadBalancer") a = Some b → ∀ c, js_find (is_named "loadBalancer") (a ++ c) = Some b) as Happ.
  { unfold js_find. induction a as [|x a IH]; simpl; [done|]. destruct (is_named "loadBalancer" x); [done|]. auto. }
  rewrite (Happ _ (set_lb (JObj [(kind_text kind, with_profile spec profile)]) v))
    by (by rewrite find_set_lb, Hv).
  simpl. unfold set_lb. apply js_find_some in Hv as [_ ->]. rewrite jget_jset_same. simpl.
  assert (∃ x, with_profile spec profile = JObj x) as [x Hx] by (unfold with_profile; destruct spec; simpl; eauto).
  rewrite Hx. by destruct kind.
Qed.

(** Pinning an endpoint gives the load balancer the profile after those it
    had and the cluster one variable with the address, touches no other
    document, and can be done again: pinning another address gives what pinning
    it in the first place would have. *)
Theorem pin_endpoint docs host profile docs' (Hpin : pinEndpoint docs host profile = Some docs') :
  (∃ kind spec, haproxyLoadBalancer docs = Some (kind, spec)
     ∧ haproxyLoadBalancer docs' = Some (kind, with_profile spec profile)
     ∧ profile ∈ lb_profiles (with_profile spec profile)
     ∧ lb_profiles spec `prefix_of` lb_profiles (with_profile spec profile))
  ∧ (∃ cluster topology l, clusterDoc docs' = Some cluster ∧ topology_of cluster = Some topology
     ∧ jlist (jget "variables" topology) = Some l
     ∧ js_filter (is_named ENDPOINT_VARIABLE) l = [JObj [("name", JStr ENDPOINT_VARIABLE); ("value", JStr host)]])
  ∧ (∀ i d, docs !! i = Some d → is_cluster d = false → docs' !! i = Some d)
  ∧ ∀ host', pinEndpoint docs' host' profile = pinEndpoint docs host' profile.
Proof.
  destruct (pin_inv _ _ _ _ Hpin) as (kind & spec & cluster & topology & l & Hh & Hc & Ht & -> & ->).
  assert (is_cluster cluster = true) as Hic by (by apply js_find_some in Hc as [_ ?]).
  assert (Hc' : ∀ l', clusterDoc (replace_cluster (set_variables l' cluster topology) docs) = Some (set_variables l' cluster topology)).
  { intros l'. rewrite find_replace by (by rewrite set_variables_cluster). by rewrite Hc. }
  split; [|split; [|split]].
  - exists kind, spec. split; [done|]. split; [by apply haproxy_pinned|]. rewrite lb_profiles_with.
    destruct (includes _ _) eqn:E; [by apply includes_spec in E|].
    split; [apply elem_of_app; right; by left|by eexists].
  - eexists _, _, _. rewrite Hc', set_variables_topology, jget_jset_same. split; [done|]. split; [done|]. split; [done|].
    rewrite pinned_variables_eq. unfold js_filter at 1. rewrite List.filter_app. simpl.
    fold (js_filter (is_named ENDPOINT_VARIABLE)). rewrite (proj2 (js_filter_nil _ _)); [done|].
    intros x (v & -> & [_ Hv]%elem_of_js_filter)%list_elem_of_fmap. rewrite set_lb_named. by apply negb_true_iff.
  - intros i d. apply replace_others.
  - intros host'. unfold pinEndpoint. rewrite Hc', Hh, Hc. simpl. rewrite (haproxy_pinned docs kind spec host profile cluster topology) by done.
    rewrite set_variables_topology, Ht, jget_jset_same. simpl default. rewrite pinned_variables_twice.
    fold (set_variables (pinned_variables kind spec host' profile (default [] (jlist (jget "variables" topology)))) cluster topology).
    fold (set_variables (pinned_variables kind spec host' profile (default [] (jlist (jget "variables" topology))))
            (set_variables (pinned_variables kind spec host profile (default [] (jlist (jget "variables" topology)))) cluster topology)
            (jset "variables" (JArr (pinned_variables kind spec host profile (default [] (jlist (jget "variables" topology))))) topology)).
    rewrite set_variables_twice, replace_twice by (by rewrite set_variables_cluster). done.
Qed.

Definition lb_manifest : list Json :=
  [JObj [("kind", JStr "ConfigMap")];
   JObj [("kind", JStr "Cluster"); ("spec", JObj [("topology", JObj [("variables", JArr
     [JObj [("name", JStr "secretRef"); ("value", JStr "s")];
      JObj [("name", JStr "loadBalancer"); ("value", JObj [("lxc", JNull)])]])])])]].

Lemma pin_endpoint_witness :
  ∃ docs', pinEndpoint lb_manifest "10.0.0.9" LB_PROFILE = Some docs' ∧ docs' !! 0%nat = Some (JObj [("kind", JStr "ConfigMap")]).
Proof.
  destruct (pinEndpoint lb_manifest "10.0.0.9" LB_PROFILE) as [docs'|] eqn:E; [|vm_compute in E; discriminate].
  exists docs'. split; [reflexivity|].
  exact (proj1 (proj2 (proj2 (pin_endpoint lb_manifest "10.0.0.9" LB_PROFILE docs' E))) 0%nat _ eq_refl eq_refl).
Defined.

(** ** Reading an endpoint back *)

Lemma has_char_forall c s : has_char c s = false → str_forall (λ x, negb (char_is x c)) s = true.
Proof.
  induction s as [|x s IH]; simpl; [done|]. intros [Hx Hs]%orb_false_elim. rewrite IH by done.
  unfold char_is in *. by rewrite Hx.
Qed.

Lemma ends_with_char c s : has_char c s = false → ends_with (String c EmptyString) s = false.
Proof.
  intros Hs. destruct (ends_with _ s) eqn:E; [|done]. apply ends_with_inv in E as [r ->].
  rewrite has_char_append in Hs. simpl in Hs. unfold char_is in Hs. rewrite bool_decide_eq_true_2 in Hs by done.
  by rewrite orb_true_r in Hs.
Qed.

Lemma unbracket_plain s : has_char "[" s = false → has_char "]" s = false → unbracket s = s.
Proof.
  intros H1 H2. unfold unbracket.
  assert (match s with String c r => if char_is c "[" then r else s | EmptyString => s end = s) as ->.
  { destruct s as [|c r]; [done|]. simpl in H1. apply orb_false_elim in H1 as [-> _]. done. }
  by rewrite ends_with_char.
Qed.

Lemma unbracket_brackets s : unbracket (String "[" (s +++ "]")) = s.
Proof.
  unfold unbracket. change (char_is "[" "[") with true. cbn iota.
  rewrite ends_with_append, length_append. simpl (String.length "]").
  replace (String.length s + 1 - 1)%nat with (String.length s) by lia. apply str_take_append.
Qed.

(** A host as it may appear in an endpoint: a name or an address without
    brackets. *)
Definition plain_host (host : string) : Prop :=
  host ≠ EmptyString ∧ has_char "/" host = false ∧ has_char "[" host = false ∧ has_char "]" host = false.

Lemma bracketed_v6 host rest : plain_host host →
  bracketed (String "[" (host +++ String "]" rest)) = Some (String "[" (host +++ "]")).
Proof.
  intros (Hn & _ & _ & H2). unfold bracketed. change (char_is "[" "[") with true. cbn iota.
  rewrite Digits.span_append; [|by apply has_char_forall|done].
  unfold truthy_str. by rewrite bool_decide_eq_false_2.
Qed.

Lemma forall_and p q s : str_forall p s = true → str_forall q s = true → str_forall (λ c, p c && q c) s = true.
Proof.
  induction s as [|c s IH]; simpl; [done|]. intros [-> Hp]%andb_prop [-> Hq]%andb_prop. by apply IH.
Qed.

(** The host read out of an endpoint the agent shows is the host the
    cluster has, whether it is a name, an IPv4 or an IPv6 address; a cluster is
    diagnosed just when it is not up, its load balancer is haproxy and its
    endpoint is an IPv6 address. *)
Theorem endpoint_host_roundtrip c host available haproxy (Hc : o_host c = Some host) (Hh : plain_host host) :
  endpointHost (endpoint_url c) = Some host
  ∧ (endpointProblem (endpoint_url c) available haproxy ≠ None ↔
     available = false ∧ haproxy = true ∧ has_char ":" host = true).
Proof.
  assert (endpointHost (endpoint_url c) = Some host) as Heq.
  { pose proof Hh as (Hn & Hs & H1 & H2). unfold endpoint_url. rewrite Hc. unfold truthy_str at 1.
    rewrite bool_decide_eq_false_2 by done. cbn [negb]. generalize (show_Z (default 6443%Z (o_port c))). intros port.
    unfold endpointHost. rewrite starts_with_append. change 8%nat with (String.length "https://"). rewrite str_drop_append.
    cbn [mbind option_bind]. destruct (has_char ":" host) eqn:Hcol.
    - change (("[" +++ host +++ "]") +++ ":" +++ port) with (String "[" ((host +++ "]") +++ ":" +++ port)).
      rewrite append_assoc. change ("]" +++ ":" +++ port) with (String "]" (":" +++ port)).
      rewrite bracketed_v6 by done. cbn [or_else fmap option_fmap option_map]. by rewrite unbracket_brackets.
    - assert (bracketed (host +++ ":" +++ port) = None) as ->.
      { destruct host as [|x r]; [done|]. simpl in H1. apply orb_false_elim in H1 as [Hx _]. unfold bracketed.
        cbn [String.append]. by rewrite Hx. }
      unfold span1. rewrite (Digits.span_append _ host (":" +++ port)); [|by apply forall_and; apply has_char_forall|done].
      unfold truthy_str. rewrite bool_decide_eq_false_2 by done. cbn [negb or_else fmap option_fmap option_map].
      by rewrite unbracket_plain. }
  split; [done|]. unfold endpointProblem. rewrite Heq.
  destruct available, haproxy, (has_char ":" host); simpl; naive_solver.
Qed.

Definition v6_cluster : K8sObject :=
  {| o_name := Some "a"; o_labels := None; o_version := None; o_host := Some "fd42::1"; o_port := None; o_topology := None;
     o_variables := None; o_phase := None; o_conditions := None; o_nodeRef := None; o_addresses := None |}.

Lemma endpoint_host_roundtrip_witness : endpointHost (endpoint_url v6_cluster) = Some "fd42::1".
Proof.
  refine (proj1 (endpoint_host_roundtrip v6_cluster "fd42::1" false true eq_refl _)).
  repeat split; try reflexivity. discriminate.
Defined.
