(* ===== verification/Agent.v ===== *)
(** * Agent: the cluster records of the Kubernetes agent

    Models the handlers of [routes/clusters.ts] with the record store of
    [db/repo.ts] and the MetalLB jobs of [lib/metallb-ops.ts]: creating,
    reading, patching and deleting clusters, and their address pools. A handler
    that waits between its checks and its write is two steps with a request in
    flight between them, so that requests interleave. *)

From S2P Require Import Prelude JsString Effects EndpointPin MetalLB Upgrade CapiStatus.
Open Scope Z_scope.

(** ** Records *)

(** The members of the stored create request that the agent reads again. *)
Record Spec := {
  sp_variables : option (js_map string string);
  sp_metallb : option (list string);
  sp_endpointHost : option string;
}.
Definition no_spec : Spec := {| sp_variables := None; sp_metallb := None; sp_endpointHost := None |}.

Record ClusterView := {
  v_name : string; v_project : option string; v_kubernetesVersion : string;
  v_controlPlaneCount : Z; v_workerCount : Z; v_status : ClusterStatus; v_spec : option Spec;
}.

(** The table, the latest record first. *)
Abbreviation Repo := (list ClusterView) (only parsing).

Definition named (name : string) (v : ClusterView) : bool := bool_decide (v_name v = name).
Definition getByName (repo : Repo) (name : string) : option ClusterView := js_find (named name) repo.

Definition repo_update (f : ClusterView → ClusterView) (repo : Repo) (name : string) : Repo :=
  (λ v, if named name v then f v else v) <$> repo.

Definition setStatus (repo : Repo) (name : string) (status : ClusterStatus) : Repo :=
  repo_update (λ v, {| v_name := v_name v; v_project := v_project v; v_kubernetesVersion := v_kubernetesVersion v;
                       v_controlPlaneCount := v_controlPlaneCount v; v_workerCount := v_workerCount v;
                       v_status := status; v_spec := v_spec v |}) repo name.

Definition setDesired (repo : Repo) (name : string) (desired : ClusterPatchRequest) : Repo :=
  repo_update (λ v, {| v_name := v_name v; v_project := v_project v;
                       v_kubernetesVersion := default (v_kubernetesVersion v) (kubernetesVersion desired);
                       v_controlPlaneCount := default (v_controlPlaneCount v) (controlPlaneCount desired);
                       v_workerCount := default (v_workerCount v) (workerCount desired);
                       v_status := v_status v; v_spec := v_spec v |}) repo name.

Definition setSpec (repo : Repo) (name : string) (spec : Spec) : Repo :=
  repo_update (λ v, {| v_name := v_name v; v_project := v_project v; v_kubernetesVersion := v_kubernetesVersion v;
                       v_controlPlaneCount := v_controlPlaneCount v; v_workerCount := v_workerCount v;
                       v_status := v_status v; v_spec := Some spec |}) repo name.

Definition deleteByName (repo : Repo) (name : string) : Repo := js_filter (λ v, negb (named name v)) repo.

(** ** Addresses spoken for *)

Definition wantedMetalLB (v : ClusterView) : option (list string) := v_spec v ≫= sp_metallb.
Definition pinnedEndpoint (v : ClusterView) : option string := v_spec v ≫= sp_endpointHost.

Definition otherPools (repo : Repo) (except : option string) : list (string * list string) :=
  js_filter (λ p, negb (bool_decide (p.2 = [])))
    ((λ c, (v_name c, default [] (wantedMetalLB c)))
       <$> js_filter (λ c, negb (bool_decide (Some (v_name c) = except))) repo).

Definition endpoints (repo : Repo) : list string := repo ≫= λ c, option_list (pinnedEndpoint c).

Definition reservedAddresses (repo : Repo) (except : option string) : list string :=
  (otherPools repo except ≫= snd) ++ endpoints repo.

(** The first pool or endpoint that the addresses overlap, as told to the caller. *)
Fixpoint pool_clash (addresses : list string) (pools : list (string * list string)) : option string :=
  match pools with
  | [] => None
  | pool :: pools =>
      match overlapping addresses pool.2 with
      | [] => pool_clash addresses pools
      | clash => Some (join ", " clash +++ " overlaps the MetalLB pool of cluster " +++ pool.1 +++ " ("
                       +++ join ", " pool.2 +++ ")")
      end
  end.

Fixpoint endpoint_clash (addresses : list string) (repo : Repo) : option string :=
  match repo with
  | [] => None
  | v :: repo =>
      match pinnedEndpoint v with
      | Some host =>
          if truthy_str host && negb (bool_decide (overlapping addresses [host] = []))
          then Some (host +++ " is the API endpoint of cluster " +++ v_name v)
          else endpoint_clash addresses repo
      | None => endpoint_clash addresses repo
      end
  end.

Definition poolConflict (repo : Repo) (addresses : list string) (except : option string) : option string :=
  match pool_clash addresses (otherPools repo except) with
  | Some m => Some m
  | None => endpoint_clash addresses repo
  end.

(** ** MetalLB jobs *)

Inductive Action := Install (addresses : list string) | Remove.

Record Job := { jb_action : Action; jb_running : bool; jb_error : option string }.

(** [jobs], and the work under way that its entries stand for. *)
Record Jobs := { jobs : js_map string Job; work : list (string * Action) }.

Definition job_running (j : js_map string Job) (cluster : string) : bool :=
  match map_get j cluster with Some job => jb_running job | None => false end.

Definition start (s : Jobs) (cluster : string) (action : Action) : Jobs :=
  if job_running (jobs s) cluster then s
  else {| jobs := map_set (jobs s) cluster {| jb_action := action; jb_running := true; jb_error := None |};
          work := work s ++ [(cluster, action)] |}.

Definition forgetJob (s : Jobs) (cluster : string) : Jobs :=
  if job_running (jobs s) cluster then s else {| jobs := map_delete (jobs s) cluster; work := work s |}.

Definition startInstall (s : Jobs) (cluster : string) (addresses : list string) : Jobs := start s cluster (Install addresses).
Definition startRemove (s : Jobs) (cluster : string) : Jobs := start s cluster Remove.

(** The work of a cluster ends: its entry goes, or keeps the error. *)
Definition work_done (s : Jobs) (cluster : string) : Jobs :=
  {| jobs := map_delete (jobs s) cluster; work := js_filter (λ w, negb (bool_decide (w.1 = cluster))) (work s) |}.
Definition work_failed (s : Jobs) (cluster error : string) : Jobs :=
  {| jobs := match map_get (jobs s) cluster with
             | Some j => map_set (jobs s) cluster {| jb_action := jb_action j; jb_running := false; jb_error := Some error |}
             | None => jobs s
             end;
     work := js_filter (λ w, negb (bool_decide (w.1 = cluster))) (work s) |}.

Inductive MetalLBState := absent | waiting | installing | installed | removing | metallb_failed (error : string).

(** What the workload cluster has, as far as [metallbStatus] looks. *)
Record Observed := { ob_ready : bool; ob_addresses : list string }.

Definition metallbStatus (s : Jobs) (cluster : string) (observed : Observed) : MetalLBState :=
  match map_get (jobs s) cluster with
  | Some {| jb_action := a; jb_running := true |} => match a with Install _ => installing | Remove => removing end
  | Some {| jb_error := Some e |} =>
      if truthy_str e then metallb_failed e else if ob_ready observed then installed else absent
  | _ => if ob_ready observed then installed else absent
  end.

(** ** Reads *)

(** What the agent keeps. [pools] is what MetalLB announces in each workload
    cluster, the effect of the work that has ended there. *)
Record Agent := {
  repo : Repo; ag_jobs : Jobs; pools : js_map string (list string);
}.
Definition set_repo (s : Agent) (r : Repo) : Agent := {| repo := r; ag_jobs := ag_jobs s; pools := pools s |}.
Definition set_jobs (s : Agent) (j : Jobs) : Agent := {| repo := repo s; ag_jobs := j; pools := pools s |}.

(** Keeps a record's counts and version in step with the topology. *)
Definition syncDesired (r : Repo) (record : ClusterView) (live : LiveStatus) : Repo * ClusterView :=
  let cp := default (v_controlPlaneCount record) (l_controlPlaneDesired live) in
  let workers := default (v_workerCount record) (l_workerDesired live) in
  let version := default (v_kubernetesVersion record) (l_version live) in
  if (cp =? v_controlPlaneCount record) && (workers =? v_workerCount record)
     && bool_decide (version = v_kubernetesVersion record)
  then (r, record)
  else
    let r := setDesired r (v_name record)
               {| controlPlaneCount := Some cp; workerCount := Some workers; kubernetesVersion := Some version |} in
    (r, default record (getByName r (v_name record))).

Definition syncStatus (s : Agent) (record : ClusterView) (live : LiveStatus) : Agent * ClusterStatus :=
  let status := nextStatus (v_status record) live in
  if bool_decide (status = v_status record) then (s, status)
  else
    let s := set_repo s (setStatus (repo s) (v_name record) status) in
    match wantedMetalLB record with
    | Some addresses =>
        if bool_decide (status = s_ready) && (bool_decide (v_status record = s_pending) || bool_decide (v_status record = s_provisioning))
        then (set_jobs s (startInstall (ag_jobs s) (v_name record) addresses), status)
        else (s, status)
    | None => (s, status)
    end.

Definition problemOf (live : LiveStatus) : option string :=
  endpointProblem (l_endpoint live) (l_available live)
    (bool_decide (l_loadBalancer live = Some "lxc") || bool_decide (l_loadBalancer live = Some "oci")).

(** Both overlays of a record, the row of the list and the status view, change
    the agent in the same way. *)
Definition overlay (s : Agent) (cached : ClusterView) (live : LiveStatus) : Agent * (ClusterView * ClusterStatus) :=
  let '(r, record) := syncDesired (repo s) cached live in
  let '(s, status) := syncStatus (set_repo s r) record live in
  (s, (record, status)).

Definition enrich (s : Agent) (cached : ClusterView) (live : option LiveStatus) : Agent :=
  match live with Some live => (overlay s cached live).1 | None => s end.

(** [GET /v1/clusters], with the live statuses when they can be read. *)
Definition list_clusters (s : Agent) (live : option (js_map string LiveStatus)) : Agent :=
  foldl (λ s r, enrich s r (live ≫= λ m, map_get m (v_name r))) s (repo s).

(** [GET /v1/clusters/:name/status] *)
Definition cluster_status (s : Agent) (name : string) (live : option (js_map string LiveStatus)) : Agent :=
  match getByName (repo s) name with
  | Some record => enrich s record (live ≫= λ m, map_get m name)
  | None => s
  end.

(** [GET /v1/clusters/:name/metallb]: [None] when there is no kubeconfig yet. *)
Definition get_metallb (s : Agent) (name : string) (observed : option Observed) : Agent * option MetalLBState :=
  match getByName (repo s) name with
  | None => (s, None)
  | Some record =>
      match observed with
      | None => (s, Some (if defined (wantedMetalLB record) then waiting else absent))
      | Some ob =>
          let state := metallbStatus (ag_jobs s) name ob in
          match state, wantedMetalLB record with
          | absent, Some wanted =>
              if bool_decide (v_status record = s_ready)
              then (set_jobs s (startInstall (ag_jobs s) name wanted), Some installing)
              else (s, Some state)
          | _, _ => (s, Some state)
          end
      end
  end.

(** ** Changes *)

(** [PATCH /v1/clusters/:name] once the checks before it have passed: [patched] is
    how [patchCluster] ended. *)
Inductive PatchOutcome := Patched | Rejected | PatchFailed.

Definition is_up (st : ClusterStatus) : bool :=
  bool_decide (st = s_ready) || bool_decide (st = s_scaling) || bool_decide (st = s_upgrading).

Definition patch_cluster (s : Agent) (name : string) (body : ClusterPatchRequest) (capnReady : bool) (outcome : PatchOutcome) :
    Agent * Z :=
  match getByName (repo s) name with
  | None => (s, 404)
  | Some record =>
      if match kubernetesVersion body with
         | Some _ => bool_decide (customImageError (v_spec record ≫= sp_variables) ≠ None)
         | None => false
         end
      then (s, 400)
      else if negb capnReady then (s, 503)
      else match outcome with
           | Rejected => (s, 400)
           | PatchFailed => (s, 502)
           | Patched =>
               let r := setDesired (repo s) name body in
               let updated := default record (getByName r name) in
               let r := if is_up (v_status updated)
                        then setStatus r name (match kubernetesVersion body with Some _ => s_upgrading | None => s_scaling end)
                        else r in
               (set_repo s r, 200)
           end
  end.

(** [DELETE /v1/clusters/:name]: [torn_down] is whether the teardown succeeded. *)
Definition delete_cluster (s : Agent) (name : string) (torn_down : bool) : Agent * Z :=
  match getByName (repo s) name with
  | None => (s, 404)
  | Some _ =>
      if torn_down
      then ({| repo := deleteByName (repo s) name; ag_jobs := forgetJob (ag_jobs s) name; pools := pools s |}, 200)
      else (set_repo s (setStatus (repo s) name s_error), 502)
  end.

(** [DELETE /v1/clusters/:name/metallb] *)
Definition delete_metallb (s : Agent) (name : string) : Agent * Z :=
  match getByName (repo s) name with
  | None => (s, 404)
  | Some record =>
      let spec := default no_spec (v_spec record) in
      let r := setSpec (repo s) name
                 {| sp_variables := sp_variables spec; sp_metallb := None; sp_endpointHost := sp_endpointHost spec |} in
      ({| repo := r; ag_jobs := startRemove (forgetJob (ag_jobs s) name) name; pools := pools s |}, 202)
  end.

(** ** Requests that reserve addresses

    They check, wait, and then write what they checked. *)

Record CreateBody := {
  cr_name : string; cr_kubernetesVersion : string; cr_controlPlaneCount : Z; cr_workerCount : Z;
  cr_project : option string; cr_variables : js_map string string; cr_metallb : option (list string);
}.

Definition suggestProjectName (management : bool) (cluster : string) : string :=
  if management then "incendio-mgmt" else "k8s-" +++ cluster.

Definition project_of (body : CreateBody) : string := default (suggestProjectName false (cr_name body)) (cr_project body).

(** [POST /v1/clusters], up to the first wait. *)
Definition create_check (s : Agent) (body : CreateBody) : option Z :=
  if defined (getByName (repo s) (cr_name body)) then Some 409
  else match cr_metallb body with
       | Some addresses => if defined (poolConflict (repo s) addresses (Some (cr_name body))) then Some 409 else None
       | None => None
       end.

(** The address the cluster's load balancer is pinned to, read from the network
    as it is by then; [None] when it is not pinned. *)
Definition create_pin (s : Agent) (body : CreateBody) (network : option NetworkFacts) : option string :=
  match network with
  | Some facts =>
      match pickEndpointAddress {| cidr := cidr facts; reserved := reserved facts; used := used facts;
                                   taken := reservedAddresses (repo s) (Some (cr_name body)) ++ default [] (cr_metallb body) |} with
      | Some host => if truthy_str host then Some host else None
      | None => None
      end
  | None => None
  end.

Definition new_record (body : CreateBody) (host : option string) : ClusterView :=
  {| v_name := cr_name body; v_project := Some (project_of body); v_kubernetesVersion := cr_kubernetesVersion body;
     v_controlPlaneCount := cr_controlPlaneCount body; v_workerCount := cr_workerCount body;
     v_status := s_provisioning;
     v_spec := Some {| sp_variables := Some (cr_variables body); sp_metallb := cr_metallb body; sp_endpointHost := host |} |}.

(** The record is written last; the table refuses a second one of the name. *)
Definition create_commit (s : Agent) (body : CreateBody) (host : option string) : Agent * Z :=
  if defined (getByName (repo s) (cr_name body)) then (s, 500)
  else (set_repo s (new_record body host :: repo s), 201).

(** [PUT /v1/clusters/:name/metallb], up to the reading of the network; the
    record is the one read before. *)
Definition put_check (s : Agent) (name : string) (addresses : list string) (hasKubeconfig : bool) : Z + Spec :=
  match getByName (repo s) name with
  | None => inl 404
  | Some record =>
      if negb hasKubeconfig then inl 409
      else if defined (poolConflict (repo s) addresses (Some name)) then inl 409
      else inr (default no_spec (v_spec record))
  end.

(** [hint]: the subnet, when the network could be read. *)
Definition put_commit (s : Agent) (name : string) (addresses : list string) (spec : Spec) (hint : option string) : Agent * Z :=
  if match hint with Some cidr => negb (bool_decide (outsideSubnet addresses cidr = [])) | None => false end then (s, 400)
  else
    ({| repo := setSpec (repo s) name
                  {| sp_variables := sp_variables spec; sp_metallb := Some addresses; sp_endpointHost := sp_endpointHost spec |};
        ag_jobs := startInstall (forgetJob (ag_jobs s) name) name addresses; pools := pools s |}, 202).

(** ** Interleaving *)

(** Requests that have checked and not yet written. *)
Inductive Flight :=
  | Creating (body : CreateBody)
  | Pinned (body : CreateBody) (host : option string)
  | Putting (name : string) (addresses : list string) (spec : Spec).

Record System := { agent : Agent; flights : list Flight }.
Definition with_agent (s : System) (a : Agent) : System := {| agent := a; flights := flights s |}.

Inductive Event :=
  | Post (body : CreateBody)
  | Pin (i : nat) (network : option NetworkFacts)
  | Create (i : nat) (applied : bool)
  | Put (name : string) (addresses : list string) (hasKubeconfig : bool)
  | Store (i : nat) (hint : option string)
  | List_ (live : option (js_map string LiveStatus))
  | Status (name : string) (live : option (js_map string LiveStatus))
  | GetMetalLB (name : string) (observed : option Observed)
  | Patch (name : string) (body : ClusterPatchRequest) (capnReady : bool) (outcome : PatchOutcome)
  | Delete (name : string) (torn_down : bool)
  | DeleteMetalLB (name : string)
  | WorkDone (cluster : string)
  | WorkFailed (cluster error : string).

Definition landed (i : nat) (l : list Flight) : list Flight := take i l ++ drop (S i) l.

(** The effect of work that has ended on the workload cluster. *)
Definition announce (p : js_map string (list string)) (cluster : string) (a : Action) : js_map string (list string) :=
  match a with Install addresses => map_set p cluster addresses | Remove => map_delete p cluster end.

Definition work_of (s : Agent) (cluster : string) : option Action := map_get (work (ag_jobs s)) cluster.

Definition event (s : System) (e : Event) : System :=
  let a := agent s in
  match e with
  | Post body => match create_check a body with
                 | None => {| agent := a; flights := flights s ++ [Creating body] |}
                 | Some _ => s
                 end
  | Pin i network => match flights s !! i with
                     | Some (Creating body) => {| agent := a; flights := <[i := Pinned body (create_pin a body network)]> (flights s) |}
                     | _ => s
                     end
  | Create i applied => match flights s !! i with
                        | Some (Pinned body host) =>
                            {| agent := if applied then (create_commit a body host).1 else a; flights := landed i (flights s) |}
                        | Some (Creating _) => if applied then s else {| agent := a; flights := landed i (flights s) |}
                        | _ => s
                        end
  | Put name addresses kc => match put_check a name addresses kc with
                             | inr spec => {| agent := a; flights := flights s ++ [Putting name addresses spec] |}
                             | inl _ => s
                             end
  | Store i hint => match flights s !! i with
                    | Some (Putting name addresses spec) =>
                        {| agent := (put_commit a name addresses spec hint).1; flights := landed i (flights s) |}
                    | _ => s
                    end
  | List_ live => with_agent s (list_clusters a live)
  | Status name live => with_agent s (cluster_status a name live)
  | GetMetalLB name ob => with_agent s (get_metallb a name ob).1
  | Patch name body ready outcome => with_agent s (patch_cluster a name body ready outcome).1
  | Delete name ok => with_agent s (delete_cluster a name ok).1
  | DeleteMetalLB name => with_agent s (delete_metallb a name).1
  | WorkDone cluster =>
      match work_of a cluster with
      | Some w => with_agent s {| repo := repo a; ag_jobs := work_done (ag_jobs a) cluster; pools := announce (pools a) cluster w |}
      | None => s
      end
  | WorkFailed cluster error =>
      match work_of a cluster with
      | Some w => with_agent s {| repo := repo a; ag_jobs := work_failed (ag_jobs a) cluster error; pools := pools a |}
      | None => s
      end
  end.

Definition run (s : System) (es : list Event) : System := foldl event s es.

Definition initial : System :=
  {| agent := {| repo := []; ag_jobs := {| jobs := []; work := [] |}; pools := [] |}; flights := [] |}.
