(* ===== verification/AgentTheory.v ===== *)
(** * AgentTheory: what the agent's records and jobs keep to

    Addresses stay apart as long as the requests that reserve them do not
    overlap in time, one MetalLB job runs per cluster, and what happens
    otherwise. *)

From S2P Require Import Prelude JsString Effects MetalLB Upgrade CapiStatus Agent.
Open Scope Z_scope.

(** ** Addresses apart *)

Definition apart (a b : list string) : Prop :=
  ∀ x y rx ry, x ∈ a → y ∈ b → parseRange x = Some rx → parseRange y = Some ry → overlaps rx ry = false.

Lemma overlaps_sym a b : overlaps a b = overlaps b a.
Proof. unfold overlaps. apply andb_comm. Qed.

Lemma apart_sym a b : apart a b → apart b a.
Proof. intros H x y rx ry Hx Hy Hrx Hry. rewrite overlaps_sym. by eapply H. Qed.

Lemma apart_nil_l b : apart [] b.
Proof. intros x y rx ry Hx. by apply elem_of_nil in Hx. Qed.
Lemma apart_nil_r a : apart a [].
Proof. apply apart_sym, apart_nil_l. Qed.

Lemma apart_mono a a' b b' : apart a b → (∀ x, x ∈ a' → x ∈ a) → (∀ x, x ∈ b' → x ∈ b) → apart a' b'.
Proof. intros H Ha Hb x y rx ry Hx Hy. apply H; auto. Qed.

Lemma elem_of_ranges_of l r : r ∈ ranges_of l ↔ ∃ x, x ∈ l ∧ parseRange x = Some r.
Proof.
  unfold ranges_of. rewrite list_elem_of_bind. split.
  - intros (x & Hr & Hx). exists x. split; [done|]. destruct (parseRange x); [|by apply elem_of_nil in Hr].
    by apply list_elem_of_singleton in Hr as ->.
  - intros (x & Hx & Hr). exists x. rewrite Hr. split; [by apply list_elem_of_singleton|done].
Qed.

Lemma overlapping_nil a b : overlapping a b = [] ↔ apart a b.
Proof.
  unfold overlapping, apart. rewrite js_filter_nil. split.
  - intros H x y rx ry Hx Hy Hrx Hry. specialize (H x Hx). rewrite Hrx in H.
    rewrite some_false in H. apply H, elem_of_ranges_of. eauto.
  - intros H x Hx. destruct (parseRange x) as [rx|] eqn:Hrx; [|done].
    apply some_false. intros ry (y & Hy & Hry)%elem_of_ranges_of. eauto.
Qed.

#[export] Hint Resolve apart_sym apart_nil_l apart_nil_r : incus.

Definition pool_of (v : ClusterView) : list string := default [] (wantedMetalLB v).
Definition host_of (v : ClusterView) : list string := option_list (pinnedEndpoint v).

Lemma pool_clash_none addresses pools :
  pool_clash addresses pools = None ↔ ∀ p, p ∈ pools → apart addresses p.2.
Proof.
  induction pools as [|p pools IH]; simpl; [split; [intros _ p Hp; by apply elem_of_nil in Hp|done]|].
  destruct (overlapping addresses p.2) eqn:E.
  - rewrite IH. split; [|intros H q Hq; apply H; by right].
    intros H q [->|Hq]%elem_of_cons; [by apply overlapping_nil|by apply H].
  - split; [done|]. intros H. rewrite (proj2 (overlapping_nil _ _) (H p (list_elem_of_here _ _))) in E. done.
Qed.

Lemma parse_empty : parseRange EmptyString = None.
Proof. reflexivity. Qed.

Lemma endpoint_clash_none addresses r :
  endpoint_clash addresses r = None ↔ ∀ v, v ∈ r → apart addresses (host_of v).
Proof.
  induction r as [|v r IH]; simpl; [split; [intros _ p Hp; by apply elem_of_nil in Hp|done]|].
  transitivity (apart addresses (host_of v) ∧ endpoint_clash addresses r = None).
  - unfold host_of. destruct (pinnedEndpoint v) as [host|]; simpl; [|split; [|tauto]; split; [apply apart_nil_r|done]].
    rewrite <-overlapping_nil. destruct (decide (host = EmptyString)) as [->|Hh].
    + simpl. assert (overlapping addresses [EmptyString] = []) as ->; [|naive_solver].
      apply overlapping_nil. intros x y rx ry _ ->%list_elem_of_singleton. by rewrite parse_empty.
    + assert (truthy_str host = true) as -> by (unfold truthy_str; by rewrite bool_decide_eq_false_2).
      simpl. case_bool_decide; simpl; naive_solver.
  - rewrite IH. split; [|intros H; split; [apply H; by left|intros w Hw; apply H; by right]].
    intros [H1 H2] w [->|Hw]%elem_of_cons; auto.
Qed.

Lemma elem_of_otherPools r except p :
  p ∈ otherPools r except ↔ ∃ v, v ∈ r ∧ p = (v_name v, pool_of v) ∧ Some (v_name v) ≠ except ∧ pool_of v ≠ [].
Proof.
  unfold otherPools. rewrite elem_of_js_filter, list_elem_of_fmap. split.
  - intros [(v & -> & [Hv He]%elem_of_js_filter) Hp]. simpl in *. bool_prop. by exists v.
  - intros (v & Hv & -> & He & Hp). split; [|apply negb_true_iff; by apply bool_decide_eq_false].
    exists v. split; [done|]. apply elem_of_js_filter. split; [done|]. apply negb_true_iff; by apply bool_decide_eq_false.
Qed.

Lemma poolConflict_none r addresses name :
  poolConflict r addresses (Some name) = None ↔
  (∀ v, v ∈ r → v_name v ≠ name → apart addresses (pool_of v)) ∧ (∀ v, v ∈ r → apart addresses (host_of v)).
Proof.
  unfold poolConflict. transitivity (pool_clash addresses (otherPools r (Some name)) = None ∧ endpoint_clash addresses r = None).
  { destruct (pool_clash _ _); naive_solver. }
  rewrite pool_clash_none, endpoint_clash_none. split; intros [Hp He]; split; try done.
  - intros v Hv Hn. destruct (pool_of v) as [|x l] eqn:Hpool; [apply apart_nil_r|].
    rewrite <-Hpool. apply (Hp (v_name v, pool_of v)), elem_of_otherPools. exists v.
    split_and!; [done|done|congruence|by rewrite Hpool].
  - intros p (v & Hv & -> & Hn & _)%elem_of_otherPools. apply Hp; [done|congruence].
Qed.

Lemma elem_of_reserved r except x :
  x ∈ reservedAddresses r except ↔
  (∃ v, v ∈ r ∧ Some (v_name v) ≠ except ∧ x ∈ pool_of v) ∨ ∃ v, v ∈ r ∧ x ∈ host_of v.
Proof.
  unfold reservedAddresses, endpoints. rewrite elem_of_app, !list_elem_of_bind. split.
  - intros [(p & Hx & (v & Hv & -> & Hn & _)%elem_of_otherPools)|(v & Hx & Hv)]; [left|right]; eauto.
  - intros [(v & Hv & Hn & Hx)|(v & Hv & Hx)]; [left|right; eauto].
    exists (v_name v, pool_of v). split; [done|]. apply elem_of_otherPools. exists v. split_and!; [done|done|done|].
    intros He. rewrite He in Hx. by apply elem_of_nil in Hx.
Qed.

(** The pinned address is none of those that were taken into account. *)
Lemma pick_apart facts host : pickEndpointAddress facts = Some host → apart [host] (taken facts).
Proof.
  unfold pickEndpointAddress. intros (t & Ht & ->)%fmap_Some. pose proof Ht as Ht'. unfold suggestRange in Ht'.
  destruct (parseRange (cidr facts)) as [net|] eqn:Hnet; [|done].
  destruct (ipToInt (part (split_on "/" (cidr facts)) 0)) as [gw|] eqn:Hgw; [|done]. clear Ht'.
  destruct (suggested facts 1 net gw ltac:(done) Hnet Hgw) as (r & Hr & Hrange & Htext). rewrite Ht in Hrange.
  destruct r as [c|]; [|done]. simpl in Hrange. injection Hrange as ->.
  destruct Hr as (e & -> & He & Hl & Hn & _). specialize (Htext _ eq_refl). apply parseRange_bounds in Htext as (H0 & _ & H1).
  simpl in *. assert (0 ≤ e) as Hp by lia. replace (e - 1 + 1) with e in * by lia.
  destruct (intToIp_text e Hp) as (Hd & Hs & Htr).
  assert (part (split_on "-" (intToIp e +++ String "-" (intToIp e))) 0 = intToIp e) as ->.
  { unfold part. by rewrite split_on_cons. }
  intros x y rx ry ->%list_elem_of_singleton Hy Hx Hry.
  unfold parseRange in Hx. rewrite Htr, Hd, Hs, ipToInt_intToIp in Hx by (unfold is_ip; lia). simpl in Hx. injection Hx as <-.
  destruct (overlaps _ ry) eqn:Ho; [|done]. destruct Hn. exists ry. split.
  - unfold blocked_of. rewrite !elem_of_app. right; right; left. apply elem_of_ranges_of. eauto.
  - unfold block. replace (e - 1 + 1) with e by lia. by rewrite overlaps_sym.
Qed.

(** ** The invariant *)

Record addresses_apart (r : list ClusterView) : Prop := {
  names_distinct : NoDup (v_name <$> r);
  pools_apart v w : v ∈ r → w ∈ r → v_name v ≠ v_name w → apart (pool_of v) (pool_of w);
  endpoints_apart v w : v ∈ r → w ∈ r → apart (pool_of v) (host_of w);
  hosts_apart v w : v ∈ r → w ∈ r → v_name v ≠ v_name w → apart (host_of v) (host_of w);
}.

(** Addresses that no record but [name]'s has spoken for. *)
Definition free_for (r : list ClusterView) (name : string) (addresses : list string) : Prop :=
  ∀ v, v ∈ r → (v_name v ≠ name → apart addresses (pool_of v)) ∧ apart addresses (host_of v).

Definition flight_ok (r : list ClusterView) (f : Flight) : Prop :=
  match f with
  | Creating body => free_for r (cr_name body) (default [] (cr_metallb body))
  | Pinned body host =>
      free_for r (cr_name body) (default [] (cr_metallb body))
      ∧ free_for r (cr_name body) (option_list host)
      ∧ apart (default [] (cr_metallb body)) (option_list host)
  | Putting name addresses spec =>
      free_for r name addresses ∧ ∀ v, v ∈ r → v_name v = name → host_of v = option_list (sp_endpointHost spec)
  end.

(** What a change that reserves nothing does to the records. *)
Record shrinks (r r' : list ClusterView) : Prop := {
  shrinks_names : (v_name <$> r') `sublist_of` (v_name <$> r);
  shrinks_elem v' : v' ∈ r' → ∃ v, v ∈ r ∧ v_name v = v_name v' ∧ host_of v = host_of v' ∧ ∀ x, x ∈ pool_of v' → x ∈ pool_of v;
}.

Lemma shrinks_refl r : shrinks r r.
Proof. split; [done|]. intros v Hv. by exists v. Qed.

Lemma shrinks_trans r1 r2 r3 : shrinks r1 r2 → shrinks r2 r3 → shrinks r1 r3.
Proof.
  intros [N1 E1] [N2 E2]. split; [by etrans|]. intros v3 (v2 & H2 & Hn2 & Hh2 & Hp2)%E2.
  apply E1 in H2 as (v1 & H1 & Hn1 & Hh1 & Hp1). exists v1. split_and!; [done|congruence|congruence|auto].
Qed.

#[export] Instance shrinks_preorder : PreOrder shrinks.
Proof. split; [exact shrinks_refl|exact shrinks_trans]. Qed.

Lemma shrinks_apart r r' : shrinks r r' → addresses_apart r → addresses_apart r'.
Proof.
  intros [N E] [Hn Hp He Hh]. split.
  - by eapply sublist_NoDup.
  - intros v w (v0 & Hv & Nv & Hhv & Hpv)%E (w0 & Hw & Nw & Hhw & Hpw)%E Hvw.
    eapply apart_mono; [apply (Hp v0 w0); [done|done|congruence]|done|done].
  - intros v w (v0 & Hv & Nv & Hhv & Hpv)%E (w0 & Hw & Nw & Hhw & Hpw)%E.
    rewrite <-Hhw. eapply apart_mono; [by apply (He v0 w0)|done|done].
  - intros v w (v0 & Hv & Nv & Hhv & Hpv)%E (w0 & Hw & Nw & Hhw & Hpw)%E Hvw.
    rewrite <-Hhv, <-Hhw. apply (Hh v0 w0); [done|done|congruence].
Qed.

Lemma shrinks_free r r' name a : shrinks r r' → free_for r name a → free_for r' name a.
Proof.
  intros [N E] Hf v (v0 & Hv & Nv & Hhv & Hpv)%E. destruct (Hf v0 Hv) as [H1 H2]. rewrite <-Hhv. split; [|done].
  intros Hn. eapply apart_mono; [apply H1; congruence|done|done].
Qed.

Lemma shrinks_flight r r' f : shrinks r r' → flight_ok r f → flight_ok r' f.
Proof.
  intros Hs. destruct f as [body|body host|name addresses spec]; simpl; [by apply shrinks_free|..].
  - intros (H1 & H2 & H3). split_and!; [by eapply shrinks_free|by eapply shrinks_free|done].
  - intros [H1 H2]. split; [by eapply shrinks_free|]. intros v Hv Hn.
    apply Hs in Hv as (v0 & Hv & Nv & Hhv & _). rewrite <-Hhv. apply H2; [done|congruence].
Qed.

Lemma repo_update_names f r name : (∀ v, v_name (f v) = v_name v) → v_name <$> repo_update f r name = v_name <$> r.
Proof.
  intros Hf. unfold repo_update. rewrite <-list_fmap_compose. apply list_fmap_ext. intros i v _. simpl.
  by destruct (named name v).
Qed.

Lemma repo_update_shrinks f r name :
  (∀ v, v_name (f v) = v_name v) → (∀ v, host_of (f v) = host_of v) → (∀ v x, x ∈ pool_of (f v) → x ∈ pool_of v) →
  shrinks r (repo_update f r name).
Proof.
  intros Hn Hh Hp. split; [by rewrite repo_update_names|]. unfold repo_update.
  intros v' (v & -> & Hv)%list_elem_of_fmap. exists v. destruct (named name v); split_and!; auto.
Qed.

Lemma setStatus_shrinks r name st : shrinks r (setStatus r name st).
Proof. by apply repo_update_shrinks. Qed.
Lemma setDesired_shrinks r name d : shrinks r (setDesired r name d).
Proof. by apply repo_update_shrinks. Qed.
Lemma deleteByName_shrinks r name : shrinks r (deleteByName r name).
Proof.
  unfold deleteByName. split.
  - induction r as [|v r IH]; [done|]. simpl. destruct (negb (named name v)); csimpl; by constructor.
  - intros v [Hv _]%elem_of_js_filter. by exists v.
Qed.

Lemma syncDesired_shrinks r record live : shrinks r (syncDesired r record live).1.
Proof. unfold syncDesired. case_match; [reflexivity|apply setDesired_shrinks]. Qed.

Lemma syncStatus_shrinks s record live : shrinks (repo s) (repo (syncStatus s record live).1).
Proof.
  unfold syncStatus. case_bool_decide; [reflexivity|].
  destruct (wantedMetalLB record); [destruct (_ && _)|]; apply setStatus_shrinks.
Qed.

Lemma enrich_shrinks s record live : shrinks (repo s) (repo (enrich s record live)).
Proof.
  destruct live as [live|]; simpl; [|reflexivity]. unfold overlay.
  pose proof (syncDesired_shrinks (repo s) record live) as H1.
  destruct (syncDesired (repo s) record live) as [r rec]. simpl in *.
  pose proof (syncStatus_shrinks (set_repo s r) rec live) as H2.
  destruct (syncStatus _ _ _) as [s' st]. simpl in *. by etrans.
Qed.

Lemma list_clusters_shrinks s live : shrinks (repo s) (repo (list_clusters s live)).
Proof.
  unfold list_clusters. generalize (repo s) at 2. intros l. revert s.
  induction l as [|v l IH]; intros s; simpl; [reflexivity|]. etrans; [|apply IH]. apply enrich_shrinks.
Qed.

#[export] Hint Resolve setStatus_shrinks setDesired_shrinks deleteByName_shrinks enrich_shrinks list_clusters_shrinks : incus.

Lemma get_metallb_repo s name ob : repo (get_metallb s name ob).1 = repo s.
Proof.
  unfold get_metallb. destruct (getByName _ _) as [v|]; [|done]. destruct ob as [ob|]; [|done].
  destruct (metallbStatus _ _ _), (wantedMetalLB v); try done. by destruct (bool_decide _).
Qed.

Lemma patch_cluster_shrinks s name body ready outcome : shrinks (repo s) (repo (patch_cluster s name body ready outcome).1).
Proof.
  unfold patch_cluster. destruct (getByName _ _) as [v|]; [|reflexivity].
  destruct (match kubernetesVersion body with Some _ => _ | None => _ end); [reflexivity|].
  destruct ready; [|reflexivity]. destruct outcome; [|reflexivity..]. simpl.
  destruct (is_up _); [|auto with incus]. etrans; [|auto with incus]. auto with incus.
Qed.

Lemma delete_cluster_shrinks s name ok : shrinks (repo s) (repo (delete_cluster s name ok).1).
Proof.
  unfold delete_cluster. destruct (getByName _ _) as [v|]; [|reflexivity]. destruct ok; simpl; auto with incus.
Qed.

Lemma getByName_inv r name v : getByName r name = Some v → v ∈ r ∧ v_name v = name.
Proof. unfold getByName, named. intros [Hv Hn]%js_find_some. by bool_prop. Qed.

(** Of the records of a name there is one. *)
Lemma same_record r v w : NoDup (v_name <$> r) → v ∈ r → w ∈ r → v_name v = v_name w → v = w.
Proof.
  intros Hn [i Hi]%list_elem_of_lookup [j Hj]%list_elem_of_lookup Hvw.
  assert (i = j) as ->; [|congruence].
  eapply NoDup_lookup; [exact Hn|rewrite list_lookup_fmap, Hi; done|rewrite list_lookup_fmap, Hj; simpl; congruence].
Qed.

Lemma delete_metallb_shrinks s name : NoDup (v_name <$> repo s) → shrinks (repo s) (repo (delete_metallb s name).1).
Proof.
  intros Hnd. unfold delete_metallb. destruct (getByName _ _) as [v|] eqn:Hv; [|reflexivity]. simpl.
  apply getByName_inv in Hv as [Hv Hn].
  split; [by unfold setSpec; rewrite repo_update_names|]. unfold setSpec, repo_update.
  intros v' (w & -> & Hw)%list_elem_of_fmap. exists w. unfold named. case_bool_decide as Hb; [|done].
  assert (w = v) as -> by (eapply same_record; [done..|congruence]).
  split_and!; [done|done| |intros x Hx; by apply elem_of_nil in Hx].
  unfold host_of, pinnedEndpoint. simpl. by destruct (v_spec v).
Qed.

(** ** Reservations *)

Lemma free_for_conflict r addresses name :
  poolConflict r addresses (Some name) = None ↔ free_for r name addresses.
Proof. rewrite poolConflict_none. unfold free_for. naive_solver. Qed.

Lemma create_check_ok s body : create_check s body = None → flight_ok (repo s) (Creating body).
Proof.
  unfold create_check. simpl. destruct (defined _); [done|].
  destruct (cr_metallb body) as [addresses|]; simpl; [|intros _ v _; split; auto with incus].
  destruct (poolConflict _ _ _) eqn:E; simpl; [done|]. intros _. by apply free_for_conflict.
Qed.

Lemma create_pin_ok s body network :
  flight_ok (repo s) (Creating body) → flight_ok (repo s) (Pinned body (create_pin s body network)).
Proof.
  intros Hf. simpl in *. split; [done|]. unfold create_pin.
  destruct network as [facts|]; [|split; [intros v _|]; simpl; auto with incus].
  destruct (pickEndpointAddress _) as [host|] eqn:Hp; [|split; [intros v _|]; simpl; auto with incus].
  destruct (truthy_str host); [|split; [intros v _|]; simpl; auto with incus].
  apply pick_apart in Hp. cbn [taken] in Hp. split.
  - intros v Hv. split; [intros Hn|]; (eapply apart_mono; [exact Hp|done|]); intros x Hx; apply elem_of_app; left;
      apply elem_of_reserved; [left|right]; exists v; [split_and!; [done|congruence|done]|done].
  - apply apart_sym. eapply apart_mono; [exact Hp|done|]. intros x Hx. apply elem_of_app. by right.
Qed.

Lemma create_commit_apart s body host :
  addresses_apart (repo s) → flight_ok (repo s) (Pinned body host) → addresses_apart (repo (create_commit s body host).1).
Proof.
  intros Hr (Hp & Hh & Hph). unfold create_commit. destruct (getByName (repo s) (cr_name body)) eqn:Hg; [done|]. simpl.
  assert (∀ v, v ∈ repo s → v_name v ≠ cr_name body) as Hnew.
  { intros v Hv. unfold getByName in Hg. pose proof (js_find_none _ _ Hg v Hv) as Hb. unfold named in Hb. by bool_prop. }
  destruct Hr as [Hn Hpp Hpe Hhh]. split.
  - csimpl. constructor; [|done]. intros (v & Hv & Hin)%list_elem_of_fmap. simpl in Hv. by apply (Hnew v Hin).
  - intros v w [->|Hv]%elem_of_cons [->|Hw]%elem_of_cons Hvw; [done| | |by apply Hpp].
    + by apply Hp, Hnew.
    + by apply apart_sym, Hp, Hnew.
  - intros v w [->|Hv]%elem_of_cons [->|Hw]%elem_of_cons; [done| | |by apply Hpe].
    + by apply Hp.
    + by apply apart_sym, Hh, Hnew.
  - intros v w [->|Hv]%elem_of_cons [->|Hw]%elem_of_cons Hvw; [done| | |by apply Hhh].
    + by apply Hh.
    + by apply apart_sym, Hh.
Qed.

Lemma put_check_ok s name addresses kc spec : NoDup (v_name <$> repo s) →
  put_check s name addresses kc = inr spec → flight_ok (repo s) (Putting name addresses spec).
Proof.
  intros Hnd. unfold put_check. destruct (getByName _ _) as [v|] eqn:Hg; [|done]. destruct kc; [|done]. simpl.
  destruct (poolConflict _ _ _) eqn:E; simpl; [done|]. intros [= <-]. split; [by apply free_for_conflict|].
  apply getByName_inv in Hg as [Hv Hn]. intros w Hw Hwn. assert (w = v) as -> by (eapply same_record; [done..|congruence]).
  unfold host_of, pinnedEndpoint. by destruct (v_spec v).
Qed.

Lemma put_commit_apart s name addresses spec hint :
  addresses_apart (repo s) → flight_ok (repo s) (Putting name addresses spec) →
  addresses_apart (repo (put_commit s name addresses spec hint).1).
Proof.
  intros [Hn Hpp Hpe Hhh] [Hf Hspec]. unfold put_commit.
  destruct (match hint with Some _ => _ | None => _ end); [done|]. simpl.
  assert (∀ v', v' ∈ setSpec (repo s) name {| sp_variables := sp_variables spec; sp_metallb := Some addresses; sp_endpointHost := sp_endpointHost spec |} →
    ∃ v, v ∈ repo s ∧ v_name v = v_name v' ∧ host_of v = host_of v'
         ∧ pool_of v' = if bool_decide (v_name v = name) then addresses else pool_of v) as He.
  { unfold setSpec, repo_update. intros v' (v & -> & Hv)%list_elem_of_fmap. exists v. unfold named.
    case_bool_decide as Hb; [|done]. split_and!; [done|done|by rewrite (Hspec v Hv Hb)|done]. }
  split.
  - unfold setSpec. by rewrite repo_update_names.
  - intros v' w' (v & Hv & Nv & _ & ->)%He (w & Hw & Nw & _ & ->)%He Hvw.
    repeat case_bool_decide; [congruence| | |apply Hpp; [done|done|congruence]].
    + by apply Hf.
    + by apply apart_sym, Hf.
  - intros v' w' (v & Hv & Nv & _ & ->)%He (w & Hw & Nw & <- & _)%He.
    case_bool_decide; [by apply Hf|by apply Hpe].
  - intros v' w' (v & Hv & Nv & <- & _)%He (w & Hw & Nw & <- & _)%He Hvw. apply Hhh; [done|done|congruence].
Qed.

(** ** Runs *)

(** A request that reserves addresses begins. *)
Definition opens (e : Event) : bool := match e with Post _ | Put _ _ _ => true | _ => false end.

(** No such request begins while another is in flight. *)
Fixpoint serial (s : System) (es : list Event) : Prop :=
  match es with
  | [] => True
  | e :: es => (opens e = true → flights s = []) ∧ serial (event s e) es
  end.

Record ok (s : System) : Prop := {
  ok_apart : addresses_apart (repo (agent s));
  ok_one : (length (flights s) ≤ 1)%nat;
  ok_flights : Forall (flight_ok (repo (agent s))) (flights s);
}.

Lemma ok_shrink s a : ok s → shrinks (repo (agent s)) (repo a) → ok (with_agent s a).
Proof.
  intros [Ha Ho Hf] Hs. split; simpl; [by eapply shrinks_apart|done|].
  eapply Forall_impl; [exact Hf|]. intros f. by apply shrinks_flight.
Qed.

(** With one request in flight, it is the first. *)
Lemma only_flight (l : list Flight) i f : (length l ≤ 1)%nat → l !! i = Some f → l = [f] ∧ i = 0%nat.
Proof. destruct l as [|g [|]], i; simpl; intros; simplify_eq; (done || lia). Qed.

Lemma one_flight r f : flight_ok r f → Forall (flight_ok r) [f].
Proof. intros Hf. by constructor; [|constructor]. Qed.

Lemma event_ok s e : ok s → (opens e = true → flights s = []) → ok (event s e).
Proof.
  intros Hok Hser. pose proof Hok as [Ha Ho Hf].
  assert (∀ i f, flights s !! i = Some f → flights s = [f] ∧ i = 0%nat ∧ flight_ok (repo (agent s)) f) as Hone.
  { intros i f Hi. destruct (only_flight _ _ _ Ho Hi) as [Hl ->]. split_and!; [done|done|]. rewrite Hl in Hf.
    by apply Forall_cons in Hf as [Hf _]. }
  destruct e; simpl; try (apply ok_shrink; [done|]); auto with incus.
  - destruct (create_check _ _) eqn:Hc; [done|]. apply create_check_ok in Hc. rewrite Hser by done.
    split; simpl; [done|lia|by apply one_flight].
  - destruct (flights s !! i) as [[body| |]|] eqn:Hi; [|done..]. apply Hone in Hi as (-> & -> & Hfl).
    split; simpl; [done|lia|]. apply one_flight. by apply create_pin_ok.
  - destruct (flights s !! i) as [[body|body host|]|] eqn:Hi; [| |done..]; apply Hone in Hi as (-> & -> & Hfl);
      destruct applied; try done; split; simpl; first [done|lia|by constructor|idtac].
    by apply create_commit_apart.
  - destruct (put_check _ _ _ _) as [|spec] eqn:Hc; [done|]. apply put_check_ok in Hc; [|by apply names_distinct].
    rewrite Hser by done. split; simpl; [done|lia|by apply one_flight].
  - destruct (flights s !! i) as [[| |name addresses spec]|] eqn:Hi; [done..| |done]. apply Hone in Hi as (-> & -> & Hfl).
    split; simpl; [by apply put_commit_apart|lia|by constructor].
  - unfold cluster_status. destruct (getByName _ _); [auto with incus|reflexivity].
  - by rewrite get_metallb_repo.
  - apply patch_cluster_shrinks.
  - apply delete_cluster_shrinks.
  - apply delete_metallb_shrinks, names_distinct, Ha.
  - destruct (work_of _ _); [by apply ok_shrink|done].
  - destruct (work_of _ _); [by apply ok_shrink|done].
Qed.

Lemma initial_ok : ok initial.
Proof.
  split; simpl; [|lia|constructor]. split; [constructor|..]; intros v w Hv; by apply elem_of_nil in Hv.
Qed.

Lemma run_ok s es : ok s → serial s es → ok (run s es).
Proof.
  revert s. induction es as [|e es IH]; intros s Hs Hser; [done|]. destruct Hser as [He Hser]. simpl. by apply IH; [apply event_ok|].
Qed.

(** C12: as long as a request that reserves addresses begins only when the one
    before has ended, whatever else goes on meanwhile, no address is given
    twice: the MetalLB pools of two clusters do not overlap, none contains the
    API endpoint of a cluster, and no two clusters have the same endpoint. *)
Theorem serial_requests_apart es v w (Hser : serial initial es) :
  v ∈ repo (agent (run initial es)) → w ∈ repo (agent (run initial es)) →
  overlapping (pool_of v) (host_of w) = []
  ∧ (v_name v ≠ v_name w → overlapping (pool_of v) (pool_of w) = [] ∧ overlapping (host_of v) (host_of w) = []).
Proof.
  intros Hv Hw. destruct (run_ok initial es initial_ok Hser) as [[_ Hpp Hpe Hhh] _ _].
  rewrite !overlapping_nil. split; [by apply Hpe|]. intros Hn. split; [by apply Hpp|by apply Hhh].
Qed.

Definition with_pool (name : string) (pool : list string) : CreateBody :=
  {| cr_name := name; cr_kubernetesVersion := "v1.37.0"; cr_controlPlaneCount := 1; cr_workerCount := 1;
     cr_project := None; cr_variables := []; cr_metallb := Some pool |}.

(** A creation that runs to its end before anything else. *)
Definition creation (name : string) (pool : list string) : list Event :=
  [Post (with_pool name pool); Pin 0 (Some demo_facts); Create 0 true].

Lemma serial_requests_apart_witness :
  let r := repo (agent (run initial (creation "a" ["10.0.0.200"] ++ creation "b" ["10.0.0.201"]))) in
  length r = 2%nat ∧ ∀ v w, v ∈ r → w ∈ r → v_name v ≠ v_name w → overlapping (host_of v) (host_of w) = [].
Proof.
  split; [vm_compute; reflexivity|]. intros v w Hv Hw Hn.
  refine (proj2 (proj2 (serial_requests_apart _ v w _ Hv Hw) Hn)).
  vm_compute. repeat split; reflexivity || discriminate || exact I.
Defined.

(** ** MetalLB work *)

(** Entries that say running are the work under way, one per cluster. *)
Record jobs_ok (j : Jobs) : Prop := {
  work_distinct : NoDup (work j).*1;
  work_running c : c ∈ (work j).*1 ↔ job_running (jobs j) c = true;
  jobs_wf : map_wf (jobs j);
}.

Lemma job_running_set m c job c' :
  job_running (map_set m c job) c' = if bool_decide (c' = c) then jb_running job else job_running m c'.
Proof. unfold job_running. rewrite map_get_set. by case_bool_decide. Qed.

Lemma job_running_delete m c c' : map_wf m →
  job_running (map_delete m c) c' = if bool_decide (c' = c) then false else job_running m c'.
Proof. intros Hm. unfold job_running. rewrite map_get_delete by done. by case_bool_decide. Qed.

Lemma start_ok j c a : jobs_ok j → jobs_ok (Agent.start j c a).
Proof.
  intros [Hn Hw Hm]. unfold Agent.start. destruct (job_running (jobs j) c) eqn:Hr; [done|].
  assert (c ∉ (work j).*1) as Hc by (rewrite Hw; congruence).
  split; simpl; [rewrite fmap_app; apply NoDup_app; split_and!; [done|set_solver|apply NoDup_singleton]| |by apply map_wf_set].
  intros c'. rewrite fmap_app, elem_of_app, job_running_set, Hw. csimpl. rewrite list_elem_of_singleton.
  case_bool_decide; naive_solver.
Qed.

Lemma forgetJob_ok j c : jobs_ok j → jobs_ok (forgetJob j c).
Proof.
  intros [Hn Hw Hm]. unfold forgetJob. destruct (job_running (jobs j) c) eqn:Hr; [done|].
  split; simpl; [done| |by apply map_wf_delete]. intros c'. rewrite job_running_delete, Hw by done.
  case_bool_decide; [subst; naive_solver congruence|done].
Qed.

Lemma elem_of_unfinished (l : list (string * Action)) c c' :
  c' ∈ (js_filter (λ w, negb (bool_decide (w.1 = c))) l).*1 ↔ c' ∈ l.*1 ∧ c' ≠ c.
Proof.
  rewrite !list_elem_of_fmap. split.
  - intros (w & -> & [Hw Hb]%elem_of_js_filter). bool_prop. split; [by exists w|done].
  - intros [(w & -> & Hw) Hc]. exists w. split; [done|]. apply elem_of_js_filter. split; [done|].
    apply negb_true_iff. by apply bool_decide_eq_false.
Qed.

Lemma unfinished_distinct (l : list (string * Action)) c :
  NoDup l.*1 → NoDup (js_filter (λ w, negb (bool_decide (w.1 = c))) l).*1.
Proof.
  induction l as [|w l IH]; csimpl; [done|]. intros [Hw Hl]%NoDup_cons.
  destruct (negb _); csimpl; [|by apply IH]. constructor; [|by apply IH].
  by intros [Hin _]%elem_of_unfinished.
Qed.

Lemma work_done_ok j c : jobs_ok j → jobs_ok (work_done j c).
Proof.
  intros [Hn Hw Hm]. split; simpl; [by apply unfinished_distinct| |by apply map_wf_delete].
  intros c'. rewrite elem_of_unfinished, Hw, job_running_delete by done. case_bool_decide; naive_solver.
Qed.

Lemma work_failed_ok j c e : jobs_ok j → jobs_ok (work_failed j c e).
Proof.
  intros [Hn Hw Hm]. split; simpl; [by apply unfinished_distinct| |destruct (map_get _ _); [by apply map_wf_set|done]].
  intros c'. rewrite elem_of_unfinished, Hw. destruct (map_get (jobs j) c) as [job|] eqn:Hj.
  - rewrite job_running_set. case_bool_decide; naive_solver.
  - split; [naive_solver|]. intros Hr. split; [done|]. intros ->. unfold job_running in Hr. by rewrite Hj in Hr.
Qed.

#[export] Hint Resolve start_ok forgetJob_ok work_done_ok work_failed_ok : incus.

Lemma enrich_jobs s record live : jobs_ok (ag_jobs s) → jobs_ok (ag_jobs (enrich s record live)).
Proof.
  intros Hj. destruct live as [live|]; simpl; [|done]. unfold overlay.
  destruct (syncDesired _ _ _) as [r rec]. unfold syncStatus. case_bool_decide; [done|].
  destruct (wantedMetalLB rec); [destruct (_ && _)|]; simpl; unfold startInstall; auto with incus.
Qed.

Lemma list_clusters_jobs s live : jobs_ok (ag_jobs s) → jobs_ok (ag_jobs (list_clusters s live)).
Proof.
  unfold list_clusters. generalize (repo s). intros l. revert s.
  induction l as [|v l IH]; intros s Hs; simpl; [done|]. by apply IH, enrich_jobs.
Qed.

Lemma event_jobs s e : jobs_ok (ag_jobs (agent s)) → jobs_ok (ag_jobs (agent (event s e))).
Proof.
  intros Hj. destruct e; simpl.
  - by destruct (create_check _ _).
  - by destruct (_ !! _) as [[| |]|].
  - destruct (_ !! _) as [[| |]|]; try done; destruct applied; try done. unfold create_commit. simpl.
    by destruct (defined _).
  - by destruct (put_check _ _ _ _).
  - destruct (_ !! _) as [[| |]|]; try done. unfold put_commit, startInstall. simpl.
    destruct (match hint with Some _ => _ | None => _ end); simpl; auto with incus.
  - by apply list_clusters_jobs.
  - unfold cluster_status. destruct (getByName _ _); [by apply enrich_jobs|done].
  - unfold get_metallb, startInstall. destruct (getByName _ _) as [v|]; [|done]. destruct observed as [ob|]; [|done].
    destruct (metallbStatus _ _ _), (wantedMetalLB v); try done. destruct (bool_decide _); simpl; auto with incus.
  - unfold patch_cluster. destruct (getByName _ _) as [v|]; [|done].
    destruct (match kubernetesVersion body with Some _ => _ | None => _ end); [done|].
    destruct capnReady; [|done]. by destruct outcome.
  - unfold delete_cluster. destruct (getByName _ _); [|done]. destruct torn_down; simpl; auto with incus.
  - unfold delete_metallb, startRemove. destruct (getByName _ _); simpl; auto with incus.
  - destruct (work_of _ _); simpl; auto with incus.
  - destruct (work_of _ _); simpl; auto with incus.
Qed.

Lemma run_jobs s es : jobs_ok (ag_jobs (agent s)) → jobs_ok (ag_jobs (agent (run s es))).
Proof. revert s. induction es as [|e es IH]; intros s Hs; simpl; [done|]. by apply IH, event_jobs. Qed.

Lemma initial_jobs : jobs_ok (ag_jobs (agent initial)).
Proof.
  split; simpl; [constructor| |constructor]. intros c. split; [intros Hc; by apply elem_of_nil in Hc|done].
Qed.

(** Whatever requests are made and however they interleave, MetalLB is
    installed in or removed from a cluster by one piece of work at a time, and
    the status says installing or removing exactly while it is under way. *)
Theorem one_metallb_job es c ob :
  let j := ag_jobs (agent (run initial es)) in
  (∀ a b, (c, a) ∈ work j → (c, b) ∈ work j → a = b)
  ∧ (metallbStatus j c ob = installing ∨ metallbStatus j c ob = removing ↔ c ∈ (work j).*1).
Proof.
  intros j. destruct (run_jobs initial es initial_jobs) as [Hn Hw Hm]. fold j in Hn, Hw, Hm. split.
  - intros a b Ha Hb. pose proof (map_get_elem (work j) c a Hn Ha). pose proof (map_get_elem (work j) c b Hn Hb). congruence.
  - rewrite Hw. unfold metallbStatus, job_running. destruct (map_get (jobs j) c) as [[act [] err]|]; simpl.
    + destruct act; naive_solver.
    + destruct err as [e|]; [destruct (truthy_str e)|]; destruct (ob_ready ob); naive_solver.
    + destruct (ob_ready ob); naive_solver.
Qed.

(** ** What interleaving breaks *)

Lemma create_check_inv s body : create_check s body = None →
  getByName (repo s) (cr_name body) = None.
Proof. unfold create_check. by destruct (getByName (repo s) (cr_name body)). Qed.

Lemma not_named r name v : getByName r name = None → v ∈ r → v_name v ≠ name.
Proof. unfold getByName. intros Hg Hv. pose proof (js_find_none _ _ Hg v Hv) as Hb. unfold named in Hb. by bool_prop. Qed.

(** What a cluster that is not recorded yet must stay off does not depend on its name. *)
Lemma reserved_unrecorded r name : getByName r name = None →
  reservedAddresses r (Some name) = reservedAddresses r None.
Proof.
  intros Hg. unfold reservedAddresses, otherPools. f_equal. f_equal. f_equal. f_equal.
  apply js_filter_ext. intros v Hv. rewrite !bool_decide_eq_false_2; [done..|].
  intros [= E]. by apply (not_named _ _ _ Hg Hv).
Qed.

Lemma create_commit_new s body host : getByName (repo s) (cr_name body) = None →
  create_commit s body host = (set_repo s (new_record body host :: repo s), 201).
Proof. intros Hg. unfold create_commit. by rewrite Hg. Qed.

(** Two creations in flight at a time are given the same addresses: neither
    is recorded while the other checks, so both may have the same MetalLB pool,
    and on one network both are pinned to the same API endpoint. *)
Theorem interleaved_creates_collide s b1 b2 facts host :
  create_check s b1 = None → create_check s b2 = None → cr_name b1 ≠ cr_name b2 → cr_metallb b1 = cr_metallb b2 →
  create_pin s b1 (Some facts) = Some host →
  let s' := run {| agent := s; flights := [] |}
              [Post b1; Post b2; Pin 0 (Some facts); Pin 1 (Some facts); Create 0 true; Create 0 true] in
  flights s' = []
  ∧ ∃ v w, v ∈ repo (agent s') ∧ w ∈ repo (agent s') ∧ v_name v = cr_name b1 ∧ v_name w = cr_name b2
      ∧ wantedMetalLB v = cr_metallb b1 ∧ wantedMetalLB w = cr_metallb b1
      ∧ pinnedEndpoint v = Some host ∧ pinnedEndpoint w = Some host.
Proof.
  intros H1 H2 Hn Hm Hp s'. pose proof (create_check_inv _ _ H1) as G1. pose proof (create_check_inv _ _ H2) as G2.
  assert (create_pin s b2 (Some facts) = Some host) as Hp2.
  { rewrite <-Hp. unfold create_pin. by rewrite Hm, (reserved_unrecorded _ _ G1), (reserved_unrecorded _ _ G2). }
  assert (s' = {| agent := (create_commit (create_commit s b1 (Some host)).1 b2 (Some host)).1; flights := [] |}) as ->.
  { subst s'. unfold run. cbn -[create_check create_pin create_commit]. rewrite H1.
    cbn -[create_check create_pin create_commit]. rewrite H2.
    cbn -[create_check create_pin create_commit]. by rewrite Hp, Hp2. }
  rewrite (create_commit_new s b1) by done. rewrite create_commit_new.
  - simpl. split; [done|]. exists (new_record b1 (Some host)), (new_record b2 (Some host)).
    split; [right; left|]. split; [left|]. by rewrite Hm.
  - unfold getByName, js_find, named. simpl. by rewrite bool_decide_eq_false_2.
Qed.

Lemma interleaved_creates_collide_witness :
  ∃ s' v w, s' = run initial [Post (with_pool "a" ["10.0.0.200-10.0.0.210"]); Post (with_pool "b" ["10.0.0.200-10.0.0.210"]);
                              Pin 0 (Some demo_facts); Pin 1 (Some demo_facts); Create 0 true; Create 0 true]
    ∧ v ∈ repo (agent s') ∧ w ∈ repo (agent s') ∧ v_name v = "a" ∧ v_name w = "b" ∧ pinnedEndpoint v = pinnedEndpoint w.
Proof.
  destruct (create_pin (agent initial) (with_pool "a" ["10.0.0.200-10.0.0.210"]) (Some demo_facts)) as [host|] eqn:Hp;
    [|vm_compute in Hp; discriminate].
  destruct (interleaved_creates_collide (agent initial) (with_pool "a" ["10.0.0.200-10.0.0.210"]) (with_pool "b" ["10.0.0.200-10.0.0.210"])
              demo_facts host eq_refl eq_refl ltac:(discriminate) eq_refl Hp) as (_ & v & w & Hv & Hw & Nv & Nw & _ & _ & Ev & Ew).
  eexists _, v, w. split; [reflexivity|]. split; [exact Hv|]. split; [exact Hw|]. split; [exact Nv|]. split; [exact Nw|].
  by rewrite Ev, Ew.
Defined.

(** An address pool that is changed while MetalLB is being installed is
    answered with "installing" and then lost: the work under way goes on with
    the old pool, no other work begins, and once it has ended the status says
    installed, the record wants the new pool, the cluster has the old one, and
    no later look at it changes that. *)
Theorem put_during_work_lost s name old new spec looks :
  jobs_ok (ag_jobs s) → work_of s name = Some (Install old) → put_check s name new true = inr spec →
  Forall (λ ob, ob_ready ob = true) looks →
  let s' := run {| agent := s; flights := [] |}
              ([Put name new true; Store 0 None; WorkDone name] ++ ((λ ob, GetMetalLB name (Some ob)) <$> looks)) in
  map_get (pools (agent s')) name = Some old ∧ work_of (agent s') name = None
  ∧ ∀ v, v ∈ repo (agent s') → v_name v = name → wantedMetalLB v = Some new.
Proof.
  intros [Hn Hw Hm] Hwork Hput Hlooks.
  assert (job_running (jobs (ag_jobs s)) name = true) as Hrun.
  { apply Hw. unfold work_of in Hwork. apply map_get_Some_elem in Hwork.
    apply list_elem_of_fmap. by exists (name, Install old). }
  set (s3 := run {| agent := s; flights := [] |} [Put name new true; Store 0 None; WorkDone name]).
  assert (Hs3 : agent s3 = {| repo := setSpec (repo s) name {| sp_variables := sp_variables spec; sp_metallb := Some new; sp_endpointHost := sp_endpointHost spec |};
                              ag_jobs := work_done (ag_jobs s) name; pools := map_set (pools s) name old |}).
  { subst s3. unfold run. cbn -[put_check put_commit work_of]. rewrite Hput. cbn -[put_check put_commit work_of].
    unfold put_commit, startInstall, Agent.start, forgetJob. rewrite Hrun. cbn -[setSpec work_of]. rewrite Hrun.
    unfold work_of in *. cbn -[setSpec]. by rewrite Hwork. }
  assert (Hlook : ∀ l s0, Forall (λ ob, ob_ready ob = true) l → map_get (jobs (ag_jobs (agent s0))) name = None →
            agent (run s0 ((λ ob, GetMetalLB name (Some ob)) <$> l)) = agent s0).
  { induction l as [|ob l IH]; intros s0 Hl Hj; [done|]. apply Forall_cons in Hl as [Hob Hl].
    assert (event s0 (GetMetalLB name (Some ob)) = s0) as Hev.
    { destruct s0 as [a fl]. simpl in *. unfold get_metallb, metallbStatus, with_agent. rewrite Hj, Hob.
      destruct (getByName _ _) as [v|]; [|done]. by destruct (wantedMetalLB v). }
    change (agent (run (event s0 (GetMetalLB name (Some ob))) ((λ ob, GetMetalLB name (Some ob)) <$> l)) = agent s0).
    rewrite Hev. by apply IH. }
  intros s'. assert (agent s' = agent s3) as ->.
  { subst s' s3. unfold run. rewrite foldl_app. apply Hlook; [done|].
    change (foldl event _ _) with (run {| agent := s; flights := [] |} [Put name new true; Store 0 None; WorkDone name]).
    rewrite Hs3. simpl. rewrite map_get_delete by done. by rewrite bool_decide_eq_true_2. }
  rewrite Hs3. simpl. split_and!.
  - rewrite map_get_set. by rewrite bool_decide_eq_true_2.
  - unfold work_of. simpl. apply map_get_None. by intros [_ ?]%elem_of_unfinished.
  - unfold setSpec, repo_update. intros v (v0 & -> & _)%list_elem_of_fmap. unfold named.
    case_bool_decide; simpl; [done|]. by intros ?.
Qed.

Definition up_record (pool : list string) : ClusterView :=
  {| v_name := "a"; v_project := Some "k8s-a"; v_kubernetesVersion := "v1.37.0"; v_controlPlaneCount := 1; v_workerCount := 1;
     v_status := s_ready; v_spec := Some {| sp_variables := None; sp_metallb := Some pool; sp_endpointHost := None |} |}.

Definition installing_old : Agent :=
  {| repo := [up_record ["10.0.0.200"]];
     ag_jobs := Agent.start {| jobs := []; work := [] |} "a" (Install ["10.0.0.200"]); pools := [] |}.

Lemma put_during_work_lost_witness :
  map_get (pools (agent (run {| agent := installing_old; flights := [] |}
    [Put "a" ["10.0.0.201"] true; Store 0 None; WorkDone "a"; GetMetalLB "a" (Some {| ob_ready := true; ob_addresses := [] |})]))) "a"
  = Some ["10.0.0.200"].
Proof.
  refine (proj1 (put_during_work_lost installing_old "a" ["10.0.0.200"] ["10.0.0.201"]
    {| sp_variables := None; sp_metallb := Some ["10.0.0.200"]; sp_endpointHost := None |}
    [{| ob_ready := true; ob_addresses := [] |}] _ eq_refl _ _)).
  - apply start_ok, initial_jobs.
  - vm_compute. reflexivity.
  - constructor; [reflexivity|constructor].
Defined.

(** ** Reads and edits *)

Lemma getByName_update f r name : (∀ v, v_name (f v) = v_name v) →
  getByName (repo_update f r name) name = f <$> getByName r name.
Proof.
  intros Hf. unfold getByName, js_find, repo_update. induction r as [|v r IH]; [done|]. csimpl.
  destruct (named name v) eqn:Hn.
  - assert (named name (f v) = true) as -> by (unfold named in *; by rewrite Hf). done.
  - by rewrite Hn.
Qed.

Lemma update_others f r name w : w ∈ r → v_name w ≠ name → w ∈ repo_update f r name.
Proof.
  intros Hw Hn. unfold repo_update. apply list_elem_of_fmap. exists w. unfold named.
  by rewrite bool_decide_eq_false_2.
Qed.

(** The record a read leaves: what the topology asks for, and the next status. *)
Definition mirrored (v : ClusterView) (live : LiveStatus) : ClusterView :=
  {| v_name := v_name v; v_project := v_project v;
     v_kubernetesVersion := default (v_kubernetesVersion v) (l_version live);
     v_controlPlaneCount := default (v_controlPlaneCount v) (l_controlPlaneDesired live);
     v_workerCount := default (v_workerCount v) (l_workerDesired live);
     v_status := nextStatus (v_status v) live; v_spec := v_spec v |}.

Lemma syncDesired_spec r v live : getByName r (v_name v) = Some v →
  let '(r', v') := syncDesired r v live in
  getByName r' (v_name v) = Some v'
  ∧ v' = {| v_name := v_name v; v_project := v_project v;
            v_kubernetesVersion := default (v_kubernetesVersion v) (l_version live);
            v_controlPlaneCount := default (v_controlPlaneCount v) (l_controlPlaneDesired live);
            v_workerCount := default (v_workerCount v) (l_workerDesired live);
            v_status := v_status v; v_spec := v_spec v |}
  ∧ ∀ w, w ∈ r → v_name w ≠ v_name v → w ∈ r'.
Proof.
  intros Hg. unfold syncDesired. destruct (_ && _ && _) eqn:E.
  - bool_prop. rewrite !Z.eqb_eq in *. split_and!; [done| |done]. destruct v. simpl in *. by f_equal.
  - unfold setDesired. rewrite getByName_update, Hg by done. split_and!; [done|done|].
    intros w Hw Hn. by apply update_others.
Qed.

(** A read brings the record in line with the topology and moves its status
    on; nothing else is written, and MetalLB is installed just when the cluster
    turns ready out of its bring-up, its creator asked for addresses and no work
    on it is under way. *)
Theorem read_mirrors s v live (Hv : getByName (repo s) (v_name v) = Some v) :
  let s' := enrich s v (Some live) in
  getByName (repo s') (v_name v) = Some (mirrored v live)
  ∧ (∀ w, w ∈ repo s → v_name w ≠ v_name v → w ∈ repo s')
  ∧ ag_jobs s' =
      match wantedMetalLB v with
      | Some addresses =>
          if bool_decide (v_status v ∈ BRINGING_UP ∧ nextStatus (v_status v) live = s_ready)
          then startInstall (ag_jobs s) (v_name v) addresses else ag_jobs s
      | None => ag_jobs s
      end.
Proof.
  intros s'. subst s'. simpl. unfold overlay.
  pose proof (syncDesired_spec (repo s) v live Hv) as Hd.
  destruct (syncDesired (repo s) v live) as [r v'] eqn:Ed. destruct Hd as (Hg & -> & Ho). unfold syncStatus. simpl.
  case_bool_decide as Hst.
  - simpl. split_and!; [by unfold mirrored; rewrite Hst|done|]. unfold wantedMetalLB. simpl.
    destruct (v_spec v ≫= sp_metallb) as [a|]; [|done]. case_bool_decide as Hb; [|done].
    destruct Hb as [Hin Hr]. rewrite Hst in Hr. rewrite Hr in Hin.
    by apply ready_not_bringing_up in Hin.
  - assert (Hrep : ∀ j, getByName (repo (set_jobs (set_repo (set_repo s r) (setStatus r (v_name v) (nextStatus (v_status v) live))) j)) (v_name v) = Some (mirrored v live)
      ∧ ∀ w, w ∈ repo s → v_name w ≠ v_name v → w ∈ setStatus r (v_name v) (nextStatus (v_status v) live)).
    { intros j. simpl. unfold setStatus. rewrite getByName_update, Hg by done. split; [done|].
      intros w Hw Hn. apply update_others; auto. }
    destruct (Hrep (ag_jobs s)) as [H1 H2]. unfold wantedMetalLB. simpl.
    destruct (v_spec v ≫= sp_metallb) as [a|]; simpl; [|split_and!; done].
    assert (bool_decide (v_status v ∈ BRINGING_UP ∧ nextStatus (v_status v) live = s_ready)
      = bool_decide (nextStatus (v_status v) live = s_ready)
        && (bool_decide (v_status v = s_pending) || bool_decide (v_status v = s_provisioning))) as ->.
    { apply eq_bool_prop_intro. rewrite bool_decide_spec, andb_True, orb_True, !bool_decide_spec.
      unfold BRINGING_UP. rewrite !elem_of_cons, elem_of_nil. tauto. }
    destruct (_ && _); simpl; split_and!; done.
Qed.

Definition coming_record : ClusterView :=
  {| v_name := "a"; v_project := None; v_kubernetesVersion := "v1.37.0"; v_controlPlaneCount := 1; v_workerCount := 1;
     v_status := s_provisioning;
     v_spec := Some {| sp_variables := None; sp_metallb := Some ["10.0.0.200"]; sp_endpointHost := None |} |}.

Lemma read_mirrors_witness :
  ag_jobs (enrich {| repo := [coming_record]; ag_jobs := {| jobs := []; work := [] |}; pools := [] |}
             coming_record (Some (sample_live "Provisioned" true None)))
  = startInstall {| jobs := []; work := [] |} "a" ["10.0.0.200"].
Proof.
  exact (proj2 (proj2 (read_mirrors {| repo := [coming_record]; ag_jobs := {| jobs := []; work := [] |}; pools := [] |}
    coming_record (sample_live "Provisioned" true None) eq_refl))).
Defined.

(** An edit that the management cluster took is recorded as asked; a
    cluster that was up shows the change from then on, one that was coming up
    goes on as it was; and an edit that was refused leaves every record alone. *)
Theorem patch_recorded s name request ready outcome v (Hv : getByName (repo s) name = Some v) :
  let '(s', http) := patch_cluster s name request ready outcome in
  (http = 200 →
     ∃ v', getByName (repo s') name = Some v'
       ∧ v_kubernetesVersion v' = default (v_kubernetesVersion v) (kubernetesVersion request)
       ∧ v_controlPlaneCount v' = default (v_controlPlaneCount v) (controlPlaneCount request)
       ∧ v_workerCount v' = default (v_workerCount v) (workerCount request)
       ∧ v_spec v' = v_spec v
       ∧ v_status v' = if is_up (v_status v)
                       then match kubernetesVersion request with Some _ => s_upgrading | None => s_scaling end
                       else v_status v)
  ∧ (http ≠ 200 → s' = s) ∧ ag_jobs s' = ag_jobs s
  ∧ (kubernetesVersion request ≠ None → http = 200 → customImageError (v_spec v ≫= sp_variables) = None).
Proof.
  unfold patch_cluster. rewrite Hv.
  destruct (match kubernetesVersion request with Some _ => _ | None => _ end) eqn:Hi; [split_and!; done|].
  destruct ready; simpl; [|split_and!; done]. destruct outcome; [|split_and!; done..].
  unfold setDesired, setStatus. rewrite getByName_update, Hv by done. simpl. split_and!; [|done|done|].
  - intros _. destruct (is_up (v_status v)); rewrite ?getByName_update, Hv by done; eexists; split_and!; done.
  - intros Hk _. destruct (kubernetesVersion request); [|done]. bool_prop. by apply dec_stable.
Qed.

Lemma patch_recorded_witness :
  (patch_cluster {| repo := [up_record []]; ag_jobs := {| jobs := []; work := [] |}; pools := [] |} "a"
     {| controlPlaneCount := None; workerCount := Some 3; kubernetesVersion := None |} true Patched).2 = 200
  ∧ ag_jobs (patch_cluster {| repo := [up_record []]; ag_jobs := {| jobs := []; work := [] |}; pools := [] |} "a"
     {| controlPlaneCount := None; workerCount := Some 3; kubernetesVersion := None |} true Patched).1 = {| jobs := []; work := [] |}.
Proof.
  pose proof (patch_recorded {| repo := [up_record []]; ag_jobs := {| jobs := []; work := [] |}; pools := [] |} "a"
     {| controlPlaneCount := None; workerCount := Some 3; kubernetesVersion := None |} true Patched (up_record []) eq_refl) as H0.
  cbv zeta in H0. split; [reflexivity|]. destruct (patch_cluster _ _ _ _ _) as [s' http]. exact (proj1 (proj2 (proj2 H0))).
Defined.
