(* ===== verification/Watchdog.v ===== *)
(** * Watchdog: the restarts of the cluster controllers

    Models [k8s:lib/controller-health.ts] and [k8s:lib/self-heal.ts]: which
    machines Cluster API has lost sight of, and the restarts of its controllers,
    asked for or by the watchdog. The watchdog's timer does not wait for the
    look before it, so looks, requests and rollouts are steps of their own:
    one between any two awaited commands. [Date.parse] is a parameter. *)

From S2P Require Import Fleet.
From S2P Require Import Prelude JsString Effects.
Open Scope Z_scope.

(** ** Machines out of sight ([controller-health.ts]) *)

Record MachineCondition := {
  mc_type : option string; mc_status : option string; mc_reason : option string; mc_message : option string;
  mc_lastTransitionTime : option string;
}.
(** [mo_cluster]: the label with the cluster's name. *)
Record MachineObject := {
  mo_name : option string; mo_cluster : option string; mo_deletionTimestamp : option string; mo_phase : option string;
  mo_conditions : list MachineCondition;
}.
Record StaleMachine := { st_cluster : string; st_machine : string; st_condition : string; st_message : string; st_since : string }.

Section health.
Context (date_parse : string → option Z).  (** milliseconds; [None] for [NaN] *)

Definition hit (now minAgeMs : Z) (c : MachineCondition) : bool :=
  bool_decide (mc_status c = Some "Unknown") && bool_decide (mc_reason c = Some "InspectionFailed")
  && str_contains "unreachable" (toLowerCase (default EmptyString (mc_message c)))
  && match mc_lastTransitionTime c ≫= date_parse with Some t => minAgeMs <=? now - t | None => false end.
Definition since_of (c : MachineCondition) : Z := default 0 (mc_lastTransitionTime c ≫= date_parse).
Definition earlier (a b : MachineCondition) : comparison := Z.compare (since_of a) (since_of b).

Definition stale_of (now minAgeMs : Z) (m : MachineObject) : option StaleMachine :=
  if truthy_opt_str (mo_deletionTimestamp m) || bool_decide (mo_phase m = Some "Deleting") then None
  else
    let cluster := default EmptyString (mo_cluster m) in
    let name := default EmptyString (mo_name m) in
    if negb (truthy_str cluster) || negb (truthy_str name) then None
    else
      match js_sort earlier (js_filter (hit now minAgeMs) (mo_conditions m)) with
      | [] => None
      | first :: _ =>
          Some {| st_cluster := cluster; st_machine := name; st_condition := default EmptyString (mc_type first);
                  st_message := default EmptyString (mc_message first); st_since := default EmptyString (mc_lastTransitionTime first) |}
      end.
Definition staleInspections (machines : list MachineObject) (now minAgeMs : Z) : list StaleMachine :=
  omap (stale_of now minAgeMs) machines.

(** ** Restarts ([self-heal.ts]) *)

Definition STALE_AFTER_MS : Z := 5 * 60000.
Definition COOLDOWN_MS : Z := 15 * 60000.
Definition MAX_ATTEMPTS : nat := 2.

Record Restart := { re_at : Z; re_reason : string; re_automatic : bool; re_ok : option bool; re_error : option string }.

(** What a command printed, and how it ended. *)
Record ExecResult := { ex_ok : bool; ex_code : Z; ex_stdout : string; ex_stderr : string }.
Definition CONTROLLERS : list string :=
  ["capn-controller-manager"; "capi-controller-manager"; "capi-kubeadm-control-plane-controller-manager";
   "capi-kubeadm-bootstrap-controller-manager"].

(** [s.replace(/\s+/g, " ")] *)
Fixpoint squeeze (was_space : bool) (s : string) : string :=
  match s with
  | EmptyString => EmptyString
  | String c r =>
      if is_js_space c then (if was_space then squeeze true r else String " " (squeeze true r)) else String c (squeeze false r)
  end.
Definition execError (r : ExecResult) : string :=
  let detail := squeeze false (let e := trim (ex_stderr r) in if truthy_str e then e else trim (ex_stdout r)) in
  if truthy_str detail then detail else "exited with code " +++ show_Z (ex_code r).

(** The outcome of a rollout: its error, if any. Each deployment is restarted, then each is awaited. *)
Definition rollOut (restart status : string → ExecResult) : option string :=
  match js_find (λ r, negb (ex_ok r)) (restart <$> CONTROLLERS) with
  | Some failed => Some ("kubectl rollout restart: " +++ execError failed)
  | None =>
      match js_find (λ d, negb (ex_ok (status d))) CONTROLLERS with
      | Some d => Some (d +++ " did not come back: " +++ execError (status d))
      | None => None
      end
  end.

(** Where a look of the watchdog waits. *)
Inductive Phase :=
  | AwaitReady                                             (** [capnReady()] *)
  | AwaitMachines                                          (** [listMachines()] *)
  | Probe (stale : list StaleMachine) (rest : list string).  (** [workloadAnswers] of the first of [rest] *)
Record Tick := { tk_at : Z; tk_phase : Phase }.

(** The variables of the module: [last] is the latest of [w_all], [w_rolling] the rollouts under way, as
    indices of their entries. *)
Record Watch := {
  w_now : Z; w_all : list Restart; w_restarting : bool; w_rolling : list nat; w_attempts : nat; w_ticks : list Tick;
}.
Definition started (now : Z) : Watch :=
  {| w_now := now; w_all := []; w_restarting := false; w_rolling := []; w_attempts := 0; w_ticks := [] |}.

Definition with_ticks (w : Watch) (l : list Tick) : Watch :=
  {| w_now := w_now w; w_all := w_all w; w_restarting := w_restarting w; w_rolling := w_rolling w; w_attempts := w_attempts w; w_ticks := l |}.
Definition with_attempts (w : Watch) (n : nat) : Watch :=
  {| w_now := w_now w; w_all := w_all w; w_restarting := w_restarting w; w_rolling := w_rolling w; w_attempts := n; w_ticks := w_ticks w |}.
Definition ended (w : Watch) (i : nat) : Watch := with_ticks w (delete i (w_ticks w)).
Definition moves (w : Watch) (i : nat) (tk : Tick) (p : Phase) : Watch :=
  with_ticks w (<[i := {| tk_at := tk_at tk; tk_phase := p |}]> (w_ticks w)).

(** [None]: RestartInProgress. *)
Definition restartControllers (w : Watch) (reason : string) (automatic : bool) : option (Watch * Restart) :=
  if w_restarting w then None
  else
    let entry := {| re_at := w_now w; re_reason := reason; re_automatic := automatic; re_ok := None; re_error := None |} in
    Some ({| w_now := w_now w; w_all := w_all w ++ [entry]; w_restarting := true; w_rolling := w_rolling w ++ [length (w_all w)];
             w_attempts := w_attempts w; w_ticks := w_ticks w |}, entry).

Definition rolled_out (w : Watch) (i : nat) (error : option string) : Watch :=
  {| w_now := w_now w;
     w_all := alter (λ e, {| re_at := re_at e; re_reason := re_reason e; re_automatic := re_automatic e;
                             re_ok := Some match error with None => true | Some _ => false end; re_error := error |}) i (w_all w);
     w_restarting := false; w_rolling := js_filter (λ j, negb (j =? i)%nat) (w_rolling w); w_attempts := w_attempts w; w_ticks := w_ticks w |}.

Definition cooling (w : Watch) : bool := match last (w_all w) with Some e => w_now w - re_at e <? COOLDOWN_MS | None => false end.

Definition minutes (now : Z) (since : string) : string :=
  match date_parse since with Some t => show_Z ((now - t + 30000) / 60000) | None => "NaN" end.
Definition stuck_reason (now : Z) (stale : list StaleMachine) (cluster : string) : string :=
  match js_find (λ s, bool_decide (st_cluster s = cluster)) stale with
  | Some m => st_machine m +++ " of cluster " +++ cluster +++ " reported " +++ quoted (st_message m) +++ " for " +++ minutes now (st_since m)
              +++ " min while its API server answers"
  | None => EmptyString
  end.

(** What a step does that is worth telling. *)
Inductive Happened := Restarted (e : Restart) | LookedClean.

(** [tick], from each await to the next. *)
Definition tick_begins (w : Watch) : Watch :=
  if w_restarting w || cooling w then w else with_ticks w (w_ticks w ++ [{| tk_at := w_now w; tk_phase := AwaitReady |}]).
Definition tick_ready (w : Watch) (i : nat) (tk : Tick) (ready : bool) : Watch :=
  if ready then moves w i tk AwaitMachines else ended w i.
Definition tick_listed (w : Watch) (i : nat) (tk : Tick) (ms : list MachineObject) : Watch * list Happened :=
  let stale := staleInspections ms (w_now w) STALE_AFTER_MS in
  match set_of (st_cluster <$> stale) with
  | [] => (with_attempts (ended w i) 0, [LookedClean])
  | clusters => if (MAX_ATTEMPTS <=? w_attempts w)%nat then (ended w i, []) else (moves w i tk (Probe stale clusters), [])
  end.
Definition tick_answered (w : Watch) (i : nat) (tk : Tick) (stale : list StaleMachine) (cluster : string) (rest : list string) (answers : bool)
    : Watch * list Happened :=
  if answers then
    let w := with_attempts (ended w i) (S (w_attempts w)) in
    match restartControllers w (stuck_reason (w_now w) stale cluster) true with
    | Some (w, e) => (w, [Restarted e])
    | None => (w, [])
    end
  else match rest with [] => (ended w i, []) | _ => (moves w i tk (Probe stale rest), []) end.

Inductive Label :=
  | Later (t : Z)
  | Timer
  | ReadyIs (i : nat) (ready : bool)
  | Listed (i : nat) (ms : list MachineObject)
  | Answered (i : nat) (answers : bool)
  | TickFailed (i : nat)                     (** a command could not be run, or printed no JSON *)
  | Requested                                (** [POST /controllers/restart] *)
  | RolledOut (i : nat) (error : option string).

(** [None]: nothing of the kind is under way. *)
Definition step (w : Watch) (l : Label) : option (Watch * list Happened) :=
  match l with
  | Later t =>
      if w_now w <=? t then
        Some ({| w_now := t; w_all := w_all w; w_restarting := w_restarting w; w_rolling := w_rolling w; w_attempts := w_attempts w;
                 w_ticks := w_ticks w |}, [])
      else None
  | Timer => Some (tick_begins w, [])
  | ReadyIs i ready =>
      tk ← w_ticks w !! i;
      match tk_phase tk with AwaitReady => Some (tick_ready w i tk ready, []) | _ => None end
  | Listed i ms =>
      tk ← w_ticks w !! i;
      match tk_phase tk with AwaitMachines => Some (tick_listed w i tk ms) | _ => None end
  | Answered i answers =>
      tk ← w_ticks w !! i;
      match tk_phase tk with Probe stale (cluster :: rest) => Some (tick_answered w i tk stale cluster rest answers) | _ => None end
  | TickFailed i => tk ← w_ticks w !! i; Some (ended w i, [])
  | Requested => match restartControllers w "requested from the UI" false with Some (w, e) => Some (w, [Restarted e]) | None => Some (w, []) end
  | RolledOut i error => if includes (w_rolling w) i then Some (rolled_out w i error, []) else None
  end.

Fixpoint exec (w : Watch) (ls : list Label) : option (Watch * list Happened) :=
  match ls with
  | [] => Some (w, [])
  | l :: ls =>
      r ← step w l;
      r' ← exec r.1 ls;
      Some (r'.1, r.2 ++ r'.2)
  end.

(** Runs from the start, whose steps are [allowed]. *)
Inductive runs (allowed : Watch → Label → Prop) (now : Z) : list Happened → Watch → Prop :=
  | runs_start : runs allowed now [] (started now)
  | runs_step evs w l w' evs' : runs allowed now evs w → allowed w l → step w l = Some (w', evs') → runs allowed now (evs ++ evs') w'.

(** A look begins only when the one before it is over. *)
Definition serial (w : Watch) (l : Label) : Prop := l = Timer → w_ticks w = [].

(** ** What the page shows *)

Record Deployment := { dp_name : string; dp_ready : Z; dp_desired : Z }.
Record ControllerHealth := {
  ch_deployments : list Deployment; ch_unreachable : list StaleMachine; ch_restarting : bool; ch_lastRestart : option Restart;
}.
(** [deployment]: ready and desired replicas, when they could be read; [machines]: [None] when listing failed. *)
Definition controllerHealth (w : Watch) (deployment : string → option (option Z * option Z)) (machines : option (list MachineObject))
    : ControllerHealth :=
  {| ch_deployments := (λ d, {| dp_name := d; dp_ready := default 0 (deployment d ≫= fst); dp_desired := default 0 (deployment d ≫= snd) |}) <$> CONTROLLERS;
     ch_unreachable := staleInspections (default [] machines) (w_now w) 0;
     ch_restarting := w_restarting w; ch_lastRestart := last (w_all w) |}.
End health.

(** ** Theorems: how often the controllers are restarted

    One rollout at a time; an automatic restart has a reason and comes after
    the cooldown; the watchdog gives up after [MAX_ATTEMPTS]; and what looks
    that overlap do to that. *)

(** ** Machines out of sight *)

Section health.
Context (date_parse : string → option Z).
Abbreviation hit := (hit date_parse).
Abbreviation stale_of := (stale_of date_parse).
Abbreviation staleInspections := (staleInspections date_parse).
Abbreviation step := (step date_parse).
Abbreviation runs := (runs date_parse).

Lemma earlier_comparator : Comparator (earlier date_parse).
Proof. apply (comparator_on (since_of date_parse) Z.compare), _. Qed.

(** What is reported of a machine: the condition that has been unknown the longest, of those old enough. *)
Lemma stale_of_some now age m s : stale_of now age m = Some s →
  truthy_opt_str (mo_deletionTimestamp m) = false ∧ mo_phase m ≠ Some "Deleting"
  ∧ mo_cluster m = Some (st_cluster s) ∧ mo_name m = Some (st_machine s)
  ∧ ∃ c t, c ∈ mo_conditions m ∧ hit now age c = true ∧ mc_lastTransitionTime c = Some (st_since s) ∧ date_parse (st_since s) = Some t
      ∧ age ≤ now - t ∧ ∀ c', c' ∈ mo_conditions m → hit now age c' = true → t ≤ since_of date_parse c'.
Proof.
  unfold Watchdog.stale_of. destruct (truthy_opt_str _ || _) eqn:Hout; [done|]. apply orb_false_iff in Hout as [Hd Hp]. bool_prop.
  destruct (negb _ || _) eqn:Hn; [done|]. apply orb_false_iff in Hn as [Hc Hnm]. apply negb_false_iff in Hc, Hnm.
  destruct (js_sort _ _) as [|c rest] eqn:Hs; [done|]. intros [= <-]. cbn [st_cluster st_machine st_since].
  apply js_sort_head_min in Hs as [Hin Hmin]; [|apply earlier_comparator]. apply elem_of_js_filter in Hin as [Hin Hhit].
  split; [done|]. split; [done|]. split; [by destruct (mo_cluster m)|]. split; [by destruct (mo_name m)|].
  pose proof Hhit as Hhit'. unfold Watchdog.hit in Hhit'. apply andb_true_iff in Hhit' as [_ Hage].
  destruct (mc_lastTransitionTime c) as [since|] eqn:Hsince; [|done]. simpl in Hage. destruct (date_parse since) as [t|] eqn:Ht; [|done].
  exists c, t. apply Z.leb_le in Hage. split; [done|]. split; [done|]. split; [done|]. split; [done|]. split; [done|].
  intros c' Hin' Hhit'. specialize (Hmin c' (proj2 (elem_of_js_filter _ _ _) (conj Hin' Hhit'))).
  unfold cmp_le, earlier in Hmin. unfold since_of at 1 in Hmin. rewrite Hsince in Hmin. simpl in Hmin. rewrite Ht in Hmin. simpl in Hmin.
  destruct (Z.compare_spec t (since_of date_parse c')); [lia..|done].
Qed.

(** ** What every step keeps *)

(** When a restart began and whether the watchdog began it. *)
Definition sig (e : Restart) : Z * bool := (re_at e, re_automatic e).
Definition sigs (w : Watch) : list (Z * bool) := sig <$> w_all w.

(** A rollout is under way exactly while the flag is set; it is the latest one. *)
Definition one_rollout (w : Watch) : Prop :=
  (w_restarting w = false ∧ w_rolling w = [] ∨ w_restarting w = true ∧ ∃ i, w_rolling w = [i] ∧ S i = length (w_all w))
  ∧ ∀ i e, w_all w !! i = Some e → (re_ok e = None ↔ i ∈ w_rolling w).

Definition in_order (w : Watch) : Prop :=
  (∀ s, s ∈ sigs w → s.1 ≤ w_now w) ∧ ∀ l s, last (sigs w) = Some l → s ∈ sigs w → s.1 ≤ l.1.

(** A look began once the restarts before it had cooled down; what it probes, it listed since. *)
Definition tick_ok (w : Watch) (tk : Tick) : Prop :=
  tk_at tk ≤ w_now w ∧ (∀ s, s ∈ sigs w → s.1 < tk_at tk → s.1 + COOLDOWN_MS ≤ tk_at tk)
  ∧ match tk_phase tk with
    | Probe stale rest =>
        ∃ ms t, tk_at tk ≤ t ≤ w_now w ∧ stale = staleInspections ms t STALE_AFTER_MS ∧ ∀ c, c ∈ rest → c ∈ st_cluster <$> stale
    | _ => True
    end.
Definition ticks_ok (w : Watch) : Prop := ∀ i tk, w_ticks w !! i = Some tk → tick_ok w tk.

Definition invariant (w : Watch) : Prop := one_rollout w ∧ in_order w ∧ ticks_ok w.

Lemma sigs_rolled_out w i error : sigs (rolled_out w i error) = sigs w.
Proof.
  unfold sigs, rolled_out. cbn [w_all]. generalize (w_all w). revert i. intros i l. revert i.
  induction l as [|e l IH]; intros [|i]; cbn; [done..|]. f_equal. apply IH.
Qed.

Lemma tick_at_ended w i j tk : w_ticks (ended w i) !! j = Some tk → ∃ k, w_ticks w !! k = Some tk.
Proof.
  cbn. intros Hj. destruct (decide (j < i)%nat); [exists j; by rewrite list_lookup_delete_lt in Hj|].
  exists (S j). by rewrite list_lookup_delete_ge in Hj by lia.
Qed.
Lemma ticks_ok_ended w i : ticks_ok w → ticks_ok (ended w i).
Proof. intros Ht j tk Hj. apply tick_at_ended in Hj as [k Hk]. exact (Ht k tk Hk). Qed.
Lemma ticks_ok_moves w i tk p : ticks_ok w → w_ticks w !! i = Some tk → tick_ok w {| tk_at := tk_at tk; tk_phase := p |} → ticks_ok (moves w i tk p).
Proof.
  intros Ht Hi Hp j tk' Hj. cbn in Hj. apply list_lookup_insert_Some in Hj as [(-> & <- & _)|[_ Hj]]; [exact Hp|exact (Ht j tk' Hj)].
Qed.

Lemma sig_snoc (l : list Restart) e : sig <$> (l ++ [e]) = (sig <$> l) ++ [sig e].
Proof. exact (fmap_app sig l [e]). Qed.
Lemma elem_of_sigs_snoc w e s : s ∈ sig <$> (w_all w ++ [e]) ↔ s ∈ sigs w ∨ s = sig e.
Proof. by rewrite sig_snoc, elem_of_app, list_elem_of_singleton. Qed.

Lemma restart_keeps w reason automatic w' e : restartControllers w reason automatic = Some (w', e) → invariant w → invariant w'.
Proof.
  unfold restartControllers. destruct (w_restarting w) eqn:Hr; [done|]. intros [= <- <-] ([Hshape Hset] & [Hnow Hlast] & Ht).
  destruct Hshape as [[_ Hroll]|[Hc _]]; [|congruence]. split; [split|split; [split|]].
  - right. split; [done|]. exists (length (w_all w)). cbn [w_rolling w_all]. rewrite Hroll, length_app. split; [done|cbn; lia].
  - cbn [w_rolling w_all]. rewrite Hroll. cbn [app]. intros i e Hi. rewrite list_elem_of_singleton.
    apply lookup_snoc_Some in Hi as [[Hlt Hi]|[-> <-]]; [|done]. rewrite (Hset i e Hi), Hroll.
    split; [by intros ?%elem_of_nil|lia].
  - intros s [Hs| ->]%elem_of_sigs_snoc; [by apply Hnow|cbn; lia].
  - intros l s Hl Hs. unfold sigs in Hl. cbn [w_all] in Hl. rewrite sig_snoc, last_snoc in Hl. injection Hl as <-.
    apply elem_of_sigs_snoc in Hs as [Hs| ->]; [by apply Hnow|cbn; lia].
  - intros i tk Hi. destruct (Ht i tk Hi) as (Hat & Hcool & Hp). split; [done|]. split; [|done].
    intros s [Hs| ->]%elem_of_sigs_snoc Hlt; [by apply Hcool|]. cbn in Hlt. lia.
Qed.

Lemma later_keeps w t : w_now w ≤ t → invariant w →
  invariant {| w_now := t; w_all := w_all w; w_restarting := w_restarting w; w_rolling := w_rolling w; w_attempts := w_attempts w; w_ticks := w_ticks w |}.
Proof.
  intros Hle (Hone & [Hnow Hlast] & Ht). split; [done|]. split.
  - split; [|done]. intros s Hs. specialize (Hnow s Hs). cbn. lia.
  - intros i tk Hi. destruct (Ht i tk Hi) as (Hat & Hcool & Hp). split; [cbn; lia|]. split; [done|].
    destruct (tk_phase tk); [done..|]. destruct Hp as (ms & u & Hu & Hs). exists ms, u. split; [cbn; lia|done].
Qed.

Lemma rolled_out_keeps w i error : i ∈ w_rolling w → invariant w → invariant (rolled_out w i error).
Proof.
  intros Hi ([Hshape Hset] & [Hnow Hlast] & Ht). destruct Hshape as [[_ Hroll]|[Hr (k & Hroll & Hk)]].
  { rewrite Hroll in Hi. by apply elem_of_nil in Hi. }
  rewrite Hroll in Hi. apply list_elem_of_singleton in Hi as ->. split; [split|split].
  - left. split; [done|]. cbn [w_rolling rolled_out]. rewrite Hroll. cbn. by rewrite Nat.eqb_refl.
  - intros j e Hj. cbn [w_all w_rolling rolled_out] in *. rewrite Hroll. cbn. rewrite Nat.eqb_refl. cbn.
    destruct (decide (j = k)) as [->|Hne].
    + rewrite list_lookup_alter_eq in Hj. apply fmap_Some in Hj as (e0 & _ & ->). cbn [re_ok]. split; [intros Hx; discriminate Hx|intros Hx; by apply elem_of_nil in Hx].
    + rewrite list_lookup_alter_ne in Hj by done. rewrite (Hset j e Hj), Hroll, list_elem_of_singleton.
      split; [done|intros Hx; by apply elem_of_nil in Hx].
  - unfold in_order. by rewrite sigs_rolled_out.
  - intros j tk Hj. destruct (Ht j tk Hj) as (Hat & Hcool & Hp). split; [done|]. split; [|done]. by rewrite sigs_rolled_out.
Qed.

Lemma ended_keeps w i : invariant w → invariant (ended w i).
Proof. intros (Hone & Hord & Ht). split; [done|]. split; [done|]. by apply ticks_ok_ended. Qed.
Lemma attempts_keeps w n : invariant w → invariant (with_attempts w n).
Proof. done. Qed.
Lemma moves_keeps w i tk p : invariant w → w_ticks w !! i = Some tk → tick_ok w {| tk_at := tk_at tk; tk_phase := p |} → invariant (moves w i tk p).
Proof. intros (Hone & Hord & Ht) Hi Hp. split; [done|]. split; [done|]. by apply ticks_ok_moves. Qed.

Lemma last_sigs w : last (sigs w) = sig <$> last (w_all w).
Proof. exact (fmap_last sig (w_all w)). Qed.

Lemma timer_keeps w : invariant w → invariant (tick_begins w).
Proof.
  intros (Hone & [Hnow Hlast] & Ht). unfold tick_begins. destruct (w_restarting w || cooling w) eqn:Hc; [done|].
  apply orb_false_iff in Hc as [_ Hc]. split; [done|]. split; [done|]. intros i tk Hi. cbn in Hi.
  apply lookup_snoc_Some in Hi as [[_ Hi]|[_ <-]]; [exact (Ht i tk Hi)|]. split; [cbn; lia|]. split; [|done].
  intros s Hs _. cbn. unfold cooling in Hc. pose proof (last_sigs w) as Hl. destruct (last (w_all w)) as [e|].
  - specialize (Hlast _ _ Hl Hs). apply Z.ltb_ge in Hc. cbn in Hlast. lia.
  - change (sigs (with_ticks w (w_ticks w ++ [{| tk_at := w_now w; tk_phase := AwaitReady |}]))) with (sigs w) in Hs.
    apply last_None in Hl. rewrite Hl in Hs. by apply elem_of_nil in Hs.
Qed.

Lemma set_of_clusters stale c : c ∈ set_of (st_cluster <$> stale) → c ∈ st_cluster <$> stale.
Proof. apply elem_of_set_of. Qed.

Theorem step_keeps w l w' evs : step w l = Some (w', evs) → invariant w → invariant w'.
Proof.
  intros Hstep Hinv. pose proof Hinv as (_ & _ & Ht). destruct l as [t| |i ready|i ms|i answers|i| |i error]; cbn [Watchdog.step] in Hstep.
  - destruct (w_now w <=? t) eqn:Hle; [|done]. injection Hstep as <- <-. apply later_keeps; [lia|done].
  - injection Hstep as <- <-. by apply timer_keeps.
  - apply bind_Some in Hstep as (tk & Hi & Hstep). destruct (tk_phase tk) eqn:Hp; [|done..]. injection Hstep as <- <-.
    unfold tick_ready. destruct ready; [|by apply ended_keeps]. apply moves_keeps; [done..|]. destruct (Ht i tk Hi) as (H1 & H2 & _). by split.
  - apply bind_Some in Hstep as (tk & Hi & Hstep). destruct (tk_phase tk) eqn:Hp; [done| |done]. injection Hstep as Hstep.
    unfold tick_listed in Hstep. destruct (set_of _) as [|c cs] eqn:Hset; [injection Hstep as <- <-; by apply attempts_keeps, ended_keeps|].
    destruct (MAX_ATTEMPTS <=? w_attempts w)%nat; injection Hstep as <- <-; [by apply ended_keeps|].
    apply moves_keeps; [done..|]. destruct (Ht i tk Hi) as (H1 & H2 & _). split; [done|]. split; [done|].
    exists ms, (w_now w). split; [cbn; lia|]. split; [done|]. intros x Hx. apply set_of_clusters. by rewrite Hset.
  - apply bind_Some in Hstep as (tk & Hi & Hstep). destruct (tk_phase tk) as [| |stale [|c rest]] eqn:Hp; [done..|]. injection Hstep as Hstep.
    unfold tick_answered in Hstep. destruct answers.
    + destruct (restartControllers _ _ _) as [[w1 e]|] eqn:Hre; injection Hstep as <- <-.
      * eapply restart_keeps, attempts_keeps, ended_keeps, Hinv. exact Hre.
      * by apply attempts_keeps, ended_keeps.
    + destruct rest as [|c' rest]; injection Hstep as <- <-; [by apply ended_keeps|]. apply moves_keeps; [done..|].
      destruct (Ht i tk Hi) as (H1 & H2 & H3). rewrite Hp in H3. split; [done|]. split; [done|].
      destruct H3 as (ms & t & Hu & Hs & Hc). exists ms, t. split; [done|]. split; [done|]. intros x Hx. apply Hc. by right.
  - apply bind_Some in Hstep as (tk & Hi & Hstep). injection Hstep as <- <-. by apply ended_keeps.
  - destruct (restartControllers _ _ _) as [[w1 e]|] eqn:Hre; injection Hstep as <- <-; [by eapply restart_keeps|done].
  - destruct (includes (w_rolling w) i) eqn:Hin; [|done]. injection Hstep as <- <-. apply rolled_out_keeps; [by apply includes_spec|done].
Qed.

Lemma runs_invariant allowed now evs w : runs allowed now evs w → invariant w.
Proof.
  induction 1 as [|evs w l w' evs' _ IH _ Hstep]; [|by eapply step_keeps].
  split; [split; [by left|by intros i e ?]|]. split; [split; [by intros s ?%elem_of_nil|done]|]. by intros i tk ?.
Qed.

(** An automatic restart: a look that began once everything restarted before it had cooled down listed a
    machine that Cluster API had been unable to inspect for [STALE_AFTER_MS], and the API server of its
    cluster answered just now, while nothing was restarting. *)
Theorem automatic_has_reason allowed now evs w l w' evs' e :
  runs allowed now evs w → step w l = Some (w', evs') → Restarted e ∈ evs' → re_automatic e = true →
  w_restarting w = false ∧ re_at e = w_now w
  ∧ ∃ i tk stale c rest (ms : list MachineObject) t m s,
      l = Answered i true ∧ w_ticks w !! i = Some tk ∧ tk_phase tk = Probe stale (c :: rest)
      ∧ tk_at tk ≤ t ≤ w_now w ∧ m ∈ ms ∧ stale_of t STALE_AFTER_MS m = Some s ∧ st_cluster s = c
      ∧ ∀ x, x ∈ w_all w → re_at x < tk_at tk → re_at x + COOLDOWN_MS ≤ tk_at tk.
Proof.
  intros Hruns Hstep Hin Hauto. apply runs_invariant in Hruns as (_ & _ & Ht).
  destruct l as [t| |i ready|i ms|i answers|i| |i error]; cbn [Watchdog.step] in Hstep.
  - destruct (w_now w <=? t); [|done]. injection Hstep as _ <-. by apply elem_of_nil in Hin.
  - injection Hstep as _ <-. by apply elem_of_nil in Hin.
  - apply bind_Some in Hstep as (tk & Hi & Hstep). destruct (tk_phase tk); [|done..]. injection Hstep as _ <-. by apply elem_of_nil in Hin.
  - apply bind_Some in Hstep as (tk & Hi & Hstep). destruct (tk_phase tk); [done| |done]. injection Hstep as Hstep.
    unfold tick_listed in Hstep. destruct (set_of _); [|destruct (MAX_ATTEMPTS <=? _)%nat]; injection Hstep as _ <-.
    + by apply list_elem_of_singleton in Hin.
    + by apply elem_of_nil in Hin.
    + by apply elem_of_nil in Hin.
  - apply bind_Some in Hstep as (tk & Hi & Hstep). destruct (tk_phase tk) as [| |stale [|c rest]] eqn:Hp; [done..|]. injection Hstep as Hstep.
    unfold tick_answered in Hstep. destruct answers; [|destruct rest; injection Hstep as _ <-; by apply elem_of_nil in Hin].
    unfold restartControllers in Hstep. cbn [w_restarting with_attempts with_ticks ended] in Hstep.
    destruct (w_restarting w); [injection Hstep as _ <-; by apply elem_of_nil in Hin|]. injection Hstep as _ <-.
    apply list_elem_of_singleton in Hin. injection Hin as ->. split; [done|]. split; [done|].
    destruct (Ht i tk Hi) as (H1 & H2 & H3). rewrite Hp in H3. destruct H3 as (ms & t & Hu & -> & Hc).
    specialize (Hc c (list_elem_of_here _ _)). apply list_elem_of_fmap in Hc as (s & -> & Hs).
    apply list_elem_of_omap in Hs as (m & Hm & Hs). exists i, tk, (staleInspections ms t STALE_AFTER_MS), (st_cluster s), rest, ms, t, m, s.
    repeat (split; [done|]). intros x Hx Hlt. apply (H2 (sig x)); [by apply list_elem_of_fmap_2|done].
  - apply bind_Some in Hstep as (tk & Hi & Hstep). injection Hstep as _ <-. by apply elem_of_nil in Hin.
  - destruct (restartControllers _ _ _) as [[w1 e1]|] eqn:Hre; injection Hstep as _ <-; [|by apply elem_of_nil in Hin].
    apply list_elem_of_singleton in Hin. injection Hin as ->. unfold restartControllers in Hre. destruct (w_restarting w); [done|].
    by injection Hre as _ <-.
  - destruct (includes _ i); [|done]. injection Hstep as _ <-. by apply elem_of_nil in Hin.
Qed.

(** ** Looks one after the other *)

(** Automatic restarts since a look last found nothing. *)
Definition autos (evs : list Happened) : nat :=
  foldl (λ n h, match h with LookedClean => 0%nat | Restarted e => if re_automatic e then S n else n end) 0%nat evs.

(** Automatic restarts are [COOLDOWN_MS] apart. *)
Definition spaced (l : list (Z * bool)) : Prop :=
  ∀ i j a b, (i < j)%nat → l !! i = Some (a, true) → l !! j = Some (b, true) → a + COOLDOWN_MS ≤ b.
Lemma spaced_snoc l a b : spaced l → (b = true → ∀ s, s ∈ l → s.2 = true → s.1 + COOLDOWN_MS ≤ a) → spaced (l ++ [(a, b)]).
Proof.
  intros Hl Hs i j x y Hij Hi Hj. apply lookup_snoc_Some in Hj as [[Hlt Hj]|[-> Hj]].
  - apply lookup_snoc_Some in Hi as [[_ Hi]|[-> _]]; [by apply (Hl i j)|lia].
  - injection Hj as -> ->. apply lookup_snoc_Some in Hi as [[_ Hi]|[-> _]]; [|lia].
    apply (Hs eq_refl (x, true)); [by eapply list_elem_of_lookup_2|done].
Qed.

Definition is_probe (tk : Tick) : bool := match tk_phase tk with Probe _ _ => true | _ => false end.
Definition one_look (evs : list Happened) (w : Watch) : Prop :=
  (w_ticks w = [] ∨ ∃ tk, w_ticks w = [tk] ∧ (∀ s, s ∈ sigs w → s.2 = true → s.1 + COOLDOWN_MS ≤ tk_at tk)
     ∧ (is_probe tk = true → (w_attempts w < MAX_ATTEMPTS)%nat))
  ∧ spaced (sigs w) ∧ (w_attempts w ≤ MAX_ATTEMPTS)%nat ∧ (autos evs ≤ w_attempts w)%nat.

Lemma only_look evs w i tk : one_look evs w → w_ticks w !! i = Some tk →
  i = 0%nat ∧ w_ticks w = [tk] ∧ (∀ s, s ∈ sigs w → s.2 = true → s.1 + COOLDOWN_MS ≤ tk_at tk)
  ∧ (is_probe tk = true → (w_attempts w < MAX_ATTEMPTS)%nat).
Proof.
  intros ([Hnil|(tk' & Hl & Hs & Hp)] & _) Hi; [by rewrite Hnil in Hi|]. rewrite Hl in Hi. destruct i as [|[|i]]; [|done..].
  by injection Hi as ->.
Qed.
Lemma one_look_ended evs w i tk : one_look evs w → w_ticks w !! i = Some tk → one_look evs (ended w i).
Proof. intros Hone Hi. destruct (only_look _ _ _ _ Hone Hi) as (-> & Hl & _). destruct Hone as [_ H]. split; [|done]. left. cbn. by rewrite Hl. Qed.
Lemma one_look_moves evs w i tk p : one_look evs w → w_ticks w !! i = Some tk →
  (match p with Probe _ _ => (w_attempts w < MAX_ATTEMPTS)%nat | _ => True end) → one_look evs (moves w i tk p).
Proof.
  intros Hone Hi Hp. destruct (only_look _ _ _ _ Hone Hi) as (-> & Hl & Hs & _). destruct Hone as [_ H]. split; [|done]. right.
  exists {| tk_at := tk_at tk; tk_phase := p |}. split; [cbn; by rewrite Hl|]. split; [done|]. intros Hpr. by destruct p.
Qed.

Lemma serial_step evs w l w' evs' : invariant w → one_look evs w → serial w l → step w l = Some (w', evs') → one_look (evs ++ evs') w'.
Proof.
  intros Hinv Hone Hser Hstep. pose proof Hone as (Hticks & Hsp & Hmax & Hau). destruct l as [t| |i ready|i ms|i answers|i| |i error]; cbn [Watchdog.step] in Hstep.
  - destruct (w_now w <=? t); [|done]. injection Hstep as <- <-. by rewrite app_nil_r.
  - injection Hstep as <- <-. rewrite app_nil_r. unfold tick_begins. destruct (w_restarting w || cooling w) eqn:Hc; [done|].
    apply orb_false_iff in Hc as [_ Hc]. split; [|done]. right. cbn. rewrite (Hser eq_refl). eexists. split; [done|]. split; [|done].
    intros s Hs _. cbn. destruct Hinv as (_ & [_ Hlast] & _). unfold cooling in Hc. pose proof (last_sigs w) as Hl.
    destruct (last (w_all w)) as [e|]; [specialize (Hlast _ _ Hl Hs); apply Z.ltb_ge in Hc; cbn in Hlast; lia|].
    apply last_None in Hl. change (s ∈ sigs w) in Hs. rewrite Hl in Hs. by apply elem_of_nil in Hs.
  - apply bind_Some in Hstep as (tk & Hi & Hstep). destruct (tk_phase tk); [|done..]. injection Hstep as <- <-. rewrite app_nil_r.
    unfold tick_ready. destruct ready; [by apply one_look_moves|by eapply one_look_ended].
  - apply bind_Some in Hstep as (tk & Hi & Hstep). destruct (tk_phase tk); [done| |done]. injection Hstep as Hstep.
    unfold tick_listed in Hstep. destruct (set_of _).
    + injection Hstep as <- <-. destruct (only_look _ _ _ _ Hone Hi) as (-> & Hl & _). split; [left; cbn; by rewrite Hl|].
      split; [done|]. unfold autos. rewrite foldl_app. cbn. lia.
    + destruct (MAX_ATTEMPTS <=? w_attempts w)%nat eqn:Hm; injection Hstep as <- <-; rewrite app_nil_r; [by eapply one_look_ended|].
      apply one_look_moves; [done..|]. by apply Nat.leb_gt.
  - apply bind_Some in Hstep as (tk & Hi & Hstep). destruct (tk_phase tk) as [| |stale [|c rest]] eqn:Hp; [done..|]. injection Hstep as Hstep.
    destruct (only_look _ _ _ _ Hone Hi) as (-> & Hl & Hs & Hlt). specialize (Hlt ltac:(unfold is_probe; by rewrite Hp)).
    unfold tick_answered in Hstep. destruct answers.
    + unfold restartControllers in Hstep. cbn [w_restarting with_attempts with_ticks ended] in Hstep.
      assert (w_ticks (ended w 0) = []) as Hnil by (cbn; by rewrite Hl).
      destruct (w_restarting w); injection Hstep as <- <-.
      * rewrite app_nil_r. split; [by left|]. split; [done|]. cbn. lia.
      * split; [by left|]. split; [|split; [cbn; lia|unfold autos in *; rewrite foldl_app; cbn; lia]].
        unfold sigs. cbn [w_all]. rewrite sig_snoc. apply spaced_snoc; [done|]. intros _ s Hin Hau'. specialize (Hs s Hin Hau').
        destruct Hinv as (_ & _ & Ht). pose proof (proj1 (Ht 0%nat tk Hi)). cbn. lia.
    + destruct rest; injection Hstep as <- <-; rewrite app_nil_r; [by eapply one_look_ended|by apply one_look_moves].
  - apply bind_Some in Hstep as (tk & Hi & Hstep). injection Hstep as <- <-. rewrite app_nil_r. by eapply one_look_ended.
  - destruct (restartControllers _ _ _) as [[w1 e1]|] eqn:Hre; injection Hstep as <- <-; [|by rewrite app_nil_r].
    unfold restartControllers in Hre. destruct (w_restarting w); [done|]. injection Hre as <- <-. split; [|split; [|split; [done|]]].
    + destruct Hticks as [Ht|(tk & Ht & Hs & Hpr)]; [by left|]. right. exists tk. split; [done|]. split; [|done].
      intros s [Hin| ->]%elem_of_sigs_snoc; [by apply Hs|done].
    + unfold sigs. cbn [w_all]. rewrite sig_snoc. by apply spaced_snoc.
    + unfold autos. rewrite foldl_app. exact Hau.
  - destruct (includes _ i); [|done]. injection Hstep as <- <-. rewrite app_nil_r. unfold one_look. rewrite sigs_rolled_out. done.
Qed.

(** C38: when looks do not overlap, automatic restarts are [COOLDOWN_MS] apart, and no more than [MAX_ATTEMPTS] of
    them happen until a look finds every machine in sight. *)
Theorem watchdog_gives_up now evs w :
  runs serial now evs w → (autos evs ≤ MAX_ATTEMPTS)%nat ∧ spaced (sigs w).
Proof.
  intros Hruns. assert (one_look evs w) as (_ & Hs & Hm & Ha); [|split; [lia|done]].
  induction Hruns as [|evs w l w' evs' Hr IH Hser Hstep]; [|eapply serial_step; [by eapply runs_invariant|done..]].
  split; [by left|]. split; [by intros i j a b _ ?|]. cbn. lia.
Qed.

(** At most one rollout is under way at any time, and only it has not told its outcome. *)
Theorem rollouts_exclude allowed now evs w i j e :
  runs allowed now evs w → (i ∈ w_rolling w → j ∈ w_rolling w → i = j)
  ∧ (w_all w !! i = Some e → (re_ok e = None ↔ w_restarting w = true ∧ S i = length (w_all w))).
Proof.
  intros Hruns. destruct (runs_invariant _ _ _ _ Hruns) as ([Hshape Hset] & _). destruct Hshape as [[Hr Hroll]|[Hr (k & Hroll & Hk)]].
  - split; [intros Hi; rewrite Hroll in Hi; by apply elem_of_nil in Hi|]. intros Hi. rewrite (Hset i e Hi), Hroll, Hr.
    split; [intros Hx; by apply elem_of_nil in Hx|by intros []].
  - split; [rewrite Hroll, !list_elem_of_singleton; by intros -> ->|]. intros Hi. rewrite (Hset i e Hi), Hroll, Hr, list_elem_of_singleton.
    split; [by intros ->|]. intros [_ Hlen]. lia.
Qed.

(** ** A look that nothing disturbs *)

Lemma exec_probes w tk stale pre c post :
  w_ticks w = [tk] → tk_phase tk = Probe stale (pre ++ c :: post) → w_restarting w = false →
  ∃ w' e, exec date_parse w (replicate (length pre) (Answered 0 false) ++ [Answered 0 true]) = Some (w', [Restarted e])
    ∧ re_automatic e = true ∧ re_at e = w_now w ∧ re_reason e = stuck_reason date_parse (w_now w) stale c
    ∧ w_restarting w' = true ∧ w_attempts w' = S (w_attempts w) ∧ w_ticks w' = [] ∧ last (w_all w') = Some e.
Proof.
  revert w tk. induction pre as [|d pre IH]; intros w tk Ht Hp Hr.
  - cbn [length replicate app exec Watchdog.step]. rewrite Ht. cbn [lookup list_lookup mbind option_bind]. rewrite Hp. cbn [app].
    unfold tick_answered, restartControllers. cbn [w_restarting with_attempts with_ticks ended]. rewrite Hr. do 2 eexists. split; [done|].
    cbn. rewrite Ht. do 6 (split; [done|]). by rewrite last_snoc.
  - cbn [length replicate app exec Watchdog.step]. rewrite Ht. cbn [lookup list_lookup mbind option_bind]. rewrite Hp. cbn [app].
    unfold tick_answered. destruct (pre ++ c :: post) as [|x rest] eqn:Hrest; [by destruct pre|]. cbn [fst snd].
    destruct (IH (moves w 0 tk (Probe stale (x :: rest))) {| tk_at := tk_at tk; tk_phase := Probe stale (x :: rest) |}) as (w' & e & He & H').
    + cbn. by rewrite Ht.
    + done.
    + done.
    + exists w', e. split; [|exact H']. cbn [mbind option_bind fst snd]. by rewrite He.
Qed.

(** The watchdog restarts the controllers when it should: a look that nothing disturbs, on a cluster out of
    sight whose API server is the first to answer, ends with a rollout under way, told with its reason. *)
Theorem look_restarts w ms pre c post :
  w_ticks w = [] → w_restarting w = false → cooling w = false → (w_attempts w < MAX_ATTEMPTS)%nat →
  set_of (st_cluster <$> staleInspections ms (w_now w) STALE_AFTER_MS) = pre ++ c :: post →
  ∃ w' e, exec date_parse w (Timer :: ReadyIs 0 true :: Listed 0 ms :: replicate (length pre) (Answered 0 false) ++ [Answered 0 true])
            = Some (w', [Restarted e])
    ∧ re_automatic e = true ∧ re_at e = w_now w ∧ re_reason e = stuck_reason date_parse (w_now w) (staleInspections ms (w_now w) STALE_AFTER_MS) c
    ∧ w_restarting w' = true ∧ w_attempts w' = S (w_attempts w) ∧ w_ticks w' = [] ∧ last (w_all w') = Some e.
Proof.
  intros Ht Hr Hc Ha Hset. cbn [exec Watchdog.step]. unfold tick_begins. rewrite Hr, Hc. cbn [orb fst snd mbind option_bind].
  cbn [w_ticks with_ticks]. rewrite Ht. cbn [app lookup list_lookup mbind option_bind tk_phase fst snd tick_ready].
  cbn [w_ticks moves with_ticks insert list_insert lookup list_lookup mbind option_bind tk_phase]. unfold tick_listed. cbn [w_now moves with_ticks].
  rewrite Hset. destruct (pre ++ c :: post) as [|x rest] eqn:Hrest; [by destruct pre|].
  cbn [w_attempts moves with_ticks fst snd]. rewrite (proj2 (Nat.leb_gt _ _) Ha). cbn [fst snd].
  set (w0 := moves _ _ _ _). destruct (exec_probes w0 {| tk_at := w_now w; tk_phase := Probe (staleInspections ms (w_now w) STALE_AFTER_MS) (x :: rest) |}
    (staleInspections ms (w_now w) STALE_AFTER_MS) pre c post) as (w' & e & He & H'); [done|by rewrite Hrest|done|].
  exists w', e. rewrite He. split; [done|]. exact H'.
Qed.
End health.

(** ** Examples *)

(** Times are written in milliseconds. *)
Definition demo_parse (s : string) : option Z := if all_digits s then Some (digits_val s) else None.
Definition demo_condition (reason since : string) : MachineCondition :=
  {| mc_type := Some "APIServerPodHealthy"; mc_status := Some "Unknown"; mc_reason := Some reason;
     mc_message := Some "Node c1-n is Unreachable"; mc_lastTransitionTime := Some since |}.
Definition demo_machine (cluster : string) (l : list MachineCondition) : MachineObject :=
  {| mo_name := Some (cluster +++ "-n"); mo_cluster := Some cluster; mo_deletionTimestamp := None; mo_phase := Some "Running"; mo_conditions := l |}.
Definition demo_machines : list MachineObject :=
  [demo_machine "c0" [demo_condition "InspectionFailed" "0"];
   demo_machine "c1" [demo_condition "Other" "0"; demo_condition "InspectionFailed" "1000"; demo_condition "InspectionFailed" "500"]].

Example demo_stale :
  st_since <$> staleInspections demo_parse demo_machines 300600 STALE_AFTER_MS = ["0"; "500"]
  ∧ st_since <$> staleInspections demo_parse demo_machines 300100 STALE_AFTER_MS = ["0"].
Proof. vm_compute. done. Qed.

Definition demo_now : Z := 1200000.
(** A look during which the first cluster does not answer and the second does. *)
Definition demo_look : list Label := [Timer; ReadyIs 0 true; Listed 0 demo_machines; Answered 0 false; Answered 0 true].
(** What was told, and the state. *)
Definition demo_run (ls : list Label) : option (list (Z * bool) * nat) :=
  (λ r, (sigs r.1, w_attempts r.1)) <$> exec demo_parse (started demo_now) ls.

Example demo_watchdog :
  demo_run demo_look = Some ([(demo_now, true)], 1%nat)
  ∧ demo_run (demo_look ++ [Requested; RolledOut 0 None; Timer; Requested]) = Some ([(demo_now, true); (demo_now, false)], 1%nat).
Proof. vm_compute. done. Qed.

Lemma look_restarts_witness :
  ∃ w' e, exec demo_parse (started demo_now) demo_look = Some (w', [Restarted e])
    ∧ re_automatic e = true ∧ re_at e = demo_now
    ∧ re_reason e = stuck_reason demo_parse demo_now (staleInspections demo_parse demo_machines demo_now STALE_AFTER_MS) "c1"
    ∧ w_restarting w' = true ∧ w_attempts w' = 1%nat ∧ w_ticks w' = [] ∧ last (w_all w') = Some e.
Proof. apply (look_restarts demo_parse (started demo_now) demo_machines ["c0"] "c1" []); vm_compute; first [reflexivity|lia]. Defined.

(** Runs of an executable list of steps. *)
Lemma exec_runs date_parse (allowed : Watch → Label → Prop) now evs w ls r :
  runs date_parse allowed now evs w → exec date_parse w ls = Some r →
  (∀ pre l post w1, ls = pre ++ l :: post → fst <$> exec date_parse w pre = Some w1 → allowed w1 l) → runs date_parse allowed now (evs ++ r.2) r.1.
Proof.
  revert evs w r. induction ls as [|l ls IH]; intros evs w r Hr He Hall.
  { injection He as <-. by rewrite app_nil_r. }
  cbn [exec] in He. apply bind_Some in He as ([w1 e1] & Hs & He). apply bind_Some in He as ([w2 e2] & Hr2 & He). injection He as <-. cbn [fst snd] in *.
  rewrite (assoc_L (++)). apply (IH (evs ++ e1) w1 (w2, e2)); [|done|].
  - eapply runs_step; [done| |done]. by apply (Hall [] l ls).
  - intros pre l' post w' Hls Hpre. apply (Hall (l :: pre) l' post); [by rewrite Hls|]. cbn [exec]. rewrite Hs. cbn [mbind option_bind fst].
    destruct (exec date_parse w1 pre) as [[w3 e3]|]; [|done]. cbn in Hpre |- *. done.
Qed.

Lemma watchdog_gives_up_witness :
  ∃ evs w, runs demo_parse serial demo_now evs w ∧ (autos evs = 1)%nat ∧ (autos evs ≤ MAX_ATTEMPTS)%nat ∧ spaced (sigs w).
Proof.
  destruct (exec demo_parse (started demo_now) demo_look) as [r|] eqn:Hr; [|vm_compute in Hr; discriminate Hr].
  assert (runs demo_parse serial demo_now ([] ++ r.2) r.1) as Hruns.
  { eapply exec_runs; [apply runs_start|exact Hr|]. intros pre l post w1 Hls Hpre Hl. subst l.
    destruct pre as [|l0 pre]; [injection Hpre as <-; reflexivity|]. exfalso. unfold demo_look in Hls. injection Hls as _ Hls.
    assert (Timer ∈ pre ++ Timer :: post) as Hin by (apply elem_of_app; right; by left). rewrite <-Hls in Hin.
    repeat (apply elem_of_cons in Hin as [Hin|Hin]; [discriminate Hin|]). by apply elem_of_nil in Hin. }
  exists r.2, r.1. split; [exact Hruns|]. split; [vm_compute in Hr; injection Hr as <-; reflexivity|].
  exact (watchdog_gives_up demo_parse demo_now _ _ Hruns).
Defined.

(** Looks that overlap, because the commands of the first take longer than the timer: the second restart comes
    a second after the rollout of the first, and not the cooldown after it. *)
Theorem overlapping_looks_restart_twice :
  demo_run [Timer; ReadyIs 0 true; Listed 0 demo_machines; Later (demo_now + 60000); Timer; ReadyIs 1 true; Listed 1 demo_machines;
            Answered 0 true; Later (demo_now + 90000); RolledOut 0 None; Later (demo_now + 91000); Answered 0 true]
  = Some ([(demo_now + 60000, true); (demo_now + 91000, true)], 2%nat).
Proof. vm_compute. done. Qed.

(** A restart asked for while a look is under way counts as an attempt of the watchdog, which starts nothing. *)
Theorem attempt_without_restart :
  demo_run [Timer; ReadyIs 0 true; Listed 0 demo_machines; Requested; Answered 0 true] = Some ([(demo_now, false)], 1%nat).
Proof. vm_compute. done. Qed.
