(* ===== verification/Activity.v ===== *)
(** * Activity: what happened to a cluster, from events and logs

    Models [k8s:lib/activity.ts] and the reading of activity in
    [k8s:lib/capi.ts]: the lines of the controllers' logs, the year that their
    dates leave out, events, and the timeline they are merged into. Instants
    are milliseconds; [JSON.parse] of a string and [Date.parse] are parameters. *)

From S2P Require Import Prelude JsString Digits Effects.
Open Scope Z_scope.

(** ** Dates, as [Date.UTC] and [toISOString] have them *)

Definition day_ms : Z := 86400000.
(** Days from 1970 to the first of January of a year. *)
Definition day_of_year (y : Z) : Z := 365 * (y - 1970) + (y - 1969) / 4 - (y - 1901) / 100 + (y - 1601) / 400.
Definition leap (y : Z) : bool := day_of_year (y + 1) - day_of_year y =? 366.
Definition before_month (lp : bool) (m : Z) : Z :=
  (if m <=? 0 then 0 else if m =? 1 then 31 else if m =? 2 then 59 else if m =? 3 then 90 else if m =? 4 then 120 else if m =? 5 then 151
   else if m =? 6 then 181 else if m =? 7 then 212 else if m =? 8 then 243 else if m =? 9 then 273 else if m =? 10 then 304 else 334)
  + (if (2 <=? m) && lp then 1 else 0).

(** The month counts from 0; months and days beyond their range run over. *)
Definition Date_UTC (year month day h mi s ms : Z) : Z :=
  let y := year + month / 12 in
  let days := day_of_year y + before_month (leap y) (month mod 12) + day - 1 in
  days * day_ms + h * 3600000 + mi * 60000 + s * 1000 + ms.

Definition year_of (t : Z) : Z :=
  let d := t / day_ms in
  let y := 1970 + d * 400 / 146097 in
  if d <? day_of_year y then y - 1 else if day_of_year (y + 1) <=? d then y + 1 else y.

Definition months : list Z := [11; 10; 9; 8; 7; 6; 5; 4; 3; 2; 1; 0].
Definition month_of (t : Z) : Z :=
  let y := year_of t in
  let d := t / day_ms - day_of_year y in
  default 0 (js_find (λ m, before_month (leap y) m <=? d) months).
Definition pad_start (n : nat) (s : string) : string := String.concat EmptyString (replicate (n - String.length s) "0") +++ s.
Definition digits (n : nat) (z : Z) : string := pad_start n (show_Z z).
(** Of the years 0 to 9999. *)
Definition toISOString (t : Z) : string :=
  let y := year_of t in
  let m := month_of t in
  let d := t / day_ms - day_of_year y - before_month (leap y) m + 1 in
  let r := t mod day_ms in
  digits 4 y +++ "-" +++ digits 2 (m + 1) +++ "-" +++ digits 2 d +++ "T" +++ digits 2 (r / 3600000) +++ ":" +++ digits 2 (r / 60000 mod 60)
  +++ ":" +++ digits 2 (r / 1000 mod 60) +++ "." +++ digits 3 (r mod 1000) +++ "Z".

(** ** Lines of a log *)

Inductive ActivityLevel := info | warning | error.
Global Instance ActivityLevel_eq_dec : EqDecision ActivityLevel.
Proof. solve_decision. Defined.

Record KlogLine := { kl_level : ActivityLevel; kl_time : Z; kl_message : string; kl_fields : js_map string string }.

Section klog.
Context (json_string : string → option string).  (** [JSON.parse] of a text that begins with a quote *)

Definition is_quote (c : Ascii.ascii) : bool := bool_decide (c = "034"%char).
Definition is_backslash (c : Ascii.ascii) : bool := bool_decide (c = "092"%char).
Definition quoted_first (s : string) : bool := match s with String c _ => is_quote c | EmptyString => false end.

Definition unquote (value : string) : string :=
  if quoted_first value then
    match json_string value with
    | Some s => s
    | None => str_take (String.length value - 2) (str_drop 1 value)
    end
  else value.

(** [hms]: hours, minutes, seconds; [micros]: the digits after the point. *)
Definition klogTime (month day h m s : Z) (micros : string) (now : Z) : Z :=
  let ms := digits_val (let d := str_take 3 micros in d +++ String.concat EmptyString (replicate (3 - String.length d) "0")) in
  let at_ year := Date_UTC year (month - 1) day h m s ms in
  let guess := at_ (year_of now) in
  if day_ms <? guess - now then at_ (year_of now - 1) else guess.

(** The quoted message at the head of [s], from its second character, and what follows it. *)
Fixpoint to_quote (escaped : bool) (s : string) : string * string :=
  match s with
  | EmptyString => (EmptyString, EmptyString)
  | String c r =>
      if escaped then let '(a, b) := to_quote false r in (String c a, b)
      else if is_quote c then (String c EmptyString, r)
      else let '(a, b) := to_quote (is_backslash c) r in (String c a, b)
  end.

Definition is_letter (c : Ascii.ascii) : bool := is_upper c || is_lower c.
Definition is_key_char (c : Ascii.ascii) : bool := is_alnum c || char_is c "_" || char_is c ".".
Definition is_newline (c : Ascii.ascii) : bool := bool_decide (c = "010"%char) || bool_decide (c = "013"%char).

(** The text up to the closing quote, which escaped ones are not, and what follows. *)
Fixpoint quoted_value (s : string) : option (string * string) :=
  match s with
  | EmptyString => None
  | String c r =>
      if is_quote c then Some (String c EmptyString, r)
      else if is_backslash c then
        match r with
        | String d r' => if is_newline d then None else (λ ab, (String c (String d ab.1), ab.2)) <$> quoted_value r'
        | EmptyString => None
        end
      else (λ ab, (String c ab.1, ab.2)) <$> quoted_value r
  end.
Definition not_space (c : Ascii.ascii) : bool := negb (is_js_space c).
Definition plain_value (s : string) : option (string * string) :=
  match s with
  | String c _ => if is_js_space c || char_is c "{" then None else Some (span not_space s)
  | EmptyString => None
  end.
Definition value_at (s : string) : option (string * string) :=
  match s with
  | String c r =>
      match (if is_quote c then (λ ab, (String c ab.1, ab.2)) <$> quoted_value r else None) with
      | Some v => Some v
      | None => plain_value s
      end
  | EmptyString => None
  end.
(** A field at the head of [s], and how long it is. *)
Definition field_at (s : string) : option (string * string * nat) :=
  match s with
  | String c _ =>
      if is_letter c then
        let '(key, r) := span is_key_char s in
        match r with
        | String e r => if char_is e "=" then (λ v, (key, v.1, String.length key + 1 + String.length v.1)%nat) <$> value_at r else None
        | EmptyString => None
        end
      else None
  | EmptyString => None
  end.
(** [tail.matchAll(FIELD)]; [skip] characters belong to the field before. *)
Fixpoint fields_from (skip : nat) (s : string) : list (string * string) :=
  match s with
  | EmptyString => []
  | String _ r =>
      match skip with
      | S k => fields_from k r
      | O => match field_at s with Some (key, value, n) => (key, value) :: fields_from (n - 1) r | None => fields_from 0 r end
      end
  end.

Definition level_of (c : Ascii.ascii) : option ActivityLevel :=
  if char_is c "I" then Some info else if char_is c "W" then Some warning else if char_is c "E" || char_is c "F" then Some error else None.
(** [n] digits at the head. *)
Definition take_digits (n : nat) (s : string) : option (Z * string) :=
  let d := str_take n s in
  if (String.length d =? n)%nat && str_forall is_digit d then Some (digits_val d, str_drop n s) else None.
Definition take_char (c : Ascii.ascii) (s : string) : option string := match s with String d r => if char_is c d then Some r else None | _ => None end.
Definition take_some (p : Ascii.ascii → bool) (s : string) : option (string * string) :=
  let '(a, r) := span p s in if truthy_str a then Some (a, r) else None.

(** What [KLOG_LINE] matches: the level, month, day, hour, minute, second, the digits after the point, the rest. *)
Definition klog_line (line : string) : option (ActivityLevel * (Z * Z) * (Z * Z * Z) * string * string) :=
  match line with
  | String c r =>
      level ← level_of c;
      '(mo, r) ← take_digits 2 r; '(dd, r) ← take_digits 2 r; r ← take_char " " r;
      '(hh, r) ← take_digits 2 r; r ← take_char ":" r; '(mi, r) ← take_digits 2 r; r ← take_char ":" r; '(ss, r) ← take_digits 2 r; r ← take_char "." r;
      '(micros, r) ← take_some is_digit r; '(_, r) ← take_some is_js_space r; '(_, r) ← take_some is_digit r; '(_, r) ← take_some is_js_space r;
      let '(_, r) := span (λ c, negb (char_is c "]")) r in
      r ← take_char "]" r; '(_, r) ← take_some is_js_space r;
      if str_forall (λ c, negb (is_newline c)) r then Some (level, (mo, dd), (hh, mi, ss), micros, r) else None
  | EmptyString => None
  end.

Definition parseKlogLine (line : string) (now : Z) : option KlogLine :=
  m ← klog_line line;
  let '(level, (mo, dd), (hh, mi, ss), micros, rest) := m in
  let '(message, tail) :=
    match rest with
    | String c r => if is_quote c then let '(a, b) := to_quote false r in (unquote (String c a), b) else (rest, EmptyString)
    | EmptyString => (rest, EmptyString)
    end in
  Some {| kl_level := level; kl_time := klogTime mo dd hh mi ss micros now; kl_message := message;
          kl_fields := foldl (λ m kv, map_set m kv.1 (unquote kv.2)) [] (fields_from 0 tail) |}.
End klog.

(** ** Entries *)

Record ActivityEntry := {
  ac_time : string; ac_lastTime : option string; ac_level : ActivityLevel; ac_source : string; ac_object : option string;
  ac_message : string; ac_count : Z;
}.

Definition NOISE (message : string) : bool :=
  bool_decide (message = "Reconcile KubeadmControlPlane") || bool_decide (message = "Instance already exists")
  || bool_decide (message = "Instance is already running") || starts_with "Adding watch on external object" message
  || starts_with "Could not connect to workload cluster to fetch deprecated v1beta1 status" message || starts_with "metadata.finalizers: " message.

Definition shortName (ref : string) : string := match index_of "/" ref with Some i => str_drop (S i) ref | None => ref end.

Fixpoint first_kind (fields : js_map string string) (kinds : list string) : option string :=
  match kinds with
  | [] => None
  | k :: kinds => if truthy_opt_str (map_get fields k) then Some (k +++ "/" +++ shortName (default EmptyString (map_get fields k))) else first_kind fields kinds
  end.
Definition lineObject (fields : js_map string string) : option string :=
  match map_get fields "controllerKind" with
  | Some kind =>
      if truthy_str kind && truthy_opt_str (map_get fields kind) then Some (kind +++ "/" +++ shortName (default EmptyString (map_get fields kind)))
      else first_kind fields ["Machine"; "LXCMachine"; "KubeadmControlPlane"; "MachineDeployment"]
  | None => first_kind fields ["Machine"; "LXCMachine"; "KubeadmControlPlane"; "MachineDeployment"]
  end.

Section entries.
Context (json_string : string → option string) (date_parse : string → option Z).

Definition line_entry (source clusterRef : string) (since now : Z) (line : string) : option ActivityEntry :=
  if negb (str_contains ("Cluster=" +++ quoted clusterRef) line) then None
  else
    parsed ← parseKlogLine json_string line now;
    if negb (bool_decide (map_get (kl_fields parsed) "Cluster" = Some clusterRef)) then None
    else if kl_time parsed <? since then None
    else if bool_decide (kl_level parsed = info) && NOISE (kl_message parsed) then None
    else
      let err := match map_get (kl_fields parsed) "err" with Some e => Some e | None => map_get (kl_fields parsed) "error" end in
      Some {| ac_time := toISOString (kl_time parsed); ac_lastTime := None; ac_level := kl_level parsed; ac_source := source;
              ac_object := lineObject (kl_fields parsed);
              ac_message := if truthy_opt_str err then kl_message parsed +++ ": " +++ default EmptyString err else kl_message parsed; ac_count := 1 |}.
Definition logActivity (lines : list string) (source clusterRef : string) (since now : Z) : list ActivityEntry :=
  omap (line_entry source clusterRef since now) lines.

Record K8sEvent := {
  ke_type : option string; ke_reason : option string; ke_message : option string; ke_count : option Z;
  ke_seriesCount : option Z; ke_lastObservedTime : option string; ke_kind : option string; ke_name : option string;
  ke_firstTimestamp : option string; ke_lastTimestamp : option string; ke_eventTime : option string; ke_creationTimestamp : option string;
}.

(** [a ?? b] *)
Definition or_else {A} (a b : option A) : option A := match a with Some _ => a | None => b end.

Definition event_entry (names : list string) (since : Z) (e : K8sEvent) : option ActivityEntry :=
  let name := default EmptyString (ke_name e) in
  if negb (truthy_str name) || negb (includes names name) then None
  else
    let stamp := or_else (ke_lastObservedTime e) (or_else (ke_lastTimestamp e) (or_else (ke_eventTime e) (or_else (ke_firstTimestamp e) (ke_creationTimestamp e)))) in
    if negb (truthy_opt_str stamp) then None
    else
      time ← stamp ≫= date_parse;
      if time <? since then None
      else
        Some {| ac_time := toISOString time; ac_lastTime := None;
                ac_level := if bool_decide (ke_type e = Some "Warning") then warning else info; ac_source := "event";
                ac_object := Some (default "Object" (ke_kind e) +++ "/" +++ name);
                ac_message := join ": " (js_filter truthy_str (option_list (ke_reason e) ++ option_list (ke_message e)));
                ac_count := default 1 (or_else (ke_seriesCount e) (ke_count e)) |}.
Definition eventActivity (events : list K8sEvent) (names : list string) (since : Z) : list ActivityEntry :=
  omap (event_entry names since) events.
End entries.

(** ** The timeline *)

Definition level_text (l : ActivityLevel) : string := match l with info => "info" | warning => "warning" | error => "error" end.
Definition separator : string := String "000" EmptyString.
Definition activity_key (e : ActivityEntry) : string :=
  join separator [ac_source e; default EmptyString (ac_object e); level_text (ac_level e); ac_message e].

Definition is_event (e : ActivityEntry) : bool := bool_decide (ac_source e = "event").
Definition oldest_first `{!Locale} (a b : ActivityEntry) : comparison := locale_compare (ac_time a) (ac_time b).

(** Another occurrence, folded into the first. *)
Definition fold_in (entry first : ActivityEntry) : ActivityEntry :=
  {| ac_time := ac_time first; ac_lastTime := Some (ac_time entry); ac_level := ac_level first; ac_source := ac_source first;
     ac_object := ac_object first; ac_message := ac_message first; ac_count := ac_count first + ac_count entry |}.

(** [out], and [seen] with the place of its entries in [out], which both hold the same object. *)
Record Merging := { mg_out : list ActivityEntry; mg_seen : js_map string nat }.
Definition merge_one (s : Merging) (entry : ActivityEntry) : Merging :=
  if is_event entry then {| mg_out := mg_out s ++ [entry]; mg_seen := mg_seen s |}
  else
    match map_get (mg_seen s) (activity_key entry) with
    | Some i => {| mg_out := alter (fold_in entry) i (mg_out s); mg_seen := mg_seen s |}
    | None => {| mg_out := mg_out s ++ [entry]; mg_seen := map_set (mg_seen s) (activity_key entry) (length (mg_out s)) |}
    end.
Definition merge_all (sorted : list ActivityEntry) : list ActivityEntry := mg_out (foldl merge_one {| mg_out := []; mg_seen := [] |} sorted).

(** [l.slice(-n)]; the whole list when [n] is 0. *)
Definition slice_last {A} (n : nat) (l : list A) : list A := match n with O => l | _ => drop (length l - n) l end.

Definition mergeActivity `{!Locale} (sets : list (list ActivityEntry)) (limit : nat) : list ActivityEntry :=
  slice_last limit (merge_all (js_sort oldest_first (mjoin sets))).

(** ** Reading it ([getClusterActivity]) *)

Definition ACTIVITY_TTL_MS : Z := 3000.
Definition WORKLOAD_NAMESPACE : string := "default".
Record Cached := { ca_at : Z; ca_entries : list ActivityEntry }.
Abbreviation Cache := (js_map string Cached).
Definition cache_key (name : string) (since : Z) : string := name +++ "@" +++ toISOString since.

(** The names of the cluster's objects: lines of [kind/name]. *)
Definition object_names (name : string) (stdout : option string) : list string :=
  set_of (name :: match stdout with
                  | Some out => omap (λ line, match index_of "/" line with Some (S i) => Some (trim (str_drop (S (S i)) line)) | _ => None end) (split_on "010" out)
                  | None => []
                  end).

(** What the commands printed; [None] where one failed. *)
Record Printed := { pr_objects : option string; pr_events : option (list K8sEvent); pr_logs : list (string * option string) }.

Definition read_activity `{!Locale} (json_string : string → option string) (date_parse : string → option Z) (p : Printed) (name : string) (since now : Z)
    : list ActivityEntry :=
  let names := object_names name (pr_objects p) in
  let ref := WORKLOAD_NAMESPACE +++ "/" +++ name in
  mergeActivity
    (match pr_events p with Some evs => [eventActivity date_parse evs names since] | None => [] end
     ++ omap (λ l, (λ out, logActivity json_string (split_on "010" out) l.1 ref since now) <$> l.2) (pr_logs p)) 500.

(** What was read a moment ago. *)
Definition cached (cache : Cache) (name : string) (since limit now : Z) : option (list ActivityEntry) :=
  match map_get cache (cache_key name since) with
  | Some c => if now - ca_at c <? ACTIVITY_TTL_MS then Some (slice_last (Z.to_nat limit) (ca_entries c)) else None
  | None => None
  end.
Definition remember (cache : Cache) (name : string) (since now : Z) (entries : list ActivityEntry) : Cache :=
  js_filter (λ kv, negb (60000 <? now - ca_at kv.2)) (map_set cache (cache_key name since) {| ca_at := now; ca_entries := entries |}).
Definition getClusterActivity `{!Locale} (json_string : string → option string) (date_parse : string → option Z) (cache : Cache) (p : Printed)
    (name : string) (since limit now : Z) : Cache * list ActivityEntry :=
  match cached cache name since limit now with
  | Some entries => (cache, entries)
  | None =>
      let entries := read_activity json_string date_parse p name since now in
      (remember cache name since now entries, slice_last (Z.to_nat limit) entries)
  end.

(** ** Theorems: the timeline loses nothing, and the year is found again

    The merged timeline is the one a plain definition gives, with every
    occurrence counted once; a log line's date is the one it was written at. *)

(** ** Years *)

Ltac div_lia := Z.to_euclidean_division_equations; lia.

Lemma day_of_year_step y : day_of_year (y + 1) - day_of_year y = 365 ∨ day_of_year (y + 1) - day_of_year y = 366.
Proof. unfold day_of_year. div_lia. Qed.
Lemma leap_days y : day_of_year (y + 1) = day_of_year y + 365 + (if leap y then 1 else 0).
Proof. unfold leap. pose proof (day_of_year_step y). destruct (Z.eqb_spec (day_of_year (y + 1) - day_of_year y) 366); lia. Qed.
Lemma not_leap_twice y : leap y = true → leap (y + 1) = false.
Proof. unfold leap. rewrite Z.eqb_eq, Z.eqb_neq. unfold day_of_year. div_lia. Qed.

Lemma day_of_year_mono y z : y ≤ z → day_of_year y ≤ day_of_year z.
Proof. unfold day_of_year. div_lia. Qed.
Lemma day_of_year_unique y z d : day_of_year y ≤ d < day_of_year (y + 1) → day_of_year z ≤ d < day_of_year (z + 1) → y = z.
Proof.
  intros Hy Hz. destruct (Z.lt_trichotomy y z) as [H|[H|H]]; [|done|].
  - pose proof (day_of_year_mono (y + 1) z ltac:(lia)). lia.
  - pose proof (day_of_year_mono (z + 1) y ltac:(lia)). lia.
Qed.

(** The year of an instant is the one whose days include it. *)
Lemma year_of_spec t : day_of_year (year_of t) ≤ t / day_ms < day_of_year (year_of t + 1).
Proof.
  unfold year_of. set (d := t / day_ms). clearbody d. set (y := 1970 + d * 400 / 146097).
  assert (day_of_year (y - 1) ≤ d < day_of_year (y + 2)) as Hy by (unfold y, day_of_year; div_lia).
  destruct (Z.ltb_spec d (day_of_year y)); [replace (y - 1 + 1) with y by lia; lia|].
  destruct (Z.leb_spec (day_of_year (y + 1)) d); [replace (y + 1 + 1) with (y + 2) by lia; lia|lia].
Qed.
Lemma year_of_unique t y : day_of_year y ≤ t / day_ms < day_of_year (y + 1) → year_of t = y.
Proof. intros Hy. by apply (day_of_year_unique _ _ (t / day_ms)), Hy; apply year_of_spec. Qed.

(** A date that the calendar has. *)
Definition month_days (lp : bool) (m : Z) : Z := (if m =? 11 then 365 + (if lp then 1 else 0) else before_month lp (m + 1)) - before_month lp m.
Record valid_date (y mo dd h mi s ms : Z) : Prop := {
  vd_month : 1 ≤ mo ≤ 12; vd_day : 1 ≤ dd ≤ month_days (leap y) (mo - 1);
  vd_hour : 0 ≤ h < 24; vd_minute : 0 ≤ mi < 60; vd_second : 0 ≤ s < 60; vd_ms : 0 ≤ ms < 1000;
}.

Lemma before_month_bounds lp m : 0 ≤ m ≤ 11 → 0 ≤ before_month lp m ∧ before_month lp m + month_days lp m ≤ 365 + (if lp then 1 else 0).
Proof.
  intros Hm. assert (m = 0 ∨ m = 1 ∨ m = 2 ∨ m = 3 ∨ m = 4 ∨ m = 5 ∨ m = 6 ∨ m = 7 ∨ m = 8 ∨ m = 9 ∨ m = 10 ∨ m = 11) as Hc by lia.
  destruct Hc as [->|[->|[->|[->|[->|[->|[->|[->|[->|[->|[->| ->]]]]]]]]]]]; destruct lp; vm_compute; split; congruence.
Qed.
Lemma before_month_leap lp m : before_month lp m = before_month false m + (if (2 <=? m) && lp then 1 else 0).
Proof. unfold before_month. rewrite andb_false_r. lia. Qed.

Lemma Date_UTC_day y mo dd h mi s ms : valid_date y mo dd h mi s ms →
  Date_UTC y (mo - 1) dd h mi s ms / day_ms = day_of_year y + before_month (leap y) (mo - 1) + dd - 1.
Proof.
  intros [Hmo Hdd Hh Hmi Hs Hms]. unfold Date_UTC. rewrite (Z.div_small (mo - 1) 12), (Z.mod_small (mo - 1) 12), Z.add_0_r by lia.
  symmetry. apply (Z.div_unique _ _ _ (h * 3600000 + mi * 60000 + s * 1000 + ms)); unfold day_ms; lia.
Qed.
Lemma Date_UTC_year y mo dd h mi s ms : valid_date y mo dd h mi s ms → year_of (Date_UTC y (mo - 1) dd h mi s ms) = y.
Proof.
  intros Hv. apply year_of_unique. rewrite (Date_UTC_day _ _ _ _ _ _ _ Hv). destruct Hv as [Hmo Hdd _ _ _ _].
  pose proof (before_month_bounds (leap y) (mo - 1) ltac:(lia)). rewrite leap_days. lia.
Qed.

(** The same date a year later is at least 365 days later. *)
Lemma next_year y mo dd h mi s ms : valid_date y mo dd h mi s ms →
  Date_UTC y (mo - 1) dd h mi s ms + 365 * day_ms ≤ Date_UTC (y + 1) (mo - 1) dd h mi s ms.
Proof.
  intros [Hmo _ _ _ _ _]. unfold Date_UTC. rewrite (Z.div_small (mo - 1) 12), (Z.mod_small (mo - 1) 12), !Z.add_0_r by lia.
  pose proof (leap_days y) as Hl. pose proof (not_leap_twice y) as Hn. rewrite (before_month_leap (leap y)), (before_month_leap (leap (y + 1))).
  destruct (2 <=? mo - 1); destruct (leap y); try (rewrite Hn by done); destruct (leap (y + 1)); simpl; unfold day_ms; lia.
Qed.

Definition millis (micros : string) : Z :=
  digits_val (let d := str_take 3 micros in d +++ String.concat EmptyString (replicate (3 - String.length d) "0")).

(** The date of a log line, which leaves the year out, is read back as the instant it was written at, as
    long as that is less than 364 days ago. *)
Theorem klog_time_recovered y mo dd h mi s micros now :
  valid_date y mo dd h mi s (millis micros) →
  now - 364 * day_ms < Date_UTC y (mo - 1) dd h mi s (millis micros) ≤ now →
  klogTime mo dd h mi s micros now = Date_UTC y (mo - 1) dd h mi s (millis micros).
Proof.
  intros Hv [Hold Hnew]. pose proof (Date_UTC_year _ _ _ _ _ _ _ Hv) as Hy. pose proof (next_year _ _ _ _ _ _ _ Hv) as Hnext.
  unfold klogTime. fold (millis micros). set (t := Date_UTC y (mo - 1) dd h mi s (millis micros)) in *.
  assert (year_of now = y ∨ year_of now = y + 1) as [Hn|Hn].
  { pose proof (year_of_spec t) as Ht. pose proof (year_of_spec now) as Hnow. rewrite Hy in Ht.
    pose proof (Z.div_le_mono t now day_ms ltac:(done) Hnew). assert (now / day_ms ≤ t / day_ms + 364) as Hd.
    { replace (t / day_ms + 364) with ((t + 364 * day_ms) / day_ms) by (by rewrite Z.div_add). apply Z.div_le_mono; [done|lia]. }
    destruct (Z.lt_trichotomy (year_of now) y) as [Hlt|[->|Hlt]]; [|by left|].
    - pose proof (day_of_year_mono (year_of now + 1) y ltac:(lia)). lia.
    - right. destruct (Z.eq_dec (year_of now) (y + 1)) as [|Hne]; [done|].
      pose proof (day_of_year_mono (y + 2) (year_of now) ltac:(lia)). pose proof (leap_days (y + 1)) as Hl.
      replace (y + 1 + 1) with (y + 2) in Hl by lia. destruct (leap (y + 1)); lia. }
  - rewrite Hn. fold t. destruct (Z.ltb_spec day_ms (t - now)); [|done]. unfold day_ms in *. lia.
  - rewrite Hn. replace (y + 1 - 1) with y by lia. fold t.
    destruct (Z.ltb_spec day_ms (Date_UTC (y + 1) (mo - 1) dd h mi s (millis micros) - now)); [done|]. unfold day_ms in *. lia.
Qed.

(** The controllers' clock a second ahead at the turn of the year: the line is dated a year too early. *)
Theorem ahead_at_new_year :
  let now := Date_UTC 2026 11 31 23 59 59 500 in
  klogTime 1 1 0 0 0 "000000" now = Date_UTC 2026 0 1 0 0 0 0 ∧ Date_UTC 2027 0 1 0 0 0 0 = now + 500.
Proof. vm_compute. done. Qed.

(** ** The timeline *)

(** The later occurrences of a line that is not an event. *)
Definition occurrences (k : string) (l : list ActivityEntry) : list ActivityEntry :=
  js_filter (λ x, negb (is_event x) && bool_decide (activity_key x = k)) l.
Definition with_repeats (e : ActivityEntry) (later : list ActivityEntry) : ActivityEntry := foldl (λ f x, fold_in x f) e later.

(** Every event, and every line at its first occurrence, with the others folded into it. *)
Fixpoint timeline (seen : list string) (l : list ActivityEntry) : list ActivityEntry :=
  match l with
  | [] => []
  | e :: l =>
      if is_event e then e :: timeline seen l
      else if includes seen (activity_key e) then timeline seen l
      else with_repeats e (occurrences (activity_key e) l) :: timeline (activity_key e :: seen) l
  end.

(** What is left to fold into an entry that is out already. *)
Definition catch_up (l : list ActivityEntry) (e : ActivityEntry) : ActivityEntry :=
  if is_event e then e else with_repeats e (occurrences (activity_key e) l).

Lemma fold_in_event x e : is_event (fold_in x e) = is_event e. Proof. done. Qed.
Lemma fold_in_key x e : activity_key (fold_in x e) = activity_key e. Proof. done. Qed.

Lemma occurrences_cons k x l :
  occurrences k (x :: l) = if negb (is_event x) && bool_decide (activity_key x = k) then x :: occurrences k l else occurrences k l.
Proof. done. Qed.
Lemma occurrences_other k x l : is_event x = true ∨ activity_key x ≠ k → occurrences k (x :: l) = occurrences k l.
Proof. rewrite occurrences_cons. intros [->|Hk]; [done|]. by rewrite bool_decide_eq_false_2, andb_false_r. Qed.
Lemma occurrences_same k x l : is_event x = false → activity_key x = k → occurrences k (x :: l) = x :: occurrences k l.
Proof. rewrite occurrences_cons. intros -> ->. by rewrite bool_decide_eq_true_2. Qed.

(** [seen] tells where the lines that are out are. *)
Definition seen_ok (s : Merging) : Prop :=
  ∀ k i, map_get (mg_seen s) k = Some i ↔ ∃ e, mg_out s !! i = Some e ∧ is_event e = false ∧ activity_key e = k.

Lemma timeline_seen seen seen' l : (∀ k, k ∈ seen ↔ k ∈ seen') → timeline seen l = timeline seen' l.
Proof.
  revert seen seen'. induction l as [|e l IH]; intros seen seen' Hs; [done|]. cbn [timeline].
  assert (includes seen (activity_key e) = includes seen' (activity_key e)) as -> by (apply bool_decide_ext, Hs).
  destruct (is_event e); [f_equal; by apply IH|]. destruct (includes seen' _); [by apply IH|]. f_equal. apply IH. intros k.
  rewrite !elem_of_cons, Hs. done.
Qed.

Lemma merge_one_spec s x l : seen_ok s →
  seen_ok (merge_one s x)
  ∧ (catch_up l <$> mg_out (merge_one s x)) ++ timeline (mg_seen (merge_one s x)).*1 l
    = (catch_up (x :: l) <$> mg_out s) ++ timeline (mg_seen s).*1 (x :: l).
Proof.
  intros Hs. unfold merge_one. cbn [timeline]. destruct (is_event x) eqn:Hx.
  - split.
    + intros k i. cbn [mg_seen mg_out]. rewrite (Hs k i). split.
      * intros (e & He & H). exists e. split; [by apply lookup_app_l_Some|done].
      * intros (e & He & H). apply lookup_snoc_Some in He as [[_ He]|[_ <-]]; [by exists e|]. rewrite Hx in H. by destruct H.
    + cbn [mg_out mg_seen]. rewrite fmap_app, <-(assoc_L (++)). f_equal; [|unfold catch_up; cbn; by rewrite Hx].
      apply list_fmap_ext. intros i e _. unfold catch_up. destruct (is_event e); [done|]. by rewrite occurrences_other by (by left).
  - destruct (map_get (mg_seen s) (activity_key x)) as [i|] eqn:Hi.
    + pose proof (proj1 (Hs _ _) Hi) as (e & He & Hee & Hek).
      assert (includes (mg_seen s).*1 (activity_key x) = true) as Hin.
      { apply includes_spec. apply map_get_Some_elem in Hi. by apply (list_elem_of_fmap_2 fst) in Hi. }
      split.
      * intros k j. cbn [mg_seen mg_out]. rewrite (Hs k j). destruct (decide (i = j)) as [<-|Hne].
        -- rewrite list_lookup_alter_eq, He. cbn. split; intros (e' & [= <-] & H); eexists; (split; [done|exact H]).
        -- by rewrite list_lookup_alter_ne.
      * cbn [mg_out mg_seen]. rewrite Hin. f_equal. apply list_eq. intros j. rewrite !list_lookup_fmap.
        destruct (decide (i = j)) as [<-|Hne].
        -- rewrite list_lookup_alter_eq, He. cbn. f_equal. unfold catch_up. rewrite fold_in_event, fold_in_key, Hee.
           by rewrite (occurrences_same _ x) by done.
        -- rewrite list_lookup_alter_ne by done. destruct (mg_out s !! j) as [e'|] eqn:Hj; [|done]. cbn. f_equal. unfold catch_up.
           destruct (is_event e') eqn:He'; [done|]. rewrite occurrences_other; [done|]. right. intros Hk. apply Hne.
           assert (map_get (mg_seen s) (activity_key x) = Some j) as Hj' by (apply Hs; by exists e'). congruence.
    + assert (∀ e j, mg_out s !! j = Some e → is_event e = false → activity_key e ≠ activity_key x) as Hnew.
      { intros e j He Hee Hk. assert (map_get (mg_seen s) (activity_key x) = Some j) as Hj by (apply Hs; by exists e). congruence. }
      assert (includes (mg_seen s).*1 (activity_key x) = false) as Hin.
      { apply includes_false. by apply map_get_None. }
      split.
      * intros k j. cbn [mg_seen mg_out]. destruct (decide (k = activity_key x)) as [->|Hne].
        -- rewrite map_get_set, bool_decide_eq_true_2 by done. split.
           ++ intros [= <-]. exists x. split; [by rewrite lookup_app_r, Nat.sub_diag|done].
           ++ intros (e & He & Hee & Hk). apply lookup_snoc_Some in He as [[_ He]|[-> _]]; [by destruct (Hnew e j)|done].
        -- rewrite map_get_set, bool_decide_eq_false_2 by done. rewrite (Hs k j). split.
           ++ intros (e & He & H). exists e. split; [by apply lookup_app_l_Some|done].
           ++ intros (e & He & Hee & Hk). apply lookup_snoc_Some in He as [[_ He]|[_ <-]]; [by exists e|by destruct Hne].
      * cbn [mg_out mg_seen]. rewrite Hin, fmap_app, <-(assoc_L (++)). f_equal.
        -- apply list_fmap_ext. intros j e Hj. unfold catch_up. destruct (is_event e) eqn:Hee; [done|].
           rewrite occurrences_other; [done|]. right. intros Hk. by destruct (Hnew e j Hj Hee).
        -- cbn. f_equal; [unfold catch_up; by rewrite Hx|]. apply timeline_seen. intros k. rewrite elem_of_cons.
           apply map_get_None in Hi. rewrite map_set_keys, bool_decide_eq_false_2, elem_of_app, list_elem_of_singleton by done. tauto.
Qed.

Lemma merge_from s l : seen_ok s →
  mg_out (foldl merge_one s l) = (catch_up l <$> mg_out s) ++ timeline (mg_seen s).*1 l.
Proof.
  revert s. induction l as [|x l IH]; intros s Hs; cbn [foldl].
  - cbn [timeline]. rewrite app_nil_r. symmetry. etrans; [|apply list_fmap_id]. apply list_fmap_ext. intros i e _.
    unfold catch_up. by destruct (is_event e).
  - destruct (merge_one_spec s x l Hs) as [Hs' Heq]. by rewrite IH, Heq.
Qed.
Lemma merge_all_timeline l : merge_all l = timeline [] l.
Proof. unfold merge_all. rewrite merge_from; [done|]. intros k i. split; [done|by intros (e & He & _)]. Qed.

Definition total (l : list ActivityEntry) : Z := foldr (λ e n, ac_count e + n) 0 l.
Lemma total_cons e l : total (e :: l) = ac_count e + total l.
Proof. done. Qed.
Lemma total_with_repeats e l : ac_count (with_repeats e l) = ac_count e + total l.
Proof. revert e. induction l as [|x l IH]; intros e; [cbn; lia|].
  change (with_repeats e (x :: l)) with (with_repeats (fold_in x e) l). rewrite IH, total_cons. cbn [fold_in ac_count]. lia.
Qed.
Lemma time_with_repeats e l : ac_time (with_repeats e l) = ac_time e.
Proof. revert e. induction l as [|x l IH]; intros e; [done|]. exact (IH (fold_in x e)). Qed.
Lemma key_with_repeats e l : activity_key (with_repeats e l) = activity_key e ∧ is_event (with_repeats e l) = is_event e.
Proof. revert e. induction l as [|x l IH]; intros e; [done|]. exact (IH (fold_in x e)). Qed.

(** The lines of [l] that a timeline after [seen] leaves out. *)
Definition skipped (seen : list string) (l : list ActivityEntry) : list ActivityEntry :=
  js_filter (λ x, negb (is_event x) && includes seen (activity_key x)) l.
Lemma skipped_eq seen x l : skipped seen (x :: l) = if negb (is_event x) && includes seen (activity_key x) then x :: skipped seen l else skipped seen l.
Proof. done. Qed.
Lemma skipped_cons k seen l : k ∉ seen → total (skipped (k :: seen) l) = total (skipped seen l) + total (occurrences k l).
Proof.
  intros Hk. induction l as [|x l IH]; [done|]. rewrite occurrences_cons, !skipped_eq. destruct (is_event x); cbn [negb andb]; [exact IH|].
  destruct (decide (activity_key x = k)) as [->|Hne].
  - assert (includes (k :: seen) k = true) as -> by (apply includes_spec; by left). rewrite (proj2 (includes_false seen k) Hk).
    rewrite bool_decide_eq_true_2 by done. rewrite !total_cons. lia.
  - rewrite bool_decide_eq_false_2 by done. destruct (includes seen (activity_key x)) eqn:Hs.
    + apply includes_spec in Hs. assert (includes (k :: seen) (activity_key x) = true) as -> by (apply includes_spec; by right).
      rewrite !total_cons. lia.
    + apply includes_false in Hs. assert (includes (k :: seen) (activity_key x) = false) as ->; [|exact IH].
      apply includes_false. by intros [|]%elem_of_cons.
Qed.

Lemma timeline_total seen l : total (timeline seen l) + total (skipped seen l) = total l.
Proof.
  revert seen. induction l as [|e l IH]; intros seen; [done|]. cbn [timeline]. rewrite skipped_eq, total_cons.
  destruct (is_event e) eqn:He; cbn [negb andb].
  - rewrite total_cons. specialize (IH seen). lia.
  - destruct (includes seen (activity_key e)) eqn:Hin; [rewrite total_cons; specialize (IH seen); lia|].
    rewrite total_cons, total_with_repeats. apply includes_false in Hin.
    specialize (IH (activity_key e :: seen)). rewrite skipped_cons in IH by done. lia.
Qed.

Definition line_keys (l : list ActivityEntry) : list string := activity_key <$> js_filter (λ x, negb (is_event x)) l.
Lemma timeline_keys seen l : NoDup (line_keys (timeline seen l)) ∧ ∀ k, k ∈ line_keys (timeline seen l) → k ∉ seen.
Proof.
  revert seen. induction l as [|e l IH]; intros seen; [split; [constructor|intros k Hk; by apply elem_of_nil in Hk]|]. cbn [timeline].
  destruct (is_event e) eqn:He.
  - unfold line_keys. cbn [js_filter List.filter]. rewrite He. apply IH.
  - destruct (includes seen (activity_key e)) eqn:Hin; [apply IH|]. apply includes_false in Hin.
    set (e' := with_repeats e _). destruct (key_with_repeats e (occurrences (activity_key e) l)) as [Hk He']. fold e' in Hk, He'.
    unfold line_keys. cbn [js_filter List.filter]. rewrite He', He. cbn [negb fmap list_fmap]. rewrite Hk.
    destruct (IH (activity_key e :: seen)) as [Hnd Hout]. split.
    + apply NoDup_cons. split; [|exact Hnd]. intros Hbad. apply (Hout _ Hbad). by left.
    + intros k [->|Hk']%elem_of_cons; [done|]. intros Hs. apply (Hout k Hk'). by right.
Qed.

Lemma timeline_times seen l : (ac_time <$> timeline seen l) `sublist_of` (ac_time <$> l).
Proof.
  revert seen. induction l as [|e l IH]; intros seen; [done|]. cbn [timeline]. destruct (is_event e); [by apply sublist_skip|].
  destruct (includes seen _); [by apply sublist_cons|]. cbn [fmap list_fmap]. rewrite time_with_repeats. by apply sublist_skip.
Qed.

Lemma StronglySorted_sublist_of {A} (R : A → A → Prop) l k : l `sublist_of` k → StronglySorted R k → StronglySorted R l.
Proof.
  induction 1 as [|x l k Hl IH|x l k Hl IH]; intros Hk; [done| |].
  - apply StronglySorted_inv in Hk as [Hk Hx]. constructor; [by apply IH|].
    rewrite Forall_forall in *. intros y Hy. apply Hx. by eapply elem_of_submseteq, sublist_submseteq.
  - apply StronglySorted_inv in Hk as [Hk _]. by apply IH.
Qed.
Lemma StronglySorted_fmap_inv {A B} (f : A → B) (R : B → B → Prop) l : StronglySorted R (f <$> l) ↔ StronglySorted (λ a b, R (f a) (f b)) l.
Proof.
  induction l as [|x l IH]; [split; constructor|]. cbn. split; intros H; apply StronglySorted_inv in H as [H1 H2]; constructor.
  - by apply IH.
  - exact (proj1 (Forall_fmap _ _ _) H2).
  - by apply IH.
  - exact (proj2 (Forall_fmap _ _ _) H2).
Qed.

Lemma map_get_filter_keep {V} (p : string * V → bool) (m : js_map string V) k v : map_get m k = Some v → p (k, v) = true → map_get (js_filter p m) k = Some v.
Proof.
  induction m as [|[x y] m IH]; cbn; [done|]. case_bool_decide; intros Hm Hp; simplify_eq.
  - rewrite Hp. cbn. by rewrite bool_decide_eq_true_2.
  - destruct (p (x, y)); cbn; [rewrite bool_decide_eq_false_2 by done|]; by apply IH.
Qed.

Lemma total_perm l k : l ≡ₚ k → total l = total k.
Proof. induction 1; rewrite ?total_cons; lia. Qed.

Global Instance oldest_first_comparator `{!Locale} : Comparator oldest_first.
Proof. apply (comparator_on ac_time locale_compare), _. Qed.

(** C39: the timeline shows the newest entries of a full one, which is every event and every log line at its
    first occurrence with the others folded into it: every occurrence is counted once, no line of a
    controller stands twice, and the oldest comes first. *)
Theorem merge_is_timeline `{!Locale} sets limit :
  let sorted := js_sort oldest_first (mjoin sets) in
  mergeActivity sets limit = slice_last limit (timeline [] sorted)
  ∧ total (timeline [] sorted) = total (mjoin sets)
  ∧ NoDup (line_keys (timeline [] sorted))
  ∧ StronglySorted (λ a b, locale_compare (ac_time a) (ac_time b) ≠ Gt) (timeline [] sorted).
Proof.
  intros sorted. split; [unfold mergeActivity; by rewrite merge_all_timeline|]. split; [|split].
  - pose proof (timeline_total [] sorted) as Ht. assert (skipped [] sorted = []) as Hs.
    { unfold skipped. apply js_filter_nil. intros x _. by rewrite andb_false_r. }
    rewrite Hs in Ht. cbn in Ht. rewrite Z.add_0_r in Ht. rewrite Ht. apply total_perm, js_sort_perm.
  - apply timeline_keys.
  - apply (StronglySorted_fmap_inv ac_time (λ a b, locale_compare a b ≠ Gt)). eapply StronglySorted_sublist_of; [apply timeline_times|].
    apply (StronglySorted_fmap_inv ac_time (λ a b, locale_compare a b ≠ Gt)).
    apply (js_sort_sorted oldest_first).
Qed.

(** Asking again within [ACTIVITY_TTL_MS] reads nothing, and shows the newest of what was read. *)
Theorem activity_shared `{!Locale} json_string date_parse cache p p' name since limit limit' now now' :
  cached cache name since limit now = None → now ≤ now' < now + ACTIVITY_TTL_MS →
  let first := getClusterActivity json_string date_parse cache p name since limit now in
  getClusterActivity json_string date_parse first.1 p' name since limit' now'
  = (first.1, slice_last (Z.to_nat limit') (read_activity json_string date_parse p name since now)).
Proof.
  intros Hc Hnow first.
  assert (first.1 = remember cache name since now (read_activity json_string date_parse p name since now)) as ->
    by (unfold first, getClusterActivity; by rewrite Hc).
  unfold getClusterActivity, cached, remember.
  rewrite map_get_filter_keep with (v := {| ca_at := now; ca_entries := read_activity json_string date_parse p name since now |}).
  - cbn [ca_at ca_entries]. unfold ACTIVITY_TTL_MS in *. destruct (Z.ltb_spec (now' - now) 3000); [done|lia].
  - by rewrite map_get_set, bool_decide_eq_true_2.
  - cbn [ca_at snd]. unfold ACTIVITY_TTL_MS in *. destruct (Z.ltb_spec 60000 (now - now)); [lia|done].
Qed.

(** ** Examples *)

(** [JSON.parse] of a string without escapes other than of quotes and backslashes. *)
Fixpoint unescape (s : string) : option string :=
  match s with
  | EmptyString => None
  | String c r =>
      if is_quote c then (if truthy_str r then None else Some EmptyString)
      else if is_backslash c then match r with String d r => String d <$> unescape r | EmptyString => None end
      else String c <$> unescape r
  end.
Definition demo_json (s : string) : option string := match s with String c r => if is_quote c then unescape r else None | EmptyString => None end.

Definition kv (k v : string) : string := " " +++ k +++ "=" +++ quoted v.
Definition demo_line (head message rest : string) : string := head +++ " " +++ quoted message +++ rest.
Definition demo_lines : list string :=
  [demo_line "I0923 19:58:50.803931       1 scale.go:52]" "Machine default/c1-w created (init)"
     (kv "controller" "kubeadmcontrolplane" +++ kv "controllerKind" "KubeadmControlPlane" +++ kv "KubeadmControlPlane" "default/c1-wlrcr" +++ kv "Cluster" "default/c1" +++ " replicas=0");
   demo_line "E0923 19:59:25.384824       1 cluster_accessor.go:263]" "Connect failed"
     (kv "err" ("Get \" +++ quoted "https://10.133.241.59:6443/\" +++ ": timeout") +++ kv "controllerKind" "Cluster" +++ kv "Cluster" "default/c1");
   demo_line "I0924 22:03:11.955130       1 kubeadmcontrolplane_controller.go:405]" "Reconcile KubeadmControlPlane" (kv "Cluster" "default/c1");
   demo_line "I0923 20:00:21.497476       1 machine_controller_phases.go:315]" "Waiting" (kv "Cluster" "default/c10");
   demo_line "I0923 19:59:50.803931       1 scale.go:52]" "Machine default/c1-w created (init)"
     (kv "controllerKind" "KubeadmControlPlane" +++ kv "KubeadmControlPlane" "default/c1-wlrcr" +++ kv "Cluster" "default/c1");
   "W: something else"].
Definition demo_today : Z := Date_UTC 2026 8 25 12 0 0 0.

Example demo_iso : toISOString demo_today = "2026-09-25T12:00:00.000Z" ∧ toISOString (Date_UTC 2024 1 29 3 4 5 67) = "2024-02-29T03:04:05.067Z".
Proof. vm_compute. done. Qed.

Example demo_log :
  (λ e, (ac_time e, ac_object e, ac_message e)) <$> logActivity demo_json demo_lines "capi" "default/c1" 0 demo_today
  = [("2026-09-23T19:58:50.803Z", Some "KubeadmControlPlane/c1-wlrcr", "Machine default/c1-w created (init)");
     ("2026-09-23T19:59:25.384Z", Some "Cluster/c1", "Connect failed: Get " +++ quoted "https://10.133.241.59:6443/" +++ ": timeout");
     ("2026-09-23T19:59:50.803Z", Some "KubeadmControlPlane/c1-wlrcr", "Machine default/c1-w created (init)")].
Proof. vm_compute. done. Qed.

Example demo_timeline :
  (λ e, (ac_time e, ac_lastTime e, ac_count e))
    <$> @mergeActivity code_unit_locale [logActivity demo_json demo_lines "capi" "default/c1" 0 demo_today] 500
  = [("2026-09-23T19:58:50.803Z", Some "2026-09-23T19:59:50.803Z", 2); ("2026-09-23T19:59:25.384Z", None, 1)].
Proof. vm_compute. done. Qed.

Lemma klog_time_recovered_witness :
  klogTime 12 31 23 59 0 "000000" (Date_UTC 2027 0 1 0 10 0 0) = Date_UTC 2026 (12 - 1) 31 23 59 0 (millis "000000").
Proof.
  apply (klog_time_recovered 2026 12 31 23 59 0 "000000" (Date_UTC 2027 0 1 0 10 0 0)).
  - split; vm_compute; split; congruence.
  - split; vm_compute; congruence.
Defined.
